(* ===== verification/_CoqProject ===== *)
-Q . S2P
Prelude.v
Avl.v
Limits.v
Text.v
Types.v
Invocation.v
Cost.v
Canon.v
Data.v
DataValid.v
Policy.v
Caller.v
Requests.v
Events.v
Status.v
Revisions.v
Domain.v
Index.v
Cursor.v
Fingerprint.v
Evidence.v
Extensions.v
Recency.v
PointerCache.v
RevisionCache.v
StoreData.v
SqliteCodec.v
SqliteData.v
SqliteCursor.v
SqliteDb.v
SqliteStore.v
Runtime.v
Evaluator.v
EvaluatorProofs.v
AppFingerprint.v
Session.v
Services.v
Engine.v
ServiceSafety.v
SessionProofs.v
ServiceProofs.v
MemState.v
MemEvents.v
MemOps.v
MemData.v
MemInv.v
MemCommit.v
MemProtocol.v
MemWrite.v
MemSlots.v
MemRevisions.v
MemConc.v
MemSnapshot.v
MemWait.v
MemReads.v
MemLists.v
SqliteEffects.v
SqliteFacts.v
SqliteWrite.v
SqlitePolicies.v
SqliteProgress.v
SqliteReads.v
Witnesses.v
WitnessesReads.v
WitnessesCore.v
WitnessesServices.v
WitnessesSqlite.v
