(* ===== verification/Prelude.v ===== *)
(** * Verification of the policy engine

    The engine answers authorization checks against compiled policies and
    relationship data. Policies are published as content-addressed revisions
    and made live by activating a slot; data are tuples and attributes written
    under idempotency keys and read through snapshots; a check resolves a
    policy and a data snapshot, evaluates, and binds the answer to evidence.

    ** Parts of the program and where they are modelled

    Values and validation (package policyengine):
    - errors.go, limits.go: [ErrorCategory] and [result] here, the hard maxima
      and the machine-width [budgetCounter] in Limits.v, [EngineError] and Go
      errors in Invocation.v;
    - validation.go: Text.v (UTF-8, unsafe runes, identifiers, namespaces and
      patterns, canonical lists);
    - cost.go: Cost.v, and next to the values they measure in Requests.v,
      Status.v, Evidence.v, Extensions.v;
    - data.go: Data.v (values, tuples, attributes, contextual data, write
      requests) and DataValid.v (re-validation of received values); Canon.v
      holds the generic sort-and-compact argument both use;
    - policy.go: Policy.v; events.go: Events.v and Status.v; caller.go:
      Caller.v; authorization.go: Requests.v; evidence.go: Evidence.v;
      extensions.go and invocation.go: Invocation.v and Extensions.v.
    The records shared by these files are in Types.v.

    Store contracts (package store): revisions.go in Revisions.v,
    idempotency.go in Fingerprint.v, data.go in StoreData.v.

    The in-memory store (package store/memory):
    - indexed.go: Avl.v (one generic persistent AVL tree for the four copies of
      the source) and Index.v (its instances, the pager, the attribute trie);
    - cursors.go: Cursor.v;
    - store.go: MemState.v (the store record, reservations, waiters, clocks);
    - events.go: MemEvents.v; revisions.go, slots.go, idempotency.go, and the
      reads: MemOps.v; data.go: MemSnapshot.v;
    - the proofs: MemData.v and MemInv.v (abstraction and invariant),
      MemCommit.v and MemProtocol.v (the two-section commit protocol),
      MemWrite.v, MemSlots.v, MemRevisions.v (one per operation), MemConc.v
      (interleavings), MemWait.v (waiting snapshots), MemReads.v and
      MemLists.v (reads, pages and feeds).

    The SQLite store (package store/sqlite):
    - codec.go: SqliteCodec.v; tuples.go, attributes.go and the records of
      idempotency.go: SqliteData.v; cursors.go: SqliteCursor.v;
    - migrations/0001_initial.sql, writer.go, errors.go: SqliteDb.v. A table is
      a finite map from its primary key, a SQL statement a function on the
      tables that fails on a violated constraint, and a transaction callback a
      program in the state monad [tx]. The environment of a transaction says
      of every numbered step what the context answers and whether the
      statement fails, so that a theorem over all environments covers every
      fault; queries outside a transaction may each see other tables. COMMIT is
      acknowledged, fails, or takes effect and reports an error, as the driver
      does when the context ends meanwhile; [writer_turn] is one turn of the
      writer's loop on its connection;
    - idempotency.go, events.go, slots.go, revisions.go, snapshot.go, data.go:
      SqliteStore.v;
    - the proofs: SqliteEffects.v (a relational logic for callbacks, atomicity,
      heads and the event stream), SqliteFacts.v (the facts that the tables
      hold), SqliteWrite.v and SqlitePolicies.v (data writes, publication and
      activation), SqliteProgress.v (calls that nothing disturbs), SqliteReads.v
      (snapshot reads).

    Caches (package internal/cache): Recency.v, PointerCache.v,
    RevisionCache.v.

    The rules of a compiled policy (internal/domain): Domain.v (the schema
    index, what a tuple or an attribute must match, the query plans). The
    evaluator adapter and the artifact loader (internal/eval): Evaluator.v,
    with its proofs in EvaluatorProofs.v.

    The application services (internal/app):
    - Runtime.v holds the free monad [prog] in which the services are written.
      Its operations are the calls a service makes on its ports (store reads
      and writes, snapshot reads and close, the caller's authorizer, the
      approval verifiers, the sinks, the clock and the context); the answer of
      each port is unconstrained, so that a theorem about every run holds of
      every store. [runs] relates a program to the traces of calls and answers
      it can produce, [exec] runs it against concrete ports, and [only] is the
      program logic by which the safety theorems are proved;
    - fingerprint.go: AppFingerprint.v; the sessions, budgets, Check,
      BatchCheck and Explain: Session.v; publication, activation, data
      writes, lists, events and status: Services.v;
    - the root package's options.go and the assembly of an engine (package
      embedded): Engine.v;
    - the proofs: ServiceSafety.v (what every endpoint may call, and when),
      SessionProofs.v and ServiceProofs.v (what an answered call means).

    ** How the model reads

    A Go function that returns [(T, error)] is a function to [result T]; the
    sanitized error category is the error. Loops are [Fixpoint]s or folds in
    the order of the source; a loop that stops early returns early. Integers
    are [Z] with the wrap of their width written where it can occur ([int64],
    the budget counter, generations). Times are [Z], zero being the zero time:
    an instant, without location and monotonic reading; the one place that
    compares [time.Time] structs takes the rest as a flag ([snp_sameStruct]).
    A closed context has an error, as its interface documents.
    A context is the sequence of answers it gives at the numbered points where
    the code asks it. Maps are [gmap]; where Go ranges over a map the result
    is proved independent of the order. A method that mutates a receiver
    returns the new one; methods under a mutex are single transitions, and
    code between two critical sections is interleaved by a step relation
    (MemConc.v, MemWait.v, MemSnapshot.v, Invocation.v, RevisionCache.v).
    Objects compared by address (reservations, wait channels, fill states,
    revision calls) carry references drawn from a counter or a heap.

    ** What the theorems show

    - Store: a write commits exactly the specified change or changes nothing
      and, in every interleaving, nothing durable is lost, reservations are
      exclusive, re-validation never fails, and all calls can finish; replays
      return the recorded answer; activation is a compare-and-swap;
      publication is create-once; snapshots read exactly the pinned facts and
      wait without losing a wake-up, which is derived from the notification of
      every commit; pages and feeds are complete and gapless.
    - SQLite store: a data write, whatever fails, leaves the tables untouched,
      replays, or commits the very change of facts that the in-memory store
      is shown to commit ([sqlite_write_refines]); a committed write is
      replayed even when its answer was lost ([sqlite_retry_replays]);
      undisturbed calls with an admissible input commit ([sqlite_commits]);
      publication is create-once and activation a compare-and-swap
      ([sqlite_publish_once], [sqlite_activate_cas]); snapshot reads answer
      exactly the facts held ([sqlite_reads_exact]); decoders accept exactly
      what encoders produce ([durable_codecs_exact], [sqlite_cursor_exact]).
      Three examples show what the code does besides: a page of events that is
      read across a concurrent prune may skip events
      ([list_events_skips_pruned]); a write whose caller left commits without
      waking a waiting snapshot ([abandoned_write_unannounced]); a connection on
      which BEGIN opened a transaction and reported an error refuses every later
      write ([unreported_begin_stays], [busy_writer_refuses]).
    - Values: constructors accept exactly what their documentation says and
      agree with the validators that re-check received values; fingerprints,
      cursors and evidence digests identify their contents up to a collision
      of the hash.
    - Authority: the capability gate and the approval verifier are
      characterised exactly; extension slots are never leaked.
    - Caches: bounded, single-flight, never older than what was reported.
    - Domain: the index of a schema accepts a fact exactly when a declaration
      of the compiled schema does ([schema_exact]).
    - Services: no endpoint touches the store before the caller was admitted
      ([caller_gate]); an evaluation asks for at most one snapshot, which is read
      only while open and closed exactly once ([snapshot_discipline]); an
      answered check carries the decision of the reference evaluator over the
      facts of the pinned snapshot and an allowed one carries every approval
      the policy requires ([check_decides]), and a batch or an explanation
      answers item by item what a check answers ([batch_decides],
      [explain_decides]); a write reaches the store only with data the
      schema of the named validation revision admits ([data_write_admitted]); publication
      stores exactly the compiled artifact ([publish_exact]); a request for a
      generation beyond the head is refused, where SPEC.md and the store's
      contract describe a wait ([minimum_above_head_refused]); an engine
      is assembled only over a configured store and authorizer, and believes
      no evidence without a verifier ([engine_fail_closed]).

    ** Fuel

    Loops that are not structural take fuel that is proved sufficient: the
    AVL search and the walks recurse on the tree; [evict_loop] takes the number
    of residents plus one ([evict_loop_room]); following page cursors takes the
    number of revisions plus one ([revisions_paginate]).

    ** Interfaces

    Code outside the repository is a class or a section variable with what is
    documented of it: [Dsl] (artifact codec, digests, SHA-256), [Hmac], the
    application's authorizer, verifiers and sinks (arbitrary functions whose
    outcome may be a value, an error or a panic), the loader of the revision
    cache, [DslSchema], the declarations of a compiled policy, and [DslEval],
    its evaluation tree.
    Witnesses.v, WitnessesReads.v, WitnessesCore.v, WitnessesServices.v and
    WitnessesSqlite.v apply every property with hypotheses to a concrete instance.

    ** Not modelled

    Of the SQLite store: the database engine and its driver, connections and
    file locks, schema inspection and migrations, integrity scans, backup and
    offline pruning, the reopening of the writer's connection, the waiting loops of snapshots
    and of publication reservations; the formatting methods of redaction.go and of the value types,
    which return constant strings; the conformance suite, which is test code;
    the pauses and blocks of the in-memory store that only the package's own
    tests arm; accessor methods that clone a field; the interface
    declarations of engine.go, which the services implement. *)

From stdpp Require Import base list gmap strings sorting.
From Stdlib Require Import ZArith Lia Permutation Sorted.
#[global] Open Scope Z_scope.

(** * Errors and fallible results (errors.go) *)

(** The stable engine failure categories. Go keeps them as string constants
    of type [ErrorCategory]; [valid] accepts exactly these thirteen. *)
Inductive ErrorCategory : Type :=
  | ErrorInvalidArgument
  | ErrorPermissionDenied
  | ErrorNotFound
  | ErrorConflict
  | ErrorFailedPrecondition
  | ErrorResourceExhausted
  | ErrorCanceled
  | ErrorDeadlineExceeded
  | ErrorUnavailable
  | ErrorUnsupportedArtifact
  | ErrorCursorExpired
  | ErrorIntegrity
  | ErrorInternal.

#[global] Instance ErrorCategory_eq_dec : EqDecision ErrorCategory.
Proof. solve_decision. Defined.

(** A Go [(T, error)] return: a value, or one sanitized engine error. *)
Inductive result (A : Type) : Type :=
  | Ok (a : A)
  | Err (e : ErrorCategory).
Arguments Ok {A} a.
Arguments Err {A} e.

#[global] Instance result_eq_dec {A} `{EqDecision A} : EqDecision (result A).
Proof. solve_decision. Defined.

Definition rbind {A B} (r : result A) (k : A -> result B) : result B :=
  match r with
  | Ok a => k a
  | Err e => Err e
  end.

Definition is_ok {A} (r : result A) : bool :=
  match r with Ok _ => true | Err _ => false end.

Declare Scope go_scope.
Delimit Scope go_scope with go.
Open Scope go_scope.

Notation "'let?' x ':=' e 'in' k" := (rbind e (fun x => k))
  (at level 10, x name, e at level 200, k at level 200) : go_scope.
Notation "e ';;?' k" := (rbind e (fun _ => k))
  (at level 100, k at level 200, right associativity) : go_scope.

(** A loop that threads an accumulator and stops at the first error. *)
Fixpoint foldM {A S} (f : S -> A -> result S) (s : S) (l : list A) : result S :=
  match l with
  | [] => Ok s
  | x :: l' => let? s' := f s x in foldM f s' l'
  end.

Lemma is_ok_true {A} (r : result A) : is_ok r = true <-> exists a, r = Ok a.
Proof. split; [destruct r; eauto; done|by intros [? ->]]. Qed.

Lemma rbind_ok {A B} (r : result A) (k : A -> result B) b :
  rbind r k = Ok b <-> exists a, r = Ok a /\ k a = Ok b.
Proof. split; [destruct r; simpl; eauto; done|by intros (? & -> & ?)]. Qed.

(** Acceptance of a sequence of checks is the conjunction of its checks. *)
Lemma is_ok_seq {A B} (r : result A) (k : result B) : is_ok (r ;;? k) = is_ok r && is_ok k.
Proof. by destruct r. Qed.
Lemma is_ok_guard {A} (b : bool) e (k : result A) : is_ok (if b then Err e else k) = negb b && is_ok k.
Proof. by destruct b. Qed.

Lemma rbind_assoc {A B C} (r : result A) (k : A -> result B) (h : B -> result C) :
  rbind (rbind r k) h = rbind r (fun a => rbind (k a) h).
Proof. by destruct r. Qed.

Lemma foldM_app {A S} (f : S -> A -> result S) s l1 l2 :
  foldM f s (l1 ++ l2) = let? s' := foldM f s l1 in foldM f s' l2.
Proof. revert s; induction l1 as [|x l1 IH]; intros s; simpl; [done|].
  destruct (f s x); simpl; auto. Qed.

(** * Total comparisons ([cmp.Compare] and the code's [compare*] functions)

    Go's comparison functions return a negative, zero or positive [int]; here
    they return [comparison]. The class collects what every ordered index
    relies on: [Eq] is Leibniz equality, swapping the arguments swaps the
    answer, and [Lt] is transitive. *)
Class TotalCompare {A : Type} (c : A -> A -> comparison) : Prop := {
  tc_eq : forall x y, c x y = Eq <-> x = y;
  tc_antisym : forall x y, c y x = CompOpp (c x y);
  tc_trans : forall x y z, c x y = Lt -> c y z = Lt -> c x z = Lt
}.

Arguments tc_eq {A} c {_} x y.
Arguments tc_antisym {A} c {_} x y.
Arguments tc_trans {A} c {_} x y z _ _.

(** [if order := a; order != 0 { return order }; return b]. *)
Definition then_cmp (a b : comparison) : comparison :=
  match a with Eq => b | _ => a end.

Definition cmp_lt (o : comparison) : bool := match o with Lt => true | _ => false end.
Definition cmp_eq (o : comparison) : bool := match o with Eq => true | _ => false end.
Definition cmp_le (o : comparison) : bool := match o with Gt => false | _ => true end.

Section TotalCompareFacts.
Context {A : Type} (c : A -> A -> comparison) `{!TotalCompare c}.

Lemma tc_refl x : c x x = Eq.
Proof. by apply (tc_eq c). Qed.

Lemma tc_gt_lt x y : c x y = Gt <-> c y x = Lt.
Proof. rewrite (tc_antisym c x y). by destruct (c x y). Qed.

Lemma tc_gt_trans x y z : c x y = Gt -> c y z = Gt -> c x z = Gt.
Proof. rewrite !tc_gt_lt. intros H1 H2. exact (tc_trans c _ _ _ H2 H1). Qed.

Lemma tc_lt_irrefl x : c x x <> Lt.
Proof. by rewrite tc_refl. Qed.

Lemma tc_lt_ne x y : c x y = Lt -> x <> y.
Proof. intros H ->. by rewrite tc_refl in H. Qed.

Lemma tc_lt_asym x y : c x y = Lt -> c y x = Gt.
Proof. by rewrite tc_gt_lt. Qed.

Lemma tc_spec x y : CompareSpec (x = y) (c x y = Lt) (c y x = Lt) (c x y).
Proof. destruct (c x y) eqn:E; constructor; [by apply (tc_eq c)|done|by apply tc_gt_lt]. Qed.

#[export] Instance tc_eq_decision : EqDecision A.
Proof.
  intros x y. destruct (c x y) eqn:E.
  - left. by apply (tc_eq c).
  - right. intros ->. by rewrite tc_refl in E.
  - right. intros ->. by rewrite tc_refl in E.
Defined.
End TotalCompareFacts.

(** Lexicographic combination: compare one projection, then another. *)
Lemma then_cmp_total {A B C} (f : A -> B) (g : A -> C) cb cc
    `{!TotalCompare cb} `{!TotalCompare cc} :
  (forall x y, f x = f y -> g x = g y -> x = y) ->
  TotalCompare (fun x y => then_cmp (cb (f x) (f y)) (cc (g x) (g y))).
Proof.
  intros Hinj. split.
  - intros x y. split; [|intros ->; by rewrite (tc_refl cb), (tc_refl cc)].
    destruct (cb (f x) (f y)) eqn:E; simpl; try done.
    rewrite (tc_eq cb) in E. rewrite (tc_eq cc). auto.
  - intros x y. rewrite (tc_antisym cb (f x)), (tc_antisym cc (g x)).
    by destruct (cb (f x) (f y)).
  - intros x y z.
    destruct (tc_spec cb (f x) (f y)) as [E1|E1|E1],
      (tc_spec cb (f y) (f z)) as [E2|E2|E2]; simpl; try done.
    + rewrite E1, E2, (tc_refl cb). simpl. apply (tc_trans cc).
    + by rewrite E1, E2.
    + by rewrite <- E2, E1.
    + by rewrite (tc_trans cb _ _ _ E1 E2).
Qed.

(** Lexicographic order on pairs. *)
Definition pair_cmp {A B} (ca : A -> A -> comparison) (cb : B -> B -> comparison)
  (p q : A * B) : comparison := then_cmp (ca p.1 q.1) (cb p.2 q.2).

#[global] Instance pair_cmp_total {A B} (ca : A -> A -> comparison) (cb : B -> B -> comparison)
  `{!TotalCompare ca} `{!TotalCompare cb} : TotalCompare (pair_cmp ca cb).
Proof. apply then_cmp_total; try done. intros [] []; simpl; congruence. Qed.

#[global] Instance Z_compare_total : TotalCompare Z.compare.
Proof.
  split.
  - apply Z.compare_eq_iff.
  - apply Z.compare_antisym.
  - intros x y z. rewrite !Z.compare_lt_iff. lia.
Qed.

#[global] Instance ascii_compare_total : TotalCompare Ascii.compare.
Proof.
  split.
  - intros x y. split; [apply Ascii.compare_eq_iff|intros ->].
    unfold Ascii.compare. apply N.compare_refl.
  - intros x y. apply Ascii.compare_antisym.
  - intros x y z. unfold Ascii.compare. rewrite !N.compare_lt_iff. lia.
Qed.

(** Go compares strings bytewise; [String.compare] is that order. *)
#[global] Instance string_compare_total : TotalCompare String.compare.
Proof.
  split.
  - intros x y. split; [apply String.compare_eq_iff|intros ->].
    induction y as [|a y IH]; simpl; [done|]. by rewrite (tc_refl Ascii.compare).
  - intros x y. apply String.compare_antisym.
  - intros x; induction x as [|a x IH]; intros [|b y] [|d z]; simpl; try done.
    destruct (tc_spec Ascii.compare a b) as [E1|E1|E1],
      (tc_spec Ascii.compare b d) as [E2|E2|E2]; subst; rewrite ?(tc_refl Ascii.compare);
      try done; rewrite ?E1, ?E2; eauto.
    by rewrite (tc_trans Ascii.compare _ _ _ E1 E2).
Qed.

(** [strings.HasPrefix(s, p)] is [String.prefix p s]. *)
Lemma string_prefix_spec p s : String.prefix p s = true <-> exists rest, s = (p +:+ rest)%string.
Proof.
  revert s. induction p as [|a p IH]; intros s.
  { split; [by exists s|by destruct s]. }
  destruct s as [|b s]; [split; [done|by intros []]|]. cbn [String.prefix].
  destruct (Ascii.ascii_dec a b) as [->|Hne].
  - rewrite IH. split; intros [rest E]; exists rest; [by rewrite E|]. injection E as E. done.
  - split; [done|]. intros [rest E]. injection E as E _. congruence.
Qed.

(** [string <] in Go. *)
Definition str_lt (a b : string) : bool := cmp_lt (String.compare a b).
(** [len(s)] of a Go string. *)
Definition len (s : string) : Z := Z.of_nat (String.length s).
(** [len(l)] of a Go slice. *)
Definition zlen {A} (l : list A) : Z := Z.of_nat (length l).

Lemma lfilter_sublist {A} (f : A -> bool) (l : list A) : List.filter f l `sublist_of` l.
Proof. induction l as [|x l IH]; simpl; [constructor|]. destruct (f x); by constructor. Qed.

Lemma last_map {A B} (f : A -> B) (l : list A) : last (map f l) = f <$> last l.
Proof. apply fmap_last. Qed.

Lemma zlen_nonneg {A} (l : list A) : 0 <= zlen l.
Proof. unfold zlen; lia. Qed.
Lemma zlen_zero {A} (l : list A) : zlen l = 0 <-> l = [].
Proof. unfold zlen. destruct l; simpl; split; try done; lia. Qed.
Lemma zlen_cons {A} (x : A) l : zlen (x :: l) = 1 + zlen l.
Proof. unfold zlen; simpl; lia. Qed.
Lemma zlen_app {A} (l1 l2 : list A) : zlen (l1 ++ l2) = zlen l1 + zlen l2.
Proof. unfold zlen; rewrite length_app; lia. Qed.
Lemma len_nonneg s : 0 <= len s.
Proof. unfold len; lia. Qed.

(** * Sorting ([sort.Slice], [sort.Strings])

    Go's sort is some permutation ordered by [less]. The model sorts by
    insertion; [sort_by_unique] shows that under a total comparison the
    ordered permutation is unique, so the choice of algorithm is immaterial. *)
Section SortBy.
Context {A : Type} (c : A -> A -> comparison).

Fixpoint insert_by (x : A) (l : list A) : list A :=
  match l with
  | [] => [x]
  | y :: l' => if cmp_lt (c y x) then y :: insert_by x l' else x :: l
  end.

Definition sort_by (l : list A) : list A := foldr insert_by [] l.

Definition cle (x y : A) : Prop := c x y <> Gt.
Definition clt (x y : A) : Prop := c x y = Lt.

Lemma insert_by_perm x l : insert_by x l ≡ₚ x :: l.
Proof.
  induction l as [|y l IH]; simpl; [done|].
  destruct (cmp_lt (c y x)); [|done]. rewrite IH. apply perm_swap.
Qed.

Lemma sort_by_perm l : sort_by l ≡ₚ l.
Proof.
  induction l as [|x l IH]; simpl; [done|]. by rewrite insert_by_perm, IH.
Qed.

Lemma sort_by_elem x l : x ∈ sort_by l <-> x ∈ l.
Proof. by rewrite sort_by_perm. Qed.

Context `{!TotalCompare c}.

#[export] Instance cle_trans : Transitive cle.
Proof.
  intros x y z. unfold cle.
  destruct (tc_spec c x y) as [->|H1|H1], (tc_spec c y z) as [->|H2|H2]; try done.
  - by rewrite H1.
  - by rewrite (tc_trans c _ _ _ H1 H2).
Qed.

#[export] Instance clt_trans : Transitive clt.
Proof. intros x y z. apply (tc_trans c). Qed.

Lemma clt_cle x y : clt x y -> cle x y.
Proof. unfold clt, cle. by intros ->. Qed.

Lemma cle_cases x y : cle x y -> x = y \/ clt x y.
Proof. unfold cle, clt. destruct (tc_spec c x y); naive_solver. Qed.

Lemma cle_antisym x y : cle x y -> cle y x -> x = y.
Proof.
  intros [->|H1]%cle_cases [E|H2]%cle_cases; try done.
  exfalso. exact (tc_lt_irrefl c x (tc_trans c _ _ _ H1 H2)).
Qed.

Lemma insert_by_sorted x l : StronglySorted cle l -> StronglySorted cle (insert_by x l).
Proof.
  induction 1 as [|y l Hs IH Hy]; simpl.
  { repeat constructor. }
  destruct (cmp_lt (c y x)) eqn:E.
  - constructor; [done|]. rewrite insert_by_perm. constructor; [|done].
    unfold cle. by destruct (c y x).
  - assert (cle x y).
    { unfold cle. rewrite (tc_antisym c y x). by destruct (c y x). }
    constructor; [by constructor|]. constructor; [done|].
    eapply Forall_impl; [exact Hy|]. intros z Hz. by transitivity y.
Qed.

Lemma sort_by_sorted l : StronglySorted cle (sort_by l).
Proof. induction l; simpl; [constructor|by apply insert_by_sorted]. Qed.

Lemma sorted_perm_unique l1 l2 :
  StronglySorted cle l1 -> StronglySorted cle l2 -> l1 ≡ₚ l2 -> l1 = l2.
Proof.
  intros H. revert l2. induction H as [|x l1 H1 IH Hx]; intros l2 H2 Hp.
  { by apply Permutation_nil in Hp. }
  destruct H2 as [|y l2 H2 Hy].
  { by apply Permutation_sym, Permutation_nil in Hp. }
  assert (x = y) as ->.
  { apply cle_antisym.
    - assert (y ∈ x :: l1) as [->|Hin]%elem_of_cons by (rewrite Hp; left);
        [unfold cle; by rewrite (tc_refl c)|].
      rewrite Forall_forall in Hx. auto.
    - assert (x ∈ y :: l2) as [->|Hin]%elem_of_cons by (rewrite <- Hp; left);
        [unfold cle; by rewrite (tc_refl c)|].
      rewrite Forall_forall in Hy. auto. }
  f_equal. apply IH; [done|]. by apply Permutation_cons_inv in Hp.
Qed.

(** Any ordered permutation of [l], whatever algorithm made it, is [sort_by l]. *)
Lemma sort_by_unique l l' : StronglySorted cle l' -> l' ≡ₚ l -> l' = sort_by l.
Proof.
  intros Hs Hp. apply sorted_perm_unique; auto using sort_by_sorted.
  by rewrite Hp, sort_by_perm.
Qed.

Lemma sort_by_perm_eq l1 l2 : l1 ≡ₚ l2 -> sort_by l1 = sort_by l2.
Proof.
  intros Hp. apply sort_by_unique; auto using sort_by_sorted.
  by rewrite sort_by_perm.
Qed.

Lemma sort_by_id l : StronglySorted cle l -> sort_by l = l.
Proof. intros. symmetry. by apply sort_by_unique. Qed.

Lemma strict_sorted_le l : StronglySorted clt l -> StronglySorted cle l.
Proof.
  induction 1; constructor; [done|].
  eapply Forall_impl; eauto using clt_cle.
Qed.

Lemma strict_sorted_nodup l : StronglySorted clt l -> NoDup l.
Proof.
  induction 1 as [|x l H IH Hx]; constructor; [|done].
  intros Hin. rewrite Forall_forall in Hx.
  by eapply (tc_lt_irrefl c), Hx.
Qed.
End SortBy.

(** [sort.Slice(l, less)] compares with a boolean [less]. *)
Definition less_cmp {A} (less : A -> A -> bool) (x y : A) : comparison :=
  if less x y then Lt else if less y x then Gt else Eq.

(** Sorting only consults the comparison on the elements of the list, so a
    comparison that is total on them may be replaced by a total one. *)
Lemma insert_by_ext {A} (c1 c2 : A -> A -> comparison) x l :
  (forall y, y ∈ l -> c1 y x = c2 y x) -> insert_by c1 x l = insert_by c2 x l.
Proof.
  induction l as [|y l IH]; intros H; simpl; [done|]. rewrite H by left.
  rewrite IH; [done|]. intros z Hz. apply H. by right.
Qed.

Lemma sort_by_ext {A} (c1 c2 : A -> A -> comparison) l :
  (forall x y, x ∈ l -> y ∈ l -> c1 x y = c2 x y) -> sort_by c1 l = sort_by c2 l.
Proof.
  induction l as [|x l IH]; intros H; simpl; [done|]. rewrite IH.
  - apply insert_by_ext. intros y Hy. apply H; [|left]. right. by rewrite (sort_by_elem c2) in Hy.
  - intros a b Ha Hb. apply H; by right.
Qed.

(** * Binary search ([sort.Search])

    The loop of Go's [sort.Search]. Every iteration shrinks [j - i], so [n]
    units of fuel run it to completion from the interval [0, n). *)
Fixpoint search_loop (fuel : nat) (f : nat -> bool) (i j : nat) : nat :=
  match fuel with
  | O => i
  | S fuel' =>
      if Nat.ltb i j then
        let h := Nat.div2 (i + j) in
        if f h then search_loop fuel' f i h else search_loop fuel' f (S h) j
      else i
  end.

Definition sort_Search (n : nat) (f : nat -> bool) : nat := search_loop n f 0 n.

(** [sort.Search(len(l), func(i int) bool { return p(l[i]) })]. *)
Definition search_list {A} (p : A -> bool) (l : list A) : nat :=
  sort_Search (length l) (fun i => match l !! i with Some x => p x | None => false end).

Lemma search_loop_spec fuel f i j :
  (i <= j)%nat -> (j - i <= fuel)%nat ->
  (forall a b, (i <= a <= b)%nat -> (b < j)%nat -> f a = true -> f b = true) ->
  let r := search_loop fuel f i j in
  (i <= r <= j)%nat /\ (forall k, (i <= k < r)%nat -> f k = false) /\
  (forall k, (r <= k < j)%nat -> f k = true).
Proof.
  revert i j. induction fuel as [|fuel IH]; intros i j Hij Hf Hmono; simpl.
  { repeat split; intros; lia. }
  destruct (Nat.ltb_spec i j) as [Hlt|Hge]; [|repeat split; intros; lia].
  set (h := Nat.div2 (i + j)).
  assert (i <= h < j)%nat.
  { assert (Hodd := Nat.div2_odd (i + j)). fold h in Hodd.
    destruct (Nat.odd (i + j)); simpl in Hodd; lia. }
  destruct (f h) eqn:Eh.
  - destruct (IH i h) as (Hr & Hlo & Hhi); [lia|lia| |].
    { intros a b Hab Hb. apply Hmono; lia. }
    repeat split; [lia|lia|auto|].
    intros k Hk. destruct (decide (k < h)%nat); [apply Hhi; lia|].
    apply (Hmono h k); [lia|lia|done].
  - destruct (IH (S h) j) as (Hr & Hlo & Hhi); [lia|lia| |].
    { intros a b Hab Hb. apply Hmono; lia. }
    repeat split; [lia|lia| |auto].
    intros k Hk. destruct (decide (S h <= k)%nat); [apply Hlo; lia|].
    destruct (f k) eqn:Ek; [|done].
    rewrite <- Eh. symmetry. apply (Hmono k h); [lia|lia|done].
Qed.

(** Under a predicate that stays true once true, [search_list] splits the list
    into its false prefix and its true suffix. *)
Lemma search_list_split {A} (p : A -> bool) (l : list A) :
  (forall i j x y, (i <= j)%nat -> l !! i = Some x -> l !! j = Some y ->
     p x = true -> p y = true) ->
  let r := search_list p l in
  (r <= length l)%nat /\
  Forall (fun x => p x = false) (take r l) /\ Forall (fun x => p x = true) (drop r l).
Proof.
  intros Hmono r.
  destruct (search_loop_spec (length l)
    (fun i => match l !! i with Some x => p x | None => false end) 0 (length l))
    as (Hr & Hlo & Hhi); [lia|lia| |].
  { intros a b Hab Hb Ha. destruct (l !! a) as [x|] eqn:Ex; [|done].
    destruct (lookup_lt_is_Some_2 l b) as [y Ey]; [lia|]. rewrite Ey.
    eapply (Hmono a b); eauto; lia. }
  unfold search_list, sort_Search in r. fold r in Hr, Hlo, Hhi.
  repeat split; [lia| |]; apply Forall_lookup; intros i x.
  - intros [Hx Hi]%lookup_take_Some. specialize (Hlo i ltac:(lia)).
    by rewrite Hx in Hlo.
  - rewrite lookup_drop. intros Hx. assert (Hi := lookup_lt_Some _ _ _ Hx).
    specialize (Hhi (r + i)%nat ltac:(lia)). by rewrite Hx in Hhi.
Qed.

(** Linear arithmetic with division and remainder by constants. *)
Ltac dlia := Z.div_mod_to_equations; lia.

(** * Bytes

    A Go byte is a [Z] in [0, 256); [string] conversions are bytewise. *)
Definition byte_of_ascii (a : Ascii.ascii) : Z := Z.of_N (Ascii.N_of_ascii a).
Definition ascii_of_byte (b : Z) : Ascii.ascii := Ascii.ascii_of_N (Z.to_N b).

Fixpoint bytes_of_string (s : string) : list Z :=
  match s with
  | EmptyString => []
  | String a s' => byte_of_ascii a :: bytes_of_string s'
  end.

Fixpoint string_of_bytes (l : list Z) : string :=
  match l with
  | [] => EmptyString
  | b :: l' => String (ascii_of_byte b) (string_of_bytes l')
  end.

Definition is_byte (b : Z) : Prop := 0 <= b < 256.

Lemma byte_of_ascii_range a : is_byte (byte_of_ascii a).
Proof. unfold is_byte, byte_of_ascii. assert (H := Ascii.N_ascii_bounded a). lia. Qed.

Lemma ascii_of_byte_of_ascii a : ascii_of_byte (byte_of_ascii a) = a.
Proof. unfold ascii_of_byte, byte_of_ascii. by rewrite N2Z.id, Ascii.ascii_N_embedding. Qed.

Lemma byte_of_ascii_of_byte b : is_byte b -> byte_of_ascii (ascii_of_byte b) = b.
Proof.
  unfold is_byte, ascii_of_byte, byte_of_ascii. intros.
  rewrite Ascii.N_ascii_embedding by lia. lia.
Qed.

Lemma bytes_of_string_range s : Forall is_byte (bytes_of_string s).
Proof. induction s; simpl; constructor; auto using byte_of_ascii_range. Qed.

Lemma string_of_bytes_of_string s : string_of_bytes (bytes_of_string s) = s.
Proof. induction s; simpl; f_equal; auto using ascii_of_byte_of_ascii. Qed.

Lemma bytes_of_string_of_bytes l : Forall is_byte l -> bytes_of_string (string_of_bytes l) = l.
Proof. induction 1; simpl; f_equal; auto using byte_of_ascii_of_byte. Qed.

Lemma bytes_of_string_inj s1 s2 : bytes_of_string s1 = bytes_of_string s2 -> s1 = s2.
Proof. intros H. by rewrite <- (string_of_bytes_of_string s1), H, string_of_bytes_of_string. Qed.

Lemma length_bytes_of_string s : length (bytes_of_string s) = String.length s.
Proof. induction s; simpl; auto. Qed.

Lemma zlen_bytes_of_string s : zlen (bytes_of_string s) = len s.
Proof. unfold zlen, len. by rewrite length_bytes_of_string. Qed.

(** ** Counting the entries of a map *)

Definition map_count {K A} `{Countable K} (P : K * A -> Prop) `{forall x, Decision (P x)} (m : gmap K A) : nat :=
  base.size (filter P m).

Section MapCount.
Context {K A : Type} `{Countable K} (P : K * A -> Prop) `{forall x, Decision (P x)}.
Implicit Types m : gmap K A.

Lemma map_count_fresh m i x :
  m !! i = None -> map_count P (<[i := x]> m) = ((if decide (P (i, x)) then 1 else 0) + map_count P m)%nat.
Proof.
  intros Hi. unfold map_count. destruct (decide (P (i, x))) as [Hp|Hp].
  - rewrite map_filter_insert_True by done. rewrite map_size_insert_None; [done|].
    by rewrite map_lookup_filter, Hi.
  - rewrite map_filter_insert_False by done. by rewrite delete_id.
Qed.

Lemma map_count_split m i y :
  m !! i = Some y -> map_count P m = ((if decide (P (i, y)) then 1 else 0) + map_count P (delete i m))%nat.
Proof.
  intros Hi. rewrite <- (insert_delete_id m i y Hi) at 1. apply map_count_fresh, lookup_delete_eq.
Qed.

Lemma map_count_change m i x y :
  m !! i = Some y ->
  ((if decide (P (i, y)) then 1 else 0) + map_count P (<[i := x]> m))%nat
  = ((if decide (P (i, x)) then 1 else 0) + map_count P m)%nat.
Proof.
  intros Hi. rewrite (map_count_split m i y Hi), <- insert_delete_eq.
  rewrite map_count_fresh by apply lookup_delete_eq. lia.
Qed.

Lemma map_count_zero m : map_count P m = 0%nat <-> forall i x, m !! i = Some x -> ~ P (i, x).
Proof.
  unfold map_count. rewrite map_size_empty_iff, map_empty. split.
  - intros Hz i x Hi Hp. specialize (Hz i). rewrite map_lookup_filter_None in Hz. destruct Hz as [Hz|Hz]; [congruence|].
    by apply (Hz x).
  - intros Hz i. apply map_lookup_filter_None. right. eauto.
Qed.

Lemma map_count_empty : map_count P ∅ = 0%nat.
Proof. apply map_count_zero. intros i x Hi. by rewrite lookup_empty in Hi. Qed.
End MapCount.
