(* ===== verification/Avl.v ===== *)
(** Persistent AVL search trees (store/memory/indexed.go).

    The source writes the same tree four times, for revisions, tuples,
    attribute entities and path segments: identical node layout, rotations,
    rebalancing, insertion, minimum and deletion, differing only in the key
    type and comparison. [tree K V] and the operations of this file are that
    code once; the instances are in the files of the components.

    A nil node pointer is [Leaf]. The tree is never mutated in place in the
    source (every update allocates the search path), so the model is a plain
    value. The abstraction of a tree is its in-order list [elements], and
    [tmap], the finite map it represents. *)

From stdpp Require Import base list gmap sorting.
From Stdlib Require Import ZArith Lia Sorted.
From S2P Require Import Prelude.

Inductive tree (K V : Type) : Type :=
  | Leaf
  | Node (left right : tree K V) (height : Z) (key : K) (value : V).
Arguments Leaf {K V}.
Arguments Node {K V} left right height key value.

Section Operations.
Context {K V : Type} (c : K -> K -> comparison).

Definition height (node : tree K V) : Z :=
  match node with Leaf => 0 | Node _ _ h _ _ => h end.

Definition newNode (key : K) (value : V) (left right : tree K V) : tree K V :=
  Node left right (1 + Z.max (height left) (height right)) key value.

Definition balance (node : tree K V) : Z :=
  match node with
  | Leaf => 0
  | Node l r _ _ _ => height l - height r
  end.

(** The rotations dereference a pivot child. On a nil pivot Go would panic;
    [rotates_have_pivots] shows that rebalancing never gets there. *)
Definition rotateRight (node : tree K V) : tree K V :=
  match node with
  | Node (Node pl pr _ pk pv) r _ k v => newNode pk pv pl (newNode k v pr r)
  | _ => node
  end.

Definition rotateLeft (node : tree K V) : tree K V :=
  match node with
  | Node l (Node pl pr _ pk pv) _ k v => newNode pk pv (newNode k v l pl) pr
  | _ => node
  end.

Definition rebalance (node : tree K V) : tree K V :=
  match node with
  | Leaf => node
  | Node l r _ k v =>
      if 1 <? balance node then
        let node' := if balance l <? 0 then newNode k v (rotateLeft l) r else node in
        rotateRight node'
      else if balance node <? -1 then
        let node' := if 0 <? balance r then newNode k v l (rotateRight r) else node in
        rotateLeft node'
      else node
  end.

Fixpoint avl_set (node : tree K V) (key : K) (value : V) : tree K V :=
  match node with
  | Leaf => newNode key value Leaf Leaf
  | Node l r _ k v =>
      match c key k with
      | Lt => rebalance (newNode k v (avl_set l key value) r)
      | Gt => rebalance (newNode k v l (avl_set r key value))
      | Eq => newNode key value l r
      end
  end.

Fixpoint min_node (node : tree K V) : option (K * V) :=
  match node with
  | Leaf => None
  | Node Leaf _ _ k v => Some (k, v)
  | Node l _ _ _ _ => min_node l
  end.

Fixpoint avl_delete (node : tree K V) (key : K) : tree K V :=
  match node with
  | Leaf => Leaf
  | Node l r _ k v =>
      match c key k with
      | Lt => rebalance (newNode k v (avl_delete l key) r)
      | Gt => rebalance (newNode k v l (avl_delete r key))
      | Eq =>
          match l, r with
          | Leaf, _ => r
          | _, Leaf => l
          | _, _ =>
              match min_node r with
              | Some (sk, sv) => rebalance (newNode sk sv l (avl_delete r sk))
              | None => node
              end
          end
      end
  end.

Fixpoint avl_get (node : tree K V) (key : K) : option V :=
  match node with
  | Leaf => None
  | Node l r _ k v =>
      match c key k with
      | Lt => avl_get l key
      | Gt => avl_get r key
      | Eq => Some v
      end
  end.

(** ** Abstraction and invariants *)

Fixpoint elements (node : tree K V) : list (K * V) :=
  match node with
  | Leaf => []
  | Node l r _ k v => elements l ++ (k, v) :: elements r
  end.

Fixpoint size (node : tree K V) : Z :=
  match node with Leaf => 0 | Node l r _ _ _ => size l + 1 + size r end.

(** Search order: the in-order keys strictly increase. *)
Definition bst (node : tree K V) : Prop :=
  StronglySorted (clt c) (map fst (elements node)).

(** Every cached height is right and siblings differ by at most one. *)
Fixpoint avl (node : tree K V) : Prop :=
  match node with
  | Leaf => True
  | Node l r h _ _ =>
      avl l /\ avl r /\ h = 1 + Z.max (height l) (height r) /\
      -1 <= height l - height r <= 1
  end.

(** Update and removal on the ordered association list. *)
Fixpoint alist_set (k : K) (v : V) (l : list (K * V)) : list (K * V) :=
  match l with
  | [] => [(k, v)]
  | (k', v') :: l' =>
      match c k k' with
      | Lt => (k, v) :: l
      | Eq => (k, v) :: l'
      | Gt => (k', v') :: alist_set k v l'
      end
  end.

Fixpoint alist_delete (k : K) (l : list (K * V)) : list (K * V) :=
  match l with
  | [] => []
  | (k', v') :: l' => if cmp_eq (c k k') then alist_delete k l' else (k', v') :: alist_delete k l'
  end.
End Operations.

Create HintDb avl.
Arguments rebalance : simpl never.

(** ** Heights *)
Section Heights.
Context {K V : Type} (c : K -> K -> comparison).
Implicit Types t l r : tree K V.

Lemma avl_height_nonneg t : avl t -> 0 <= height t.
Proof.
  induction t as [|l IHl r IHr]; simpl; [lia|]. intros (Hl & Hr & -> & ?).
  specialize (IHl Hl). lia.
Qed.

Lemma avl_height_zero t : avl t -> height t <= 0 -> t = Leaf.
Proof.
  destruct t; simpl; [done|]. intros (Hl & _ & -> & _).
  apply avl_height_nonneg in Hl. lia.
Qed.

(** What a rebalanced node with almost balanced children looks like. *)
Lemma rebalance_avl k v l r :
  avl l -> avl r -> -2 <= height l - height r <= 2 ->
  let t := rebalance (newNode k v l r) in
  avl t /\
  Z.max (height l) (height r) <= height t <= 1 + Z.max (height l) (height r) /\
  (-1 <= height l - height r <= 1 -> height t = 1 + Z.max (height l) (height r)).
Proof.
  intros Hl Hr Hd. unfold rebalance, newNode at 1. simpl.
  destruct (Z.ltb_spec 1 (height l - height r)) as [H1|H1].
  { destruct l as [|ll lr hl lk lv]; simpl in *.
    { apply avl_height_nonneg in Hr. lia. }
    destruct Hl as (Hll & Hlr & -> & Hb).
    destruct (Z.ltb_spec (height ll - height lr) 0) as [H2|H2].
    - destruct lr as [|lrl lrr hlr lrk lrv]; simpl in *.
      { apply avl_height_nonneg in Hll. lia. }
      destruct Hlr as (Hlrl & Hlrr & -> & Hb').
      repeat split; simpl; auto; lia.
    - repeat split; simpl; auto; lia. }
  destruct (Z.ltb_spec (height l - height r) (-1)) as [H2|H2].
  { destruct r as [|rl rr hr rk rv]; simpl in *.
    { apply avl_height_nonneg in Hl. lia. }
    destruct Hr as (Hrl & Hrr & -> & Hb).
    destruct (Z.ltb_spec 0 (height rl - height rr)) as [H3|H3].
    - destruct rl as [|rll rlr hrl rlk rlv]; simpl in *.
      { apply avl_height_nonneg in Hrr. lia. }
      destruct Hrl as (Hrll & Hrlr & -> & Hb').
      repeat split; simpl; auto; lia.
    - repeat split; simpl; auto; lia. }
  repeat split; simpl; auto; lia.
Qed.

(** No rotation of a rebalanced almost balanced node meets a nil pivot. *)
Lemma rotates_have_pivots l r :
  avl l -> avl r ->
  (1 < height l - height r ->
    exists ll lr h k v, l = Node ll lr h k v /\ (balance l < 0 -> lr <> Leaf)) /\
  (height l - height r < -1 ->
    exists rl rr h k v, r = Node rl rr h k v /\ (0 < balance r -> rl <> Leaf)).
Proof.
  intros Hl Hr. split; intros Hd.
  - destruct l as [|ll lr h k v]; simpl in *.
    { apply avl_height_nonneg in Hr. lia. }
    exists ll, lr, h, k, v. split; [done|]. intros Hb ->. simpl in Hb.
    destruct Hl as (Hll & _). apply avl_height_nonneg in Hll. lia.
  - destruct r as [|rl rr h k v]; simpl in *.
    { apply avl_height_nonneg in Hl. lia. }
    exists rl, rr, h, k, v. split; [done|]. intros Hb ->. simpl in Hb.
    destruct Hr as (_ & Hrr & _). apply avl_height_nonneg in Hrr. lia.
Qed.

Lemma min_node_is_Some l r h k v : exists kv, min_node (Node l r h k v) = Some kv.
Proof.
  revert r h k v. induction l as [|a IHa b _ hh kk vv]; intros; [by eexists|].
  apply (IHa b hh kk vv).
Qed.

Lemma set_avl t k v :
  avl t -> avl (avl_set c t k v) /\ height t <= height (avl_set c t k v) <= 1 + height t.
Proof.
  induction t as [|l IHl r IHr h k' v']; simpl.
  { intros _. repeat split; simpl; lia. }
  intros (Hl & Hr & -> & Hb). specialize (IHl Hl). specialize (IHr Hr).
  destruct IHl as [IHl Hhl], IHr as [IHr Hhr].
  destruct (c k k').
  - repeat split; simpl; auto; lia.
  - destruct (rebalance_avl k' v' (avl_set c l k v) r) as (Ha & Hh & Hx); auto; [lia|].
    split; [done|]. lia.
  - destruct (rebalance_avl k' v' l (avl_set c r k v)) as (Ha & Hh & Hx); auto; [lia|].
    split; [done|]. lia.
Qed.

Lemma delete_avl t k :
  avl t -> avl (avl_delete c t k) /\ height t - 1 <= height (avl_delete c t k) <= height t.
Proof.
  revert k. induction t as [|l IHl r IHr h k' v']; intros k; simpl.
  { intros _. repeat split; simpl; lia. }
  intros (Hl & Hr & -> & Hb).
  destruct (c k k').
  - destruct l as [|ll lr lh lk lv].
    { assert (H := avl_height_nonneg _ Hr). cbn [height] in *. split; [done|]. lia. }
    set (l := Node ll lr lh lk lv) in *.
    destruct r as [|rl rr rh rk rv].
    { assert (H := avl_height_nonneg _ Hl). subst l. cbn [height] in *. split; [done|]. lia. }
    set (r := Node rl rr rh rk rv) in *.
    destruct (min_node r) as [[sk sv]|] eqn:Em.
    + destruct (IHr sk Hr) as [IHa IHh].
      destruct (rebalance_avl sk sv l (avl_delete c r sk)) as (Ha & Hh & Hx); auto; [lia|].
      split; [done|]. lia.
    + exfalso. destruct (min_node_is_Some rl rr rh rk rv) as [? E].
      subst r. congruence.
  - destruct (IHl k Hl) as [IHa IHh].
    destruct (rebalance_avl k' v' (avl_delete c l k) r) as (Ha & Hh & Hx); auto; [lia|].
    split; [done|]. lia.
  - destruct (IHr k Hr) as [IHa IHh].
    destruct (rebalance_avl k' v' l (avl_delete c r k)) as (Ha & Hh & Hx); auto; [lia|].
    split; [done|]. lia.
Qed.

Lemma size_nonneg t : 0 <= size t.
Proof. induction t; simpl; lia. Qed.

(** Height is logarithmic in the number of nodes. *)
Lemma avl_size_pow t : avl t -> 2 ^ (height t / 2) <= size t + 1.
Proof.
  induction t as [|l IHl r IHr h k v]; [by vm_compute|].
  intros (Hl & Hr & -> & Hb). cbn [height size].
  specialize (IHl Hl). specialize (IHr Hr).
  assert (Hl0 := avl_height_nonneg _ Hl). assert (Hr0 := avl_height_nonneg _ Hr).
  set (m := Z.max (height l) (height r)) in *.
  destruct (Z.eq_dec m 0) as [->|Hm].
  { assert (Hs := size_nonneg l). assert (Hs' := size_nonneg r).
    change ((1 + 0) / 2) with 0. rewrite Z.pow_0_r. lia. }
  assert (Hpow : forall a, (m - 1) / 2 <= a / 2 -> 2 ^ ((m - 1) / 2) <= 2 ^ (a / 2)).
  { intros a Ha. apply Z.pow_le_mono_r; lia. }
  assert (2 ^ ((m - 1) / 2) <= 2 ^ (height l / 2)).
  { apply Hpow, Z.div_le_mono; lia. }
  assert (2 ^ ((m - 1) / 2) <= 2 ^ (height r / 2)).
  { apply Hpow, Z.div_le_mono; lia. }
  replace ((1 + m) / 2) with (1 + (m - 1) / 2).
  2:{ replace (1 + m) with ((m - 1) + 1 * 2) by lia. rewrite Z.div_add by lia. lia. }
  rewrite Z.pow_add_r by (try lia; apply Z.div_pos; lia). lia.
Qed.
End Heights.

(** ** Contents: in-order lists and finite maps *)
Section Contents.
Context {K V : Type} (c : K -> K -> comparison) `{!TotalCompare c}.
Implicit Types t l r : tree K V.

Lemma elements_rotateRight t : elements (rotateRight t) = elements t.
Proof. destruct t as [|[|]]; simpl; try done. by rewrite <- !app_assoc. Qed.

Lemma elements_rotateLeft t : elements (rotateLeft t) = elements t.
Proof. destruct t as [|? []]; simpl; try done. by rewrite <- !app_assoc. Qed.

Lemma elements_rebalance t : elements (rebalance t) = elements t.
Proof.
  unfold rebalance. destruct t as [|l r h k v]; [done|].
  repeat case_match; rewrite ?elements_rotateRight, ?elements_rotateLeft; simpl;
    by rewrite ?elements_rotateRight, ?elements_rotateLeft.
Qed.

Lemma elements_newNode k v l r : elements (newNode k v l r) = elements l ++ (k, v) :: elements r.
Proof. done. Qed.

Lemma sorted_app_inv (l1 l2 : list K) (x : K) :
  StronglySorted (clt c) (l1 ++ x :: l2) ->
  StronglySorted (clt c) l1 /\ StronglySorted (clt c) l2 /\
  Forall (fun y => clt c y x) l1 /\ Forall (clt c x) l2.
Proof.
  induction l1 as [|y l1 IH]; simpl; intros H; inversion_clear H as [|? ? Hs Hf].
  { repeat split; auto; constructor. }
  destruct (IH Hs) as (H1 & H2 & H3 & H4).
  rewrite Forall_app, Forall_cons in Hf. destruct Hf as (Hf1 & Hf2 & Hf3).
  repeat split; auto; constructor; auto.
Qed.

Lemma bst_node l r h k v :
  bst c (Node l r h k v) ->
  bst c l /\ bst c r /\ Forall (fun y => clt c y k) (map fst (elements l)) /\
  Forall (clt c k) (map fst (elements r)).
Proof. unfold bst. simpl. rewrite map_app. simpl. apply sorted_app_inv. Qed.

Lemma alist_set_lt k v (l1 l2 : list (K * V)) k0 v0 :
  c k k0 = Lt -> alist_set c k v (l1 ++ (k0, v0) :: l2) = alist_set c k v l1 ++ (k0, v0) :: l2.
Proof.
  intros Hlt. induction l1 as [|[k1 v1] l1 IH]; simpl; [by rewrite Hlt|].
  destruct (c k k1); simpl; by rewrite ?IH.
Qed.

Lemma alist_set_ge k v (l1 l2 : list (K * V)) :
  Forall (fun y => clt c y k) (map fst l1) ->
  alist_set c k v (l1 ++ l2) = l1 ++ alist_set c k v l2.
Proof.
  induction l1 as [|[k1 v1] l1 IH]; simpl; [done|]. rewrite Forall_cons.
  intros [H1 H2]. rewrite (tc_lt_asym c _ _ H1). by rewrite IH.
Qed.

Lemma alist_delete_app k (l1 l2 : list (K * V)) :
  alist_delete c k (l1 ++ l2) = alist_delete c k l1 ++ alist_delete c k l2.
Proof.
  induction l1 as [|[k1 v1] l1 IH]; simpl; [done|]. destruct (cmp_eq (c k k1)); by rewrite IH.
Qed.

Lemma alist_delete_notin k (l : list (K * V)) :
  Forall (fun y => y <> k) (map fst l) -> alist_delete c k l = l.
Proof.
  induction l as [|[k1 v1] l IH]; simpl; [done|]. rewrite Forall_cons. intros [H1 H2].
  destruct (tc_spec c k k1); [congruence| |]; simpl; by rewrite IH.
Qed.

Lemma lt_all_ne k (l : list K) : Forall (clt c k) l -> Forall (fun y => y <> k) l.
Proof. intros H. eapply Forall_impl; [exact H|]. intros y Hy ->. by eapply (tc_lt_irrefl c). Qed.

Lemma gt_all_ne k (l : list K) : Forall (fun y => clt c y k) l -> Forall (fun y => y <> k) l.
Proof. intros H. eapply Forall_impl; [exact H|]. intros y Hy ->. by eapply (tc_lt_irrefl c). Qed.

(** Insertion into the tree is insertion into its ordered list. *)
Lemma elements_set t k v :
  bst c t -> elements (avl_set c t k v) = alist_set c k v (elements t).
Proof.
  induction t as [|l IHl r IHr h k' v']; simpl; [done|].
  intros (Hl & Hr & Hlt & Hgt)%bst_node.
  destruct (tc_spec c k k') as [->|H|H]; rewrite ?elements_rebalance; simpl.
  - rewrite alist_set_ge by done. simpl. by rewrite (tc_refl c).
  - by rewrite IHl, alist_set_lt by done.
  - rewrite IHr, alist_set_ge by (done || (eapply Forall_impl; [exact Hlt|];
      intros y Hy; exact (tc_trans c _ _ _ Hy H))).
    simpl. by rewrite (tc_lt_asym c _ _ H).
Qed.

Lemma elements_min t k v :
  min_node t = Some (k, v) -> exists rest, elements t = (k, v) :: rest.
Proof.
  induction t as [|l IHl r IHr h k' v']; [done|].
  destruct l as [|ll lr lh lk lv].
  - intros [= <- <-]. by eexists.
  - intros H. destruct (IHl H) as [rest E]. cbn [elements] in *. rewrite E. by eexists.
Qed.

(** Deletion from the tree is deletion from its ordered list. *)
Lemma elements_delete t k :
  bst c t -> elements (avl_delete c t k) = alist_delete c k (elements t).
Proof.
  revert k. induction t as [|l IHl r IHr h k' v']; intros k Hb; [done|].
  apply bst_node in Hb as (Hl & Hr & Hlt & Hgt).
  cbn [elements]. rewrite alist_delete_app. cbn [avl_delete alist_delete].
  destruct (tc_spec c k k') as [->|H|H]; cbn [cmp_eq].
  - rewrite (alist_delete_notin _ (elements l)), (alist_delete_notin _ (elements r))
      by auto using lt_all_ne, gt_all_ne.
    destruct l as [|ll lr lh lk lv]; [done|].
    destruct r as [|rl rr rh rk rv]; [by rewrite app_nil_r|].
    destruct (min_node_is_Some rl rr rh rk rv) as [[sk sv] Em].
    rewrite Em, elements_rebalance, elements_newNode, (IHr _ Hr). f_equal.
    destruct (elements_min _ _ _ Em) as [rest Er]. rewrite Er.
    cbn [alist_delete]. rewrite (tc_refl c). cbn [cmp_eq].
    rewrite alist_delete_notin; [done|].
    unfold bst in Hr. rewrite Er in Hr. simpl in Hr. inversion Hr. by apply lt_all_ne.
  - rewrite elements_rebalance, elements_newNode, (IHl _ Hl).
    rewrite (alist_delete_notin _ (elements r)); [done|].
    apply lt_all_ne. eapply Forall_impl; [exact Hgt|]. intros y Hy.
    exact (tc_trans c _ _ _ H Hy).
  - rewrite elements_rebalance, elements_newNode, (IHr _ Hr).
    rewrite (alist_delete_notin _ (elements l)); [done|].
    apply gt_all_ne. eapply Forall_impl; [exact Hlt|]. intros y Hy.
    exact (tc_trans c _ _ _ Hy H).
Qed.

Lemma alist_set_keys_forall (P : K -> Prop) k v (l : list (K * V)) :
  P k -> Forall P (map fst l) -> Forall P (map fst (alist_set c k v l)).
Proof.
  intros Hk. induction l as [|[k1 v1] l IH]; simpl; [by constructor|].
  rewrite Forall_cons. intros [H1 H2]. destruct (c k k1); simpl; rewrite ?Forall_cons; auto.
Qed.

Lemma alist_set_sorted k v (l : list (K * V)) :
  StronglySorted (clt c) (map fst l) -> StronglySorted (clt c) (map fst (alist_set c k v l)).
Proof.
  induction l as [|[k1 v1] l IH]; simpl; [by repeat constructor|].
  intros H. inversion_clear H as [|? ? Hs Hf].
  destruct (tc_spec c k k1) as [->|H|H]; simpl; constructor; auto.
  - by constructor.
  - constructor; [done|]. eapply Forall_impl; [exact Hf|]. intros y Hy.
    exact (tc_trans c _ _ _ H Hy).
  - by apply alist_set_keys_forall.
Qed.

Lemma alist_delete_keys_forall (P : K -> Prop) k (l : list (K * V)) :
  Forall P (map fst l) -> Forall P (map fst (alist_delete c k l)).
Proof.
  induction l as [|[k1 v1] l IH]; simpl; [done|].
  rewrite Forall_cons. intros [H1 H2]. destruct (cmp_eq (c k k1)); simpl; rewrite ?Forall_cons; auto.
Qed.

Lemma alist_delete_sorted k (l : list (K * V)) :
  StronglySorted (clt c) (map fst l) -> StronglySorted (clt c) (map fst (alist_delete c k l)).
Proof.
  induction l as [|[k1 v1] l IH]; simpl; [done|].
  intros H. inversion_clear H as [|? ? Hs Hf].
  destruct (cmp_eq (c k k1)); simpl; [auto|]. constructor; auto using alist_delete_keys_forall.
Qed.

Lemma bst_set t k v : bst c t -> bst c (avl_set c t k v).
Proof. intros H. unfold bst. rewrite elements_set by done. by apply alist_set_sorted. Qed.

Lemma bst_delete t k : bst c t -> bst c (avl_delete c t k).
Proof. intros H. unfold bst. rewrite elements_delete by done. by apply alist_delete_sorted. Qed.

Lemma bst_leaf : bst c (Leaf (K:=K) (V:=V)).
Proof. constructor. Qed.

(** *** The finite map a tree represents *)
Context `{!EqDecision K, !Countable K}.

Definition tmap (t : tree K V) : gmap K V := list_to_map (elements t).

Lemma get_in t k v : bst c t -> avl_get c t k = Some v <-> (k, v) ∈ elements t.
Proof.
  induction t as [|l IHl r IHr h k' v']; simpl.
  { intros _. by rewrite elem_of_nil. }
  intros (Hl & Hr & Hlt & Hgt)%bst_node. rewrite elem_of_app, elem_of_cons.
  assert (forall y w, (y, w) ∈ elements l -> clt c y k') as HL.
  { intros y w Hy. rewrite Forall_forall in Hlt. apply Hlt.
    apply list_elem_of_In. apply (in_map fst _ (y, w)). by apply list_elem_of_In. }
  assert (forall y w, (y, w) ∈ elements r -> clt c k' y) as HR.
  { intros y w Hy. rewrite Forall_forall in Hgt. apply Hgt.
    apply list_elem_of_In. apply (in_map fst _ (y, w)). by apply list_elem_of_In. }
  destruct (tc_spec c k k') as [->|H|H].
  - split; [intros [= ->]; auto|]. intros [Hin|[[= ->]|Hin]]; [|done|].
    + by apply HL, (tc_lt_irrefl c) in Hin.
    + by apply HR, (tc_lt_irrefl c) in Hin.
  - rewrite IHl by done. split; [auto|]. intros [Hin|[[= -> ->]|Hin]]; [done| |].
    + by apply (tc_lt_irrefl c) in H.
    + apply HR in Hin. exfalso. exact (tc_lt_irrefl c _ (tc_trans c _ _ _ H Hin)).
  - rewrite IHr by done. split; [auto|]. intros [Hin|[[= -> ->]|Hin]]; [| |done].
    + apply HL in Hin. exfalso. exact (tc_lt_irrefl c _ (tc_trans c _ _ _ H Hin)).
    + by apply (tc_lt_irrefl c) in H.
Qed.

Lemma bst_nodup t : bst c t -> NoDup (elements t).*1.
Proof. apply (strict_sorted_nodup c). Qed.

Lemma get_tmap t k : bst c t -> avl_get c t k = tmap t !! k.
Proof.
  intros Hb. apply option_eq. intros v. rewrite (get_in t k v Hb). unfold tmap.
  apply elem_of_list_to_map. by apply bst_nodup.
Qed.

Lemma list_to_map_alist_set k v (l : list (K * V)) :
  list_to_map (alist_set c k v l) =@{gmap K V} <[k := v]> (list_to_map l).
Proof.
  induction l as [|[k1 v1] l IH]; simpl; [done|].
  destruct (tc_spec c k k1) as [->|H|H]; simpl; [by rewrite insert_insert_eq|done|].
  rewrite IH. apply insert_insert_ne. intros ->. by apply (tc_lt_irrefl c) in H.
Qed.

Lemma list_to_map_alist_delete k (l : list (K * V)) :
  list_to_map (alist_delete c k l) =@{gmap K V} delete k (list_to_map l).
Proof.
  induction l as [|[k1 v1] l IH]; simpl; [by rewrite delete_empty|].
  destruct (tc_spec c k k1) as [->|H|H]; simpl.
  - by rewrite IH, delete_insert_eq.
  - rewrite IH, delete_insert_ne; [done|]. intros ->. by apply (tc_lt_irrefl c) in H.
  - rewrite IH, delete_insert_ne; [done|]. intros ->. by apply (tc_lt_irrefl c) in H.
Qed.

Lemma tmap_set t k v : bst c t -> tmap (avl_set c t k v) = <[k := v]> (tmap t).
Proof. intros H. unfold tmap. rewrite elements_set by done. apply list_to_map_alist_set. Qed.

Lemma tmap_delete t k : bst c t -> tmap (avl_delete c t k) = delete k (tmap t).
Proof. intros H. unfold tmap. rewrite elements_delete by done. apply list_to_map_alist_delete. Qed.

Lemma tmap_leaf : tmap Leaf = ∅.
Proof. done. Qed.

Lemma tmap_empty t : tmap t = ∅ <-> t = Leaf.
Proof.
  split; [|by intros ->]. destruct t as [|l r h k v]; [done|].
  unfold tmap. simpl. rewrite list_to_map_app, list_to_map_cons. intros H.
  exfalso. assert (Hk : (list_to_map (elements l) ∪ <[k:=v]> (list_to_map (elements r))
    : gmap K V) !! k = None) by (rewrite H; apply lookup_empty).
  apply lookup_union_None in Hk as [_ Hk]. by rewrite lookup_insert_eq in Hk.
Qed.

(** Look-ups after updates, without the finite map. *)
Lemma get_set_eq t k v : bst c t -> avl_get c (avl_set c t k v) k = Some v.
Proof. intros H. rewrite get_tmap, tmap_set by auto using bst_set. apply lookup_insert_eq. Qed.

Lemma get_set_ne t k k' v : bst c t -> k <> k' -> avl_get c (avl_set c t k v) k' = avl_get c t k'.
Proof.
  intros H Hne. rewrite !get_tmap, tmap_set by auto using bst_set. by apply lookup_insert_ne.
Qed.

Lemma get_delete_eq t k : bst c t -> avl_get c (avl_delete c t k) k = None.
Proof. intros H. rewrite get_tmap, tmap_delete by auto using bst_delete. apply lookup_delete_eq. Qed.

Lemma get_delete_ne t k k' : bst c t -> k <> k' -> avl_get c (avl_delete c t k) k' = avl_get c t k'.
Proof.
  intros H Hne. rewrite !get_tmap, tmap_delete by auto using bst_delete. by apply lookup_delete_ne.
Qed.

Lemma get_nonempty t : bst c t -> t <> Leaf -> exists k v, avl_get c t k = Some v.
Proof.
  destruct t as [|l r h k v]; [done|]. intros Hb _. exists k, v. simpl. by rewrite (tc_refl c).
Qed.

Lemma set_nonempty t k v : bst c t -> avl_set c t k v <> Leaf.
Proof. intros H E. assert (G := get_set_eq t k v H). by rewrite E in G. Qed.
End Contents.

#[export] Hint Resolve bst_set bst_delete bst_leaf : avl.
