(* ===== verification/Limits.v ===== *)
(** Hard maxima and the budget counter (limits.go).

    [budgetCounter] is the overflow-safe accumulator behind every aggregate
    size check of the module. [charge] is its specification: the sum either
    fits in the maximum or the whole request is RESOURCE_EXHAUSTED. *)

From stdpp Require Import base list strings.
From Stdlib Require Import ZArith Lia Permutation.
From S2P Require Import Prelude.

Definition MaxIdentifierBytes : Z := 1024.
Definition MaxStringValueBytes : Z := Z.shiftl 64 10.
Definition MaxNamespaceBytes : Z := MaxIdentifierBytes.
Definition MaxNamespacePatternBytes : Z := MaxIdentifierBytes + 1.
Definition MaxCallerAttributes : Z := 128.
Definition MaxCallerGrants : Z := 128.
Definition MaxCapabilitiesPerGrant : Z := 16.
Definition MaxSourceNameBytes : Z := MaxIdentifierBytes.
Definition MaxPolicySourceBytes : Z := Z.shiftl 1 20.
Definition MaxArgumentItems : Z := 128.
Definition MaxContextualTuples : Z := 1024.
Definition MaxContextualAttributes : Z := 1024.
Definition MaxBatchItems : Z := 1000.
Definition MaxMutationItems : Z := 4096.
Definition MaxEvidenceBytes : Z := Z.shiftl 64 10.
Definition MaxVerifierOutputItems : Z := 1024.
Definition MaxPageRequestItems : Z := 1000.
Definition MaxPageResponseItems : Z := 1000.
Definition MaxExplainSteps : Z := 4096.
Definition MaxStatusComponents : Z := 256.
Definition MaxEventPageItems : Z := 1000.
Definition MaxAggregateInputBytes : Z := Z.shiftl 4 20.
Definition MaxAggregateOutputBytes : Z := Z.shiftl 4 20.
Definition MaxAuthorizerOutputBytes : Z := Z.shiftl 1 20.
Definition MaxVerifierOutputBytes : Z := Z.shiftl 4 20.
Definition MaxEventPageBytes : Z := Z.shiftl 4 20.
Definition MaxAggregateWorkItems : Z := 100000.

(** Go's 64-bit [int] and [uint64]. *)
Definition MaxInt64 : Z := 2 ^ 63 - 1.
Definition MaxUint64 : Z := 2 ^ 64 - 1.
Definition int64 (z : Z) : Z := (z + 2 ^ 63) mod 2 ^ 64 - 2 ^ 63.

Record budgetCounter := mkBudget { used : Z; max : Z }.

(** [func (b *budgetCounter) add(size int) error]; the [int] sum is wrapped. *)
Definition add (b : budgetCounter) (size : Z) : result budgetCounter :=
  if (size <? 0) || (used b <? 0) || (max b <? 0) || (max b <? size)
     || (int64 (max b - size) <? used b)
  then Err ErrorResourceExhausted
  else Ok (mkBudget (int64 (used b + size)) (max b)).

(** [func (b *budgetCounter) addMany(count, size int) error]; Go's [/] on
    [int] truncates, and the product is wrapped. *)
Definition addMany (b : budgetCounter) (count size : Z) : result budgetCounter :=
  if (count <? 0) || (size <? 0) || (used b <? 0) || (max b <? 0)
     || (negb (count =? 0) && (Z.quot (max b) count <? size))
  then Err ErrorResourceExhausted
  else add b (int64 (count * size)).

(** A counter as the code creates them: [budgetCounter{max: m}] and onwards. *)
Definition budget_ok (b : budgetCounter) : Prop :=
  0 <= used b <= max b /\ max b <= MaxInt64.

(** Specification: add a non-negative cost if the total fits. *)
Definition charge (b : budgetCounter) (cost : Z) : result budgetCounter :=
  if used b + cost <=? max b
  then Ok (mkBudget (used b + cost) (max b))
  else Err ErrorResourceExhausted.

Lemma int64_id z : - 2 ^ 63 <= z <= MaxInt64 -> int64 z = z.
Proof. unfold int64, MaxInt64. intros. rewrite Z.mod_small; lia. Qed.

Lemma add_charge b n : budget_ok b -> 0 <= n -> add b n = charge b n.
Proof.
  intros [Hu Hm] Hn. unfold add, charge.
  assert (Hb : - 2 ^ 63 <= 0 <= MaxInt64) by by vm_compute.
  destruct (Z.ltb_spec n 0); [lia|]. destruct (Z.ltb_spec (used b) 0); [lia|].
  destruct (Z.ltb_spec (max b) 0); [lia|]. simpl.
  destruct (Z.ltb_spec (max b) n); simpl.
  { destruct (Z.leb_spec (used b + n) (max b)); [lia|done]. }
  rewrite int64_id by lia.
  destruct (Z.ltb_spec (max b - n) (used b)), (Z.leb_spec (used b + n) (max b)); try lia; [done|].
  by rewrite int64_id by lia.
Qed.

Lemma addMany_charge b k n :
  budget_ok b -> 0 <= k -> 0 <= n -> addMany b k n = charge b (k * n).
Proof.
  intros Hb Hk Hn. assert (Hbk := Hb). destruct Hbk as [Hu Hm]. unfold addMany.
  assert (H0 : - 2 ^ 63 <= 0 <= MaxInt64) by by vm_compute.
  destruct (Z.ltb_spec k 0); [lia|]. destruct (Z.ltb_spec n 0); [lia|].
  destruct (Z.ltb_spec (used b) 0); [lia|]. destruct (Z.ltb_spec (max b) 0); [lia|]. simpl.
  destruct (Z.eqb_spec k 0) as [->|Hk0]; simpl.
  { rewrite int64_id by lia. rewrite add_charge by (auto; lia). f_equal; lia. }
  rewrite Z.quot_div_nonneg by lia.
  destruct (Z.ltb_spec (max b / k) n) as [Hlt|Hge].
  - unfold charge. destruct (Z.leb_spec (used b + k * n) (max b)) as [Hle|]; [|done].
    exfalso. assert (max b < k * n); [|lia].
    assert (Hd := Z.mul_succ_div_gt (max b) k). nia.
  - assert (k * n <= max b).
    { assert (Hd := Z.mul_div_le (max b) k). nia. }
    rewrite int64_id by nia. by rewrite add_charge by (auto; nia).
Qed.

Lemma charge_charge b n m :
  0 <= n -> 0 <= m -> (let? b' := charge b n in charge b' m) = charge b (n + m).
Proof.
  intros Hn Hm. unfold charge.
  destruct (Z.leb_spec (used b + n) (max b)); simpl.
  - rewrite Z.add_assoc. done.
  - destruct (Z.leb_spec (used b + (n + m)) (max b)); [lia|done].
Qed.

Lemma charge_ok b n b' : budget_ok b -> 0 <= n -> charge b n = Ok b' -> budget_ok b'.
Proof.
  intros [Hu Hm] Hn. unfold charge. destruct (Z.leb_spec (used b + n) (max b)); [|done].
  intros [= <-]. split; simpl; lia.
Qed.

Lemma charge_Ok_iff b n b' :
  charge b n = Ok b' <-> used b + n <= max b /\ b' = mkBudget (used b + n) (max b).
Proof.
  unfold charge. destruct (Z.leb_spec (used b + n) (max b)); split.
  - intros [= <-]. done.
  - by intros [_ ->].
  - done.
  - intros [? _]; lia.
Qed.

Lemma charge_0 b : budget_ok b -> charge b 0 = Ok b.
Proof.
  intros [Hu Hm]. unfold charge. destruct b as [u m]; simpl in *.
  rewrite Z.add_0_r. by destruct (Z.leb_spec u m); [|lia].
Qed.

(** A budgeted traversal step [f] that costs [cost x] on every well-formed
    counter. Costs of composite values follow by composing this relation. *)
Definition costs {A} (f : budgetCounter -> A -> result budgetCounter) (cost : A -> Z) : Prop :=
  forall b x, budget_ok b -> 0 <= cost x /\ f b x = charge b (cost x).

Definition sum_cost {A} (cost : A -> Z) (l : list A) : Z := foldr (fun x acc => cost x + acc) 0 l.

Lemma bind_charge b n (k : budgetCounter -> result budgetCounter) m :
  budget_ok b -> 0 <= n -> 0 <= m ->
  (forall b', budget_ok b' -> k b' = charge b' m) ->
  (let? b' := charge b n in k b') = charge b (n + m).
Proof.
  intros Hb Hn Hm Hk. rewrite <- charge_charge by done.
  destruct (charge b n) as [b'|] eqn:E; simpl; [|done].
  apply Hk. eauto using charge_ok.
Qed.

Lemma sum_cost_nonneg {A} (cost : A -> Z) l : (forall x, 0 <= cost x) -> 0 <= sum_cost cost l.
Proof. intros H. induction l as [|x l IH]; simpl; [lia|]. specialize (H x). lia. Qed.

Lemma sum_cost_elem {A} (cost : A -> Z) l x : (forall x, 0 <= cost x) -> x ∈ l -> cost x <= sum_cost cost l.
Proof.
  intros Hc. induction 1 as [x l|x y l _ IH]; simpl; [|specialize (Hc y); lia].
  assert (H := sum_cost_nonneg cost l Hc). lia.
Qed.
Lemma sum_cost_perm {A} (cost : A -> Z) l1 l2 : l1 ≡ₚ l2 -> sum_cost cost l1 = sum_cost cost l2.
Proof. induction 1; simpl; lia. Qed.

Lemma foldM_charge {A} f (cost : A -> Z) l b :
  costs f cost -> budget_ok b -> foldM f b l = charge b (sum_cost cost l).
Proof.
  intros Hf. revert b. induction l as [|x l IH]; intros b Hb; simpl; [by rewrite charge_0|].
  destruct (Hf b x Hb) as [Hx ->]. apply bind_charge; auto.
  apply sum_cost_nonneg. intros y. by destruct (Hf b y Hb).
Qed.
