(* ===== verification/Text.v ===== *)
(** Text validation (validation.go, lines 12-151).

    Strings are byte strings. [utf8_runes] decodes them with Go's UTF-8 rules
    (shortest form, no surrogates, at most U+10FFFF): it answers [None]
    exactly when [utf8.ValidString] is false, and otherwise the code points a
    Go [range] loop visits. *)

From stdpp Require Import base list strings.
From Stdlib Require Import ZArith Lia Permutation Sorted.
From S2P Require Import Prelude Limits.

Definition in_range (lo hi b : Z) : bool := (lo <=? b) && (b <=? hi).

(** Continuation byte. *)
Definition is_cont (b : Z) : bool := in_range 128 191 b.

Fixpoint utf8_runes (l : list Z) : option (list Z) :=
  match l with
  | [] => Some []
  | b0 :: l1 =>
      if b0 <? 128 then (fun rs => b0 :: rs) <$> utf8_runes l1
      else if in_range 194 223 b0 then
        match l1 with
        | b1 :: l2 =>
            if is_cont b1
            then (fun rs => ((b0 - 192) * 64 + (b1 - 128)) :: rs) <$> utf8_runes l2
            else None
        | _ => None
        end
      else if in_range 224 239 b0 then
        match l1 with
        | b1 :: b2 :: l3 =>
            let lo := if b0 =? 224 then 160 else 128 in
            let hi := if b0 =? 237 then 159 else 191 in
            if in_range lo hi b1 && is_cont b2
            then (fun rs => ((b0 - 224) * 4096 + (b1 - 128) * 64 + (b2 - 128)) :: rs)
                 <$> utf8_runes l3
            else None
        | _ => None
        end
      else if in_range 240 244 b0 then
        match l1 with
        | b1 :: b2 :: b3 :: l4 =>
            let lo := if b0 =? 240 then 144 else 128 in
            let hi := if b0 =? 244 then 143 else 191 in
            if in_range lo hi b1 && is_cont b2 && is_cont b3
            then (fun rs => ((b0 - 240) * 262144 + (b1 - 128) * 4096 + (b2 - 128) * 64
                             + (b3 - 128)) :: rs) <$> utf8_runes l4
            else None
        | _ => None
        end
      else None
  end.

(** [unicode.IsControl]: category Cc. *)
Definition isControl (r : Z) : bool := in_range 0 31 r || in_range 127 159 r.

(** [unicode.Cf] of Unicode 15, the tables of the Go 1.25 toolchain. *)
Definition Cf_table : list (Z * Z) :=
  [(0xad, 0xad); (0x600, 0x605); (0x61c, 0x61c); (0x6dd, 0x6dd); (0x70f, 0x70f);
   (0x890, 0x891); (0x8e2, 0x8e2); (0x180e, 0x180e); (0x200b, 0x200f); (0x202a, 0x202e);
   (0x2060, 0x2064); (0x2066, 0x206f); (0xfeff, 0xfeff); (0xfff9, 0xfffb);
   (0x110bd, 0x110bd); (0x110cd, 0x110cd); (0x13430, 0x1343f); (0x1bca0, 0x1bca3);
   (0x1d173, 0x1d17a); (0xe0001, 0xe0001); (0xe0020, 0xe007f)].
Definition isCf (r : Z) : bool := existsb (fun '(lo, hi) => in_range lo hi r) Cf_table.

Definition unsafe_rune (r : Z) : bool := (r =? 0) || isControl r || isCf r.

Definition validateText (value : string) (maximum : Z) (allowEmpty : bool) : result unit :=
  if (len value =? 0) && negb allowEmpty then Err ErrorInvalidArgument
  else if maximum <? len value then Err ErrorResourceExhausted
  else match utf8_runes (bytes_of_string value) with
       | None => Err ErrorInvalidArgument
       | Some runes =>
           if existsb unsafe_rune runes then Err ErrorInvalidArgument else Ok tt
       end.

Definition validateIdentifier (value : string) : result unit :=
  validateText value MaxIdentifierBytes false.

Definition validateOptionalIdentifier (value : string) : result unit :=
  validateText value MaxIdentifierBytes true.

(** The byte ['*']. *)
Definition star : Z := 42.
(** [strings.Count(s, "*")]. *)
Definition count_star (s : string) : Z :=
  zlen (List.filter (fun b => b =? star) (bytes_of_string s)).
(** [strings.HasSuffix(s, "*")]. *)
Definition has_star_suffix (s : string) : bool :=
  match last (bytes_of_string s) with Some b => b =? star | None => false end.

Definition validateNamespace (value : string) : result unit :=
  let? _ := validateText value MaxNamespaceBytes false in
  if 0 <? count_star value then Err ErrorInvalidArgument else Ok tt.

Definition validateNamespacePattern (pattern : string) : result unit :=
  let? _ := validateText pattern MaxNamespacePatternBytes false in
  if (1 <? count_star pattern) || ((0 <? count_star pattern) && negb (has_star_suffix pattern))
  then Err ErrorInvalidArgument else Ok tt.

Definition validIdentifier (value : string) : bool := is_ok (validateIdentifier value).
Definition validNamespace (value : string) : bool := is_ok (validateNamespace value).

Definition isDSLIdentifierStart (b : Z) : bool :=
  (b =? 95) || in_range 65 90 b || in_range 97 122 b.

Definition validDSLIdentifier (value : string) : bool :=
  match bytes_of_string value with
  | [] => false
  | b0 :: rest =>
      isDSLIdentifierStart b0 &&
      forallb (fun b => isDSLIdentifierStart b || in_range 48 57 b) rest
  end.

(** Go ranges over rune starts; a byte outside ASCII starts a rune (or is an
    invalid one) and fails the test itself, so every byte is tested. *)
Definition validRevisionIDString (value : string) : bool :=
  (len value =? 64) &&
  forallb (fun b => in_range 48 57 b || in_range 97 102 b) (bytes_of_string value).

(** ** Ordered, duplicate-free identifier lists *)

(** The in-place compaction loop of the canonical* functions: [step prev x]
    says whether [x] repeats the last kept element (skip), is new (keep), or
    conflicts with it. Positions are overwritten only at or before the element
    being read, so the loop reads the original elements. *)
Fixpoint compactM {A} (step : A -> A -> result bool) (prev : option A) (l : list A)
  : result (list A) :=
  match l with
  | [] => Ok []
  | x :: l' =>
      let? skip := (match prev with Some y => step y x | None => Ok false end) in
      if skip then compactM step prev l'
      else let? rest := compactM step (Some x) l' in Ok (x :: rest)
  end.

(** [index > 0 && bad(values[index-1], value)] for some index. *)
Fixpoint adjacent {A} (ok : A -> A -> bool) (l : list A) : bool :=
  match l with
  | x :: ((y :: _) as l') => ok x y && adjacent ok l'
  | _ => true
  end.

Definition sort_strings (l : list string) : list string := sort_by String.compare l.

Definition canonicalIdentifiers (values : list string) (maximumItems maximumBytes : Z)
  : result (list string) :=
  if maximumItems <? zlen values then Err ErrorResourceExhausted
  else
    let? _ := foldM (fun b v => let? b' := add b (len v) in
                                let? _ := validateIdentifier v in Ok b')
                    (mkBudget 0 maximumBytes) values in
    compactM (fun y x => Ok (cmp_eq (String.compare y x))) None (sort_strings values).

Definition validCanonicalIdentifiers (values : list string) (maximumItems maximumBytes : Z) : bool :=
  if maximumItems <? zlen values then false
  else
    is_ok (foldM (fun b v => let? b' := add b (len v) in
                             let? _ := validateIdentifier v in Ok b')
                 (mkBudget 0 maximumBytes) values)
    && adjacent (fun y x => str_lt y x) values.

(** ** Facts *)

Lemma existsb_false_iff {A} (p : A -> bool) l :
  existsb p l = false <-> Forall (fun x => p x = false) l.
Proof.
  induction l as [|x l IH]; simpl; [split; [constructor|done]|].
  by rewrite orb_false_iff, Forall_cons, IH.
Qed.

Lemma adjacent_Sorted {A} (R : A -> A -> Prop) (ok : A -> A -> bool) l :
  (forall x y, ok x y = true <-> R x y) -> adjacent ok l = true <-> Sorted R l.
Proof.
  intros Hok. induction l as [|x [|y l] IH].
  - split; [constructor|done].
  - split; [repeat constructor|done].
  - cbn [adjacent]. rewrite andb_true_iff, IH, Hok. split.
    + intros [? ?]. constructor; [done|by constructor].
    + intros H. inversion_clear H as [|? ? Hs Hh]. by inversion Hh.
Qed.

Lemma adjacent_impl {A} (f g : A -> A -> bool) l :
  (forall x y, f x y = true -> g x y = true) -> adjacent f l = true -> adjacent g l = true.
Proof.
  intros Hfg. induction l as [|x [|y l] IH]; [done|done|]. cbn [adjacent]. rewrite !andb_true_iff.
  intros [? ?]. auto.
Qed.

Lemma adjacent_strict {A} (c : A -> A -> comparison) `{!TotalCompare c} l :
  adjacent (fun x y => cmp_lt (c x y)) l = true <-> StronglySorted (clt c) l.
Proof.
  rewrite (adjacent_Sorted (clt c)).
  - split; [apply Sorted_StronglySorted, clt_trans; apply _|apply StronglySorted_Sorted].
  - intros x y. unfold clt. by destruct (c x y).
Qed.

(** Compaction that skips equal neighbours turns an ordered list into a
    strictly ordered one with the same elements. *)
Section Compact.
Context {A : Type} (c : A -> A -> comparison) `{!TotalCompare c}.

Definition same_step (y x : A) : result bool := Ok (cmp_eq (c y x)).

Lemma compact_spec prev l :
  StronglySorted (cle c) l -> (forall y, prev = Some y -> Forall (cle c y) l) ->
  exists l', compactM same_step prev l = Ok l' /\ StronglySorted (clt c) l' /\
    (forall x, x ∈ l' \/ prev = Some x <-> x ∈ l \/ prev = Some x) /\
    (forall y, prev = Some y -> Forall (clt c y) l').
Proof.
  revert prev. induction l as [|x l IH]; intros prev Hs Hp.
  { exists []. repeat split; auto; try constructor. }
  inversion_clear Hs as [|? ? Hs' Hx].
  cbn [compactM]. unfold same_step at 1.
  destruct prev as [y|]; simpl.
  - assert (Hy := Hp y eq_refl). inversion_clear Hy as [|? ? Hyx Hyl].
    destruct (tc_spec c y x) as [<-|Hlt|Hgt]; simpl.
    + destruct (IH (Some y)) as (l' & E & S' & M & F); auto.
      { by intros ? [= <-]. }
      exists l'. repeat split; auto.
      * intros Hl'. apply M in Hl' as [?|?]; [left; by right|by right].
      * intros [[->|?]%elem_of_cons|?]; [by right|apply M; by left|by right].
    + destruct (IH (Some x)) as (l' & -> & S' & M & F); auto.
      { by intros ? [= <-]. }
      simpl. exists (x :: l'). split; [done|]. split; [constructor; auto|]. split.
      * intros z. rewrite !elem_of_cons. specialize (M z). split; intros [[->|?]|?]; auto.
        -- destruct M as [M _]. destruct M as [?|[= <-]]; auto.
        -- destruct M as [_ M]. destruct M as [?|[= <-]]; auto.
      * intros ? [= <-]. constructor; [done|].
        eapply Forall_impl; [exact (F x eq_refl)|]. intros z Hz. exact (tc_trans c _ _ _ Hlt Hz).
    + exfalso. apply Hyx. by apply tc_gt_lt.
  - destruct (IH (Some x)) as (l' & -> & S' & M & F); auto.
    { by intros ? [= <-]. }
    simpl. exists (x :: l'). split; [done|]. split; [constructor; auto|]. split; [|done].
    intros z. rewrite !elem_of_cons. specialize (M z). split; intros [[->|?]|?]; auto; try done.
    + destruct M as [M _]. destruct M as [?|[= <-]]; auto.
    + destruct M as [_ M]. destruct M as [?|[= <-]]; auto.
Qed.

Lemma compact_sorted_spec l :
  StronglySorted (cle c) l ->
  exists l', compactM same_step None l = Ok l' /\ StronglySorted (clt c) l' /\
    (forall x, x ∈ l' <-> x ∈ l).
Proof.
  intros Hs. destruct (compact_spec None l Hs) as (l' & E & S' & M & _); [done|].
  exists l'. repeat split; auto; intros Hx.
  - destruct (proj1 (M x) (or_introl Hx)); [done|discriminate].
  - destruct (proj2 (M x) (or_introl Hx)); [done|discriminate].
Qed.

Lemma compact_id prev l :
  StronglySorted (clt c) l -> (forall y, prev = Some y -> Forall (clt c y) l) ->
  compactM same_step prev l = Ok l.
Proof.
  revert prev. induction l as [|x l IH]; intros prev Hs Hp; [done|].
  inversion_clear Hs as [|? ? Hs' Hx]. cbn [compactM].
  rewrite (IH (Some x) Hs'); [|by intros ? [= <-]].
  destruct prev as [y|]; [|done]. unfold same_step. simpl.
  assert (Hy := Hp y eq_refl). inversion_clear Hy as [|? ? Hyx _].
  unfold clt in Hyx. by rewrite Hyx.
Qed.
End Compact.

Lemma valid_utf8_low_bytes l rs b :
  utf8_runes l = Some rs -> b ∈ l -> 0 <= b < 128 -> b ∈ rs.
Proof.
  assert (Hind : forall n l rs, (length l <= n)%nat -> utf8_runes l = Some rs ->
    b ∈ l -> 0 <= b < 128 -> b ∈ rs); [|eauto].
  clear l rs. induction n as [|n IH]; intros l rs Hn Hu Hb Hr.
  { destruct l; [by apply elem_of_nil in Hb|simpl in Hn; lia]. }
  destruct l as [|b0 l1]; [by apply elem_of_nil in Hb|]. cbn [utf8_runes] in Hu.
  assert (Hlow : forall x, is_cont x = true -> b <> x).
  { unfold is_cont, in_range. intros x. lia. }
  assert (Hlow' : forall lo hi x, 128 <= lo -> in_range lo hi x = true -> b <> x).
  { unfold in_range. intros. lia. }
  destruct (Z.ltb_spec b0 128) as [H0|H0].
  { apply fmap_Some in Hu as (rs' & Hu & ->). apply elem_of_cons in Hb as [->|Hb]; [left|].
    right. eapply IH; eauto. simpl in Hn. lia. }
  apply elem_of_cons in Hb as [->|Hb]; [lia|].
  destruct (in_range 194 223 b0).
  { destruct l1 as [|b1 l2]; [done|]. destruct (is_cont b1) eqn:E1; [|done].
    apply fmap_Some in Hu as (rs' & Hu & ->). right.
    apply elem_of_cons in Hb as [->|Hb]; [by apply Hlow in E1|].
    eapply IH; eauto. simpl in Hn. lia. }
  destruct (in_range 224 239 b0).
  { destruct l1 as [|b1 [|b2 l3]]; [done|done|].
    destruct (in_range _ _ b1 && is_cont b2) eqn:E1; [|done].
    apply andb_true_iff in E1 as [E1 E2].
    apply fmap_Some in Hu as (rs' & Hu & ->). right.
    apply elem_of_cons in Hb as [->|[->|Hb]%elem_of_cons]; [| by apply Hlow in E2 |].
    - apply Hlow' in E1; [done|]. by destruct (b0 =? 224).
    - eapply IH; eauto. simpl in Hn. lia. }
  destruct (in_range 240 244 b0); [|done].
  destruct l1 as [|b1 [|b2 [|b3 l4]]]; [done|done|done|].
  destruct (in_range _ _ b1 && is_cont b2 && is_cont b3) eqn:E1; [|done].
  apply andb_true_iff in E1 as [[E1 E2]%andb_true_iff E3].
  apply fmap_Some in Hu as (rs' & Hu & ->). right.
  apply elem_of_cons in Hb as [->|[->|[->|Hb]%elem_of_cons]%elem_of_cons];
    [|by apply Hlow in E2|by apply Hlow in E3|].
  - apply Hlow' in E1; [done|]. by destruct (b0 =? 240).
  - eapply IH; eauto. simpl in Hn. lia.
Qed.

Lemma validateText_Ok value maximum allowEmpty :
  validateText value maximum allowEmpty = Ok tt <->
  (value = EmptyString -> allowEmpty = true) /\ len value <= maximum /\
  exists runes, utf8_runes (bytes_of_string value) = Some runes /\
    Forall (fun r => unsafe_rune r = false) runes.
Proof.
  unfold validateText. split.
  - intros H. destruct ((len value =? 0) && negb allowEmpty) eqn:E1; [done|].
    destruct (Z.ltb_spec maximum (len value)); [done|].
    destruct (utf8_runes (bytes_of_string value)) as [rs|]; [|done].
    destruct (existsb unsafe_rune rs) eqn:Ex; [done|].
    split; [intros ->; by destruct allowEmpty|]. split; [lia|].
    exists rs. split; [done|]. by apply existsb_false_iff.
  - intros (He & Hl & rs & -> & Hs).
    replace ((len value =? 0) && negb allowEmpty) with false.
    2:{ destruct value; [by rewrite He|done]. }
    destruct (Z.ltb_spec maximum (len value)); [lia|].
    apply existsb_false_iff in Hs. by rewrite Hs.
Qed.

(** Validated text holds no NUL byte (nor any other ASCII control byte). *)
Lemma validateText_no_control value maximum allowEmpty b :
  validateText value maximum allowEmpty = Ok tt -> b ∈ bytes_of_string value -> 32 <= b.
Proof.
  intros (_ & _ & rs & Hu & Hs)%validateText_Ok Hb.
  destruct (decide (32 <= b)) as [|Hlt]; [done|]. exfalso.
  assert (0 <= b).
  { assert (Hr := bytes_of_string_range value). rewrite Forall_forall in Hr.
    specialize (Hr b Hb). unfold is_byte in Hr. lia. }
  assert (Hin : b ∈ rs) by (eapply valid_utf8_low_bytes; eauto; lia).
  rewrite Forall_forall in Hs. specialize (Hs b Hin).
  unfold unsafe_rune, isControl, in_range in Hs. lia.
Qed.

(** An identifier is acceptable where the empty one is allowed too. *)
Lemma identifier_optional value : validateIdentifier value = Ok tt -> validateOptionalIdentifier value = Ok tt.
Proof. intros (_ & Hl & Hr)%validateText_Ok. by apply validateText_Ok. Qed.
