(* ===== verification/Types.v ===== *)
(** The immutable public values (data.go, policy.go, events.go, caller.go) and
    the DSL's relationship references, as records.

    [time.Time] is modelled by the instant only: nanoseconds since Go's zero
    time, so [IsZero t] is [t = 0] and [Before]/[After]/[Compare] are the order
    of [Z]. Integers are [Z]; their width is respected where arithmetic can
    reach it (see [MaxUint64]). Unexported struct fields become record fields;
    a Go zero value is the record of zeros and empty strings. *)

From stdpp Require Import base list gmap strings countable.
From Stdlib Require Import ZArith Lia.
From S2P Require Import Prelude.

(** * Time *)
Definition Time : Type := Z.
Definition IsZero (t : Time) : bool := t =? 0.
Definition Second : Z := 1000000000.
Definition Hour : Z := 3600 * Second.

(** * Contexts *)

(** What a context answers when [Err] is asked of it: it is nil, usable, past
    its deadline, canceled, ended with another error, or it panics. *)
Inductive ctx_answer := CtxNil | CtxUsable | CtxDeadline | CtxCanceled | CtxOther | CtxPanic.

#[global] Instance ctx_answer_eq_dec : EqDecision ctx_answer.
Proof. solve_decision. Defined.

(** The context of one call: its answer at the n-th point of the handler that
    asks for [Err], and whether [Done] is signaled at the n-th point that
    polls it. *)
Record Context := mkContext { ctx_err : nat -> ctx_answer; ctx_done : nat -> bool }.

(** * DSL references (package github.com/cadrena/dsl): the fields the engine reads *)
Record EntityRef := mkEntityRef { ent_Type : string; ent_ID : string }.
Record SubjectRef := mkSubjectRef { sub_Type : string; sub_ID : string; sub_Relation : string }.
Record Tuple := mkTuple { tup_Resource : EntityRef; tup_Relation : string; tup_Subject : SubjectRef }.

(** * Typed values, tuples and attributes (data.go) *)
Definition ValueKindString : Z := 1.
Definition ValueKindInteger : Z := 2.
Definition ValueKindBoolean : Z := 3.
Definition ValueKindNull : Z := 4.

Record Value := mkValue { val_kind : Z; val_text : string; val_integer : Z; val_boolean : bool }.

Record RelationshipTuple := mkRelationshipTuple {
  rt_tuple : Tuple; rt_expiresAt : Time; rt_hasExpiry : bool }.

Record Attribute := mkAttribute {
  attr_entity : EntityRef; attr_path : list string; attr_value : Value }.

Record ContextualData := mkContextualData {
  cd_tuples : list RelationshipTuple; cd_attributes : list Attribute }.

Record TupleKey := mkTupleKey { tk_tuple : Tuple }.
Record AttributeKey := mkAttributeKey { ak_entity : EntityRef; ak_path : list string }.

Record GetDataGenerationRequest := mkGetDataGenerationRequest { gdg_namespace : string }.
Record GetDataGenerationResponse := mkGetDataGenerationResponse {
  gdr_validResponse : bool; gdr_generation : Z }.

Record WriteDataRequestInput := mkWriteDataRequestInput {
  in_Namespace : string;
  in_ValidationRevisionID : string;
  in_ExpectedGeneration : Z;
  in_IdempotencyKey : string;
  in_TupleWrites : list RelationshipTuple;
  in_TupleDeletes : list TupleKey;
  in_AttributeWrites : list Attribute;
  in_AttributeDeletes : list AttributeKey }.

Record WriteDataRequest := mkWriteDataRequest {
  wd_namespace : string;
  wd_validationRevisionID : string;
  wd_expectedGeneration : Z;
  wd_idempotencyKey : string;
  wd_tupleWrites : list RelationshipTuple;
  wd_tupleDeletes : list TupleKey;
  wd_attributeWrites : list Attribute;
  wd_attributeDeletes : list AttributeKey }.

Record WriteDataResponse := mkWriteDataResponse { wr_generation : Z; wr_replayed : bool }.

(** * Policies, revisions and slots (policy.go) *)
Record Selector := mkSelector { sel_slot : string; sel_revisionID : string }.

Record RevisionID := mkRevisionID { rid_digest : list Z; rid_valid : bool }.

Record RevisionMetadata := mkRevisionMetadata {
  rm_namespace : string; rm_id : RevisionID; rm_publishedAt : Time }.

Record PublishRequest := mkPublishRequest {
  pub_namespace : string; pub_sourceName : string; pub_source : list Z }.

Record GetRevisionRequest := mkGetRevisionRequest { gr_namespace : string; gr_revisionID : string }.

Record ListRevisionsRequest := mkListRevisionsRequest {
  lr_namespace : string; lr_cursor : string; lr_limit : Z }.

Record ListRevisionsResponse := mkListRevisionsResponse {
  lrr_validResponse : bool; lrr_request : ListRevisionsRequest;
  lrr_revisions : list RevisionMetadata; lrr_nextCursor : string }.

Definition slotExpectationUnset : Z := 1.
Definition slotExpectationActive : Z := 2.
Record SlotExpectation := mkSlotExpectation {
  se_kind : Z; se_revisionID : string; se_generation : Z }.

Record ActivateRequest := mkActivateRequest {
  ar_namespace : string; ar_slot : string; ar_targetRevisionID : string;
  ar_expectation : SlotExpectation }.

Record Activation := mkActivation {
  act_namespace : string; act_slot : string; act_revisionID : string;
  act_generation : Z; act_activatedAt : Time }.

Record ActivateResponse := mkActivateResponse { acr_activation : Activation }.
Record ResolveRequest := mkResolveRequest { rr_namespace : string; rr_slot : string }.
Record ResolveResponse := mkResolveResponse { rsr_activation : Activation }.

Record ListActivationHistoryRequest := mkListActivationHistoryRequest {
  lh_namespace : string; lh_slot : string; lh_cursor : string; lh_limit : Z }.

Record ListActivationHistoryResponse := mkListActivationHistoryResponse {
  lhr_validResponse : bool; lhr_request : ListActivationHistoryRequest;
  lhr_activations : list Activation; lhr_nextCursor : string }.

(** * State events (events.go) *)
Definition StateEventRevisionPublished : Z := 1.
Definition StateEventSlotActivated : Z := 2.
Definition StateEventDataWritten : Z := 3.

(** [StateEventInput] and [StateEvent] have the same fields. *)
Record StateEvent := mkStateEvent {
  ev_namespace : string; ev_cursor : string; ev_kind : Z; ev_revisionID : string;
  ev_slot : string; ev_slotGeneration : Z; ev_dataGeneration : Z; ev_occurredAt : Time }.

Record ListEventsRequest := mkListEventsRequest {
  le_namespace : string; le_afterCursor : string; le_limit : Z }.

Record ListEventsResponse := mkListEventsResponse {
  ler_validResponse : bool; ler_request : ListEventsRequest;
  ler_events : list StateEvent; ler_nextCursor : string }.

(** * Callers (caller.go). Go's [Capability] is a string type. *)
Definition Capability : Type := string.
Record Caller := mkCaller { caller_id : string; caller_attributes : gmap string string }.
Record Grant := mkGrant { grant_pattern : string; grant_capabilities : list Capability }.
Record CallerAuthorization := mkCallerAuthorization { ca_grants : list Grant }.

(** * Decidable equality and countability *)
#[global] Instance EntityRef_eq_dec : EqDecision EntityRef.
Proof. solve_decision. Defined.
#[global] Instance SubjectRef_eq_dec : EqDecision SubjectRef.
Proof. solve_decision. Defined.
#[global] Instance Tuple_eq_dec : EqDecision Tuple.
Proof. solve_decision. Defined.
#[global] Instance Value_eq_dec : EqDecision Value.
Proof. solve_decision. Defined.
#[global] Instance RelationshipTuple_eq_dec : EqDecision RelationshipTuple.
Proof. unfold EqDecision. intros [] []. unfold Time in *. solve_decision. Defined.
#[global] Instance Attribute_eq_dec : EqDecision Attribute.
Proof. solve_decision. Defined.
#[global] Instance TupleKey_eq_dec : EqDecision TupleKey.
Proof. solve_decision. Defined.
#[global] Instance AttributeKey_eq_dec : EqDecision AttributeKey.
Proof. solve_decision. Defined.
#[global] Instance WriteDataResponse_eq_dec : EqDecision WriteDataResponse.
Proof. solve_decision. Defined.

#[global] Instance EntityRef_countable : Countable EntityRef.
Proof.
  apply (inj_countable' (fun e => (ent_Type e, ent_ID e)) (fun p => mkEntityRef p.1 p.2)).
  by intros [].
Defined.
#[global] Instance SubjectRef_countable : Countable SubjectRef.
Proof.
  apply (inj_countable' (fun e => (sub_Type e, sub_ID e, sub_Relation e))
    (fun p => mkSubjectRef p.1.1 p.1.2 p.2)).
  by intros [].
Defined.
#[global] Instance Tuple_countable : Countable Tuple.
Proof.
  apply (inj_countable' (fun e => (tup_Resource e, tup_Relation e, tup_Subject e))
    (fun p => mkTuple p.1.1 p.1.2 p.2)).
  by intros [].
Defined.

#[global] Instance AttributeKey_countable : Countable AttributeKey.
Proof.
  apply (inj_countable' (fun e => (ak_entity e, ak_path e)) (fun p => mkAttributeKey p.1 p.2)).
  by intros [].
Defined.

(** * Comparisons (data.go and store/memory/indexed.go) *)

(** indexed.go *)
Definition compareEntity (left right : EntityRef) : comparison :=
  then_cmp (String.compare (ent_Type left) (ent_Type right))
           (String.compare (ent_ID left) (ent_ID right)).

Definition compareSubject (left right : SubjectRef) : comparison :=
  then_cmp (String.compare (sub_Type left) (sub_Type right))
    (then_cmp (String.compare (sub_ID left) (sub_ID right))
              (String.compare (sub_Relation left) (sub_Relation right))).

Definition compareTuple (left right : Tuple) : comparison :=
  then_cmp (compareEntity (tup_Resource left) (tup_Resource right))
    (then_cmp (String.compare (tup_Relation left) (tup_Relation right))
              (compareSubject (tup_Subject left) (tup_Subject right))).

Definition compareTupleBucket (tuple : Tuple) (resource : EntityRef) (relation : string) : comparison :=
  then_cmp (compareEntity (tup_Resource tuple) resource)
           (String.compare (tup_Relation tuple) relation).

(** data.go: the loop over six string pairs. *)
Fixpoint comparePairs (pairs : list (string * string)) : comparison :=
  match pairs with
  | [] => Eq
  | (a, b) :: rest => then_cmp (String.compare a b) (comparePairs rest)
  end.

Definition compareTuplePairs (left right : Tuple) : comparison :=
  comparePairs
    [(ent_Type (tup_Resource left), ent_Type (tup_Resource right));
     (ent_ID (tup_Resource left), ent_ID (tup_Resource right));
     (tup_Relation left, tup_Relation right);
     (sub_Type (tup_Subject left), sub_Type (tup_Subject right));
     (sub_ID (tup_Subject left), sub_ID (tup_Subject right));
     (sub_Relation (tup_Subject left), sub_Relation (tup_Subject right))].

(** store/data.go *)
Definition compareSubjectRef (left right : SubjectRef) : comparison :=
  comparePairs [(sub_Type left, sub_Type right); (sub_ID left, sub_ID right);
                (sub_Relation left, sub_Relation right)].

Definition compareBool (left right : bool) : comparison :=
  if Bool.eqb left right then Eq else if negb left then Lt else Gt.

Definition compareRelationshipTuple (left right : RelationshipTuple) : comparison :=
  then_cmp (compareTuplePairs (rt_tuple left) (rt_tuple right))
    (then_cmp (compareBool (rt_hasExpiry left) (rt_hasExpiry right))
              (Z.compare (rt_expiresAt left) (rt_expiresAt right))).

Fixpoint compareAttributePath (left right : list string) : comparison :=
  match left, right with
  | x :: l, y :: r => then_cmp (String.compare x y) (compareAttributePath l r)
  | [], [] => Eq
  | [], _ :: _ => Lt
  | _ :: _, [] => Gt
  end.

Definition compareAttributeKey (left right : Attribute) : comparison :=
  then_cmp (comparePairs [(ent_Type (attr_entity left), ent_Type (attr_entity right));
                          (ent_ID (attr_entity left), ent_ID (attr_entity right))])
           (compareAttributePath (attr_path left) (attr_path right)).

Definition compareValue (left right : Value) : comparison :=
  then_cmp (Z.compare (val_kind left) (val_kind right))
    (then_cmp (String.compare (val_text left) (val_text right))
      (then_cmp (Z.compare (val_integer left) (val_integer right))
                (compareBool (val_boolean left) (val_boolean right)))).

Definition compareAttribute (left right : Attribute) : comparison :=
  then_cmp (compareAttributeKey left right) (compareValue (attr_value left) (attr_value right)).

Definition compareAttributeDeleteKey (left right : AttributeKey) : comparison :=
  then_cmp (comparePairs [(ent_Type (ak_entity left), ent_Type (ak_entity right));
                          (ent_ID (ak_entity left), ent_ID (ak_entity right))])
           (compareAttributePath (ak_path left) (ak_path right)).

(** ** They are total comparisons *)

#[global] Instance compareBool_total : TotalCompare compareBool.
Proof.
  split.
  - intros [] []; by split.
  - by intros [] [].
  - by intros [] [] [].
Qed.

#[global] Instance compareEntity_total : TotalCompare compareEntity.
Proof. apply then_cmp_total; try apply _. intros [] []; simpl; congruence. Qed.

#[global] Instance compareSubject_total : TotalCompare compareSubject.
Proof.
  apply (then_cmp_total sub_Type (fun s => (sub_ID s, sub_Relation s)) String.compare
    (pair_cmp String.compare String.compare)).
  intros [] []; simpl; congruence.
Qed.

#[global] Instance compareTuple_total : TotalCompare compareTuple.
Proof.
  apply (then_cmp_total tup_Resource (fun s => (tup_Relation s, tup_Subject s)) compareEntity
    (pair_cmp String.compare compareSubject)).
  intros [] []; simpl; congruence.
Qed.

Lemma then_cmp_assoc a b d : then_cmp (then_cmp a b) d = then_cmp a (then_cmp b d).
Proof. by destruct a. Qed.
Lemma then_cmp_Eq_r a : then_cmp a Eq = a.
Proof. by destruct a. Qed.

(** The two tuple orders of the module agree. *)
Lemma compareTuplePairs_eq left right : compareTuplePairs left right = compareTuple left right.
Proof.
  unfold compareTuplePairs, compareTuple, compareEntity, compareSubject. cbn [comparePairs].
  by rewrite !then_cmp_assoc, then_cmp_Eq_r.
Qed.

Lemma compareSubjectRef_eq left right : compareSubjectRef left right = compareSubject left right.
Proof. unfold compareSubjectRef, compareSubject. cbn [comparePairs]. by rewrite then_cmp_Eq_r. Qed.

(** A comparison that agrees pointwise with a total one is total. *)
Lemma total_ext {A} (c1 c2 : A -> A -> comparison) :
  (forall x y, c1 x y = c2 x y) -> TotalCompare c2 -> TotalCompare c1.
Proof.
  intros E [H1 H2 H3]. split; intros; rewrite ?E in *; eauto.
Qed.

#[global] Instance compareTuplePairs_total : TotalCompare compareTuplePairs.
Proof. eapply total_ext; [apply compareTuplePairs_eq|apply _]. Qed.
#[global] Instance compareSubjectRef_total : TotalCompare compareSubjectRef.
Proof. eapply total_ext; [apply compareSubjectRef_eq|apply _]. Qed.

#[global] Instance compareRelationshipTuple_total : TotalCompare compareRelationshipTuple.
Proof.
  apply (then_cmp_total rt_tuple (fun s => (rt_hasExpiry s, rt_expiresAt s)) compareTuplePairs
    (pair_cmp compareBool Z.compare)).
  intros [] []; simpl; congruence.
Qed.

#[global] Instance compareAttributePath_total : TotalCompare compareAttributePath.
Proof.
  split.
  - intros x; induction x as [|a x IH]; intros [|b y]; simpl; try done.
    destruct (tc_spec String.compare a b) as [->|H|H]; simpl.
    + rewrite IH. split; congruence.
    + split; [done|]. intros [= -> _]. by apply (tc_lt_irrefl String.compare) in H.
    + split; [done|]. intros [= -> _]. by apply (tc_lt_irrefl String.compare) in H.
  - intros x; induction x as [|a x IH]; intros [|b y]; simpl; try done.
    rewrite (tc_antisym String.compare a b), IH. by destruct (String.compare a b).
  - intros x; induction x as [|a x IH]; intros [|b y] [|d z]; simpl; try done.
    destruct (tc_spec String.compare a b) as [E1|E1|E1],
      (tc_spec String.compare b d) as [E2|E2|E2]; subst; simpl; try done;
      rewrite ?(tc_refl String.compare); simpl; try done.
    + apply IH.
    + by rewrite E2.
    + by rewrite E1.
    + by rewrite (tc_trans String.compare _ _ _ E1 E2).
Qed.

#[global] Instance compareValue_total : TotalCompare compareValue.
Proof.
  apply (then_cmp_total val_kind (fun s => (val_text s, (val_integer s, val_boolean s))) Z.compare
    (pair_cmp String.compare (pair_cmp Z.compare compareBool))).
  intros [] []; simpl; congruence.
Qed.

Lemma comparePairs_entity a b :
  comparePairs [(ent_Type a, ent_Type b); (ent_ID a, ent_ID b)] = compareEntity a b.
Proof. cbn [comparePairs]. by rewrite then_cmp_Eq_r. Qed.

#[global] Instance compareAttributeDeleteKey_total : TotalCompare compareAttributeDeleteKey.
Proof.
  eapply (total_ext _ (fun x y => then_cmp (compareEntity (ak_entity x) (ak_entity y))
    (compareAttributePath (ak_path x) (ak_path y)))).
  - intros x y. unfold compareAttributeDeleteKey. by rewrite comparePairs_entity.
  - apply then_cmp_total; try apply _. intros [] []; simpl; congruence.
Qed.

(** The key of an attribute, as used to address and delete it. *)
Definition attr_key (a : Attribute) : AttributeKey := mkAttributeKey (attr_entity a) (attr_path a).

Lemma compareAttributeKey_key left right :
  compareAttributeKey left right = compareAttributeDeleteKey (attr_key left) (attr_key right).
Proof. done. Qed.

#[global] Instance compareAttribute_total : TotalCompare compareAttribute.
Proof.
  eapply (total_ext _ (fun x y => then_cmp (compareAttributeDeleteKey (attr_key x) (attr_key y))
    (compareValue (attr_value x) (attr_value y)))); [done|].
  apply then_cmp_total; try apply _. intros [] []; unfold attr_key; simpl; congruence.
Qed.
