(* ===== verification/Invocation.v ===== *)
(** The extension boundary (errors.go, invocation.go).

    Authorizers, verifiers and sinks are code of the embedding application.
    [invokeExtension] runs one call on a goroutine of its own, behind a
    bounded number of slots per port, and stops waiting when the context ends.
    The first part of the file is the value a handler sees; the second is the
    slot protocol of one port as a step relation: goroutines outlive callers
    that gave up, and a slot is taken exactly while its goroutine runs. *)

From Stdlib Require Import ZArith Lia.
From stdpp Require Import base list gmap strings fin_maps.
From S2P Require Import Prelude Types.

(** * Errors (errors.go) *)

(** [EngineError]: its category string, [None] when it is not one of the
    thirteen stable names. *)
Record EngineError := mkEngineError { ee_category : option ErrorCategory }.

Definition EngineError_Category (e : EngineError) : ErrorCategory :=
  default ErrorInternal (ee_category e).

(** A Go [error] value: a non-nil [*EngineError], one of the two errors of
    package context, or any other error (a nil [*EngineError] in an interface
    included). *)
Inductive GoError := TypedError (e : EngineError) | ContextCanceled | ContextDeadlineExceeded | ForeignError.

Definition engineError (category : ErrorCategory) : GoError :=
  TypedError (mkEngineError (Some category)).

Definition isEngineCategory (err : GoError) (category : ErrorCategory) : bool :=
  match err with
  | TypedError e => bool_decide (EngineError_Category e = category)
  | _ => false
  end.

Definition sanitizedExtensionError (err : GoError) (fallback : ErrorCategory) : ErrorCategory :=
  match err with
  | TypedError e => EngineError_Category e
  | _ => fallback
  end.

(** * One call *)

(** [contextEngineError]: [None] is a nil error. A context whose [Err] panics
    takes its caller with it; the match is completed with INTERNAL. *)
Definition contextEngineError (a : ctx_answer) : option ErrorCategory :=
  match a with
  | CtxNil => Some ErrorInvalidArgument
  | CtxUsable => None
  | CtxCanceled => Some ErrorCanceled
  | CtxDeadline => Some ErrorDeadlineExceeded
  | CtxOther | CtxPanic => Some ErrorInternal
  end.

(** What the application's code does when it is called. *)
Inductive call_outcome (T : Type) :=
  | Returned (r : T + GoError)
  | Panicked.
Arguments Returned {T} r.
Arguments Panicked {T}.

(** The value the goroutine sends: a panic is INTERNAL. *)
Definition completion {T} (o : call_outcome T) : T + GoError :=
  match o with
  | Returned r => r
  | Panicked => inr (engineError ErrorInternal)
  end.

(** [invokeExtension]. [slotFree] is the outcome of the non-blocking send to
    the port's slots; [ctx_done ctx n] says that the final [select] took the
    [Done] branch. [zero] is the zero value of [T]. *)
Definition invokeExtension {T} (zero : T) (ctx : Context) (n : nat) (slotFree : bool)
  (call : call_outcome T) : T + GoError :=
  match contextEngineError (ctx_err ctx n) with
  | Some e => inr (engineError e)
  | None =>
      if negb slotFree then inr (engineError ErrorResourceExhausted)
      else if ctx_done ctx n then
        match contextEngineError (ctx_err ctx (S n)) with
        | Some e => inr (engineError e)
        | None => inl zero
        end
      else completion call
  end.

Definition maxConcurrentExtensionCalls : Z := 64.
Definition maxConcurrentExtensionCallsPerPort : Z := maxConcurrentExtensionCalls / 4.

(** * The slots of one port *)

Section Port.
Context {T : Type}.

(** The goroutine of a call, then the caller that waits for it. *)
Inductive goroutine := Calling | Completed (r : T + GoError).
Inductive waiter := Waiting | Answered (r : T + GoError).

(** [occupied] is the number of values in the slot channel. *)
Record port := mkPort { occupied : Z; calls : gmap nat (goroutine * waiter) }.

Definition idle_port : port := mkPort 0 ∅.

Inductive port_step : port -> port -> Prop :=
  | port_full p :
      (* [default:] RESOURCE_EXHAUSTED, nothing is started *)
      maxConcurrentExtensionCallsPerPort <= occupied p -> port_step p p
  | port_start p i :
      occupied p < maxConcurrentExtensionCallsPerPort -> calls p !! i = None ->
      port_step p (mkPort (occupied p + 1) (<[i := (Calling, Waiting)]> (calls p)))
  | port_finish p i w (o : call_outcome T) :
      (* the deferred function: receive from the slots, then send to the
         channel, whose buffer of one never blocks *)
      calls p !! i = Some (Calling, w) ->
      port_step p (mkPort (occupied p - 1) (<[i := (Completed (completion o), w)]> (calls p)))
  | port_collect p i r :
      calls p !! i = Some (Completed r, Waiting) ->
      port_step p (mkPort (occupied p) (<[i := (Completed r, Answered r)]> (calls p)))
  | port_abandon p i g (a : ctx_answer) e :
      (* [<-ctx.Done()]: a context whose channel is closed has an error, as
         [context.Context] documents *)
      calls p !! i = Some (g, Waiting) -> contextEngineError a = Some e ->
      port_step p (mkPort (occupied p) (<[i := (g, Answered (inr (engineError e)))]> (calls p))).

Definition is_calling (c : nat * (goroutine * waiter)) : Prop :=
  match fst (snd c) with Calling => True | Completed _ => False end.
#[local] Instance is_calling_dec c : Decision (is_calling c).
Proof. unfold is_calling. destruct (fst (snd c)); apply _. Defined.

(** The goroutines still inside the application's code. *)
Definition running (p : port) : nat := map_count is_calling (calls p).

(** An answer is what the call itself delivered, or the context's error. *)
Definition answer_ok (c : goroutine * waiter) : Prop :=
  match c with
  | (_, Waiting) => True
  | (g, Answered r) => g = Completed r \/ exists a e, contextEngineError a = Some e /\ r = inr (engineError e)
  end.

Record port_inv (p : port) : Prop := {
  pi_count : occupied p = Z.of_nat (running p);
  pi_bound : occupied p <= maxConcurrentExtensionCallsPerPort;
  pi_answers : map_Forall (fun _ c => answer_ok c) (calls p)
}.

Lemma port_step_inv p p' : port_inv p -> port_step p p' -> port_inv p'.
Proof.
  intros [Hc Hb Ha] Hs. unfold running in Hc.
  destruct Hs as [p Hf|p i Hl Hi|p i w o Hi|p i r Hi|p i g a e Hi He]; [done| | | |];
    (split; cbn [occupied calls]; [unfold running; cbn [calls]|lia|apply map_Forall_insert_2; [|done]]).
  - rewrite map_count_fresh, decide_True by done. lia.
  - done.
  - assert (Hr := map_count_change is_calling _ i (Completed (completion o), w) _ Hi).
    rewrite decide_True, decide_False in Hr by (done || by intros []). lia.
  - specialize (Ha i _ Hi). destruct w as [|r]; [done|]. simpl in *. destruct Ha as [|Ha]; [done|by right].
  - assert (Hr := map_count_change is_calling _ i (Completed r, Answered r) _ Hi).
    rewrite !decide_False in Hr by (by intros []). lia.
  - by left.
  - assert (Hr := map_count_change is_calling _ i (g, Answered (inr (engineError e))) _ Hi).
    destruct g; [rewrite !decide_True in Hr by done|rewrite !decide_False in Hr by (by intros [])]; lia.
  - right; eauto.
Qed.

Lemma idle_port_inv : port_inv idle_port.
Proof. split; [|done|by apply map_Forall_empty]. unfold running. cbn. by rewrite map_count_empty. Qed.

(** C35: the slots of an extension port. In every state reachable by starting,
    finishing, collecting and abandoning calls in any order, the number of
    occupied slots is the number of goroutines still inside the application's
    code and at most [maxConcurrentExtensionCallsPerPort] = 16, so neither a
    panic nor a caller that stopped waiting leaks a slot; and every answer a
    caller got is what its own call delivered or the error of its context. *)
Theorem extension_slots_sound p :
  rtc port_step idle_port p ->
  occupied p = Z.of_nat (running p) /\ 0 <= occupied p <= 16 /\
  map_Forall (fun _ c => answer_ok c) (calls p).
Proof.
  intros Hr. assert (Hi : port_inv p).
  { generalize idle_port_inv. induction Hr; eauto using port_step_inv. }
  destruct Hi as [H1 H2 H3]. change maxConcurrentExtensionCallsPerPort with 16 in H2.
  split; [done|]. split; [lia|done].
Qed.

(** Waiting for a call costs nothing but its completion: whatever the state,
    the goroutine of a running call can finish, and its slot is free again. *)
Lemma port_finishes p i w (o : call_outcome T) :
  calls p !! i = Some (Calling, w) ->
  exists p', port_step p p' /\ occupied p' = occupied p - 1 /\
    calls p' !! i = Some (Completed (completion o), w).
Proof.
  intros Hi. eexists. split; [by apply (port_finish p i w o)|]. cbn. by rewrite lookup_insert_eq.
Qed.
End Port.
