(* ===== verification/Cost.v ===== *)
(** Aggregate size accounting (cost.go).

    Every [add*Cost] charges a budget counter field by field and stops at the
    first charge that does not fit. For each of them the file gives the closed
    form of its cost and proves that the traversal succeeds exactly when the
    total fits ([costs]), so that nothing is under-counted, nothing overflows,
    and Go's unspecified map iteration order cannot change the answer. *)

From stdpp Require Import base list gmap strings.
From Stdlib Require Import ZArith Lia Permutation.
From S2P Require Import Prelude Limits Types.

Definition valueMetadataBytes : Z := 9.
Definition collectionMetadataBytes : Z := 8.
Definition fieldMetadataBytes : Z := 8.
Definition timestampBytes : Z := 40.
Definition digestBytes : Z := 32.
Definition uint64Bytes : Z := 8.
Definition boolBytes : Z := 1.
Definition enumBytes : Z := 1.

Definition addTextCost (b : budgetCounter) (value : string) : result budgetCounter :=
  let? b := add b fieldMetadataBytes in
  add b (len value).

Definition addBytesCost (b : budgetCounter) (value : list Z) : result budgetCounter :=
  let? b := add b fieldMetadataBytes in
  add b (zlen value).

Definition addFixedFieldCost (b : budgetCounter) (size : Z) : result budgetCounter :=
  let? b := add b fieldMetadataBytes in
  add b size.

Definition addValueCost (b : budgetCounter) (value : Value) : result budgetCounter :=
  let? b := add b valueMetadataBytes in
  if val_kind value =? ValueKindString then add b (len (val_text value)) else Ok b.

Definition addEntityRefCost (b : budgetCounter) (entity : EntityRef) : result budgetCounter :=
  let? b := addTextCost b (ent_Type entity) in
  addTextCost b (ent_ID entity).

Definition addAttributePathCost (b : budgetCounter) (path : list string) : result budgetCounter :=
  let? b := add b collectionMetadataBytes in
  foldM addTextCost b path.

Definition addSubjectRefCost (b : budgetCounter) (subject : SubjectRef) : result budgetCounter :=
  let? b := addTextCost b (sub_Type subject) in
  let? b := addTextCost b (sub_ID subject) in
  addTextCost b (sub_Relation subject).

Definition addTupleCost (b : budgetCounter) (tuple : Tuple) : result budgetCounter :=
  let? b := addEntityRefCost b (tup_Resource tuple) in
  let? b := addTextCost b (tup_Relation tuple) in
  addSubjectRefCost b (tup_Subject tuple).

Definition addRelationshipTupleCost (b : budgetCounter) (tuple : RelationshipTuple)
  : result budgetCounter :=
  let? b := addTupleCost b (rt_tuple tuple) in
  let? b := addFixedFieldCost b boolBytes in
  if rt_hasExpiry tuple then addFixedFieldCost b timestampBytes else Ok b.

Definition addAttributeCost (b : budgetCounter) (attribute : Attribute) : result budgetCounter :=
  let? b := addEntityRefCost b (attr_entity attribute) in
  let? b := addAttributePathCost b (attr_path attribute) in
  addValueCost b (attr_value attribute).

Definition addContextualDataCost (b : budgetCounter) (data : ContextualData) : result budgetCounter :=
  let? b := addMany b 2 collectionMetadataBytes in
  let? b := foldM addRelationshipTupleCost b (cd_tuples data) in
  foldM addAttributeCost b (cd_attributes data).

(** [arguments] is the sequence in which Go's map iteration yields the entries. *)
Definition addArgumentsCost (b : budgetCounter) (arguments : list (string * Value))
  : result budgetCounter :=
  let? b := add b collectionMetadataBytes in
  foldM (fun b kv => let? b := addTextCost b kv.1 in addValueCost b kv.2) b arguments.

Definition addSelectorCost (b : budgetCounter) (selector : Selector) : result budgetCounter :=
  let? b := addTextCost b (sel_slot selector) in
  addTextCost b (sel_revisionID selector).

Definition addAttributeKeyCost (b : budgetCounter) (key : AttributeKey) : result budgetCounter :=
  let? b := addEntityRefCost b (ak_entity key) in
  addAttributePathCost b (ak_path key).

Definition addWriteDataRequestCost (b : budgetCounter) (input : WriteDataRequestInput)
  : result budgetCounter :=
  let? b := foldM addTextCost b
              [in_Namespace input; in_ValidationRevisionID input; in_IdempotencyKey input] in
  let? b := addFixedFieldCost b uint64Bytes in
  let? b := addMany b 4 collectionMetadataBytes in
  let? b := foldM addRelationshipTupleCost b (in_TupleWrites input) in
  let? b := foldM (fun b k => addTupleCost b (tk_tuple k)) b (in_TupleDeletes input) in
  let? b := foldM addAttributeCost b (in_AttributeWrites input) in
  foldM addAttributeKeyCost b (in_AttributeDeletes input).

Definition addIdentifiersCost (b : budgetCounter) (values : list string) : result budgetCounter :=
  let? b := add b collectionMetadataBytes in
  foldM addTextCost b values.

Definition addPublishRequestCost (b : budgetCounter) (namespace sourceName : string) (source : list Z)
  : result budgetCounter :=
  let? b := addTextCost b namespace in
  let? b := addTextCost b sourceName in
  addBytesCost b source.

(** [attributes] in map iteration order. *)
Definition addCallerCost (b : budgetCounter) (id : string) (attributes : list (string * string))
  : result budgetCounter :=
  let? b := addTextCost b id in
  let? b := add b collectionMetadataBytes in
  foldM (fun b kv => let? b := addTextCost b kv.1 in addTextCost b kv.2) b attributes.

Definition addGrantCost (b : budgetCounter) (grant : Grant) : result budgetCounter :=
  let? b := addTextCost b (grant_pattern grant) in
  let? b := add b collectionMetadataBytes in
  foldM addTextCost b (grant_capabilities grant).

Definition addCallerAuthorizationCost (b : budgetCounter) (grants : list Grant)
  : result budgetCounter :=
  let? b := add b collectionMetadataBytes in
  foldM addGrantCost b grants.

Definition addRevisionMetadataCost (b : budgetCounter) (revision : RevisionMetadata)
  : result budgetCounter :=
  let? b := addTextCost b (rm_namespace revision) in
  let? b := addFixedFieldCost b 64 in
  addFixedFieldCost b timestampBytes.

Definition addRevisionPageCost (b : budgetCounter) (revisions : list RevisionMetadata)
  (nextCursor : string) : result budgetCounter :=
  let? b := add b collectionMetadataBytes in
  let? b := addTextCost b nextCursor in
  foldM addRevisionMetadataCost b revisions.

Definition addActivationCost (b : budgetCounter) (activation : Activation) : result budgetCounter :=
  let? b := foldM addTextCost b
              [act_namespace activation; act_slot activation; act_revisionID activation] in
  let? b := addFixedFieldCost b uint64Bytes in
  addFixedFieldCost b timestampBytes.

Definition addActivationHistoryPageCost (b : budgetCounter) (activations : list Activation)
  (nextCursor : string) : result budgetCounter :=
  let? b := add b collectionMetadataBytes in
  let? b := addTextCost b nextCursor in
  foldM addActivationCost b activations.

Definition addStateEventCost (b : budgetCounter) (event : StateEvent) : result budgetCounter :=
  let? b := foldM addTextCost b
              [ev_namespace event; ev_cursor event; ev_revisionID event; ev_slot event] in
  let? b := addFixedFieldCost b enumBytes in
  let? b := addFixedFieldCost b uint64Bytes in
  let? b := addFixedFieldCost b uint64Bytes in
  addFixedFieldCost b timestampBytes.

Definition addEventPageCost (b : budgetCounter) (events : list StateEvent) (nextCursor : string)
  : result budgetCounter :=
  let? b := add b collectionMetadataBytes in
  let? b := addTextCost b nextCursor in
  foldM addStateEventCost b events.

Definition contextualWorkItems (data : ContextualData) : Z :=
  zlen (cd_tuples data) + zlen (cd_attributes data).

(** ** Closed forms *)

Definition textCost (s : string) : Z := 8 + len s.
Definition valueCost (v : Value) : Z :=
  9 + (if val_kind v =? ValueKindString then len (val_text v) else 0).
Definition entityCost (e : EntityRef) : Z := textCost (ent_Type e) + textCost (ent_ID e).
Definition pathCost (p : list string) : Z := 8 + sum_cost textCost p.
Definition subjectCost (s : SubjectRef) : Z :=
  textCost (sub_Type s) + (textCost (sub_ID s) + textCost (sub_Relation s)).
Definition tupleCost (t : Tuple) : Z :=
  entityCost (tup_Resource t) + (textCost (tup_Relation t) + subjectCost (tup_Subject t)).
Definition relationshipTupleCost (t : RelationshipTuple) : Z :=
  tupleCost (rt_tuple t) + (9 + (if rt_hasExpiry t then 48 else 0)).
Definition attributeCost (a : Attribute) : Z :=
  entityCost (attr_entity a) + (pathCost (attr_path a) + valueCost (attr_value a)).
Definition attributeKeyCost (k : AttributeKey) : Z :=
  entityCost (ak_entity k) + pathCost (ak_path k).
Definition contextualDataCost (d : ContextualData) : Z :=
  16 + (sum_cost relationshipTupleCost (cd_tuples d) + sum_cost attributeCost (cd_attributes d)).
Definition argumentsCost (l : list (string * Value)) : Z :=
  8 + sum_cost (fun kv => textCost kv.1 + valueCost kv.2) l.
Definition writeDataRequestCost (i : WriteDataRequestInput) : Z :=
  sum_cost textCost [in_Namespace i; in_ValidationRevisionID i; in_IdempotencyKey i] +
  (16 + (32 +
  (sum_cost relationshipTupleCost (in_TupleWrites i) +
  (sum_cost (fun k => tupleCost (tk_tuple k)) (in_TupleDeletes i) +
  (sum_cost attributeCost (in_AttributeWrites i) +
   sum_cost attributeKeyCost (in_AttributeDeletes i)))))).
Definition grantCost (g : Grant) : Z :=
  textCost (grant_pattern g) + (8 + sum_cost textCost (grant_capabilities g)).
Definition callerCost (id : string) (l : list (string * string)) : Z :=
  textCost id + (8 + sum_cost (fun kv => textCost kv.1 + textCost kv.2) l).
Definition activationCost (a : Activation) : Z :=
  sum_cost textCost [act_namespace a; act_slot a; act_revisionID a] + (16 + 48).
Definition stateEventCost (e : StateEvent) : Z :=
  sum_cost textCost [ev_namespace e; ev_cursor e; ev_revisionID e; ev_slot e] +
  (9 + (16 + (16 + 48))).

(** ** Proof automation: a cost is a sequence of charges *)

Create HintDb costs.

Lemma addFixedFieldCost_charge b n : budget_ok b -> 0 <= n -> addFixedFieldCost b n = charge b (8 + n).
Proof.
  intros Hb Hn. unfold addFixedFieldCost, fieldMetadataBytes. rewrite add_charge by (done || lia).
  apply bind_charge; auto; [lia|]. intros. by apply add_charge.
Qed.

Ltac cost_unfold :=
  unfold fieldMetadataBytes, collectionMetadataBytes, valueMetadataBytes, timestampBytes,
    uint64Bytes, boolBytes, enumBytes in *.

(** One charge of a sequence, or the last one. *)
Ltac cost_leaf :=
  match goal with
  | |- add ?b ?n = charge ?b _ => apply add_charge; [assumption|auto using len_nonneg, zlen_nonneg; lia]
  | |- addMany ?b ?k ?n = charge ?b _ => rewrite addMany_charge by (assumption || (cost_unfold; lia)); reflexivity
  | |- addFixedFieldCost ?b ?n = charge ?b _ => apply addFixedFieldCost_charge; [assumption|cost_unfold; lia]
  | |- Ok ?b = charge ?b _ => symmetry; apply charge_0; assumption
  | |- foldM ?f ?b ?l = charge ?b _ =>
      eapply foldM_charge; [solve [auto with costs]|assumption]
  | |- ?f ?b ?x = charge ?b (?g ?x) =>
      let H := fresh in
      assert (H : costs f g) by auto with costs; apply (H b x); assumption
  end.

Lemma costs_nonneg {A} (f : budgetCounter -> A -> result budgetCounter) cost x :
  costs f cost -> 0 <= cost x.
Proof. intros H. refine (proj1 (H (mkBudget 0 0) x _)). split; simpl; unfold MaxInt64; lia. Qed.

(** A fresh budget of [m] bytes is enough exactly when the cost is at most [m]. *)
Lemma costs_fits {A} (f : budgetCounter -> A -> result budgetCounter) cost m x :
  costs f cost -> 0 <= m <= MaxInt64 -> is_ok (f (mkBudget 0 m) x) = (cost x <=? m).
Proof.
  intros Hf Hm. destruct (Hf (mkBudget 0 m) x) as [_ ->]; [split; simpl; lia|].
  unfold charge. cbn [used max]. rewrite Z.add_0_l. by destruct (cost x <=? m).
Qed.

Lemma seq_charge b f n (k : budgetCounter -> result budgetCounter) m :
  budget_ok b -> 0 <= n -> 0 <= m -> f = charge b n ->
  (forall b', budget_ok b' -> k b' = charge b' m) ->
  (let? b' := f in k b') = charge b (n + m).
Proof. intros ? ? ? -> ?. by apply bind_charge. Qed.

Lemma addTextCost_costs : costs addTextCost textCost.
Proof.
  intros b s Hb. assert (H := len_nonneg s). split; [unfold textCost; lia|].
  apply seq_charge; auto; [lia| |]; intros; cost_leaf.
Qed.
#[export] Hint Resolve addTextCost_costs : costs.

Lemma textCost_nonneg s : 0 <= textCost s.
Proof. apply (costs_nonneg _ _ _ addTextCost_costs). Qed.

Lemma addValueCost_costs : costs addValueCost valueCost.
Proof.
  intros b v Hb. assert (H := len_nonneg (val_text v)). unfold valueCost, addValueCost.
  split; [destruct (_ =? _); lia|].
  apply seq_charge; auto; [lia|destruct (_ =? _); lia|cost_leaf|].
  intros b' Hb'. destruct (_ =? _); cost_leaf.
Qed.
#[export] Hint Resolve addValueCost_costs : costs.

Ltac solve_nonneg :=
  match goal with
  | |- 0 <= sum_cost _ _ => apply sum_cost_nonneg; intros ?; solve_nonneg
  | |- 0 <= ?f ?x =>
      first [ apply textCost_nonneg
            | (eapply (costs_nonneg _ f x); solve [eauto with costs]) ]
  | |- 0 <= _ + _ => apply Z.add_nonneg_nonneg; solve_nonneg
  | |- 0 <= if _ then _ else _ => case_match; solve_nonneg
  | |- 0 <= _ => lia
  end.

Ltac solve_charges :=
  repeat (apply seq_charge; [assumption|solve [solve_nonneg]|solve [solve_nonneg]|cost_leaf|];
          let b := fresh "b" in intros b ?); try cost_leaf.

Lemma addEntityRefCost_costs : costs addEntityRefCost entityCost.
Proof. intros b x Hb. unfold entityCost. split; [solve_nonneg|]. unfold addEntityRefCost. solve_charges. Qed.
#[export] Hint Resolve addEntityRefCost_costs : costs.

Lemma addAttributePathCost_costs : costs addAttributePathCost pathCost.
Proof. intros b x Hb. unfold pathCost. split; [solve_nonneg|]. unfold addAttributePathCost. solve_charges. Qed.
#[export] Hint Resolve addAttributePathCost_costs : costs.

Lemma addSubjectRefCost_costs : costs addSubjectRefCost subjectCost.
Proof. intros b x Hb. unfold subjectCost. split; [solve_nonneg|]. unfold addSubjectRefCost. solve_charges. Qed.
#[export] Hint Resolve addSubjectRefCost_costs : costs.

Lemma addTupleCost_costs : costs addTupleCost tupleCost.
Proof. intros b x Hb. unfold tupleCost. split; [solve_nonneg|]. unfold addTupleCost. solve_charges. Qed.
#[export] Hint Resolve addTupleCost_costs : costs.

Lemma addRelationshipTupleCost_costs : costs addRelationshipTupleCost relationshipTupleCost.
Proof.
  intros b x Hb. unfold relationshipTupleCost. split; [solve_nonneg|].
  unfold addRelationshipTupleCost. change 9 with (8 + 1). change 48 with (8 + 40).
  solve_charges. destruct (rt_hasExpiry x); cost_leaf.
Qed.
#[export] Hint Resolve addRelationshipTupleCost_costs : costs.

Lemma addAttributeCost_costs : costs addAttributeCost attributeCost.
Proof. intros b x Hb. unfold attributeCost. split; [solve_nonneg|]. unfold addAttributeCost. solve_charges. Qed.
#[export] Hint Resolve addAttributeCost_costs : costs.

Lemma addAttributeKeyCost_costs : costs addAttributeKeyCost attributeKeyCost.
Proof. intros b x Hb. unfold attributeKeyCost. split; [solve_nonneg|]. unfold addAttributeKeyCost. solve_charges. Qed.
#[export] Hint Resolve addAttributeKeyCost_costs : costs.

Lemma addTupleKeyCost_costs :
  costs (fun b k => addTupleCost b (tk_tuple k)) (fun k => tupleCost (tk_tuple k)).
Proof. intros b x Hb. apply (addTupleCost_costs b (tk_tuple x) Hb). Qed.
#[export] Hint Resolve addTupleKeyCost_costs : costs.

Lemma addArgumentCost_costs :
  costs (fun b (kv : string * Value) => let? b := addTextCost b kv.1 in addValueCost b kv.2)
        (fun kv => textCost kv.1 + valueCost kv.2).
Proof. intros b x Hb. split; [solve_nonneg|]. solve_charges. Qed.
#[export] Hint Resolve addArgumentCost_costs : costs.

Lemma addCallerAttributeCost_costs :
  costs (fun b (kv : string * string) => let? b := addTextCost b kv.1 in addTextCost b kv.2)
        (fun kv => textCost kv.1 + textCost kv.2).
Proof. intros b x Hb. split; [solve_nonneg|]. solve_charges. Qed.
#[export] Hint Resolve addCallerAttributeCost_costs : costs.

Lemma addGrantCost_costs : costs addGrantCost grantCost.
Proof. intros b x Hb. unfold grantCost. split; [solve_nonneg|]. unfold addGrantCost. solve_charges. Qed.
#[export] Hint Resolve addGrantCost_costs : costs.

Lemma addContextualDataCost_costs : costs addContextualDataCost contextualDataCost.
Proof.
  intros b x Hb. unfold contextualDataCost. split; [solve_nonneg|].
  unfold addContextualDataCost. change 16 with (2 * 8). solve_charges.
Qed.
#[export] Hint Resolve addContextualDataCost_costs : costs.

Lemma addArgumentsCost_costs : costs addArgumentsCost argumentsCost.
Proof.
  intros b x Hb. unfold argumentsCost. split; [solve_nonneg|].
  unfold addArgumentsCost. solve_charges.
Qed.
#[export] Hint Resolve addArgumentsCost_costs : costs.

Lemma addCallerCost_charge b id l :
  budget_ok b -> addCallerCost b id l = charge b (callerCost id l).
Proof.
  intros Hb. unfold addCallerCost, callerCost.
  assert (0 <= sum_cost (fun kv : string * string => textCost kv.1 + textCost kv.2) l).
  { apply sum_cost_nonneg. intros kv. solve_nonneg. }
  assert (Ht := textCost_nonneg id).
  apply seq_charge; auto; [lia|cost_leaf|]. intros b' Hb'.
  apply seq_charge; auto; [lia|cost_leaf|]. intros. cost_leaf.
Qed.

Lemma addCallerAuthorizationCost_costs :
  costs addCallerAuthorizationCost (fun l => 8 + sum_cost grantCost l).
Proof. intros b x Hb. split; [solve_nonneg|]. unfold addCallerAuthorizationCost. solve_charges. Qed.
#[export] Hint Resolve addCallerAuthorizationCost_costs : costs.

Lemma addActivationCost_costs : costs addActivationCost activationCost.
Proof.
  intros b x Hb. unfold activationCost. split; [solve_nonneg|]. unfold addActivationCost.
  change 16 with (8 + 8). change 48 with (8 + 40). solve_charges.
Qed.
#[export] Hint Resolve addActivationCost_costs : costs.

Lemma addStateEventCost_costs : costs addStateEventCost stateEventCost.
Proof.
  intros b x Hb. unfold stateEventCost. split; [solve_nonneg|]. unfold addStateEventCost.
  change 9 with (8 + 1). change 16 with (8 + 8). change 48 with (8 + 40). solve_charges.
Qed.
#[export] Hint Resolve addStateEventCost_costs : costs.

Lemma addWriteDataRequestCost_costs : costs addWriteDataRequestCost writeDataRequestCost.
Proof.
  intros b x Hb. unfold writeDataRequestCost. split; [solve_nonneg|].
  unfold addWriteDataRequestCost. change 16 with (8 + 8). change 32 with (4 * 8). solve_charges.
Qed.

(** The byte budget of a data write is exact: starting from an empty budget
    the field-by-field traversal of [addWriteDataRequestCost] succeeds exactly
    when the closed-form size of the whole request fits the maximum, it then
    leaves precisely that size charged, and every failure is
    RESOURCE_EXHAUSTED; no intermediate sum wraps around. *)
Lemma writeData_budget_exact m (input : WriteDataRequestInput) :
  0 <= m <= MaxInt64 ->
  addWriteDataRequestCost (mkBudget 0 m) input =
  if writeDataRequestCost input <=? m
  then Ok (mkBudget (writeDataRequestCost input) m)
  else Err ErrorResourceExhausted.
Proof.
  intros Hm. destruct (addWriteDataRequestCost_costs (mkBudget 0 m) input) as [_ ->]; [split; simpl; lia|].
  reflexivity.
Qed.

(** Go iterates maps in an unspecified order; the size check of an argument
    map gives the same answer and the same remaining budget for every order. *)
Lemma argument_cost_order_independent b (l1 l2 : list (string * Value)) :
  budget_ok b -> l1 ≡ₚ l2 -> addArgumentsCost b l1 = addArgumentsCost b l2.
Proof.
  intros Hb Hp. destruct (addArgumentsCost_costs b l1 Hb) as [_ ->].
  destruct (addArgumentsCost_costs b l2 Hb) as [_ ->].
  unfold argumentsCost. by rewrite (sum_cost_perm _ _ _ Hp).
Qed.
