(* ===== verification/Canon.v ===== *)
(** Neighbour comparison and two-pointer sweeps are complete.

    The canonicalisation loops of data.go compare each element of a sorted
    slice with the last kept one only, and the write/delete conflict checks
    advance the smaller of two cursors. Both find every conflict because the
    conflict relation on keys is convex in the key order: what conflicts with
    a key across a gap conflicts with it at every key of the gap. *)

From Stdlib Require Import ZArith Lia Permutation Sorted.
From stdpp Require Import base list sets sorting.
From S2P Require Import Prelude Limits Text.

(** A conflict test that is symmetric, holds on equal keys, and is convex. *)
Class Convex {K} (ck : K -> K -> comparison) (conf : K -> K -> bool) : Prop := {
  conf_refl : forall x, conf x x = true;
  conf_sym : forall x y, conf x y = conf y x;
  conf_convex : forall x y z, cle ck x y -> cle ck y z -> conf x z = true -> conf x y = true
}.
Arguments conf_refl {K} ck conf {_} x.
Arguments conf_sym {K} ck conf {_} x y.
Arguments conf_convex {K} ck conf {_} x y z _ _ _.

(** Equality itself is a convex conflict: only equal keys clash. *)
#[global] Instance eq_convex {K} (ck : K -> K -> comparison) `{!TotalCompare ck} :
  Convex ck (fun x y => cmp_eq (ck x y)).
Proof.
  split.
  - intros x. by rewrite (tc_refl ck).
  - intros x y. rewrite (tc_antisym ck x y). by destruct (ck x y).
  - intros x y z Hxy Hyz H. destruct (ck x z) eqn:E; try done. apply (tc_eq ck) in E as <-.
    rewrite (cle_antisym ck x y Hxy Hyz), (tc_refl ck). done.
Qed.

Section Canonical.
Context {A K : Type} (c : A -> A -> comparison) `{!TotalCompare c}.
Context (ck : K -> K -> comparison) (conf : K -> K -> bool) `{!Convex ck conf}.
Context (key : A -> K) (step : A -> A -> result bool).

(** Two elements clash when they differ and their keys conflict. *)
Definition clash (x y : A) : Prop := x <> y /\ conf (key x) (key y) = true.

(** What a compaction step must answer on ordered neighbours. *)
Definition step_spec : Prop :=
  forall y x, cle c y x ->
    (y = x -> step y x = Ok true) /\
    (clash y x -> step y x = Err ErrorInvalidArgument) /\
    (y <> x -> conf (key y) (key x) = false -> step y x = Ok false).

Definition clash_free (l : list A) : Prop := forall x y, x ∈ l -> y ∈ l -> ~ clash x y.

Hypothesis key_mono : forall x y, cle c x y -> cle ck (key x) (key y).
Hypothesis Hstep : step_spec.

Lemma clash_sym x y : clash x y -> clash y x.
Proof. intros [H1 H2]. split; [done|]. by rewrite (conf_sym ck conf). Qed.

(** A clash between the ends of an ordered triple is one at its first step,
    or the triple starts with a repetition. *)
Lemma clash_convex x y z : cle c x y -> cle c y z -> clash x z -> x = y \/ clash x y.
Proof.
  intros Hxy Hyz [Hne Hc]. destruct (cle_cases c _ _ Hxy) as [|Hlt]; [by left|right].
  split; [by apply (tc_lt_ne c)|]. apply (conf_convex ck conf _ _ (key z)); auto.
Qed.

Lemma compact_clash l : forall y,
  StronglySorted (cle c) (y :: l) ->
  (compactM step (Some y) l = compactM (same_step c) (Some y) l /\
   Forall (fun x => ~ clash y x) l /\ StronglySorted (fun a b => ~ clash a b) l) \/
  (compactM step (Some y) l = Err ErrorInvalidArgument /\
   exists a b, a ∈ y :: l /\ b ∈ y :: l /\ clash a b).
Proof.
  induction l as [|x l IH]; intros y Hs.
  { left. repeat split; constructor. }
  inversion_clear Hs as [|? ? Hs' Hy]. inversion_clear Hy as [|? ? Hyx Hyl].
  destruct (Hstep y x Hyx) as (Heq & Herr & Hok).
  destruct (tc_spec c y x) as [->|Hlt|Hgt];
    [| |exfalso; apply Hyx; by apply (tc_gt_lt c)].
  { cbn [compactM]. rewrite Heq by done. unfold same_step at 1. rewrite (tc_refl c). simpl.
    destruct (IH x Hs') as [(E & F & S')|(E & a & b & Ha & Hb & Hab)].
    - left. split; [done|]. split; constructor; auto. by intros [].
    - right. split; [done|]. exists a, b. set_solver. }
  assert (Hne : y <> x) by by apply (tc_lt_ne c).
  destruct (conf (key y) (key x)) eqn:Ec.
  { right. cbn [compactM]. rewrite Herr by done. split; [done|].
    exists y, x. repeat split; auto; set_solver. }
  cbn [compactM]. rewrite Hok by done. unfold same_step at 1. rewrite Hlt. simpl.
  destruct (IH x Hs') as [(E & F & S')|(E & a & b & Ha & Hb & Hab)].
  - left. rewrite E. split; [done|].
    inversion_clear Hs' as [|? ? Hs2 Hx].
    split; [|by constructor].
    constructor; [intros []; congruence|].
    rewrite Forall_forall in Hx, Hyl |- *. intros z Hz Hcl.
    destruct (clash_convex y x z) as [|[_ ?]]; auto; congruence.
  - right. rewrite E. split; [done|]. exists a, b. set_solver.
Qed.

Lemma pairwise_clash_free l :
  StronglySorted (fun a b => ~ clash a b) l -> clash_free l.
Proof.
  induction 1 as [|x l H IH Hx]; intros a b Ha Hb; [by apply elem_of_nil in Ha|].
  rewrite Forall_forall in Hx.
  apply elem_of_cons in Ha as [->|Ha]; apply elem_of_cons in Hb as [->|Hb]; auto.
  - by intros [].
  - intros Hc%clash_sym. by eapply Hx.
Qed.

(** The canonicalisation loop: sort, then compare neighbours. It succeeds
    exactly on clash-free inputs, with the strictly ordered list of the same
    elements; otherwise it is an invalid argument. *)
Lemma canonical_spec l :
  (exists l', compactM step None (sort_by c l) = Ok l' /\ StronglySorted (clt c) l' /\
     (forall x, x ∈ l' <-> x ∈ l) /\ clash_free l) \/
  (compactM step None (sort_by c l) = Err ErrorInvalidArgument /\
   exists a b, a ∈ l /\ b ∈ l /\ clash a b).
Proof.
  assert (Hs := sort_by_sorted c l). assert (Hin := fun x => sort_by_elem c x l).
  destruct (compact_sorted_spec c (sort_by c l) Hs) as (l' & E & S' & M).
  destruct (sort_by c l) as [|y s] eqn:Esort.
  { left. exists []. cbn. repeat split; try constructor.
    - intros Hx. by apply elem_of_nil in Hx.
    - intros Hx. apply Hin in Hx. by apply elem_of_nil in Hx.
    - intros a b Ha. apply Hin in Ha. by apply elem_of_nil in Ha. }
  cbn [compactM] in *. simpl in *.
  destruct (compact_clash s y Hs) as [(E' & F & P)|(E' & a & b & Ha & Hb & Hab)].
  - left. exists l'. rewrite E'. split; [done|]. split; [done|]. split.
    { intros x. by rewrite M, Hin. }
    intros a b Ha Hb. apply Hin in Ha, Hb.
    apply (pairwise_clash_free (y :: s)); auto. by constructor.
  - right. rewrite E'. split; [done|]. exists a, b. by rewrite <- !Hin.
Qed.

Lemma canonical_Ok l l' :
  compactM step None (sort_by c l) = Ok l' ->
  StronglySorted (clt c) l' /\ (forall x, x ∈ l' <-> x ∈ l) /\ clash_free l.
Proof.
  intros E. destruct (canonical_spec l) as [(l0 & E0 & H)|[E0 _]]; rewrite E0 in E; [|done].
  by injection E as ->.
Qed.

Lemma canonical_exists l :
  clash_free l -> exists l', compactM step None (sort_by c l) = Ok l'.
Proof. intros E. destruct (canonical_spec l) as [(l0 & E0 & _)|[_ (a & b & Ha & Hb & Hab)]]; [eauto|].
  by destruct (E a b Ha Hb). Qed.

(** A canonical list canonicalises to itself. *)
Lemma canonical_id l :
  StronglySorted (clt c) l -> clash_free l -> compactM step None (sort_by c l) = Ok l.
Proof.
  intros Hs Hc. destruct (canonical_exists l Hc) as [l' E].
  destruct (canonical_Ok l l' E) as (Hs' & M & _). rewrite E. f_equal.
  apply (sorted_perm_unique c); auto using strict_sorted_le.
  apply NoDup_Permutation; [by apply (strict_sorted_nodup c)..|apply M].
Qed.

(** What the re-validators check between neighbours: strictly ordered, and
    no conflict. *)
Definition settled (y x : A) : Prop := clt c y x /\ conf (key y) (key x) = false.

Lemma compact_keep l : forall prev, Sorted settled (option_list prev ++ l) -> compactM step prev l = Ok l.
Proof.
  induction l as [|x l IH]; intros prev Hs; cbn [compactM]; [done|].
  assert (Hx : Sorted settled (option_list (Some x) ++ l)).
  { destruct prev; simpl in Hs; [by inversion Hs|done]. }
  rewrite (IH (Some x) Hx). destruct prev as [y|]; [|done]. simpl in Hs.
  inversion_clear Hs as [|? ? _ Hh]. inversion_clear Hh as [|? ? [Hlt Hc]].
  destruct (Hstep y x) as (_ & _ & ->); auto using clt_cle. by apply (tc_lt_ne c).
Qed.

(** Checking neighbours of a list is the same as canonicalising it and
    finding it unchanged. *)
Lemma canonical_settled l : Sorted settled l <-> compactM step None (sort_by c l) = Ok l.
Proof.
  split.
  - intros Hs. assert (Hss : StronglySorted (clt c) l).
    { apply Sorted_StronglySorted; [intros x y z; apply (tc_trans c)|].
      induction Hs as [|x l Hs IH Hh]; constructor; [done|]. destruct Hh as [|? ? []]; by constructor. }
    rewrite (sort_by_id c) by (by apply strict_sorted_le). by apply (compact_keep l None).
  - intros (Hs & _ & Hc)%canonical_Ok.
    induction Hs as [|x l Hs IH Hx]; [constructor|]. constructor.
    + apply IH. intros a b Ha Hb. apply Hc; by right.
    + destruct l as [|y l]; constructor. inversion_clear Hx as [|? ? Hxy _]. split; [done|].
      destruct (conf (key x) (key y)) eqn:E; [|done]. exfalso.
      apply (Hc x y); [left|right; left|]. split; [by apply (tc_lt_ne c)|done].
Qed.

(** Canonicalisation only looks at the set of its elements. *)
Lemma canonical_perm l1 l2 :
  l1 ≡ₚ l2 -> compactM step None (sort_by c l1) = compactM step None (sort_by c l2).
Proof. intros Hp. by rewrite (sort_by_perm_eq c l1 l2 Hp). Qed.

(** Strictly ordered and clash-free: strictly ordered by key alone. *)
Lemma canonical_keys_sorted l `{!TotalCompare ck} :
  StronglySorted (clt c) l -> clash_free l -> StronglySorted (clt ck) (key <$> l).
Proof.
  induction 1 as [|x l H IH Hx]; intros Hc; simpl; [constructor|].
  constructor.
  { apply IH. intros a b Ha Hb. apply Hc; by right. }
  rewrite Forall_forall in Hx. apply Forall_forall. intros k (y & -> & Hy)%list_elem_of_fmap.
  destruct (cle_cases ck (key x) (key y)) as [Ek|]; auto.
  - apply key_mono, clt_cle; auto.
  - exfalso. apply (Hc x y); [left|by right|]. split; [by apply (tc_lt_ne c), Hx|].
    rewrite Ek. apply (conf_refl ck conf).
Qed.
End Canonical.

(** * Two-pointer sweeps *)

(** Each iteration advances one cursor, so the sum of the lengths is enough
    fuel. *)
Fixpoint sweep {W D} (order : W -> D -> comparison) (hit : W -> D -> bool)
  (fuel : nat) (writes : list W) (deletes : list D) : bool :=
  match fuel, writes, deletes with
  | S fuel', w :: ws, d :: ds =>
      if hit w d then true
      else if cmp_lt (order w d) then sweep order hit fuel' ws deletes
           else sweep order hit fuel' writes ds
  | _, _, _ => false
  end.

Section Sweep.
Context {W D K : Type} (ck : K -> K -> comparison) `{!TotalCompare ck}.
Context (conf : K -> K -> bool) `{!Convex ck conf} (kw : W -> K) (kd : D -> K).
Context (order : W -> D -> comparison) (hit : W -> D -> bool).
Hypothesis Horder : forall w d, order w d = ck (kw w) (kd d).
Hypothesis Hhit : forall w d, hit w d = conf (kw w) (kd d).

Lemma sweep_spec fuel writes deletes :
  (length writes + length deletes <= fuel)%nat ->
  StronglySorted (cle ck) (kw <$> writes) -> StronglySorted (cle ck) (kd <$> deletes) ->
  sweep order hit fuel writes deletes = true <->
  exists w d, w ∈ writes /\ d ∈ deletes /\ conf (kw w) (kd d) = true.
Proof.
  revert writes deletes. induction fuel as [|fuel IH]; intros [|w ws] [|d ds] Hf Hw Hd;
    try (split; [done|intros (? & ? & Ha & Hb & _); by (apply elem_of_nil in Ha || apply elem_of_nil in Hb)]).
  { simpl in Hf. lia. }
  cbn [sweep]. rewrite Hhit. destruct (conf (kw w) (kd d)) eqn:Ec.
  { split; [|done]. intros _. exists w, d. set_solver. }
  simpl in Hf, Hw, Hd. inversion_clear Hw as [|? ? Hw' Hwx]. inversion_clear Hd as [|? ? Hd' Hdx].
  rewrite Forall_forall in Hwx, Hdx. rewrite Horder.
  destruct (tc_spec ck (kw w) (kd d)) as [E|Hlt|Hgt]; simpl.
  - rewrite E, (conf_refl ck conf) in Ec. done.
  - rewrite IH; [|simpl; lia|done|simpl; constructor; [done|by apply Forall_forall]].
    split; intros (a & b & Ha & Hb & Hab); [set_solver|].
    apply elem_of_cons in Ha as [->|Ha]; [|set_solver].
    apply elem_of_cons in Hb as [->|Hb]; [congruence|].
    rewrite (conf_convex ck conf (kw w) (kd d) (kd b)) in Ec; auto using clt_cle; [done|].
    apply Hdx, list_elem_of_fmap. eauto.
  - rewrite IH; [|simpl; lia|simpl; constructor; [done|by apply Forall_forall]|done].
    split; intros (a & b & Ha & Hb & Hab); [set_solver|].
    apply elem_of_cons in Hb as [->|Hb]; [|set_solver].
    apply elem_of_cons in Ha as [->|Ha]; [congruence|].
    rewrite (conf_sym ck conf) in Ec, Hab.
    rewrite (conf_convex ck conf (kd d) (kw w) (kw a)) in Ec; auto using clt_cle; [done|].
    apply Hwx, list_elem_of_fmap. eauto.
Qed.
End Sweep.
