(* ===== verification/Data.v ===== *)
(** Authorization data: constructors, canonical order and conflicts (data.go,
    validation.go lines 61-203).

    A data write is canonicalised before it reaches a store: every collection
    is sorted, exact duplicates are dropped, and requests that name the same
    tuple with two expiries, the same attribute with two values, an attribute
    path together with one of its strict prefixes, or a write together with a
    delete of the same fact are rejected. The source finds all of these by
    comparing neighbours or by one two-pointer sweep; the theorems of this
    file say that this finds every conflict. *)

From Stdlib Require Import ZArith Lia Permutation Sorted.
From stdpp Require Import base list gmap strings sorting.
From S2P Require Import Prelude Limits Text Types Cost Canon.

(** * Validation of the parts (validation.go) *)

Definition validateAttributePath (path : list string) : result unit :=
  if zlen path =? 0 then Err ErrorInvalidArgument
  else if MaxAggregateWorkItems <? zlen path then Err ErrorResourceExhausted
  else
    let? _ := addAttributePathCost (mkBudget 0 MaxAggregateInputBytes) path in
    foldM (fun _ segment =>
             let? _ := validateIdentifier segment in
             if validDSLIdentifier segment then Ok tt else Err ErrorInvalidArgument) tt path.

Definition validateEntityRef (entity : EntityRef) : result unit :=
  let? _ := validateIdentifier (ent_Type entity) in
  validateIdentifier (ent_ID entity).

Definition validateSubjectRef (subject : SubjectRef) : result unit :=
  let? _ := validateIdentifier (sub_Type subject) in
  let? _ := validateIdentifier (sub_ID subject) in
  validateOptionalIdentifier (sub_Relation subject).

Definition validateDSLRelationship (tuple : Tuple) : result unit :=
  let? _ := validateEntityRef (tup_Resource tuple) in
  let? _ := validateIdentifier (tup_Relation tuple) in
  validateSubjectRef (tup_Subject tuple).

(** [func (v Value) valid() bool] (data.go) *)
Definition Value_valid (v : Value) : bool :=
  if val_kind v =? ValueKindString then
    (val_integer v =? 0) && negb (val_boolean v)
    && is_ok (validateText (val_text v) MaxStringValueBytes true)
  else if val_kind v =? ValueKindInteger then (len (val_text v) =? 0) && negb (val_boolean v)
  else if val_kind v =? ValueKindBoolean then (len (val_text v) =? 0) && (val_integer v =? 0)
  else if val_kind v =? ValueKindNull then
    (len (val_text v) =? 0) && (val_integer v =? 0) && negb (val_boolean v)
  else false.

Definition validateValue (value : Value) : result unit :=
  if negb (Value_valid value) then Err ErrorInvalidArgument
  else if val_kind value =? ValueKindString
       then validateText (val_text value) MaxStringValueBytes true
       else Ok tt.

(** * Constructors (data.go) *)

Definition NewStringValue (value : string) : result Value :=
  let? _ := validateText value MaxStringValueBytes true in
  Ok (mkValue ValueKindString value 0 false).
Definition NewIntegerValue (value : Z) : Value := mkValue ValueKindInteger "" value false.
Definition NewBooleanValue (value : bool) : Value := mkValue ValueKindBoolean "" 0 value.
Definition NewNullValue : Value := mkValue ValueKindNull "" 0 false.

(** [expiresAt *time.Time]: a nil pointer is [None]. *)
Definition NewRelationshipTuple (tuple : Tuple) (expiresAt : option Time) : result RelationshipTuple :=
  let? _ := validateDSLRelationship tuple in
  match expiresAt with
  | Some t => if IsZero t then Err ErrorInvalidArgument else Ok (mkRelationshipTuple tuple t true)
  | None => Ok (mkRelationshipTuple tuple 0 false)
  end.

Definition RelationshipTuple_valid (t : RelationshipTuple) : bool :=
  is_ok (validateDSLRelationship (rt_tuple t))
  && (negb (rt_hasExpiry t) || negb (IsZero (rt_expiresAt t)))
  && (rt_hasExpiry t || IsZero (rt_expiresAt t)).

Definition NewAttributePath (entity : EntityRef) (path : list string) (value : Value) : result Attribute :=
  let? _ := validateEntityRef entity in
  let? _ := validateAttributePath path in
  let? _ := validateValue value in
  let? _ := addAttributeCost (mkBudget 0 MaxAggregateInputBytes) (mkAttribute entity path value) in
  Ok (mkAttribute entity path value).

Definition NewAttribute (entity : EntityRef) (name : string) (value : Value) : result Attribute :=
  NewAttributePath entity [name] value.

Definition Attribute_valid (a : Attribute) : bool :=
  is_ok (validateEntityRef (attr_entity a)) && is_ok (validateAttributePath (attr_path a))
  && is_ok (validateValue (attr_value a)).

Definition NewTupleKey (tuple : Tuple) : result TupleKey :=
  let? _ := validateDSLRelationship tuple in Ok (mkTupleKey tuple).
Definition TupleKey_valid (k : TupleKey) : bool := is_ok (validateDSLRelationship (tk_tuple k)).

Definition NewAttributeKeyPath (entity : EntityRef) (path : list string) : result AttributeKey :=
  let? _ := validateEntityRef entity in
  let? _ := validateAttributePath path in
  let? b := addEntityRefCost (mkBudget 0 MaxAggregateInputBytes) entity in
  let? _ := addAttributePathCost b path in
  Ok (mkAttributeKey entity path).
Definition AttributeKey_valid (k : AttributeKey) : bool :=
  is_ok (validateEntityRef (ak_entity k)) && is_ok (validateAttributePath (ak_path k)).

(** * Canonical collections (data.go) *)

(** [for index := range shorter { if shorter[index] != longer[index] ... }] *)
Fixpoint prefixb (shorter longer : list string) : bool :=
  match shorter, longer with
  | [], _ => true
  | x :: s, y :: l => bool_decide (x = y) && prefixb s l
  | _ :: _, [] => false
  end.

Definition attributePathPrefixConflict (leftEntity : EntityRef) (leftPath : list string)
  (rightEntity : EntityRef) (rightPath : list string) : bool :=
  if bool_decide (leftEntity <> rightEntity) || (zlen leftPath =? zlen rightPath) then false
  else if zlen rightPath <? zlen leftPath then prefixb rightPath leftPath
       else prefixb leftPath rightPath.

Definition canonicalRelationshipTuples (values : list RelationshipTuple)
  : result (list RelationshipTuple) :=
  compactM (fun prev value =>
    if cmp_eq (compareTuplePairs (rt_tuple prev) (rt_tuple value)) then
      if cmp_eq (compareRelationshipTuple prev value) then Ok true else Err ErrorInvalidArgument
    else Ok false)
    None (sort_by compareRelationshipTuple values).

Definition canonicalAttributes (values : list Attribute) : result (list Attribute) :=
  compactM (fun prev value =>
    if cmp_eq (compareAttributeKey prev value) then
      if cmp_eq (compareValue (attr_value prev) (attr_value value)) then Ok true
      else Err ErrorInvalidArgument
    else if attributePathPrefixConflict (attr_entity prev) (attr_path prev)
              (attr_entity value) (attr_path value) then Err ErrorInvalidArgument
    else Ok false)
    None (sort_by compareAttribute values).

Definition compareTupleKey (left right : TupleKey) : comparison :=
  compareTuplePairs (tk_tuple left) (tk_tuple right).

(** [canonicalTupleKeys] has no error; the compaction never fails. *)
Definition canonicalTupleKeys (values : list TupleKey) : result (list TupleKey) :=
  compactM (fun prev value => Ok (cmp_eq (compareTupleKey prev value)))
    None (sort_by compareTupleKey values).

Definition canonicalAttributeKeys (values : list AttributeKey) : result (list AttributeKey) :=
  compactM (fun prev value =>
    if cmp_eq (compareAttributeDeleteKey prev value) then Ok true
    else if attributePathPrefixConflict (ak_entity prev) (ak_path prev)
              (ak_entity value) (ak_path value) then Err ErrorInvalidArgument
    else Ok false)
    None (sort_by compareAttributeDeleteKey values).

Definition tupleWriteDeleteConflict (writes : list RelationshipTuple) (deletes : list TupleKey) : bool :=
  let order w d := compareTuplePairs (rt_tuple w) (tk_tuple d) in
  sweep order (fun w d => cmp_eq (order w d)) (length writes + length deletes) writes deletes.

Definition attributeWriteDeleteConflict (writes : list Attribute) (deletes : list AttributeKey) : bool :=
  let order w d := compareAttributeDeleteKey (attr_key w) d in
  sweep order
    (fun w d => cmp_eq (order w d) ||
       attributePathPrefixConflict (attr_entity w) (attr_path w) (ak_entity d) (ak_path d))
    (length writes + length deletes) writes deletes.

(** * Requests (data.go) *)

Definition NewContextualData (tuples : list RelationshipTuple) (attributes : list Attribute)
  : result ContextualData :=
  if (MaxContextualTuples <? zlen tuples) || (MaxContextualAttributes <? zlen attributes)
  then Err ErrorResourceExhausted
  else
    let? _ := addContextualDataCost (mkBudget 0 MaxAggregateInputBytes)
                (mkContextualData tuples attributes) in
    if negb (forallb RelationshipTuple_valid tuples) then Err ErrorInvalidArgument
    else if negb (forallb Attribute_valid attributes) then Err ErrorInvalidArgument
    else
      let? clonedTuples := canonicalRelationshipTuples tuples in
      let? clonedAttributes := canonicalAttributes attributes in
      Ok (mkContextualData clonedTuples clonedAttributes).

Definition ContextualData_Empty (d : ContextualData) : bool :=
  (zlen (cd_tuples d) =? 0) && (zlen (cd_attributes d) =? 0).

Definition NewGetDataGenerationRequest (namespace : string) : result GetDataGenerationRequest :=
  let? _ := validateNamespace namespace in Ok (mkGetDataGenerationRequest namespace).

Definition NewGetDataGenerationResponse (generation : Z) : result GetDataGenerationResponse :=
  Ok (mkGetDataGenerationResponse true generation).

Definition mutation_counts (i : WriteDataRequestInput) : list Z :=
  [zlen (in_TupleWrites i); zlen (in_TupleDeletes i);
   zlen (in_AttributeWrites i); zlen (in_AttributeDeletes i)].

Definition NewWriteDataRequest (input : WriteDataRequestInput) : result WriteDataRequest :=
  let? mutationBudget := foldM add (mkBudget 0 MaxMutationItems) (mutation_counts input) in
  let? _ := addWriteDataRequestCost (mkBudget 0 MaxAggregateInputBytes) input in
  if negb (validRevisionIDString (in_ValidationRevisionID input)) || (used mutationBudget =? 0)
  then Err ErrorInvalidArgument
  else
    let? _ := validateNamespace (in_Namespace input) in
    let? _ := validateIdentifier (in_IdempotencyKey input) in
    if negb (forallb RelationshipTuple_valid (in_TupleWrites input)) then Err ErrorInvalidArgument
    else if negb (forallb TupleKey_valid (in_TupleDeletes input)) then Err ErrorInvalidArgument
    else if negb (forallb Attribute_valid (in_AttributeWrites input)) then Err ErrorInvalidArgument
    else if negb (forallb AttributeKey_valid (in_AttributeDeletes input)) then Err ErrorInvalidArgument
    else
      let? tupleWrites := canonicalRelationshipTuples (in_TupleWrites input) in
      let? tupleDeletes := canonicalTupleKeys (in_TupleDeletes input) in
      let? attributeWrites := canonicalAttributes (in_AttributeWrites input) in
      let? attributeDeletes := canonicalAttributeKeys (in_AttributeDeletes input) in
      if tupleWriteDeleteConflict tupleWrites tupleDeletes
         || attributeWriteDeleteConflict attributeWrites attributeDeletes
      then Err ErrorInvalidArgument
      else Ok (mkWriteDataRequest (in_Namespace input) (in_ValidationRevisionID input)
                 (in_ExpectedGeneration input) (in_IdempotencyKey input)
                 tupleWrites tupleDeletes attributeWrites attributeDeletes).

(** The reconstruction used by the application layer (ValidateWriteDataRequest)
    and by the stores (FingerprintWriteData). *)
Definition request_input (r : WriteDataRequest) : WriteDataRequestInput :=
  mkWriteDataRequestInput (wd_namespace r) (wd_validationRevisionID r) (wd_expectedGeneration r)
    (wd_idempotencyKey r) (wd_tupleWrites r) (wd_tupleDeletes r)
    (wd_attributeWrites r) (wd_attributeDeletes r).

Definition NewWriteDataResponse (generation : Z) (replayed : bool) : result WriteDataResponse :=
  if generation =? 0 then Err ErrorInvalidArgument else Ok (mkWriteDataResponse generation replayed).

(** * Conflicts on keys *)

Lemma prefix_cons_iff {A} (x y : A) p q :
  x :: p `prefix_of` y :: q <-> x = y /\ p `prefix_of` q.
Proof.
  split; [|intros [-> ?]; by apply prefix_cons].
  intros H. split; [by apply prefix_cons_inv_1 in H|by apply prefix_cons_inv_2 in H].
Qed.

Lemma prefixb_spec p q : prefixb p q = true <-> p `prefix_of` q.
Proof.
  revert q. induction p as [|x p IH]; intros q; simpl.
  { split; [|done]. intros _. apply prefix_nil. }
  destruct q as [|y q]; simpl.
  { split; [done|]. by intros ?%prefix_nil_not. }
  by rewrite andb_true_iff, bool_decide_eq_true, IH, prefix_cons_iff.
Qed.

Lemma prefix_same_length {A} (p q : list A) : p `prefix_of` q -> length p = length q -> p = q.
Proof. intros [k ->]. rewrite length_app. destruct k; simpl; [by rewrite app_nil_r|lia]. Qed.

(** One path of the entity is a strict prefix of the other. *)
Lemma prefixConflict_spec e1 p1 e2 p2 :
  attributePathPrefixConflict e1 p1 e2 p2 = true <->
  e1 = e2 /\ p1 <> p2 /\ (p1 `prefix_of` p2 \/ p2 `prefix_of` p1).
Proof.
  unfold attributePathPrefixConflict, zlen.
  destruct (bool_decide_reflect (e1 <> e2)) as [Hne|He]; simpl; [naive_solver|].
  apply dec_stable in He as ->.
  destruct (Z.eqb_spec (Z.of_nat (length p1)) (Z.of_nat (length p2))) as [El|Nl].
  { split; [done|]. intros (_ & Hne & [Hp|Hp]); exfalso; apply Hne; [|symmetry];
      apply prefix_same_length; auto; lia. }
  assert (p1 <> p2) by congruence.
  destruct (Z.ltb_spec (Z.of_nat (length p2)) (Z.of_nat (length p1))); rewrite prefixb_spec;
    (split; [by auto|]; intros (_ & _ & [Hp|Hp]); auto;
     apply prefix_length in Hp; lia).
Qed.

Lemma compareAttributePath_prefix p q : p `prefix_of` q -> cle compareAttributePath p q.
Proof.
  revert q. induction p as [|x p IH]; intros q Hp; unfold cle.
  { by destruct q. }
  destruct q as [|y q]; [by apply prefix_nil_not in Hp|].
  apply prefix_cons_iff in Hp as [-> Hp].
  simpl. rewrite (tc_refl String.compare). apply (IH _ Hp).
Qed.

(** A path between a prefix and its extension extends the prefix. *)
Lemma prefix_between p x q :
  cle compareAttributePath p x -> cle compareAttributePath x q -> p `prefix_of` q -> p `prefix_of` x.
Proof.
  revert x q. induction p as [|a p IH]; intros x q Hpx Hxq Hpq; [apply prefix_nil|].
  destruct q as [|b q]; [by apply prefix_nil_not in Hpq|].
  apply prefix_cons_iff in Hpq as [<- Hpq].
  destruct x as [|y x]; unfold cle in *; simpl in *; [done|].
  destruct (tc_spec String.compare a y) as [->|H1|H1]; simpl in *; try done.
  - rewrite (tc_refl String.compare) in Hxq, Hpx. by apply prefix_cons, (IH _ q).
  - by rewrite (tc_lt_asym String.compare _ _ H1) in Hxq.
  - by rewrite (tc_lt_asym String.compare _ _ H1) in Hpx.
Qed.

(** Two attribute keys conflict when they are equal or one path strictly
    extends the other on the same entity. *)
Definition keys_conflict (x y : AttributeKey) : bool :=
  cmp_eq (compareAttributeDeleteKey x y)
  || attributePathPrefixConflict (ak_entity x) (ak_path x) (ak_entity y) (ak_path y).

Lemma keys_conflict_spec x y :
  keys_conflict x y = true <->
  ak_entity x = ak_entity y /\
  (ak_path x `prefix_of` ak_path y \/ ak_path y `prefix_of` ak_path x).
Proof.
  unfold keys_conflict. rewrite orb_true_iff, prefixConflict_spec. destruct x as [e p], y as [e' p']; simpl.
  destruct (tc_spec compareAttributeDeleteKey (mkAttributeKey e p) (mkAttributeKey e' p'))
    as [[= -> ->]|Hlt|Hgt]; simpl.
  - split; auto.
  - split; [naive_solver|]. intros [-> Hp]. right. repeat split; auto.
    intros ->. by apply (tc_lt_irrefl compareAttributeDeleteKey) in Hlt.
  - split; [naive_solver|]. intros [-> Hp]. right. repeat split; auto.
    intros ->. by apply (tc_lt_irrefl compareAttributeDeleteKey) in Hgt.
Qed.

Lemma cle_attributeKey x y :
  cle compareAttributeDeleteKey x y -> ak_entity x = ak_entity y ->
  cle compareAttributePath (ak_path x) (ak_path y).
Proof.
  unfold cle, compareAttributeDeleteKey. rewrite comparePairs_entity. intros H E.
  by rewrite E, (tc_refl compareEntity) in H.
Qed.

Lemma cle_attributeKey_entity x y z :
  cle compareAttributeDeleteKey x y -> cle compareAttributeDeleteKey y z ->
  ak_entity x = ak_entity z -> ak_entity x = ak_entity y.
Proof.
  unfold cle, compareAttributeDeleteKey. rewrite !comparePairs_entity. intros H1 H2 E.
  rewrite <- E in H2.
  destruct (tc_spec compareEntity (ak_entity x) (ak_entity y)) as [|H|H]; [done| |].
  - by rewrite (tc_lt_asym compareEntity _ _ H) in H2.
  - by rewrite (tc_lt_asym compareEntity _ _ H) in H1.
Qed.

#[global] Instance keys_conflict_convex : Convex compareAttributeDeleteKey keys_conflict.
Proof.
  split.
  - intros x. unfold keys_conflict. by rewrite (tc_refl compareAttributeDeleteKey).
  - intros x y. apply eq_true_iff_eq. rewrite !keys_conflict_spec. naive_solver.
  - intros x y z Hxy Hyz. rewrite !keys_conflict_spec. intros [He Hp].
    assert (Exy := cle_attributeKey_entity x y z Hxy Hyz He). split; [done|left].
    assert (Hyz' := cle_attributeKey y z Hyz ltac:(congruence)).
    apply cle_attributeKey in Hxy; [|done].
    apply (prefix_between _ _ (ak_path z)); auto. destruct Hp as [|Hp]; [done|].
    replace (ak_path x) with (ak_path z); [done|].
    apply (cle_antisym compareAttributePath); [by apply compareAttributePath_prefix|].
    by transitivity (ak_path y).
Qed.

Lemma then_cmp_cle a b : then_cmp a b <> Gt -> a <> Gt.
Proof. by destruct a. Qed.

(** * Canonical collections are exactly the conflict-free ones *)

Lemma compareRelationshipTuple_mono x y :
  cle compareRelationshipTuple x y -> cle compareTuplePairs (rt_tuple x) (rt_tuple y).
Proof. apply then_cmp_cle. Qed.

Lemma compareAttribute_mono x y :
  cle compareAttribute x y -> cle compareAttributeDeleteKey (attr_key x) (attr_key y).
Proof. apply then_cmp_cle. Qed.

Notation tuple_conflict := (fun x y => cmp_eq (compareTuplePairs x y)).

Lemma cmp_eq_true {A} (c : A -> A -> comparison) `{!TotalCompare c} x y :
  cmp_eq (c x y) = true <-> x = y.
Proof. rewrite <- (tc_eq c). by destruct (c x y). Qed.
Lemma cmp_eq_false {A} (c : A -> A -> comparison) `{!TotalCompare c} x y :
  cmp_eq (c x y) = false <-> x <> y.
Proof. rewrite <- (tc_eq c). by destruct (c x y). Qed.

Lemma relationshipTuples_step :
  step_spec compareRelationshipTuple tuple_conflict rt_tuple (fun prev value =>
    if cmp_eq (compareTuplePairs (rt_tuple prev) (rt_tuple value)) then
      if cmp_eq (compareRelationshipTuple prev value) then Ok true else Err ErrorInvalidArgument
    else Ok false).
Proof.
  intros y x _. repeat split.
  - intros ->. by rewrite (tc_refl compareTuplePairs), (tc_refl compareRelationshipTuple).
  - intros [Hne ->]. apply (cmp_eq_false compareRelationshipTuple) in Hne. by rewrite Hne.
  - by intros _ ->.
Qed.

Lemma attributes_step :
  step_spec compareAttribute keys_conflict attr_key (fun prev value =>
    if cmp_eq (compareAttributeKey prev value) then
      if cmp_eq (compareValue (attr_value prev) (attr_value value)) then Ok true
      else Err ErrorInvalidArgument
    else if attributePathPrefixConflict (attr_entity prev) (attr_path prev)
              (attr_entity value) (attr_path value) then Err ErrorInvalidArgument
    else Ok false).
Proof.
  intros y x _. repeat split.
  - intros ->. by rewrite compareAttributeKey_key, (tc_refl compareAttributeDeleteKey), (tc_refl compareValue).
  - unfold clash, keys_conflict. rewrite <- compareAttributeKey_key. simpl.
    intros [Hne Hc]. destruct (cmp_eq (compareAttributeKey y x)) eqn:Ek; simpl in Hc; [|by rewrite Hc].
    destruct (cmp_eq (compareValue _ _)) eqn:Ev; [|done].
    apply (cmp_eq_true compareValue) in Ev.
    rewrite compareAttributeKey_key in Ek. apply (cmp_eq_true compareAttributeDeleteKey) in Ek.
    exfalso. apply Hne. destruct y, x; unfold attr_key in *; simpl in *; congruence.
  - unfold keys_conflict. rewrite <- compareAttributeKey_key. simpl.
    intros _ [-> Hc]%orb_false_iff. by rewrite Hc.
Qed.

Lemma tupleKeys_step :
  step_spec compareTupleKey tuple_conflict tk_tuple
    (fun prev value => Ok (cmp_eq (compareTupleKey prev value))).
Proof.
  intros y x _. repeat split.
  - intros ->. unfold compareTupleKey. by rewrite (tc_refl compareTuplePairs).
  - intros [Hne Hc]. apply (cmp_eq_true compareTuplePairs) in Hc.
    destruct y, x; simpl in *; congruence.
  - unfold compareTupleKey. by intros _ ->.
Qed.

#[global] Instance compareTupleKey_total : TotalCompare compareTupleKey.
Proof.
  unfold compareTupleKey. split.
  - intros [x] [y]; simpl. rewrite (tc_eq compareTuplePairs). split; congruence.
  - intros x y. apply (tc_antisym compareTuplePairs).
  - intros x y z. apply (tc_trans compareTuplePairs).
Qed.

Lemma attributeKeys_step :
  step_spec compareAttributeDeleteKey keys_conflict (fun k => k) (fun prev value =>
    if cmp_eq (compareAttributeDeleteKey prev value) then Ok true
    else if attributePathPrefixConflict (ak_entity prev) (ak_path prev)
              (ak_entity value) (ak_path value) then Err ErrorInvalidArgument
    else Ok false).
Proof.
  intros y x _. repeat split.
  - intros ->. by rewrite (tc_refl compareAttributeDeleteKey).
  - intros [Hne Hc]. apply (cmp_eq_false compareAttributeDeleteKey) in Hne.
    unfold keys_conflict in Hc. rewrite Hne in Hc |- *. simpl in Hc. by rewrite Hc.
  - unfold keys_conflict. intros _ [-> Hc]%orb_false_iff. by rewrite Hc.
Qed.

Lemma canonicalRelationshipTuples_Ok l l' :
  canonicalRelationshipTuples l = Ok l' ->
  StronglySorted (clt compareRelationshipTuple) l' /\ (forall x, x ∈ l' <-> x ∈ l) /\
  clash_free tuple_conflict rt_tuple l.
Proof. apply (canonical_Ok _ compareTuplePairs); auto using compareRelationshipTuple_mono, relationshipTuples_step. apply _. Qed.

Lemma canonicalTupleKeys_Ok l :
  exists l', canonicalTupleKeys l = Ok l' /\
  StronglySorted (clt compareTupleKey) l' /\ (forall x, x ∈ l' <-> x ∈ l).
Proof.
  destruct (canonical_spec compareTupleKey compareTuplePairs tuple_conflict tk_tuple _
    ltac:(done) tupleKeys_step l) as [(l' & E & H1 & H2 & _)|(_ & [a] & [b] & _ & _ & Hne & Hc)]; [eauto|].
  apply (cmp_eq_true compareTuplePairs) in Hc. simpl in *. congruence.
Qed.

Lemma canonicalAttributes_Ok l l' :
  canonicalAttributes l = Ok l' ->
  StronglySorted (clt compareAttribute) l' /\ (forall x, x ∈ l' <-> x ∈ l) /\
  clash_free keys_conflict attr_key l.
Proof. apply (canonical_Ok _ compareAttributeDeleteKey); auto using compareAttribute_mono, attributes_step; apply _. Qed.

Lemma canonicalAttributeKeys_Ok l l' :
  canonicalAttributeKeys l = Ok l' ->
  StronglySorted (clt compareAttributeDeleteKey) l' /\ (forall x, x ∈ l' <-> x ∈ l) /\
  clash_free keys_conflict (fun k => k) l.
Proof. apply (canonical_Ok _ compareAttributeDeleteKey); auto using attributeKeys_step; apply _. Qed.

(** [overlap]: the same attribute, or one an ancestor of the other. *)
Definition overlap (x y : AttributeKey) : Prop :=
  ak_entity x = ak_entity y /\ (ak_path x `prefix_of` ak_path y \/ ak_path y `prefix_of` ak_path x).

Lemma clash_overlap x y :
  clash keys_conflict attr_key x y <-> x <> y /\ overlap (attr_key x) (attr_key y).
Proof. unfold clash. by rewrite keys_conflict_spec. Qed.

(** Attribute canonicalisation compares neighbours of the sorted slice
    only, and that is exact: it succeeds precisely when no two distinct
    attributes of the input name the same path or a path and one of its
    prefixes on the same entity, and then yields the strictly ordered,
    duplicate-free list of the same attributes; any other input is
    INVALID_ARGUMENT. *)
Lemma canonicalAttributes_exact (l : list Attribute) :
  (exists l', canonicalAttributes l = Ok l' /\ StronglySorted (clt compareAttribute) l' /\
     (forall x, x ∈ l' <-> x ∈ l) /\
     (forall x y, x ∈ l -> y ∈ l -> overlap (attr_key x) (attr_key y) -> x = y)) \/
  (canonicalAttributes l = Err ErrorInvalidArgument /\
   exists x y, x ∈ l /\ y ∈ l /\ x <> y /\ overlap (attr_key x) (attr_key y)).
Proof.
  destruct (canonical_spec compareAttribute compareAttributeDeleteKey keys_conflict attr_key _
    compareAttribute_mono attributes_step l) as [(l' & E & H1 & H2 & H3)|(E & x & y & Hx & Hy & Hc)].
  - left. exists l'. repeat split; auto; try apply H2. intros x y Hx Hy Ho.
    destruct (decide (x = y)) as [|Hne]; [done|]. exfalso. apply (H3 x y Hx Hy). by apply clash_overlap.
  - right. split; [done|]. exists x, y. by rewrite clash_overlap in Hc.
Qed.

Lemma tupleWriteDeleteConflict_spec writes deletes :
  StronglySorted (cle compareTuplePairs) (rt_tuple <$> writes) ->
  StronglySorted (cle compareTuplePairs) (tk_tuple <$> deletes) ->
  tupleWriteDeleteConflict writes deletes = true <->
  exists w d, w ∈ writes /\ d ∈ deletes /\ rt_tuple w = tk_tuple d.
Proof.
  intros Hw Hd. unfold tupleWriteDeleteConflict.
  rewrite (sweep_spec compareTuplePairs tuple_conflict rt_tuple tk_tuple _ _
    (fun w d => eq_refl) (fun w d => eq_refl)) by done.
  setoid_rewrite (cmp_eq_true compareTuplePairs). done.
Qed.

Lemma attributeWriteDeleteConflict_spec writes deletes :
  StronglySorted (cle compareAttributeDeleteKey) (attr_key <$> writes) ->
  StronglySorted (cle compareAttributeDeleteKey) deletes ->
  attributeWriteDeleteConflict writes deletes = true <->
  exists w d, w ∈ writes /\ d ∈ deletes /\ overlap (attr_key w) d.
Proof.
  intros Hw Hd. unfold attributeWriteDeleteConflict.
  rewrite (sweep_spec compareAttributeDeleteKey keys_conflict attr_key (fun k => k) _ _
    (fun w d => eq_refl) (fun w d => eq_refl)); [|done|done|by rewrite list_fmap_id].
  setoid_rewrite keys_conflict_spec. done.
Qed.

(** * Data write requests *)

Lemma sorted_keys {A K} (c : A -> A -> comparison) (ck : K -> K -> comparison) (key : A -> K) l
  `{!TotalCompare c} :
  (forall x y, cle c x y -> cle ck (key x) (key y)) ->
  StronglySorted (clt c) l -> StronglySorted (cle ck) (key <$> l).
Proof.
  intros Hk. induction 1 as [|x l H IH Hx]; simpl; constructor; auto.
  apply Forall_fmap. eapply Forall_impl; [exact Hx|]. intros y Hy. by apply Hk, clt_cle.
Qed.

(** The guards of [NewWriteDataRequest] that look at one item at a time. *)
Definition write_items_ok (i : WriteDataRequestInput) : bool :=
  match foldM add (mkBudget 0 MaxMutationItems) (mutation_counts i) with
  | Ok b => negb (used b =? 0)
  | Err _ => false
  end
  && is_ok (addWriteDataRequestCost (mkBudget 0 MaxAggregateInputBytes) i)
  && validRevisionIDString (in_ValidationRevisionID i)
  && is_ok (validateNamespace (in_Namespace i)) && is_ok (validateIdentifier (in_IdempotencyKey i))
  && forallb RelationshipTuple_valid (in_TupleWrites i) && forallb TupleKey_valid (in_TupleDeletes i)
  && forallb Attribute_valid (in_AttributeWrites i) && forallb AttributeKey_valid (in_AttributeDeletes i).

(** The mutations of a request can be applied in any order: no fact is
    written with two contents, written and deleted, or written above or below
    another attribute path that the same request touches. *)
Definition consistent_mutations (i : WriteDataRequestInput) : Prop :=
  (forall x y, x ∈ in_TupleWrites i -> y ∈ in_TupleWrites i -> rt_tuple x = rt_tuple y -> x = y) /\
  (forall x y, x ∈ in_AttributeWrites i -> y ∈ in_AttributeWrites i ->
     overlap (attr_key x) (attr_key y) -> x = y) /\
  (forall x y, x ∈ in_AttributeDeletes i -> y ∈ in_AttributeDeletes i -> overlap x y -> x = y) /\
  (forall w d, w ∈ in_TupleWrites i -> d ∈ in_TupleDeletes i -> rt_tuple w <> tk_tuple d) /\
  (forall w d, w ∈ in_AttributeWrites i -> d ∈ in_AttributeDeletes i -> ~ overlap (attr_key w) d).

(** The canonicalisation and conflict stage that follows the guards. *)
Definition canonical_write (i : WriteDataRequestInput) : result WriteDataRequest :=
  let? tupleWrites := canonicalRelationshipTuples (in_TupleWrites i) in
  let? tupleDeletes := canonicalTupleKeys (in_TupleDeletes i) in
  let? attributeWrites := canonicalAttributes (in_AttributeWrites i) in
  let? attributeDeletes := canonicalAttributeKeys (in_AttributeDeletes i) in
  if tupleWriteDeleteConflict tupleWrites tupleDeletes
     || attributeWriteDeleteConflict attributeWrites attributeDeletes
  then Err ErrorInvalidArgument
  else Ok (mkWriteDataRequest (in_Namespace i) (in_ValidationRevisionID i)
             (in_ExpectedGeneration i) (in_IdempotencyKey i)
             tupleWrites tupleDeletes attributeWrites attributeDeletes).

Lemma NewWriteDataRequest_guarded i :
  write_items_ok i = true -> NewWriteDataRequest i = canonical_write i.
Proof.
  unfold write_items_ok, NewWriteDataRequest. rewrite !andb_true_iff.
  intros ((((((((H1 & H2) & H3) & H4) & H5) & H6) & H7) & H8) & H9).
  apply is_ok_true in H2 as [b2 ->], H4 as [[] ->], H5 as [[] ->].
  destruct (foldM add _ _) as [b|]; [|done]. apply negb_true_iff in H1. simpl.
  by rewrite H1, H3, H6, H7, H8, H9.
Qed.

Lemma NewWriteDataRequest_Ok_guards i r :
  NewWriteDataRequest i = Ok r -> write_items_ok i = true /\ canonical_write i = Ok r.
Proof.
  intros H. assert (G : write_items_ok i = true).
  2:{ split; [done|]. by rewrite <- (NewWriteDataRequest_guarded i G). }
  unfold NewWriteDataRequest, write_items_ok in *.
  destruct (foldM add _ _) as [b|]; [|done]. simpl in H.
  destruct (addWriteDataRequestCost _ _); [|done]. simpl in H.
  destruct (validRevisionIDString _); [|done]. destruct (used b =? 0); [done|]. simpl in H.
  destruct (validateNamespace _); [|done]. simpl in H.
  destruct (validateIdentifier _); [|done]. simpl in H.
  destruct (forallb RelationshipTuple_valid _); [|done]. destruct (forallb TupleKey_valid _); [|done].
  destruct (forallb Attribute_valid _); [|done]. by destruct (forallb AttributeKey_valid _).
Qed.

Lemma write_delete_sorted tw td aw ad i :
  canonicalRelationshipTuples (in_TupleWrites i) = Ok tw -> canonicalTupleKeys (in_TupleDeletes i) = Ok td ->
  canonicalAttributes (in_AttributeWrites i) = Ok aw -> canonicalAttributeKeys (in_AttributeDeletes i) = Ok ad ->
  (tupleWriteDeleteConflict tw td = true <->
     exists w d, w ∈ in_TupleWrites i /\ d ∈ in_TupleDeletes i /\ rt_tuple w = tk_tuple d) /\
  (attributeWriteDeleteConflict aw ad = true <->
     exists w d, w ∈ in_AttributeWrites i /\ d ∈ in_AttributeDeletes i /\ overlap (attr_key w) d).
Proof.
  intros (S1 & M1 & _)%canonicalRelationshipTuples_Ok E2 (S3 & M3 & _)%canonicalAttributes_Ok
    (S4 & M4 & _)%canonicalAttributeKeys_Ok.
  destruct (canonicalTupleKeys_Ok (in_TupleDeletes i)) as (td' & E2' & S2 & M2).
  rewrite E2 in E2'. injection E2' as <-.
  assert (K1 := sorted_keys _ compareTuplePairs rt_tuple tw compareRelationshipTuple_mono S1).
  assert (K2 := sorted_keys _ compareTuplePairs tk_tuple td (fun x y H => H) S2).
  assert (K3 := sorted_keys _ compareAttributeDeleteKey attr_key aw compareAttribute_mono S3).
  rewrite (tupleWriteDeleteConflict_spec _ _ K1 K2).
  rewrite (attributeWriteDeleteConflict_spec _ _ K3 (strict_sorted_le _ _ S4)).
  setoid_rewrite M1. setoid_rewrite M2. setoid_rewrite M3. setoid_rewrite M4. done.
Qed.

Lemma canonical_write_Ok i r :
  canonical_write i = Ok r ->
  canonicalRelationshipTuples (in_TupleWrites i) = Ok (wd_tupleWrites r) /\
  canonicalTupleKeys (in_TupleDeletes i) = Ok (wd_tupleDeletes r) /\
  canonicalAttributes (in_AttributeWrites i) = Ok (wd_attributeWrites r) /\
  canonicalAttributeKeys (in_AttributeDeletes i) = Ok (wd_attributeDeletes r) /\
  tupleWriteDeleteConflict (wd_tupleWrites r) (wd_tupleDeletes r) = false /\
  attributeWriteDeleteConflict (wd_attributeWrites r) (wd_attributeDeletes r) = false /\
  wd_namespace r = in_Namespace i /\ wd_validationRevisionID r = in_ValidationRevisionID i /\
  wd_expectedGeneration r = in_ExpectedGeneration i /\ wd_idempotencyKey r = in_IdempotencyKey i.
Proof.
  unfold canonical_write.
  destruct (canonicalRelationshipTuples _); [|done]; simpl.
  destruct (canonicalTupleKeys _); [|done]; simpl.
  destruct (canonicalAttributes _); [|done]; simpl.
  destruct (canonicalAttributeKeys _); [|done]; simpl.
  destruct (tupleWriteDeleteConflict _ _) eqn:E1; [done|].
  destruct (attributeWriteDeleteConflict _ _) eqn:E2; [done|]. simpl.
  by intros [= <-].
Qed.

Lemma keys_clash_free (l : list AttributeKey) :
  clash_free keys_conflict (fun k => k) l <->
  (forall x y, x ∈ l -> y ∈ l -> overlap x y -> x = y).
Proof.
  split.
  - intros H x y Hx Hy Ho. destruct (decide (x = y)) as [|Hne]; [done|]. exfalso.
    apply (H x y Hx Hy). split; [done|]. by apply keys_conflict_spec.
  - intros H x y Hx Hy [Hne Hc%keys_conflict_spec]. eauto.
Qed.

Lemma attributes_clash_free (l : list Attribute) :
  clash_free keys_conflict attr_key l <->
  (forall x y, x ∈ l -> y ∈ l -> overlap (attr_key x) (attr_key y) -> x = y).
Proof.
  split.
  - intros H x y Hx Hy Ho. destruct (decide (x = y)) as [|Hne]; [done|]. exfalso.
    apply (H x y Hx Hy). by apply clash_overlap.
  - intros H x y Hx Hy [Hne Hc]%clash_overlap. eauto.
Qed.

Lemma tuples_clash_free (l : list RelationshipTuple) :
  clash_free tuple_conflict rt_tuple l <->
  (forall x y, x ∈ l -> y ∈ l -> rt_tuple x = rt_tuple y -> x = y).
Proof.
  split.
  - intros H x y Hx Hy Ho. destruct (decide (x = y)) as [|Hne]; [done|]. exfalso.
    apply (H x y Hx Hy). split; [done|]. by apply (cmp_eq_true compareTuplePairs).
  - intros H x y Hx Hy [Hne Hc]. apply (cmp_eq_true compareTuplePairs) in Hc. eauto.
Qed.

Lemma canonical_write_consistent i r :
  canonical_write i = Ok r -> consistent_mutations i.
Proof.
  intros (E1 & E2 & E3 & E4 & C1 & C2 & _)%canonical_write_Ok.
  destruct (write_delete_sorted _ _ _ _ _ E1 E2 E3 E4) as [W1 W2].
  apply canonicalRelationshipTuples_Ok in E1 as (_ & _ & F1).
  apply canonicalAttributes_Ok in E3 as (_ & _ & F3).
  apply canonicalAttributeKeys_Ok in E4 as (_ & _ & F4).
  rewrite tuples_clash_free in F1. rewrite attributes_clash_free in F3. rewrite keys_clash_free in F4.
  repeat split; auto.
  - intros w d Hw Hd Heq. rewrite (proj2 W1) in C1; [done|eauto].
  - intros w d Hw Hd Ho. rewrite (proj2 W2) in C2; [done|eauto].
Qed.

Lemma consistent_canonical_write i :
  consistent_mutations i -> exists r, canonical_write i = Ok r.
Proof.
  intros (F1 & F3 & F4 & W1 & W2).
  rewrite <- tuples_clash_free in F1. rewrite <- attributes_clash_free in F3. rewrite <- keys_clash_free in F4.
  destruct (canonical_exists _ compareTuplePairs _ _ _ compareRelationshipTuple_mono
    relationshipTuples_step _ F1) as [tw E1].
  destruct (canonicalTupleKeys_Ok (in_TupleDeletes i)) as (td & E2 & _).
  destruct (canonical_exists _ compareAttributeDeleteKey _ _ _ compareAttribute_mono
    attributes_step _ F3) as [aw E3].
  destruct (canonical_exists _ compareAttributeDeleteKey _ (fun k => k) _ (fun x y H => H)
    attributeKeys_step _ F4) as [ad E4].
  destruct (write_delete_sorted _ _ _ _ _ E1 E2 E3 E4) as [C1 C2].
  unfold canonical_write, canonicalRelationshipTuples, canonicalAttributes, canonicalAttributeKeys.
  rewrite E1. simpl. rewrite E2. simpl. rewrite E3. simpl. rewrite E4. simpl.
  destruct (tupleWriteDeleteConflict tw td).
  { destruct (proj1 C1 eq_refl) as (w & d & Hw & Hd & E). by destruct (W1 w d Hw Hd). }
  destruct (attributeWriteDeleteConflict aw ad).
  { destruct (proj1 C2 eq_refl) as (w & d & Hw & Hd & E). by destruct (W2 w d Hw Hd). }
  eauto.
Qed.

(** A data write whose items are individually valid and within budget is
    accepted exactly when its mutations are consistent (no fact written with
    two contents or both written and deleted, no attribute path overlapping
    another one of the request); the sorted-neighbour comparisons and the
    two-pointer sweeps of the constructor miss no conflict and invent none. *)
Lemma NewWriteDataRequest_accepts i :
  write_items_ok i = true ->
  (exists r, NewWriteDataRequest i = Ok r) <-> consistent_mutations i.
Proof.
  intros G. rewrite (NewWriteDataRequest_guarded i G). split.
  - intros [r H]. by apply canonical_write_consistent in H.
  - apply consistent_canonical_write.
Qed.

(** ** Reconstructing a request *)

Lemma sum_cost_submseteq {A} (cost : A -> Z) l1 l2 :
  (forall x, 0 <= cost x) -> l1 ⊆+ l2 -> sum_cost cost l1 <= sum_cost cost l2.
Proof.
  intros Hc. induction 1 as [|x l1 l2 H IH|x y l|x l1 l2 H IH|l1 l2 l3]; simpl; try lia.
  specialize (Hc x). lia.
Qed.

Lemma canonical_submseteq {A} (c : A -> A -> comparison) `{!TotalCompare c} (l l' : list A) :
  StronglySorted (clt c) l' -> (forall x, x ∈ l' <-> x ∈ l) -> l' ⊆+ l.
Proof.
  intros Hs M. apply NoDup_submseteq; [by apply (strict_sorted_nodup c)|]. intros x. by apply M.
Qed.

Lemma forallb_elem {A} (p : A -> bool) l l' :
  (forall x, x ∈ l' -> x ∈ l) -> forallb p l = true -> forallb p l' = true.
Proof.
  intros M. rewrite !forallb_forall. setoid_rewrite <- list_elem_of_In. auto.
Qed.

Lemma canonical_zlen {A} (l l' : list A) :
  l' ⊆+ l -> (forall x, x ∈ l' <-> x ∈ l) -> zlen l' <= zlen l /\ (zlen l' = 0 <-> zlen l = 0).
Proof.
  intros Hs M. apply submseteq_length in Hs. unfold zlen. split; [lia|].
  split; [|lia]. intros H0. destruct l as [|x l]; [done|].
  assert (Hx : x ∈ l') by (apply M; left). destruct l'; [by apply elem_of_nil in Hx|simpl in H0; lia].
Qed.

Lemma foldM_add b l :
  budget_ok b -> Forall (fun n => 0 <= n) l -> foldM add b l = charge b (sum_cost (fun n => n) l).
Proof.
  intros Hb Hl. revert b Hb. induction Hl as [|n l Hn Hl IH]; intros b Hb; simpl.
  { by rewrite charge_0. }
  rewrite add_charge by done. apply bind_charge; auto.
  clear IH. induction Hl; simpl; lia.
Qed.

Lemma MaxMutationItems_ok : budget_ok (mkBudget 0 MaxMutationItems).
Proof. by split. Qed.
Lemma MaxAggregateInputBytes_ok : budget_ok (mkBudget 0 MaxAggregateInputBytes).
Proof. by split. Qed.

(** A request accepted by its constructor, and the collections it kept. *)
Lemma canonical_write_shrinks i r :
  canonical_write i = Ok r ->
  wd_tupleWrites r ⊆+ in_TupleWrites i /\ wd_tupleDeletes r ⊆+ in_TupleDeletes i /\
  wd_attributeWrites r ⊆+ in_AttributeWrites i /\ wd_attributeDeletes r ⊆+ in_AttributeDeletes i /\
  (forall x, x ∈ wd_tupleWrites r <-> x ∈ in_TupleWrites i) /\
  (forall x, x ∈ wd_tupleDeletes r <-> x ∈ in_TupleDeletes i) /\
  (forall x, x ∈ wd_attributeWrites r <-> x ∈ in_AttributeWrites i) /\
  (forall x, x ∈ wd_attributeDeletes r <-> x ∈ in_AttributeDeletes i).
Proof.
  intros (E1 & E2 & E3 & E4 & _)%canonical_write_Ok.
  apply canonicalRelationshipTuples_Ok in E1 as (S1 & M1 & _).
  destruct (canonicalTupleKeys_Ok (in_TupleDeletes i)) as (td & E2' & S2 & M2).
  rewrite E2 in E2'. injection E2' as <-.
  apply canonicalAttributes_Ok in E3 as (S3 & M3 & _).
  apply canonicalAttributeKeys_Ok in E4 as (S4 & M4 & _).
  repeat split; try (by apply (canonical_submseteq compareRelationshipTuple));
    try (by apply (canonical_submseteq compareTupleKey)); try (by apply (canonical_submseteq compareAttribute));
    try (by apply (canonical_submseteq compareAttributeDeleteKey)); by (apply M1 || apply M2 || apply M3 || apply M4).
Qed.

Lemma counts_reconstructed i r :
  canonical_write i = Ok r ->
  let n := sum_cost (fun n => n) (mutation_counts i) in
  let n' := sum_cost (fun n => n) (mutation_counts (request_input r)) in
  0 <= n' <= n /\ (n' = 0 -> n = 0).
Proof.
  intros (H1 & H2 & H3 & H4 & M1 & M2 & M3 & M4)%canonical_write_shrinks. cbn.
  assert (L1 := canonical_zlen _ _ H1 M1). assert (L2 := canonical_zlen _ _ H2 M2).
  assert (L3 := canonical_zlen _ _ H3 M3). assert (L4 := canonical_zlen _ _ H4 M4).
  assert (P1 := zlen_nonneg (wd_tupleWrites r)). assert (P2 := zlen_nonneg (wd_tupleDeletes r)).
  assert (P3 := zlen_nonneg (wd_attributeWrites r)). assert (P4 := zlen_nonneg (wd_attributeDeletes r)).
  lia.
Qed.

Lemma cost_reconstructed i r :
  canonical_write i = Ok r -> 0 <= writeDataRequestCost (request_input r) <= writeDataRequestCost i.
Proof.
  intros Hr. split.
  { eapply (costs_nonneg _ _ _ addWriteDataRequestCost_costs). }
  assert (Hf := Hr). apply canonical_write_Ok in Hf as (_ & _ & _ & _ & _ & _ & E1 & E2 & _ & E3).
  apply canonical_write_shrinks in Hr as (H1 & H2 & H3 & H4 & _).
  apply (sum_cost_submseteq relationshipTupleCost) in H1; [|intros; solve_nonneg].
  apply (sum_cost_submseteq (fun k => tupleCost (tk_tuple k))) in H2; [|intros; solve_nonneg].
  apply (sum_cost_submseteq attributeCost) in H3; [|intros; solve_nonneg].
  apply (sum_cost_submseteq attributeKeyCost) in H4; [|intros; solve_nonneg].
  unfold writeDataRequestCost. cbn [request_input in_Namespace in_ValidationRevisionID in_IdempotencyKey
    in_TupleWrites in_TupleDeletes in_AttributeWrites in_AttributeDeletes].
  rewrite E1, E2, E3. lia.
Qed.

Lemma write_items_reconstructed i r :
  write_items_ok i = true -> canonical_write i = Ok r -> write_items_ok (request_input r) = true.
Proof.
  unfold write_items_ok. intros G Hr. assert (Hf := Hr).
  apply canonical_write_Ok in Hf as (_ & _ & _ & _ & _ & _ & E1 & E2 & _ & E3).
  assert (Hn := counts_reconstructed i r Hr). assert (Hc := cost_reconstructed i r Hr).
  apply canonical_write_shrinks in Hr as (_ & _ & _ & _ & M1 & M2 & M3 & M4).
  assert (Hcounts : forall j, Forall (fun n => 0 <= n) (mutation_counts j)).
  { intros j. repeat constructor; apply zlen_nonneg. }
  rewrite foldM_add in * by (apply MaxMutationItems_ok || apply Hcounts).
  rewrite (proj2 (addWriteDataRequestCost_costs _ i MaxAggregateInputBytes_ok)) in G.
  rewrite (proj2 (addWriteDataRequestCost_costs _ _ MaxAggregateInputBytes_ok)).
  unfold charge in *. cbn [used max] in *.
  change (in_Namespace (request_input r)) with (wd_namespace r).
  change (in_ValidationRevisionID (request_input r)) with (wd_validationRevisionID r).
  change (in_IdempotencyKey (request_input r)) with (wd_idempotencyKey r).
  rewrite E1, E2, E3. rewrite !andb_true_iff in *.
  destruct G as ((((((((H1 & H2) & H3) & H4) & H5) & H6) & H7) & H8) & H9).
  repeat split; auto.
  - destruct (Z.leb_spec (0 + sum_cost (fun n => n) (mutation_counts i)) MaxMutationItems); [|done].
    destruct (Z.leb_spec (0 + sum_cost (fun n => n) (mutation_counts (request_input r))) MaxMutationItems); [|lia].
    cbn [used] in *. lia.
  - destruct (Z.leb_spec (0 + writeDataRequestCost i) MaxAggregateInputBytes); [|done].
    destruct (Z.leb_spec (0 + writeDataRequestCost (request_input r)) MaxAggregateInputBytes); [done|lia].
  - eapply forallb_elem; [|exact H6]. apply M1.
  - eapply forallb_elem; [|exact H7]. apply M2.
  - eapply forallb_elem; [|exact H8]. apply M3.
  - eapply forallb_elem; [|exact H9]. apply M4.
Qed.

Lemma canonical_write_fixed i r :
  canonical_write i = Ok r -> canonical_write (request_input r) = Ok r.
Proof.
  intros H. assert (Hs := canonical_write_shrinks i r H).
  destruct Hs as (_ & _ & _ & _ & M1 & M2 & M3 & M4).
  apply canonical_write_Ok in H as (E1 & E2 & E3 & E4 & C1 & C2 & _).
  apply canonicalRelationshipTuples_Ok in E1 as (S1 & _ & F1).
  destruct (canonicalTupleKeys_Ok (in_TupleDeletes i)) as (td & E2' & S2 & _).
  rewrite E2 in E2'. injection E2' as <-.
  apply canonicalAttributes_Ok in E3 as (S3 & _ & F3).
  apply canonicalAttributeKeys_Ok in E4 as (S4 & _ & F4).
  unfold canonical_write. cbn [request_input in_Namespace in_ValidationRevisionID in_IdempotencyKey
    in_ExpectedGeneration in_TupleWrites in_TupleDeletes in_AttributeWrites in_AttributeDeletes].
  unfold canonicalRelationshipTuples, canonicalTupleKeys, canonicalAttributes, canonicalAttributeKeys.
  rewrite (canonical_id _ compareTuplePairs _ _ _ compareRelationshipTuple_mono relationshipTuples_step _ S1).
  2:{ intros x y Hx Hy. apply F1; by apply M1. }
  rewrite (canonical_id compareTupleKey compareTuplePairs _ tk_tuple _ (fun x y H => H) tupleKeys_step _ S2).
  2:{ intros [x] [y] _ _ [Hne Hc%(cmp_eq_true compareTuplePairs)]. simpl in *. congruence. }
  rewrite (canonical_id _ compareAttributeDeleteKey _ _ _ compareAttribute_mono attributes_step _ S3).
  2:{ intros x y Hx Hy. apply F3; by apply M3. }
  rewrite (canonical_id _ compareAttributeDeleteKey _ (fun k => k) _ (fun x y H => H) attributeKeys_step _ S4).
  2:{ intros x y Hx Hy. apply F4; by apply M4. }
  simpl. rewrite C1, C2. by destruct r.
Qed.

(** The request a store or the application layer rebuilds from an accepted
    data write is accepted again and is the same request: budgets, validation,
    canonical order and conflict checks are all stable under reconstruction. *)
Lemma NewWriteDataRequest_idempotent i r :
  NewWriteDataRequest i = Ok r -> NewWriteDataRequest (request_input r) = Ok r.
Proof.
  intros [G Hr]%NewWriteDataRequest_Ok_guards.
  rewrite NewWriteDataRequest_guarded; [|by eapply write_items_reconstructed].
  by eapply canonical_write_fixed.
Qed.
