(* ===== verification/DataValid.v ===== *)
(** Re-validation of authorization data (data.go, the [valid] methods and the
    [validCanonical*] functions).

    Values that cross a boundary are checked again without rebuilding them.
    The theorem says that this second implementation accepts a data write
    exactly when its constructor would return it unchanged. *)

From Stdlib Require Import ZArith Lia Permutation Sorted.
From stdpp Require Import base list gmap strings sorting.
From S2P Require Import Prelude Limits Text Types Cost Canon Data.

Definition NewAttributeKey (entity : EntityRef) (name : string) : result AttributeKey :=
  NewAttributeKeyPath entity [name].

(** [index > 0 && (compareTuple(...) == 0 || compareRelationshipTuple(...) >= 0)]
    is the failure; the order tests of the four functions follow it. *)
Definition tuples_in_order (previous value : RelationshipTuple) : bool :=
  negb (cmp_eq (compareTuplePairs (rt_tuple previous) (rt_tuple value))
        || negb (cmp_lt (compareRelationshipTuple previous value))).

Definition attributes_in_order (previous value : Attribute) : bool :=
  negb (cmp_eq (compareAttributeKey previous value) || negb (cmp_lt (compareAttribute previous value))).

Definition ContextualData_valid (d : ContextualData) : bool :=
  if (MaxContextualTuples <? zlen (cd_tuples d)) || (MaxContextualAttributes <? zlen (cd_attributes d))
  then false
  else if negb (is_ok (addContextualDataCost (mkBudget 0 MaxAggregateInputBytes) d)) then false
  else forallb RelationshipTuple_valid (cd_tuples d) && adjacent tuples_in_order (cd_tuples d)
       && forallb Attribute_valid (cd_attributes d) && adjacent attributes_in_order (cd_attributes d).

Definition validCanonicalRelationshipTuples (values : list RelationshipTuple) : bool :=
  forallb RelationshipTuple_valid values && adjacent tuples_in_order values.

Definition validCanonicalTupleKeys (values : list TupleKey) : bool :=
  forallb TupleKey_valid values
  && adjacent (fun p v => cmp_lt (compareTuplePairs (tk_tuple p) (tk_tuple v))) values.

Definition validCanonicalAttributes (values : list Attribute) : bool :=
  forallb Attribute_valid values
  && adjacent (fun p v => attributes_in_order p v
       && negb (attributePathPrefixConflict (attr_entity p) (attr_path p) (attr_entity v) (attr_path v))) values.

Definition validCanonicalAttributeKeys (values : list AttributeKey) : bool :=
  forallb AttributeKey_valid values
  && adjacent (fun p v => cmp_lt (compareAttributeDeleteKey p v)
       && negb (attributePathPrefixConflict (ak_entity p) (ak_path p) (ak_entity v) (ak_path v))) values.

Definition WriteDataRequest_valid (r : WriteDataRequest) : bool :=
  match foldM add (mkBudget 0 MaxMutationItems)
          [zlen (wd_tupleWrites r); zlen (wd_tupleDeletes r);
           zlen (wd_attributeWrites r); zlen (wd_attributeDeletes r)] with
  | Err _ => false
  | Ok mutationBudget =>
      if (used mutationBudget =? 0) || negb (validNamespace (wd_namespace r))
         || negb (validRevisionIDString (wd_validationRevisionID r))
         || negb (validIdentifier (wd_idempotencyKey r))
      then false
      else if negb (is_ok (addWriteDataRequestCost (mkBudget 0 MaxAggregateInputBytes) (request_input r)))
              || negb (validCanonicalRelationshipTuples (wd_tupleWrites r))
              || negb (validCanonicalTupleKeys (wd_tupleDeletes r))
              || negb (validCanonicalAttributes (wd_attributeWrites r))
              || negb (validCanonicalAttributeKeys (wd_attributeDeletes r))
      then false
      else negb (tupleWriteDeleteConflict (wd_tupleWrites r) (wd_tupleDeletes r))
           && negb (attributeWriteDeleteConflict (wd_attributeWrites r) (wd_attributeDeletes r))
  end.

(** * Neighbour tests *)

Lemma cmp_lt_true o : cmp_lt o = true <-> o = Lt.
Proof. by destruct o. Qed.

Lemma tuples_settled p v :
  tuples_in_order p v = true <->
  settled compareRelationshipTuple (fun x y => cmp_eq (compareTuplePairs x y)) rt_tuple p v.
Proof.
  unfold tuples_in_order, settled, clt.
  rewrite negb_orb, negb_involutive, andb_true_iff, negb_true_iff, cmp_lt_true. tauto.
Qed.

Lemma attributes_settled p v :
  attributes_in_order p v && negb (attributePathPrefixConflict (attr_entity p) (attr_path p) (attr_entity v) (attr_path v)) = true <->
  settled compareAttribute keys_conflict attr_key p v.
Proof.
  unfold attributes_in_order, settled, clt, keys_conflict.
  rewrite compareAttributeKey_key, negb_orb, negb_involutive, !andb_true_iff, !negb_true_iff, cmp_lt_true, orb_false_iff.
  cbn [attr_key ak_entity ak_path]. tauto.
Qed.

Lemma attributeKeys_settled p v :
  cmp_lt (compareAttributeDeleteKey p v)
  && negb (attributePathPrefixConflict (ak_entity p) (ak_path p) (ak_entity v) (ak_path v)) = true <->
  settled compareAttributeDeleteKey keys_conflict (fun k => k) p v.
Proof.
  unfold settled, clt, keys_conflict. rewrite andb_true_iff, negb_true_iff, cmp_lt_true, orb_false_iff.
  destruct (compareAttributeDeleteKey p v); simpl; naive_solver.
Qed.

Lemma tupleKeys_settled p v :
  cmp_lt (compareTuplePairs (tk_tuple p) (tk_tuple v)) = true <->
  settled compareTupleKey (fun x y => cmp_eq (compareTuplePairs x y)) tk_tuple p v.
Proof.
  unfold settled, clt, compareTupleKey. rewrite cmp_lt_true.
  destruct (compareTuplePairs _ _); simpl; naive_solver.
Qed.

(** Each re-validator is "canonicalise and compare" on valid elements. *)
Lemma validCanonicalRelationshipTuples_iff l :
  validCanonicalRelationshipTuples l = true <->
  forallb RelationshipTuple_valid l = true /\ canonicalRelationshipTuples l = Ok l.
Proof.
  unfold validCanonicalRelationshipTuples, canonicalRelationshipTuples.
  rewrite andb_true_iff, (adjacent_Sorted _ _ _ tuples_settled).
  by rewrite (canonical_settled _ compareTuplePairs _ rt_tuple _ compareRelationshipTuple_mono relationshipTuples_step).
Qed.

Lemma validCanonicalTupleKeys_iff l :
  validCanonicalTupleKeys l = true <-> forallb TupleKey_valid l = true /\ canonicalTupleKeys l = Ok l.
Proof.
  unfold validCanonicalTupleKeys, canonicalTupleKeys.
  rewrite andb_true_iff, (adjacent_Sorted _ _ _ tupleKeys_settled).
  by rewrite (canonical_settled compareTupleKey compareTuplePairs _ tk_tuple _ (fun x y H => H) tupleKeys_step).
Qed.

Lemma validCanonicalAttributes_iff l :
  validCanonicalAttributes l = true <-> forallb Attribute_valid l = true /\ canonicalAttributes l = Ok l.
Proof.
  unfold validCanonicalAttributes, canonicalAttributes.
  rewrite andb_true_iff, (adjacent_Sorted _ _ _ attributes_settled).
  by rewrite (canonical_settled _ compareAttributeDeleteKey _ attr_key _ compareAttribute_mono attributes_step).
Qed.

Lemma validCanonicalAttributeKeys_iff l :
  validCanonicalAttributeKeys l = true <-> forallb AttributeKey_valid l = true /\ canonicalAttributeKeys l = Ok l.
Proof.
  unfold validCanonicalAttributeKeys, canonicalAttributeKeys.
  rewrite andb_true_iff, (adjacent_Sorted _ _ _ attributeKeys_settled).
  by rewrite (canonical_settled _ compareAttributeDeleteKey _ (fun k => k) _ (fun x y H => H) attributeKeys_step).
Qed.

Lemma is_ok_unit_iff (r : result unit) : is_ok r = true <-> r = Ok tt.
Proof. destruct r as [[]|]; by split. Qed.

Lemma canonical_write_id r :
  canonical_write (request_input r) = Ok r <->
  canonicalRelationshipTuples (wd_tupleWrites r) = Ok (wd_tupleWrites r) /\
  canonicalTupleKeys (wd_tupleDeletes r) = Ok (wd_tupleDeletes r) /\
  canonicalAttributes (wd_attributeWrites r) = Ok (wd_attributeWrites r) /\
  canonicalAttributeKeys (wd_attributeDeletes r) = Ok (wd_attributeDeletes r) /\
  tupleWriteDeleteConflict (wd_tupleWrites r) (wd_tupleDeletes r) = false /\
  attributeWriteDeleteConflict (wd_attributeWrites r) (wd_attributeDeletes r) = false.
Proof.
  split; [intros H%canonical_write_Ok; tauto|]. intros (E1 & E2 & E3 & E4 & C1 & C2).
  unfold canonical_write. cbn [request_input in_TupleWrites in_TupleDeletes in_AttributeWrites in_AttributeDeletes
    in_Namespace in_ValidationRevisionID in_ExpectedGeneration in_IdempotencyKey].
  rewrite E1, E2, E3, E4. cbn [rbind]. rewrite C1, C2. by destruct r.
Qed.

(** The two implementations of data-write validation agree. The [valid]
    method, which only compares neighbours and never sorts or copies, accepts
    a request exactly when the constructor, given the request's own fields,
    returns that very request: same budgets, same item checks, same canonical
    order, same conflicts. *)
Theorem WriteDataRequest_valid_exact r :
  WriteDataRequest_valid r = true <-> NewWriteDataRequest (request_input r) = Ok r.
Proof.
  transitivity (write_items_ok (request_input r) = true /\ canonical_write (request_input r) = Ok r).
  2:{ split; [intros [G H]; by rewrite NewWriteDataRequest_guarded|apply NewWriteDataRequest_Ok_guards]. }
  rewrite canonical_write_id. unfold WriteDataRequest_valid, write_items_ok, validNamespace, validIdentifier.
  change (mutation_counts (request_input r)) with
    [zlen (wd_tupleWrites r); zlen (wd_tupleDeletes r); zlen (wd_attributeWrites r); zlen (wd_attributeDeletes r)].
  cbn [request_input in_TupleWrites in_TupleDeletes in_AttributeWrites in_AttributeDeletes
    in_Namespace in_ValidationRevisionID in_IdempotencyKey].
  destruct (foldM add _ _) as [b|]; [|naive_solver].
  assert (I1 := validCanonicalRelationshipTuples_iff (wd_tupleWrites r)).
  assert (I2 := validCanonicalTupleKeys_iff (wd_tupleDeletes r)).
  assert (I3 := validCanonicalAttributes_iff (wd_attributeWrites r)).
  assert (I4 := validCanonicalAttributeKeys_iff (wd_attributeDeletes r)).
  destruct (used b =? 0), (is_ok (validateNamespace _)), (validRevisionIDString _),
    (is_ok (validateIdentifier _)), (is_ok (addWriteDataRequestCost _ _)); cbn [negb orb andb];
    try (split; [discriminate|intros [? _]; discriminate]).
  rewrite !andb_true_iff.
  destruct (validCanonicalRelationshipTuples _), (validCanonicalTupleKeys _), (validCanonicalAttributes _),
    (validCanonicalAttributeKeys _); cbn [negb orb]; try (split; [discriminate|naive_solver]).
  rewrite andb_true_iff, !negb_true_iff. naive_solver.
Qed.

(** A context the constructor returns passes re-validation. *)
Lemma NewContextualData_valid tuples attributes d :
  NewContextualData tuples attributes = Ok d ->
  ContextualData_valid d = true /\ (forall t, t ∈ cd_tuples d <-> t ∈ tuples) /\
  (forall a, a ∈ cd_attributes d <-> a ∈ attributes).
Proof.
  unfold NewContextualData.
  destruct ((MaxContextualTuples <? zlen tuples) || (MaxContextualAttributes <? zlen attributes)) eqn:El; [done|].
  apply orb_false_iff in El as [L1%Z.ltb_ge L2%Z.ltb_ge].
  intros H. apply rbind_ok in H as (b & Hb & H).
  destruct (forallb RelationshipTuple_valid tuples) eqn:Ht; [|done].
  destruct (forallb Attribute_valid attributes) eqn:Ha; [|done]. cbn [negb] in H.
  apply rbind_ok in H as (ts & Ets & H). apply rbind_ok in H as (ats & Eats & [= <-]).
  assert (Hc : contextualDataCost (mkContextualData tuples attributes) <= MaxAggregateInputBytes).
  { apply Z.leb_le. rewrite <- (costs_fits _ _ _ _ addContextualDataCost_costs); [by rewrite Hb|by vm_compute]. }
  assert (S1 := canonicalRelationshipTuples_Ok _ _ Ets). assert (S2 := canonicalAttributes_Ok _ _ Eats).
  destruct S1 as (S1 & M1 & F1), S2 as (S2 & M2 & F2). cbn [cd_tuples cd_attributes].
  split; [|done]. unfold ContextualData_valid. cbn [cd_tuples cd_attributes].
  assert (U1 := canonical_submseteq _ _ _ S1 M1). assert (U2 := canonical_submseteq _ _ _ S2 M2).
  destruct (canonical_zlen _ _ U1 M1) as [Z1 _]. destruct (canonical_zlen _ _ U2 M2) as [Z2 _].
  destruct (Z.ltb_spec MaxContextualTuples (zlen ts)); [lia|].
  destruct (Z.ltb_spec MaxContextualAttributes (zlen ats)); [lia|]. cbn [orb].
  rewrite (costs_fits _ _ _ _ addContextualDataCost_costs) by (by vm_compute).
  apply (sum_cost_submseteq relationshipTupleCost) in U1; [|intros; solve_nonneg].
  apply (sum_cost_submseteq attributeCost) in U2; [|intros; solve_nonneg].
  unfold contextualDataCost in *. cbn [cd_tuples cd_attributes] in *.
  replace (_ <=? MaxAggregateInputBytes) with true by (symmetry; apply Z.leb_le; lia). cbn [negb].
  assert (V1 : forallb RelationshipTuple_valid ts = true) by (eapply forallb_elem; [apply M1|done]).
  assert (V2 : forallb Attribute_valid ats = true) by (eapply forallb_elem; [apply M2|done]).
  assert (C1 : canonicalRelationshipTuples ts = Ok ts).
  { apply (canonical_id _ compareTuplePairs _ _ _ compareRelationshipTuple_mono relationshipTuples_step _ S1).
    intros x y Hx Hy. apply F1; by apply M1. }
  assert (C2 : canonicalAttributes ats = Ok ats).
  { apply (canonical_id _ compareAttributeDeleteKey _ _ _ compareAttribute_mono attributes_step _ S2).
    intros x y Hx Hy. apply F2; by apply M2. }
  assert (A1 := proj2 (validCanonicalRelationshipTuples_iff ts) (conj V1 C1)).
  assert (A2 := proj2 (validCanonicalAttributes_iff ats) (conj V2 C2)).
  apply andb_true_iff in A1 as [_ A1], A2 as [_ A2]. rewrite V1, A1, V2. cbn [andb].
  eapply adjacent_impl; [|exact A2]. intros p v Hs. by apply andb_true_iff in Hs as [-> _].
Qed.

(** * Canonical identifier lists (validation.go) *)

Lemma identifiers_scan l : forall b, budget_ok b ->
  is_ok (foldM (fun b v => let? b' := add b (len v) in let? _ := validateIdentifier v in Ok b') b l) =
  (used b + sum_cost len l <=? max b) && forallb validIdentifier l.
Proof.
  induction l as [|v l IH]; intros b Hb; cbn [foldM sum_cost foldr forallb].
  { destruct Hb as [Hu _]. rewrite Z.add_0_r. cbn. by destruct (Z.leb_spec (used b) (max b)); [|lia]. }
  assert (Hl := len_nonneg v). rewrite add_charge by done.
  assert (Hs : 0 <= sum_cost len l) by (apply sum_cost_nonneg, len_nonneg). fold (sum_cost len l).
  destruct (charge b (len v)) as [b'|] eqn:Ec; cbn [rbind].
  - assert (Hb' := charge_ok _ _ _ Hb Hl Ec). apply charge_Ok_iff in Ec as [_ ->].
    unfold validIdentifier at 1. destruct (validateIdentifier v); cbn [rbind is_ok andb]; [|by rewrite andb_false_r].
    rewrite IH by done. cbn [used max]. by rewrite Z.add_assoc.
  - unfold charge in Ec. destruct (Z.leb_spec (used b + len v) (max b)); [done|].
    by destruct (Z.leb_spec (used b + (len v + sum_cost len l)) (max b)); [lia|].
Qed.

Lemma validCanonicalIdentifiers_iff values items bytes :
  0 <= bytes <= MaxInt64 ->
  validCanonicalIdentifiers values items bytes = true <->
  zlen values <= items /\ sum_cost len values <= bytes /\ forallb validIdentifier values = true /\
  StronglySorted (clt String.compare) values.
Proof.
  intros Hm. unfold validCanonicalIdentifiers.
  destruct (Z.ltb_spec items (zlen values)); [naive_solver lia|].
  rewrite identifiers_scan by (split; simpl; lia). cbn [used max]. rewrite Z.add_0_l, !andb_true_iff, Z.leb_le.
  rewrite <- (adjacent_strict String.compare). unfold str_lt. naive_solver.
Qed.

Lemma canonicalIdentifiers_Ok values items bytes l :
  0 <= bytes <= MaxInt64 ->
  canonicalIdentifiers values items bytes = Ok l ->
  validCanonicalIdentifiers l items bytes = true /\ (forall x, x ∈ l <-> x ∈ values) /\ l ⊆+ values.
Proof.
  intros Hm. unfold canonicalIdentifiers. destruct (Z.ltb_spec items (zlen values)); [done|].
  set (scan := foldM _ _ _). assert (Hscan : is_ok scan = _) by (apply identifiers_scan; split; simpl; lia).
  destruct scan as [b|]; [|done]. cbn [rbind]. symmetry in Hscan.
  cbn [used max] in Hscan. rewrite Z.add_0_l in Hscan. apply andb_true_iff in Hscan as [Hb%Z.leb_le Hv].
  destruct (compact_sorted_spec String.compare (sort_strings values) (sort_by_sorted _ _)) as (l' & E & Hs & Hin).
  unfold same_step in E. rewrite E. intros [= <-].
  assert (M : forall x, x ∈ l' <-> x ∈ values) by (intros x; rewrite Hin; apply sort_by_elem).
  assert (U := canonical_submseteq String.compare _ _ Hs M). destruct (canonical_zlen _ _ U M) as [Hz _].
  split; [|done]. apply validCanonicalIdentifiers_iff; [done|].
  split; [lia|]. split; [|split; [eapply forallb_elem; [apply M|done]|done]].
  apply (sum_cost_submseteq len) in U; [lia|apply len_nonneg].
Qed.

Lemma canonicalIdentifiers_id values items bytes :
  0 <= bytes <= MaxInt64 ->
  validCanonicalIdentifiers values items bytes = true -> canonicalIdentifiers values items bytes = Ok values.
Proof.
  intros Hm (Hl & Hb & Hv & Hs)%validCanonicalIdentifiers_iff; [|done]. unfold canonicalIdentifiers.
  destruct (Z.ltb_spec items (zlen values)); [lia|].
  set (scan := foldM _ _ _). assert (Hscan : is_ok scan = _) by (apply identifiers_scan; split; simpl; lia).
  cbn [used max] in Hscan. rewrite Z.add_0_l, Hv in Hscan.
  replace (sum_cost len values <=? bytes) with true in Hscan by (symmetry; by apply Z.leb_le).
  destruct scan; [|done]. cbn [rbind]. unfold sort_strings.
  rewrite (sort_by_id String.compare) by (by apply strict_sorted_le).
  apply (compact_id String.compare None values Hs). done.
Qed.
