(* ===== verification/Policy.v ===== *)
(** Policy identities, slots and page responses (policy.go).

    Constructors return [Ok] of the record they build; the [*_valid]
    predicates are the unexported re-validation methods the adapters and the
    shared core run on values they receive. *)

From Stdlib Require Import ZArith Lia Permutation Sorted.
From stdpp Require Import base list gmap strings sorting.
From S2P Require Import Prelude Limits Text Types Cost.

(** * Content-addressed revision identifiers *)

(** [sha256.Size] *)
Definition sha256_Size : Z := 32.

Definition NewSelector (slot exactRevision : string) : result Selector :=
  if Bool.eqb (bool_decide (slot = ""%string)) (bool_decide (exactRevision = ""%string))
  then Err ErrorInvalidArgument
  else
    let? _ := (if bool_decide (slot <> ""%string) then validateIdentifier slot else Ok tt) in
    if bool_decide (exactRevision <> ""%string) && negb (validRevisionIDString exactRevision)
    then Err ErrorInvalidArgument
    else Ok (mkSelector slot exactRevision).

Definition Selector_Slot (s : Selector) : string * bool :=
  (sel_slot s, bool_decide (sel_slot s <> ""%string) && bool_decide (sel_revisionID s = ""%string)).

Definition ExactRevision (s : Selector) : string * bool :=
  (sel_revisionID s,
   bool_decide (sel_revisionID s <> ""%string) && bool_decide (sel_slot s = ""%string)).

Definition Selector_valid (s : Selector) : bool :=
  if Bool.eqb (bool_decide (sel_slot s = ""%string)) (bool_decide (sel_revisionID s = ""%string))
  then false
  else (bool_decide (sel_slot s <> ""%string) && validIdentifier (sel_slot s))
       || (bool_decide (sel_revisionID s <> ""%string) && validRevisionIDString (sel_revisionID s)).

(** [encoding/hex]: lower-case encoding, and decoding of either case. *)
Definition hex_digit (n : Z) : Z := if n <? 10 then 48 + n else 87 + n.

Definition hex_encode (bs : list Z) : list Z :=
  flat_map (fun b => [hex_digit (b / 16); hex_digit (b mod 16)]) bs.

Definition hex_value (c : Z) : option Z :=
  if in_range 48 57 c then Some (c - 48)
  else if in_range 97 102 c then Some (c - 87)
  else if in_range 65 70 c then Some (c - 55)
  else None.

Fixpoint hex_decode (cs : list Z) : option (list Z) :=
  match cs with
  | [] => Some []
  | c1 :: c2 :: rest =>
      match hex_value c1, hex_value c2, hex_decode rest with
      | Some a, Some b, Some bs => Some (a * 16 + b :: bs)
      | _, _, _ => None
      end
  | _ => None
  end.

(** [strings.ToLower] on ASCII bytes. A string with any other byte is refused
    by the decoder whatever its lower-case form is. *)
Definition to_lower (b : Z) : Z := if in_range 65 90 b then b + 32 else b.

Definition ParseRevisionID (value : string) : result RevisionID :=
  let bs := bytes_of_string value in
  if negb (len value =? sha256_Size * 2) || bool_decide (bs <> map to_lower bs)
  then Err ErrorInvalidArgument
  else match hex_decode bs with
       | Some decoded =>
           if zlen decoded =? sha256_Size then Ok (mkRevisionID decoded true)
           else Err ErrorInvalidArgument
       | None => Err ErrorInvalidArgument
       end.

Definition RevisionID_String (id : RevisionID) : string :=
  if rid_valid id then string_of_bytes (hex_encode (rid_digest id)) else ""%string.

(** * Revision metadata and requests *)

Definition output_budget : budgetCounter := mkBudget 0 MaxAggregateOutputBytes.

Definition NewRevisionMetadata (namespace : string) (id : RevisionID) (publishedAt : Time)
  : result RevisionMetadata :=
  let raw := mkRevisionMetadata namespace id publishedAt in
  let? _ := addRevisionMetadataCost output_budget raw in
  let? _ := validateNamespace namespace in
  if negb (rid_valid id) || IsZero publishedAt then Err ErrorInvalidArgument else Ok raw.

Definition RevisionMetadata_ID (r : RevisionMetadata) : string := RevisionID_String (rm_id r).

Definition RevisionMetadata_valid (r : RevisionMetadata) : bool :=
  if negb (validNamespace (rm_namespace r)) || negb (rid_valid (rm_id r)) || IsZero (rm_publishedAt r)
  then false else is_ok (addRevisionMetadataCost output_budget r).

Definition NewPublishRequest (namespace sourceName : string) (source : list Z) : result PublishRequest :=
  if zlen source =? 0 then Err ErrorInvalidArgument
  else if MaxPolicySourceBytes <? zlen source then Err ErrorResourceExhausted
  else
    let? _ := addPublishRequestCost (mkBudget 0 MaxAggregateInputBytes) namespace sourceName source in
    let? _ := validateNamespace namespace in
    let? _ := validateText sourceName MaxSourceNameBytes false in
    Ok (mkPublishRequest namespace sourceName source).

Definition PublishRequest_valid (r : PublishRequest) : bool :=
  if negb (validNamespace (pub_namespace r))
     || negb (is_ok (validateText (pub_sourceName r) MaxSourceNameBytes false))
     || (zlen (pub_source r) =? 0) || (MaxPolicySourceBytes <? zlen (pub_source r))
  then false
  else is_ok (addPublishRequestCost (mkBudget 0 MaxAggregateInputBytes)
                (pub_namespace r) (pub_sourceName r) (pub_source r)).

Definition NewPublishResponse (revision : RevisionMetadata) (created : bool)
  : result (RevisionMetadata * bool) :=
  if RevisionMetadata_valid revision then Ok (revision, created) else Err ErrorInvalidArgument.

Definition NewGetRevisionResponse (revision : RevisionMetadata) : result RevisionMetadata :=
  if RevisionMetadata_valid revision then Ok revision else Err ErrorInvalidArgument.

Definition NewGetRevisionRequest (namespace revisionID : string) : result GetRevisionRequest :=
  let? _ := validateNamespace namespace in
  if validRevisionIDString revisionID then Ok (mkGetRevisionRequest namespace revisionID)
  else Err ErrorInvalidArgument.

Definition NewListRevisionsRequest (namespace cursor : string) (limit : Z) : result ListRevisionsRequest :=
  if limit <=? 0 then Err ErrorInvalidArgument
  else
    let? _ := validateNamespace namespace in
    let? _ := validateOptionalIdentifier cursor in
    if MaxPageRequestItems <? limit then Err ErrorResourceExhausted
    else Ok (mkListRevisionsRequest namespace cursor limit).

Definition ListRevisionsRequest_valid (r : ListRevisionsRequest) : bool :=
  validNamespace (lr_namespace r) && is_ok (validateOptionalIdentifier (lr_cursor r))
  && (0 <? lr_limit r) && (lr_limit r <=? MaxPageRequestItems).

(** The loop of [validRevisionPage]: [previous] is [revisions[index-1]] and
    [seen] the identifiers met so far. *)
Fixpoint revision_page_loop (namespace : string) (previous : option RevisionMetadata)
  (seen : gset string) (revisions : list RevisionMetadata) : bool :=
  match revisions with
  | [] => true
  | revision :: rest =>
      let id := RevisionMetadata_ID revision in
      RevisionMetadata_valid revision && bool_decide (rm_namespace revision = namespace)
      && negb (bool_decide (id ∈ seen))
      && match previous with
         | None => true
         | Some p =>
             negb ((rm_publishedAt revision <? rm_publishedAt p)
                   || ((rm_publishedAt p =? rm_publishedAt revision)
                       && negb (str_lt (RevisionMetadata_ID p) id)))
         end
      && revision_page_loop namespace (Some revision) ({[id]} ∪ seen) rest
  end.

Definition validRevisionPage (request : ListRevisionsRequest) (revisions : list RevisionMetadata) : bool :=
  revision_page_loop (lr_namespace request) None ∅ revisions.

Definition NewListRevisionsResponse (request : ListRevisionsRequest)
  (revisions : list RevisionMetadata) (nextCursor : string) : result ListRevisionsResponse :=
  if negb (ListRevisionsRequest_valid request) then Err ErrorInvalidArgument
  else if (lr_limit request <? zlen revisions) || (MaxPageResponseItems <? zlen revisions)
  then Err ErrorResourceExhausted
  else
    let? _ := addRevisionPageCost output_budget revisions nextCursor in
    let? _ := validateOptionalIdentifier nextCursor in
    if validRevisionPage request revisions
    then Ok (mkListRevisionsResponse true request revisions nextCursor)
    else Err ErrorInvalidArgument.

Definition ListRevisionsResponse_valid (r : ListRevisionsResponse) : bool :=
  if negb (lrr_validResponse r) || negb (ListRevisionsRequest_valid (lrr_request r))
     || (lr_limit (lrr_request r) <? zlen (lrr_revisions r))
     || (MaxPageResponseItems <? zlen (lrr_revisions r))
     || negb (is_ok (validateOptionalIdentifier (lrr_nextCursor r)))
  then false
  else is_ok (addRevisionPageCost output_budget (lrr_revisions r) (lrr_nextCursor r))
       && validRevisionPage (lrr_request r) (lrr_revisions r).

(** * Slots and activations *)

Definition NewUnsetSlotExpectation : SlotExpectation := mkSlotExpectation slotExpectationUnset "" 0.

Definition NewActiveSlotExpectation (revisionID : string) (generation : Z) : result SlotExpectation :=
  if negb (validRevisionIDString revisionID) || (generation =? 0) then Err ErrorInvalidArgument
  else Ok (mkSlotExpectation slotExpectationActive revisionID generation).

Definition IsUnset (e : SlotExpectation) : bool :=
  (se_kind e =? slotExpectationUnset) && bool_decide (se_revisionID e = ""%string)
  && (se_generation e =? 0).

Definition Active (e : SlotExpectation) : string * Z * bool :=
  (se_revisionID e, se_generation e,
   (se_kind e =? slotExpectationActive) && bool_decide (se_revisionID e <> ""%string)
   && (0 <? se_generation e)).

Definition SlotExpectation_valid (e : SlotExpectation) : bool :=
  if IsUnset e then true
  else let '(revisionID, _, active) := Active e in active && validRevisionIDString revisionID.

Definition NewActivateRequest (namespace slot targetRevisionID : string)
  (expectation : SlotExpectation) : result ActivateRequest :=
  let? _ := validateNamespace namespace in
  let? _ := validateIdentifier slot in
  if negb (validRevisionIDString targetRevisionID) || negb (SlotExpectation_valid expectation)
  then Err ErrorInvalidArgument
  else Ok (mkActivateRequest namespace slot targetRevisionID expectation).

Definition NewActivation (namespace slot revisionID : string) (generation : Z) (activatedAt : Time)
  : result Activation :=
  let raw := mkActivation namespace slot revisionID generation activatedAt in
  let? _ := addActivationCost output_budget raw in
  let? _ := validateNamespace namespace in
  let? _ := validateIdentifier slot in
  if negb (validRevisionIDString revisionID) || (generation =? 0) || IsZero activatedAt
  then Err ErrorInvalidArgument else Ok raw.

Definition Activation_valid (a : Activation) : bool :=
  if negb (validNamespace (act_namespace a)) || negb (validIdentifier (act_slot a))
     || negb (validRevisionIDString (act_revisionID a)) || (act_generation a =? 0)
     || IsZero (act_activatedAt a)
  then false else is_ok (addActivationCost output_budget a).

Definition NewActivateResponse (activation : Activation) : result ActivateResponse :=
  if Activation_valid activation then Ok (mkActivateResponse activation) else Err ErrorInvalidArgument.

Definition NewResolveRequest (namespace slot : string) : result ResolveRequest :=
  let? _ := validateNamespace namespace in
  let? _ := validateIdentifier slot in
  Ok (mkResolveRequest namespace slot).

Definition NewResolveResponse (activation : Activation) : result ResolveResponse :=
  if Activation_valid activation then Ok (mkResolveResponse activation) else Err ErrorInvalidArgument.

Definition NewListActivationHistoryRequest (namespace slot cursor : string) (limit : Z)
  : result ListActivationHistoryRequest :=
  if limit <=? 0 then Err ErrorInvalidArgument
  else
    let? _ := validateNamespace namespace in
    let? _ := validateIdentifier slot in
    let? _ := validateOptionalIdentifier cursor in
    if MaxPageRequestItems <? limit then Err ErrorResourceExhausted
    else Ok (mkListActivationHistoryRequest namespace slot cursor limit).

Definition ListActivationHistoryRequest_valid (r : ListActivationHistoryRequest) : bool :=
  validNamespace (lh_namespace r) && validIdentifier (lh_slot r)
  && is_ok (validateOptionalIdentifier (lh_cursor r))
  && (0 <? lh_limit r) && (lh_limit r <=? MaxPageRequestItems).

(** [previousGeneration] is [None] at index 0. *)
Fixpoint history_page_loop (namespace slot : string) (previousGeneration : option Z)
  (activations : list Activation) : bool :=
  match activations with
  | [] => true
  | a :: rest =>
      Activation_valid a && bool_decide (act_namespace a = namespace) && bool_decide (act_slot a = slot)
      && match previousGeneration with None => true | Some g => negb (act_generation a <=? g) end
      && history_page_loop namespace slot (Some (act_generation a)) rest
  end.

Definition validActivationHistoryPage (request : ListActivationHistoryRequest)
  (activations : list Activation) : bool :=
  history_page_loop (lh_namespace request) (lh_slot request) None activations.

Definition NewListActivationHistoryResponse (request : ListActivationHistoryRequest)
  (activations : list Activation) (nextCursor : string) : result ListActivationHistoryResponse :=
  if negb (ListActivationHistoryRequest_valid request) then Err ErrorInvalidArgument
  else if (lh_limit request <? zlen activations) || (MaxPageResponseItems <? zlen activations)
  then Err ErrorResourceExhausted
  else
    let? _ := addActivationHistoryPageCost output_budget activations nextCursor in
    let? _ := validateOptionalIdentifier nextCursor in
    if validActivationHistoryPage request activations
    then Ok (mkListActivationHistoryResponse true request activations nextCursor)
    else Err ErrorInvalidArgument.

Definition ListActivationHistoryResponse_valid (r : ListActivationHistoryResponse) : bool :=
  if negb (lhr_validResponse r) || negb (ListActivationHistoryRequest_valid (lhr_request r))
     || (lh_limit (lhr_request r) <? zlen (lhr_activations r))
     || (MaxPageResponseItems <? zlen (lhr_activations r))
     || negb (is_ok (validateOptionalIdentifier (lhr_nextCursor r)))
  then false
  else is_ok (addActivationHistoryPageCost output_budget (lhr_activations r) (lhr_nextCursor r))
       && validActivationHistoryPage (lhr_request r) (lhr_activations r).

(** * Facts about identifiers *)

Definition lower_hex (c : Z) : bool := in_range 48 57 c || in_range 97 102 c.

Definition revision_wf (id : RevisionID) : Prop :=
  rid_valid id = true /\ zlen (rid_digest id) = sha256_Size /\ Forall is_byte (rid_digest id).

Lemma hex_digit_value n : 0 <= n < 16 -> hex_value (hex_digit n) = Some n /\ lower_hex (hex_digit n) = true.
Proof.
  intros Hn. unfold hex_value, hex_digit, lower_hex, in_range.
  destruct (Z.ltb_spec n 10); simpl;
    (split; [repeat (case_match; try lia; try (f_equal; lia))|lia]).
Qed.

Lemma hex_value_lower c : lower_hex c = true -> exists n, hex_value c = Some n /\ 0 <= n < 16 /\ hex_digit n = c.
Proof.
  unfold hex_value, hex_digit, lower_hex, in_range. intros H.
  destruct ((48 <=? c) && (c <=? 57)) eqn:E.
  - exists (c - 48). split; [done|]. split; [lia|]. destruct (Z.ltb_spec (c - 48) 10); lia.
  - simpl in H. rewrite H. exists (c - 87). split; [done|]. split; [lia|].
    destruct (Z.ltb_spec (c - 87) 10); lia.
Qed.

Lemma hex_encode_lower bs : Forall is_byte bs -> forallb lower_hex (hex_encode bs) = true.
Proof.
  induction 1 as [|b bs Hb H IH]; [done|]. cbn [hex_encode flat_map app forallb].
  unfold is_byte in Hb.
  rewrite (proj2 (hex_digit_value (b / 16) ltac:(dlia))), (proj2 (hex_digit_value (b mod 16) ltac:(dlia))).
  exact IH.
Qed.

Lemma hex_encode_length bs : length (hex_encode bs) = (2 * length bs)%nat.
Proof. induction bs as [|b bs IH]; [done|]. cbn [hex_encode flat_map app length]. fold (hex_encode bs). lia. Qed.

Lemma hex_decode_encode bs : Forall is_byte bs -> hex_decode (hex_encode bs) = Some bs.
Proof.
  induction 1 as [|b bs Hb H IH]; [done|].
  cbn [hex_encode flat_map app hex_decode]. fold (hex_encode bs). unfold is_byte in Hb.
  rewrite (proj1 (hex_digit_value (b / 16) ltac:(dlia))), (proj1 (hex_digit_value (b mod 16) ltac:(dlia))), IH.
  do 2 f_equal. dlia.
Qed.

Lemma hex_encode_decode n : forall cs, (length cs <= n)%nat -> forallb lower_hex cs = true ->
  Nat.even (length cs) = true ->
  exists bs, hex_decode cs = Some bs /\ hex_encode bs = cs /\ Forall is_byte bs.
Proof.
  induction n as [|n IH]; intros [|c1 [|c2 cs]] Hn Hl He; simpl in Hn; try lia; try done;
    try (exists []; repeat split; constructor).
  cbn [forallb] in Hl. apply andb_true_iff in Hl as [H1 [H2 H3]%andb_true_iff].
  destruct (IH cs) as (bs & D & E & B); [lia|done|done|].
  apply hex_value_lower in H1 as (a & V1 & R1 & G1), H2 as (b & V2 & R2 & G2).
  exists (a * 16 + b :: bs). cbn [hex_decode]. rewrite V1, V2, D. split; [done|].
  cbn [hex_encode flat_map app]. fold (hex_encode bs). rewrite E.
  replace ((a * 16 + b) / 16) with a by dlia. replace ((a * 16 + b) mod 16) with b by dlia.
  rewrite G1, G2. split; [done|]. constructor; [unfold is_byte; lia|done].
Qed.

Lemma to_lower_fixed bs : forallb lower_hex bs = true -> map to_lower bs = bs.
Proof.
  induction bs as [|b bs IH]; [done|]. cbn [forallb map]. intros [Hb H]%andb_true_iff.
  rewrite IH by done. f_equal. unfold to_lower, lower_hex, in_range in *.
  destruct ((65 <=? b) && (b <=? 90)) eqn:E; [lia|done].
Qed.

(** Canonical lower-case input that decodes is lower-case hexadecimal. *)
Lemma hex_decode_lower n : forall cs bs, (length cs <= n)%nat -> hex_decode cs = Some bs ->
  map to_lower cs = cs -> forallb lower_hex cs = true.
Proof.
  assert (Hv : forall c v, hex_value c = Some v -> to_lower c = c -> lower_hex c = true).
  { unfold hex_value, to_lower, lower_hex, in_range. intros c v. repeat (case_match; try done); lia. }
  induction n as [|n IH]; intros [|c1 [|c2 cs]] bs Hn Hd Hl; simpl in Hn; try lia; try done.
  cbn [hex_decode] in Hd.
  destruct (hex_value c1) eqn:E1; [|done]. destruct (hex_value c2) eqn:E2; [|done].
  destruct (hex_decode cs) eqn:E3; [|done]. cbn [map] in Hl. injection Hl as L1 L2 L3.
  cbn [forallb]. rewrite (Hv _ _ E1 L1), (Hv _ _ E2 L2). simpl. eapply IH; eauto. lia.
Qed.

Lemma validRevisionIDString_hex s :
  validRevisionIDString s = true <-> len s = 64 /\ forallb lower_hex (bytes_of_string s) = true.
Proof. unfold validRevisionIDString. by rewrite andb_true_iff, Z.eqb_eq. Qed.

Lemma lower_hex_bytes cs : forallb lower_hex cs = true -> Forall is_byte cs.
Proof.
  intros H. apply Forall_forall. intros c Hc. rewrite forallb_forall in H.
  specialize (H c (proj1 (list_elem_of_In _ _) Hc)). unfold lower_hex, in_range, is_byte in *. lia.
Qed.

Lemma RevisionID_String_valid id :
  revision_wf id -> validRevisionIDString (RevisionID_String id) = true.
Proof.
  intros (Hv & Hl & Hb). apply validRevisionIDString_hex. unfold RevisionID_String. rewrite Hv.
  assert (H := hex_encode_lower _ Hb). assert (B := lower_hex_bytes _ H).
  rewrite <- zlen_bytes_of_string, bytes_of_string_of_bytes by done. split; [|done].
  unfold zlen, sha256_Size in *. rewrite hex_encode_length. lia.
Qed.

Lemma ParseRevisionID_Ok s id :
  ParseRevisionID s = Ok id -> validRevisionIDString s = true /\ revision_wf id /\ RevisionID_String id = s.
Proof.
  unfold ParseRevisionID. destruct (Z.eqb_spec (len s) (sha256_Size * 2)) as [Hl|]; [|done]. simpl.
  destruct (bool_decide_reflect (bytes_of_string s <> map to_lower (bytes_of_string s))) as [|Hlow]; [done|].
  apply dec_stable in Hlow. destruct (hex_decode _) as [bs|] eqn:Hd; [|done].
  destruct (Z.eqb_spec (zlen bs) sha256_Size) as [Hz|]; [|done]. intros [= <-].
  assert (Hx := hex_decode_lower _ _ _ (le_n _) Hd (eq_sym Hlow)).
  assert (He : Nat.even (length (bytes_of_string s)) = true).
  { rewrite length_bytes_of_string. unfold len, sha256_Size in Hl.
    by replace (String.length s) with 64%nat by lia. }
  destruct (hex_encode_decode _ _ (le_n _) Hx He) as (bs' & Hd' & E & B).
  rewrite Hd in Hd'. injection Hd' as <-. repeat split; auto.
  - apply validRevisionIDString_hex. split; [|done]. exact Hl.
  - unfold RevisionID_String. simpl. by rewrite E, string_of_bytes_of_string.
Qed.

Lemma ParseRevisionID_String id : revision_wf id -> ParseRevisionID (RevisionID_String id) = Ok id.
Proof.
  intros Hwf. assert (Hv := RevisionID_String_valid id Hwf). destruct Hwf as (Hvalid & Hl & Hb).
  apply validRevisionIDString_hex in Hv as [Hlen Hlow]. unfold ParseRevisionID.
  rewrite Hlen, to_lower_fixed by done. simpl. rewrite bool_decide_eq_false_2 by (by intros []).
  unfold RevisionID_String. rewrite Hvalid.
  rewrite bytes_of_string_of_bytes by (by apply lower_hex_bytes, hex_encode_lower).
  rewrite hex_decode_encode, Hl by done. simpl. destruct id; simpl in *; by subst.
Qed.

(** Revision identifiers round-trip: [String] of every well-formed digest
    parses back to it, [ParseRevisionID] answers only digests whose [String]
    is the input, and it accepts exactly the strings that the request
    validators accept as revision identifiers. *)
Lemma revision_id_roundtrip :
  (forall id, revision_wf id -> ParseRevisionID (RevisionID_String id) = Ok id) /\
  (forall s id, ParseRevisionID s = Ok id -> revision_wf id /\ RevisionID_String id = s) /\
  (forall s, is_ok (ParseRevisionID s) = validRevisionIDString s).
Proof.
  split; [exact ParseRevisionID_String|]. split.
  { intros s id H. apply ParseRevisionID_Ok in H. tauto. }
  intros s. apply eq_true_iff_eq. rewrite is_ok_true. split.
  { intros [id H]. apply ParseRevisionID_Ok in H. tauto. }
  intros Hv. assert (Hh := Hv). apply validRevisionIDString_hex in Hh as [Hl Hh].
  destruct (hex_encode_decode _ (bytes_of_string s) (le_n _) Hh) as (bs & D & E & B).
  { rewrite length_bytes_of_string. unfold len in Hl. by replace (String.length s) with 64%nat by lia. }
  assert (Hz : zlen bs = sha256_Size).
  { assert (L := hex_encode_length bs). rewrite E, length_bytes_of_string in L.
    unfold zlen, len, sha256_Size in *. lia. }
  exists (mkRevisionID bs true). rewrite <- (ParseRevisionID_String (mkRevisionID bs true)) by done.
  f_equal. unfold RevisionID_String. simpl. by rewrite E, string_of_bytes_of_string.
Qed.

(** * Facts about pages *)

(** Publication order: time, then identifier. *)
Definition published_before (a b : RevisionMetadata) : Prop :=
  rm_publishedAt a < rm_publishedAt b \/
  (rm_publishedAt a = rm_publishedAt b /\
   String.compare (RevisionMetadata_ID a) (RevisionMetadata_ID b) = Lt).

#[global] Instance published_before_trans : Transitive published_before.
Proof.
  intros a b c [H1|[E1 H1]] [H2|[E2 H2]]; unfold published_before; try (left; lia).
  right. split; [lia|]. exact (tc_trans String.compare _ _ _ H1 H2).
Qed.

Lemma published_check p r :
  negb ((rm_publishedAt r <? rm_publishedAt p)
        || ((rm_publishedAt p =? rm_publishedAt r)
            && negb (str_lt (RevisionMetadata_ID p) (RevisionMetadata_ID r)))) = true <->
  published_before p r.
Proof.
  assert (Hs : forall a b, str_lt a b = true <-> String.compare a b = Lt).
  { intros a b. unfold str_lt. by destruct (String.compare a b). }
  unfold published_before.
  rewrite negb_true_iff, orb_false_iff, andb_false_iff, Z.ltb_ge, Z.eqb_neq, negb_false_iff, Hs.
  destruct (decide (rm_publishedAt p = rm_publishedAt r)); intuition lia.
Qed.

Lemma revision_page_loop_spec namespace revisions : forall previous seen,
  revision_page_loop namespace previous seen revisions = true <->
  Forall (fun r => RevisionMetadata_valid r = true /\ rm_namespace r = namespace) revisions /\
  NoDup (RevisionMetadata_ID <$> revisions) /\
  (forall r, r ∈ revisions -> RevisionMetadata_ID r ∉ seen) /\
  StronglySorted published_before (option_list previous ++ revisions).
Proof.
  induction revisions as [|r rest IH]; intros previous seen.
  { cbn. split; [|done]. intros _. split; [constructor|]. split; [constructor|]. split.
    - intros r Hr. by apply elem_of_nil in Hr.
    - destruct previous; simpl; repeat constructor. }
  cbn [revision_page_loop fmap list_fmap]. rewrite !andb_true_iff, IH. clear IH.
  rewrite bool_decide_eq_true, negb_true_iff, bool_decide_eq_false.
  assert (Hmid : StronglySorted published_before (option_list previous ++ r :: rest) <->
    match previous with None => true | Some p => negb ((rm_publishedAt r <? rm_publishedAt p)
      || ((rm_publishedAt p =? rm_publishedAt r)
          && negb (str_lt (RevisionMetadata_ID p) (RevisionMetadata_ID r)))) end = true /\
    StronglySorted published_before (r :: rest)).
  { destruct previous as [p|]; simpl; [|naive_solver]. rewrite published_check. split.
    - intros H. inversion_clear H as [|? ? H1 H2]. by inversion_clear H2.
    - intros [Hp Hs]. constructor; [done|]. constructor; [done|].
      inversion_clear Hs as [|? ? _ Hr]. eapply Forall_impl; [exact Hr|]. intros x Hx. by transitivity r. }
  rewrite Hmid, NoDup_cons, Forall_cons. simpl. split.
  - intros ((((Hv & Hn) & Hseen) & Hp) & Hall & Hnd & Hnew & Hs). repeat split; auto.
    + intros (y & E & Hy)%list_elem_of_fmap. apply (Hnew y Hy). rewrite E. set_solver.
    + intros x [->|Hx]%elem_of_cons; [done|]. intros Hin. apply (Hnew x Hx). set_solver.
  - intros (([Hv Hn] & Hall) & (Hnin & Hnd) & Hnew & Hp & Hs). repeat split; auto.
    + apply Hnew. left.
    + intros x Hx [E%elem_of_singleton|Hin]%elem_of_union.
      * apply Hnin. rewrite <- E. apply list_elem_of_fmap. eauto.
      * eapply (Hnew x); [by right|done].
Qed.

(** A revision page is accepted exactly when every entry is valid and of
    the requested namespace, no identifier repeats, and the whole page is
    strictly ordered by publication time and then identifier, although the
    source only compares neighbours. *)
Lemma validRevisionPage_exact request revisions :
  validRevisionPage request revisions = true <->
  Forall (fun r => RevisionMetadata_valid r = true /\ rm_namespace r = lr_namespace request) revisions /\
  NoDup (RevisionMetadata_ID <$> revisions) /\ StronglySorted published_before revisions.
Proof.
  unfold validRevisionPage. rewrite revision_page_loop_spec. simpl.
  split; [tauto|]. intros (H1 & H2 & H3). repeat split; auto. intros r _. set_solver.
Qed.

Lemma history_page_loop_spec namespace slot activations : forall previous,
  history_page_loop namespace slot previous activations = true <->
  Forall (fun a => Activation_valid a = true /\ act_namespace a = namespace /\ act_slot a = slot) activations /\
  StronglySorted Z.lt (option_list previous ++ (act_generation <$> activations)).
Proof.
  induction activations as [|a rest IH]; intros previous.
  { cbn. split; [|done]. intros _. split; [constructor|]. destruct previous; repeat constructor. }
  cbn [history_page_loop fmap list_fmap]. rewrite !andb_true_iff, IH, !bool_decide_eq_true, Forall_cons.
  clear IH. assert (Hmid : StronglySorted Z.lt (option_list previous ++ act_generation a :: (act_generation <$> rest)) <->
    match previous with None => true | Some g => negb (act_generation a <=? g) end = true /\
    StronglySorted Z.lt (act_generation a :: (act_generation <$> rest))).
  { destruct previous as [g|]; simpl; [|naive_solver]. rewrite negb_true_iff, Z.leb_gt. split.
    - intros H. inversion_clear H as [|? ? H1 H2]. by inversion_clear H2.
    - intros [Hp Hs]. constructor; [done|]. constructor; [done|].
      inversion_clear Hs as [|? ? _ Hr]. eapply Forall_impl; [exact Hr|]. simpl. lia. }
  cbn [fmap list_fmap] in Hmid. rewrite Hmid. cbn [option_list app]. tauto.
Qed.

(** A constructor and the re-validation of its result agree. *)
Lemma NewActivation_valid a :
  (exists a', NewActivation (act_namespace a) (act_slot a) (act_revisionID a) (act_generation a)
     (act_activatedAt a) = Ok a') <-> Activation_valid a = true.
Proof.
  unfold NewActivation, Activation_valid, validNamespace, validIdentifier. destruct a as [ns sl id g t]; simpl.
  destruct (addActivationCost _ _); simpl.
  - destruct (validateNamespace ns); simpl; [|naive_solver].
    destruct (validateIdentifier sl); simpl; [|naive_solver].
    destruct (_ || _ || _); simpl; naive_solver.
  - destruct (_ || _ || _ || _); simpl; naive_solver.
Qed.

Lemma NewActivation_Ok ns sl id g t a :
  NewActivation ns sl id g t = Ok a -> a = mkActivation ns sl id g t /\ Activation_valid a = true.
Proof.
  intros H. assert (E : a = mkActivation ns sl id g t).
  { unfold NewActivation in H. repeat (apply rbind_ok in H as (? & ? & H)).
    destruct (_ || _ || _); [done|]. by injection H as <-. }
  split; [done|]. subst. apply NewActivation_valid. eauto.
Qed.

Lemma NewRevisionMetadata_Ok ns id t r :
  NewRevisionMetadata ns id t = Ok r -> r = mkRevisionMetadata ns id t /\ RevisionMetadata_valid r = true.
Proof.
  unfold NewRevisionMetadata, RevisionMetadata_valid, validNamespace. intros H.
  apply rbind_ok in H as (b & Hc & H). apply rbind_ok in H as ([] & Hn & H).
  destruct (negb (rid_valid id) || IsZero t) eqn:E; [done|]. injection H as <-.
  apply orb_false_iff in E as [E1 E2]. split; [done|].
  cbn [rm_namespace rm_id rm_publishedAt]. by rewrite Hn, E1, E2, Hc.
Qed.
