(* ===== verification/Caller.v ===== *)
(** Callers, grants and the capability check (caller.go).

    An authorizer of the embedding application maps an authenticated caller
    to namespace-scoped grants. [AuthorizeCaller] is the only gate in front
    of every service: the theorem at the end says exactly when it opens. *)

From Stdlib Require Import ZArith Lia Permutation Sorted.
From stdpp Require Import base list gmap strings sorting.
From S2P Require Import Prelude Limits Text Types Invocation Cost Canon Data.

(** * Capabilities *)

Definition CapabilityPolicyRead : Capability := "policy.read".
Definition CapabilityPolicyPublish : Capability := "policy.publish".
Definition CapabilityPolicyActivate : Capability := "policy.activate".
Definition CapabilityAuthorizationCheck : Capability := "authorization.check".
Definition CapabilityAuthorizationContextualData : Capability := "authorization.contextual_data".
Definition CapabilityAuthorizationExplicitRevision : Capability := "authorization.explicit_revision".
Definition CapabilityAuthorizationExplain : Capability := "authorization.explain".
Definition CapabilityDataWrite : Capability := "data.write".
Definition CapabilityEventsRead : Capability := "events.read".
Definition CapabilitySystemStatus : Capability := "system.status".

(** The cases of the switch in [capabilityRank], in order. *)
Definition all_capabilities : list Capability :=
  [CapabilityPolicyRead; CapabilityPolicyPublish; CapabilityPolicyActivate;
   CapabilityAuthorizationCheck; CapabilityAuthorizationContextualData;
   CapabilityAuthorizationExplicitRevision; CapabilityAuthorizationExplain;
   CapabilityDataWrite; CapabilityEventsRead; CapabilitySystemStatus].

Fixpoint rank_from (n : Z) (cases : list Capability) (capability : Capability) : Z :=
  match cases with
  | [] => -1
  | c :: rest => if bool_decide (capability = c) then n else rank_from (n + 1) rest capability
  end.

Definition capabilityRank (capability : Capability) : Z := rank_from 0 all_capabilities capability.

Definition Capability_valid (c : Capability) : bool := 0 <=? capabilityRank c.

Definition rankLess (left right : Capability) : bool := capabilityRank left <? capabilityRank right.

(** The set is ranged over in an unspecified order; [canonical_order] below
    shows that sorting by rank makes the result independent of it. *)
Definition canonicalCapabilities (capabilities : list Capability) : result (list Capability) :=
  if negb (forallb Capability_valid capabilities) then Err ErrorInvalidArgument
  else Ok (sort_by (less_cmp rankLess) (elements (list_to_set capabilities : gset string))).

(** * Callers *)

(** The validation loop over the attributes, in map iteration order. *)
Definition validateCallerAttributes (attributes : list (string * string)) : result unit :=
  foldM (fun _ kv =>
    let? _ := validateIdentifier kv.1 in
    validateText kv.2 MaxIdentifierBytes true) tt attributes.

Definition NewCaller (id : string) (attributes : gmap string string) : result Caller :=
  if MaxCallerAttributes <? Z.of_nat (base.size attributes) then Err ErrorResourceExhausted
  else
    let? _ := addCallerCost (mkBudget 0 MaxAggregateInputBytes) id (map_to_list attributes) in
    let? _ := validateIdentifier id in
    let? _ := validateCallerAttributes (map_to_list attributes) in
    Ok (mkCaller id attributes).

Definition Caller_valid (c : Caller) : bool :=
  if negb (validIdentifier (caller_id c))
     || (MaxCallerAttributes <? Z.of_nat (base.size (caller_attributes c))) then false
  else if negb (forallb (fun kv => negb (negb (validIdentifier kv.1)
                   || negb (is_ok (validateText kv.2 MaxIdentifierBytes true))))
                 (map_to_list (caller_attributes c))) then false
  else is_ok (addCallerCost (mkBudget 0 MaxAggregateInputBytes) (caller_id c)
                (map_to_list (caller_attributes c))).

(** * Grants *)

Definition validNamespacePattern (pattern : string) : bool := is_ok (validateNamespacePattern pattern).

Definition NewGrant (namespacePattern : string) (capabilities : list Capability) : result Grant :=
  if zlen capabilities =? 0 then Err ErrorInvalidArgument
  else if MaxCapabilitiesPerGrant <? zlen capabilities then Err ErrorResourceExhausted
  else
    let? _ := addGrantCost (mkBudget 0 MaxAggregateInputBytes) (mkGrant namespacePattern capabilities) in
    let? _ := validateNamespacePattern namespacePattern in
    let? canonical := canonicalCapabilities capabilities in
    Ok (mkGrant namespacePattern canonical).

(** [strings.TrimSuffix(s, "*")] of a string that ends in it. *)
Fixpoint trim_last (s : string) : string :=
  match s with
  | EmptyString => EmptyString
  | String _ EmptyString => EmptyString
  | String a s' => String a (trim_last s')
  end.

Definition MatchesNamespace (g : Grant) (namespace : string) : bool :=
  if negb (validNamespace namespace) || negb (validNamespacePattern (grant_pattern g)) then false
  else if bool_decide (grant_pattern g = "*"%string) then true
  else if has_star_suffix (grant_pattern g)
       then String.prefix (trim_last (grant_pattern g)) namespace
       else bool_decide (namespace = grant_pattern g).

Definition Grant_valid (g : Grant) : bool :=
  if negb (validNamespacePattern (grant_pattern g)) || (zlen (grant_capabilities g) =? 0)
     || (MaxCapabilitiesPerGrant <? zlen (grant_capabilities g)) then false
  else if negb (forallb Capability_valid (grant_capabilities g)
                && adjacent (fun p c => negb (capabilityRank c <=? capabilityRank p)) (grant_capabilities g))
  then false
  else is_ok (addGrantCost (mkBudget 0 MaxAggregateInputBytes) g).

(** * Authorizations *)

Definition grantLess (left right : Grant) : bool :=
  let leftWildcard := has_star_suffix (grant_pattern left) in
  let rightWildcard := has_star_suffix (grant_pattern right) in
  if negb (Bool.eqb leftWildcard rightWildcard) then negb leftWildcard
  else str_lt (grant_pattern left) (grant_pattern right).

(** The loop of [NewCallerAuthorization]: [patterns] are the patterns met. *)
Fixpoint grants_loop (patterns : gset string) (grants : list Grant) : result unit :=
  match grants with
  | [] => Ok tt
  | g :: rest =>
      if negb (Grant_valid g) then Err ErrorInvalidArgument
      else if bool_decide (grant_pattern g ∈ patterns) then Err ErrorInvalidArgument
      else grants_loop ({[grant_pattern g]} ∪ patterns) rest
  end.

Definition NewCallerAuthorization (grants : list Grant) : result CallerAuthorization :=
  if zlen grants =? 0 then Err ErrorInvalidArgument
  else if MaxCallerGrants <? zlen grants then Err ErrorResourceExhausted
  else
    let? _ := addCallerAuthorizationCost (mkBudget 0 MaxAuthorizerOutputBytes) grants in
    if existsb (fun g => MaxCapabilitiesPerGrant <? zlen (grant_capabilities g)) grants
    then Err ErrorResourceExhausted
    else
      let? _ := grants_loop ∅ grants in
      Ok (mkCallerAuthorization (sort_by (less_cmp grantLess) grants)).

Definition CallerAuthorization_valid (a : CallerAuthorization) : bool :=
  if (zlen (ca_grants a) =? 0) || (MaxCallerGrants <? zlen (ca_grants a)) then false
  else if negb (is_ok (addCallerAuthorizationCost (mkBudget 0 MaxAuthorizerOutputBytes) (ca_grants a)))
  then false
  else forallb Grant_valid (ca_grants a) && adjacent grantLess (ca_grants a).

(** * The authorizer boundary *)

(** [CallerAuthorizer.Authorize], the application's code; [None] is a nil
    interface. *)
Definition CallerAuthorizer : Type :=
  option (Caller -> string -> list Capability -> call_outcome CallerAuthorization).

Definition rejectAllAuthorizer : Caller -> string -> list Capability -> call_outcome CallerAuthorization :=
  fun _ _ _ => Returned (inr (engineError ErrorPermissionDenied)).

Definition DefaultCallerAuthorizer : CallerAuthorizer := Some rejectAllAuthorizer.

Definition callAuthorizer (ctx : Context) (slotFree : bool)
  (authorize : Caller -> string -> list Capability -> call_outcome CallerAuthorization)
  (caller : Caller) (namespace : string) (required : list Capability) : CallerAuthorization + GoError :=
  invokeExtension (mkCallerAuthorization []) ctx 2 slotFree (authorize caller namespace required).

(** The loop over one matching grant. *)
Fixpoint grant_capabilities_loop (requested granted : gset string) (capabilities : list Capability)
  : result (gset string) :=
  match capabilities with
  | [] => Ok granted
  | c :: rest =>
      if negb (bool_decide (c ∈ requested)) then Err ErrorInternal
      else grant_capabilities_loop requested ({[c]} ∪ granted) rest
  end.

(** The loop over the grants: [continue] on one that does not match. *)
Definition collect_granted (namespace : string) (requested : gset string) (grants : list Grant)
  : result (gset string) :=
  foldM (fun granted g =>
    if negb (MatchesNamespace g namespace) then Ok granted
    else grant_capabilities_loop requested granted (grant_capabilities g)) ∅ grants.

(** Points of the context: 0 the nil test, 1 the first [Err], 2 and 3 those
    of [invokeExtension], 4 the [Err] after the call. *)
Definition AuthorizeCaller (ctx : Context) (slotFree : bool) (authorizer : CallerAuthorizer)
  (caller : Caller) (namespace : string) (required : list Capability) : result unit :=
  let nil_ctx := match ctx_err ctx 0 with CtxNil => true | _ => false end in
  if nil_ctx || negb (Caller_valid caller) || negb (validNamespace namespace) || (zlen required =? 0)
  then Err ErrorInvalidArgument
  else if MaxCapabilitiesPerGrant <? zlen required then Err ErrorResourceExhausted
  else match contextEngineError (ctx_err ctx 1) with
  | Some e => Err e
  | None =>
  match canonicalCapabilities required with
  | Err _ => Err ErrorInvalidArgument
  | Ok canonicalRequired =>
  match authorizer with
  | None => Err ErrorPermissionDenied
  | Some authorize =>
      let outcome := callAuthorizer ctx slotFree authorize caller namespace canonicalRequired in
      match contextEngineError (ctx_err ctx 4) with
      | Some e => Err e
      | None =>
      match outcome with
      | inr callErr => Err (sanitizedExtensionError callErr ErrorUnavailable)
      | inl result =>
          if negb (CallerAuthorization_valid result) then Err ErrorInternal
          else
            let requested := list_to_set canonicalRequired in
            let? granted := collect_granted namespace requested (ca_grants result) in
            if forallb (fun c => bool_decide (c ∈ granted)) canonicalRequired then Ok tt
            else Err ErrorPermissionDenied
      end
      end
  end
  end
  end.

(** * Facts about capabilities *)

Lemma rank_from_bound cases : forall n c, 0 <= n -> rank_from n cases c = -1 \/ n <= rank_from n cases c.
Proof.
  induction cases as [|d cases IH]; intros n c Hn; cbn [rank_from]; [by left|].
  case_bool_decide; [right; lia|]. destruct (IH (n + 1) c ltac:(lia)); [by left|right; lia].
Qed.

Lemma rank_from_inj cases : forall n a b,
  0 <= n -> 0 <= rank_from n cases a -> rank_from n cases a = rank_from n cases b -> a = b.
Proof.
  induction cases as [|d cases IH]; intros n a b Hn; cbn [rank_from]; [lia|].
  destruct (rank_from_bound cases (n + 1) a ltac:(lia)), (rank_from_bound cases (n + 1) b ltac:(lia));
    repeat case_bool_decide; try lia; try congruence; intros; apply (IH (n + 1)); lia.
Qed.

Lemma capabilityRank_inj a b : Capability_valid a = true -> capabilityRank a = capabilityRank b -> a = b.
Proof. unfold Capability_valid. intros Ha. apply rank_from_inj; [done|]. unfold capabilityRank in Ha. lia. Qed.

(** The rank order with ties broken by name: total on all strings, and the
    order the code sorts by on valid capabilities. *)
Definition compareCapability (a b : Capability) : comparison :=
  then_cmp (Z.compare (capabilityRank a) (capabilityRank b)) (String.compare a b).

#[global] Instance compareCapability_total : TotalCompare compareCapability.
Proof. apply (then_cmp_total capabilityRank (fun c : string => c) Z.compare String.compare). auto. Qed.

Lemma less_cmp_rank a b :
  Capability_valid a = true -> less_cmp rankLess a b = compareCapability a b.
Proof.
  intros Ha. unfold less_cmp, rankLess, compareCapability.
  destruct (Z.compare_spec (capabilityRank a) (capabilityRank b)) as [E|E|E].
  - rewrite E, Z.ltb_irrefl. apply capabilityRank_inj in E as ->; [|done].
    symmetry. apply (tc_refl String.compare).
  - by destruct (Z.ltb_spec (capabilityRank a) (capabilityRank b)); [|lia].
  - destruct (Z.ltb_spec (capabilityRank a) (capabilityRank b)); [lia|].
    by destruct (Z.ltb_spec (capabilityRank b) (capabilityRank a)); [|lia].
Qed.

Definition rank_sorted : list Capability -> Prop := StronglySorted (fun a b => capabilityRank a < capabilityRank b).

Lemma rank_adjacent l :
  adjacent (fun p c => negb (capabilityRank c <=? capabilityRank p)) l = true <-> rank_sorted l.
Proof.
  rewrite (adjacent_Sorted (fun a b => capabilityRank a < capabilityRank b)).
  - split; [|apply StronglySorted_Sorted]. apply Sorted_StronglySorted. intros a b c. lia.
  - intros a b. lia.
Qed.

Lemma all_valid_elem (p : Capability -> bool) l : forallb p l = true <-> forall c, c ∈ l -> p c = true.
Proof. rewrite forallb_forall. by setoid_rewrite list_elem_of_In. Qed.

Lemma canonical_sorted l :
  forallb Capability_valid l = true -> NoDup l ->
  rank_sorted (sort_by (less_cmp rankLess) l) /\ (forall c, c ∈ sort_by (less_cmp rankLess) l <-> c ∈ l).
Proof.
  intros Hv Hnd. rewrite all_valid_elem in Hv.
  assert (E : sort_by (less_cmp rankLess) l = sort_by compareCapability l).
  { apply sort_by_ext. intros a b Ha _. apply less_cmp_rank. auto. }
  split; [|intros c; apply sort_by_elem]. rewrite E.
  assert (Hs := sort_by_sorted compareCapability l).
  assert (Hp := sort_by_perm compareCapability l). rewrite <- Hp in Hnd.
  assert (Hv' : forall c, c ∈ sort_by compareCapability l -> Capability_valid c = true).
  { intros c Hc. apply Hv. by rewrite <- Hp. }
  clear E Hp Hv. induction Hs as [|x s Hs IH Hx]; [constructor|].
  apply NoDup_cons in Hnd as [Hni Hnd]. constructor.
  - apply IH; [done|]. intros c Hc. apply Hv'. by right.
  - rewrite Forall_forall in Hx |- *. intros y Hy.
    destruct (cle_cases compareCapability _ _ (Hx y Hy)) as [->|Hlt]; [done|].
    unfold clt, compareCapability in Hlt.
    destruct (Z.compare_spec (capabilityRank x) (capabilityRank y)) as [Er|Er|Er]; [|done|done].
    apply capabilityRank_inj in Er as ->; [done|]. apply Hv'. left.
Qed.

Lemma canonicalCapabilities_Ok l l' :
  canonicalCapabilities l = Ok l' ->
  forallb Capability_valid l = true /\ rank_sorted l' /\ (forall c, c ∈ l' <-> c ∈ l).
Proof.
  unfold canonicalCapabilities. destruct (forallb Capability_valid l) eqn:Hv; [|done]. simpl.
  intros [= <-]. split; [done|].
  destruct (canonical_sorted (elements (list_to_set l : gset string))) as [Hs Hm].
  - rewrite all_valid_elem in Hv |- *. intros c Hc. apply Hv. set_solver.
  - apply NoDup_elements.
  - split; [done|]. intros c. rewrite Hm. set_solver.
Qed.

Lemma rank_sorted_nodup l : rank_sorted l -> NoDup l.
Proof.
  induction 1 as [|x l Hs IH Hx]; constructor; [|done]. intros Hin.
  rewrite Forall_forall in Hx. specialize (Hx x Hin). lia.
Qed.

(** The canonical list of a set of capabilities is unique: the order in which
    the set is ranged over does not matter. *)
Lemma rank_sorted_unique l1 l2 :
  rank_sorted l1 -> rank_sorted l2 -> (forall c, c ∈ l1 <-> c ∈ l2) -> l1 = l2.
Proof.
  intros H1 H2 Hm. apply (sorted_perm_unique compareCapability).
  3:{ apply NoDup_Permutation; auto using rank_sorted_nodup. }
  all: eapply StronglySorted_ind with (P := fun l => StronglySorted (cle compareCapability) l);
    [constructor| |eassumption]; intros x l _ IH Hx; constructor; [done|];
    eapply Forall_impl; [exact Hx|]; intros y Hy; unfold cle, compareCapability;
    rewrite (proj2 (Z.compare_lt_iff _ _) Hy); done.
Qed.

Lemma canonicalCapabilities_id l :
  forallb Capability_valid l = true -> rank_sorted l -> canonicalCapabilities l = Ok l.
Proof.
  intros Hv Hs. destruct (canonicalCapabilities l) as [l'|e] eqn:E.
  - apply canonicalCapabilities_Ok in E as (_ & Hs' & Hm). f_equal. by apply rank_sorted_unique.
  - unfold canonicalCapabilities in E. by rewrite Hv in E.
Qed.

Lemma rank_sorted_submseteq l l' : rank_sorted l' -> (forall c, c ∈ l' <-> c ∈ l) -> l' ⊆+ l.
Proof. intros Hs M. apply NoDup_submseteq; [by apply rank_sorted_nodup|]. intros x. by apply M. Qed.

(** * Facts about grants *)

Lemma input_limit : 0 <= MaxAggregateInputBytes <= MaxInt64.
Proof. by vm_compute. Qed.
Lemma authorizer_limit : 0 <= MaxAuthorizerOutputBytes <= MaxInt64.
Proof. by vm_compute. Qed.

Lemma Grant_valid_iff g :
  Grant_valid g = true <->
  validateNamespacePattern (grant_pattern g) = Ok tt /\
  0 < zlen (grant_capabilities g) <= MaxCapabilitiesPerGrant /\
  forallb Capability_valid (grant_capabilities g) = true /\ rank_sorted (grant_capabilities g) /\
  grantCost g <= MaxAggregateInputBytes.
Proof.
  unfold Grant_valid, validNamespacePattern.
  rewrite (costs_fits _ _ _ _ addGrantCost_costs input_limit).
  destruct (validateNamespacePattern _) as [[]|]; simpl; [|naive_solver].
  assert (H0 := zlen_nonneg (grant_capabilities g)).
  destruct (Z.eqb_spec (zlen (grant_capabilities g)) 0); simpl; [naive_solver lia|].
  destruct (Z.ltb_spec MaxCapabilitiesPerGrant (zlen (grant_capabilities g))); simpl; [naive_solver lia|].
  destruct (forallb Capability_valid _); simpl; [|naive_solver].
  rewrite <- rank_adjacent. destruct (adjacent _ _); simpl; [|naive_solver].
  rewrite Z.leb_le. naive_solver lia.
Qed.

(** A grant the constructor returns passes re-validation and covers the same
    capabilities; a valid grant is rebuilt unchanged. *)
Lemma NewGrant_Ok p caps g :
  NewGrant p caps = Ok g ->
  Grant_valid g = true /\ grant_pattern g = p /\ (forall c, c ∈ grant_capabilities g <-> c ∈ caps).
Proof.
  unfold NewGrant. destruct (Z.eqb_spec (zlen caps) 0) as [|Hn0]; [done|].
  destruct (Z.ltb_spec MaxCapabilitiesPerGrant (zlen caps)) as [|Hn1]; [done|].
  intros H. apply rbind_ok in H as (b & Hb & H). apply rbind_ok in H as ([] & Hp & H).
  apply rbind_ok in H as (canon & Hc & [= <-]).
  assert (Hcost : grantCost (mkGrant p caps) <= MaxAggregateInputBytes).
  { apply Z.leb_le. by rewrite <- (costs_fits _ _ _ _ addGrantCost_costs input_limit), Hb. }
  apply canonicalCapabilities_Ok in Hc as (Hv & Hs & Hm).
  assert (Hsub := rank_sorted_submseteq _ _ Hs Hm).
  split; [|done]. apply Grant_valid_iff. cbn [grant_pattern grant_capabilities].
  destruct (canonical_zlen _ _ Hsub Hm) as [Hl Hz]. assert (H0' := zlen_nonneg canon).
  split; [done|]. split; [lia|]. split; [eapply forallb_elem; [apply Hm|done]|]. split; [done|].
  apply (sum_cost_submseteq textCost) in Hsub; [|apply textCost_nonneg].
  unfold grantCost in *. cbn [grant_pattern grant_capabilities] in *. lia.
Qed.

Lemma Grant_valid_New g :
  Grant_valid g = true -> NewGrant (grant_pattern g) (grant_capabilities g) = Ok g.
Proof.
  intros (Hp & Hl & Hv & Hs & Hc)%Grant_valid_iff. unfold NewGrant.
  destruct (Z.eqb_spec (zlen (grant_capabilities g)) 0); [lia|].
  destruct (Z.ltb_spec MaxCapabilitiesPerGrant (zlen (grant_capabilities g))); [lia|].
  apply Z.leb_le in Hc. rewrite <- (costs_fits _ _ _ _ addGrantCost_costs input_limit) in Hc.
  destruct g as [p caps]. cbn [grant_pattern grant_capabilities] in *.
  apply is_ok_true in Hc as [b ->]. cbn [rbind]. rewrite Hp. cbn [rbind].
  by rewrite (canonicalCapabilities_id _ Hv Hs).
Qed.

(** [grantLess] is a strict total order on patterns. *)
Definition comparePattern (a b : string) : comparison :=
  then_cmp (compareBool (has_star_suffix a) (has_star_suffix b)) (String.compare a b).

#[global] Instance comparePattern_total : TotalCompare comparePattern.
Proof. apply (then_cmp_total has_star_suffix (fun c : string => c) compareBool String.compare). auto. Qed.

Lemma grantLess_pattern a b :
  grantLess a b = cmp_lt (comparePattern (grant_pattern a) (grant_pattern b)).
Proof.
  unfold grantLess, comparePattern, compareBool, str_lt.
  by destruct (has_star_suffix (grant_pattern a)), (has_star_suffix (grant_pattern b)).
Qed.

(** Ties between equal patterns broken by the capabilities. *)
Definition compareGrant (a b : Grant) : comparison :=
  then_cmp (comparePattern (grant_pattern a) (grant_pattern b))
           (compareAttributePath (grant_capabilities a) (grant_capabilities b)).

#[global] Instance compareGrant_total : TotalCompare compareGrant.
Proof.
  apply (then_cmp_total grant_pattern grant_capabilities comparePattern compareAttributePath).
  intros [] []; simpl; congruence.
Qed.

Definition pattern_sorted : list Grant -> Prop :=
  StronglySorted (fun a b => comparePattern (grant_pattern a) (grant_pattern b) = Lt).

Lemma grant_adjacent l : adjacent grantLess l = true <-> pattern_sorted l.
Proof.
  rewrite (adjacent_Sorted (fun a b => comparePattern (grant_pattern a) (grant_pattern b) = Lt)).
  - split; [|apply StronglySorted_Sorted]. apply Sorted_StronglySorted.
    intros a b c. apply (tc_trans comparePattern).
  - intros a b. rewrite grantLess_pattern. by destruct (comparePattern _ _).
Qed.

Lemma less_cmp_grant a b :
  (grant_pattern a = grant_pattern b -> a = b) -> less_cmp grantLess a b = compareGrant a b.
Proof.
  intros Hab. unfold less_cmp, compareGrant. rewrite !grantLess_pattern.
  destruct (tc_spec comparePattern (grant_pattern a) (grant_pattern b)) as [E|E|E]; simpl; [|done|].
  - rewrite (Hab E), (tc_refl comparePattern). simpl. symmetry. apply (tc_refl compareAttributePath).
  - by rewrite E.
Qed.

Lemma grants_loop_spec grants : forall seen,
  grants_loop seen grants = Ok tt <->
  forallb Grant_valid grants = true /\ NoDup (grant_pattern <$> grants) /\
  (forall g, g ∈ grants -> grant_pattern g ∉ seen).
Proof.
  induction grants as [|g rest IH]; intros seen.
  { cbn. split; [|done]. intros _. repeat split; [constructor|]. intros g Hg. by apply elem_of_nil in Hg. }
  cbn [grants_loop forallb fmap list_fmap]. rewrite NoDup_cons.
  destruct (Grant_valid g); simpl; [|naive_solver].
  case_bool_decide as Hin; [split; [done|]; intros (_ & _ & Hn); by destruct (Hn g ltac:(left))|].
  rewrite IH. clear IH. split.
  - intros (Hv & Hnd & Hnew). repeat split; auto.
    + intros (y & E & Hy)%list_elem_of_fmap. apply (Hnew y Hy). rewrite E. set_solver.
    + intros x [->|Hx]%elem_of_cons; [done|]. intros Hx'. apply (Hnew x Hx). set_solver.
  - intros (Hv & [Hni Hnd] & Hnew). repeat split; auto.
    intros x Hx [E%elem_of_singleton|Hx']%elem_of_union.
    + apply Hni. rewrite <- E. apply list_elem_of_fmap. eauto.
    + eapply (Hnew x); [by right|done].
Qed.

(** * Facts about authorizations *)

Lemma CallerAuthorization_valid_iff a :
  CallerAuthorization_valid a = true <->
  0 < zlen (ca_grants a) <= MaxCallerGrants /\
  8 + sum_cost grantCost (ca_grants a) <= MaxAuthorizerOutputBytes /\
  forallb Grant_valid (ca_grants a) = true /\ pattern_sorted (ca_grants a).
Proof.
  unfold CallerAuthorization_valid.
  rewrite (costs_fits _ _ _ _ addCallerAuthorizationCost_costs authorizer_limit).
  assert (H0 := zlen_nonneg (ca_grants a)).
  destruct (Z.eqb_spec (zlen (ca_grants a)) 0); simpl; [naive_solver lia|].
  destruct (Z.ltb_spec MaxCallerGrants (zlen (ca_grants a))); simpl; [naive_solver lia|].
  rewrite <- grant_adjacent.
  destruct (Z.leb_spec (8 + sum_cost grantCost (ca_grants a)) MaxAuthorizerOutputBytes); cbn [negb];
    [|naive_solver lia].
  rewrite andb_true_iff. naive_solver lia.
Qed.

Lemma pattern_sorted_nodup l : pattern_sorted l -> NoDup (grant_pattern <$> l).
Proof.
  induction 1 as [|x l Hs IH Hx]; simpl; constructor; [|done].
  intros (y & E & Hy)%list_elem_of_fmap. rewrite Forall_forall in Hx. specialize (Hx y Hy).
  by rewrite E, (tc_refl comparePattern) in Hx.
Qed.

Lemma pattern_sorted_le l : pattern_sorted l -> StronglySorted (cle compareGrant) l.
Proof.
  induction 1 as [|x l Hs IH Hx]; constructor; [done|].
  eapply Forall_impl; [exact Hx|]. intros y Hy. unfold cle, compareGrant. by rewrite Hy.
Qed.

Lemma pattern_inj l a b : NoDup (grant_pattern <$> l) -> a ∈ l -> b ∈ l -> grant_pattern a = grant_pattern b -> a = b.
Proof.
  intros Hnd [i Hi]%list_elem_of_lookup [j Hj]%list_elem_of_lookup E.
  assert (i = j) as ->; [|congruence].
  eapply (NoDup_lookup _ i j (grant_pattern a) Hnd); rewrite list_lookup_fmap, ?Hi, ?Hj; simpl; congruence.
Qed.

Lemma sort_grants l :
  NoDup (grant_pattern <$> l) ->
  sort_by (less_cmp grantLess) l = sort_by compareGrant l /\ pattern_sorted (sort_by compareGrant l).
Proof.
  intros Hnd. split.
  - apply sort_by_ext. intros a b Ha Hb. apply less_cmp_grant. by apply (pattern_inj l).
  - assert (Hs := sort_by_sorted compareGrant l). assert (Hp := sort_by_perm compareGrant l).
    rewrite <- Hp in Hnd. clear Hp. induction Hs as [|x s Hs IH Hx]; [constructor|].
    simpl in Hnd. apply NoDup_cons in Hnd as [Hni Hnd]. constructor; [by apply IH|].
    rewrite Forall_forall in Hx |- *. intros y Hy. specialize (Hx y Hy).
    unfold cle, compareGrant in Hx.
    destruct (tc_spec comparePattern (grant_pattern x) (grant_pattern y)) as [E|E|E]; [|done|].
    + exfalso. apply Hni. rewrite E. apply list_elem_of_fmap. eauto.
    + by rewrite (tc_lt_asym comparePattern _ _ E) in Hx.
Qed.

(** C36: building an authorization is canonical and agrees with re-validating
    one: [NewCallerAuthorization grants] returns [a] exactly when [a] passes
    the [valid] method the core runs on authorizer output and holds the given
    grants in canonical order. So every accepted list has one representation,
    independent of the order it was given in, and what the constructor builds
    is what the gate accepts. *)
Theorem NewCallerAuthorization_canonical grants a :
  NewCallerAuthorization grants = Ok a <->
  CallerAuthorization_valid a = true /\ ca_grants a ≡ₚ grants.
Proof.
  rewrite CallerAuthorization_valid_iff. unfold NewCallerAuthorization.
  assert (H0 := zlen_nonneg grants). split.
  - destruct (Z.eqb_spec (zlen grants) 0) as [|Hn0]; [done|].
    destruct (Z.ltb_spec MaxCallerGrants (zlen grants)) as [|Hn1]; [done|].
    intros H. apply rbind_ok in H as (b & Hb & H). destruct (existsb _ _); [done|].
    apply rbind_ok in H as ([] & (Hv & Hnd & _)%grants_loop_spec & [= <-]). cbn [ca_grants].
    destruct (sort_grants grants Hnd) as [-> Hs]. assert (Hp := sort_by_perm compareGrant grants).
    rewrite (sum_cost_perm _ _ _ Hp). unfold zlen in *. rewrite Hp at 1 2.
    split; [|done]. split; [lia|]. split.
    + apply Z.leb_le. rewrite <- (costs_fits _ (fun l => 8 + sum_cost grantCost l) _ _
        addCallerAuthorizationCost_costs authorizer_limit). by rewrite Hb.
    + split; [|done]. eapply forallb_elem; [|exact Hv]. intros x. by rewrite Hp.
  - destruct a as [l]. cbn [ca_grants]. intros [(Hl & Hc & Hv & Hs) Hp].
    assert (Hz : zlen l = zlen grants) by (unfold zlen; by rewrite Hp). rewrite Hz in Hl.
    destruct (Z.eqb_spec (zlen grants) 0); [lia|].
    destruct (Z.ltb_spec MaxCallerGrants (zlen grants)); [lia|].
    rewrite (sum_cost_perm _ _ _ Hp) in Hc. apply Z.leb_le in Hc.
    rewrite <- (costs_fits _ (fun l => 8 + sum_cost grantCost l) _ _
      addCallerAuthorizationCost_costs authorizer_limit) in Hc.
    apply is_ok_true in Hc as [b ->]. cbn [rbind].
    assert (Hv' : forallb Grant_valid grants = true) by (eapply forallb_elem; [|exact Hv]; intros x; by rewrite Hp).
    replace (existsb _ grants) with false.
    2:{ symmetry. apply existsb_false_iff, Forall_forall. intros g Hg. apply Z.ltb_ge.
        rewrite forallb_forall in Hv'. apply list_elem_of_In in Hg.
        specialize (Hv' g Hg). apply Grant_valid_iff in Hv'. lia. }
    assert (Hnd : NoDup (grant_pattern <$> grants)) by (rewrite <- Hp; by apply pattern_sorted_nodup).
    rewrite (proj2 (grants_loop_spec grants ∅)) by (repeat split; auto; set_solver). cbn [rbind].
    do 2 f_equal. rewrite (proj1 (sort_grants grants Hnd)). symmetry.
    apply (sort_by_unique compareGrant); auto using pattern_sorted_le.
Qed.

(** * Matching *)

(** A pattern covers a namespace: it is the namespace, or a stem of it
    followed by the wildcard. *)
Definition covers (pattern namespace : string) : Prop :=
  namespace = pattern \/ exists stem rest, pattern = (stem +:+ "*")%string /\ namespace = (stem +:+ rest)%string.

Lemma append_cons c a b : (String c a +:+ b)%string = String c (a +:+ b)%string.
Proof. done. Qed.

Lemma bytes_of_string_app a b : bytes_of_string (a +:+ b) = bytes_of_string a ++ bytes_of_string b.
Proof. induction a as [|c a IH]; [done|]. rewrite append_cons. cbn. by rewrite IH. Qed.

Lemma star_suffix_spec s : has_star_suffix s = true <-> exists stem, s = (stem +:+ "*")%string.
Proof.
  unfold has_star_suffix. split.
  - induction s as [|a s IH]; [done|]. cbn [bytes_of_string]. destruct s as [|b s].
    + cbn. rewrite Z.eqb_eq. intros E. exists EmptyString. cbn.
      by rewrite <- (ascii_of_byte_of_ascii a), E.
    + intros H. destruct IH as [stem E]; [exact H|]. exists (String a stem). by rewrite append_cons, E.
  - intros [stem ->]. rewrite bytes_of_string_app. change (bytes_of_string "*") with [star].
    by rewrite last_snoc.
Qed.

Lemma trim_last_star stem : trim_last (stem +:+ "*") = stem.
Proof.
  induction stem as [|a stem IH]; [done|]. rewrite append_cons.
  destruct (stem +:+ "*")%string as [|b s] eqn:E; [by destruct stem|].
  change (String a (trim_last (String b s)) = String a stem). by rewrite IH.
Qed.

Lemma star_suffix_namespace s : has_star_suffix s = true -> validNamespace s = false.
Proof.
  intros [stem ->]%star_suffix_spec. unfold validNamespace, validateNamespace.
  destruct (validateText _ _ _); [|done]. cbn [rbind].
  replace (0 <? count_star (stem +:+ "*")) with true; [done|].
  symmetry. apply Z.ltb_lt. unfold count_star. rewrite bytes_of_string_app, List.filter_app, zlen_app.
  assert (H := zlen_nonneg (List.filter (fun b => b =? star) (bytes_of_string stem))).
  change (zlen (List.filter (fun b => b =? star) (bytes_of_string "*"))) with 1. lia.
Qed.

Lemma MatchesNamespace_spec g ns :
  validNamespace ns = true -> validNamespacePattern (grant_pattern g) = true ->
  MatchesNamespace g ns = true <-> covers (grant_pattern g) ns.
Proof.
  intros Hn Hp. unfold MatchesNamespace, covers. rewrite Hn, Hp. cbn [negb orb].
  case_bool_decide as Hstar.
  { split; [|done]. intros _. right. exists EmptyString, ns. by rewrite Hstar. }
  destruct (has_star_suffix (grant_pattern g)) eqn:Hs.
  - assert (Hne : ns <> grant_pattern g) by (intros ->; by rewrite star_suffix_namespace in Hn).
    apply star_suffix_spec in Hs as [stem E]. rewrite E, trim_last_star, string_prefix_spec. split.
    + intros [rest ->]. right. eauto.
    + intros [->|(stem' & rest & E' & ->)]; [congruence|].
      apply (f_equal trim_last) in E'. rewrite !trim_last_star in E'. subst. eauto.
  - rewrite bool_decide_eq_true. split; [by left|]. intros [|(stem & rest & E & _)]; [done|].
    rewrite (proj2 (star_suffix_spec _)) in Hs; [done|eauto].
Qed.

(** * The gate *)

Lemma grant_capabilities_loop_spec requested capabilities : forall granted,
  match grant_capabilities_loop requested granted capabilities with
  | Ok out => (forall c, c ∈ capabilities -> c ∈ requested) /\ (forall c, c ∈ out <-> c ∈ granted \/ c ∈ capabilities)
  | Err e => exists c, c ∈ capabilities /\ c ∉ requested
  end.
Proof.
  induction capabilities as [|c rest IH]; intros granted; cbn [grant_capabilities_loop].
  { split; [|set_solver]. intros c Hc. by apply elem_of_nil in Hc. }
  case_bool_decide as Hc; cbn [negb]; [|exists c; set_solver].
  specialize (IH ({[c]} ∪ granted)). destruct (grant_capabilities_loop _ _ _).
  - destruct IH as [H1 H2]. split; [set_solver|]. intros d. rewrite H2. set_solver.
  - destruct IH as (d & Hd & Hn). exists d. set_solver.
Qed.

Lemma collect_granted_spec ns requested grants :
  match collect_granted ns requested grants with
  | Ok out => (forall g c, g ∈ grants -> MatchesNamespace g ns = true -> c ∈ grant_capabilities g -> c ∈ requested) /\
      (forall c, c ∈ out <-> exists g, g ∈ grants /\ MatchesNamespace g ns = true /\ c ∈ grant_capabilities g)
  | Err e => exists g c, g ∈ grants /\ MatchesNamespace g ns = true /\ c ∈ grant_capabilities g /\ c ∉ requested
  end.
Proof.
  unfold collect_granted. set (step := fun granted g => _).
  assert (Hgen : forall grants s, match foldM step s grants with
    | Ok out => (forall g c, g ∈ grants -> MatchesNamespace g ns = true -> c ∈ grant_capabilities g -> c ∈ requested) /\
        (forall c, c ∈ out <-> c ∈ s \/ exists g, g ∈ grants /\ MatchesNamespace g ns = true /\ c ∈ grant_capabilities g)
    | Err e => exists g c, g ∈ grants /\ MatchesNamespace g ns = true /\ c ∈ grant_capabilities g /\ c ∉ requested
    end).
  { clear grants. induction grants as [|g rest IH]; intros s; cbn [foldM].
    { split; [set_solver|]. intros c. split; [by left|]. intros [|(g & Hg & _)]; [done|]. by apply elem_of_nil in Hg. }
    unfold step at 1. destruct (MatchesNamespace g ns) eqn:Hm; cbn [negb rbind].
    - assert (Hl := grant_capabilities_loop_spec requested (grant_capabilities g) s).
      destruct (grant_capabilities_loop _ _ _) as [s'|e]; cbn [rbind]; [|destruct Hl as (c & Hc & Hn); exists g, c; repeat split; auto; left].
      destruct Hl as [Hl1 Hl2]. specialize (IH s'). destruct (foldM step s' rest).
      + destruct IH as [I1 I2]. split; [intros g' c [->|Hg']%elem_of_cons; eauto|].
        intros c. rewrite I2, Hl2. split.
        * intros [[?|?]|(g' & ? & ?)]; [by left|right; exists g; split; [left|done]|right; exists g'; split; [by right|done]].
        * intros [?|(g' & [->|Hg']%elem_of_cons & Hm' & ?)]; [by left; left|by left; right|right; eauto].
      + destruct IH as (g' & c & Hg & H). exists g', c. split; [by right|done].
    - specialize (IH s). destruct (foldM step s rest).
      + destruct IH as [I1 I2]. split; [intros g' c [->|Hg']%elem_of_cons; [congruence|eauto]|].
        intros c. rewrite I2. split.
        * intros [?|(g' & ? & ?)]; [by left|right; exists g'; split; [by right|done]].
        * intros [?|(g' & [->|Hg']%elem_of_cons & Hm' & ?)]; [by left|congruence|right; eauto].
      + destruct IH as (g' & c & Hg & H). exists g', c. split; [by right|done]. }
  specialize (Hgen grants ∅). destruct (foldM step ∅ grants); [|done].
  destruct Hgen as [H1 H2]. split; [done|]. intros c. rewrite H2. set_solver.
Qed.

(** The context answers every question of one gated call. *)
Definition ctx_clear (ctx : Context) : Prop :=
  ctx_err ctx 0 <> CtxNil /\ ctx_err ctx 1 = CtxUsable /\ ctx_err ctx 2 = CtxUsable /\
  ctx_err ctx 4 = CtxUsable /\ ctx_done ctx 2 = false.

Lemma contextEngineError_None a : contextEngineError a = None <-> a = CtxUsable.
Proof. by destruct a. Qed.

(** The authorizer's verdict on a namespace: exactly the requested
    capabilities, over all grants that cover it. *)
Definition grants_exactly (a : CallerAuthorization) (namespace : string) (required : list Capability) : Prop :=
  forall c, c ∈ required <->
    exists g, g ∈ ca_grants a /\ covers (grant_pattern g) namespace /\ c ∈ grant_capabilities g.

Lemma collect_exact a ns required canon :
  validNamespace ns = true -> CallerAuthorization_valid a = true -> (forall c, c ∈ canon <-> c ∈ required) ->
  (let? granted := collect_granted ns (list_to_set canon) (ca_grants a) in
   if forallb (fun c => bool_decide (c ∈ granted)) canon then Ok tt else Err ErrorPermissionDenied) = Ok tt <->
  grants_exactly a ns required.
Proof.
  intros Hn (_ & _ & Hv & _)%CallerAuthorization_valid_iff Hcanon.
  assert (Hcov : forall g, g ∈ ca_grants a -> MatchesNamespace g ns = true <-> covers (grant_pattern g) ns).
  { intros g Hg. apply MatchesNamespace_spec; [done|]. rewrite forallb_forall in Hv.
    apply list_elem_of_In in Hg. specialize (Hv g Hg). apply Grant_valid_iff in Hv as (Hp & _).
    unfold validNamespacePattern. by rewrite Hp. }
  assert (Hc := collect_granted_spec ns (list_to_set canon) (ca_grants a)). unfold grants_exactly.
  destruct (collect_granted _ _ _) as [out|e]; cbn [rbind].
  - destruct Hc as [H1 H2]. destruct (forallb _ canon) eqn:Hall.
    + split; [|done]. intros _ c. rewrite all_valid_elem in Hall. rewrite <- Hcanon. split.
      * intros Hin. specialize (Hall c Hin). apply bool_decide_eq_true in Hall.
        apply H2 in Hall as (g & Hg & Hm & Hcg). exists g. naive_solver.
      * intros (g & Hg & Hm & Hcg). apply Hcov in Hm; [|done].
        specialize (H1 g c Hg Hm Hcg). set_solver.
    + split; [done|]. intros Hex. exfalso. apply not_true_iff_false in Hall. apply Hall.
      apply all_valid_elem. intros c Hin. apply bool_decide_eq_true, H2.
      apply Hcanon, Hex in Hin as (g & Hg & Hm & Hcg). exists g. naive_solver.
  - split; [done|]. intros Hex. destruct Hc as (g & c & Hg & Hm & Hcg & Hnr). exfalso.
    apply Hnr. rewrite elem_of_list_to_set. apply Hcanon, Hex. exists g. naive_solver.
Qed.

(** C14: the caller gate is exact and fails closed. [AuthorizeCaller] succeeds
    if and only if the context stayed usable and a slot was free, the caller,
    the namespace and the 1..16 requested capabilities are valid, an
    authorizer is configured, it was asked for the canonical capability list
    and returned (no panic, no error) an authorization that passes
    re-validation, and the grants whose pattern covers the namespace carry
    together exactly the requested capabilities: none missing and none
    beyond the request. *)
Theorem AuthorizeCaller_exact ctx slotFree authorizer caller ns required :
  AuthorizeCaller ctx slotFree authorizer caller ns required = Ok tt <->
  ctx_clear ctx /\ slotFree = true /\ Caller_valid caller = true /\ validNamespace ns = true /\
  0 < zlen required <= MaxCapabilitiesPerGrant /\
  exists canonical authorize a,
    canonicalCapabilities required = Ok canonical /\ authorizer = Some authorize /\
    authorize caller ns canonical = Returned (inl a) /\
    CallerAuthorization_valid a = true /\ grants_exactly a ns required.
Proof.
  assert (H0 := zlen_nonneg required). unfold AuthorizeCaller, ctx_clear, callAuthorizer, invokeExtension.
  destruct (decide (ctx_err ctx 0 = CtxNil)) as [E0|E0]; [rewrite E0; naive_solver|].
  replace (match ctx_err ctx 0 with CtxNil => true | _ => false end) with false by (by destruct (ctx_err ctx 0)).
  destruct (Caller_valid caller); cbn [negb orb]; [|naive_solver].
  destruct (validNamespace ns) eqn:Hn; cbn [negb orb]; [|naive_solver].
  destruct (Z.eqb_spec (zlen required) 0); [naive_solver lia|].
  destruct (Z.ltb_spec MaxCapabilitiesPerGrant (zlen required)); [naive_solver lia|].
  destruct (contextEngineError (ctx_err ctx 1)) eqn:E1.
  { split; [done|]. intros ((_ & H1 & _) & _). by rewrite H1 in E1. }
  apply contextEngineError_None in E1.
  destruct (canonicalCapabilities required) as [canon|] eqn:Ec; [|naive_solver].
  destruct authorizer as [authorize|]; [|naive_solver].
  destruct (contextEngineError (ctx_err ctx 4)) eqn:E4.
  { split; [done|]. intros ((_ & _ & _ & H4 & _) & _). by rewrite H4 in E4. }
  apply contextEngineError_None in E4.
  destruct (contextEngineError (ctx_err ctx 2)) eqn:E2.
  { split; [done|]. intros ((_ & _ & H2 & _) & _). by rewrite H2 in E2. }
  apply contextEngineError_None in E2.
  destruct slotFree; cbn [negb]; [|naive_solver].
  destruct (ctx_done ctx 2) eqn:Ed.
  { destruct (contextEngineError (ctx_err ctx 3)); naive_solver. }
  apply canonicalCapabilities_Ok in Ec as (_ & _ & Hm).
  destruct (authorize caller ns canon) as [[a|e]|] eqn:Ea; cbn [completion];
    [|split; [done|]; intros (_ & _ & _ & _ & _ & canon' & au & a' & [= <-] & [= <-] & E & _); congruence..].
  destruct (CallerAuthorization_valid a) eqn:Hv; cbn [negb].
  2:{ split; [done|]. intros (_ & _ & _ & _ & _ & canon' & au & a' & [= <-] & [= <-] & E & Hv' & _). congruence. }
  rewrite (collect_exact a ns required canon Hn Hv Hm). split.
  - intros Hex. repeat split; auto; try lia; try apply Hex. exists canon, authorize, a. auto.
  - intros (_ & _ & _ & _ & _ & canon' & authorize' & a' & [= <-] & [= <-] & E & _ & Hex).
    rewrite Ea in E. by injection E as ->.
Qed.
