(* ===== verification/Requests.v ===== *)
(** Authorization requests, decisions and responses (authorization.go, with
    their sizes from cost.go and their capabilities from caller.go).

    A map of arguments is a [gmap]; where the code ranges over one, the model
    visits [map_to_list], and [arguments_accept] shows that acceptance does
    not depend on that order. A [[32]byte] is the list of its bytes. *)

From Stdlib Require Import ZArith Lia Permutation Sorted.
From stdpp Require Import base list gmap strings sorting.
From S2P Require Import Prelude Limits Text Types Invocation Cost Canon Data DataValid Policy Caller.

(** * Decisions *)

Definition Decision : Type := Z.
Definition DecisionAllow : Decision := 1.
Definition DecisionDeny : Decision := 2.
Definition DecisionRequireApproval : Decision := 3.

Definition Decision_valid (d : Decision) : bool := (DecisionAllow <=? d) && (d <=? DecisionRequireApproval).

Definition zero_digest : list Z := repeat 0 32.

(** * Requests *)

(** [CheckRequestInput] and [CheckRequest] have the same fields. *)
Record CheckRequest := mkCheckRequest {
  ck_namespace : string; ck_selector : Selector; ck_subject : EntityRef; ck_resource : EntityRef;
  ck_action : string; ck_arguments : gmap string Value; ck_contextualData : ContextualData;
  ck_approvalEvidence : list Z; ck_delegationEvidence : list Z; ck_minimumGeneration : Z }.

Record BatchCheckItem := mkBatchCheckItem {
  bi_subject : EntityRef; bi_resource : EntityRef; bi_action : string; bi_arguments : gmap string Value }.

(** [BatchCheckRequestInput] and [BatchCheckRequest] have the same fields. *)
Record BatchCheckRequest := mkBatchCheckRequest {
  bc_namespace : string; bc_selector : Selector; bc_items : list BatchCheckItem;
  bc_contextualData : ContextualData; bc_approvalEvidence : list Z; bc_delegationEvidence : list Z;
  bc_minimumGeneration : Z }.

Record DecisionResultInput := mkDecisionResultInput {
  di_Decision : Decision; di_DecisionID : string; di_ReasonCode : string; di_RevisionID : string;
  di_SlotGeneration : Z; di_DataGeneration : Z; di_EvaluatedAt : Time; di_Requirements : list string;
  di_ApprovalBindingDigest : list Z; di_UsedContextualData : bool; di_UsedApproval : bool;
  di_UsedDelegation : bool }.

Record DecisionResult := mkDecisionResult {
  dr_validResult : bool; dr_decision : Decision; dr_decisionID : string; dr_reasonCode : string;
  dr_revisionID : string; dr_slotGeneration : Z; dr_dataGeneration : Z; dr_evaluatedAt : Time;
  dr_requirements : list string; dr_approvalBindingDigest : list Z; dr_hasApprovalBinding : bool;
  dr_usedContextualData : bool; dr_usedApproval : bool; dr_usedDelegation : bool }.

Record CheckResponse := mkCheckResponse { cr_selector : Selector; cr_result : DecisionResult }.
Record BatchCheckResponse := mkBatchCheckResponse { br_selector : Selector; br_results : list DecisionResult }.
Record ExplainRequest := mkExplainRequest { ex_check : CheckRequest }.
Record ExplainStep := mkExplainStep { es_schemaPath : string; es_operator : string; es_outcome : bool }.
Record ExplainResponse := mkExplainResponse {
  er_selector : Selector; er_result : DecisionResult; er_steps : list ExplainStep }.

(** * Sizes (cost.go) *)

Definition addCheckRequestCost (b : budgetCounter) (input : CheckRequest) : result budgetCounter :=
  let? b := addTextCost b (ck_namespace input) in
  let? b := addSelectorCost b (ck_selector input) in
  let? b := addEntityRefCost b (ck_subject input) in
  let? b := addEntityRefCost b (ck_resource input) in
  let? b := addTextCost b (ck_action input) in
  let? b := addArgumentsCost b (map_to_list (ck_arguments input)) in
  let? b := addContextualDataCost b (ck_contextualData input) in
  let? b := addBytesCost b (ck_approvalEvidence input) in
  let? b := addBytesCost b (ck_delegationEvidence input) in
  addFixedFieldCost b uint64Bytes.

Definition addBatchItemCost (b : budgetCounter) (item : BatchCheckItem) : result budgetCounter :=
  let? b := addEntityRefCost b (bi_subject item) in
  let? b := addEntityRefCost b (bi_resource item) in
  let? b := addTextCost b (bi_action item) in
  addArgumentsCost b (map_to_list (bi_arguments item)).

Definition addBatchRequestCost (b : budgetCounter) (input : BatchCheckRequest) : result budgetCounter :=
  let? b := addTextCost b (bc_namespace input) in
  let? b := addSelectorCost b (bc_selector input) in
  let? b := add b collectionMetadataBytes in
  let? b := foldM addBatchItemCost b (bc_items input) in
  let? b := addContextualDataCost b (bc_contextualData input) in
  let? b := addBytesCost b (bc_approvalEvidence input) in
  let? b := addBytesCost b (bc_delegationEvidence input) in
  addFixedFieldCost b uint64Bytes.

Definition addDecisionResultCost (b : budgetCounter) (input : DecisionResultInput) : result budgetCounter :=
  let? b := foldM addTextCost b [di_DecisionID input; di_ReasonCode input; di_RevisionID input] in
  let? b := foldM addFixedFieldCost b
              [enumBytes; uint64Bytes; uint64Bytes; timestampBytes; boolBytes; boolBytes; boolBytes] in
  let? b := (if bool_decide (di_ApprovalBindingDigest input <> zero_digest)
             then addFixedFieldCost b sha256_Size else Ok b) in
  addIdentifiersCost b (di_Requirements input).

(** The fields [addDecisionResultValueCost] leaves out are Go zero values. *)
Definition addDecisionResultValueCost (b : budgetCounter) (r : DecisionResult) : result budgetCounter :=
  addDecisionResultCost b
    (mkDecisionResultInput (dr_decision r) (dr_decisionID r) (dr_reasonCode r) (dr_revisionID r)
       0 0 0 (dr_requirements r) (dr_approvalBindingDigest r) false false false).

Definition addExplainStepCost (b : budgetCounter) (step : ExplainStep) : result budgetCounter :=
  let? b := addTextCost b (es_schemaPath step) in
  let? b := addTextCost b (es_operator step) in
  addFixedFieldCost b boolBytes.

Definition addExplainResponseCost (b : budgetCounter) (r : DecisionResult) (steps : list ExplainStep)
  : result budgetCounter :=
  let? b := addDecisionResultValueCost b r in
  let? b := add b collectionMetadataBytes in
  foldM addExplainStepCost b steps.

Definition addBatchResponseCost (b : budgetCounter) (results : list DecisionResult) : result budgetCounter :=
  let? b := add b collectionMetadataBytes in
  foldM addDecisionResultValueCost b results.

(** * Checks *)

(** [validateArguments] (validation.go); entries in map iteration order. *)
Definition validateArguments (arguments : gmap string Value) : result unit :=
  if MaxArgumentItems <? Z.of_nat (base.size arguments) then Err ErrorResourceExhausted
  else foldM (fun _ kv => let? _ := validateIdentifier kv.1 in validateValue kv.2) tt
             (map_to_list arguments).

Definition input_budget : budgetCounter := mkBudget 0 MaxAggregateInputBytes.
Definition result_budget : budgetCounter := mkBudget 0 MaxAggregateOutputBytes.

Definition NewCheckRequest (input : CheckRequest) : result CheckRequest :=
  if (MaxArgumentItems <? Z.of_nat (base.size (ck_arguments input)))
     || (MaxEvidenceBytes <? zlen (ck_approvalEvidence input))
     || (MaxEvidenceBytes <? zlen (ck_delegationEvidence input))
  then Err ErrorResourceExhausted
  else
    let? _ := addCheckRequestCost input_budget input in
    if negb (Selector_valid (ck_selector input)) || negb (ContextualData_valid (ck_contextualData input))
    then Err ErrorInvalidArgument
    else
      let? _ := validateNamespace (ck_namespace input) in
      let? _ := validateEntityRef (ck_subject input) in
      let? _ := validateEntityRef (ck_resource input) in
      let? _ := validateIdentifier (ck_action input) in
      let? _ := validateArguments (ck_arguments input) in
      Ok input.

Definition CheckRequest_valid (r : CheckRequest) : bool :=
  if negb (validNamespace (ck_namespace r)) || negb (Selector_valid (ck_selector r))
     || negb (is_ok (validateEntityRef (ck_subject r))) || negb (is_ok (validateEntityRef (ck_resource r)))
     || negb (validIdentifier (ck_action r)) || negb (is_ok (validateArguments (ck_arguments r)))
     || negb (ContextualData_valid (ck_contextualData r))
     || (MaxEvidenceBytes <? zlen (ck_approvalEvidence r))
     || (MaxEvidenceBytes <? zlen (ck_delegationEvidence r))
  then false
  else is_ok (addCheckRequestCost input_budget r).

(** * Decision results *)

Definition NewDecisionResult (input : DecisionResultInput) : result DecisionResult :=
  if MaxVerifierOutputItems <? zlen (di_Requirements input) then Err ErrorResourceExhausted
  else
    let? _ := addDecisionResultCost result_budget input in
    if negb (Decision_valid (di_Decision input)) || negb (validRevisionIDString (di_RevisionID input))
       || IsZero (di_EvaluatedAt input)
    then Err ErrorInvalidArgument
    else
      let? _ := validateIdentifier (di_DecisionID input) in
      let? _ := validateIdentifier (di_ReasonCode input) in
      let? requirements := canonicalIdentifiers (di_Requirements input) MaxVerifierOutputItems
                             MaxAggregateOutputBytes in
      if negb (di_Decision input =? DecisionRequireApproval) && negb (zlen requirements =? 0)
      then Err ErrorInvalidArgument
      else if (di_Decision input =? DecisionRequireApproval) && (zlen requirements =? 0)
      then Err ErrorInvalidArgument
      else
        let hasApprovalBinding := bool_decide (di_ApprovalBindingDigest input <> zero_digest) in
        if negb (Bool.eqb (di_Decision input =? DecisionRequireApproval) hasApprovalBinding)
        then Err ErrorInvalidArgument
        else Ok (mkDecisionResult true (di_Decision input) (di_DecisionID input) (di_ReasonCode input)
                   (di_RevisionID input) (di_SlotGeneration input) (di_DataGeneration input)
                   (di_EvaluatedAt input) requirements (di_ApprovalBindingDigest input) hasApprovalBinding
                   (di_UsedContextualData input) (di_UsedApproval input) (di_UsedDelegation input)).

Definition ApprovalBindingDigest (r : DecisionResult) : option (list Z) :=
  if negb (dr_decision r =? DecisionRequireApproval) || negb (dr_hasApprovalBinding r) then None
  else Some (dr_approvalBindingDigest r).

Definition DecisionResult_valid (r : DecisionResult) : bool :=
  if negb (dr_validResult r) || negb (Decision_valid (dr_decision r))
     || negb (validIdentifier (dr_decisionID r)) || negb (validIdentifier (dr_reasonCode r))
     || negb (validRevisionIDString (dr_revisionID r)) || IsZero (dr_evaluatedAt r)
  then false
  else if negb (validCanonicalIdentifiers (dr_requirements r) MaxVerifierOutputItems MaxAggregateOutputBytes)
  then false
  else
    let hasApprovalDigest := bool_decide (dr_approvalBindingDigest r <> zero_digest) in
    if negb (Bool.eqb (dr_hasApprovalBinding r) hasApprovalDigest)
       || negb (Bool.eqb (dr_decision r =? DecisionRequireApproval) (dr_hasApprovalBinding r))
    then false
    else if negb (is_ok (addDecisionResultValueCost result_budget r)) then false
    else Bool.eqb (dr_decision r =? DecisionRequireApproval) (0 <? zlen (dr_requirements r)).

Definition selectorMatchesResult (selector : Selector) (r : DecisionResult) : bool :=
  let '(exactRevision, exact) := ExactRevision selector in
  if exact then (dr_slotGeneration r =? 0) && bool_decide (dr_revisionID r = exactRevision)
  else Selector_valid selector && (0 <? dr_slotGeneration r).

Definition NewCheckResponse (request : CheckRequest) (r : DecisionResult) : result CheckResponse :=
  if negb (CheckRequest_valid request) || negb (DecisionResult_valid r) then Err ErrorInvalidArgument
  else if negb (selectorMatchesResult (ck_selector request) r) then Err ErrorInvalidArgument
  else Ok (mkCheckResponse (ck_selector request) r).

Definition CheckResponse_valid (r : CheckResponse) : bool :=
  Selector_valid (cr_selector r) && DecisionResult_valid (cr_result r)
  && selectorMatchesResult (cr_selector r) (cr_result r).

(** * Batches *)

Definition NewBatchCheckItem (subject resource : EntityRef) (action : string)
  (arguments : gmap string Value) : result BatchCheckItem :=
  if MaxArgumentItems <? Z.of_nat (base.size arguments) then Err ErrorResourceExhausted
  else
    let raw := mkBatchCheckItem subject resource action arguments in
    let? _ := addBatchItemCost input_budget raw in
    let? _ := validateEntityRef subject in
    let? _ := validateEntityRef resource in
    let? _ := validateIdentifier action in
    let? _ := validateArguments arguments in
    Ok raw.

Definition BatchCheckItem_valid (i : BatchCheckItem) : bool :=
  if negb (is_ok (validateEntityRef (bi_subject i))) || negb (is_ok (validateEntityRef (bi_resource i)))
     || negb (validIdentifier (bi_action i)) || negb (is_ok (validateArguments (bi_arguments i)))
  then false
  else is_ok (addBatchItemCost input_budget i).

Definition work_budget : budgetCounter := mkBudget 0 MaxAggregateWorkItems.

(** [workBudget.add(1 + len(item.arguments))] *)
Definition addItemWork (b : budgetCounter) (item : BatchCheckItem) : result budgetCounter :=
  add b (1 + Z.of_nat (base.size (bi_arguments item))).

Definition NewBatchCheckRequest (input : BatchCheckRequest) : result BatchCheckRequest :=
  if (MaxBatchItems <? zlen (bc_items input)) || (MaxEvidenceBytes <? zlen (bc_approvalEvidence input))
     || (MaxEvidenceBytes <? zlen (bc_delegationEvidence input))
  then Err ErrorResourceExhausted
  else
    let? _ := addBatchRequestCost input_budget input in
    let? workBudget := add work_budget (contextualWorkItems (bc_contextualData input)) in
    let? _ := foldM addItemWork workBudget (bc_items input) in
    if negb (Selector_valid (bc_selector input)) || (zlen (bc_items input) =? 0)
       || negb (ContextualData_valid (bc_contextualData input))
    then Err ErrorInvalidArgument
    else
      let? _ := validateNamespace (bc_namespace input) in
      if negb (forallb BatchCheckItem_valid (bc_items input)) then Err ErrorInvalidArgument
      else Ok input.

(** The last loop tests an item and then charges its work. *)
Definition BatchCheckRequest_valid (r : BatchCheckRequest) : bool :=
  if negb (validNamespace (bc_namespace r)) || negb (Selector_valid (bc_selector r))
     || (zlen (bc_items r) =? 0) || (MaxBatchItems <? zlen (bc_items r))
     || negb (ContextualData_valid (bc_contextualData r))
     || (MaxEvidenceBytes <? zlen (bc_approvalEvidence r))
     || (MaxEvidenceBytes <? zlen (bc_delegationEvidence r))
  then false
  else if negb (is_ok (addBatchRequestCost input_budget r)) then false
  else match add work_budget (contextualWorkItems (bc_contextualData r)) with
  | Err _ => false
  | Ok workBudget =>
      is_ok (foldM (fun b item =>
        if negb (BatchCheckItem_valid item) then Err ErrorInvalidArgument else addItemWork b item)
        workBudget (bc_items r))
  end.

(** [result.revisionID != first.revisionID || ...] is false. *)
Definition same_snapshot (first r : DecisionResult) : bool :=
  bool_decide (dr_revisionID r = dr_revisionID first)
  && (dr_slotGeneration r =? dr_slotGeneration first)
  && (dr_dataGeneration r =? dr_dataGeneration first)
  && (dr_evaluatedAt r =? dr_evaluatedAt first).

(** [results[0]] exists: the request has at least one item and the lengths
    agree. *)
Definition NewBatchCheckResponse (request : BatchCheckRequest) (results : list DecisionResult)
  : result BatchCheckResponse :=
  if MaxBatchItems <? zlen results then Err ErrorResourceExhausted
  else if negb (BatchCheckRequest_valid request) || negb (zlen results =? zlen (bc_items request))
  then Err ErrorInvalidArgument
  else
    let? _ := addBatchResponseCost result_budget results in
    match results with
    | [] => Err ErrorInternal
    | first :: _ =>
        if negb (forallb (fun r => DecisionResult_valid r && same_snapshot first r) results)
        then Err ErrorInvalidArgument
        else if negb (selectorMatchesResult (bc_selector request) first) then Err ErrorInvalidArgument
        else Ok (mkBatchCheckResponse (bc_selector request) results)
    end.

Definition BatchCheckResponse_valid (r : BatchCheckResponse) : bool :=
  if negb (Selector_valid (br_selector r)) || (zlen (br_results r) =? 0)
     || (MaxBatchItems <? zlen (br_results r)) then false
  else if negb (is_ok (addBatchResponseCost result_budget (br_results r))) then false
  else match br_results r with
  | [] => false
  | first :: _ =>
      forallb (fun x => DecisionResult_valid x && same_snapshot first x) (br_results r)
      && selectorMatchesResult (br_selector r) first
  end.

(** * Explanations *)

Definition NewExplainRequest (check : CheckRequest) : result ExplainRequest :=
  if CheckRequest_valid check then Ok (mkExplainRequest check) else Err ErrorInvalidArgument.

Definition ExplainRequest_valid (r : ExplainRequest) : bool := CheckRequest_valid (ex_check r).

Definition NewExplainStep (schemaPath operator : string) (outcome : bool) : result ExplainStep :=
  let? _ := validateIdentifier schemaPath in
  let? _ := validateIdentifier operator in
  Ok (mkExplainStep schemaPath operator outcome).

Definition ExplainStep_valid (s : ExplainStep) : bool :=
  validIdentifier (es_schemaPath s) && validIdentifier (es_operator s).

Definition NewExplainResponse (request : ExplainRequest) (r : DecisionResult) (steps : list ExplainStep)
  : result ExplainResponse :=
  if MaxExplainSteps <? zlen steps then Err ErrorResourceExhausted
  else
    let? _ := addExplainResponseCost result_budget r steps in
    if negb (CheckRequest_valid (ex_check request)) || negb (DecisionResult_valid r)
    then Err ErrorInvalidArgument
    else if negb (selectorMatchesResult (ck_selector (ex_check request)) r) then Err ErrorInvalidArgument
    else if negb (forallb ExplainStep_valid steps) then Err ErrorInvalidArgument
    else Ok (mkExplainResponse (ck_selector (ex_check request)) r steps).

Definition ExplainResponse_valid (r : ExplainResponse) : bool :=
  if negb (Selector_valid (er_selector r)) || negb (DecisionResult_valid (er_result r))
     || negb (selectorMatchesResult (er_selector r) (er_result r)) || (MaxExplainSteps <? zlen (er_steps r))
  then false
  else if negb (is_ok (addExplainResponseCost result_budget (er_result r) (er_steps r))) then false
  else forallb ExplainStep_valid (er_steps r).

(** * Required capabilities (caller.go) *)

(** The body shared by checks and batches. *)
Definition evaluation_capabilities (data : ContextualData) (selector : Selector) : list Capability :=
  let required := [CapabilityAuthorizationCheck] in
  let required := if negb (ContextualData_Empty data)
                  then required ++ [CapabilityAuthorizationContextualData] else required in
  let required := if snd (ExactRevision selector)
                  then required ++ [CapabilityAuthorizationExplicitRevision] else required in
  match canonicalCapabilities required with Ok canonical => canonical | Err _ => [] end.

Definition CheckRequest_RequiredCapabilities (r : CheckRequest) : list Capability :=
  evaluation_capabilities (ck_contextualData r) (ck_selector r).
Definition BatchCheckRequest_RequiredCapabilities (r : BatchCheckRequest) : list Capability :=
  evaluation_capabilities (bc_contextualData r) (bc_selector r).
Definition ExplainRequest_RequiredCapabilities (r : ExplainRequest) : list Capability :=
  match canonicalCapabilities (CheckRequest_RequiredCapabilities (ex_check r)
                               ++ [CapabilityAuthorizationExplain]) with
  | Ok canonical => canonical | Err _ => [] end.

Definition PublishRequest_RequiredCapabilities : list Capability := [CapabilityPolicyPublish].
Definition GetRevisionRequest_RequiredCapabilities : list Capability := [CapabilityPolicyRead].
Definition ListRevisionsRequest_RequiredCapabilities : list Capability := [CapabilityPolicyRead].
Definition ActivateRequest_RequiredCapabilities : list Capability := [CapabilityPolicyActivate].
Definition ResolveRequest_RequiredCapabilities : list Capability := [CapabilityPolicyRead].
Definition ListActivationHistoryRequest_RequiredCapabilities : list Capability := [CapabilityPolicyRead].
Definition GetDataGenerationRequest_RequiredCapabilities : list Capability := [CapabilityDataWrite].
Definition WriteDataRequest_RequiredCapabilities : list Capability := [CapabilityDataWrite].
Definition ListEventsRequest_RequiredCapabilities : list Capability := [CapabilityEventsRead].
Definition StatusRequest_RequiredCapabilities : list Capability := [CapabilitySystemStatus].

(** * Facts: constructors and re-validation agree *)

Lemma entries_accept {A} (f : A -> result unit) l :
  is_ok (foldM (fun _ x => f x) tt l) = forallb (fun x => is_ok (f x)) l.
Proof.
  induction l as [|x l IH]; simpl; [done|]. destruct (f x) as [[]|]; simpl; [apply IH|done].
Qed.

(** Acceptance of an argument map does not depend on the iteration order. *)
Lemma arguments_accept arguments :
  validateArguments arguments = Ok tt <->
  Z.of_nat (base.size arguments) <= MaxArgumentItems /\
  map_Forall (fun k v => validIdentifier k = true /\ is_ok (validateValue v) = true) arguments.
Proof.
  rewrite <- is_ok_unit_iff. unfold validateArguments. rewrite is_ok_guard, andb_true_iff, negb_true_iff, Z.ltb_ge.
  rewrite (entries_accept (fun kv : string * Value => let? _ := validateIdentifier kv.1 in validateValue kv.2)).
  rewrite map_Forall_to_list, Forall_forall, forallb_forall. setoid_rewrite <- list_elem_of_In.
  setoid_rewrite is_ok_seq. setoid_rewrite andb_true_iff. split; (intros [H1 H2]; split; [done|]).
  - intros [k v] Hkv. apply (H2 (k, v) Hkv).
  - intros [k v] Hkv. apply (H2 (k, v) Hkv).
Qed.

(** Every constructor of this file that returns its input is a test. *)
Definition accepts {A} (x : A) (r : result A) : Prop := r = Ok x \/ exists e, r = Err e.

Lemma accepts_Ok {A} (x y : A) r : accepts x r -> r = Ok y <-> y = x /\ is_ok r = true.
Proof. intros [->|[e ->]]; simpl; naive_solver. Qed.

Lemma accepts_bind {A B} (x : A) (r : result B) k : accepts x k -> accepts x (r ;;? k).
Proof. intros H. destruct r; simpl; [done|right; eauto]. Qed.
Lemma accepts_guard {A} (x : A) (b : bool) e k : accepts x k -> accepts x (if b then Err e else k).
Proof. intros H. destruct b; [right; eauto|done]. Qed.
Lemma accepts_ret {A} (x : A) : accepts x (Ok x).
Proof. by left. Qed.

Ltac solve_accepts :=
  repeat first [apply accepts_ret | apply accepts_bind | apply accepts_guard].

Ltac accept_split :=
  rewrite ?is_ok_guard, ?is_ok_seq; cbn [is_ok];
  repeat match goal with
  | |- context [is_ok (if ?b then Err ?e else ?k)] => rewrite (is_ok_guard b e k)
  | |- context [is_ok (rbind ?r (fun _ => ?k))] => rewrite (is_ok_seq r k)
  end.

Lemma NewCheckRequest_iff r r' : NewCheckRequest r = Ok r' <-> r' = r /\ CheckRequest_valid r = true.
Proof.
  rewrite (accepts_Ok r); [|unfold NewCheckRequest; solve_accepts].
  apply and_iff_compat_l. unfold NewCheckRequest, CheckRequest_valid, validNamespace, validIdentifier.
  accept_split.
  assert (Ha : is_ok (validateArguments (ck_arguments r)) = true ->
    (MaxArgumentItems <? Z.of_nat (base.size (ck_arguments r))) = false).
  { intros H%is_ok_unit_iff%arguments_accept. apply Z.ltb_ge. tauto. }
  destruct (is_ok (validateArguments _)).
  - rewrite Ha by done.
    destruct (is_ok (addCheckRequestCost _ _)), (Selector_valid _), (ContextualData_valid _), (is_ok (validateNamespace _)),
      (is_ok (validateEntityRef (ck_subject r))), (is_ok (validateEntityRef (ck_resource r))),
      (is_ok (validateIdentifier _)), (MaxEvidenceBytes <? zlen (ck_approvalEvidence r)),
      (MaxEvidenceBytes <? zlen (ck_delegationEvidence r)); cbn [negb orb andb]; done.
  - rewrite !andb_false_r. rewrite ?orb_true_r. simpl. rewrite ?orb_true_r. done.
Qed.

Lemma NewBatchCheckItem_iff subject resource action arguments i :
  NewBatchCheckItem subject resource action arguments = Ok i <->
  i = mkBatchCheckItem subject resource action arguments /\ BatchCheckItem_valid i = true.
Proof.
  set (raw := mkBatchCheckItem subject resource action arguments).
  rewrite (accepts_Ok raw); [|unfold NewBatchCheckItem; fold raw; solve_accepts].
  split; (intros [-> H]; split; [done|]; revert H); unfold NewBatchCheckItem, BatchCheckItem_valid, validIdentifier;
    fold raw; accept_split; cbn [raw bi_subject bi_resource bi_action bi_arguments];
    assert (Ha : is_ok (validateArguments arguments) = true ->
      (MaxArgumentItems <? Z.of_nat (base.size arguments)) = false) by
      (intros H%is_ok_unit_iff%arguments_accept; apply Z.ltb_ge; tauto);
    destruct (is_ok (validateArguments _)); rewrite ?Ha by done;
    destruct (is_ok (addBatchItemCost _ _)), (is_ok (validateEntityRef subject)),
      (is_ok (validateEntityRef resource)), (is_ok (validateIdentifier action)); cbn [negb orb andb];
    rewrite ?andb_false_r; done.
Qed.

(** Testing items while charging their work, or testing them afterwards. *)
Lemma item_loop items : forall b,
  is_ok (foldM (fun b item => if negb (BatchCheckItem_valid item) then Err ErrorInvalidArgument
                              else addItemWork b item) b items) =
  is_ok (foldM addItemWork b items) && forallb BatchCheckItem_valid items.
Proof.
  induction items as [|i items IH]; intros b; cbn [foldM forallb]; [done|].
  destruct (BatchCheckItem_valid i); cbn [negb rbind andb].
  - destruct (addItemWork b i); cbn [rbind]; [apply IH|done].
  - by rewrite andb_false_r.
Qed.

Lemma NewBatchCheckRequest_iff r r' :
  NewBatchCheckRequest r = Ok r' <-> r' = r /\ BatchCheckRequest_valid r = true.
Proof.
  rewrite (accepts_Ok r).
  2:{ unfold NewBatchCheckRequest. solve_accepts. destruct (add _ _); [cbn [rbind]|right; by eexists]. solve_accepts. }
  apply and_iff_compat_l. unfold NewBatchCheckRequest, BatchCheckRequest_valid, validNamespace. accept_split.
  destruct (add work_budget _) as [w|]; cbn [rbind is_ok]; [|].
  - rewrite item_loop. accept_split.
    destruct (is_ok (addBatchRequestCost _ _)), (Selector_valid _), (ContextualData_valid _), (is_ok (validateNamespace _)),
      (zlen (bc_items r) =? 0), (MaxBatchItems <? zlen (bc_items r)), (is_ok (foldM addItemWork _ _)),
      (forallb BatchCheckItem_valid _), (MaxEvidenceBytes <? zlen (bc_approvalEvidence r)),
      (MaxEvidenceBytes <? zlen (bc_delegationEvidence r)); cbn [negb orb andb]; done.
  - rewrite !andb_false_r. split; [done|]. by repeat case_match.
Qed.

(** * Decision results *)

Definition decisionResultCost (i : DecisionResultInput) : Z :=
  sum_cost textCost [di_DecisionID i; di_ReasonCode i; di_RevisionID i] +
  (116 + ((if bool_decide (di_ApprovalBindingDigest i <> zero_digest) then 8 + sha256_Size else 0) +
  (8 + sum_cost textCost (di_Requirements i)))).

Lemma fixed_fields_charge b sizes :
  budget_ok b -> Forall (fun n => 0 <= n) sizes ->
  foldM addFixedFieldCost b sizes = charge b (sum_cost (fun n => 8 + n) sizes).
Proof.
  intros Hb Hs. revert b Hb. induction Hs as [|n l Hn Hs IH]; intros b Hb; simpl; [by rewrite charge_0|].
  rewrite addFixedFieldCost_charge by done. apply bind_charge; auto; [lia|].
  clear IH. induction Hs; simpl; lia.
Qed.

Lemma addIdentifiersCost_costs : costs addIdentifiersCost (fun l => 8 + sum_cost textCost l).
Proof. intros b x Hb. split; [solve_nonneg|]. unfold addIdentifiersCost. solve_charges. Qed.
#[export] Hint Resolve addIdentifiersCost_costs : costs.

Lemma addDecisionResultCost_costs : costs addDecisionResultCost decisionResultCost.
Proof.
  intros b i Hb. unfold decisionResultCost.
  assert (H1 : 0 <= sum_cost textCost [di_DecisionID i; di_ReasonCode i; di_RevisionID i]) by solve_nonneg.
  assert (H2 : 0 <= sum_cost textCost (di_Requirements i)) by solve_nonneg.
  assert (H3 : 0 <= if bool_decide (di_ApprovalBindingDigest i <> zero_digest) then 8 + sha256_Size else 0)
    by (case_match; done).
  split; [lia|]. unfold addDecisionResultCost.
  apply seq_charge; auto; [lia|cost_leaf|]. intros b1 Hb1.
  apply seq_charge; auto; [lia|lia| |].
  { rewrite fixed_fields_charge; [done|done|]. repeat (constructor; [done|]). constructor. }
  intros b2 Hb2. apply seq_charge; auto; [lia| |].
  - case_match; [by apply addFixedFieldCost_charge|by rewrite charge_0].
  - intros b3 Hb3. by apply (addIdentifiersCost_costs b3 (di_Requirements i)).
Qed.

Lemma result_limit : 0 <= MaxAggregateOutputBytes <= MaxInt64.
Proof. by vm_compute. Qed.

(** The input a result was built from, with its canonical requirements. *)
Definition result_input (r : DecisionResult) : DecisionResultInput :=
  mkDecisionResultInput (dr_decision r) (dr_decisionID r) (dr_reasonCode r) (dr_revisionID r)
    (dr_slotGeneration r) (dr_dataGeneration r) (dr_evaluatedAt r) (dr_requirements r)
    (dr_approvalBindingDigest r) (dr_usedContextualData r) (dr_usedApproval r) (dr_usedDelegation r).

Lemma value_cost_fits r :
  is_ok (addDecisionResultValueCost result_budget r) =
  (decisionResultCost (result_input r) <=? MaxAggregateOutputBytes).
Proof.
  unfold addDecisionResultValueCost, result_budget.
  by rewrite (costs_fits _ _ _ _ addDecisionResultCost_costs result_limit).
Qed.

Lemma DecisionResult_valid_iff r :
  DecisionResult_valid r = true <->
  dr_validResult r = true /\ Decision_valid (dr_decision r) = true /\
  validateIdentifier (dr_decisionID r) = Ok tt /\ validateIdentifier (dr_reasonCode r) = Ok tt /\
  validRevisionIDString (dr_revisionID r) = true /\ IsZero (dr_evaluatedAt r) = false /\
  validCanonicalIdentifiers (dr_requirements r) MaxVerifierOutputItems MaxAggregateOutputBytes = true /\
  dr_hasApprovalBinding r = bool_decide (dr_approvalBindingDigest r <> zero_digest) /\
  (dr_decision r =? DecisionRequireApproval) = dr_hasApprovalBinding r /\
  decisionResultCost (result_input r) <= MaxAggregateOutputBytes /\
  (dr_decision r =? DecisionRequireApproval) = (0 <? zlen (dr_requirements r)).
Proof.
  rewrite <- !is_ok_unit_iff, <- Z.leb_le, <- value_cost_fits. unfold DecisionResult_valid, validIdentifier.
  destruct (dr_validResult r), (Decision_valid _), (is_ok (validateIdentifier (dr_decisionID r))),
    (is_ok (validateIdentifier (dr_reasonCode r))), (validRevisionIDString _), (IsZero _),
    (validCanonicalIdentifiers _ _ _), (is_ok (addDecisionResultValueCost _ _)); cbn [negb orb];
    try (split; [by repeat case_match|naive_solver]).
  destruct (dr_hasApprovalBinding r), (bool_decide _), (dr_decision r =? _), (0 <? _); cbn; naive_solver.
Qed.

Lemma NewDecisionResult_iff i r :
  NewDecisionResult i = Ok r <->
  zlen (di_Requirements i) <= MaxVerifierOutputItems /\ decisionResultCost i <= MaxAggregateOutputBytes /\
  canonicalIdentifiers (di_Requirements i) MaxVerifierOutputItems MaxAggregateOutputBytes
    = Ok (dr_requirements r) /\
  result_input r = mkDecisionResultInput (di_Decision i) (di_DecisionID i) (di_ReasonCode i) (di_RevisionID i)
    (di_SlotGeneration i) (di_DataGeneration i) (di_EvaluatedAt i) (dr_requirements r)
    (di_ApprovalBindingDigest i) (di_UsedContextualData i) (di_UsedApproval i) (di_UsedDelegation i) /\
  DecisionResult_valid r = true.
Proof.
  assert (Hfit := costs_fits _ _ MaxAggregateOutputBytes i addDecisionResultCost_costs result_limit).
  unfold NewDecisionResult. fold result_budget in Hfit. split.
  - destruct (Z.ltb_spec MaxVerifierOutputItems (zlen (di_Requirements i))) as [|Hn]; [done|].
    intros H. apply rbind_ok in H as (b & Hb & H). rewrite Hb in Hfit. symmetry in Hfit. apply Z.leb_le in Hfit.
    destruct (_ || _ || _) eqn:Eg; [done|]. apply orb_false_iff in Eg as [[G1 G2]%orb_false_iff G3].
    apply negb_false_iff in G1, G2.
    apply rbind_ok in H as ([] & H1 & H). apply rbind_ok in H as ([] & H2 & H).
    apply rbind_ok in H as (reqs & Hc & H).
    destruct (negb _ && _) eqn:E1; [done|]. destruct ((_ =? _) && _) eqn:E2; [done|].
    destruct (Bool.eqb _ _) eqn:E3; [|done]. cbn [negb] in H. injection H as <-.
    split; [done|]. split; [done|]. split; [done|]. split; [done|].
    destruct (canonicalIdentifiers_Ok _ _ _ _ result_limit Hc) as (Hv & _ & Hsub).
    apply DecisionResult_valid_iff. cbn [dr_validResult dr_decision dr_decisionID dr_reasonCode dr_revisionID
      dr_evaluatedAt dr_requirements dr_hasApprovalBinding dr_approvalBindingDigest].
    apply eqb_prop in E3. do 9 (split; [done|]). split.
    + apply (sum_cost_submseteq textCost) in Hsub; [|apply textCost_nonneg].
      unfold decisionResultCost in *. cbn [result_input di_DecisionID di_ReasonCode di_RevisionID
        di_ApprovalBindingDigest di_Requirements dr_decisionID dr_reasonCode dr_revisionID dr_requirements
        dr_approvalBindingDigest] in *. lia.
    + assert (Hz := zlen_nonneg reqs).
      destruct (di_Decision i =? DecisionRequireApproval), (Z.eqb_spec (zlen reqs) 0), (Z.ltb_spec 0 (zlen reqs));
        try done; lia.
  - intros (Hn & Hc & Hr & Ei & Hv). injection Ei as E1 E2 E3 E4 E5 E6 E7 E8 E9 E10 E11.
    apply DecisionResult_valid_iff in Hv as (V1 & V2 & V3 & V4 & V5 & V6 & V7 & V8 & V9 & _ & V10).
    destruct (Z.ltb_spec MaxVerifierOutputItems (zlen (di_Requirements i))); [lia|].
    apply Z.leb_le in Hc. rewrite Hc in Hfit. apply is_ok_true in Hfit as [b Hb]. rewrite Hb. cbn [rbind].
    rewrite <- E1, <- E2, <- E3, <- E4, <- E7, V2, V5, V6, V3, V4, Hr. cbn [negb orb rbind].
    assert (Hz := zlen_nonneg (dr_requirements r)). rewrite <- E8, <- E5, <- E6, <- E9, <- E10, <- E11.
    rewrite <- V8. rewrite V9 in V10 |- *. rewrite Bool.eqb_reflx.
    replace (zlen (dr_requirements r) =? 0) with (negb (dr_hasApprovalBinding r)).
    2:{ rewrite V10. destruct (Z.ltb_spec 0 (zlen (dr_requirements r))), (Z.eqb_spec (zlen (dr_requirements r)) 0);
        simpl; try done; lia. }
    destruct r as [v dc did rc rid sg dg t rq dg' hb u1 u2 u3]. cbn [dr_validResult dr_hasApprovalBinding] in *. subst v.
    by destruct hb.
Qed.

Lemma DecisionResult_valid_New r :
  DecisionResult_valid r = true <-> NewDecisionResult (result_input r) = Ok r.
Proof.
  rewrite NewDecisionResult_iff. split; [|tauto]. intros Hv. assert (V := Hv).
  apply DecisionResult_valid_iff in V as (_ & _ & _ & _ & _ & _ & V7 & _ & _ & V9 & _).
  assert (V7' := V7). apply validCanonicalIdentifiers_iff in V7 as (Hl & _); [|done].
  repeat split; auto. by apply canonicalIdentifiers_id.
Qed.

(** Requests and results have one notion of validity, implemented twice.
    For check requests, batch requests and decision results, the [valid]
    method run at every boundary accepts a value exactly when the public
    constructor, given its fields, returns the very same value; and whatever
    a constructor returns is valid. *)
Lemma requests_revalidate :
  (forall r, CheckRequest_valid r = true <-> NewCheckRequest r = Ok r) /\
  (forall r, BatchCheckRequest_valid r = true <-> NewBatchCheckRequest r = Ok r) /\
  (forall r, DecisionResult_valid r = true <-> NewDecisionResult (result_input r) = Ok r) /\
  (forall i r, NewCheckRequest i = Ok r -> CheckRequest_valid r = true) /\
  (forall i r, NewBatchCheckRequest i = Ok r -> BatchCheckRequest_valid r = true) /\
  (forall i r, NewDecisionResult i = Ok r -> DecisionResult_valid r = true).
Proof.
  repeat split.
  - intros H. by apply NewCheckRequest_iff.
  - by intros [_ H]%NewCheckRequest_iff.
  - intros H. by apply NewBatchCheckRequest_iff.
  - by intros [_ H]%NewBatchCheckRequest_iff.
  - apply DecisionResult_valid_New.
  - apply DecisionResult_valid_New.
  - by intros i r [-> H]%NewCheckRequest_iff.
  - by intros i r [-> H]%NewBatchCheckRequest_iff.
  - by intros i r (_ & _ & _ & _ & H)%NewDecisionResult_iff.
Qed.

(** * Responses *)

(** The snapshot of one evaluation: revision, slot generation, data
    generation and time. *)
Definition snapshot_of (r : DecisionResult) : string * Z * Z * Time :=
  (dr_revisionID r, dr_slotGeneration r, dr_dataGeneration r, dr_evaluatedAt r).

Lemma same_snapshot_spec a b : same_snapshot a b = true <-> snapshot_of b = snapshot_of a.
Proof.
  unfold same_snapshot, snapshot_of. rewrite !andb_true_iff, bool_decide_eq_true, !Z.eqb_eq. split.
  - intros (((-> & ->) & ->) & ->). done.
  - intros E. injection E. auto.
Qed.

(** A valid selector names a slot, resolved at a positive generation, or an
    exact revision, evaluated as such with no slot generation. *)
Definition pinned (selector : Selector) (revision : string) (slotGeneration : Z) : Prop :=
  (sel_revisionID selector = ""%string /\ 0 < slotGeneration) \/
  (sel_slot selector = ""%string /\ revision = sel_revisionID selector /\ slotGeneration = 0).

Lemma Selector_valid_cases s :
  Selector_valid s = true ->
  (sel_slot s <> ""%string /\ sel_revisionID s = ""%string) \/ (sel_slot s = ""%string /\ sel_revisionID s <> ""%string).
Proof.
  unfold Selector_valid. repeat case_bool_decide; cbn; intros; try done; [right|left]; done.
Qed.

Lemma selectorMatchesResult_spec s r :
  Selector_valid s = true ->
  selectorMatchesResult s r = true <-> pinned s (dr_revisionID r) (dr_slotGeneration r).
Proof.
  intros Hs. unfold selectorMatchesResult, ExactRevision, pinned. rewrite Hs.
  destruct (Selector_valid_cases s Hs) as [[H1 H2]|[H1 H2]].
  - rewrite (bool_decide_eq_false_2 (sel_revisionID s <> ""%string)) by (rewrite H2; naive_solver). cbn [andb].
    rewrite Z.ltb_lt. naive_solver.
  - rewrite (bool_decide_eq_true_2 (sel_revisionID s <> ""%string)) by done.
    rewrite (bool_decide_eq_true_2 (sel_slot s = ""%string)) by done. cbn [andb].
    rewrite andb_true_iff, bool_decide_eq_true, Z.eqb_eq. naive_solver.
Qed.

Lemma batch_selector_valid r : BatchCheckRequest_valid r = true -> Selector_valid (bc_selector r) = true.
Proof.
  unfold BatchCheckRequest_valid. destruct (Selector_valid (bc_selector r)); [done|].
  rewrite orb_true_r. done.
Qed.

(** A batch response speaks for one snapshot. The constructor accepts a
    list of results exactly when the request is valid, there is one result
    per item in request order, the results fit the response budget, each is a
    valid decision, and all of them were evaluated at the same revision, slot
    generation, data generation and instant, which are those the request's
    selector can resolve to; the accepted response passes re-validation and
    holds the results unchanged. *)
Lemma batch_response_pinned request results response :
  NewBatchCheckResponse request results = Ok response <->
  response = mkBatchCheckResponse (bc_selector request) results /\
  BatchCheckResponse_valid response = true /\
  BatchCheckRequest_valid request = true /\ zlen results = zlen (bc_items request) /\
  exists revision slotGeneration dataGeneration evaluatedAt,
    pinned (bc_selector request) revision slotGeneration /\
    Forall (fun r => DecisionResult_valid r = true /\
      snapshot_of r = (revision, slotGeneration, dataGeneration, evaluatedAt)) results.
Proof.
  assert (Hall : forall first rest, forallb (fun r => DecisionResult_valid r && same_snapshot first r) (first :: rest) = true <->
    Forall (fun r => DecisionResult_valid r = true /\ snapshot_of r = snapshot_of first) (first :: rest)).
  { intros first rest. rewrite forallb_forall, List.Forall_forall. setoid_rewrite andb_true_iff.
    by setoid_rewrite same_snapshot_spec. }
  unfold NewBatchCheckResponse. split.
  - destruct (Z.ltb_spec MaxBatchItems (zlen results)) as [|Hn]; [done|].
    destruct (BatchCheckRequest_valid request) eqn:Hv; [|done]. assert (Hs := batch_selector_valid _ Hv).
    destruct (Z.eqb_spec (zlen results) (zlen (bc_items request))) as [Hl|]; [|done]. cbn [negb orb].
    intros H. apply rbind_ok in H as (b & Hb & H). destruct results as [|first rest]; [done|].
    destruct (forallb _ _) eqn:Ef; [|done]. destruct (selectorMatchesResult _ _) eqn:Em; [|done].
    cbn [negb] in H. injection H as <-. split; [done|]. split.
    + unfold BatchCheckResponse_valid. cbn [br_selector br_results]. rewrite Hs, Hb, Ef, Em. cbn [negb orb is_ok].
      rewrite (proj2 (Z.ltb_ge _ _) Hn). rewrite zlen_cons. assert (H0 := zlen_nonneg rest).
      by destruct (Z.eqb_spec (1 + zlen rest) 0); [lia|].
    + do 2 (split; [done|]). apply Hall in Ef. apply selectorMatchesResult_spec in Em; [|done].
      exists (dr_revisionID first), (dr_slotGeneration first), (dr_dataGeneration first), (dr_evaluatedAt first). done.
  - intros (-> & Hr & Hv & Hl & rev & sg & dg & t & Hp & Hf).
    unfold BatchCheckResponse_valid in Hr. cbn [br_selector br_results] in Hr.
    destruct (Selector_valid (bc_selector request)); [|done].
    destruct (zlen results =? 0); [done|]. destruct (MaxBatchItems <? zlen results); [done|]. cbn [negb orb] in Hr.
    rewrite Hv, Hl, Z.eqb_refl. cbn [negb orb].
    destruct (addBatchResponseCost _ _) as [b|]; [|done]. cbn [rbind is_ok negb] in *.
    destruct results as [|first rest]; [done|]. apply andb_true_iff in Hr as [-> ->]. done.
Qed.

(** * Capabilities of an evaluation *)

(** An evaluation requires authorization.check; contextual data and an exact
    revision each add their capability, and nothing else does. *)
Lemma evaluation_capabilities_exact data selector c :
  c ∈ evaluation_capabilities data selector <->
  c = CapabilityAuthorizationCheck \/
  (c = CapabilityAuthorizationContextualData /\ ContextualData_Empty data = false) \/
  (c = CapabilityAuthorizationExplicitRevision /\ snd (ExactRevision selector) = true).
Proof.
  unfold evaluation_capabilities. set (l := if snd (ExactRevision selector) then _ else _).
  assert (Hl : forall d, d ∈ l <-> d = CapabilityAuthorizationCheck \/
    (d = CapabilityAuthorizationContextualData /\ ContextualData_Empty data = false) \/
    (d = CapabilityAuthorizationExplicitRevision /\ snd (ExactRevision selector) = true)).
  { intros d. subst l. destruct (ContextualData_Empty data), (snd (ExactRevision selector)); cbn [negb app];
      rewrite ?elem_of_cons, ?elem_of_nil; naive_solver. }
  destruct (canonicalCapabilities l) as [canon|] eqn:E.
  - apply canonicalCapabilities_Ok in E as (_ & _ & Hm). by rewrite Hm, Hl.
  - exfalso. unfold canonicalCapabilities in E.
    destruct (forallb Capability_valid l) eqn:Hv; [done|]. apply not_true_iff_false in Hv. apply Hv.
    apply all_valid_elem. intros d Hd%Hl. by destruct Hd as [->|[[-> _]|[-> _]]].
Qed.
