(* ===== verification/Events.v ===== *)
(** State events and component status (events.go). *)

From Stdlib Require Import ZArith Lia Permutation Sorted.
From stdpp Require Import base list gmap strings sorting.
From S2P Require Import Prelude Limits Text Types Cost Policy.

Definition event_budget : budgetCounter := mkBudget 0 MaxEventPageBytes.

(** The kind-specific part of the switch in [NewStateEvent]. *)
Definition event_fields_ok (e : StateEvent) : bool :=
  if ev_kind e =? StateEventRevisionPublished then
    negb (negb (validRevisionIDString (ev_revisionID e)) || bool_decide (ev_slot e <> ""%string)
          || negb (ev_slotGeneration e =? 0) || negb (ev_dataGeneration e =? 0))
  else if ev_kind e =? StateEventSlotActivated then
    negb (negb (validRevisionIDString (ev_revisionID e)) || negb (is_ok (validateIdentifier (ev_slot e)))
          || (ev_slotGeneration e =? 0) || negb (ev_dataGeneration e =? 0))
  else if ev_kind e =? StateEventDataWritten then
    negb (bool_decide (ev_revisionID e <> ""%string) || bool_decide (ev_slot e <> ""%string)
          || negb (ev_slotGeneration e =? 0) || (ev_dataGeneration e =? 0))
  else false.

(** [StateEventInput] has the fields of [StateEvent]. *)
Definition NewStateEvent (raw : StateEvent) : result StateEvent :=
  let? _ := addStateEventCost event_budget raw in
  if IsZero (ev_occurredAt raw) then Err ErrorInvalidArgument
  else
    let? _ := validateNamespace (ev_namespace raw) in
    let? _ := validateIdentifier (ev_cursor raw) in
    if event_fields_ok raw then Ok raw else Err ErrorInvalidArgument.

(** [func (e StateEvent) valid() bool]: generations are unsigned, [> 0]. *)
Definition StateEvent_valid (e : StateEvent) : bool :=
  if negb (validNamespace (ev_namespace e)) || negb (validIdentifier (ev_cursor e))
     || IsZero (ev_occurredAt e) then false
  else if negb (is_ok (addStateEventCost event_budget e)) then false
  else if ev_kind e =? StateEventRevisionPublished then
    validRevisionIDString (ev_revisionID e) && bool_decide (ev_slot e = ""%string)
    && (ev_slotGeneration e =? 0) && (ev_dataGeneration e =? 0)
  else if ev_kind e =? StateEventSlotActivated then
    validRevisionIDString (ev_revisionID e) && validIdentifier (ev_slot e)
    && (0 <? ev_slotGeneration e) && (ev_dataGeneration e =? 0)
  else if ev_kind e =? StateEventDataWritten then
    bool_decide (ev_revisionID e = ""%string) && bool_decide (ev_slot e = ""%string)
    && (ev_slotGeneration e =? 0) && (0 <? ev_dataGeneration e)
  else false.

Definition NewListEventsRequest (namespace afterCursor : string) (limit : Z) : result ListEventsRequest :=
  if limit <=? 0 then Err ErrorInvalidArgument
  else
    let? _ := validateNamespace namespace in
    let? _ := validateOptionalIdentifier afterCursor in
    if MaxPageRequestItems <? limit then Err ErrorResourceExhausted
    else Ok (mkListEventsRequest namespace afterCursor limit).

Definition ListEventsRequest_valid (r : ListEventsRequest) : bool :=
  validNamespace (le_namespace r) && is_ok (validateOptionalIdentifier (le_afterCursor r))
  && (0 <? le_limit r) && (le_limit r <=? MaxPageRequestItems).

Fixpoint event_page_loop (namespace : string) (seen : gset string) (events : list StateEvent) : bool :=
  match events with
  | [] => true
  | event :: rest =>
      StateEvent_valid event && bool_decide (ev_namespace event = namespace)
      && negb (bool_decide (ev_cursor event ∈ seen))
      && event_page_loop namespace ({[ev_cursor event]} ∪ seen) rest
  end.

Definition validEventPage (request : ListEventsRequest) (events : list StateEvent) : bool :=
  event_page_loop (le_namespace request) ∅ events.

Definition NewListEventsResponse (request : ListEventsRequest) (events : list StateEvent)
  (nextCursor : string) : result ListEventsResponse :=
  if negb (ListEventsRequest_valid request) then Err ErrorInvalidArgument
  else if (le_limit request <? zlen events) || (MaxEventPageItems <? zlen events)
          || (MaxPageResponseItems <? zlen events)
  then Err ErrorResourceExhausted
  else
    let? _ := addEventPageCost event_budget events nextCursor in
    let? _ := validateOptionalIdentifier nextCursor in
    if validEventPage request events then Ok (mkListEventsResponse true request events nextCursor)
    else Err ErrorInvalidArgument.

Definition ListEventsResponse_valid (r : ListEventsResponse) : bool :=
  if negb (ler_validResponse r) || negb (ListEventsRequest_valid (ler_request r))
     || (le_limit (ler_request r) <? zlen (ler_events r)) || (MaxEventPageItems <? zlen (ler_events r))
     || (MaxPageResponseItems <? zlen (ler_events r))
     || negb (is_ok (validateOptionalIdentifier (ler_nextCursor r)))
  then false
  else is_ok (addEventPageCost event_budget (ler_events r) (ler_nextCursor r))
       && validEventPage (ler_request r) (ler_events r).

(** * Facts *)

Lemma NewStateEvent_Ok raw e : NewStateEvent raw = Ok e -> e = raw.
Proof.
  unfold NewStateEvent. intros H. apply rbind_ok in H as (? & _ & H).
  destruct (IsZero _); [done|]. apply rbind_ok in H as (? & _ & H). apply rbind_ok in H as (? & _ & H).
  destruct (event_fields_ok raw); [|done]. by injection H as <-.
Qed.

(** The event constructor and the re-validation of received events accept
    the same events, for every kind, field combination and budget, as long as
    the generations are unsigned numbers. *)
Lemma NewStateEvent_iff_valid raw :
  0 <= ev_slotGeneration raw -> 0 <= ev_dataGeneration raw ->
  NewStateEvent raw = Ok raw <-> StateEvent_valid raw = true.
Proof.
  intros Hs Hd. unfold NewStateEvent, StateEvent_valid, event_fields_ok, validNamespace, validIdentifier.
  destruct (addStateEventCost event_budget raw); simpl.
  2:{ split; [done|]. by destruct (_ || _ || _). }
  destruct (IsZero _); simpl; [split; [done|]; by rewrite !orb_true_r|].
  destruct (validateNamespace _); simpl; [|done]. destruct (validateIdentifier (ev_cursor raw)); simpl; [|done].
  assert (Z0 : forall n, 0 <= n -> (0 <? n) = negb (n =? 0)).
  { intros n Hn. destruct (Z.ltb_spec 0 n), (Z.eqb_spec n 0); simpl; lia. }
  rewrite !Z0 by done. rewrite !bool_decide_not.
  destruct (ev_kind raw =? 1), (ev_kind raw =? 2), (ev_kind raw =? 3); simpl; try done;
    rewrite !negb_orb, !negb_involutive;
    match goal with |- (if ?b then _ else _) = _ <-> _ => destruct b; simpl; by split end.
Qed.

Lemma event_page_loop_spec namespace events : forall seen,
  event_page_loop namespace seen events = true <->
  Forall (fun e => StateEvent_valid e = true /\ ev_namespace e = namespace) events /\
  NoDup (ev_cursor <$> events) /\ (forall e, e ∈ events -> ev_cursor e ∉ seen).
Proof.
  induction events as [|e rest IH]; intros seen.
  { cbn. split; [|done]. intros _. split; [constructor|]. split; [constructor|].
    intros r Hr. by apply elem_of_nil in Hr. }
  cbn [event_page_loop fmap list_fmap]. rewrite !andb_true_iff, IH. clear IH.
  rewrite bool_decide_eq_true, negb_true_iff, bool_decide_eq_false, NoDup_cons, Forall_cons. split.
  - intros (((Hv & Hn) & Hseen) & Hall & Hnd & Hnew). repeat split; auto.
    + intros (y & E & Hy)%list_elem_of_fmap. apply (Hnew y Hy). rewrite E. set_solver.
    + intros x [->|Hx]%elem_of_cons; [done|]. intros Hin. apply (Hnew x Hx). set_solver.
  - intros (([Hv Hn] & Hall) & (Hnin & Hnd) & Hnew). repeat split; auto.
    + apply Hnew. left.
    + intros x Hx [E%elem_of_singleton|Hin]%elem_of_union.
      * apply Hnin. rewrite <- E. apply list_elem_of_fmap. eauto.
      * eapply (Hnew x); [by right|done].
Qed.
