(* ===== verification/Status.v ===== *)
(** Component status (events.go lines 226-357).

    Status responses list components by name; a response the constructor
    returns passes the re-validation the core runs on it. *)

From Stdlib Require Import ZArith Lia Permutation Sorted.
From stdpp Require Import base list gmap strings sorting.
From S2P Require Import Prelude Limits Text Types Cost Canon Data Policy.

Record StatusRequest := mkStatusRequest { sr_authorizationNamespace : string }.

Definition NewStatusRequest (authorizationNamespace : string) : result StatusRequest :=
  let? _ := validateNamespace authorizationNamespace in Ok (mkStatusRequest authorizationNamespace).

Definition ComponentReady : Z := 1.
Definition ComponentDegraded : Z := 2.
Definition ComponentUnavailable : Z := 3.

Record ComponentStatus := mkComponentStatus { cs_name : string; cs_state : Z; cs_reasonCode : string }.
Record StatusResponse := mkStatusResponse {
  str_validResponse : bool; str_ready : bool; str_components : list ComponentStatus }.

(** cost.go *)
Definition addComponentStatusCost (b : budgetCounter) (component : ComponentStatus) : result budgetCounter :=
  let? b := addTextCost b (cs_name component) in
  let? b := addFixedFieldCost b enumBytes in
  addTextCost b (cs_reasonCode component).

Definition addStatusResponseCost (b : budgetCounter) (ready : bool) (components : list ComponentStatus)
  : result budgetCounter :=
  let? b := addFixedFieldCost b boolBytes in
  let? b := add b collectionMetadataBytes in
  foldM addComponentStatusCost b components.

Definition NewComponentStatus (name : string) (state : Z) (reasonCode : string) : result ComponentStatus :=
  let raw := mkComponentStatus name state reasonCode in
  let? _ := addComponentStatusCost output_budget raw in
  if (state <? ComponentReady) || (ComponentUnavailable <? state) then Err ErrorInvalidArgument
  else
    let? _ := validateIdentifier name in
    let? _ := validateIdentifier reasonCode in
    Ok raw.

Definition ComponentStatus_valid (s : ComponentStatus) : bool :=
  if negb (validIdentifier (cs_name s)) || negb (validIdentifier (cs_reasonCode s))
     || (cs_state s <? ComponentReady) || (ComponentUnavailable <? cs_state s)
  then false
  else is_ok (addComponentStatusCost output_budget s).

(** The loop that looks for a duplicate name. *)
Fixpoint names_loop (names : gset string) (components : list ComponentStatus) : result unit :=
  match components with
  | [] => Ok tt
  | c :: rest =>
      if bool_decide (cs_name c ∈ names) then Err ErrorInvalidArgument
      else names_loop ({[cs_name c]} ∪ names) rest
  end.

Definition nameLess (left right : ComponentStatus) : bool := str_lt (cs_name left) (cs_name right).

Definition NewStatusResponse (ready : bool) (components : list ComponentStatus) : result StatusResponse :=
  if MaxStatusComponents <? zlen components then Err ErrorResourceExhausted
  else
    let? _ := addStatusResponseCost output_budget ready components in
    if negb (forallb ComponentStatus_valid components) then Err ErrorInvalidArgument
    else
      let? _ := names_loop ∅ components in
      Ok (mkStatusResponse true ready (sort_by (less_cmp nameLess) components)).

Definition StatusResponse_valid (r : StatusResponse) : bool :=
  if negb (str_validResponse r) || (MaxStatusComponents <? zlen (str_components r)) then false
  else if negb (is_ok (addStatusResponseCost output_budget (str_ready r) (str_components r))) then false
  else forallb ComponentStatus_valid (str_components r) && adjacent nameLess (str_components r).

(** * Facts *)

Definition componentCost (c : ComponentStatus) : Z := textCost (cs_name c) + (9 + textCost (cs_reasonCode c)).

Lemma addComponentStatusCost_costs : costs addComponentStatusCost componentCost.
Proof.
  intros b x Hb. unfold componentCost. split; [solve_nonneg|]. unfold addComponentStatusCost.
  change 9 with (8 + 1). solve_charges.
Qed.
#[export] Hint Resolve addComponentStatusCost_costs : costs.

Lemma addStatusResponseCost_costs ready :
  costs (fun b l => addStatusResponseCost b ready l) (fun l => 9 + (8 + sum_cost componentCost l)).
Proof.
  intros b x Hb. split; [solve_nonneg|]. unfold addStatusResponseCost. change 9 with (8 + 1). solve_charges.
Qed.

Lemma names_loop_spec components : forall names,
  names_loop names components = Ok tt <->
  NoDup (cs_name <$> components) /\ (forall c, c ∈ components -> cs_name c ∉ names).
Proof.
  induction components as [|c rest IH]; intros names.
  { cbn. split; [|done]. intros _. split; [constructor|]. intros c Hc. by apply elem_of_nil in Hc. }
  cbn [names_loop fmap list_fmap]. rewrite NoDup_cons.
  case_bool_decide as Hin; [split; [done|]; intros (_ & Hn); by destruct (Hn c ltac:(left))|].
  rewrite IH. clear IH. split.
  - intros (Hnd & Hnew). repeat split; auto.
    + intros (y & E & Hy)%list_elem_of_fmap. apply (Hnew y Hy). rewrite E. set_solver.
    + intros x [->|Hx]%elem_of_cons; [done|]. intros Hx'. apply (Hnew x Hx). set_solver.
  - intros ([Hni Hnd] & Hnew). split; auto.
    intros x Hx [E%elem_of_singleton|Hx']%elem_of_union.
    + apply Hni. rewrite <- E. apply list_elem_of_fmap. eauto.
    + eapply (Hnew x); [by right|done].
Qed.

(** Names order components; ties, which the constructor excludes, are broken
    by the other fields. *)
Definition compareComponent (a b : ComponentStatus) : comparison :=
  then_cmp (String.compare (cs_name a) (cs_name b))
    (then_cmp (Z.compare (cs_state a) (cs_state b)) (String.compare (cs_reasonCode a) (cs_reasonCode b))).

#[global] Instance compareComponent_total : TotalCompare compareComponent.
Proof.
  apply (then_cmp_total cs_name (fun c => (cs_state c, cs_reasonCode c)) String.compare (pair_cmp Z.compare String.compare)).
  intros [] []; simpl; congruence.
Qed.

Lemma component_name_inj l a b : NoDup (cs_name <$> l) -> a ∈ l -> b ∈ l -> cs_name a = cs_name b -> a = b.
Proof.
  intros Hnd [i Hi]%list_elem_of_lookup [j Hj]%list_elem_of_lookup E.
  assert (i = j) as ->; [|congruence].
  eapply (NoDup_lookup _ i j (cs_name a) Hnd); rewrite list_lookup_fmap, ?Hi, ?Hj; simpl; congruence.
Qed.

Lemma sort_components l :
  NoDup (cs_name <$> l) ->
  sort_by (less_cmp nameLess) l = sort_by compareComponent l /\
  adjacent nameLess (sort_by compareComponent l) = true.
Proof.
  intros Hnd. split.
  - apply sort_by_ext. intros a b Ha Hb. unfold less_cmp, nameLess, str_lt, compareComponent.
    destruct (tc_spec String.compare (cs_name a) (cs_name b)) as [E|E|E]; simpl; [|done|by rewrite E].
    assert (a = b) as -> by (by apply (component_name_inj l)).
    by rewrite (tc_refl String.compare), Z.compare_refl, (tc_refl String.compare).
  - assert (Hs := sort_by_sorted compareComponent l). assert (Hp := sort_by_perm compareComponent l).
    rewrite <- Hp in Hnd. clear Hp.
    rewrite (adjacent_Sorted (fun a b => String.compare (cs_name a) (cs_name b) = Lt)).
    2:{ intros x y. unfold nameLess, str_lt. by destruct (String.compare _ _). }
    apply StronglySorted_Sorted. induction Hs as [|x s Hs IH Hx]; [constructor|].
    simpl in Hnd. apply NoDup_cons in Hnd as [Hni Hnd]. constructor; [by apply IH|].
    rewrite Forall_forall in Hx |- *. intros y Hy. specialize (Hx y Hy). unfold cle, compareComponent in Hx.
    destruct (tc_spec String.compare (cs_name x) (cs_name y)) as [E|E|E]; [|done|].
    + exfalso. apply Hni. rewrite E. apply list_elem_of_fmap. eauto.
    + by rewrite (tc_lt_asym String.compare _ _ E) in Hx.
Qed.

Lemma NewStatusResponse_valid ready components r :
  NewStatusResponse ready components = Ok r ->
  StatusResponse_valid r = true /\ str_ready r = ready /\ str_components r ≡ₚ components.
Proof.
  unfold NewStatusResponse, StatusResponse_valid. destruct (Z.ltb_spec MaxStatusComponents (zlen components)) as [|Hl]; [done|].
  intros H. apply rbind_ok in H as (b & Hb & H). destruct (forallb ComponentStatus_valid components) eqn:Hv; [|done].
  cbn [negb] in H. apply rbind_ok in H as ([] & (Hnd & _)%names_loop_spec & [= <-]).
  cbn [str_validResponse str_ready str_components]. destruct (sort_components components Hnd) as [-> Ha].
  assert (Hp := sort_by_perm compareComponent components). split; [|done].
  unfold zlen in *. rewrite Hp. destruct (Z.ltb_spec MaxStatusComponents (Z.of_nat (length components))); [lia|].
  cbn [negb orb].
  assert (Hc : is_ok (addStatusResponseCost output_budget ready (sort_by compareComponent components)) = true).
  { unfold output_budget in *. rewrite (costs_fits _ _ _ _ (addStatusResponseCost_costs ready)) by (by vm_compute).
    rewrite (sum_cost_perm _ _ _ Hp).
    rewrite <- (costs_fits _ (fun l => 9 + (8 + sum_cost componentCost l)) _ _ (addStatusResponseCost_costs ready)) by (by vm_compute).
    by rewrite Hb. }
  rewrite Hc. cbn [negb]. rewrite Ha, andb_true_r. eapply forallb_elem; [|exact Hv]. intros x. by rewrite Hp.
Qed.
