(* ===== verification/Revisions.v ===== *)
(** Content-addressed revision writes and records (store/revisions.go).

    The policy DSL is an external module: [Dsl] is what the engine calls of
    it. An artifact is opaque; it can be decoded from bytes, encoded again,
    and has a fixed-size digest. SHA-256 is a function on bytes with a
    fixed-size result. Nothing else is assumed of either. *)

From Stdlib Require Import ZArith Lia Sorted.
From stdpp Require Import base list strings.
From S2P Require Import Prelude Limits Text Types Cost Policy.

Class Dsl := {
  Artifact : Type;
  DecodeArtifact : list Z -> option Artifact;
  MarshalBinary : Artifact -> option (list Z);
  Digest : Artifact -> list Z;
  MaxPolicyArtifactBytes : Z;
  sha256_Sum256 : list Z -> list Z
}.

(** The Go types of [Digest] and [Sum256] are [[32]byte]. *)
Class DslLaws (D : Dsl) : Prop := {
  Digest_size : forall a, zlen (Digest a) = sha256_Size /\ Forall is_byte (Digest a);
  Sum256_size : forall l, zlen (sha256_Sum256 l) = sha256_Size /\ Forall is_byte (sha256_Sum256 l)
}.

Record RevisionProvenance := mkRevisionProvenance {
  prov_sourceName : string; prov_originalSource : list Z;
  prov_originalSourceDigest : list Z; prov_valid : bool }.

(** [RevisionWrite] and [RevisionRecord] have the same fields. *)
Record RevisionWrite := mkRevisionWrite {
  rw_metadata : RevisionMetadata; rw_artifact : list Z; rw_provenance : RevisionProvenance }.
Definition RevisionRecord : Type := RevisionWrite.

Definition zero_provenance : RevisionProvenance :=
  mkRevisionProvenance "" [] (replicate 32 0) false.

Record PutRevisionResult := mkPutRevisionResult { pr_record : RevisionRecord; pr_created : bool }.

Section Operations.
Context `{D : Dsl}.

(** policy.go; [artifact *dsl.Artifact] may be nil. *)
Definition RevisionIDFromArtifact (artifact : option Artifact) : result RevisionID :=
  match artifact with
  | None => Err ErrorInvalidArgument
  | Some a =>
      match MarshalBinary a with
      | None => Err ErrorInvalidArgument
      | Some _ => Ok (mkRevisionID (Digest a) true)
      end
  end.

Definition NewRevisionProvenance (request : PublishRequest) : result RevisionProvenance :=
  let source := pub_source request in
  let? _ := NewPublishRequest (pub_namespace request) (pub_sourceName request) source in
  Ok (mkRevisionProvenance (pub_sourceName request) source (sha256_Sum256 source) true).

Definition RevisionProvenance_Valid (p : RevisionProvenance) : bool :=
  if negb (prov_valid p) || (zlen (prov_originalSource p) =? 0)
     || bool_decide (sha256_Sum256 (prov_originalSource p) <> prov_originalSourceDigest p)
  then false
  else is_ok (NewPublishRequest "provenance" (prov_sourceName p) (prov_originalSource p)).

Definition provenance_zero (p : RevisionProvenance) : bool :=
  negb (prov_valid p) && bool_decide (prov_sourceName p = ""%string)
  && (zlen (prov_originalSource p) =? 0)
  && bool_decide (prov_originalSourceDigest p = replicate 32 0).

Definition validateRevisionMetadata (metadata : RevisionMetadata) : result unit :=
  if bool_decide (rm_namespace metadata = ""%string)
     || bool_decide (RevisionMetadata_ID metadata = ""%string) || IsZero (rm_publishedAt metadata)
  then Err ErrorInvalidArgument
  else
    let? _ := NewGetRevisionRequest (rm_namespace metadata) (RevisionMetadata_ID metadata) in
    let? id := ParseRevisionID (RevisionMetadata_ID metadata) in
    let? _ := NewRevisionMetadata (rm_namespace metadata) id (rm_publishedAt metadata) in
    Ok tt.

Definition NewRevisionWrite (metadata : RevisionMetadata) (artifact : list Z) : result RevisionWrite :=
  let? _ := validateRevisionMetadata metadata in
  if zlen artifact =? 0 then Err ErrorInvalidArgument
  else if MaxPolicyArtifactBytes <? zlen artifact then Err ErrorResourceExhausted
  else Ok (mkRevisionWrite metadata artifact zero_provenance).

Definition NewRevisionWriteWithProvenance (metadata : RevisionMetadata) (artifact : list Z)
  (provenance : RevisionProvenance) : result RevisionWrite :=
  let? write := NewRevisionWrite metadata artifact in
  if RevisionProvenance_Valid provenance
  then Ok (mkRevisionWrite (rw_metadata write) (rw_artifact write) provenance)
  else Err ErrorInvalidArgument.

Definition RevisionWrite_Valid (w : RevisionWrite) : bool :=
  is_ok (validateRevisionMetadata (rw_metadata w)) && (0 <? zlen (rw_artifact w))
  && (zlen (rw_artifact w) <=? MaxPolicyArtifactBytes)
  && (provenance_zero (rw_provenance w) || RevisionProvenance_Valid (rw_provenance w)).

Definition verifyRevisionContent (write : RevisionWrite) : result unit :=
  match DecodeArtifact (rw_artifact write) with
  | None => Err ErrorIntegrity
  | Some artifact =>
      match RevisionIDFromArtifact (Some artifact) with
      | Err _ => Err ErrorIntegrity
      | Ok id =>
          if bool_decide (RevisionID_String id <> RevisionMetadata_ID (rw_metadata write))
          then Err ErrorIntegrity
          else match MarshalBinary artifact with
               | None => Err ErrorIntegrity
               | Some canonical =>
                   if bool_decide (canonical = rw_artifact write) then Ok tt else Err ErrorIntegrity
               end
      end
  end.

Definition NewRevisionRecordFromWrite (write : RevisionWrite) : result RevisionRecord :=
  if negb (RevisionWrite_Valid write) then Err ErrorInvalidArgument
  else let? _ := verifyRevisionContent write in Ok write.

Definition NewRevisionRecord (metadata : RevisionMetadata) (artifact : list Z) : result RevisionRecord :=
  let? write := NewRevisionWrite metadata artifact in
  NewRevisionRecordFromWrite write.

Definition RevisionRecord_Valid (r : RevisionRecord) : bool :=
  RevisionWrite_Valid r && is_ok (verifyRevisionContent r).

Definition NewPutRevisionResult (record : RevisionRecord) (created : bool) : result PutRevisionResult :=
  if RevisionRecord_Valid record then Ok (mkPutRevisionResult record created)
  else Err ErrorInvalidArgument.

Definition PutRevisionResult_Valid (r : PutRevisionResult) : bool := RevisionRecord_Valid (pr_record r).

(** ** Facts *)

Lemma validateRevisionMetadata_Ok m :
  validateRevisionMetadata m = Ok tt ->
  validRevisionIDString (RevisionMetadata_ID m) = true /\ validNamespace (rm_namespace m) = true /\
  RevisionMetadata_valid m = true.
Proof.
  unfold validateRevisionMetadata. destruct (_ || _ || _) eqn:E; [done|]. intros H.
  apply orb_false_iff in E as [[_ E1]%orb_false_iff Ez].
  apply rbind_ok in H as (g & Hg & H). apply rbind_ok in H as (id & Hp & H).
  apply rbind_ok in H as (m' & Hm & _).
  apply ParseRevisionID_Ok in Hp as (Hv & Hwf & Hs). split; [done|].
  apply NewRevisionMetadata_Ok in Hm as [-> Hm].
  unfold RevisionMetadata_valid in Hm |- *. cbn [rm_namespace rm_id rm_publishedAt] in Hm.
  destruct (negb (validNamespace (rm_namespace m))) eqn:En; [done|]. apply negb_false_iff in En.
  split; [done|]. rewrite Ez in *. simpl in *.
  destruct (rid_valid id); [|done].
  assert (Hr : rid_valid (rm_id m) = true).
  { unfold RevisionMetadata_ID, RevisionID_String in E1. destruct (rid_valid (rm_id m)); [done|].
    by rewrite bool_decide_eq_true_2 in E1. }
  rewrite Hr. exact Hm.
Qed.

(** A stored revision is content addressed and canonical: a record is made
    from a write exactly when the write is well formed, its bytes decode, the
    declared identifier is the hexadecimal digest of the decoded artifact, and
    the artifact encodes back to exactly those bytes. *)
Lemma record_content_addressed (write record : RevisionWrite) :
  NewRevisionRecordFromWrite write = Ok record <->
  record = write /\ RevisionWrite_Valid write = true /\
  exists a, DecodeArtifact (rw_artifact write) = Some a /\
    MarshalBinary a = Some (rw_artifact write) /\
    RevisionMetadata_ID (rw_metadata write) = string_of_bytes (hex_encode (Digest a)).
Proof.
  unfold NewRevisionRecordFromWrite, verifyRevisionContent, RevisionIDFromArtifact.
  destruct (RevisionWrite_Valid write); simpl; [|naive_solver].
  destruct (DecodeArtifact _) as [a|] eqn:Hd; simpl; [|split; [done|naive_solver]].
  destruct (MarshalBinary a) as [cb|] eqn:Hm; simpl; [|split; [done|naive_solver]].
  unfold RevisionID_String at 1. cbn [rid_valid rid_digest].
  case_bool_decide as E1; simpl; [split; [done|]; intros (-> & _ & a' & ? & ? & ?); naive_solver|].
  case_bool_decide as E2; simpl.
  - split; [intros [= <-]|naive_solver]. subst cb. repeat split; eauto.
  - split; [done|]. naive_solver.
Qed.
End Operations.
