(* ===== verification/Domain.v ===== *)
(** Domain rules (internal/domain): the data schema of an artifact.

    [DataSchema] is the shape of authorization data that one policy artifact
    admits: the subject types every relation may hold, and the attribute paths
    its guards read. It is derived from the artifact's parsed source; the DSL
    parser is the [DslSchema] interface, whose records carry the fields the
    engine reads. *)

From Stdlib Require Import ZArith Lia Sorted.
From stdpp Require Import base list gmap strings sorting.
From S2P Require Import Prelude Limits Text Types Invocation Cost Canon Data Policy Revisions.

(** * The parsed schema (package github.com/cadrena/dsl) *)

Record RelationTarget := mkRelationTarget { tg_Entity : string; tg_Relation : string }.
Record RelationDecl := mkRelationDecl { rd_Name : string; rd_Targets : list RelationTarget }.
Record EntityDecl := mkEntityDecl {
  ed_Name : string; ed_Relations : list RelationDecl; ed_Permissions : list string; ed_Actions : list string }.

(** The dynamic types the type switch of [collectResourcePaths] names; value
    and pointer are treated alike, and a nil pointer like any other type. *)
Inductive ConditionExpression :=
  | ComparisonExpression (field : list string)
  | LogicalCondition (left right : ConditionExpression)
  | OtherCondition.

Record GuardDecl := mkGuardDecl {
  gd_Entity : string; gd_Action : string; gd_Rules : list ConditionExpression }.
Record Schema := mkSchema { sc_Entities : list EntityDecl; sc_Guards : list GuardDecl }.

Class DslSchema `{D : Dsl} := {
  CanonicalSource : Artifact -> list Z;
  Parse : list Z -> option Schema
}.

(** * Attribute path tries (attribute.go) *)

(** The children are a Go map: one entry per name, in no particular order. *)
Inductive attributePathTrie := Trie (terminal : bool) (children : list (string * attributePathTrie)).

Definition newAttributePathTrie : attributePathTrie := Trie false [].

Fixpoint child {A} (name : string) (l : list (string * A)) : option A :=
  match l with
  | [] => None
  | (n, t) :: rest => if bool_decide (n = name) then Some t else child name rest
  end.
Fixpoint set_child {A} (name : string) (x : A) (l : list (string * A)) : list (string * A) :=
  match l with
  | [] => [(name, x)]
  | (n, t) :: rest => if bool_decide (n = name) then (n, x) :: rest else (n, t) :: set_child name x rest
  end.

Fixpoint trie_insert (path : list string) (t : attributePathTrie) : attributePathTrie :=
  let '(Trie terminal children) := t in
  match path with
  | [] => Trie true children
  | segment :: rest =>
      let next := default newAttributePathTrie (child segment children) in
      Trie terminal (set_child segment (trie_insert rest next) children)
  end.

Fixpoint trie_contains (path : list string) (t : attributePathTrie) : bool :=
  let '(Trie terminal children) := t in
  match path with
  | [] => terminal
  | segment :: rest =>
      match child segment children with
      | None => false
      | Some next => trie_contains rest next
      end
  end.

(** [paths]: the children in the order of their sorted names. *)
Fixpoint trie_paths (t : attributePathTrie) (prefix : list string) : list (list string) :=
  let '(Trie terminal children) := t in
  let below := map (fun c => (c.1, trie_paths c.2 (prefix ++ [c.1]))) children in
  (if terminal then [prefix] else [])
  ++ flat_map (fun name => default [] (child name below)) (sort_by String.compare (map fst children)).

Fixpoint collectResourcePaths (paths : attributePathTrie) (condition : ConditionExpression) : attributePathTrie :=
  match condition with
  | ComparisonExpression field =>
      match field with
      | head :: ((_ :: _) as rest) => if bool_decide (head = "resource"%string) then trie_insert rest paths else paths
      | _ => paths
      end
  | LogicalCondition l r => collectResourcePaths (collectResourcePaths paths l) r
  | OtherCondition => paths
  end.

(** * Data schemas (generation.go) *)

Record dataEntity := mkDataEntity {
  de_relations : gmap string (list RelationTarget); de_attributePaths : attributePathTrie }.
Record DataSchema := mkDataSchema {
  ds_entities : gmap string dataEntity; ds_resourcePaths : gmap (string * string) (list (list string)) }.

Definition index_entity (entities : gmap string dataEntity) (entity : EntityDecl) : gmap string dataEntity :=
  <[ed_Name entity :=
      mkDataEntity (fold_left (fun m r => <[rd_Name r := rd_Targets r]> m) (ed_Relations entity) ∅)
        newAttributePathTrie]> entities.

Definition index_guard (s : DataSchema) (guard : GuardDecl) : result DataSchema :=
  match ds_entities s !! gd_Entity guard with
  | None => Err ErrorIntegrity
  | Some entity =>
      let attributePaths := fold_left collectResourcePaths (gd_Rules guard) (de_attributePaths entity) in
      let paths := fold_left collectResourcePaths (gd_Rules guard) newAttributePathTrie in
      Ok (mkDataSchema
            (<[gd_Entity guard := mkDataEntity (de_relations entity) attributePaths]> (ds_entities s))
            (<[(gd_Entity guard, gd_Action guard) := trie_paths paths []]> (ds_resourcePaths s)))
  end.

Section Schema.
Context `{DS : DslSchema}.

(** [None] is a nil artifact. *)
Definition NewDataSchema (artifact : option Artifact) : result DataSchema :=
  match artifact with
  | None => Err ErrorIntegrity
  | Some a =>
      match Parse (CanonicalSource a) with
      | None => Err ErrorIntegrity
      | Some schema =>
          foldM index_guard (mkDataSchema (fold_left index_entity (sc_Entities schema) ∅) ∅) (sc_Guards schema)
      end
  end.
End Schema.

Definition ResourcePaths (s : DataSchema) (entity action : string) : list (list string) :=
  default [] (ds_resourcePaths s !! (entity, action)).

(** * Validation of data against a schema (tuple.go, attribute.go) *)

Definition validTuple (s : DataSchema) (tuple : Tuple) : bool :=
  match ds_entities s !! ent_Type (tup_Resource tuple) with
  | None => false
  | Some entity =>
      match de_relations entity !! tup_Relation tuple with
      | None => false
      | Some targets =>
          existsb (fun target =>
            bool_decide (tg_Entity target = sub_Type (tup_Subject tuple))
            && bool_decide (tg_Relation target = sub_Relation (tup_Subject tuple))) targets
      end
  end.

Definition ValidateTuplePaths (s : DataSchema) (request : WriteDataRequest) : result unit :=
  if negb (forallb (fun t => validTuple s (rt_tuple t)) (wd_tupleWrites request)) then Err ErrorInvalidArgument
  else if negb (forallb (fun k => validTuple s (tk_tuple k)) (wd_tupleDeletes request)) then Err ErrorInvalidArgument
  else Ok tt.

Definition ValidateContextualTuples (s : DataSchema) (contextual : ContextualData) : result unit :=
  if negb (forallb (fun t => validTuple s (rt_tuple t)) (cd_tuples contextual)) then Err ErrorInvalidArgument
  else Ok tt.

Definition validAttributePath (s : DataSchema) (entity : EntityRef) (path : list string) : bool :=
  match ds_entities s !! ent_Type entity with
  | None => false
  | Some indexed => trie_contains path (de_attributePaths indexed)
  end.

Definition ValidateAttributePaths (s : DataSchema) (request : WriteDataRequest) : result unit :=
  if negb (forallb (fun a => validAttributePath s (attr_entity a) (attr_path a)) (wd_attributeWrites request))
  then Err ErrorInvalidArgument
  else if negb (forallb (fun k => validAttributePath s (ak_entity k) (ak_path k)) (wd_attributeDeletes request))
  then Err ErrorInvalidArgument
  else Ok tt.

(** The request constructors the domain reruns at the application boundary
    (activation.go, slot.go, generation.go). *)
Definition domain_NewActivation (request : ActivateRequest) : result ActivateRequest :=
  NewActivateRequest (ar_namespace request) (ar_slot request) (ar_targetRevisionID request) (ar_expectation request).
Definition NewSlot (request : ResolveRequest) : result ResolveRequest :=
  NewResolveRequest (rr_namespace request) (rr_slot request).
Definition ValidateActivationHistoryRequest (request : ListActivationHistoryRequest)
  : result ListActivationHistoryRequest :=
  NewListActivationHistoryRequest (lh_namespace request) (lh_slot request) (lh_cursor request) (lh_limit request).
Definition ValidateGetDataGenerationRequest (request : GetDataGenerationRequest) : result GetDataGenerationRequest :=
  NewGetDataGenerationRequest (gdg_namespace request).
Definition ValidateWriteDataRequest (request : WriteDataRequest) : result WriteDataRequest :=
  NewWriteDataRequest (request_input request).

(** * Revisions (revision.go) *)

Section Revision.
Context `{D : Dsl}.

(** An [error] result of code that returns sanitized categories. *)
Definition of_result {A} (r : result A) : A + GoError :=
  match r with Ok a => inl a | Err e => inr (engineError e) end.

(** [artifact] is the compiled one, never nil here; the error of
    [MarshalBinary] is the DSL's own. *)
Definition NewRevision (request : PublishRequest) (artifact : Artifact) (publishedAt : Time)
  : RevisionWrite + GoError :=
  match MarshalBinary artifact with
  | None => inr ForeignError
  | Some encoded =>
      of_result
        (let? id := RevisionIDFromArtifact (Some artifact) in
         let? metadata := NewRevisionMetadata (pub_namespace request) id publishedAt in
         let? provenance := NewRevisionProvenance request in
         NewRevisionWriteWithProvenance metadata encoded provenance)
  end.

Definition Matches (write : RevisionWrite) (record : RevisionRecord) (created : bool) : bool :=
  if negb (RevisionWrite_Valid write) || negb (RevisionRecord_Valid record) then false
  else
    let candidateMetadata := rw_metadata write in
    let storedMetadata := rw_metadata record in
    if bool_decide (rm_namespace candidateMetadata <> rm_namespace storedMetadata)
       || bool_decide (RevisionMetadata_ID candidateMetadata <> RevisionMetadata_ID storedMetadata)
       || bool_decide (rw_artifact write <> rw_artifact record)
    then false
    else
      let storedProvenance := rw_provenance record in
      if negb (RevisionProvenance_Valid storedProvenance) then false
      else if negb created then true
      else
        let candidateProvenance := rw_provenance write in
        (rm_publishedAt candidateMetadata =? rm_publishedAt storedMetadata)
        && RevisionProvenance_Valid candidateProvenance
        && bool_decide (prov_sourceName candidateProvenance = prov_sourceName storedProvenance)
        && bool_decide (prov_originalSourceDigest candidateProvenance = prov_originalSourceDigest storedProvenance)
        && bool_decide (prov_originalSource candidateProvenance = prov_originalSource storedProvenance).
End Revision.

(** * Tries are sets of paths *)

Section TrieInd.
Context (P : attributePathTrie -> Prop).
Context (step : forall terminal children, Forall (fun c => P c.2) children -> P (Trie terminal children)).

Fixpoint trie_induction (t : attributePathTrie) : P t :=
  let '(Trie terminal children) := t in
  step terminal children
    ((fix all (l : list (string * attributePathTrie)) : Forall (fun c => P c.2) l :=
        match l with
        | [] => Forall_nil_2 _
        | c :: rest => Forall_cons_2 _ _ _ (trie_induction c.2) (all rest)
        end) children).
End TrieInd.

(** One entry per name, at every level. *)
Fixpoint trie_ok (t : attributePathTrie) : Prop :=
  let '(Trie _ children) := t in
  NoDup (map fst children) /\
  (fix all (l : list (string * attributePathTrie)) : Prop :=
     match l with [] => True | c :: rest => trie_ok c.2 /\ all rest end) children.

Lemma trie_ok_children terminal children :
  trie_ok (Trie terminal children) <-> NoDup (map fst children) /\ Forall (fun c => trie_ok c.2) children.
Proof.
  cbn [trie_ok]. apply and_iff_compat_l. induction children as [|c rest IH]; [by rewrite Forall_nil|].
  by rewrite Forall_cons, IH.
Qed.

Lemma child_elem {A} name (l : list (string * A)) t :
  NoDup (map fst l) -> child name l = Some t <-> (name, t) ∈ l.
Proof.
  induction l as [|[n u] l IH]; cbn [child map fst]; intros Hn; [split; [done|intros H; by apply elem_of_nil in H]|].
  apply NoDup_cons in Hn as [Hn1 Hn2]. rewrite elem_of_cons. case_bool_decide as E.
  - subst n. split; [intros [= ->]; by left|]. intros [[= ->]|Hin]; [done|]. exfalso. apply Hn1.
    rewrite list_elem_of_fmap. by exists (name, t).
  - rewrite IH by done. split; [by right|]. intros [[= -> _]|]; done.
Qed.

Lemma child_None {A} name (l : list (string * A)) : child name l = None <-> name ∉ map fst l.
Proof.
  induction l as [|[n u] l IH]; cbn [child map fst]; [split; [intros _ H; by apply elem_of_nil in H|done]|].
  rewrite not_elem_of_cons. case_bool_decide as E; [split; [done|by intros [[] _]]|]. rewrite IH. naive_solver.
Qed.

Lemma child_set_eq {A} name (x : A) l : child name (set_child name x l) = Some x.
Proof.
  induction l as [|[n u] l IH]; cbn [set_child child]; [by rewrite bool_decide_true|].
  case_bool_decide as E; cbn [child]; [by rewrite bool_decide_true|by rewrite bool_decide_false].
Qed.
Lemma child_set_ne {A} name name' (x : A) l : name' <> name -> child name' (set_child name x l) = child name' l.
Proof.
  intros Hne. induction l as [|[n u] l IH]; cbn [set_child child]; [by rewrite bool_decide_false|].
  case_bool_decide as E; cbn [child]; [subst n; by rewrite !bool_decide_false|]. by rewrite IH.
Qed.
Lemma set_child_names {A} name (x : A) l : forall n, n ∈ map fst (set_child name x l) <-> n = name \/ n ∈ map fst l.
Proof.
  intros m. induction l as [|[n u] l IH]; cbn [set_child map fst]; [by rewrite elem_of_cons|].
  case_bool_decide as E; cbn [map fst]; rewrite !elem_of_cons; [naive_solver|]. rewrite IH. naive_solver.
Qed.
Lemma set_child_nodup {A} name (x : A) l : NoDup (map fst l) -> NoDup (map fst (set_child name x l)).
Proof.
  induction l as [|[n u] l IH]; cbn [set_child map fst]; [intros _; apply NoDup_singleton|].
  intros Hn. apply NoDup_cons in Hn as [H1 H2]. case_bool_decide as E; cbn [map fst]; [by constructor|].
  constructor; [|by apply IH]. rewrite set_child_names. intros [|]; done.
Qed.
Lemma set_child_Forall {A} (Q : A -> Prop) name (x : A) l :
  Q x -> Forall (fun c => Q c.2) l -> Forall (fun c => Q c.2) (set_child name x l).
Proof.
  intros Hx. induction 1 as [|[n u] l Hu Hl IH]; cbn [set_child]; [by constructor|].
  case_bool_decide; by constructor.
Qed.

Lemma trie_insert_ok path : forall t, trie_ok t -> trie_ok (trie_insert path t).
Proof.
  induction path as [|segment rest IH]; intros [terminal children]; cbn [trie_insert]; [done|].
  rewrite !trie_ok_children. intros [Hn Hc]. split; [by apply set_child_nodup|].
  apply (set_child_Forall trie_ok); [|done]. apply IH. destruct (child segment children) as [u|] eqn:E; cbn [default].
  - apply child_elem in E; [|done]. rewrite Forall_forall in Hc. by apply (Hc (segment, u)).
  - apply trie_ok_children. split; constructor.
Qed.

Lemma trie_contains_insert path : forall t path',
  trie_contains path' (trie_insert path t) = bool_decide (path' = path) || trie_contains path' t.
Proof.
  induction path as [|segment rest IH]; intros [terminal children] path'; cbn [trie_insert].
  - destruct path'; cbn [trie_contains]; [by rewrite bool_decide_true|by rewrite bool_decide_false].
  - destruct path' as [|s' r']; cbn [trie_contains]; [by rewrite bool_decide_false|].
    destruct (decide (s' = segment)) as [->|Hne].
    + rewrite child_set_eq, IH. rewrite (bool_decide_ext (segment :: r' = segment :: rest) (r' = rest)) by naive_solver.
      destruct (child segment children) as [u|]; [done|]. cbn [default]. destruct r'; by rewrite ?orb_false_r.
    + rewrite child_set_ne by done. rewrite (bool_decide_false (s' :: r' = _)) by congruence. done.
Qed.

Lemma child_map {A B} (f : string -> A -> B) name (l : list (string * A)) :
  child name (map (fun c => (c.1, f c.1 c.2)) l) = f name <$> child name l.
Proof.
  induction l as [|[n u] l IH]; cbn [map child fst snd]; [done|]. case_bool_decide as E; [by subst n|done].
Qed.

Lemma elem_of_flat_map {A B} (f : A -> list B) l y : y ∈ flat_map f l <-> exists x, x ∈ l /\ y ∈ f x.
Proof.
  rewrite list_elem_of_In, in_flat_map. split; intros (x & H1 & H2); exists x; rewrite !list_elem_of_In in *; auto.
Qed.

(** [paths] lists exactly the paths of the trie. *)
Lemma trie_paths_elem t : trie_ok t -> forall prefix p,
  p ∈ trie_paths t prefix <-> exists q, p = prefix ++ q /\ trie_contains q t = true.
Proof.
  induction t as [terminal children IH] using trie_induction. rewrite trie_ok_children. intros [Hn Hc] prefix p.
  rewrite Forall_forall in IH. rewrite Forall_forall in Hc. cbn [trie_paths]. rewrite elem_of_app, elem_of_flat_map.
  setoid_rewrite (child_map (fun name t => trie_paths t (prefix ++ [name]))).
  setoid_rewrite (sort_by_elem String.compare). split.
  - intros [Hp|(name & Hname & Hp)].
    + exists []. destruct terminal; [|by apply elem_of_nil in Hp]. apply list_elem_of_singleton in Hp as ->.
      by rewrite app_nil_r.
    + destruct (child name children) as [u|] eqn:E; [|by apply elem_of_nil in Hp]. cbn in Hp.
      assert (Hu := proj1 (child_elem _ _ _ Hn) E). apply (IH (name, u) Hu (Hc (name, u) Hu)) in Hp as (q & -> & Hq).
      exists (name :: q). rewrite <- app_assoc. split; [done|]. cbn [trie_contains]. by rewrite E.
  - intros (q & -> & Hq). destruct q as [|name q]; cbn [trie_contains] in Hq.
    + left. rewrite app_nil_r, Hq. by left.
    + right. destruct (child name children) as [u|] eqn:E; [|done]. exists name. 
      assert (Hu := proj1 (child_elem _ _ _ Hn) E). split; [rewrite list_elem_of_fmap; by exists (name, u)|].
      rewrite E. cbn [default fmap option_fmap option_map]. apply (IH (name, u) Hu (Hc (name, u) Hu)). exists q.
      by rewrite <- app_assoc.
Qed.

Lemma compareAttributePath_app p q r : compareAttributePath (p ++ q) (p ++ r) = compareAttributePath q r.
Proof. induction p as [|s p IH]; [done|]. cbn. by rewrite (tc_refl String.compare), IH. Qed.

Lemma sorted_flat_map {A B} (R : A -> A -> Prop) (S : B -> B -> Prop) (f : A -> list B) l :
  StronglySorted R l -> (forall x, x ∈ l -> StronglySorted S (f x)) ->
  (forall x y a b, x ∈ l -> y ∈ l -> R x y -> a ∈ f x -> b ∈ f y -> S a b) ->
  StronglySorted S (flat_map f l).
Proof.
  induction 1 as [|x l Hl IH Hx]; cbn [flat_map]; intros Hs Hr; [constructor|].
  apply StronglySorted_app. split; [|split].
  - intros a b Ha Hb. apply elem_of_flat_map in Hb as (y & Hy & Hb). rewrite Forall_forall in Hx.
    eapply Hr; [left|right; exact Hy|by apply Hx|done|done].
  - apply Hs. left.
  - apply IH; [intros y Hy; apply Hs; by right|]. intros y z a b Hy Hz. apply Hr; by right.
Qed.

Lemma sort_names_strict (l : list string) :
  NoDup l -> StronglySorted (clt String.compare) (sort_by String.compare l).
Proof.
  intros Hn. assert (Hn' : NoDup (sort_by String.compare l)) by (by rewrite (sort_by_perm String.compare l)).
  generalize (sort_by_sorted String.compare l). revert Hn'. generalize (sort_by String.compare l).
  intros k Hk. induction 1 as [|x k Hs IH Hx]; [constructor|]. apply NoDup_cons in Hk as [H1 H2].
  constructor; [auto|]. rewrite Forall_forall in Hx |- *. intros y Hy. by destruct (cle_cases String.compare x y (Hx y Hy)) as [<-|].
Qed.

(** ... in lexicographic order, each once. *)
Lemma trie_paths_sorted t : trie_ok t -> forall prefix,
  StronglySorted (clt compareAttributePath) (trie_paths t prefix).
Proof.
  induction t as [terminal children IH] using trie_induction. rewrite trie_ok_children. intros [Hn Hc] prefix.
  rewrite Forall_forall in IH. assert (Hc' := proj1 (Forall_forall _ _) Hc). cbn [trie_paths].
  assert (Hbelow : forall name p, p ∈ default [] (child name (map (fun c => (c.1, trie_paths c.2 (prefix ++ [c.1]))) children)) ->
    exists q, p = prefix ++ name :: q).
  { intros name p. rewrite (child_map (fun name t => trie_paths t (prefix ++ [name]))).
    destruct (child name children) as [u|] eqn:E; cbn; [|intros H; by apply elem_of_nil in H].
    apply child_elem in E; [|done]. intros (q & -> & _)%(trie_paths_elem u (Hc' _ E)). exists q. by rewrite <- app_assoc. }
  apply StronglySorted_app. split; [|split].
  - intros a b Ha Hb. apply elem_of_flat_map in Hb as (name & _ & Hb). apply Hbelow in Hb as (q & ->).
    destruct terminal; [|by apply elem_of_nil in Ha]. apply list_elem_of_singleton in Ha as ->.
    unfold clt. rewrite <- (app_nil_r prefix) at 1. by rewrite compareAttributePath_app.
  - destruct terminal; repeat constructor.
  - apply (sorted_flat_map (clt String.compare)); [by apply sort_names_strict| |].
    + intros name _. rewrite (child_map (fun name t => trie_paths t (prefix ++ [name]))).
      destruct (child name children) as [u|] eqn:E; cbn; [|constructor]. apply child_elem in E; [|done].
      by apply (IH (name, u) E), (Hc' (name, u)).
    + intros x y a b _ _ Hlt Ha Hb. apply Hbelow in Ha as (q & ->). apply Hbelow in Hb as (r & ->).
      unfold clt in *. rewrite compareAttributePath_app. cbn. by rewrite Hlt.
Qed.

(** * What a schema admits *)

(** The resource paths a guard condition compares. *)
Inductive reads : ConditionExpression -> list string -> Prop :=
  | reads_comparison segment rest :
      reads (ComparisonExpression ("resource"%string :: segment :: rest)) (segment :: rest)
  | reads_left l r p : reads l p -> reads (LogicalCondition l r) p
  | reads_right l r p : reads r p -> reads (LogicalCondition l r) p.

Definition guard_reads (g : GuardDecl) (p : list string) : Prop := exists rule, rule ∈ gd_Rules g /\ reads rule p.

Lemma collect_spec cond : forall t p,
  (trie_ok t -> trie_ok (collectResourcePaths t cond)) /\
  (trie_contains p (collectResourcePaths t cond) = true <-> trie_contains p t = true \/ reads cond p).
Proof.
  induction cond as [field|l IHl r IHr|]; intros t p; cbn [collectResourcePaths].
  - destruct field as [|head [|segment rest]];
      [split; [done|]; split; [by left|intros [|H]; [done|inversion H]]..|].
    case_bool_decide as E.
    + subst head. split; [apply trie_insert_ok|]. rewrite trie_contains_insert, orb_true_iff, bool_decide_eq_true. split.
      * intros [->|]; [right; constructor|by left].
      * intros [|H]; [by right|left; by inversion H].
    + split; [done|]. split; [by left|]. intros [|H]; [done|]. inversion H. congruence.
  - destruct (IHl t p) as [L1 L2]. destruct (IHr (collectResourcePaths t l) p) as [R1 R2]. split; [auto|].
    rewrite R2, L2. split.
    + intros [[|]|]; [by left|right; by apply reads_left|right; by apply reads_right].
    + intros [|H]; [by left; left|]. inversion H; subst; auto.
  - split; [done|]. split; [by left|]. intros [|H]; [done|inversion H].
Qed.

Lemma collect_rules rules : forall t p,
  (trie_ok t -> trie_ok (fold_left collectResourcePaths rules t)) /\
  (trie_contains p (fold_left collectResourcePaths rules t) = true <->
   trie_contains p t = true \/ exists rule, rule ∈ rules /\ reads rule p).
Proof.
  induction rules as [|rule rules IH]; intros t p; cbn [fold_left].
  - split; [done|]. split; [by left|]. intros [|(rule & H & _)]; [done|by apply elem_of_nil in H].
  - destruct (IH (collectResourcePaths t rule) p) as [I1 I2]. destruct (collect_spec rule t p) as [C1 C2].
    split; [auto|]. rewrite I2, C2. setoid_rewrite elem_of_cons. naive_solver.
Qed.

(** The guards of one key, in order. *)
Definition guards_of (entity action : string) (guards : list GuardDecl) : list GuardDecl :=
  filter (fun g => gd_Entity g = entity /\ gd_Action g = action) guards.

Record indexed (entities : gmap string dataEntity) (guards : list GuardDecl) (s : DataSchema) : Prop := {
  ix_relations : forall name, de_relations <$> ds_entities s !! name = de_relations <$> entities !! name;
  ix_paths : forall name de, ds_entities s !! name = Some de -> trie_ok (de_attributePaths de) /\
    forall p, trie_contains p (de_attributePaths de) = true <->
      exists g, g ∈ guards /\ gd_Entity g = name /\ guard_reads g p;
  ix_actions : forall entity action,
    match last (guards_of entity action guards) with
    | None => ds_resourcePaths s !! (entity, action) = None
    | Some g => exists t, ds_resourcePaths s !! (entity, action) = Some (trie_paths t []) /\ trie_ok t /\
        forall p, trie_contains p t = true <-> guard_reads g p
    end
}.

Lemma new_trie_ok : trie_ok newAttributePathTrie.
Proof. apply trie_ok_children. split; constructor. Qed.
Lemma new_trie_empty p : trie_contains p newAttributePathTrie = false.
Proof. by destruct p. Qed.

Lemma index_guard_ok entities guards s g s' :
  indexed entities guards s -> index_guard s g = Ok s' -> indexed entities (guards ++ [g]) s'.
Proof.
  intros [H1 H2 H3]. unfold index_guard. destruct (ds_entities s !! gd_Entity g) as [entity|] eqn:Ee; [|done].
  intros [= <-]. split; cbn [ds_entities ds_resourcePaths].
  - intros name. destruct (decide (name = gd_Entity g)) as [->|Hne].
    + rewrite lookup_insert_eq, <- H1, Ee. done.
    + by rewrite lookup_insert_ne.
  - intros name de Hde. setoid_rewrite elem_of_app. setoid_rewrite list_elem_of_singleton.
    destruct (decide (name = gd_Entity g)) as [->|Hne].
    + rewrite lookup_insert_eq in Hde. injection Hde as <-. cbn [de_attributePaths]. destruct (H2 _ _ Ee) as [Ho Hp].
      split; [by apply (collect_rules (gd_Rules g) (de_attributePaths entity) []) |]. intros p.
      rewrite (proj2 (collect_rules (gd_Rules g) _ p)), Hp. split.
      * intros [(x & Hx & Hn & Hr)|Hr]; [exists x; auto|by exists g; auto].
      * intros (x & [Hx| ->] & Hn & Hr); [left; exists x; auto|by right].
    + rewrite lookup_insert_ne in Hde by done. destruct (H2 _ _ Hde) as [Ho Hp]. split; [done|]. intros p. rewrite Hp. split.
      * intros (x & Hx & Hn & Hr). exists x. auto.
      * intros (x & [Hx| ->] & Hn & Hr); [exists x; auto|congruence].
  - intros ent act. unfold guards_of. rewrite filter_app, filter_cons, filter_nil.
    case_decide as E; cbn [app].
    + destruct E as [<- <-]. rewrite last_snoc, lookup_insert_eq. eexists. split; [done|].
      split; [apply (collect_rules (gd_Rules g) newAttributePathTrie []), new_trie_ok|]. intros p.
      rewrite (proj2 (collect_rules (gd_Rules g) _ p)), new_trie_empty. split; [by intros [|]|by right].
    + rewrite app_nil_r, lookup_insert_ne; [apply H3|]. intros [= E1 E2]. by apply E.
Qed.

Lemma index_guards_spec entities guards : forall before s,
  indexed entities before s ->
  match foldM index_guard s guards with
  | Ok s' => indexed entities (before ++ guards) s' /\ forall g, g ∈ guards -> is_Some (entities !! gd_Entity g)
  | Err e => e = ErrorIntegrity /\ exists g, g ∈ guards /\ entities !! gd_Entity g = None
  end.
Proof.
  induction guards as [|g guards IH]; intros before s Hs; cbn [foldM].
  { rewrite app_nil_r. split; [done|]. intros g Hg. by apply elem_of_nil in Hg. }
  assert (Hdom : ds_entities s !! gd_Entity g = None <-> entities !! gd_Entity g = None).
  { rewrite <- !(fmap_None de_relations). by rewrite (ix_relations _ _ _ Hs). }
  destruct (index_guard s g) as [s1|e] eqn:E; cbn [rbind].
  - specialize (IH (before ++ [g]) s1 (index_guard_ok _ _ _ _ _ Hs E)). rewrite <- app_assoc in IH.
    destruct (foldM index_guard s1 guards) as [s'|e].
    + destruct IH as [IH1 IH2]. split; [done|]. intros x [->|Hx]%elem_of_cons; [|auto].
      unfold index_guard in E. destruct (ds_entities s !! gd_Entity g) eqn:Ed; [|done].
      apply not_eq_None_Some. rewrite <- Hdom. done.
    + destruct IH as (-> & x & Hx & Hn). split; [done|]. exists x. split; [by right|done].
  - unfold index_guard in E. destruct (ds_entities s !! gd_Entity g) eqn:Ed; [done|]. injection E as <-.
    split; [done|]. exists g. split; [left|]. by apply Hdom.
Qed.

(** The last declaration of a name. *)
Definition entity_named (name : string) (l : list EntityDecl) : option EntityDecl :=
  last (filter (fun d => ed_Name d = name) l).
Definition relation_named (name : string) (l : list RelationDecl) : option RelationDecl :=
  last (filter (fun d => rd_Name d = name) l).

Lemma index_last {A B} (key : A -> string) (val : A -> B) (l : list A) : forall (m : gmap string B) name,
  fold_left (fun m x => <[key x := val x]> m) l m !! name =
  match last (filter (fun x => key x = name) l) with Some x => Some (val x) | None => m !! name end.
Proof.
  induction l as [|x l IH] using rev_ind; intros m name; [done|].
  rewrite fold_left_app, filter_app, filter_cons, filter_nil. cbn [fold_left]. case_decide as E.
  - rewrite last_snoc. subst name. apply lookup_insert_eq.
  - rewrite app_nil_r, lookup_insert_ne by done. apply IH.
Qed.

(** C24: the data schema of an artifact says exactly what its parsed source
    declares. Deriving it fails precisely when the source does not parse or a
    guard names an undeclared entity, always with INTEGRITY. Otherwise an
    attribute path is admitted for an entity exactly when some guard of that
    entity compares it; the resource paths of an action are those its (last)
    guard compares, each once in lexicographic order; and a tuple is admitted
    exactly when its relation's (last) declaration names the subject's type
    and relation as a target. *)
Theorem schema_exact `{DS : DslSchema} a :
  match Parse (CanonicalSource a) with
  | None => NewDataSchema (Some a) = Err ErrorIntegrity
  | Some schema =>
      match NewDataSchema (Some a) with
      | Err e => e = ErrorIntegrity /\
          exists g, g ∈ sc_Guards schema /\ entity_named (gd_Entity g) (sc_Entities schema) = None
      | Ok s =>
          (forall g, g ∈ sc_Guards schema -> is_Some (entity_named (gd_Entity g) (sc_Entities schema))) /\
          (forall entity path, validAttributePath s entity path = true <->
             exists g, g ∈ sc_Guards schema /\ gd_Entity g = ent_Type entity /\ guard_reads g path) /\
          (forall entity action, StronglySorted (clt compareAttributePath) (ResourcePaths s entity action) /\
             forall p, p ∈ ResourcePaths s entity action <->
               exists g, last (guards_of entity action (sc_Guards schema)) = Some g /\ guard_reads g p) /\
          (forall t, validTuple s t = true <->
             exists ed rd, entity_named (ent_Type (tup_Resource t)) (sc_Entities schema) = Some ed /\
               relation_named (tup_Relation t) (ed_Relations ed) = Some rd /\
               mkRelationTarget (sub_Type (tup_Subject t)) (sub_Relation (tup_Subject t)) ∈ rd_Targets rd)
      end
  end.
Proof.
  unfold NewDataSchema. destruct (Parse (CanonicalSource a)) as [schema|]; [|done].
  set (entities := fold_left index_entity (sc_Entities schema) ∅).
  assert (Hent : forall name, entities !! name =
    match entity_named name (sc_Entities schema) with
    | Some d => Some (mkDataEntity (fold_left (fun m r => <[rd_Name r := rd_Targets r]> m) (ed_Relations d) ∅)
                        newAttributePathTrie)
    | None => None
    end).
  { intros name. unfold entities, index_entity, entity_named.
    rewrite (index_last ed_Name (fun d => mkDataEntity (fold_left (fun m r => <[rd_Name r := rd_Targets r]> m)
               (ed_Relations d) ∅) newAttributePathTrie)), lookup_empty. done. }
  assert (Hnamed : forall name, is_Some (entities !! name) <-> is_Some (entity_named name (sc_Entities schema))).
  { intros name. rewrite Hent. destruct (entity_named name _); split; intros []; eauto; done. }
  assert (H0 : indexed entities [] (mkDataSchema entities ∅)).
  { split; cbn; [done| |by intros; rewrite lookup_empty].
    intros name de Hde. rewrite Hent in Hde. destruct (entity_named name _); [|done]. injection Hde as <-. cbn.
    split; [apply new_trie_ok|]. intros p. rewrite new_trie_empty. split; [done|].
    intros (g & Hg & _). by apply elem_of_nil in Hg. }
  generalize (index_guards_spec entities (sc_Guards schema) [] _ H0). cbn [app].
  destruct (foldM index_guard _ (sc_Guards schema)) as [s|e].
  2:{ intros (-> & g & Hg & Hn). split; [done|]. exists g. split; [done|]. apply eq_None_not_Some. rewrite <- Hnamed, Hn.
    by intros []. }
  intros [[H1 H2 H3] Hg]. split; [intros g Hin; by apply Hnamed, Hg|]. split; [|split].
  - intros entity path. unfold validAttributePath. destruct (ds_entities s !! ent_Type entity) as [de|] eqn:Ed.
    + by apply H2.
    + split; [done|]. intros (g & Hin & Heq & _). destruct (Hg g Hin) as [d Hd]. specialize (H1 (ent_Type entity)).
      rewrite Ed, <- Heq, Hd in H1. done.
  - intros entity action. unfold ResourcePaths. specialize (H3 entity action).
    destruct (last (guards_of entity action (sc_Guards schema))) as [g|].
    + destruct H3 as (t & -> & Ht & Hp). change (default [] (Some (trie_paths t []))) with (trie_paths t []). split; [by apply trie_paths_sorted|]. intros p.
      rewrite (trie_paths_elem t Ht). split; [intros (q & -> & Hq); exists g; split; [done|by apply Hp]|].
      intros (g' & [= <-] & Hr). exists p. split; [done|by apply Hp].
    + rewrite H3. cbn. split; [constructor|]. intros p. split; [intros H; by apply elem_of_nil in H|by intros (g & [=] & _)].
  - intros t. unfold validTuple. specialize (H1 (ent_Type (tup_Resource t))). rewrite Hent in H1.
    destruct (ds_entities s !! ent_Type (tup_Resource t)) as [de|], (entity_named _ _) as [d|]; cbn in H1;
      try discriminate H1.
    2:{ split; [done|]. by intros (? & ? & [=] & _). }
    injection H1 as ->. rewrite (index_last rd_Name rd_Targets), lookup_empty. fold (relation_named (tup_Relation t) (ed_Relations d)).
    destruct (relation_named (tup_Relation t) (ed_Relations d)) as [rd|] eqn:Er.
    + rewrite existsb_exists. split.
      * intros (x & Hx & [E1%bool_decide_eq_true E2%bool_decide_eq_true]%andb_true_iff). exists d, rd.
        split; [done|]. split; [done|]. rewrite <- E1, <- E2, list_elem_of_In. by destruct x.
      * intros (? & ? & [= <-] & Hr & Hin). rewrite Er in Hr. injection Hr as <-. eexists.
        split; [rewrite <- list_elem_of_In; exact Hin|]. by rewrite !bool_decide_true.
    + split; [done|]. intros (? & ? & [= <-] & Hr & _). congruence.
Qed.
