(* ===== verification/Index.v ===== *)
(** The ordered indexes of the memory store (store/memory/indexed.go).

    The revision, tuple, attribute-entity and path-segment indexes are
    instances of the AVL tree of [Avl]. This file adds what is specific to
    each: the revision pager, the tuple bucket query, and the attribute trie,
    whose nodes hold a segment tree of child tries. *)

From Stdlib Require Import ZArith Lia Sorted.
From stdpp Require Import base list gmap strings sorting.
From S2P Require Import Prelude Limits Text Types Policy Revisions Avl Canon Data.

(** A loop over a sequence with a callback that may stop it. *)
Fixpoint fold_stop {A S} (f : S -> A -> S * bool) (s : S) (l : list A) : S * bool :=
  match l with
  | [] => (s, true)
  | x :: l' => let '(s', b) := f s x in if b then fold_stop f s' l' else (s', false)
  end.

Lemma fold_stop_app {A S} (f : S -> A -> S * bool) s l1 l2 :
  fold_stop f s (l1 ++ l2) =
  let '(s', b) := fold_stop f s l1 in if b then fold_stop f s' l2 else (s', false).
Proof.
  revert s. induction l1 as [|x l1 IH]; intros s; simpl; [done|].
  destruct (f s x) as [s' []]; [apply IH|done].
Qed.

(** * Revisions in publication order *)

Record revisionKey := mkRevisionKey { rk_publishedAt : Time; rk_id : string }.

Definition compareRevisionKey (left right : revisionKey) : comparison :=
  if rk_publishedAt left <? rk_publishedAt right then Lt
  else if rk_publishedAt right <? rk_publishedAt left then Gt
  else String.compare (rk_id left) (rk_id right).

#[global] Instance compareRevisionKey_total : TotalCompare compareRevisionKey.
Proof.
  eapply (total_ext _ (fun x y => then_cmp (Z.compare (rk_publishedAt x) (rk_publishedAt y))
    (String.compare (rk_id x) (rk_id y)))).
  - intros x y. unfold compareRevisionKey.
    destruct (Z.ltb_spec (rk_publishedAt x) (rk_publishedAt y)) as [H|H].
    { by rewrite (proj2 (Z.compare_lt_iff _ _) H). }
    destruct (Z.ltb_spec (rk_publishedAt y) (rk_publishedAt x)) as [H'|H'].
    { by rewrite (proj2 (Z.compare_gt_iff _ _) H'). }
    assert (E : rk_publishedAt x = rk_publishedAt y) by lia. by rewrite E, Z.compare_refl.
  - apply then_cmp_total; try apply _. intros [] []; simpl; congruence.
Qed.

Definition revisionNode : Type := tree revisionKey RevisionRecord.

Definition revisionKeyFor (record : RevisionRecord) : revisionKey :=
  mkRevisionKey (rm_publishedAt (rw_metadata record)) (RevisionMetadata_ID (rw_metadata record)).

Definition revisionRebalance : revisionNode -> revisionNode := rebalance.

Definition revisionSet (node : revisionNode) (record : RevisionRecord) : revisionNode :=
  avl_set compareRevisionKey node (revisionKeyFor record) record.

(** The variables the closure of [revisionPage] updates; [pg_user] is the
    state of the caller's [visit]. *)
Record page_state (S : Type) := mkPage {
  pg_visited : Z; pg_emitted : Z; pg_more : bool; pg_user : S }.
Arguments mkPage {S} _ _ _ _.
Arguments pg_visited {S} _.
Arguments pg_emitted {S} _.
Arguments pg_more {S} _.
Arguments pg_user {S} _.

Section RevisionPage.
Context {S : Type} (after : revisionKey) (hasAfter : bool) (limit : Z)
  (visit : S -> RevisionRecord -> S * bool).

(** The part of [walk] between the two recursive calls. *)
Definition page_emit (st : page_state S) (record : RevisionRecord) : page_state S * bool :=
  if pg_emitted st =? limit then (mkPage (pg_visited st) (pg_emitted st) true (pg_user st), false)
  else
    let '(user, continue) := visit (pg_user st) record in
    (mkPage (pg_visited st) (pg_emitted st + 1) (pg_more st) user, continue).

Fixpoint walk (node : revisionNode) (st : page_state S) : page_state S * bool :=
  match node with
  | Leaf => (st, true)
  | Node l r _ k record =>
      let st := mkPage (pg_visited st + 1) (pg_emitted st) (pg_more st) (pg_user st) in
      if hasAfter && cmp_le (compareRevisionKey k after) then walk r st
      else
        let '(st, ok) := walk l st in
        if negb ok then (st, false)
        else
          let '(st, ok) := page_emit st record in
          if negb ok then (st, false) else walk r st
  end.

Definition revisionPage (root : revisionNode) (user : S) : page_state S :=
  fst (walk root (mkPage 0 0 false user)).
End RevisionPage.

(** The [visit] of [ListRevisions]. *)
Definition collect_metadata (acc : list RevisionMetadata) (record : RevisionRecord)
  : list RevisionMetadata * bool := (acc ++ [rw_metadata record], true).

(** Records strictly after the continuation key, in order. *)
Definition after_key (after : revisionKey) (hasAfter : bool) (kv : revisionKey * RevisionRecord) : bool :=
  negb (hasAfter && cmp_le (compareRevisionKey kv.1 after)).

Definition matching (after : revisionKey) (hasAfter : bool) (node : revisionNode) : list RevisionRecord :=
  map snd (List.filter (after_key after hasAfter) (elements node)).

Section RevisionPageFacts.
Context {S : Type} (after : revisionKey) (hasAfter : bool) (limit : Z)
  (visit : S -> RevisionRecord -> S * bool).

Definition forget_visits (p : page_state S * bool) : (Z * bool * S) * bool :=
  ((pg_emitted p.1, pg_more p.1, pg_user p.1), p.2).

Lemma cmp_le_cle k a : cmp_le (compareRevisionKey k a) = true <-> cle compareRevisionKey k a.
Proof. unfold cle. by destruct (compareRevisionKey k a). Qed.

Lemma matching_skip (l : list (revisionKey * RevisionRecord)) k :
  hasAfter && cmp_le (compareRevisionKey k after) = true ->
  Forall (fun y => clt compareRevisionKey y k) (map fst l) ->
  List.filter (after_key after hasAfter) l = [].
Proof.
  intros [Ha Hk%cmp_le_cle]%andb_true_iff. induction l as [|[k' r] l IH]; [done|]. simpl.
  rewrite Forall_cons. intros [H1 H2]. 
  assert (E : after_key after hasAfter (k', r) = false).
  { unfold after_key. simpl. rewrite Ha, (proj2 (cmp_le_cle k' after)); [done|].
    transitivity k; [by apply clt_cle|done]. }
  rewrite E. by apply IH.
Qed.

Lemma matching_all (l : list (revisionKey * RevisionRecord)) k :
  hasAfter && cmp_le (compareRevisionKey k after) = false ->
  Forall (clt compareRevisionKey k) (map fst l) ->
  List.filter (after_key after hasAfter) l = l.
Proof.
  intros Hk. induction l as [|[k' r] l IH]; [done|]. simpl. rewrite Forall_cons. intros [H1 H2].
  assert (E : after_key after hasAfter (k', r) = true).
  { unfold after_key. simpl. destruct hasAfter; [|done]. simpl in Hk |- *.
    destruct (cmp_le (compareRevisionKey k' after)) eqn:E; [|done].
    apply cmp_le_cle in E. rewrite (proj2 (cmp_le_cle k after)) in Hk; [done|].
    transitivity k'; [by apply clt_cle|done]. }
  rewrite E. f_equal. by apply IH.
Qed.

(** Apart from the visit counter, walking the tree is running the emit step
    over the matching records in order. *)
Lemma walk_spec node : forall st st',
  bst compareRevisionKey node -> forget_visits (st, true) = forget_visits (st', true) ->
  forget_visits (walk after hasAfter limit visit node st) =
  forget_visits (fold_stop (page_emit limit visit) st' (matching after hasAfter node)).
Proof.
  unfold matching. induction node as [|l IHl r IHr h k record]; intros st st' Hb Hst; [exact Hst|].
  apply bst_node in Hb as (Hl & Hr & Hlt & Hgt).
  cbn [walk elements]. rewrite List.filter_app. cbn [List.filter].
  set (st1 := mkPage _ _ _ _).
  assert (Hst1 : forget_visits (st1, true) = forget_visits (st', true)) by (rewrite <- Hst; done).
  destruct (hasAfter && cmp_le (compareRevisionKey k after)) eqn:Ek.
  - rewrite (matching_skip (elements l) k Ek Hlt). unfold after_key at 1. cbn [fst].
    rewrite Ek. by apply IHr.
  - replace (after_key after hasAfter (k, record)) with true by (unfold after_key; simpl; by rewrite Ek).
    rewrite (matching_all (elements r) k Ek Hgt).
    rewrite map_app, fold_stop_app. specialize (IHl st1 st' Hl Hst1).
    destruct (walk _ _ _ _ l st1) as [s2 b2], (fold_stop _ st' _) as [s2' b2'].
    unfold forget_visits in IHl. simpl in IHl. injection IHl as E1 E2 E3 ->.
    destruct b2'; simpl; [|unfold forget_visits; simpl; congruence].
    unfold page_emit. rewrite E1, E3. destruct (pg_emitted s2' =? limit).
    { unfold forget_visits. simpl. congruence. }
    destruct (visit (pg_user s2') record) as [u []]; simpl; [|unfold forget_visits; simpl; congruence].
    specialize (IHr (mkPage (pg_visited s2) (pg_emitted s2' + 1) (pg_more s2) u)
      (mkPage (pg_visited s2') (pg_emitted s2' + 1) (pg_more s2') u) Hr).
    rewrite (matching_all (elements r) k Ek Hgt) in IHr. apply IHr.
    unfold forget_visits. simpl. congruence.
Qed.
End RevisionPageFacts.

Lemma collect_page limit records acc visited more e :
  0 <= e <= limit -> more = false ->
  let p := fold_stop (page_emit limit collect_metadata) (mkPage visited e more acc) records in
  pg_user (fst p) = acc ++ map rw_metadata (take (Z.to_nat (limit - e)) records) /\
  pg_more (fst p) = (limit - e <? zlen records).
Proof.
  revert acc visited e. induction records as [|r records IH]; intros acc visited e He ->; simpl.
  { rewrite take_nil. simpl. rewrite app_nil_r. split; [done|].
    destruct (Z.ltb_spec (limit - e) (zlen (@nil RevisionRecord))) as [H|H]; [|done].
    unfold zlen in H. simpl in H. lia. }
  unfold page_emit at 1 3. cbn [pg_emitted pg_user pg_visited pg_more].
  destruct (Z.eqb_spec e limit) as [->|Hne]; simpl.
  { rewrite Z.sub_diag. simpl. rewrite app_nil_r. split; [done|].
    rewrite zlen_cons. assert (H := zlen_nonneg records). symmetry. apply Z.ltb_lt. lia. }
  destruct (IH (acc ++ [rw_metadata r]) visited (e + 1)) as [E1 E2]; [lia|done|].
  rewrite E1, E2. replace (Z.to_nat (limit - e)) with (S (Z.to_nat (limit - (e + 1)))) by lia.
  simpl. rewrite <- app_assoc. split; [done|]. rewrite zlen_cons.
  apply eq_true_iff_eq. rewrite !Z.ltb_lt. lia.
Qed.

(** A revision page holds exactly the first [limit] revisions strictly
    after the continuation key, in publication order, and reports [more]
    exactly when others follow; the pruned in-order walk of the index
    neither skips, repeats nor reorders a revision. *)
Lemma revisionPage_exact root after hasAfter limit :
  bst compareRevisionKey root -> 0 <= limit ->
  let page := revisionPage after hasAfter limit collect_metadata root [] in
  pg_user page = map rw_metadata (take (Z.to_nat limit) (matching after hasAfter root)) /\
  pg_more page = (limit <? zlen (matching after hasAfter root)).
Proof.
  intros Hb Hl page. unfold page, revisionPage.
  assert (H := walk_spec after hasAfter limit collect_metadata root (mkPage 0 0 false []) _ Hb eq_refl).
  destruct (collect_page limit (matching after hasAfter root) [] 0 false 0) as [E1 E2]; [lia|done|].
  unfold forget_visits in H. injection H as _ Hm Hu _. rewrite Hm, Hu, E1, E2, Z.sub_0_r. done.
Qed.

(** ** Work of one page *)
Section PageWork.
Context {S : Type} (after : revisionKey) (hasAfter : bool) (limit : Z)
  (visit : S -> RevisionRecord -> S * bool).

Definition page_work (st st' : page_state S) : Z :=
  (pg_visited st' - pg_visited st) - (pg_emitted st' - pg_emitted st).

Lemma emit_work st record st' b :
  page_emit limit visit st record = (st', b) ->
  pg_visited st' = pg_visited st /\ pg_emitted st <= pg_emitted st' <= pg_emitted st + 1 /\
  (b = true -> pg_emitted st' = pg_emitted st + 1).
Proof.
  unfold page_emit. destruct (_ =? _); [intros [= <- <-]; simpl; repeat split; (done || lia)|].
  destruct (visit _ _). intros [= <- <-]. simpl. repeat split; lia.
Qed.

Lemma walk_work_all node : forall st st' b,
  avl node -> Forall (fun kv => after_key after hasAfter kv = true) (elements node) ->
  walk after hasAfter limit visit node st = (st', b) ->
  page_work st st' <= if b then 0 else height node.
Proof.
  unfold page_work. induction node as [|l IHl r IHr h k record]; intros st st' b Ha Hall; cbn [walk height].
  { intros [= <- <-]. lia. }
  destruct Ha as (Hl & Hr & -> & Hbal).
  assert (Pl := avl_height_nonneg l Hl). assert (Pr := avl_height_nonneg r Hr).
  cbn [elements] in Hall. rewrite Forall_app, Forall_cons in Hall. destruct Hall as (Al & Ak & Ar).
  unfold after_key in Ak. cbn [fst] in Ak. apply negb_true_iff in Ak. rewrite Ak.
  set (st1 := mkPage _ _ _ _). destruct (walk _ _ _ _ l st1) as [s2 b2] eqn:E1.
  specialize (IHl _ _ _ Hl Al E1). simpl in IHl.
  destruct b2; simpl; [|intros [= <- <-]; lia].
  destruct (page_emit _ _ s2 record) as [s3 b3] eqn:E2. apply emit_work in E2 as (V & R & T).
  destruct b3; simpl; [|intros [= <- <-]; lia]. specialize (T eq_refl).
  intros E3. specialize (IHr _ _ _ Hr Ar E3). destruct b; lia.
Qed.

Lemma walk_work node : forall st st' b,
  avl node -> bst compareRevisionKey node -> walk after hasAfter limit visit node st = (st', b) ->
  page_work st st' <= height node + (if b then 0 else height node).
Proof.
  unfold page_work. induction node as [|l IHl r IHr h k record]; intros st st' b Ha Hb; cbn [walk height].
  { intros [= <- <-]. lia. }
  destruct Ha as (Hl & Hr & -> & Hbal). apply bst_node in Hb as (Bl & Br & Hlt & Hgt).
  assert (Pl := avl_height_nonneg l Hl). assert (Pr := avl_height_nonneg r Hr).
  set (st1 := mkPage _ _ _ _). destruct (hasAfter && _) eqn:Ek.
  { intros E. specialize (IHr _ _ _ Hr Br E). simpl in IHr. destruct b; lia. }
  destruct (walk _ _ _ _ l st1) as [s2 b2] eqn:E1. specialize (IHl _ _ _ Hl Bl E1). simpl in IHl.
  destruct b2; simpl; [|intros [= <- <-]; lia].
  destruct (page_emit _ _ s2 record) as [s3 b3] eqn:E2. apply emit_work in E2 as (V & R & T).
  destruct b3; simpl; [|intros [= <- <-]; lia]. specialize (T eq_refl).
  intros E3. assert (Hall := matching_all after hasAfter (elements r) k Ek Hgt).
  assert (W := walk_work_all r s3 st' b Hr). unfold page_work in W.
  assert (Forall (fun kv => after_key after hasAfter kv = true) (elements r)) as Ar.
  { apply Forall_forall. intros kv Hin. rewrite <- Hall in Hin.
    apply list_elem_of_In, filter_In in Hin as [_ Hin]. done. }
  specialize (W Ar E3). destruct b; lia.
Qed.

Lemma emit_bounded st record st' b :
  page_emit limit visit st record = (st', b) -> pg_emitted st <= limit -> pg_emitted st' <= limit.
Proof.
  unfold page_emit. destruct (Z.eqb_spec (pg_emitted st) limit); [by intros [= <- <-]|].
  destruct (visit _ _). intros [= <- <-]. simpl. lia.
Qed.

Lemma walk_bounded node : forall st st' b,
  walk after hasAfter limit visit node st = (st', b) -> pg_emitted st <= limit -> pg_emitted st' <= limit.
Proof.
  induction node as [|l IHl r IHr h k record]; intros st st' b; cbn [walk]; [by intros [= <- <-]|].
  set (st1 := mkPage _ _ _ _). intros E H. assert (H1 : pg_emitted st1 <= limit) by done.
  destruct (hasAfter && _); [eauto|].
  destruct (walk _ _ _ _ l st1) as [s2 b2] eqn:E1. specialize (IHl _ _ _ E1 H1).
  destruct b2; simpl in E; [|by injection E as <- <-].
  destruct (page_emit _ _ s2 record) as [s3 b3] eqn:E2. apply emit_bounded in E2; [|done].
  destruct b3; simpl in E; [eauto|by injection E as <- <-].
Qed.
End PageWork.

(** C40: one page costs at most its own size plus two search paths, whatever
    the number of stored revisions: the nodes visited are bounded by
    [limit + 2 * height], and the height of the index is logarithmic. *)
Theorem revisionPage_work root after hasAfter limit :
  avl root -> bst compareRevisionKey root -> 0 <= limit ->
  let page := revisionPage after hasAfter limit collect_metadata root [] in
  pg_visited page <= limit + 2 * height root /\ 2 ^ (height root / 2) <= size root + 1.
Proof.
  intros Ha Hb Hl. simpl. unfold revisionPage.
  destruct (walk _ _ _ _ root _) as [st b] eqn:E. simpl.
  assert (W := walk_work _ _ _ _ _ _ _ _ Ha Hb E). assert (B := walk_bounded _ _ _ _ _ _ _ _ E Hl).
  unfold page_work in W. simpl in W. assert (P := avl_height_nonneg root Ha).
  split; [destruct b; lia|by apply avl_size_pow].
Qed.

(** * Tuples *)

Definition tupleNode : Type := tree Tuple RelationshipTuple.

Definition tupleRebalance : tupleNode -> tupleNode := rebalance.
Definition tupleSet : tupleNode -> Tuple -> RelationshipTuple -> tupleNode := avl_set compareTuple.
Definition tupleMin : tupleNode -> option (Tuple * RelationshipTuple) := min_node.
Definition tupleDelete : tupleNode -> Tuple -> tupleNode := avl_delete compareTuple.

Fixpoint queryTupleBucket {S} (node : tupleNode) (resource : EntityRef) (relation : string)
  (visit : S -> RelationshipTuple -> S * bool) (s : S) : S * bool :=
  match node with
  | Leaf => (s, true)
  | Node l r _ k value =>
      match compareTupleBucket k resource relation with
      | Lt => queryTupleBucket r resource relation visit s
      | Gt => queryTupleBucket l resource relation visit s
      | Eq =>
          let '(s, ok) := queryTupleBucket l resource relation visit s in
          if negb ok then (s, false)
          else
            let '(s, ok) := visit s value in
            if negb ok then (s, false) else queryTupleBucket r resource relation visit s
      end
  end.

Definition in_bucket (resource : EntityRef) (relation : string) (t : Tuple) : bool :=
  cmp_eq (compareTupleBucket t resource relation).

Definition bucket (resource : EntityRef) (relation : string) (node : tupleNode) : list RelationshipTuple :=
  map snd (List.filter (fun kv => in_bucket resource relation kv.1) (elements node)).

Lemma in_bucket_spec resource relation t :
  in_bucket resource relation t = true <-> tup_Resource t = resource /\ tup_Relation t = relation.
Proof.
  unfold in_bucket, compareTupleBucket.
  destruct (tc_spec compareEntity (tup_Resource t) resource) as [->|H|H]; simpl.
  - destruct (tc_spec String.compare (tup_Relation t) relation) as [->|H|H]; simpl; [done| |];
      (split; [done|]; intros [_ E]; rewrite E in H; by apply (tc_lt_irrefl String.compare) in H).
  - split; [done|]. intros [E _]. rewrite E in H. by apply (tc_lt_irrefl compareEntity) in H.
  - split; [done|]. intros [E _]. rewrite E in H. by apply (tc_lt_irrefl compareEntity) in H.
Qed.

(** The bucket comparison is monotone in the tuple order. *)
Lemma compareTupleBucket_mono a b resource relation :
  clt compareTuple a b ->
  (compareTupleBucket b resource relation = Lt -> compareTupleBucket a resource relation = Lt) /\
  (compareTupleBucket a resource relation = Gt -> compareTupleBucket b resource relation = Gt).
Proof.
  set (cb := pair_cmp compareEntity String.compare).
  assert (E : forall t, compareTupleBucket t resource relation
    = cb (tup_Resource t, tup_Relation t) (resource, relation)) by done.
  assert (H : clt compareTuple a b ->
    cle cb (tup_Resource a, tup_Relation a) (tup_Resource b, tup_Relation b)).
  { unfold clt, cle, compareTuple, cb, pair_cmp. simpl. rewrite <- then_cmp_assoc.
    by destruct (then_cmp _ (String.compare _ _)). }
  intros Hlt%H. rewrite !E. split.
  - intros Hb. destruct (cle_cases cb _ _ Hlt) as [->|Hl]; [done|]. exact (tc_trans cb _ _ _ Hl Hb).
  - intros Ha. destruct (cle_cases cb _ _ Hlt) as [<-|Hl]; [done|].
    apply (tc_gt_lt cb) in Ha. apply (tc_gt_lt cb). exact (tc_trans cb _ _ _ Ha Hl).
Qed.

Lemma bucket_nil resource relation (l : list (Tuple * RelationshipTuple)) o :
  o <> Eq -> Forall (fun t => compareTupleBucket t resource relation = o) (map fst l) ->
  List.filter (fun kv => in_bucket resource relation kv.1) l = [].
Proof.
  intros Ho. induction l as [|[t v] l IH]; simpl; [done|]. rewrite Forall_cons. intros [H1 H2].
  unfold in_bucket at 1. simpl. rewrite H1. destruct o; [done|by apply IH|by apply IH].
Qed.

(** The bucket query visits exactly the stored tuples of that resource and
    relation, in order and until the callback stops it: descending into one
    side only on unequal buckets loses no tuple. *)
Lemma queryTupleBucket_exact {S} node resource relation
  (visit : S -> RelationshipTuple -> S * bool) s :
  bst compareTuple node ->
  queryTupleBucket node resource relation visit s =
  fold_stop visit s (bucket resource relation node).
Proof.
  unfold bucket. revert s. induction node as [|l IHl r IHr h k v]; intros s Hb; [done|].
  apply bst_node in Hb as (Hl & Hr & Hlt & Hgt).
  cbn [queryTupleBucket elements]. rewrite List.filter_app. cbn [List.filter fst].
  unfold in_bucket at 2. destruct (compareTupleBucket k resource relation) eqn:Ek; simpl.
  - rewrite map_app, fold_stop_app, IHl by done. simpl.
    destruct (fold_stop visit s _) as [s' []]; simpl; [|done].
    destruct (visit s' v) as [s'' []]; simpl; [by apply IHr|done].
  - rewrite (bucket_nil resource relation (elements l) Lt); [by apply IHr|done|].
    eapply Forall_impl; [exact Hlt|]. intros t Ht. by apply (compareTupleBucket_mono _ _ resource relation Ht).
  - rewrite (bucket_nil resource relation (elements r) Gt).
    + rewrite app_nil_r. by apply IHl.
    + done.
    + eapply Forall_impl; [exact Hgt|]. intros t Ht. by apply (compareTupleBucket_mono _ _ resource relation Ht).
Qed.

(** * Attributes: an entity tree of segment tries *)

Inductive attributeTrie : Type :=
  | Trie (attribute : Attribute) (hasValue : bool) (children : tree string attributeTrie).

Definition segmentNode : Type := tree string attributeTrie.
Definition attributeEntityNode : Type := tree EntityRef attributeTrie.

Definition trie_attribute (t : attributeTrie) : Attribute := let '(Trie a _ _) := t in a.
Definition trie_hasValue (t : attributeTrie) : bool := let '(Trie _ h _) := t in h.
Definition trie_children (t : attributeTrie) : segmentNode := let '(Trie _ _ c) := t in c.

Definition entityRebalance : attributeEntityNode -> attributeEntityNode := rebalance.
Definition entityGet : attributeEntityNode -> EntityRef -> option attributeTrie := avl_get compareEntity.
Definition entitySet : attributeEntityNode -> EntityRef -> attributeTrie -> attributeEntityNode :=
  avl_set compareEntity.
Definition entityMin : attributeEntityNode -> option (EntityRef * attributeTrie) := min_node.
Definition entityDelete : attributeEntityNode -> EntityRef -> attributeEntityNode :=
  avl_delete compareEntity.

Definition segmentRebalance : segmentNode -> segmentNode := rebalance.
Definition segmentGet : segmentNode -> string -> option attributeTrie := avl_get String.compare.
Definition segmentSet : segmentNode -> string -> attributeTrie -> segmentNode := avl_set String.compare.
Definition segmentMin : segmentNode -> option (string * attributeTrie) := min_node.
Definition segmentDelete : segmentNode -> string -> segmentNode := avl_delete String.compare.

(** Go's zero [Attribute] and zero [attributeTrie]. *)
Definition zero_attribute : Attribute := mkAttribute (mkEntityRef "" "") [] (mkValue 0 "" 0 false).
Definition zero_trie : attributeTrie := Trie zero_attribute false Leaf.

Definition is_nil {K V} (t : tree K V) : bool := match t with Leaf => true | _ => false end.

(** A nil [*attributeTrie] is [None]; the pair [(nil, false)] of [trieSet] is
    [None] and [(t, true)] is [Some t]. [index] is the consumed prefix. *)
Fixpoint trieSet (node : option attributeTrie) (path : list string) (attribute : Attribute)
  : option attributeTrie :=
  let node := default zero_trie node in
  match path with
  | [] =>
      if negb (is_nil (trie_children node)) then None
      else Some (Trie attribute true (trie_children node))
  | segment :: rest =>
      if trie_hasValue node then None
      else
        match trieSet (segmentGet (trie_children node) segment) rest attribute with
        | None => None
        | Some updated =>
            Some (Trie (trie_attribute node) (trie_hasValue node)
                    (segmentSet (trie_children node) segment updated))
        end
  end.

(** The descent shared by [trieGet] and [attributeHasDescendant]. *)
Fixpoint trieFind (node : option attributeTrie) (path : list string) : option attributeTrie :=
  match path with
  | [] => node
  | segment :: rest =>
      match node with
      | None => None
      | Some t => trieFind (segmentGet (trie_children t) segment) rest
      end
  end.

Definition trieGet (node : option attributeTrie) (path : list string) : option Attribute :=
  match trieFind node path with
  | Some t => if trie_hasValue t then Some (trie_attribute t) else None
  | None => None
  end.

Fixpoint trieDelete (node : option attributeTrie) (path : list string) : option attributeTrie :=
  match node with
  | None => None
  | Some t =>
      match path with
      | [] =>
          if is_nil (trie_children t) then None
          else Some (Trie zero_attribute false (trie_children t))
      | segment :: rest =>
          match segmentGet (trie_children t) segment with
          | None => Some t
          | Some child =>
              let children :=
                match trieDelete (Some child) rest with
                | None => segmentDelete (trie_children t) segment
                | Some updatedChild => segmentSet (trie_children t) segment updatedChild
                end in
              if negb (trie_hasValue t) && is_nil children then None
              else Some (Trie (trie_attribute t) (trie_hasValue t) children)
          end
      end
  end.

Definition attributeSet (root : attributeEntityNode) (attribute : Attribute)
  : attributeEntityNode * bool :=
  match trieSet (entityGet root (attr_entity attribute)) (attr_path attribute) attribute with
  | None => (root, false)
  | Some updated => (entitySet root (attr_entity attribute) updated, true)
  end.

Definition attributeDelete (root : attributeEntityNode) (key : AttributeKey) : attributeEntityNode :=
  match entityGet root (ak_entity key) with
  | None => root
  | Some trie =>
      match trieDelete (Some trie) (ak_path key) with
      | None => entityDelete root (ak_entity key)
      | Some updated => entitySet root (ak_entity key) updated
      end
  end.

Definition attributeGet (root : attributeEntityNode) (key : AttributeKey) : option Attribute :=
  trieGet (entityGet root (ak_entity key)) (ak_path key).

Definition attributeHasDescendant (root : attributeEntityNode) (key : AttributeKey) : bool :=
  match trieFind (entityGet root (ak_entity key)) (ak_path key) with
  | Some t => negb (is_nil (trie_children t))
  | None => false
  end.

(** ** Well-formed tries: a value sits on a leaf, and every inner node leads
    to one; segment trees are search trees in balance. *)
Inductive wf_trie : attributeTrie -> Prop :=
  | wf_value a : wf_trie (Trie a true Leaf)
  | wf_inner a ch :
      ch <> Leaf -> bst String.compare ch -> avl ch ->
      (forall segment t, segmentGet ch segment = Some t -> wf_trie t) ->
      wf_trie (Trie a false ch).

Definition wf_opt (node : option attributeTrie) : Prop := forall t, node = Some t -> wf_trie t.

Lemma wf_children t : wf_trie t ->
  bst String.compare (trie_children t) /\ avl (trie_children t) /\
  (forall segment, wf_opt (segmentGet (trie_children t) segment)).
Proof.
  intros [a|a ch Hne Hb Ha Hc]; simpl.
  - repeat split; [constructor|]. by intros segment x.
  - split; [done|]. split; [done|]. intros segment x. apply Hc.
Qed.

Lemma default_children node : wf_opt node ->
  bst String.compare (trie_children (default zero_trie node)) /\
  avl (trie_children (default zero_trie node)) /\
  (forall segment, wf_opt (segmentGet (trie_children (default zero_trie node)) segment)).
Proof.
  destruct node as [t|]; intros H; simpl.
  - apply wf_children, H. done.
  - repeat split; [constructor|]. by intros segment t.
Qed.

Lemma trieSet_wf path a : forall node t, wf_opt node -> trieSet node path a = Some t -> wf_trie t.
Proof.
  induction path as [|segment rest IH]; intros node t Hwf; cbn [trieSet].
  - destruct (trie_children _); simpl; [|done]. intros [= <-]. constructor.
  - destruct (default_children node Hwf) as (Hb & Ha & Hc).
    destruct (trie_hasValue _) eqn:Ev; [done|].
    destruct (trieSet _ rest a) as [u|] eqn:Eu; [|done]. intros [= <-].
    apply IH in Eu; [|apply Hc]. constructor.
    + by apply (set_nonempty String.compare).
    + by apply (bst_set String.compare).
    + by apply (set_avl String.compare).
    + intros s t'. unfold segmentGet, segmentSet. destruct (decide (segment = s)) as [<-|Hne].
      * rewrite (get_set_eq String.compare) by done. by intros [= <-].
      * rewrite (get_set_ne String.compare) by done. apply Hc.
Qed.

Lemma trieDelete_wf path : forall node t, wf_opt node -> trieDelete node path = Some t -> wf_trie t.
Proof.
  induction path as [|segment rest IH]; intros [n|] t Hwf; cbn [trieDelete]; try done;
    destruct (wf_children n (Hwf n eq_refl)) as (Hb & Ha & Hc).
  - destruct n as [x hv ch]. simpl in *. destruct ch; [done|]. simpl. intros [= <-].
    assert (W := Hwf _ eq_refl). inversion W; subst. by constructor.
  - destruct (segmentGet _ segment) as [child|] eqn:Eg; [|intros [= <-]; by apply Hwf].
    assert (Hf : trie_hasValue n = false).
    { assert (W := Hwf n eq_refl). destruct W; [done|done]. }
    rewrite Hf. simpl.
    assert (Hchild : wf_opt (Some child)) by (intros x [= <-]; by eapply Hc).
    destruct (trieDelete (Some child) rest) as [u|] eqn:Eu.
    + destruct (is_nil _) eqn:En; [done|]. intros [= <-].
      specialize (IH _ _ Hchild Eu). constructor.
      * by apply (set_nonempty String.compare).
      * by apply (bst_set String.compare).
      * by apply (set_avl String.compare).
      * intros s t'. unfold segmentGet, segmentSet. destruct (decide (segment = s)) as [<-|Hne].
        -- rewrite (get_set_eq String.compare) by done. by intros [= <-].
        -- rewrite (get_set_ne String.compare) by done. apply Hc.
    + destruct (is_nil _) eqn:En; [done|]. intros [= <-]. constructor.
      * intros E. by rewrite E in En.
      * by apply (bst_delete String.compare).
      * by apply (delete_avl String.compare).
      * intros s t'. unfold segmentGet, segmentDelete. destruct (decide (segment = s)) as [<-|Hne].
        -- by rewrite (get_delete_eq String.compare) by done.
        -- rewrite (get_delete_ne String.compare) by done. apply Hc.
Qed.

(** ** Contents of a trie *)

Lemma trieFind_None path : trieFind None path = None.
Proof. by destruct path. Qed.

Lemma trieFind_app path q : forall node, trieFind node (path ++ q) = trieFind (trieFind node path) q.
Proof.
  induction path as [|s path IH]; intros node; simpl; [done|].
  destruct node as [t|]; [apply IH|]. by rewrite trieFind_None.
Qed.

Lemma trieGet_cons node s p :
  trieGet node (s :: p) = trieGet (segmentGet (trie_children (default zero_trie node)) s) p.
Proof. unfold trieGet. destruct node; simpl; [done|]. by rewrite trieFind_None. Qed.

Lemma trieGet_nil node :
  trieGet node [] = if trie_hasValue (default zero_trie node)
                    then Some (trie_attribute (default zero_trie node)) else None.
Proof. by destruct node. Qed.

Lemma wf_find path : forall node, wf_opt node -> wf_opt (trieFind node path).
Proof.
  induction path as [|s path IH]; intros node Hwf; simpl; [done|].
  destruct node as [t|]; [|done]. apply IH. apply wf_children. by apply Hwf.
Qed.

(** Every well-formed trie holds a value. *)
Lemma wf_has_value t : wf_trie t -> exists p a, trieGet (Some t) p = Some a.
Proof.
  induction 1 as [a|a ch Hne Hb Ha Hc IH]; [by exists [], a|].
  destruct (get_nonempty String.compare ch Hb Hne) as (s & u & E).
  destruct (IH s u E) as (p & b & Hp). exists (s :: p), b.
  rewrite trieGet_cons. simpl. unfold segmentGet. by rewrite E.
Qed.

Lemma is_nil_true {K V} (t : tree K V) : is_nil t = true <-> t = Leaf.
Proof. by destruct t. Qed.

Lemma trieGet_set path a : forall node t p,
  wf_opt node -> trieSet node path a = Some t ->
  trieGet (Some t) p = if decide (p = path) then Some a else trieGet node p.
Proof.
  induction path as [|s rest IH]; intros node t p Hwf; cbn [trieSet].
  - destruct (trie_children _) eqn:Ec; simpl; [|done]. intros [= <-].
    destruct p as [|s' p]; [by rewrite decide_True|].
    rewrite decide_False by done. rewrite !trieGet_cons, Ec. done.
  - destruct (default_children node Hwf) as (Hb & Ha & Hc).
    destruct (trie_hasValue _) eqn:Ev; [done|].
    destruct (trieSet _ rest a) as [u|] eqn:Eu; [|done]. intros [= <-].
    destruct p as [|s' p].
    { rewrite decide_False by done. rewrite !trieGet_nil. simpl. by rewrite Ev. }
    rewrite !trieGet_cons. simpl. unfold segmentGet at 1, segmentSet.
    destruct (decide (s = s')) as [<-|Hne].
    + rewrite (get_set_eq String.compare) by done. rewrite (IH _ _ p (Hc s) Eu).
      destruct (decide (p = rest)) as [->|Hp]; [by rewrite decide_True|].
      rewrite decide_False by congruence. done.
    + rewrite (get_set_ne String.compare) by done. rewrite decide_False by congruence. done.
Qed.

(** Insertion is refused exactly when the path has an occupied strict prefix
    or an occupied strict extension. *)
Lemma trieSet_fails path a : forall node,
  wf_opt node ->
  trieSet node path a = None <->
  exists p b, trieGet node p = Some b /\ p <> path /\ (p `prefix_of` path \/ path `prefix_of` p).
Proof.
  induction path as [|s rest IH]; intros node Hwf; cbn [trieSet].
  - destruct (default_children node Hwf) as (Hb & Ha & Hc).
    destruct (is_nil (trie_children (default zero_trie node))) eqn:En; simpl.
    + split; [done|]. intros (p & b & Hp & Hne & _). apply is_nil_true in En.
      destruct p as [|s' p]; [done|]. rewrite trieGet_cons, En in Hp.
      unfold trieGet in Hp. simpl in Hp. by rewrite trieFind_None in Hp.
    + split; [|done]. intros _.
      destruct (get_nonempty String.compare _ Hb) as (s & u & Hu); [by intros E; rewrite E in En|].
      destruct (wf_has_value u (Hc s u Hu)) as (p & b & Hp). exists (s :: p), b.
      rewrite trieGet_cons. unfold segmentGet. rewrite Hu. split; [done|]. split; [done|].
      right. apply prefix_nil.
  - destruct (default_children node Hwf) as (Hb & Ha & Hc).
    destruct (trie_hasValue (default zero_trie node)) eqn:Ev.
    { split; [|done]. intros _. exists [], (trie_attribute (default zero_trie node)).
      rewrite trieGet_nil, Ev. split; [done|]. split; [done|]. left. apply prefix_nil. }
    specialize (IH _ (Hc s)). destruct (trieSet _ rest a) as [u|].
    + split; [done|]. intros ([|s' p] & b & Hp & Hne & Hpre).
      { rewrite trieGet_nil, Ev in Hp. done. }
      rewrite !prefix_cons_iff in Hpre. assert (s' = s) as -> by (destruct Hpre as [[]|[]]; congruence).
      rewrite trieGet_cons in Hp. enough (Some u = None) by done. apply IH. exists p, b. repeat split; [done|congruence|tauto].
    + split; [|done]. intros _. destruct (proj1 IH eq_refl) as (p & b & Hp & Hne & Hpre).
      exists (s :: p), b. rewrite trieGet_cons, !prefix_cons_iff. repeat split; [done|congruence|tauto].
Qed.

Lemma trieGet_delete path : forall node p,
  wf_opt node ->
  trieGet (trieDelete node path) p = if decide (p = path) then None else trieGet node p.
Proof.
  assert (HNone : forall p, trieGet None p = None).
  { intros p. unfold trieGet. by rewrite trieFind_None. }
  induction path as [|s rest IH]; intros [n|] p Hwf; cbn [trieDelete];
    try (rewrite HNone; by destruct (decide _));
    destruct (wf_children n (Hwf n eq_refl)) as (Hb & Ha & Hc).
  - destruct (is_nil (trie_children n)) eqn:En.
    + apply is_nil_true in En. rewrite HNone. destruct (decide (p = [])) as [|Hne]; [done|].
      destruct p as [|s' p]; [done|]. rewrite trieGet_cons. simpl. rewrite En. by rewrite HNone.
    + destruct p as [|s' p]; [by rewrite decide_True|].
      rewrite decide_False by done. by rewrite !trieGet_cons.
  - assert (Hv : segmentGet (trie_children n) s <> None -> trie_hasValue n = false).
    { assert (W := Hwf n eq_refl). by destruct W. }
    destruct (segmentGet (trie_children n) s) as [child|] eqn:Eg.
    2:{ destruct (decide (p = s :: rest)) as [->|]; [|done]. rewrite trieGet_cons. simpl. by rewrite Eg. }
    specialize (Hv ltac:(done)). rewrite Hv. simpl.
    assert (Hchild : wf_opt (Some child)) by (intros x [= <-]; by eapply Hc).
    set (children := match trieDelete (Some child) rest with
      | None => segmentDelete (trie_children n) s
      | Some u => segmentSet (trie_children n) s u end).
    assert (G : forall s', segmentGet children s' =
      if decide (s' = s) then trieDelete (Some child) rest else segmentGet (trie_children n) s').
    { intros s'. unfold children, segmentGet, segmentSet, segmentDelete.
      destruct (trieDelete (Some child) rest) as [u|], (decide (s' = s)) as [->|Hne].
      - by rewrite (get_set_eq String.compare).
      - by rewrite (get_set_ne String.compare).
      - by rewrite (get_delete_eq String.compare).
      - by rewrite (get_delete_ne String.compare). }
    assert (R : trieGet (Some (Trie (trie_attribute n) false children)) p =
      if decide (p = s :: rest) then None else trieGet (Some n) p).
    { destruct p as [|s' p].
      - rewrite decide_False by done. rewrite !trieGet_nil. simpl. by rewrite Hv.
      - rewrite !trieGet_cons. simpl. rewrite G. destruct (decide (s' = s)) as [->|Hne].
        + rewrite IH by done. rewrite Eg. destruct (decide (p = rest)) as [->|Hp].
          * by rewrite decide_True.
          * by rewrite decide_False by congruence.
        + by rewrite decide_False by congruence. }
    destruct (is_nil children) eqn:En; [|exact R].
    apply is_nil_true in En. rewrite HNone, <- R. rewrite En.
    destruct p as [|s' p]; [done|]. rewrite trieGet_cons. simpl. by rewrite HNone.
Qed.

(** ** The attribute index refines a finite map *)

Definition wf_root (root : attributeEntityNode) : Prop :=
  bst compareEntity root /\ avl root /\ (forall e, wf_opt (entityGet root e)).

Definition attributes_rep (root : attributeEntityNode) (m : gmap AttributeKey Attribute) : Prop :=
  wf_root root /\ forall k, attributeGet root k = m !! k.

(** An occupied key other than [k] that overlaps [k]. *)
Definition occupied_conflict (m : gmap AttributeKey Attribute) (k : AttributeKey) : Prop :=
  exists k' b, m !! k' = Some b /\ k' <> k /\ overlap k' k.

Lemma attributes_rep_empty : attributes_rep Leaf ∅.
Proof.
  split; [|intros k; unfold attributeGet, trieGet; simpl; rewrite trieFind_None; done].
  split; [constructor|]. split; [done|]. by intros e t.
Qed.

Lemma wf_entitySet root e t : wf_root root -> wf_trie t -> wf_root (entitySet root e t).
Proof.
  intros (Hb & Ha & Hw) Ht. unfold entitySet.
  split; [by apply (bst_set compareEntity)|]. split; [by apply (set_avl compareEntity)|].
  intros e' x. unfold entityGet. destruct (decide (e = e')) as [<-|Hne].
  - rewrite (get_set_eq compareEntity) by done. by intros [= <-].
  - rewrite (get_set_ne compareEntity) by done. apply Hw.
Qed.

Lemma wf_entityDelete root e : wf_root root -> wf_root (entityDelete root e).
Proof.
  intros (Hb & Ha & Hw). unfold entityDelete.
  split; [by apply (bst_delete compareEntity)|]. split; [by apply (delete_avl compareEntity)|].
  intros e' x. unfold entityGet. destruct (decide (e = e')) as [<-|Hne].
  - by rewrite (get_delete_eq compareEntity) by done.
  - rewrite (get_delete_ne compareEntity) by done. apply Hw.
Qed.

(** Replacing the trie of one entity changes look-ups of that entity only. *)
Lemma attributeGet_entitySet root e t k :
  wf_root root ->
  attributeGet (entitySet root e t) k =
  if decide (ak_entity k = e) then trieGet (Some t) (ak_path k) else attributeGet root k.
Proof.
  intros (Hb & _ & _). unfold attributeGet, entityGet, entitySet.
  destruct (decide (ak_entity k = e)) as [->|Hne].
  - by rewrite (get_set_eq compareEntity).
  - by rewrite (get_set_ne compareEntity).
Qed.

Lemma attributeGet_entityDelete root e k :
  wf_root root ->
  attributeGet (entityDelete root e) k =
  if decide (ak_entity k = e) then None else attributeGet root k.
Proof.
  intros (Hb & _ & _). unfold attributeGet, entityGet, entityDelete.
  destruct (decide (ak_entity k = e)) as [->|Hne].
  - rewrite (get_delete_eq compareEntity) by done. unfold trieGet. by rewrite trieFind_None.
  - by rewrite (get_delete_ne compareEntity).
Qed.

Lemma attributeSet_rep root m a :
  attributes_rep root m ->
  match attributeSet root a with
  | (root', true) => attributes_rep root' (<[attr_key a := a]> m) /\ ~ occupied_conflict m (attr_key a)
  | (root', false) => root' = root /\ occupied_conflict m (attr_key a)
  end.
Proof.
  intros [Hwf Hm]. unfold attributeSet.
  assert (Hopt : wf_opt (entityGet root (attr_entity a))) by apply Hwf.
  assert (Hc := trieSet_fails (attr_path a) a _ Hopt).
  destruct (trieSet _ (attr_path a) a) as [t|] eqn:Et.
  - split.
    + split; [apply wf_entitySet; [done|]; by eapply trieSet_wf|]. intros [e p].
      rewrite attributeGet_entitySet by done. simpl. destruct (decide (e = attr_entity a)) as [->|Hne].
      * rewrite (trieGet_set _ _ _ _ p Hopt Et).
        destruct (decide (p = attr_path a)) as [->|Hp]; [by rewrite lookup_insert_eq|].
        rewrite lookup_insert_ne; [|unfold attr_key; congruence]. by rewrite <- Hm.
      * rewrite lookup_insert_ne; [|unfold attr_key; congruence]. by rewrite <- Hm.
    + intros ([e p] & b & Hk & Hne & [He Hp]). unfold attr_key in *. simpl in *. subst e.
      enough (Some t = None) by done. apply Hc. exists p, b.
      rewrite <- Hm in Hk. repeat split; [done|congruence|done].
  - split; [done|]. destruct (proj1 Hc eq_refl) as (p & b & Hp & Hne & Hpre).
    exists (mkAttributeKey (attr_entity a) p), b. rewrite <- Hm. repeat split; auto.
    unfold attr_key. congruence.
Qed.

Lemma attributeDelete_rep root m k :
  attributes_rep root m -> attributes_rep (attributeDelete root k) (delete k m).
Proof.
  intros [Hwf Hm]. unfold attributeDelete.
  assert (Hopt : wf_opt (entityGet root (ak_entity k))) by apply Hwf.
  assert (Hlook : forall k', delete k m !! k' = if decide (k' = k) then None else attributeGet root k').
  { intros k'. destruct (decide (k' = k)) as [->|Hne]; [by rewrite lookup_delete_eq|].
    by rewrite lookup_delete_ne, Hm. }
  destruct (entityGet root (ak_entity k)) as [t|] eqn:Ee.
  2:{ split; [done|]. intros k'. rewrite Hlook. destruct (decide (k' = k)) as [->|]; [|done].
      unfold attributeGet. rewrite Ee. unfold trieGet. by rewrite trieFind_None. }
  assert (Hg := fun p => trieGet_delete (ak_path k) _ p Hopt).
  assert (Hw := trieDelete_wf (ak_path k) (Some t)).
  destruct (trieDelete (Some t) (ak_path k)) as [u|].
  - split; [apply wf_entitySet; [done|]; by eapply Hw|]. intros [e p].
    rewrite attributeGet_entitySet, Hlook by done. destruct k as [ke kp]. simpl in *.
    destruct (decide (e = ke)) as [->|Hne].
    + rewrite Hg. destruct (decide (p = kp)) as [->|Hp]; [by rewrite decide_True|].
      rewrite decide_False by congruence. unfold attributeGet. simpl. by rewrite Ee.
    + by rewrite decide_False by congruence.
  - split; [by apply wf_entityDelete|]. intros [e p].
    rewrite attributeGet_entityDelete, Hlook by done. destruct k as [ke kp]. simpl in *.
    destruct (decide (e = ke)) as [->|Hne].
    + specialize (Hg p). destruct (decide (p = kp)) as [->|Hp]; [by rewrite decide_True|].
      rewrite decide_False by congruence. unfold attributeGet. simpl. rewrite Ee, <- Hg.
      unfold trieGet. by rewrite trieFind_None.
    + by rewrite decide_False by congruence.
Qed.

Lemma attributeHasDescendant_rep root m k :
  attributes_rep root m ->
  attributeHasDescendant root k = true <->
  exists p b, p <> [] /\ m !! mkAttributeKey (ak_entity k) (ak_path k ++ p) = Some b.
Proof.
  intros [Hwf Hm]. unfold attributeHasDescendant.
  assert (Hopt : wf_opt (trieFind (entityGet root (ak_entity k)) (ak_path k))).
  { apply wf_find, Hwf. }
  assert (Hg : forall p, m !! mkAttributeKey (ak_entity k) (ak_path k ++ p) =
    trieGet (trieFind (entityGet root (ak_entity k)) (ak_path k)) p).
  { intros p. rewrite <- Hm. unfold attributeGet, trieGet. simpl. by rewrite trieFind_app. }
  setoid_rewrite Hg. clear Hg.
  destruct (trieFind _ (ak_path k)) as [t|].
  - destruct (wf_children t (Hopt t eq_refl)) as (Hb & _ & Hc). rewrite negb_true_iff. split.
    + intros En. destruct (get_nonempty String.compare _ Hb) as (s & u & Hu); [by intros E; rewrite E in En|].
      destruct (wf_has_value u (Hc s u Hu)) as (p & b & Hp). exists (s :: p), b. split; [done|].
      rewrite trieGet_cons. simpl. unfold segmentGet. by rewrite Hu.
    + intros ([|s p] & b & Hne & Hp); [done|]. rewrite trieGet_cons in Hp. simpl in Hp.
      destruct (trie_children t); [|done]. unfold trieGet in Hp. simpl in Hp. by rewrite trieFind_None in Hp.
  - split; [done|]. intros (p & b & _ & Hp). unfold trieGet in Hp. by rewrite trieFind_None in Hp.
Qed.
