(* ===== verification/Cursor.v ===== *)
(** Authenticated page cursors (store/memory/cursors.go).

    A cursor is a base64url token: version, domain, a truncated MAC of the
    scope (domain, namespace, slot), position, publication time, revision
    identifier, and a MAC of all of it. HMAC-SHA-256 is a function of key and
    message with a 32-byte result; the theorems need nothing more. *)

From Stdlib Require Import ZArith Lia.
From stdpp Require Import base list strings.
From S2P Require Import Prelude Limits Text Types.

Class Hmac := {
  hmac_sum : list Z -> list Z -> list Z;
  hmac_len : forall key message, length (hmac_sum key message) = 32%nat;
  hmac_bytes : forall key message, Forall is_byte (hmac_sum key message)
}.

(** * base64.RawURLEncoding *)

Definition b64_char (n : Z) : Z :=
  if n <? 26 then 65 + n else if n <? 52 then 71 + n else if n <? 62 then n - 4
  else if n =? 62 then 45 else 95.

Definition b64_value (c : Z) : option Z :=
  if in_range 65 90 c then Some (c - 65)
  else if in_range 97 122 c then Some (c - 71)
  else if in_range 48 57 c then Some (c + 4)
  else if c =? 45 then Some 62
  else if c =? 95 then Some 63
  else None.

Fixpoint b64_encode (l : list Z) : list Z :=
  match l with
  | [] => []
  | [b0] => [b64_char (b0 / 4); b64_char (b0 mod 4 * 16)]
  | [b0; b1] =>
      [b64_char (b0 / 4); b64_char (b0 mod 4 * 16 + b1 / 16); b64_char (b1 mod 16 * 4)]
  | b0 :: b1 :: b2 :: rest =>
      b64_char (b0 / 4) :: b64_char (b0 mod 4 * 16 + b1 / 16)
      :: b64_char (b1 mod 16 * 4 + b2 / 64) :: b64_char (b2 mod 64) :: b64_encode rest
  end.

(** Decoding of the characters left after the decoder has dropped carriage
    returns and newlines; trailing bits of the last group are not checked. *)
Fixpoint b64_groups (l : list Z) : option (list Z) :=
  match l with
  | [] => Some []
  | [_] => None
  | [c0; c1] =>
      match b64_value c0, b64_value c1 with
      | Some a, Some b => Some [a * 4 + b / 16]
      | _, _ => None
      end
  | [c0; c1; c2] =>
      match b64_value c0, b64_value c1, b64_value c2 with
      | Some a, Some b, Some c => Some [a * 4 + b / 16; b mod 16 * 16 + c / 4]
      | _, _, _ => None
      end
  | c0 :: c1 :: c2 :: c3 :: rest =>
      match b64_value c0, b64_value c1, b64_value c2, b64_value c3, b64_groups rest with
      | Some a, Some b, Some c, Some d, Some bs =>
          Some (a * 4 + b / 16 :: b mod 16 * 16 + c / 4 :: c mod 4 * 64 + d :: bs)
      | _, _, _, _, _ => None
      end
  end.

Definition is_newline (c : Z) : bool := (c =? 10) || (c =? 13).
Definition b64_decode (l : list Z) : option (list Z) :=
  b64_groups (List.filter (fun c => negb (is_newline c)) l).

(** [EncodedLen] *)
Definition b64_len (n : Z) : Z := n / 3 * 4 + (n mod 3 * 8 + 5) / 6.

(** * Big-endian integers (encoding/binary) *)
Fixpoint be_encode (n : nat) (v : Z) : list Z :=
  match n with
  | O => []
  | S n' => (v / 256 ^ Z.of_nat n') mod 256 :: be_encode n' v
  end.

Definition be_decode (l : list Z) : Z := fold_left (fun acc b => acc * 256 + b) l 0.

(** * Cursors *)

Definition cursorVersion : Z := 1.
Definition cursorScopeLen : Z := 16.
Definition cursorMACLen : Z := 32.
Definition cursorFixedLen : Z := 1 + 1 + cursorScopeLen + 8 + 8 + 4 + 2 + cursorMACLen.

Record cursorState := mkCursorState {
  cs_domain : string; cs_namespace : string; cs_slot : string; cs_position : Z;
  cs_revisionPublishedAt : Time; cs_revisionID : string }.

Definition zero_cursor : cursorState := mkCursorState "" "" "" 0 0 "".

Definition cursorDomainID (domain : string) : option Z :=
  if String.eqb domain "revision" then Some 1
  else if String.eqb domain "history" then Some 2
  else if String.eqb domain "event" then Some 3
  else None.

(** [Time.Unix], [Time.Nanosecond] and [time.Unix(sec, nsec)]: Go keeps the
    seconds since year 1 in an [int64]. *)
Definition unixToInternal : Z := 62135596800.
Definition Unix (t : Time) : Z := int64 (t / Second - unixToInternal).
Definition Nanosecond (t : Time) : Z := t mod Second.
Definition time_Unix (sec nsec : Z) : Time := int64 (sec + unixToInternal) * Second + nsec.

Section Cursors.
Context `{H : Hmac} (cursorKey : list Z) (cursorKeyOK : bool).

Definition cursorScope (domain namespace slot : string) : list Z :=
  take 16 (hmac_sum cursorKey
    (bytes_of_string "scope" ++ [0] ++ bytes_of_string domain ++ [0]
     ++ bytes_of_string namespace ++ [0] ++ bytes_of_string slot)).

Definition is_revision (domain : string) : bool := String.eqb domain "revision".

(** The [switch cursor.domain] of [newCursorLocked]. *)
Definition cursor_shape_ok (c : cursorState) : bool :=
  if is_revision (cs_domain c) then
    negb (negb (cs_position c =? 0) || IsZero (cs_revisionPublishedAt c)
          || bool_decide (cs_revisionID c = ""%string))
  else
    negb ((cs_position c =? 0) || negb (IsZero (cs_revisionPublishedAt c))
          || bool_decide (cs_revisionID c <> ""%string)).

Definition cursor_payload (domainID : Z) (c : cursorState) : list Z :=
  [cursorVersion; domainID] ++ cursorScope (cs_domain c) (cs_namespace c) (cs_slot c)
  ++ be_encode 8 (cs_position c)
  ++ (if is_revision (cs_domain c)
      then be_encode 8 (Unix (cs_revisionPublishedAt c) mod 2 ^ 64) else replicate 8 0)
  ++ (if is_revision (cs_domain c)
      then be_encode 4 (Nanosecond (cs_revisionPublishedAt c) mod 2 ^ 32) else replicate 4 0)
  ++ be_encode 2 (len (cs_revisionID c) mod 2 ^ 16)
  ++ bytes_of_string (cs_revisionID c).

Definition newCursorLocked (c : cursorState) : result string :=
  match cursorDomainID (cs_domain c) with
  | None => Err ErrorInternal
  | Some domainID =>
      if negb cursorKeyOK || (2 ^ 16 - 1 <? len (cs_revisionID c)) then Err ErrorInternal
      else if negb (cursor_shape_ok c) then Err ErrorInternal
      else
        let payloadLen := cursorFixedLen - cursorMACLen + len (cs_revisionID c) in
        if MaxIdentifierBytes <? b64_len (payloadLen + cursorMACLen) then Err ErrorInternal
        else
          let payload := cursor_payload domainID c in
          Ok (string_of_bytes (b64_encode (payload ++ hmac_sum cursorKey payload)))
  end.

(** [int64(binary.BigEndian.Uint64(...))] *)
Definition cursorStateLocked (value domain namespace slot : string) : result cursorState :=
  if bool_decide (value = ""%string) then Ok zero_cursor
  else
    match cursorDomainID domain with
    | None => Err ErrorInternal
    | Some domainID =>
        if negb cursorKeyOK then Err ErrorInternal
        else if MaxIdentifierBytes <? len value then Err ErrorInvalidArgument
        else
          match b64_decode (bytes_of_string value) with
          | None => Err ErrorInvalidArgument
          | Some token =>
              if zlen token <? cursorFixedLen then Err ErrorInvalidArgument
              else
                let n := (length token - 32)%nat in
                let payload := take n token in
                if bool_decide (drop n token <> hmac_sum cursorKey payload)
                   || bool_decide (payload !! 0%nat <> Some cursorVersion)
                   || bool_decide (payload !! 1%nat <> Some domainID)
                then Err ErrorInvalidArgument
                else if bool_decide (take 16 (drop 2 payload) <> cursorScope domain namespace slot)
                then Err ErrorInvalidArgument
                else
                  let position := be_decode (take 8 (drop 18 payload)) in
                  let publishedSeconds := int64 (be_decode (take 8 (drop 26 payload))) in
                  let publishedNanos := be_decode (take 4 (drop 34 payload)) in
                  if Second <=? publishedNanos then Err ErrorInvalidArgument
                  else
                    let revisionLen := be_decode (take 2 (drop 38 payload)) in
                    if negb (revisionLen =? zlen payload - 40) then Err ErrorInvalidArgument
                    else
                      let revisionID := string_of_bytes (drop 40 payload) in
                      if is_revision domain then
                        let publishedAt := time_Unix publishedSeconds publishedNanos in
                        if negb (position =? 0) || (revisionLen =? 0) || IsZero publishedAt
                        then Err ErrorInvalidArgument
                        else Ok (mkCursorState domain namespace slot position publishedAt revisionID)
                      else
                        if (position =? 0) || negb (publishedSeconds =? 0) || negb (publishedNanos =? 0)
                           || negb (revisionLen =? 0)
                        then Err ErrorInvalidArgument
                        else Ok (mkCursorState domain namespace slot position 0 revisionID)
          end
    end.

Definition cursorPositionLocked (value domain namespace slot : string) : result Z :=
  let? c := cursorStateLocked value domain namespace slot in Ok (cs_position c).
End Cursors.

(** * Facts *)

Lemma b64_value_char n : 0 <= n < 64 ->
  b64_value (b64_char n) = Some n /\ is_newline (b64_char n) = false /\ is_byte (b64_char n).
Proof.
  intros Hn.
  assert (T : forallb (fun n => bool_decide (b64_value (b64_char n) = Some n)
    && negb (is_newline (b64_char n)) && in_range 0 255 (b64_char n)) (seqZ 0 64) = true) by by vm_compute.
  rewrite forallb_forall in T. specialize (T n). rewrite <- list_elem_of_In, elem_of_seqZ in T.
  specialize (T ltac:(lia)). rewrite !andb_true_iff, bool_decide_eq_true, negb_true_iff in T.
  unfold in_range, is_byte in *. destruct T as [[? ?] ?]. repeat split; (done || lia).
Qed.

Lemma list_ind3 (P : list Z -> Prop) :
  P [] -> (forall a, P [a]) -> (forall a b, P [a; b]) ->
  (forall a b c l, P l -> P (a :: b :: c :: l)) -> forall l, P l.
Proof.
  intros H0 H1 H2 H3 l. assert (Hn : forall n l, (length l <= n)%nat -> P l); [|by eapply Hn].
  clear l. induction n as [|n IH]; intros [|a [|b [|c l]]] Hl; simpl in Hl; auto; try lia.
  apply H3, IH. lia.
Qed.

(** Every character of an encoding is in the alphabet. *)
Lemma b64_encode_chars l : Forall is_byte l ->
  Forall (fun c => exists n, 0 <= n < 64 /\ c = b64_char n) (b64_encode l).
Proof.
  unfold is_byte. induction l as [|a|a b|a b c l IH] using list_ind3; rewrite ?Forall_cons; intros Hl;
    cbn [b64_encode]; repeat (apply Forall_cons; split); try apply Forall_nil; try tauto;
    eexists; (split; [|reflexivity]); dlia.
Qed.

Lemma b64_groups_encode l : Forall is_byte l -> b64_groups (b64_encode l) = Some l.
Proof.
  assert (V : forall n, 0 <= n < 64 -> b64_value (b64_char n) = Some n) by (intros; by apply b64_value_char).
  unfold is_byte. induction l as [|a|a b|a b c l IH] using list_ind3; rewrite ?Forall_cons; intros Hl.
  - done.
  - destruct Hl as (Ha & _). cbn [b64_encode b64_groups]. rewrite !V by dlia.
    do 2 f_equal. dlia.
  - destruct Hl as (Ha & Hb & _). cbn [b64_encode b64_groups]. rewrite !V by dlia.
    f_equal. repeat (f_equal; try dlia).
  - destruct Hl as (Ha & Hb & Hc & Hl). cbn [b64_encode b64_groups]. rewrite !V by dlia.
    rewrite IH by done. f_equal. repeat (f_equal; try dlia).
Qed.

Lemma b64_decode_encode l : Forall is_byte l -> b64_decode (b64_encode l) = Some l.
Proof.
  intros Hl. unfold b64_decode. rewrite <- (b64_groups_encode l Hl). f_equal.
  assert (Hc := b64_encode_chars l Hl). induction Hc as [|c cs (n & Hn & ->) Hc IH]; [done|]. simpl.
  destruct (b64_value_char n Hn) as (_ & -> & _). simpl. by f_equal.
Qed.

Lemma b64_encode_bytes l : Forall is_byte l -> Forall is_byte (b64_encode l).
Proof.
  intros Hl. eapply Forall_impl; [by apply b64_encode_chars|].
  intros c (n & Hn & ->). by apply b64_value_char.
Qed.

Lemma b64_encode_len l : zlen (b64_encode l) = b64_len (zlen l).
Proof.
  unfold b64_len. induction l as [|a|a b|a b c l IH] using list_ind3; [done|done|done|].
  cbn [b64_encode]. rewrite !zlen_cons, IH. dlia.
Qed.

Lemma be_encode_length n v : length (be_encode n v) = n.
Proof. induction n; simpl; auto. Qed.

Lemma be_encode_bytes n v : Forall is_byte (be_encode n v).
Proof. induction n; simpl; constructor; auto. unfold is_byte. apply Z.mod_pos_bound. lia. Qed.

Lemma be_decode_encode n v : 0 <= v < 256 ^ Z.of_nat n -> be_decode (be_encode n v) = v.
Proof.
  assert (G : forall n v acc, 0 <= v -> fold_left (fun acc b => acc * 256 + b) (be_encode n v) acc =
    acc * 256 ^ Z.of_nat n + v mod 256 ^ Z.of_nat n).
  { clear. induction n as [|n IH]; intros v acc Hv; cbn [be_encode fold_left].
    { simpl. rewrite Z.mod_1_r. lia. }
    rewrite IH by done.
    replace (256 ^ Z.of_nat (S n)) with (256 ^ Z.of_nat n * 256).
    2:{ rewrite Nat2Z.inj_succ, Z.pow_succ_r by lia. lia. }
    assert (P : 0 < 256 ^ Z.of_nat n) by (apply Z.pow_pos_nonneg; lia).
    rewrite Z.rem_mul_r by lia. ring. }
  intros Hv. unfold be_decode. rewrite G by lia. rewrite Z.mod_small by lia. lia.
Qed.

Lemma int64_congr z k : int64 (z + k * 2 ^ 64) = int64 z.
Proof.
  unfold int64. replace (z + k * 2 ^ 64 + 2 ^ 63) with (z + 2 ^ 63 + k * 2 ^ 64) by ring.
  by rewrite Z.mod_add by done.
Qed.

Lemma int64_mod z : int64 (z mod 2 ^ 64) = int64 z.
Proof.
  rewrite <- (int64_congr (z mod 2 ^ 64) (z / 2 ^ 64)). f_equal.
  rewrite (Z.div_mod z (2 ^ 64)) at 3 by done. ring.
Qed.

Lemma int64_fixed z : - 2 ^ 63 <= z < 2 ^ 63 -> int64 z = z.
Proof. intros. unfold int64. rewrite Z.mod_small; lia. Qed.

Lemma int64_spec z : exists k, int64 z = z + k * 2 ^ 64.
Proof.
  exists (- ((z + 2 ^ 63) / 2 ^ 64)). unfold int64.
  rewrite (Z.mod_eq _ (2 ^ 64)) by done. ring.
Qed.

(** The seconds of the time fit an [int64], as in a Go [time.Time]. *)
Definition time_wf (t : Time) : Prop := - 2 ^ 63 <= t / Second < 2 ^ 63.

Lemma time_Unix_roundtrip t : time_wf t -> time_Unix (int64 (Unix t mod 2 ^ 64)) (Nanosecond t) = t.
Proof.
  intros Ht. unfold time_Unix, Unix, Nanosecond. rewrite int64_mod.
  set (s := t / Second). destruct (int64_spec (s - unixToInternal)) as [k Hk].
  assert (E : int64 (int64 (s - unixToInternal)) = s - unixToInternal + k * 2 ^ 64).
  { rewrite Hk, int64_congr. exact Hk. }
  rewrite E. replace (s - unixToInternal + k * 2 ^ 64 + unixToInternal) with (s + k * 2 ^ 64) by ring.
  rewrite int64_congr, int64_fixed by (unfold s; exact Ht). unfold s.
  assert (Hs := Z.div_mod t Second ltac:(by vm_compute)). lia.
Qed.

Lemma slice_app {A} (pre f post : list A) m n :
  length pre = m -> length f = n -> take n (drop m (pre ++ f ++ post)) = f.
Proof. intros <- <-. by rewrite drop_app_length, take_app_length. Qed.

Arguments cursor_payload : simpl never.
Arguments b64_encode : simpl never.

Section CursorFacts.
Context `{H : Hmac} (cursorKey : list Z) (cursorKeyOK : bool).

Lemma cursorScope_length d n s : length (cursorScope cursorKey d n s) = 16%nat.
Proof. unfold cursorScope. rewrite length_take, hmac_len. lia. Qed.

(** The fixed fields of a payload and where the decoder finds them. *)
Lemma payload_fields d c (p := cursor_payload cursorKey d c) :
  length p = (40 + String.length (cs_revisionID c))%nat /\
  p !! 0%nat = Some cursorVersion /\ p !! 1%nat = Some d /\
  take 16 (drop 2 p) = cursorScope cursorKey (cs_domain c) (cs_namespace c) (cs_slot c) /\
  take 8 (drop 18 p) = be_encode 8 (cs_position c) /\
  take 8 (drop 26 p) = (if is_revision (cs_domain c)
      then be_encode 8 (Unix (cs_revisionPublishedAt c) mod 2 ^ 64) else replicate 8 0) /\
  take 4 (drop 34 p) = (if is_revision (cs_domain c)
      then be_encode 4 (Nanosecond (cs_revisionPublishedAt c) mod 2 ^ 32) else replicate 4 0) /\
  take 2 (drop 38 p) = be_encode 2 (len (cs_revisionID c) mod 2 ^ 16) /\
  drop 40 p = bytes_of_string (cs_revisionID c).
Proof.
  unfold p, cursor_payload.
  set (sc := cursorScope _ _ _ _). set (f1 := be_encode 8 _).
  set (f2 := if is_revision (cs_domain c) then be_encode 8 _ else _).
  set (f3 := if is_revision (cs_domain c) then be_encode 4 _ else _).
  set (f4 := be_encode 2 _). set (r := bytes_of_string _).
  assert (L0 : length sc = 16%nat) by apply cursorScope_length.
  assert (L1 : length f1 = 8%nat) by apply be_encode_length.
  assert (L2 : length f2 = 8%nat) by (unfold f2; destruct (is_revision _); [apply be_encode_length|done]).
  assert (L3 : length f3 = 4%nat) by (unfold f3; destruct (is_revision _); [apply be_encode_length|done]).
  assert (L4 : length f4 = 2%nat) by apply be_encode_length.
  assert (L5 : length r = String.length (cs_revisionID c)) by apply length_bytes_of_string.
  split; [rewrite !length_app, L0, L1, L2, L3, L4, L5; simpl; lia|].
  split; [done|]. split; [done|].
  split; [by apply (slice_app [cursorVersion; d])|].
  split; [rewrite (app_assoc [cursorVersion; d]); apply slice_app; [rewrite length_app; simpl; lia|done]|].
  split; [rewrite (app_assoc [cursorVersion; d]), (app_assoc _ f1); apply slice_app;
    [rewrite !length_app; simpl; lia|done]|].
  split; [rewrite (app_assoc [cursorVersion; d]), (app_assoc _ f1), (app_assoc _ f2); apply slice_app;
    [rewrite !length_app; simpl; lia|done]|].
  split; [rewrite (app_assoc [cursorVersion; d]), (app_assoc _ f1), (app_assoc _ f2), (app_assoc _ f3);
    apply slice_app; [rewrite !length_app; simpl; lia|done]|].
  rewrite (app_assoc [cursorVersion; d]), (app_assoc _ f1), (app_assoc _ f2), (app_assoc _ f3), (app_assoc _ f4).
  rewrite drop_app_length'; [done|]. rewrite !length_app. simpl. lia.
Qed.

Lemma payload_bytes d c : is_byte d -> Forall is_byte (cursor_payload cursorKey d c).
Proof.
  intros Hd. unfold cursor_payload. rewrite !Forall_app. repeat split.
  - constructor; [by vm_compute|]. by constructor.
  - unfold cursorScope. apply Forall_take, hmac_bytes.
  - apply be_encode_bytes.
  - destruct (is_revision _); [apply be_encode_bytes|]. by repeat constructor.
  - destruct (is_revision _); [apply be_encode_bytes|]. by repeat constructor.
  - apply be_encode_bytes.
  - apply bytes_of_string_range.
Qed.

Lemma cursorDomainID_byte d id : cursorDomainID d = Some id -> is_byte id.
Proof. unfold cursorDomainID. repeat case_match; by intros [= <-]. Qed.

Lemma newCursor_Ok c s :
  newCursorLocked cursorKey cursorKeyOK c = Ok s ->
  exists d, cursorDomainID (cs_domain c) = Some d /\ cursorKeyOK = true /\
    len (cs_revisionID c) <= 2 ^ 16 - 1 /\ cursor_shape_ok c = true /\
    let p := cursor_payload cursorKey d c in
    s = string_of_bytes (b64_encode (p ++ hmac_sum cursorKey p)) /\
    Forall is_byte (p ++ hmac_sum cursorKey p) /\ len s <= MaxIdentifierBytes /\ s <> ""%string.
Proof.
  unfold newCursorLocked. destruct (cursorDomainID _) as [d|] eqn:Ed; [|done].
  destruct (negb cursorKeyOK || _) eqn:E1; [done|]. apply orb_false_iff in E1 as [Ek El].
  apply negb_false_iff in Ek. destruct (cursor_shape_ok c) eqn:Es; [|done]. cbn [negb].
  destruct (Z.ltb_spec MaxIdentifierBytes
    (b64_len (cursorFixedLen - cursorMACLen + len (cs_revisionID c) + cursorMACLen))) as [|Hlen]; [done|].
  intros E. assert (s = string_of_bytes (b64_encode (cursor_payload cursorKey d c ++
    hmac_sum cursorKey (cursor_payload cursorKey d c)))) as -> by congruence. clear E.
  exists d. split; [done|]. split; [done|]. split; [lia|]. split; [done|].
  cbv zeta. set (p := cursor_payload cursorKey d c).
  assert (Hb : Forall is_byte (p ++ hmac_sum cursorKey p)).
  { apply Forall_app. split; [by apply payload_bytes, (cursorDomainID_byte (cs_domain c))|apply hmac_bytes]. }
  split; [done|]. split; [done|].
  destruct (payload_fields d c) as (Lp & _). fold p in Lp.
  assert (Lt : zlen (p ++ hmac_sum cursorKey p) = cursorFixedLen + len (cs_revisionID c)).
  { unfold zlen, len. rewrite length_app, hmac_len, Lp. unfold cursorFixedLen, cursorScopeLen, cursorMACLen. lia. }
  assert (Ls : len (string_of_bytes (b64_encode (p ++ hmac_sum cursorKey p))) = b64_len (cursorFixedLen + len (cs_revisionID c))).
  { rewrite <- zlen_bytes_of_string, bytes_of_string_of_bytes by by apply b64_encode_bytes.
    by rewrite b64_encode_len, Lt. }
  split.
  - rewrite Ls. replace (cursorFixedLen - cursorMACLen + len (cs_revisionID c) + cursorMACLen)
      with (cursorFixedLen + len (cs_revisionID c)) in Hlen by lia. done.
  - intros E. rewrite E in Ls. assert (P := len_nonneg (cs_revisionID c)).
    unfold b64_len, cursorFixedLen, cursorScopeLen, cursorMACLen in Ls.
    change (len "") with 0 in Ls. dlia.
Qed.

(** What the decoder sees of a minted cursor. *)
Lemma minted_decodes c s d :
  newCursorLocked cursorKey cursorKeyOK c = Ok s -> cursorDomainID (cs_domain c) = Some d ->
  let p := cursor_payload cursorKey d c in
  b64_decode (bytes_of_string s) = Some (p ++ hmac_sum cursorKey p) /\
  (length (p ++ hmac_sum cursorKey p) - 32)%nat = length p.
Proof.
  intros Hn Hd. destruct (newCursor_Ok c s Hn) as (d' & Hd' & _ & _ & _ & Hs & Hb & _).
  rewrite Hd in Hd'. injection Hd' as <-. cbv zeta in *. split.
  - rewrite Hs, bytes_of_string_of_bytes by by apply b64_encode_bytes. by apply b64_decode_encode.
  - rewrite length_app, hmac_len. lia.
Qed.

Lemma minted_accepted c s d (p := cursor_payload cursorKey d c) domain namespace slot :
  newCursorLocked cursorKey cursorKeyOK c = Ok s -> cursorDomainID (cs_domain c) = Some d ->
  0 <= cs_position c <= MaxUint64 -> time_wf (cs_revisionPublishedAt c) ->
  cursorDomainID domain = Some d ->
  cursorScope cursorKey domain namespace slot
    = cursorScope cursorKey (cs_domain c) (cs_namespace c) (cs_slot c) ->
  cursorStateLocked cursorKey cursorKeyOK s domain namespace slot =
  Ok (mkCursorState domain namespace slot (cs_position c) (cs_revisionPublishedAt c) (cs_revisionID c)).
Proof.
  intros Hn Hd Hpos Ht Hdom Hsc.
  assert (Hrev : is_revision domain = is_revision (cs_domain c)).
  { unfold is_revision, cursorDomainID in *. repeat case_match; congruence. }
  destruct (newCursor_Ok c s Hn) as (d' & Hd' & Hk & Hlen & Hsh & _ & _ & Hls & Hne).
  rewrite Hd in Hd'. injection Hd' as <-.
  destruct (minted_decodes c s d Hn Hd) as [Hdec Hpl]. fold p in Hdec, Hpl.
  destruct (payload_fields d c) as (Lp & P0 & P1 & Psc & Ppos & Psec & Pnan & Plen & Prid). fold p in Lp, P0, P1, Psc, Ppos, Psec, Pnan, Plen, Prid.
  clearbody p.
  unfold cursorStateLocked. rewrite bool_decide_eq_false_2 by done. rewrite Hdom, Hk. simpl negb.
  destruct (Z.ltb_spec MaxIdentifierBytes (len s)); [lia|]. rewrite Hdec.
  destruct (Z.ltb_spec (zlen (p ++ hmac_sum cursorKey p)) cursorFixedLen) as [Hshort|_].
  { unfold zlen in Hshort. rewrite length_app, hmac_len, Lp in Hshort.
    unfold cursorFixedLen, cursorScopeLen, cursorMACLen in Hshort. lia. }
  cbv zeta. rewrite Hpl, take_app_length, drop_app_length, P0, P1.
  rewrite !bool_decide_eq_false_2 by (intros []; congruence). simpl orb.
  rewrite Ppos, be_decode_encode by (unfold MaxUint64 in Hpos; change (256 ^ Z.of_nat 8) with (2 ^ 64); lia).
  rewrite Plen, (Z.mod_small (len _)) by (assert (N := len_nonneg (cs_revisionID c)); lia).
  rewrite (be_decode_encode 2) by (assert (N := len_nonneg (cs_revisionID c)); change (256 ^ Z.of_nat 2) with (2 ^ 16); lia).
  replace (zlen p - 40) with (len (cs_revisionID c)) by (unfold zlen, len; rewrite Lp; lia).
  rewrite Z.eqb_refl. simpl negb. rewrite Prid, string_of_bytes_of_string, Hrev.
  rewrite Psec, Pnan. unfold cursor_shape_ok in Hsh.
  assert (Hnano : 0 <= Nanosecond (cs_revisionPublishedAt c) < Second) by (apply Z.mod_pos_bound; by vm_compute).
  destruct (is_revision (cs_domain c)) eqn:Er.
  - rewrite (be_decode_encode 8) by (change (256 ^ Z.of_nat 8) with (2 ^ 64); apply Z.mod_pos_bound; lia).
    rewrite (Z.mod_small (Nanosecond _)) by (unfold Second in *; lia).
    rewrite (be_decode_encode 4) by (unfold Second in *; change (256 ^ Z.of_nat 4) with (2 ^ 32); lia).
    destruct (Z.leb_spec Second (Nanosecond (cs_revisionPublishedAt c))); [lia|].
    rewrite time_Unix_roundtrip by done.
    apply negb_true_iff in Hsh. rewrite !orb_false_iff in Hsh. destruct Hsh as [[Hp Hz] Hr].
    apply negb_false_iff, Z.eqb_eq in Hp. rewrite Hp, Hz. simpl. destruct (Z.eqb_spec (len (cs_revisionID c)) 0) as [E0|]; [|done].
    exfalso. apply bool_decide_eq_false in Hr. apply Hr. by destruct (cs_revisionID c).
  - change (be_decode (replicate 4 0)) with 0. change (int64 (be_decode (replicate 8 0))) with 0.
    apply negb_true_iff in Hsh. rewrite !orb_false_iff in Hsh. destruct Hsh as [[Hp Hz] Hr].
    apply negb_false_iff, Z.eqb_eq in Hz. apply bool_decide_eq_false, dec_stable in Hr.
    rewrite Hp, Hz, Hr. done.
Qed.

(** Accepted cursors are authentic and in scope. *)
Lemma accepted_authentic value domain namespace slot c :
  value <> ""%string ->
  cursorStateLocked cursorKey cursorKeyOK value domain namespace slot = Ok c ->
  exists payload d,
    b64_decode (bytes_of_string value) = Some (payload ++ hmac_sum cursorKey payload) /\
    cursorDomainID domain = Some d /\ payload !! 1%nat = Some d /\
    take 16 (drop 2 payload) = cursorScope cursorKey domain namespace slot /\
    cs_domain c = domain /\ cs_namespace c = namespace /\ cs_slot c = slot.
Proof.
  intros Hne. unfold cursorStateLocked. rewrite bool_decide_eq_false_2 by done.
  destruct (cursorDomainID domain) as [d|]; [|done]. destruct cursorKeyOK; [|done]. cbn [negb].
  destruct (MaxIdentifierBytes <? len value); [done|].
  destruct (b64_decode _) as [token|] eqn:Hdec; [|done].
  destruct (zlen token <? cursorFixedLen); [done|]. cbv zeta.
  set (n := (length token - 32)%nat).
  destruct (bool_decide_reflect (drop n token <> hmac_sum cursorKey (take n token))) as [|Hm]; [done|].
  destruct (bool_decide_reflect (take n token !! 0%nat <> Some cursorVersion)); [done|].
  destruct (bool_decide_reflect (take n token !! 1%nat <> Some d)) as [|Hd]; [done|]. cbn [orb].
  destruct (bool_decide_reflect (take 16 (drop 2 (take n token)) <> cursorScope cursorKey domain namespace slot))
    as [|Hsc]; [done|].
  apply dec_stable in Hm, Hd, Hsc. intros Hc.
  exists (take n token), d. rewrite <- Hm, take_drop. repeat (split; [done|]).
  repeat (case_match; try done); by injection Hc as <-.
Qed.

(** Cursors cannot cross scopes: a cursor minted for one domain, namespace
    and slot is accepted for another only if the two scope MACs collide, and
    every accepted cursor is a payload carrying the MAC of this store's key. *)
Theorem cursor_scope_bound c s domain namespace slot c' :
  newCursorLocked cursorKey cursorKeyOK c = Ok s ->
  cursorStateLocked cursorKey cursorKeyOK s domain namespace slot = Ok c' ->
  cursorDomainID domain = cursorDomainID (cs_domain c) /\
  cursorScope cursorKey domain namespace slot
    = cursorScope cursorKey (cs_domain c) (cs_namespace c) (cs_slot c) /\
  exists payload, b64_decode (bytes_of_string s) = Some (payload ++ hmac_sum cursorKey payload).
Proof.
  intros Hn Hc. destruct (newCursor_Ok c s Hn) as (d & Hd & _ & _ & _ & _ & _ & _ & Hne).
  destruct (accepted_authentic _ _ _ _ _ Hne Hc) as (p' & d' & Hdec & Hd' & H1 & Hsc & _).
  destruct (minted_decodes c s d Hn Hd) as [Hdec' _]. rewrite Hdec in Hdec'.
  apply (inj Some), app_inj_2 in Hdec' as [-> _]; [|by rewrite !hmac_len].
  destruct (payload_fields d c) as (_ & _ & P1 & Psc & _).
  rewrite P1 in H1. apply (inj Some) in H1 as <-. rewrite Hd, Hd', <- Hsc, Psc. eauto.
Qed.

(** A cursor minted by the store decodes, in its own domain, namespace and
    slot, to exactly the state it was minted from: positions up to the full
    [uint64] range, publication instants to the nanosecond over the whole
    [time.Time] range, and revision identifiers survive the token. *)
Lemma cursor_roundtrip c s :
  0 <= cs_position c <= MaxUint64 -> time_wf (cs_revisionPublishedAt c) ->
  newCursorLocked cursorKey cursorKeyOK c = Ok s ->
  cursorStateLocked cursorKey cursorKeyOK s (cs_domain c) (cs_namespace c) (cs_slot c) = Ok c.
Proof.
  intros Hp Ht Hn. destruct (newCursor_Ok c s Hn) as (d & Hd & _).
  rewrite (minted_accepted c s d) by done. by destruct c.
Qed.

Lemma utf8_ascii l : Forall (fun b => 0 <= b < 128) l -> utf8_runes l = Some l.
Proof.
  induction 1 as [|b l Hb Hl IH]; [done|]. cbn [utf8_runes].
  destruct (Z.ltb_spec b 128); [|lia]. by rewrite IH.
Qed.

(** Base64 text is a valid public identifier if it is not too long. *)
Lemma b64_identifier l : Forall is_byte l ->
  len (string_of_bytes (b64_encode l)) <= MaxIdentifierBytes -> string_of_bytes (b64_encode l) <> ""%string ->
  validateIdentifier (string_of_bytes (b64_encode l)) = Ok tt.
Proof.
  intros Hb Hl Hne. assert (Hc := b64_encode_chars _ Hb). assert (Hb' := b64_encode_bytes _ Hb).
  apply validateText_Ok. split; [done|]. split; [done|].
  rewrite bytes_of_string_of_bytes by done.
  assert (T : forallb (fun n => in_range 33 126 (b64_char n) && negb (unsafe_rune (b64_char n)))
    (seqZ 0 64) = true) by by vm_compute.
  assert (A : forall n, 0 <= n < 64 -> 33 <= b64_char n <= 126 /\ unsafe_rune (b64_char n) = false).
  { intros n Hn'. rewrite forallb_forall in T. specialize (T n).
    rewrite <- list_elem_of_In, elem_of_seqZ in T. specialize (T ltac:(lia)).
    rewrite andb_true_iff, negb_true_iff in T. unfold in_range in T. split; [lia|tauto]. }
  eexists. split; [apply utf8_ascii|].
  - eapply Forall_impl; [exact Hc|]. intros x (n & Hn' & ->). destruct (A n Hn'). lia.
  - eapply Forall_impl; [exact Hc|]. intros x (n & Hn' & ->). by destruct (A n Hn').
Qed.

(** A minted cursor is a valid public identifier. *)
Lemma minted_identifier c s :
  newCursorLocked cursorKey cursorKeyOK c = Ok s -> validateIdentifier s = Ok tt.
Proof.
  intros Hn. destruct (newCursor_Ok c s Hn) as (d & _ & _ & _ & _ & Hs & Hb & Hl & Hne).
  rewrite Hs in *. by apply b64_identifier.
Qed.

(** Minting never fails for the positions the store uses. *)
Lemma mint_position domain namespace slot position :
  cursorKeyOK = true -> domain = "event"%string \/ domain = "history"%string -> position <> 0 ->
  exists s, newCursorLocked cursorKey cursorKeyOK (mkCursorState domain namespace slot position 0 "") = Ok s.
Proof.
  intros -> Hd Hp. unfold newCursorLocked, cursor_shape_ok, cursorDomainID, is_revision.
  cbn [cs_domain cs_position cs_revisionPublishedAt cs_revisionID].
  assert (E : (position =? 0) = false) by by apply Z.eqb_neq.
  destruct Hd as [-> | ->]; cbn [String.eqb Ascii.eqb Bool.eqb]; rewrite E; eexists; reflexivity.
Qed.
End CursorFacts.
