(* ===== verification/Fingerprint.v ===== *)
(** Idempotency scopes and request fingerprints (store/idempotency.go).

    The fingerprint of a data write is the SHA-256 digest of a byte stream.
    [write_preimage] is that stream; it is shown to determine the request, so
    two writes with the same fingerprint are the same write or a SHA-256
    collision. [hash.Hash] writes only append, so a sequence of writes is the
    concatenation of their bytes. *)

From Stdlib Require Import ZArith Lia Sorted.
From stdpp Require Import base list strings.
From S2P Require Import Prelude Limits Text Types Cost Canon Data Policy Revisions Cursor.

(** * Scopes *)

Definition IdempotencyWriteData : Z := 1.
Record IdempotencyScope := mkIdempotencyScope {
  scope_namespace : string; scope_operation : Z; scope_key : string }.

Definition NewIdempotencyScope (namespace : string) (operation : Z) (key : string)
  : result IdempotencyScope :=
  if negb (operation =? IdempotencyWriteData) then Err ErrorInvalidArgument
  else let? _ := NewResolveRequest namespace key in Ok (mkIdempotencyScope namespace operation key).

Record IdempotencyFingerprint := mkFingerprint { fp_digest : list Z; fp_valid : bool }.

Definition Fingerprint_Bytes (f : IdempotencyFingerprint) : list Z :=
  if fp_valid f then fp_digest f else [].

Record IdempotencyRecord := mkIdempotencyRecord {
  ir_scope : IdempotencyScope; ir_fingerprint : IdempotencyFingerprint; ir_response : WriteDataResponse }.

Definition IdempotencyScope_Valid (s : IdempotencyScope) : bool :=
  is_ok (NewIdempotencyScope (scope_namespace s) (scope_operation s) (scope_key s)).

Definition NewIdempotencyRecord (scope : IdempotencyScope) (fingerprint : IdempotencyFingerprint)
  (response : WriteDataResponse) : result IdempotencyRecord :=
  if negb (IdempotencyScope_Valid scope) || negb (fp_valid fingerprint)
     || (wr_generation response =? 0) || wr_replayed response
  then Err ErrorInvalidArgument
  else let? _ := NewWriteDataResponse (wr_generation response) false in
       Ok (mkIdempotencyRecord scope fingerprint response).

(** * The byte stream *)

Definition writeByte (b : Z) : list Z := [b].
Definition writeUint64 (value : Z) : list Z := be_encode 8 value.
(** [uint64(value)] of an [int64]. *)
Definition writeInt64 (value : Z) : list Z := writeUint64 (value mod 2 ^ 64).
Definition writeString (value : string) : list Z := writeUint64 (len value) ++ bytes_of_string value.
Definition writeStrings (values : list string) : list Z :=
  writeUint64 (zlen values) ++ flat_map writeString values.

Definition writeDSLRelationship (tuple : Tuple) : list Z :=
  writeString (ent_Type (tup_Resource tuple)) ++ writeString (ent_ID (tup_Resource tuple))
  ++ writeString (tup_Relation tuple) ++ writeString (sub_Type (tup_Subject tuple))
  ++ writeString (sub_ID (tup_Subject tuple)) ++ writeString (sub_Relation (tup_Subject tuple)).

(** [Time.MarshalBinary] of a UTC time: version, seconds since year 1,
    nanoseconds, and the offset -1; fifteen bytes. *)
Definition marshalTime (t : Time) : list Z :=
  [1] ++ be_encode 8 ((t / Second) mod 2 ^ 64) ++ be_encode 4 (t mod Second) ++ [255; 255].

Definition writeTime (t : Time) : list Z :=
  writeUint64 (zlen (marshalTime t)) ++ marshalTime t.

Definition writeTuple (tuple : RelationshipTuple) : list Z :=
  writeDSLRelationship (rt_tuple tuple) ++
  (if rt_hasExpiry tuple then writeByte 1 ++ writeTime (rt_expiresAt tuple) else writeByte 0).

Definition writeValue (value : Value) : list Z :=
  writeByte (val_kind value) ++
  (if val_kind value =? ValueKindString then writeString (val_text value)
   else if val_kind value =? ValueKindInteger then writeInt64 (val_integer value)
   else if val_kind value =? ValueKindBoolean then writeByte (if val_boolean value then 1 else 0)
   else if val_kind value =? ValueKindNull then writeByte 0
   else []).

Definition writeAttribute (attribute : Attribute) : list Z :=
  writeString (ent_Type (attr_entity attribute)) ++ writeString (ent_ID (attr_entity attribute))
  ++ writeStrings (attr_path attribute) ++ writeValue (attr_value attribute).

Definition writeAttributeKey (key : AttributeKey) : list Z :=
  writeString (ent_Type (ak_entity key)) ++ writeString (ent_ID (ak_entity key))
  ++ writeStrings (ak_path key).

Definition write_preimage (r : WriteDataRequest) : list Z :=
  writeString (wd_namespace r) ++ writeString (wd_validationRevisionID r)
  ++ writeUint64 (wd_expectedGeneration r)
  ++ flat_map writeTuple (wd_tupleWrites r) ++ writeByte 255
  ++ flat_map (fun k => writeDSLRelationship (tk_tuple k)) (wd_tupleDeletes r) ++ writeByte 254
  ++ flat_map writeAttribute (wd_attributeWrites r) ++ writeByte 253
  ++ flat_map writeAttributeKey (wd_attributeDeletes r).

Definition FingerprintWriteData `{D : Dsl} (request : WriteDataRequest)
  : result (IdempotencyScope * IdempotencyFingerprint) :=
  let? canonical := NewWriteDataRequest (request_input request) in
  let? scope := NewIdempotencyScope (wd_namespace canonical) IdempotencyWriteData
                  (wd_idempotencyKey canonical) in
  Ok (scope, mkFingerprint (sha256_Sum256 (write_preimage canonical)) true).

(** * Prefix codes *)

(** [f] can be read back from the front of a stream. *)
Definition prefix_code {A} (P : A -> Prop) (f : A -> list Z) : Prop :=
  forall x y r1 r2, P x -> P y -> f x ++ r1 = f y ++ r2 -> x = y /\ r1 = r2.

(** Every code word starts with a byte below [d]. *)
Definition starts_below {A} (P : A -> Prop) (f : A -> list Z) (d : Z) : Prop :=
  forall x, P x -> exists b l, f x = b :: l /\ b < d.

Lemma prefix_code_app {A B C} (P : A -> Prop) (f : A -> B) (g : A -> C) Pb Pc fb fc :
  (forall x y, f x = f y -> g x = g y -> x = y) ->
  (forall x, P x -> Pb (f x) /\ Pc (g x)) ->
  prefix_code Pb fb -> prefix_code Pc fc ->
  prefix_code P (fun x => fb (f x) ++ fc (g x)).
Proof.
  intros Hinj HP H1 H2 x y r1 r2 Hx Hy. rewrite <- !app_assoc. intros E.
  destruct (HP x Hx), (HP y Hy).
  apply H1 in E as [E1 E]; auto. apply H2 in E as [E2 E]; auto.
Qed.

Lemma prefix_code_fixed {A} (P : A -> Prop) (f : A -> list Z) n :
  (forall x, length (f x) = n) -> (forall x y, P x -> P y -> f x = f y -> x = y) -> prefix_code P f.
Proof.
  intros Hl Hi x y r1 r2 Hx Hy E. apply app_inj_1 in E as [E ->]; [|by rewrite !Hl].
  split; [by apply Hi|done].
Qed.

Definition u64 (v : Z) : Prop := 0 <= v < 2 ^ 64.

Lemma be_encode_inj n v w : 0 <= v < 256 ^ Z.of_nat n -> 0 <= w < 256 ^ Z.of_nat n ->
  be_encode n v = be_encode n w -> v = w.
Proof. intros Hv Hw E. by rewrite <- (be_decode_encode n v), E, be_decode_encode. Qed.

Lemma writeUint64_code : prefix_code u64 writeUint64.
Proof.
  apply (prefix_code_fixed _ _ 8); [apply be_encode_length|]. intros x y. by apply (be_encode_inj 8).
Qed.

(** Texts the engine accepts are far below 2^56 bytes. *)
Definition text_ok (s : string) : Prop := len s < 2 ^ 56.

Lemma writeString_code : prefix_code text_ok writeString.
Proof.
  intros x y r1 r2 Hx Hy. unfold writeString. rewrite <- !app_assoc. unfold text_ok in *.
  assert (Px := len_nonneg x). assert (Py := len_nonneg y). intros E.
  apply writeUint64_code in E as [El E]; [|unfold u64; lia..].
  apply app_inj_1 in E as [E ->]; [split; [by apply bytes_of_string_inj|done]|].
  rewrite !length_bytes_of_string. unfold len in El. lia.
Qed.

Lemma writeString_starts d : 0 < d -> starts_below text_ok writeString d.
Proof.
  intros Hd s Hs. unfold writeString, writeUint64, text_ok in *. cbn [be_encode app].
  eexists _, _. split; [reflexivity|]. assert (P := len_nonneg s).
  rewrite Z.div_small; [by rewrite Z.mod_small|]. change (256 ^ Z.of_nat 7) with (2 ^ 56). lia.
Qed.

Lemma writeStrings_code :
  prefix_code (fun l => zlen l < 2 ^ 56 /\ Forall text_ok l) writeStrings.
Proof.
  intros x y r1 r2 [Hx Fx] [Hy Fy]. unfold writeStrings. rewrite <- !app_assoc.
  assert (Px := zlen_nonneg x). assert (Py := zlen_nonneg y). intros E.
  apply writeUint64_code in E as [El E]; [|unfold u64; lia..]. clear Hx Hy Px Py.
  revert y r1 r2 Fy El E. induction Fx as [|a x Ha Fx IH]; intros [|b y] r1 r2 Fy El E;
    unfold zlen in El; simpl in El; try lia; [done|].
  inversion_clear Fy as [|? ? Hb Fy']. cbn [flat_map] in E. rewrite <- !app_assoc in E.
  apply writeString_code in E as [-> E]; auto.
  apply IH in E as [-> ->]; auto. unfold zlen. lia.
Qed.

(** A sequence of code words closed by a delimiter no word starts with. *)
Lemma delimited_code {A} (P : A -> Prop) (f : A -> list Z) d l1 l2 r1 r2 :
  prefix_code P f -> starts_below P f d -> Forall P l1 -> Forall P l2 ->
  flat_map f l1 ++ d :: r1 = flat_map f l2 ++ d :: r2 -> l1 = l2 /\ r1 = r2.
Proof.
  intros Hc Hs F1. revert l2. induction F1 as [|x l1 Hx F1 IH]; intros l2 F2; cbn [flat_map app].
  - destruct F2 as [|y l2 Hy F2]; cbn [flat_map app]; [by intros [= ->]|].
    destruct (Hs y Hy) as (b & w & E & Hb). rewrite E. simpl. intros [= Hd _]. lia.
  - destruct F2 as [|y l2 Hy F2]; cbn [flat_map app].
    { destruct (Hs x Hx) as (b & w & E & Hb). rewrite E. simpl. intros [= Hd _]. lia. }
    rewrite <- !app_assoc. intros E. apply Hc in E as [-> E]; auto.
    apply IH in E as [-> ->]; auto.
Qed.

(** The last sequence runs to the end of the stream. *)
Lemma final_code {A} (P : A -> Prop) (f : A -> list Z) l1 l2 :
  prefix_code P f -> (forall x, P x -> f x <> []) -> Forall P l1 -> Forall P l2 ->
  flat_map f l1 = flat_map f l2 -> l1 = l2.
Proof.
  intros Hc Hn F1. revert l2. induction F1 as [|x l1 Hx F1 IH]; intros l2 F2; cbn [flat_map].
  - destruct F2 as [|y l2 Hy F2]; cbn [flat_map]; [done|]. intros E.
    symmetry in E. apply app_eq_nil in E as [E _]. by destruct (Hn y Hy).
  - destruct F2 as [|y l2 Hy F2]; cbn [flat_map].
    { intros E. apply app_eq_nil in E as [E _]. by destruct (Hn x Hx). }
    intros E. apply Hc in E as [-> E]; auto. f_equal. auto.
Qed.

#[local] Arguments be_encode : simpl never.
#[local] Arguments writeUint64 : simpl never.

(** * The parts of a request are prefix codes *)

Definition tuple_ok (t : Tuple) : Prop :=
  text_ok (ent_Type (tup_Resource t)) /\ text_ok (ent_ID (tup_Resource t)) /\ text_ok (tup_Relation t) /\
  text_ok (sub_Type (tup_Subject t)) /\ text_ok (sub_ID (tup_Subject t)) /\ text_ok (sub_Relation (tup_Subject t)).

Lemma writeDSLRelationship_code : prefix_code tuple_ok writeDSLRelationship.
Proof.
  intros [[rt ri] rel [st si sr]] [[rt' ri'] rel' [st' si' sr']] r1 r2. unfold tuple_ok, writeDSLRelationship.
  cbn [tup_Resource tup_Relation tup_Subject ent_Type ent_ID sub_Type sub_ID sub_Relation].
  intros (A1 & A2 & A3 & A4 & A5 & A6) (B1 & B2 & B3 & B4 & B5 & B6). rewrite <- !app_assoc. intros E.
  repeat (apply writeString_code in E as [-> E]; auto).
Qed.

Lemma starts_below_app {A B} (P : A -> Prop) (Pb : B -> Prop) (f : A -> B) g (h : A -> list Z) d :
  (forall x, P x -> Pb (f x)) -> starts_below Pb g d -> starts_below P (fun x => g (f x) ++ h x) d.
Proof. intros HP Hs x Hx. destruct (Hs (f x) (HP x Hx)) as (b & l & -> & Hb). simpl. eauto. Qed.

Lemma marshalTime_length t : length (marshalTime t) = 15%nat.
Proof. unfold marshalTime. rewrite !length_app, !be_encode_length. done. Qed.

Lemma int64_range_inj a b : - 2 ^ 63 <= a < 2 ^ 63 -> - 2 ^ 63 <= b < 2 ^ 63 ->
  a mod 2 ^ 64 = b mod 2 ^ 64 -> a = b.
Proof. intros Ha Hb E. rewrite <- (int64_fixed a), <- (int64_fixed b) by done. by rewrite <- int64_mod, E, int64_mod. Qed.

Lemma writeTime_code : prefix_code time_wf writeTime.
Proof.
  apply (prefix_code_fixed _ _ 23).
  { intros t. unfold writeTime, writeUint64. by rewrite length_app, marshalTime_length, be_encode_length. }
  intros x y Hx Hy. unfold writeTime, zlen. rewrite !marshalTime_length. intros E.
  apply app_inj_1 in E as [_ E]; [|done]. unfold marshalTime in E.
  apply app_inj_1 in E as [_ E]; [|done].
  apply app_inj_1 in E as [E1 E]; [|by rewrite !be_encode_length].
  apply app_inj_1 in E as [E2 _]; [|by rewrite !be_encode_length].
  apply be_encode_inj in E1; [|apply Z.mod_pos_bound; done..].
  assert (M : forall t, 0 <= t mod Second < Second) by (intros t; by apply Z.mod_pos_bound).
  apply be_encode_inj in E2; [|change (256 ^ Z.of_nat 4) with (2 ^ 32); assert (Mx := M x); assert (My := M y); unfold Second in *; lia..].
  apply int64_range_inj in E1; [|done..].
  assert (Dx := Z.div_mod x Second ltac:(done)). assert (Dy := Z.div_mod y Second ltac:(done)). lia.
Qed.

Definition rt_ok (t : RelationshipTuple) : Prop :=
  tuple_ok (rt_tuple t) /\ time_wf (rt_expiresAt t) /\ (rt_hasExpiry t = false -> rt_expiresAt t = 0).

Lemma writeTuple_code : prefix_code rt_ok writeTuple.
Proof.
  intros [t x h] [t' x' h'] r1 r2. unfold rt_ok, writeTuple.
  cbn [rt_tuple rt_expiresAt rt_hasExpiry]. intros (A & B & C) (A' & B' & C').
  rewrite <- !app_assoc. intros E. apply writeDSLRelationship_code in E as [-> E]; auto.
  destruct h, h'; cbn [writeByte app] in E; try discriminate.
  - apply (f_equal (drop 1)) in E. cbn [drop] in E. apply writeTime_code in E as [-> ->]; auto.
  - injection E as ->. rewrite C, C' by done. done.
Qed.

Definition value_ok (v : Value) : Prop :=
  Value_valid v = true /\ text_ok (val_text v) /\ - 2 ^ 63 <= val_integer v < 2 ^ 63.

Lemma len_zero s : len s = 0 -> s = ""%string.
Proof. destruct s; [done|]. unfold len. simpl. lia. Qed.

Lemma writeValue_code : prefix_code value_ok writeValue.
Proof.
  intros [k t i b] [k' t' i' b'] r1 r2. unfold value_ok, writeValue, writeByte.
  cbn [val_kind val_text val_integer val_boolean app]. intros (V & T & I) (V' & T' & I') E.
  assert (k = k') as <- by by injection E.
  apply (f_equal (drop 1)) in E. cbn [drop] in E. unfold Value_valid in *. cbn [val_kind val_text val_integer val_boolean] in *.
  destruct (k =? ValueKindString) eqn:Ek.
  { rewrite !andb_true_iff, !negb_true_iff, !Z.eqb_eq in V, V'. destruct V as [[-> ->] _], V' as [[-> ->] _].
    apply writeString_code in E as [-> ->]; auto. }
  destruct (k =? ValueKindInteger).
  { rewrite !andb_true_iff, !negb_true_iff, !Z.eqb_eq in V, V'.
    destruct V as [->%len_zero ->], V' as [->%len_zero ->]. unfold writeInt64 in E.
    apply writeUint64_code in E as [E ->]; [|apply Z.mod_pos_bound; done..].
    apply int64_range_inj in E as ->; auto. }
  destruct (k =? ValueKindBoolean).
  { rewrite !andb_true_iff, !Z.eqb_eq in V, V'. destruct V as [->%len_zero ->], V' as [->%len_zero ->].
    simpl in E. injection E as Eb ->. by destruct b, b'. }
  destruct (k =? ValueKindNull); [|done].
  rewrite !andb_true_iff, !negb_true_iff, !Z.eqb_eq in V, V'.
  destruct V as [[->%len_zero ->] ->], V' as [[->%len_zero ->] ->]. simpl in E. by injection E as ->.
Qed.

Definition path_ok (p : list string) : Prop := zlen p < 2 ^ 56 /\ Forall text_ok p.
Definition key_ok (k : AttributeKey) : Prop :=
  text_ok (ent_Type (ak_entity k)) /\ text_ok (ent_ID (ak_entity k)) /\ path_ok (ak_path k).
Definition attribute_ok (a : Attribute) : Prop := key_ok (attr_key a) /\ value_ok (attr_value a).

Lemma writeAttributeKey_code : prefix_code key_ok writeAttributeKey.
Proof.
  intros [[t i] p] [[t' i'] p'] r1 r2. unfold key_ok, writeAttributeKey.
  cbn [ak_entity ak_path ent_Type ent_ID]. intros (A & B & C) (A' & B' & C').
  rewrite <- !app_assoc. intros E.
  apply writeString_code in E as [-> E]; auto. apply writeString_code in E as [-> E]; auto.
  apply writeStrings_code in E as [-> E]; auto.
Qed.

Lemma writeAttribute_code : prefix_code attribute_ok writeAttribute.
Proof.
  intros x y r1 r2 [Kx Vx] [Ky Vy] E.
  assert (S : forall a, writeAttribute a = writeAttributeKey (attr_key a) ++ writeValue (attr_value a)).
  { intros a. unfold writeAttribute, writeAttributeKey. by rewrite <- !app_assoc. }
  rewrite !S, <- !app_assoc in E. apply writeAttributeKey_code in E as [Ek E]; auto.
  apply writeValue_code in E as [Ev ->]; auto. split; [|done].
  destruct x, y. unfold attr_key in Ek. simpl in *. congruence.
Qed.

Lemma writeTuple_starts d : 0 < d -> starts_below rt_ok writeTuple d.
Proof.
  intros Hd. unfold writeTuple, writeDSLRelationship. intros x (T & _).
  destruct (writeString_starts d Hd (ent_Type (tup_Resource (rt_tuple x)))) as (b & l & E & Hb); [apply T|].
  rewrite E. simpl. eauto.
Qed.
Lemma writeRelationship_starts d : 0 < d ->
  starts_below (fun k => tuple_ok (tk_tuple k)) (fun k => writeDSLRelationship (tk_tuple k)) d.
Proof.
  intros Hd. unfold writeDSLRelationship. intros x T.
  destruct (writeString_starts d Hd (ent_Type (tup_Resource (tk_tuple x)))) as (b & l & E & Hb); [apply T|].
  rewrite E. simpl. eauto.
Qed.
Lemma writeAttribute_starts d : 0 < d -> starts_below attribute_ok writeAttribute d.
Proof.
  intros Hd. unfold writeAttribute. intros x [T _].
  destruct (writeString_starts d Hd (ent_Type (attr_entity x))) as (b & l & E & Hb); [apply T|].
  rewrite E. simpl. eauto.
Qed.
Lemma writeAttributeKey_starts d : 0 < d -> starts_below key_ok writeAttributeKey d.
Proof.
  intros Hd. unfold writeAttributeKey. intros x T.
  destruct (writeString_starts d Hd (ent_Type (ak_entity x))) as (b & l & E & Hb); [apply T|].
  rewrite E. simpl. eauto.
Qed.

(** Requests whose fields have the sizes of their Go types. *)
Definition request_sized (r : WriteDataRequest) : Prop :=
  text_ok (wd_namespace r) /\ text_ok (wd_validationRevisionID r) /\ u64 (wd_expectedGeneration r) /\
  Forall rt_ok (wd_tupleWrites r) /\ Forall (fun k => tuple_ok (tk_tuple k)) (wd_tupleDeletes r) /\
  Forall attribute_ok (wd_attributeWrites r) /\ Forall key_ok (wd_attributeDeletes r).

(** The same mutation, whatever idempotency key it is sent under. *)
Definition same_mutation (a b : WriteDataRequest) : Prop :=
  wd_namespace a = wd_namespace b /\ wd_validationRevisionID a = wd_validationRevisionID b /\
  wd_expectedGeneration a = wd_expectedGeneration b /\ wd_tupleWrites a = wd_tupleWrites b /\
  wd_tupleDeletes a = wd_tupleDeletes b /\ wd_attributeWrites a = wd_attributeWrites b /\
  wd_attributeDeletes a = wd_attributeDeletes b.

Lemma write_preimage_inj a b :
  request_sized a -> request_sized b -> write_preimage a = write_preimage b -> same_mutation a b.
Proof.
  intros (A1 & A2 & A3 & A4 & A5 & A6 & A7) (B1 & B2 & B3 & B4 & B5 & B6 & B7). unfold write_preimage.
  intros E. apply writeString_code in E as [E1 E]; auto. apply writeString_code in E as [E2 E]; auto.
  apply writeUint64_code in E as [E3 E]; auto.
  apply (delimited_code rt_ok writeTuple 255) in E as [E4 E];
    [|apply writeTuple_code|apply writeTuple_starts; lia|done|done].
  apply (delimited_code (fun k => tuple_ok (tk_tuple k)) _ 254) in E as [E5 E];
    [| |apply writeRelationship_starts; lia|done|done].
  2:{ intros [x] [y] r1 r2 Hx Hy Exy. apply writeDSLRelationship_code in Exy as [Et ->]; auto.
      cbn [tk_tuple] in Et. by subst. }
  apply (delimited_code attribute_ok writeAttribute 253) in E as [E6 E];
    [|apply writeAttribute_code|apply writeAttribute_starts; lia|done|done].
  apply (final_code key_ok) in E; [|apply writeAttributeKey_code| |done|done].
  2:{ intros k Hk. destruct (writeAttributeKey_starts 1 ltac:(lia) k Hk) as (b0 & l & -> & _). done. }
  done.
Qed.

(** ** Accepted requests have these sizes *)

Lemma validateText_len s m e : validateText s m e = Ok tt -> m < 2 ^ 56 -> text_ok s.
Proof. intros (_ & H & _)%validateText_Ok Hm. unfold text_ok. lia. Qed.

Lemma is_ok_unit (r : result unit) : is_ok r = true -> r = Ok tt.
Proof. by destruct r as [[]|]. Qed.

Lemma identifier_len s : validateIdentifier s = Ok tt -> text_ok s.
Proof. intros H. by eapply validateText_len. Qed.

Lemma relationship_ok t : validateDSLRelationship t = Ok tt -> tuple_ok t.
Proof.
  unfold validateDSLRelationship, validateEntityRef, validateSubjectRef. intros H.
  apply rbind_ok in H as ([] & H1 & H). apply rbind_ok in H as ([] & H2 & H).
  apply rbind_ok in H1 as ([] & H3 & H4). apply rbind_ok in H as ([] & H5 & H).
  apply rbind_ok in H as ([] & H6 & H7).
  repeat split; eauto using identifier_len. by eapply validateText_len.
Qed.

Lemma path_validated p : validateAttributePath p = Ok tt -> path_ok p.
Proof.
  unfold validateAttributePath. destruct (zlen p =? 0); [done|].
  destruct (Z.ltb_spec MaxAggregateWorkItems (zlen p)) as [|Hl]; [done|]. intros H.
  apply rbind_ok in H as (b & _ & H). split; [unfold MaxAggregateWorkItems in Hl; lia|].
  clear Hl b. induction p as [|s p IH]; [constructor|]. cbn [foldM] in H.
  apply rbind_ok in H as ([] & H1 & H). apply rbind_ok in H1 as ([] & H1 & _).
  constructor; [by apply identifier_len|auto].
Qed.

Lemma key_validated k : AttributeKey_valid k = true -> key_ok k.
Proof.
  unfold AttributeKey_valid, validateEntityRef. intros [H1%is_ok_unit H2%is_ok_unit]%andb_true_iff.
  apply rbind_ok in H1 as ([] & H3 & H4). repeat split; eauto using identifier_len; by apply path_validated.
Qed.

Lemma value_text_ok v : Value_valid v = true -> text_ok (val_text v).
Proof.
  unfold Value_valid. destruct (_ =? ValueKindString).
  { rewrite !andb_true_iff. intros [_ H%is_ok_unit]. by eapply validateText_len. }
  intros H. assert (E : len (val_text v) = 0).
  { repeat (case_match; try done); rewrite !andb_true_iff, ?Z.eqb_eq in H; tauto. }
  unfold text_ok. lia.
Qed.

Lemma attribute_validated a : Attribute_valid a = true -> - 2 ^ 63 <= val_integer (attr_value a) < 2 ^ 63 ->
  attribute_ok a.
Proof.
  unfold Attribute_valid. intros [[H1 H2]%andb_true_iff H3%is_ok_unit]%andb_true_iff Hi. split.
  - apply key_validated. unfold AttributeKey_valid. simpl. by rewrite H1, H2.
  - unfold validateValue in H3. destruct (Value_valid (attr_value a)) eqn:E; [|done].
    repeat split; auto; [by apply value_text_ok|lia|lia].
Qed.

Lemma tuple_validated t : RelationshipTuple_valid t = true -> time_wf (rt_expiresAt t) -> rt_ok t.
Proof.
  unfold RelationshipTuple_valid. rewrite !andb_true_iff. intros [[H1%is_ok_unit _] H3] Ht.
  repeat split; auto; try (by apply relationship_ok); try apply Ht.
  intros E. rewrite E in H3. simpl in H3. by apply Z.eqb_eq in H3.
Qed.

(** Machine ranges that Go's types give for free. *)
Definition machine_sized (r : WriteDataRequest) : Prop :=
  u64 (wd_expectedGeneration r) /\ Forall (fun t => time_wf (rt_expiresAt t)) (wd_tupleWrites r) /\ Forall (fun a => - 2 ^ 63 <= val_integer (attr_value a) < 2 ^ 63) (wd_attributeWrites r).

Lemma forallb_Forall {A} (p : A -> bool) l : forallb p l = true -> Forall (fun x => p x = true) l.
Proof. rewrite forallb_forall. intros H. apply Forall_forall. intros x Hx. by apply H, list_elem_of_In. Qed.

Lemma accepted_sized r :
  NewWriteDataRequest (request_input r) = Ok r -> machine_sized r -> request_sized r.
Proof.
  intros [G _]%NewWriteDataRequest_Ok_guards (M1 & M2 & M3). unfold write_items_ok in G.
  rewrite !andb_true_iff in G. destruct G as ((((((((_ & _) & H3) & H4) & _) & H6) & H7) & H8) & H9).
  cbn [request_input in_Namespace in_ValidationRevisionID in_TupleWrites in_TupleDeletes
    in_AttributeWrites in_AttributeDeletes] in *.
  apply forallb_Forall in H6, H7, H8, H9. unfold request_sized. repeat split; auto.
  - apply is_ok_unit, rbind_ok in H4 as ([] & H4 & _). by eapply validateText_len.
  - apply validRevisionIDString_hex in H3 as [H3 _]. unfold text_ok. lia.
  - apply M1.
  - apply M1.
  - rewrite Forall_forall in *. eauto using tuple_validated.
  - eapply Forall_impl; [exact H7|]. intros k Hk. by apply relationship_ok, is_ok_unit.
  - rewrite Forall_forall in *. eauto using attribute_validated.
  - eapply Forall_impl; [exact H9|]. intros k. apply key_validated.
Qed.

(** C39: a fingerprint identifies the mutation: two accepted data writes with
    the same fingerprint request the same namespace, revision, generation,
    tuples and attributes (only the idempotency key may differ), unless their
    byte streams are a SHA-256 collision. The delimiters and length prefixes
    of the stream leave no two different requests with the same bytes. *)
Theorem fingerprint_identifies `{D : Dsl} a b sa sb fa fb :
  machine_sized a -> machine_sized b ->
  NewWriteDataRequest (request_input a) = Ok a -> NewWriteDataRequest (request_input b) = Ok b ->
  FingerprintWriteData a = Ok (sa, fa) -> FingerprintWriteData b = Ok (sb, fb) ->
  Fingerprint_Bytes fa = Fingerprint_Bytes fb ->
  same_mutation a b \/
  (write_preimage a <> write_preimage b /\
   sha256_Sum256 (write_preimage a) = sha256_Sum256 (write_preimage b)).
Proof.
  intros Ma Mb Na Nb. unfold FingerprintWriteData. rewrite Na, Nb. simpl. intros Ha Hb.
  apply rbind_ok in Ha as (? & _ & Ha), Hb as (? & _ & Hb).
  assert (fa = mkFingerprint (sha256_Sum256 (write_preimage a)) true) as -> by congruence.
  assert (fb = mkFingerprint (sha256_Sum256 (write_preimage b)) true) as -> by congruence.
  unfold Fingerprint_Bytes. cbn [fp_valid fp_digest]. intros E.
  destruct (decide (write_preimage a = write_preimage b)) as [Ep|Hne]; [left|right; done].
  apply write_preimage_inj; auto using accepted_sized.
Qed.
