(* ===== verification/Evidence.v ===== *)
(** Evidence bindings (evidence.go).

    A binding ties opaque evidence to one evaluation: who asked, what was
    selected, which state was pinned, and a fingerprint of the request.
    [caller_preimage] and [authorization_preimage] are the byte streams that
    are hashed; both determine what they describe, so equal digests mean
    equal content or a SHA-256 collision. *)

From Stdlib Require Import ZArith Lia Permutation Sorted.
From stdpp Require Import base list gmap strings sorting.
From S2P Require Import Prelude Limits Text Types Invocation Cost Canon Data DataValid Policy Caller Requests Revisions Cursor Fingerprint.

(** * Data *)

(** [digest *[32]byte]: [None] is a nil pointer. *)
Record CallerBinding := mkCallerBinding { cb_digest : option (list Z); cb_valid : bool }.

Definition CallerBinding_Bytes (b : CallerBinding) : list Z := default zero_digest (cb_digest b).
Definition CallerBinding_isValid (b : CallerBinding) : bool :=
  cb_valid b && match cb_digest b with Some _ => true | None => false end.

Record EvidenceFingerprint := mkEvidenceFingerprint { ef_digest : option (list Z); ef_valid : bool }.

Definition NewEvidenceFingerprint (digest : list Z) : EvidenceFingerprint :=
  mkEvidenceFingerprint (Some digest) true.
Definition EvidenceFingerprint_Bytes (f : EvidenceFingerprint) : list Z := default zero_digest (ef_digest f).
Definition EvidenceFingerprint_isValid (f : EvidenceFingerprint) : bool :=
  ef_valid f && match ef_digest f with Some _ => true | None => false end.

Record EvidenceBindingInput := mkEvidenceBindingInput {
  ei_Caller : CallerBinding; ei_Namespace : string; ei_Selector : Selector; ei_RevisionID : string;
  ei_SlotGeneration : Z; ei_DataGeneration : Z; ei_EvaluatedAt : Time; ei_Fingerprint : EvidenceFingerprint }.

Record EvidenceBinding := mkEvidenceBinding {
  eb_caller : CallerBinding; eb_namespace : string; eb_selector : Selector; eb_revisionID : string;
  eb_slotGeneration : Z; eb_dataGeneration : Z; eb_evaluatedAt : Time; eb_fingerprint : EvidenceFingerprint;
  eb_validBinding : bool }.

(** cost.go *)
Definition addEvidenceBindingCost (b : budgetCounter) (binding : EvidenceBinding) : result budgetCounter :=
  let? b := addFixedFieldCost b digestBytes in
  let? b := addTextCost b (eb_namespace binding) in
  let? b := addSelectorCost b (eb_selector binding) in
  let? b := addTextCost b (eb_revisionID binding) in
  let? b := addFixedFieldCost b uint64Bytes in
  let? b := addFixedFieldCost b uint64Bytes in
  let? b := addFixedFieldCost b timestampBytes in
  addFixedFieldCost b digestBytes.

(** * Byte streams *)

Definition writeBoundField (value : string) : list Z := writeUint64 (len value) ++ bytes_of_string value.
Definition writeBoundUint64 (value : Z) : list Z := writeUint64 value.

(** [writeSelectorBinding]: a slot, or the revision string. *)
Definition writeSelectorBinding (selector : Selector) : list Z :=
  let '(slot, ok) := Selector_Slot selector in
  if ok then writeBoundField "slot" ++ writeBoundField slot
  else writeBoundField "revision" ++ writeBoundField (fst (ExactRevision selector)).

Definition sorted_keys_of {V} (m : gmap string V) : list string := sort_strings (map fst (map_to_list m)).

(** The stream hashed by [Caller.Binding]. *)
Definition caller_preimage (c : Caller) : list Z :=
  writeBoundField (caller_id c)
  ++ flat_map (fun key => writeBoundField key
                 ++ writeBoundField (default ""%string (caller_attributes c !! key)))
              (sorted_keys_of (caller_attributes c)).

(** The stream hashed by [AuthorizationDigest]. *)
Definition authorization_preimage (b : EvidenceBinding) : list Z :=
  bytes_of_string "cadrena.approval.authorization.v1"
  ++ CallerBinding_Bytes (eb_caller b) ++ writeBoundField (eb_namespace b)
  ++ writeSelectorBinding (eb_selector b) ++ writeBoundField (eb_revisionID b)
  ++ writeBoundUint64 (eb_slotGeneration b) ++ writeBoundUint64 (eb_dataGeneration b)
  ++ EvidenceFingerprint_Bytes (eb_fingerprint b).

(** * Operations *)

Definition NewEvidenceBinding (input : EvidenceBindingInput) : result EvidenceBinding :=
  let raw := mkEvidenceBinding (ei_Caller input) (ei_Namespace input) (ei_Selector input)
    (ei_RevisionID input) (ei_SlotGeneration input) (ei_DataGeneration input) (ei_EvaluatedAt input)
    (ei_Fingerprint input) true in
  let? _ := addEvidenceBindingCost (mkBudget 0 MaxAggregateInputBytes) raw in
  if negb (CallerBinding_isValid (ei_Caller input)) || negb (Selector_valid (ei_Selector input))
     || negb (validRevisionIDString (ei_RevisionID input)) || IsZero (ei_EvaluatedAt input)
     || negb (EvidenceFingerprint_isValid (ei_Fingerprint input))
  then Err ErrorInvalidArgument
  else
    let? _ := validateNamespace (ei_Namespace input) in
    let '(exactRevision, exact) := ExactRevision (ei_Selector input) in
    if exact && negb (bool_decide (exactRevision = ei_RevisionID input)) then Err ErrorInvalidArgument
    else if exact && negb (ei_SlotGeneration input =? 0) then Err ErrorInvalidArgument
    else if negb exact && (ei_SlotGeneration input =? 0) then Err ErrorInvalidArgument
    else Ok raw.

Definition EvidenceBinding_valid (b : EvidenceBinding) : bool :=
  if negb (eb_validBinding b) || negb (CallerBinding_isValid (eb_caller b))
     || negb (validNamespace (eb_namespace b)) || negb (Selector_valid (eb_selector b))
     || negb (validRevisionIDString (eb_revisionID b)) || IsZero (eb_evaluatedAt b)
     || negb (EvidenceFingerprint_isValid (eb_fingerprint b))
  then false
  else if negb (is_ok (addEvidenceBindingCost (mkBudget 0 MaxAggregateInputBytes) b)) then false
  else
    let '(exactRevision, exact) := ExactRevision (eb_selector b) in
    if exact then (eb_slotGeneration b =? 0) && bool_decide (eb_revisionID b = exactRevision)
    else 0 <? eb_slotGeneration b.

Section Digests.
Context `{D : Dsl}.

Definition Caller_Binding (c : Caller) : CallerBinding :=
  if negb (Caller_valid c) then mkCallerBinding None false
  else mkCallerBinding (Some (sha256_Sum256 (caller_preimage c))) true.

Definition AuthorizationDigest (b : EvidenceBinding) : option (list Z) :=
  if negb (EvidenceBinding_valid b) then None else Some (sha256_Sum256 (authorization_preimage b)).
End Digests.

(** * Constructor and re-validation *)

Definition binding_input (b : EvidenceBinding) : EvidenceBindingInput :=
  mkEvidenceBindingInput (eb_caller b) (eb_namespace b) (eb_selector b) (eb_revisionID b)
    (eb_slotGeneration b) (eb_dataGeneration b) (eb_evaluatedAt b) (eb_fingerprint b).

(** Slot generations are unsigned. *)
Lemma NewEvidenceBinding_iff input b :
  0 <= ei_SlotGeneration input ->
  NewEvidenceBinding input = Ok b <-> binding_input b = input /\ EvidenceBinding_valid b = true.
Proof.
  intros Hs. unfold NewEvidenceBinding, EvidenceBinding_valid, validNamespace.
  destruct input as [ca ns se ri sg dg t fp].
  cbn [ei_Caller ei_Namespace ei_Selector ei_RevisionID ei_SlotGeneration ei_DataGeneration ei_EvaluatedAt ei_Fingerprint] in *.
  set (raw := mkEvidenceBinding ca ns se ri sg dg t fp true).
  assert (Hraw : forall b, binding_input b = mkEvidenceBindingInput ca ns se ri sg dg t fp ->
    eb_validBinding b = true -> b = raw).
  { intros [] E Hv. unfold binding_input in E. cbn in E, Hv. unfold raw. congruence. }
  transitivity (b = raw /\ EvidenceBinding_valid raw = true).
  2:{ unfold EvidenceBinding_valid, validNamespace. split; [intros [-> H]; done|]. intros [E H].
      assert (b = raw) as ->; [|done]. apply Hraw; [done|].
      destruct (eb_validBinding b); [done|]. cbn [negb orb] in H. discriminate. }
  unfold EvidenceBinding_valid, validNamespace. cbn [raw eb_validBinding eb_caller eb_namespace eb_selector eb_revisionID eb_slotGeneration eb_evaluatedAt eb_fingerprint].
  fold raw. destruct (addEvidenceBindingCost _ raw); cbn [rbind is_ok negb].
  2:{ split; [done|]. intros [_ H]. by destruct (_ || _). }
  destruct (CallerBinding_isValid ca), (Selector_valid se), (validRevisionIDString ri), (IsZero t),
    (EvidenceFingerprint_isValid fp); cbn [negb orb]; try (split; [discriminate|intros [_ H]; by destruct (is_ok (validateNamespace ns))]).
  destruct (validateNamespace ns) as [[]|]; cbn [rbind is_ok negb orb]; [|naive_solver].
  destruct (ExactRevision se) as [er exact]. destruct exact; cbn [andb negb].
  - rewrite (bool_decide_ext (er = ri) (ri = er)) by (split; congruence).
    case_bool_decide; cbn [negb]; [|rewrite andb_false_r; naive_solver]. rewrite andb_true_r.
    destruct (sg =? 0); cbn [negb]; naive_solver.
  - destruct (Z.eqb_spec sg 0), (Z.ltb_spec 0 sg); try lia; naive_solver.
Qed.

(** * The streams determine their contents *)

Lemma writeBoundField_code : prefix_code text_ok writeBoundField.
Proof. exact writeString_code. Qed.

Lemma sorted_keys_elem {V} (m : gmap string V) k : k ∈ sorted_keys_of m <-> is_Some (m !! k).
Proof.
  unfold sorted_keys_of, sort_strings. rewrite sort_by_elem. rewrite list_elem_of_fmap. split.
  - intros ([k' v] & -> & H%elem_of_map_to_list). eauto.
  - intros [v H]. exists (k, v). by rewrite elem_of_map_to_list.
Qed.

(** The entries of a map, in the order of its sorted keys. *)
Definition sorted_entries {V} (zero : V) (m : gmap string V) : list (string * V) :=
  map (fun k => (k, default zero (m !! k))) (sorted_keys_of m).

Lemma sorted_entries_elem {V} zero (m : gmap string V) k v :
  (k, v) ∈ sorted_entries zero m <-> m !! k = Some v.
Proof.
  unfold sorted_entries. rewrite list_elem_of_fmap. split.
  - intros (k' & [= -> ->] & [v' Hv]%sorted_keys_elem). by rewrite Hv.
  - intros Hv. exists k. rewrite Hv. split; [done|]. apply sorted_keys_elem. eauto.
Qed.

Lemma sorted_entries_inj {V} zero (m1 m2 : gmap string V) :
  sorted_entries zero m1 = sorted_entries zero m2 -> m1 = m2.
Proof.
  intros E. apply map_eq. intros k. apply option_eq. intros v.
  by rewrite <- !(sorted_entries_elem zero), E.
Qed.

Definition caller_entry (kv : string * string) : list Z := writeBoundField kv.1 ++ writeBoundField kv.2.

Lemma flat_map_map {A B C} (f : B -> list C) (g : A -> B) l : flat_map f (map g l) = flat_map (fun x => f (g x)) l.
Proof. induction l as [|x l IH]; simpl; [done|by rewrite IH]. Qed.

Lemma caller_preimage_entries c :
  caller_preimage c = writeBoundField (caller_id c) ++ flat_map caller_entry (sorted_entries ""%string (caller_attributes c)).
Proof. unfold caller_preimage, sorted_entries. by rewrite flat_map_map. Qed.

Definition entry_ok (kv : string * string) : Prop := text_ok kv.1 /\ text_ok kv.2.

Lemma caller_entry_code : prefix_code entry_ok caller_entry.
Proof.
  intros [k v] [k' v'] r1 r2 [H1 H2] [H3 H4]. unfold caller_entry. simpl in *. rewrite <- !app_assoc. intros E.
  apply writeBoundField_code in E as [-> E]; auto. apply writeBoundField_code in E as [-> ->]; auto.
Qed.

Lemma Caller_valid_texts c :
  Caller_valid c = true -> text_ok (caller_id c) /\ Forall entry_ok (sorted_entries ""%string (caller_attributes c)).
Proof.
  unfold Caller_valid, validIdentifier. destruct (is_ok (validateIdentifier _)) eqn:Hi; [|done].
  destruct (_ <? _); [done|]. cbn [negb orb]. destruct (forallb _ _) eqn:Hf; [|done]. intros _.
  split; [by apply identifier_len, is_ok_unit|]. apply Forall_forall. intros [k v] Hkv.
  apply sorted_entries_elem, elem_of_map_to_list, list_elem_of_In in Hkv. rewrite forallb_forall in Hf.
  specialize (Hf (k, v) Hkv). cbn in Hf. rewrite negb_orb, !negb_involutive in Hf.
  apply andb_true_iff in Hf as [H1%is_ok_unit H2%is_ok_unit]. split; [by apply identifier_len|].
  by eapply validateText_len.
Qed.

Lemma caller_preimage_inj a b :
  Caller_valid a = true -> Caller_valid b = true -> caller_preimage a = caller_preimage b -> a = b.
Proof.
  intros (A1 & A2)%Caller_valid_texts (B1 & B2)%Caller_valid_texts. rewrite !caller_preimage_entries. intros E.
  apply writeBoundField_code in E as [E1 E]; auto.
  apply (final_code entry_ok) in E; auto using caller_entry_code.
  apply sorted_entries_inj in E. destruct a, b. simpl in *. congruence.
Qed.

Lemma Selector_valid_texts s : Selector_valid s = true -> text_ok (sel_slot s) /\ text_ok (sel_revisionID s).
Proof.
  intros Hs. destruct (Selector_valid_cases s Hs) as [[H1 H2]|[H1 H2]]; unfold Selector_valid in Hs; rewrite ?H1, ?H2 in *.
  - split; [|done]. rewrite (bool_decide_eq_false_2 (sel_slot s = ""%string)) in Hs by done.
    rewrite bool_decide_eq_true_2 in Hs by done. cbn in Hs.
    rewrite bool_decide_eq_true_2 in Hs by done. rewrite orb_false_r in Hs. by apply identifier_len, is_ok_unit.
  - split; [done|]. rewrite (bool_decide_eq_false_2 (sel_revisionID s = ""%string)) in Hs by done. cbn in Hs.
    apply andb_true_iff in Hs as [_ Hs]. apply validRevisionIDString_hex in Hs as [Hs _]. unfold text_ok. lia.
Qed.

Lemma writeSelectorBinding_code : prefix_code (fun s => Selector_valid s = true) writeSelectorBinding.
Proof.
  intros x y r1 r2 Hx Hy. assert (Tx := Selector_valid_texts x Hx). assert (Ty := Selector_valid_texts y Hy).
  assert (T : text_ok "slot" /\ text_ok "revision") by done. destruct T as [T1 T2].
  unfold writeSelectorBinding, Selector_Slot, ExactRevision. cbn [fst].
  destruct (Selector_valid_cases x Hx) as [[X1 X2]|[X1 X2]], (Selector_valid_cases y Hy) as [[Y1 Y2]|[Y1 Y2]];
    rewrite ?(bool_decide_eq_true_2 _ X1), ?(bool_decide_eq_true_2 _ X2), ?(bool_decide_eq_true_2 _ Y1), ?(bool_decide_eq_true_2 _ Y2);
    rewrite ?(bool_decide_eq_false_2 (sel_slot x <> ""%string)), ?(bool_decide_eq_false_2 (sel_slot y <> ""%string)) by (intros Hn; congruence);
    cbn [andb]; rewrite <- !app_assoc; intros E; apply writeBoundField_code in E as [Et E]; auto; try discriminate;
    apply writeBoundField_code in E as [Ev ->]; try tauto; (split; [|done]); destruct x, y; simpl in *; congruence.
Qed.

(** Digests have the size of their Go type, generations are unsigned. *)
Definition binding_sized (b : EvidenceBinding) : Prop :=
  zlen (CallerBinding_Bytes (eb_caller b)) = 32 /\ zlen (EvidenceFingerprint_Bytes (eb_fingerprint b)) = 32 /\
  u64 (eb_slotGeneration b) /\ u64 (eb_dataGeneration b).

(** Everything a binding says except the evaluation time. *)
Definition same_authority (a b : EvidenceBinding) : Prop :=
  CallerBinding_Bytes (eb_caller a) = CallerBinding_Bytes (eb_caller b) /\
  eb_namespace a = eb_namespace b /\ eb_selector a = eb_selector b /\ eb_revisionID a = eb_revisionID b /\
  eb_slotGeneration a = eb_slotGeneration b /\ eb_dataGeneration a = eb_dataGeneration b /\
  EvidenceFingerprint_Bytes (eb_fingerprint a) = EvidenceFingerprint_Bytes (eb_fingerprint b).

Lemma EvidenceBinding_valid_parts b :
  EvidenceBinding_valid b = true ->
  Selector_valid (eb_selector b) = true /\
  text_ok (eb_namespace b) /\ text_ok (eb_revisionID b).
Proof.
  unfold EvidenceBinding_valid, validNamespace.
  destruct (eb_validBinding b), (CallerBinding_isValid _), (is_ok (validateNamespace _)) eqn:Hn, (Selector_valid _),
    (validRevisionIDString _) eqn:Hr, (IsZero _), (EvidenceFingerprint_isValid _); try done. intros _.
  split; [done|]. split.
  - apply is_ok_unit, rbind_ok in Hn as ([] & Hn & _). by eapply validateText_len.
  - apply validRevisionIDString_hex in Hr as [Hr _]. unfold text_ok. lia.
Qed.

Lemma authorization_preimage_inj a b :
  EvidenceBinding_valid a = true -> EvidenceBinding_valid b = true -> binding_sized a -> binding_sized b ->
  authorization_preimage a = authorization_preimage b -> same_authority a b.
Proof.
  intros (A1 & A2 & A3)%EvidenceBinding_valid_parts (B1 & B2 & B3)%EvidenceBinding_valid_parts
    (SA1 & SA2 & SA3 & SA4) (SB1 & SB2 & SB3 & SB4). unfold authorization_preimage. intros E.
  apply app_inv_head in E. apply app_inj_1 in E as [E1 E]; [|unfold zlen in *; lia].
  apply writeBoundField_code in E as [E2 E]; auto. apply writeSelectorBinding_code in E as [E3 E]; auto.
  apply writeBoundField_code in E as [E4 E]; auto.
  apply writeUint64_code in E as [E5 E]; auto. apply writeUint64_code in E as [E6 E]; auto. done.
Qed.

(** C34: an approval-continuation digest identifies the authority it was issued
    for. Two valid bindings with the same [AuthorizationDigest], made for
    authenticated callers, have the same caller (identifier and every
    attribute), namespace, selector, revision, slot generation, data
    generation and request fingerprint, and may differ only in the evaluation
    time; otherwise the hashed streams of the callers or of the bindings are a
    SHA-256 collision. *)
Theorem authorization_digest_identifies `{D : Dsl} c1 c2 b1 b2 digest :
  Caller_valid c1 = true -> Caller_valid c2 = true ->
  eb_caller b1 = Caller_Binding c1 -> eb_caller b2 = Caller_Binding c2 ->
  binding_sized b1 -> binding_sized b2 ->
  AuthorizationDigest b1 = Some digest -> AuthorizationDigest b2 = Some digest ->
  (c1 = c2 /\ same_authority b1 b2) \/
  (caller_preimage c1 <> caller_preimage c2 /\
   sha256_Sum256 (caller_preimage c1) = sha256_Sum256 (caller_preimage c2)) \/
  (authorization_preimage b1 <> authorization_preimage b2 /\
   sha256_Sum256 (authorization_preimage b1) = sha256_Sum256 (authorization_preimage b2)).
Proof.
  intros V1 V2 C1 C2 S1 S2. unfold AuthorizationDigest.
  destruct (EvidenceBinding_valid b1) eqn:E1; [|done]. destruct (EvidenceBinding_valid b2) eqn:E2; [|done].
  cbn [negb]. intros [= H1] [= H2].
  destruct (decide (authorization_preimage b1 = authorization_preimage b2)) as [Ep|]; [|right; right; split; congruence].
  assert (Hs := authorization_preimage_inj _ _ E1 E2 S1 S2 Ep). assert (Hc := proj1 Hs).
  rewrite C1, C2 in Hc. unfold Caller_Binding in Hc. rewrite V1, V2 in Hc. cbn in Hc.
  destruct (decide (caller_preimage c1 = caller_preimage c2)) as [Ec|]; [left|right; left; done].
  split; [by apply caller_preimage_inj|done].
Qed.
