(* ===== verification/Extensions.v ===== *)
(** Verifier and sink boundaries (extensions.go, invocation.go lines 88-189).

    The verifiers and the sink are code of the embedding application. Their
    calls go through [invokeExtension]; what they return is validated again
    before the engine believes it. *)

From Stdlib Require Import ZArith Lia Permutation Sorted.
From stdpp Require Import base list gmap strings sorting.
From S2P Require Import Prelude Limits Text Types Invocation Cost Canon Data DataValid Policy Caller Requests Revisions Cursor Fingerprint Evidence.

(** * Approval verification *)

Record ApprovalVerificationRequest := mkApprovalVerificationRequest {
  av_binding : EvidenceBinding; av_requirementIDs : list string; av_evidence : list Z }.
Record ApprovalVerificationResult := mkApprovalVerificationResult {
  avr_validResult : bool; avr_satisfiedRequirementIDs : list string }.

(** cost.go *)
Definition addApprovalVerificationRequestCost (b : budgetCounter) (binding : EvidenceBinding)
  (requirementIDs : list string) (evidence : list Z) : result budgetCounter :=
  let? b := addEvidenceBindingCost b binding in
  let? b := addIdentifiersCost b requirementIDs in
  addBytesCost b evidence.

Definition addDelegationVerificationRequestCost (b : budgetCounter) (binding : EvidenceBinding)
  (evidence : list Z) : result budgetCounter :=
  let? b := addEvidenceBindingCost b binding in
  addBytesCost b evidence.

Definition NewApprovalVerificationRequest (binding : EvidenceBinding) (requirementIDs : list string)
  (evidence : list Z) : result ApprovalVerificationRequest :=
  if (MaxVerifierOutputItems <? zlen requirementIDs) || (MaxEvidenceBytes <? zlen evidence)
  then Err ErrorResourceExhausted
  else if (zlen requirementIDs =? 0) || (zlen evidence =? 0) then Err ErrorInvalidArgument
  else
    let? _ := addApprovalVerificationRequestCost input_budget binding requirementIDs evidence in
    if negb (EvidenceBinding_valid binding) then Err ErrorInvalidArgument
    else
      let? requirements := canonicalIdentifiers requirementIDs MaxVerifierOutputItems MaxVerifierOutputBytes in
      Ok (mkApprovalVerificationRequest binding requirements evidence).

Definition ApprovalVerificationRequest_valid (r : ApprovalVerificationRequest) : bool :=
  if negb (EvidenceBinding_valid (av_binding r)) || (zlen (av_requirementIDs r) =? 0)
     || negb (validCanonicalIdentifiers (av_requirementIDs r) MaxVerifierOutputItems MaxVerifierOutputBytes)
     || (zlen (av_evidence r) =? 0) || (MaxEvidenceBytes <? zlen (av_evidence r))
  then false
  else is_ok (addApprovalVerificationRequestCost input_budget (av_binding r) (av_requirementIDs r) (av_evidence r)).

Definition verifier_budget : budgetCounter := mkBudget 0 MaxVerifierOutputBytes.

Definition NewApprovalVerificationResult (satisfiedRequirementIDs : list string)
  : result ApprovalVerificationResult :=
  if MaxVerifierOutputItems <? zlen satisfiedRequirementIDs then Err ErrorResourceExhausted
  else
    let? _ := addIdentifiersCost verifier_budget satisfiedRequirementIDs in
    let? satisfied := canonicalIdentifiers satisfiedRequirementIDs MaxVerifierOutputItems MaxVerifierOutputBytes in
    Ok (mkApprovalVerificationResult true satisfied).

Definition ApprovalVerificationResult_valid (r : ApprovalVerificationResult) : bool :=
  if negb (avr_validResult r)
     || negb (validCanonicalIdentifiers (avr_satisfiedRequirementIDs r) MaxVerifierOutputItems MaxVerifierOutputBytes)
  then false
  else is_ok (addIdentifiersCost verifier_budget (avr_satisfiedRequirementIDs r)).

(** [ApprovalVerifier]; [None] is a nil interface. *)
Definition ApprovalVerifier : Type :=
  option (ApprovalVerificationRequest -> call_outcome ApprovalVerificationResult).
Definition rejectApprovalVerifier : ApprovalVerificationRequest -> call_outcome ApprovalVerificationResult :=
  fun _ => Returned (inr (engineError ErrorPermissionDenied)).
Definition DefaultApprovalVerifier : ApprovalVerifier := Some rejectApprovalVerifier.

(** [for requestedIndex < len(requested) && requested[requestedIndex] < satisfied] *)
Fixpoint skip_below (s : string) (requested : list string) : list string :=
  match requested with
  | [] => []
  | r :: rest => if str_lt r s then skip_below s rest else requested
  end.

(** The loop over the satisfied identifiers; [requested] is what is left from
    [requestedIndex] on. *)
Fixpoint satisfied_requested (requested satisfied : list string) : bool :=
  match satisfied with
  | [] => true
  | s :: rest =>
      match skip_below s requested with
      | [] => false
      | (r :: _) as left => bool_decide (r = s) && satisfied_requested left rest
      end
  end.

(** Points of the context: 0 the first [Err], 1 and 2 those of
    [invokeExtension], 3 the [Err] after the call. *)
Definition InvokeApprovalVerifier (ctx : Context) (slotFree : bool) (verifier : ApprovalVerifier)
  (request : ApprovalVerificationRequest) : result ApprovalVerificationResult :=
  match contextEngineError (ctx_err ctx 0) with
  | Some e => Err e
  | None =>
  match verifier with
  | None => Err ErrorInvalidArgument
  | Some verify =>
      if negb (ApprovalVerificationRequest_valid request) then Err ErrorInvalidArgument
      else
        let outcome := invokeExtension (mkApprovalVerificationResult false []) ctx 1 slotFree (verify request) in
        match contextEngineError (ctx_err ctx 3) with
        | Some e => Err e
        | None =>
        match outcome with
        | inr callErr => Err (sanitizedExtensionError callErr ErrorUnavailable)
        | inl r =>
            if negb (ApprovalVerificationResult_valid r) then Err ErrorInternal
            else if satisfied_requested (av_requirementIDs request) (avr_satisfiedRequirementIDs r) then Ok r
            else Err ErrorInternal
        end
        end
  end
  end.

(** * Delegation verification *)

Record DelegationVerificationRequest := mkDelegationVerificationRequest {
  dv_binding : EvidenceBinding; dv_evidence : list Z }.
Record DelegationVerificationResult := mkDelegationVerificationResult {
  dvr_validResult : bool; dvr_contextualData : ContextualData }.

Definition NewDelegationVerificationRequest (binding : EvidenceBinding) (evidence : list Z)
  : result DelegationVerificationRequest :=
  if MaxEvidenceBytes <? zlen evidence then Err ErrorResourceExhausted
  else if zlen evidence =? 0 then Err ErrorInvalidArgument
  else
    let? _ := addDelegationVerificationRequestCost input_budget binding evidence in
    if negb (EvidenceBinding_valid binding) then Err ErrorInvalidArgument
    else Ok (mkDelegationVerificationRequest binding evidence).

Definition DelegationVerificationRequest_valid (r : DelegationVerificationRequest) : bool :=
  if negb (EvidenceBinding_valid (dv_binding r)) || (zlen (dv_evidence r) =? 0)
     || (MaxEvidenceBytes <? zlen (dv_evidence r)) then false
  else is_ok (addDelegationVerificationRequestCost input_budget (dv_binding r) (dv_evidence r)).

Definition item_budget : budgetCounter := mkBudget 0 MaxVerifierOutputItems.

Definition NewDelegationVerificationResult (contextualData : ContextualData)
  : result DelegationVerificationResult :=
  let? itemBudget := add item_budget (zlen (cd_tuples contextualData)) in
  let? _ := add itemBudget (zlen (cd_attributes contextualData)) in
  let? _ := addContextualDataCost verifier_budget contextualData in
  if negb (ContextualData_valid contextualData) then Err ErrorInvalidArgument
  else Ok (mkDelegationVerificationResult true contextualData).

Definition DelegationVerificationResult_valid (r : DelegationVerificationResult) : bool :=
  if negb (dvr_validResult r) || negb (ContextualData_valid (dvr_contextualData r)) then false
  else if negb (is_ok (let? b := add item_budget (zlen (cd_tuples (dvr_contextualData r))) in
                       add b (zlen (cd_attributes (dvr_contextualData r))))) then false
  else is_ok (addContextualDataCost verifier_budget (dvr_contextualData r)).

Definition DelegationVerifier : Type :=
  option (DelegationVerificationRequest -> call_outcome DelegationVerificationResult).
Definition rejectDelegationVerifier : DelegationVerificationRequest -> call_outcome DelegationVerificationResult :=
  fun _ => Returned (inr (engineError ErrorPermissionDenied)).
Definition DefaultDelegationVerifier : DelegationVerifier := Some rejectDelegationVerifier.

Definition InvokeDelegationVerifier (ctx : Context) (slotFree : bool) (verifier : DelegationVerifier)
  (request : DelegationVerificationRequest) : result DelegationVerificationResult :=
  match contextEngineError (ctx_err ctx 0) with
  | Some e => Err e
  | None =>
  match verifier with
  | None => Err ErrorInvalidArgument
  | Some verify =>
      if negb (DelegationVerificationRequest_valid request) then Err ErrorInvalidArgument
      else
        let outcome := invokeExtension (mkDelegationVerificationResult false (mkContextualData [] []))
                         ctx 1 slotFree (verify request) in
        match contextEngineError (ctx_err ctx 3) with
        | Some e => Err e
        | None =>
        match outcome with
        | inr callErr => Err (sanitizedExtensionError callErr ErrorUnavailable)
        | inl r => if negb (DelegationVerificationResult_valid r) then Err ErrorInternal else Ok r
        end
        end
  end
  end.

(** * Decision events *)

Record CompletedDecisionEventInput := mkCompletedDecisionEventInput {
  cei_Decision : Decision; cei_ReasonCode : string; cei_RevisionID : string; cei_SlotGeneration : Z;
  cei_DataGeneration : Z; cei_CompletedAt : Time; cei_UsedContextualData : bool; cei_UsedApproval : bool;
  cei_UsedDelegation : bool }.

Record CompletedDecisionEvent := mkCompletedDecisionEvent {
  ce_validEvent : bool; ce_decision : Decision; ce_reasonCode : string; ce_revisionID : string;
  ce_slotGeneration : Z; ce_dataGeneration : Z; ce_completedAt : Time; ce_usedContextualData : bool;
  ce_usedApproval : bool; ce_usedDelegation : bool }.

Definition NewCompletedDecisionEvent (input : CompletedDecisionEventInput) : result CompletedDecisionEvent :=
  if negb (Decision_valid (cei_Decision input)) || negb (validRevisionIDString (cei_RevisionID input))
     || IsZero (cei_CompletedAt input)
  then Err ErrorInvalidArgument
  else
    let? _ := validateIdentifier (cei_ReasonCode input) in
    Ok (mkCompletedDecisionEvent true (cei_Decision input) (cei_ReasonCode input) (cei_RevisionID input)
          (cei_SlotGeneration input) (cei_DataGeneration input) (cei_CompletedAt input)
          (cei_UsedContextualData input) (cei_UsedApproval input) (cei_UsedDelegation input)).

Definition CompletedDecisionEvent_valid (e : CompletedDecisionEvent) : bool :=
  ce_validEvent e && Decision_valid (ce_decision e) && validIdentifier (ce_reasonCode e)
  && validRevisionIDString (ce_revisionID e) && negb (IsZero (ce_completedAt e)).

Definition DecisionDeliveryAccepted : Z := 1.
Definition DecisionDeliveryDropped : Z := 2.
Definition DecisionDeliveryFailed : Z := 3.
Record DecisionDelivery := mkDecisionDelivery { dd_status : Z; dd_reasonCode : string }.

Definition NewDecisionDelivery (status : Z) (reasonCode : string) : result DecisionDelivery :=
  if (status <? DecisionDeliveryAccepted) || (DecisionDeliveryFailed <? status) then Err ErrorInvalidArgument
  else let? _ := validateIdentifier reasonCode in Ok (mkDecisionDelivery status reasonCode).

Definition DecisionDelivery_valid (d : DecisionDelivery) : bool :=
  (DecisionDeliveryAccepted <=? dd_status d) && (dd_status d <=? DecisionDeliveryFailed)
  && validIdentifier (dd_reasonCode d).

(** A sink returns no error. *)
Inductive sink_outcome := Recorded (d : DecisionDelivery) | SinkPanicked.
Definition DecisionEventSink : Type := option (CompletedDecisionEvent -> sink_outcome).
Definition noopDecisionEventSink : CompletedDecisionEvent -> sink_outcome :=
  fun _ => Recorded (mkDecisionDelivery DecisionDeliveryDropped "NO_SINK").
Definition DefaultDecisionEventSink : DecisionEventSink := Some noopDecisionEventSink.

Definition sink_call (o : sink_outcome) : call_outcome DecisionDelivery :=
  match o with Recorded d => Returned (inl d) | SinkPanicked => Panicked end.

(** [failed(reason)]: [value, _ := NewDecisionDelivery(...)]. *)
Definition delivery_failed (reason : string) : DecisionDelivery :=
  match NewDecisionDelivery DecisionDeliveryFailed reason with
  | Ok value => value
  | Err _ => mkDecisionDelivery 0 ""
  end.

Definition context_failure (e : ErrorCategory) : DecisionDelivery :=
  if bool_decide (e = ErrorDeadlineExceeded) then delivery_failed "DEADLINE_EXCEEDED"
  else delivery_failed "CANCELED".

Definition DeliverDecisionEvent (ctx : Context) (slotFree : bool) (sink : DecisionEventSink)
  (event : CompletedDecisionEvent) : DecisionDelivery :=
  match contextEngineError (ctx_err ctx 0) with
  | Some e => context_failure e
  | None =>
  match sink with
  | None => delivery_failed "INVALID_SINK_INPUT"
  | Some record =>
      if negb (CompletedDecisionEvent_valid event) then delivery_failed "INVALID_SINK_INPUT"
      else
        let outcome := invokeExtension (mkDecisionDelivery 0 "") ctx 1 slotFree (sink_call (record event)) in
        match contextEngineError (ctx_err ctx 3) with
        | Some e => context_failure e
        | None =>
        match outcome with
        | inr callErr =>
            if isEngineCategory callErr ErrorDeadlineExceeded then delivery_failed "DEADLINE_EXCEEDED"
            else if isEngineCategory callErr ErrorCanceled then delivery_failed "CANCELED"
            else if isEngineCategory callErr ErrorResourceExhausted then delivery_failed "RESOURCE_EXHAUSTED"
            else delivery_failed "SINK_PANIC"
        | inl delivery =>
            if negb (DecisionDelivery_valid delivery) then delivery_failed "INVALID_SINK_OUTPUT" else delivery
        end
        end
  end
  end.

(** * Facts *)

Lemma str_lt_spec a b : str_lt a b = true <-> clt String.compare a b.
Proof. unfold str_lt, clt. by destruct (String.compare a b). Qed.

Lemma skip_below_spec s requested :
  StronglySorted (clt String.compare) requested ->
  skip_below s requested `suffix_of` requested /\
  (forall x, x ∈ requested -> cle String.compare s x -> x ∈ skip_below s requested) /\
  (forall r rest, skip_below s requested = r :: rest -> cle String.compare s r).
Proof.
  induction 1 as [|r l Hs IH Hr]; cbn [skip_below].
  { repeat split; [done|done|]. intros r rest [=]. }
  destruct (str_lt r s) eqn:E.
  - apply str_lt_spec in E. destruct IH as (I1 & I2 & I3). repeat split.
    + by apply suffix_cons_r.
    + intros x [->|Hx]%elem_of_cons Hle; [|auto]. exfalso. unfold clt, cle in *.
      by rewrite (tc_lt_asym String.compare _ _ E) in Hle.
    + done.
  - repeat split; [done|done|]. intros r' rest [= <- <-]. unfold cle.
    unfold str_lt in E. rewrite (tc_antisym String.compare r s). by destruct (String.compare r s).
Qed.

Lemma strict_suffix (l k : list string) :
  l `suffix_of` k -> StronglySorted (clt String.compare) k -> StronglySorted (clt String.compare) l.
Proof.
  intros [p ->]. induction p as [|x p IH]; simpl; [done|]. intros H. inversion_clear H. auto.
Qed.

(** The two-pointer walk decides inclusion. *)
Lemma satisfied_requested_spec satisfied : forall requested,
  StronglySorted (clt String.compare) requested -> StronglySorted (clt String.compare) satisfied ->
  satisfied_requested requested satisfied = true <-> (forall s, s ∈ satisfied -> s ∈ requested).
Proof.
  induction satisfied as [|s rest IH]; intros requested Hr Hs; cbn [satisfied_requested].
  { split; [|done]. intros _ s Hin. by apply elem_of_nil in Hin. }
  inversion_clear Hs as [|? ? Hs' Hlt]. rewrite Forall_forall in Hlt.
  destruct (skip_below_spec s requested Hr) as (Hsuf & Hkeep & Hhead).
  assert (Hsub : forall x, x ∈ skip_below s requested -> x ∈ requested).
  { intros x Hx. destruct Hsuf as [p Ep]. rewrite Ep. apply elem_of_app. by right. }
  assert (Hsorted := strict_suffix _ _ Hsuf Hr).
  assert (Hself : s ∈ requested -> s ∈ skip_below s requested).
  { intros Hin. apply Hkeep; [done|]. unfold cle. by rewrite (tc_refl String.compare). }
  destruct (skip_below s requested) as [|r left] eqn:E.
  { split; [done|]. intros Hall. assert (Hin := Hself (Hall s ltac:(left))). by apply elem_of_nil in Hin. }
  rewrite andb_true_iff, bool_decide_eq_true, IH by done. split.
  - intros [-> Hall] x [->|Hx]%elem_of_cons; [apply Hsub; left|]. apply Hsub. auto.
  - intros Hall. assert (Hin := Hself (Hall s ltac:(left))). split.
    + apply elem_of_cons in Hin as [|Hin]; [done|]. inversion_clear Hsorted as [|? ? _ Hf].
      rewrite Forall_forall in Hf. specialize (Hf s Hin). specialize (Hhead r left eq_refl).
      exfalso. unfold clt, cle in *. by rewrite (tc_lt_asym String.compare _ _ Hf) in Hhead.
    + intros x Hx. apply Hkeep; [apply Hall; by right|]. apply (clt_cle String.compare). auto.
Qed.

Lemma verifier_limit : 0 <= MaxVerifierOutputBytes <= MaxInt64.
Proof. by vm_compute. Qed.

(** The context answers every question of one verifier call. *)
Definition verifier_clear (ctx : Context) : Prop :=
  ctx_err ctx 0 = CtxUsable /\ ctx_err ctx 1 = CtxUsable /\ ctx_err ctx 3 = CtxUsable /\ ctx_done ctx 1 = false.

Lemma invoke_returns {T} (zero : T) ctx n slotFree o v :
  invokeExtension zero ctx n slotFree o = inl v <->
  ctx_err ctx n = CtxUsable /\ slotFree = true /\
  ((ctx_done ctx n = false /\ o = Returned (inl v)) \/
   (ctx_done ctx n = true /\ ctx_err ctx (S n) = CtxUsable /\ v = zero)).
Proof.
  unfold invokeExtension. rewrite <- !contextEngineError_None.
  destruct (contextEngineError (ctx_err ctx n)); [naive_solver|].
  destruct slotFree; cbn [negb]; [|naive_solver].
  destruct (ctx_done ctx n).
  - destruct (contextEngineError (ctx_err ctx (S n))); naive_solver.
  - destruct o as [[v'|e]|]; cbn [completion]; naive_solver.
Qed.

(** C33: approval evidence fails closed. [InvokeApprovalVerifier] yields a
    verification result if and only if the context stayed usable, a call slot
    was free, the request is valid, a verifier is configured and itself
    returned (without an error or a panic) that result, the result is well
    formed, and every requirement it reports satisfied was requested; the
    linear two-pointer walk of the code decides exactly that inclusion. A
    verifier can therefore never satisfy a requirement that was not asked for,
    and no failure is turned into a satisfied requirement. *)
Theorem approval_verifier_exact ctx slotFree verifier request r :
  InvokeApprovalVerifier ctx slotFree verifier request = Ok r <->
  verifier_clear ctx /\ slotFree = true /\ ApprovalVerificationRequest_valid request = true /\
  (exists verify, verifier = Some verify /\ verify request = Returned (inl r)) /\
  ApprovalVerificationResult_valid r = true /\
  (forall id, id ∈ avr_satisfiedRequirementIDs r -> id ∈ av_requirementIDs request).
Proof.
  unfold InvokeApprovalVerifier, verifier_clear.
  destruct (contextEngineError (ctx_err ctx 0)) eqn:E0; [split; [done|]; intros ((H & _) & _); by rewrite H in E0|].
  destruct verifier as [verify|]; [|naive_solver].
  destruct (ApprovalVerificationRequest_valid request) eqn:Hq; cbn [negb]; [|naive_solver].
  destruct (contextEngineError (ctx_err ctx 3)) eqn:E3; [split; [done|]; intros ((_ & _ & H & _) & _); by rewrite H in E3|].
  apply contextEngineError_None in E0, E3.
  assert (Hreq : StronglySorted (clt String.compare) (av_requirementIDs request)).
  { unfold ApprovalVerificationRequest_valid in Hq.
    destruct (validCanonicalIdentifiers (av_requirementIDs request) _ _) eqn:Hc; [|by rewrite orb_true_r in Hq].
    apply validCanonicalIdentifiers_iff in Hc; [tauto|done]. }
  set (zero := mkApprovalVerificationResult false []). set (o := verify request).
  assert (Hinv := invoke_returns zero ctx 1 slotFree o).
  destruct (invokeExtension zero ctx 1 slotFree o) as [v|e] eqn:Ei.
  2:{ split; [done|]. intros ((_ & H1 & _ & Hd) & -> & _ & (f & [= <-] & Ho) & _).
      destruct (Hinv r) as [_ H]. discriminate H. split; [done|]. split; [done|]. left. done. }
  destruct (proj1 (Hinv v) eq_refl) as (H1 & -> & [[Hd Ho]|(Hd & _ & ->)]).
  2:{ cbn. split; [done|]. intros ((_ & _ & _ & Hd') & _). congruence. }
  destruct (ApprovalVerificationResult_valid v) eqn:Hv; cbn [negb].
  2:{ split; [done|]. intros (_ & _ & _ & (f & [= <-] & Hr) & Hv' & _). unfold o in Ho. congruence. }
  assert (Hsat : StronglySorted (clt String.compare) (avr_satisfiedRequirementIDs v)).
  { unfold ApprovalVerificationResult_valid in Hv.
    destruct (validCanonicalIdentifiers (avr_satisfiedRequirementIDs v) _ _) eqn:Hc; [|by rewrite orb_true_r in Hv].
    apply validCanonicalIdentifiers_iff in Hc; [tauto|done]. }
  assert (Hw := satisfied_requested_spec _ _ Hreq Hsat).
  destruct (satisfied_requested _ _).
  - split.
    + intros [= <-]. repeat split; auto; [by exists verify|by apply Hw].
    + intros (_ & _ & _ & (f & [= <-] & Hr) & _). unfold o in Ho. congruence.
  - split; [done|]. intros (_ & _ & _ & (f & [= <-] & Hr) & _ & Hall). unfold o in Ho.
    assert (v = r) as <- by congruence. by apply Hw in Hall.
Qed.

(** A delegation verifier is believed under the same conditions. *)
Lemma delegation_verifier_exact ctx slotFree verifier request r :
  InvokeDelegationVerifier ctx slotFree verifier request = Ok r <->
  verifier_clear ctx /\ slotFree = true /\ DelegationVerificationRequest_valid request = true /\
  (exists verify, verifier = Some verify /\ verify request = Returned (inl r)) /\
  DelegationVerificationResult_valid r = true.
Proof.
  unfold InvokeDelegationVerifier, verifier_clear.
  destruct (contextEngineError (ctx_err ctx 0)) eqn:E0; [split; [done|]; intros ((H & _) & _); by rewrite H in E0|].
  destruct verifier as [verify|]; [|naive_solver].
  destruct (DelegationVerificationRequest_valid request) eqn:Hq; cbn [negb]; [|naive_solver].
  destruct (contextEngineError (ctx_err ctx 3)) eqn:E3; [split; [done|]; intros ((_ & _ & H & _) & _); by rewrite H in E3|].
  apply contextEngineError_None in E0, E3.
  set (zero := mkDelegationVerificationResult false _). set (o := verify request).
  assert (Hinv := invoke_returns zero ctx 1 slotFree o).
  destruct (invokeExtension zero ctx 1 slotFree o) as [v|e] eqn:Ei.
  2:{ split; [done|]. intros ((_ & H1 & _ & Hd) & -> & _ & (f & [= <-] & Ho) & _).
      destruct (Hinv r) as [_ H]. discriminate H. split; [done|]. split; [done|]. left. done. }
  destruct (proj1 (Hinv v) eq_refl) as (H1 & -> & [[Hd Ho]|(Hd & _ & ->)]).
  2:{ cbn. split; [done|]. intros ((_ & _ & _ & Hd') & _). congruence. }
  destruct (DelegationVerificationResult_valid v) eqn:Hv; cbn [negb].
  - split.
    + intros [= <-]. repeat split; auto. by exists verify.
    + intros (_ & _ & _ & (f & [= <-] & Hr) & _). unfold o in Ho. congruence.
  - split; [done|]. intros (_ & _ & _ & (f & [= <-] & Hr) & Hv'). unfold o in Ho. congruence.
Qed.

Lemma delivery_failed_valid reason :
  validIdentifier reason = true -> DecisionDelivery_valid (delivery_failed reason) = true.
Proof.
  unfold delivery_failed, NewDecisionDelivery, validIdentifier. simpl.
  destruct (validateIdentifier reason) eqn:E; [|done]. intros _. cbn. unfold DecisionDelivery_valid, validIdentifier.
  cbn [dd_status dd_reasonCode]. by rewrite E.
Qed.

(** Whatever the sink does, the delivery report is well formed. *)
Lemma delivery_valid ctx slotFree sink event :
  DecisionDelivery_valid (DeliverDecisionEvent ctx slotFree sink event) = true.
Proof.
  assert (C : forall e, DecisionDelivery_valid (context_failure e) = true).
  { intros e. unfold context_failure. case_bool_decide; by apply delivery_failed_valid. }
  unfold DeliverDecisionEvent.
  destruct (contextEngineError (ctx_err ctx 0)); [done|]. destruct sink; [|by apply delivery_failed_valid].
  destruct (CompletedDecisionEvent_valid event); cbn [negb]; [|by apply delivery_failed_valid].
  destruct (contextEngineError (ctx_err ctx 3)); [done|].
  destruct (invokeExtension _ _ _ _ _) as [d|e].
  - destruct (DecisionDelivery_valid d) eqn:E; cbn [negb]; [done|by apply delivery_failed_valid].
  - repeat (destruct (isEngineCategory e _); [by apply delivery_failed_valid|]). by apply delivery_failed_valid.
Qed.
