(* ===== verification/Recency.v ===== *)
(** Recency lists (container/list as the caches use it): a linked list of the
    resident keys, most recent first, kept in step with a map. *)

From Stdlib Require Import ZArith Lia.
From stdpp Require Import base list gmap fin_maps.

Section Recency.
Context {K V : Type} `{Countable K}.
Implicit Types (k : K) (l : list K) (m : gmap K V).

(** [recency.Remove], [recency.MoveToFront] and [recency.PushFront]. *)
Definition remove_key k l : list K := filter (fun x => x <> k) l.
Definition move_front k l : list K := k :: remove_key k l.

(** The list holds exactly the keys of the map, each once. *)
Record recency_ok m l : Prop := {
  rk_nodup : NoDup l;
  rk_keys : forall k, k ∈ l <-> is_Some (m !! k)
}.

Lemma remove_key_nodup k l : NoDup l -> NoDup (remove_key k l).
Proof. apply NoDup_filter. Qed.

Lemma remove_key_elem k x l : x ∈ remove_key k l <-> x ∈ l /\ x <> k.
Proof. unfold remove_key. rewrite list_elem_of_filter. tauto. Qed.

Lemma recency_delete m l k : recency_ok m l -> recency_ok (delete k m) (remove_key k l).
Proof.
  intros [Hn Hk]. split; [by apply remove_key_nodup|].
  intros x. rewrite remove_key_elem, Hk, lookup_delete_is_Some. naive_solver.
Qed.

Lemma recency_move m l k : recency_ok m l -> is_Some (m !! k) -> recency_ok m (move_front k l).
Proof.
  intros [Hn Hk] Hp. split.
  - constructor; [rewrite remove_key_elem; naive_solver|by apply remove_key_nodup].
  - intros x. unfold move_front. rewrite elem_of_cons, remove_key_elem, Hk.
    destruct (decide (x = k)) as [->|]; naive_solver.
Qed.

Lemma recency_update m l k v : recency_ok m l -> is_Some (m !! k) -> recency_ok (<[k := v]> m) l.
Proof.
  intros [Hn Hk] Hp. split; [done|]. intros x. rewrite Hk, lookup_insert_is_Some'. split; [auto|].
  by intros [<-|?].
Qed.

Lemma recency_push m l k v : recency_ok m l -> m !! k = None -> recency_ok (<[k := v]> m) (k :: l).
Proof.
  intros [Hn Hk] Hp. split.
  - constructor; [|done]. rewrite Hk, Hp. by intros [].
  - intros x. rewrite elem_of_cons, Hk, lookup_insert_is_Some'. naive_solver.
Qed.

(** An empty list means an empty map. *)
Lemma recency_nil m : recency_ok m [] -> m = ∅.
Proof.
  intros [_ Hk]. apply map_empty. intros k. destruct (m !! k) eqn:E; [|done].
  assert (Hin : k ∈ []) by (apply Hk; eauto). by apply elem_of_nil in Hin.
Qed.

Lemma recency_empty : recency_ok ∅ [].
Proof.
  split; [constructor|]. intros k. rewrite lookup_empty. split; [intros Hk; by apply elem_of_nil in Hk|by intros []].
Qed.
End Recency.
