(* ===== verification/PointerCache.v ===== *)
(** The slot-pointer cache (internal/cache/pointers.go).

    [entries] and [fills] are the maps of the source; [recency] is its linked
    list as the list of keys, most recent first. A fill reservation is
    identified by the address of its [pointerFillState]; the model draws a
    reference for it, so that a handle closed by [Complete] or [Cancel] never
    matches a later reservation of the same key. Every operation runs under
    the cache's mutex and is one transition. *)

From Stdlib Require Import ZArith Lia.
From stdpp Require Import base list gmap strings fin_maps.
From S2P Require Import Prelude Limits Recency.

Record SlotKey := mkSlotKey { sk_namespace : string; sk_slot : string }.
Record SlotPointer := mkSlotPointer { sp_revision : string; sp_generation : Z }.

#[global] Instance SlotKey_eq_dec : EqDecision SlotKey.
Proof. solve_decision. Defined.
#[global] Instance SlotPointer_eq_dec : EqDecision SlotPointer.
Proof. solve_decision. Defined.
#[global] Instance SlotKey_countable : Countable SlotKey.
Proof.
  apply (inj_countable' (fun k => (sk_namespace k, sk_slot k)) (fun p => mkSlotKey p.1 p.2)). by intros [].
Defined.

(** The package's error values. *)
Inductive PointerError :=
  | errInvalidSlotKey | errInvalidSlotPointer | errStalePointer | errPointerConflict
  | errPointerFillHit | errPointerFillBusy | errPointerFillLimit | errPointerFillClosed.

Definition NewSlotKey (namespace slot : string) : SlotKey + PointerError :=
  if bool_decide (namespace = ""%string) || bool_decide (slot = ""%string) then inr errInvalidSlotKey
  else inl (mkSlotKey namespace slot).
Definition SlotKey_valid (k : SlotKey) : bool :=
  bool_decide (sk_namespace k <> ""%string) && bool_decide (sk_slot k <> ""%string).

Definition NewSlotPointer (revision : string) (generation : Z) : SlotPointer + PointerError :=
  if bool_decide (revision = ""%string) || (generation =? 0) then inr errInvalidSlotPointer
  else inl (mkSlotPointer revision generation).
Definition SlotPointer_valid (p : SlotPointer) : bool :=
  bool_decide (sp_revision p <> ""%string) && negb (sp_generation p =? 0).

Record RevisionPin := mkRevisionPin {
  pin_namespace : string; pin_slot : string; pin_revision : string; pin_generation : Z }.

Record pointerFillState := mkFillState {
  fs_pending : SlotPointer; fs_hasPending : bool; fs_conflicted : bool }.
Definition zero_pointer : SlotPointer := mkSlotPointer "" 0.
Definition new_fill : pointerFillState := mkFillState zero_pointer false false.

(** [AuthoritativeFill]: the key and the identity of its state. *)
Record AuthoritativeFill := mkAuthoritativeFill { af_key : SlotKey; af_ref : nat }.

Record PointerCache := mkPointerCache {
  pc_maxEntries : Z;
  pc_entries : gmap SlotKey SlotPointer;
  pc_fills : gmap SlotKey (nat * pointerFillState);
  pc_recency : list SlotKey;
  pc_nextRef : nat }.

(** [None] is [errInvalidLimits]. *)
Definition NewPointerCache (maxEntries : Z) : option PointerCache :=
  if maxEntries <? 0 then None else Some (mkPointerCache maxEntries ∅ ∅ [] 0).

Definition with_entries e r (c : PointerCache) : PointerCache :=
  mkPointerCache (pc_maxEntries c) e (pc_fills c) r (pc_nextRef c).
Definition with_fills f (c : PointerCache) : PointerCache :=
  mkPointerCache (pc_maxEntries c) (pc_entries c) f (pc_recency c) (pc_nextRef c).

Definition evictOldestLocked (c : PointerCache) : PointerCache :=
  match last (pc_recency c) with
  | None => c
  | Some oldest => with_entries (delete oldest (pc_entries c)) (remove_key oldest (pc_recency c)) c
  end.

(** [None] is a nil error. *)
Definition updateResidentLocked (c : PointerCache) (key : SlotKey) (existing pointer : SlotPointer)
  : option PointerError * PointerCache :=
  if sp_generation pointer <? sp_generation existing then (Some errStalePointer, c)
  else if (sp_generation pointer =? sp_generation existing)
          && negb (bool_decide (sp_revision pointer = sp_revision existing)) then (Some errPointerConflict, c)
  else if sp_generation pointer =? sp_generation existing
  then (None, with_entries (pc_entries c) (move_front key (pc_recency c)) c)
  else (None, with_entries (<[key := pointer]> (pc_entries c)) (move_front key (pc_recency c)) c).

Definition updatePendingFill (fill : pointerFillState) (pointer : SlotPointer)
  : option PointerError * pointerFillState :=
  if fs_conflicted fill then (Some errPointerConflict, fill)
  else if negb (fs_hasPending fill) || (sp_generation (fs_pending fill) <? sp_generation pointer)
  then (None, mkFillState pointer true (fs_conflicted fill))
  else if sp_generation pointer <? sp_generation (fs_pending fill) then (Some errStalePointer, fill)
  else if negb (bool_decide (sp_revision pointer = sp_revision (fs_pending fill)))
  then (Some errPointerConflict, mkFillState (fs_pending fill) (fs_hasPending fill) true)
  else (None, fill).

Definition selectNewestPointer (authoritative : SlotPointer) (fill : pointerFillState)
  : SlotPointer + PointerError :=
  if negb (fs_hasPending fill) || (sp_generation (fs_pending fill) <? sp_generation authoritative)
  then inl authoritative
  else if sp_generation authoritative <? sp_generation (fs_pending fill) then inl (fs_pending fill)
  else if negb (bool_decide (sp_revision authoritative = sp_revision (fs_pending fill)))
  then inr errPointerConflict
  else inl authoritative.

(** [len(c.entries) + len(c.fills)] *)
Definition occupancy (c : PointerCache) : Z :=
  Z.of_nat (base.size (pc_entries c)) + Z.of_nat (base.size (pc_fills c)).

Definition admitPointerLocked (c : PointerCache) (key : SlotKey) (pointer : SlotPointer) : PointerCache :=
  if pc_maxEntries c =? 0 then c
  else
    let c := if occupancy c =? pc_maxEntries c then evictOldestLocked c else c in
    with_entries (<[key := pointer]> (pc_entries c)) (key :: pc_recency c) c.

Definition UpdateCommitted (key : SlotKey) (pointer : SlotPointer) (c : PointerCache)
  : option PointerError * PointerCache :=
  if negb (SlotKey_valid key) then (Some errInvalidSlotKey, c)
  else if negb (SlotPointer_valid pointer) then (Some errInvalidSlotPointer, c)
  else match pc_entries c !! key with
  | Some existing => updateResidentLocked c key existing pointer
  | None =>
      match pc_fills c !! key with
      | Some (ref, fill) =>
          let '(err, fill) := updatePendingFill fill pointer in
          (err, with_fills (<[key := (ref, fill)]> (pc_fills c)) c)
      | None => (None, c)
      end
  end.

Definition BeginAuthoritativeFill (key : SlotKey) (c : PointerCache)
  : (AuthoritativeFill + PointerError) * PointerCache :=
  if negb (SlotKey_valid key) then (inr errInvalidSlotKey, c)
  else match pc_entries c !! key with
  | Some _ => (inr errPointerFillHit, c)
  | None =>
      if pc_maxEntries c =? 0 then (inr errPointerFillLimit, c)
      else match pc_fills c !! key with
      | Some _ => (inr errPointerFillBusy, c)
      | None =>
          let full := occupancy c =? pc_maxEntries c in
          if full && (Z.of_nat (base.size (pc_entries c)) =? 0) then (inr errPointerFillLimit, c)
          else
            let c := if full then evictOldestLocked c else c in
            let ref := pc_nextRef c in
            (inl (mkAuthoritativeFill key ref),
             mkPointerCache (pc_maxEntries c) (pc_entries c) (<[key := (ref, new_fill)]> (pc_fills c))
               (pc_recency c) (S ref))
      end
  end.

(** A handle made by [BeginAuthoritativeFill] has a cache, a state and a valid
    key; the zero handle is refused before the lock and is left out. *)
Definition Complete (f : AuthoritativeFill) (pointer : SlotPointer) (c : PointerCache)
  : option PointerError * PointerCache :=
  match pc_fills c !! af_key f with
  | None => (Some errPointerFillClosed, c)
  | Some (ref, state) =>
      if negb (ref =? af_ref f)%nat then (Some errPointerFillClosed, c)
      else
        let c := with_fills (delete (af_key f) (pc_fills c)) c in
        if negb (SlotPointer_valid pointer) then (Some errInvalidSlotPointer, c)
        else if fs_conflicted state then (Some errPointerConflict, c)
        else match selectNewestPointer pointer state with
        | inr err => (Some err, c)
        | inl selected => (None, admitPointerLocked c (af_key f) selected)
        end
  end.

Definition Cancel (f : AuthoritativeFill) (c : PointerCache) : PointerCache :=
  match pc_fills c !! af_key f with
  | Some (ref, _) =>
      if (ref =? af_ref f)%nat then with_fills (delete (af_key f) (pc_fills c)) c else c
  | None => c
  end.

Definition Pin (key : SlotKey) (c : PointerCache) : option RevisionPin * PointerCache :=
  if negb (SlotKey_valid key) then (None, c)
  else match pc_entries c !! key with
  | None => (None, c)
  | Some p =>
      (Some (mkRevisionPin (sk_namespace key) (sk_slot key) (sp_revision p) (sp_generation p)),
       with_entries (pc_entries c) (move_front key (pc_recency c)) c)
  end.

(** * Runs of the cache *)

Definition tracked (c : PointerCache) (k : SlotKey) : Prop :=
  is_Some (pc_entries c !! k) \/ is_Some (pc_fills c !! k).
#[global] Instance tracked_dec c k : Decision (tracked c k).
Proof. unfold tracked. apply _. Defined.

(** What a run remembers of its callers: for every key that is resident or
    being filled, the highest generation reported by [UpdateCommitted] since
    the key became so; and every pointer any caller supplied. *)
Record history := mkHistory { h_floor : gmap SlotKey Z; h_given : list (SlotKey * SlotPointer) }.

Definition keep_tracked (c : PointerCache) (m : gmap SlotKey Z) : gmap SlotKey Z :=
  filter (fun kv => tracked c kv.1) m.
Definition raise_floor (k : SlotKey) (generation : Z) (m : gmap SlotKey Z) : gmap SlotKey Z :=
  <[k := Z.max generation (default generation (m !! k))]> m.

Inductive pointer_step : PointerCache * history -> PointerCache * history -> Prop :=
  | step_update c h k p :
      let c' := snd (UpdateCommitted k p c) in
      pointer_step (c, h)
        (c', mkHistory (keep_tracked c' (if SlotKey_valid k && SlotPointer_valid p
                                         then raise_floor k (sp_generation p) (h_floor h) else h_floor h))
               ((k, p) :: h_given h))
  | step_begin c h k :
      let c' := snd (BeginAuthoritativeFill k c) in
      pointer_step (c, h) (c', mkHistory (keep_tracked c' (h_floor h)) (h_given h))
  | step_complete c h f p :
      let c' := snd (Complete f p c) in
      pointer_step (c, h) (c', mkHistory (keep_tracked c' (h_floor h)) ((af_key f, p) :: h_given h))
  | step_cancel c h f :
      let c' := Cancel f c in
      pointer_step (c, h) (c', mkHistory (keep_tracked c' (h_floor h)) (h_given h))
  | step_pin c h k :
      let c' := snd (Pin k c) in
      pointer_step (c, h) (c', mkHistory (keep_tracked c' (h_floor h)) (h_given h)).

(** * Invariants *)

(** The list and the two maps agree, and the bound is honoured. *)
Record cache_ok (c : PointerCache) : Prop := {
  ck_recency : recency_ok (pc_entries c) (pc_recency c);
  ck_bound : occupancy c <= pc_maxEntries c;
  ck_disjoint : forall k, is_Some (pc_entries c !! k) -> pc_fills c !! k = None
}.

(** Generations never go below what was reported, and nothing is invented. *)
Record history_ok (c : PointerCache) (h : history) : Prop := {
  ho_tracked : forall k m, h_floor h !! k = Some m -> tracked c k;
  ho_entry : forall k p, pc_entries c !! k = Some p ->
    (forall m, h_floor h !! k = Some m -> m <= sp_generation p) /\ (k, p) ∈ h_given h;
  ho_fill : forall k ref st, pc_fills c !! k = Some (ref, st) ->
    fs_conflicted st = true \/
    (if fs_hasPending st
     then (forall m, h_floor h !! k = Some m -> m <= sp_generation (fs_pending st)) /\ (k, fs_pending st) ∈ h_given h
     else h_floor h !! k = None)
}.

Lemma evict_ok c : cache_ok c -> cache_ok (evictOldestLocked c).
Proof.
  intros [Hk Hb Hd]. unfold evictOldestLocked. destruct (last (pc_recency c)) as [oldest|] eqn:El; [|done].
  assert (Ho : oldest ∈ pc_recency c) by (by apply last_Some_elem_of).
  apply (rk_keys _ _ Hk) in Ho as [p Hp]. split; cbn [with_entries pc_recency pc_entries pc_fills pc_maxEntries].
  - by apply recency_delete.
  - unfold occupancy in *. cbn [with_entries pc_entries pc_fills]. rewrite map_size_delete_Some by eauto. lia.
  - intros k [_ H]%lookup_delete_is_Some. auto.
Qed.

(** Eviction of a non-empty full cache frees exactly one place. *)
Lemma evict_frees c :
  cache_ok c -> 0 < Z.of_nat (base.size (pc_entries c)) -> occupancy (evictOldestLocked c) = occupancy c - 1.
Proof.
  intros [Hk Hb Hd] Hs. unfold evictOldestLocked. destruct (last (pc_recency c)) as [oldest|] eqn:El.
  - assert (Ho : oldest ∈ pc_recency c) by (by apply last_Some_elem_of). apply (rk_keys _ _ Hk) in Ho as [p Hp].
    unfold occupancy. cbn [with_entries pc_entries pc_fills]. rewrite map_size_delete_Some by eauto.
    assert (base.size (pc_entries c) <> 0)%nat by lia. lia.
  - exfalso. apply last_None in El. rewrite El in Hk. apply recency_nil in Hk as E.
    rewrite E, map_size_empty in Hs. lia.
Qed.

Lemma evict_sub c k : is_Some (pc_entries (evictOldestLocked c) !! k) -> pc_entries (evictOldestLocked c) !! k = pc_entries c !! k.
Proof.
  unfold evictOldestLocked. destruct (last (pc_recency c)); [|done]. cbn [with_entries pc_entries].
  intros [Hne _]%lookup_delete_is_Some. by rewrite lookup_delete_ne.
Qed.
Lemma evict_fills c : pc_fills (evictOldestLocked c) = pc_fills c /\ pc_maxEntries (evictOldestLocked c) = pc_maxEntries c.
Proof. unfold evictOldestLocked. by destruct (last (pc_recency c)). Qed.

Lemma move_front_ok c k :
  cache_ok c -> is_Some (pc_entries c !! k) ->
  cache_ok (with_entries (pc_entries c) (move_front k (pc_recency c)) c).
Proof.
  intros [Hk Hb Hd] Hp. split; cbn [with_entries pc_recency pc_entries pc_fills pc_maxEntries]; auto.
  by apply recency_move.
Qed.

Lemma replace_ok c k p :
  cache_ok c -> is_Some (pc_entries c !! k) ->
  cache_ok (with_entries (<[k := p]> (pc_entries c)) (move_front k (pc_recency c)) c).
Proof.
  intros Hc Hp. destruct (move_front_ok c k Hc Hp) as [Hk Hb Hd]. destruct Hc as [_ Hb0 Hd0].
  split; cbn [with_entries pc_recency pc_entries pc_fills pc_maxEntries] in *; auto.
  - by apply recency_update.
  - unfold occupancy in *. cbn [with_entries pc_entries pc_fills] in *. destruct Hp as [q Hq].
    rewrite map_size_insert_Some by eauto. lia.
  - intros x. destruct (decide (x = k)) as [->|]; [intros _; auto|rewrite lookup_insert_ne by done; auto].
Qed.

Lemma fills_insert_ok c k ref st :
  cache_ok c -> is_Some (pc_fills c !! k) -> cache_ok (with_fills (<[k := (ref, st)]> (pc_fills c)) c).
Proof.
  intros [Hk Hb Hd] [q Hq]. split; cbn [with_fills pc_recency pc_entries pc_fills pc_maxEntries]; auto.
  - unfold occupancy in *. cbn [with_fills pc_entries pc_fills]. rewrite map_size_insert_Some by eauto. lia.
  - intros x Hx. rewrite lookup_insert_ne; [auto|]. intros ->. rewrite Hd in Hq; done.
Qed.

Lemma fills_delete_ok c k : cache_ok c -> cache_ok (with_fills (delete k (pc_fills c)) c).
Proof.
  intros [Hk Hb Hd]. split; cbn [with_fills pc_recency pc_entries pc_fills pc_maxEntries]; auto.
  - unfold occupancy in *. cbn [with_fills pc_entries pc_fills].
    assert (base.size (delete k (pc_fills c)) <= base.size (pc_fills c))%nat; [|lia].
    apply map_subseteq_size, delete_subseteq.
  - intros x Hx. apply lookup_delete_None. auto.
Qed.

Lemma admit_ok c k p :
  cache_ok c -> pc_entries c !! k = None -> pc_fills c !! k = None -> occupancy c < pc_maxEntries c ->
  admitPointerLocked c k p = with_entries (<[k := p]> (pc_entries c)) (k :: pc_recency c) c /\
  cache_ok (admitPointerLocked c k p).
Proof.
  intros [Hk Hb Hd] He Hf Hlt. unfold admitPointerLocked.
  assert (0 <= occupancy c) by (unfold occupancy; lia).
  destruct (Z.eqb_spec (pc_maxEntries c) 0); [lia|]. destruct (Z.eqb_spec (occupancy c) (pc_maxEntries c)); [lia|].
  split; [done|]. split; cbn [with_entries pc_recency pc_entries pc_fills pc_maxEntries].
  - by apply recency_push.
  - unfold occupancy in *. cbn [with_entries pc_entries pc_fills]. rewrite map_size_insert_None by done. lia.
  - intros x. destruct (decide (x = k)) as [->|Hne]; [done|]. rewrite lookup_insert_ne by done. auto.
Qed.

Lemma keep_tracked_lookup c m k v : keep_tracked c m !! k = Some v <-> m !! k = Some v /\ tracked c k.
Proof. unfold keep_tracked. by rewrite map_lookup_filter_Some. Qed.

(** A transition that only forgets keeps the history. *)
Lemma history_frame c c' h extra :
  (forall k p, pc_entries c' !! k = Some p -> pc_entries c !! k = Some p) ->
  (forall k x, pc_fills c' !! k = Some x -> pc_fills c !! k = Some x) ->
  history_ok c h -> history_ok c' (mkHistory (keep_tracked c' (h_floor h)) (extra ++ h_given h)).
Proof.
  intros He Hf [H1 H2 H3]. split; cbn [h_floor h_given].
  - intros k m Hm. by apply keep_tracked_lookup in Hm as [_ ?].
  - intros k p Hp. destruct (H2 k p (He k p Hp)) as [Ha Hb]. split; [|apply elem_of_app; by right].
    intros m Hm. apply keep_tracked_lookup in Hm as [Hm _]. auto.
  - intros k ref st Hs. destruct (H3 k ref st (Hf k _ Hs)) as [|H]; [by left|right].
    destruct (fs_hasPending st).
    + destruct H as [Ha Hb]. split; [|apply elem_of_app; by right]. intros m Hm.
      apply keep_tracked_lookup in Hm as [Hm _]. auto.
    + apply eq_None_not_Some. intros [m Hm]. apply keep_tracked_lookup in Hm as [Hm _]. congruence.
Qed.

Lemma raise_floor_lookup k g m k' v :
  raise_floor k g m !! k' = Some v <->
  (k' = k /\ v = Z.max g (default g (m !! k))) \/ (k' <> k /\ m !! k' = Some v).
Proof.
  unfold raise_floor. destruct (decide (k' = k)) as [->|Hne].
  - rewrite lookup_insert_eq. naive_solver.
  - rewrite lookup_insert_ne by done. naive_solver.
Qed.

(** A report [p] for [k] raises the floor of [k]; the new content of [k] must
    stand at or above it, everything else is as before. *)
Lemma history_raise c c' h k p :
  (forall k' q, k' <> k -> pc_entries c' !! k' = Some q -> pc_entries c !! k' = Some q) ->
  (forall k' x, k' <> k -> pc_fills c' !! k' = Some x -> pc_fills c !! k' = Some x) ->
  (forall q, pc_entries c' !! k = Some q ->
     (forall m, h_floor h !! k = Some m -> m <= sp_generation q) /\ sp_generation p <= sp_generation q /\
     ((k, q) ∈ h_given h \/ q = p)) ->
  (forall ref st, pc_fills c' !! k = Some (ref, st) -> fs_conflicted st = true \/
     (fs_hasPending st = true /\ (forall m, h_floor h !! k = Some m -> m <= sp_generation (fs_pending st)) /\
      sp_generation p <= sp_generation (fs_pending st) /\ ((k, fs_pending st) ∈ h_given h \/ fs_pending st = p))) ->
  history_ok c h ->
  history_ok c' (mkHistory (keep_tracked c' (raise_floor k (sp_generation p) (h_floor h))) ((k, p) :: h_given h)).
Proof.
  intros He Hf Hek Hfk [H1 H2 H3].
  assert (Hfloor : forall g m, (forall m, h_floor h !! k = Some m -> m <= g) -> sp_generation p <= g ->
    keep_tracked c' (raise_floor k (sp_generation p) (h_floor h)) !! k = Some m -> m <= g).
  { intros g m Hg Hp Hm.
    apply keep_tracked_lookup in Hm as [Hm _]. apply raise_floor_lookup in Hm as [[_ ->]|[Hne _]]; [|done].
    destruct (h_floor h !! k) as [m0|] eqn:E; simpl; [specialize (Hg m0 eq_refl)|]; lia. }
  assert (Hother : forall k' m, k' <> k ->
    keep_tracked c' (raise_floor k (sp_generation p) (h_floor h)) !! k' = Some m -> h_floor h !! k' = Some m).
  { intros k' m Hne Hm. apply keep_tracked_lookup in Hm as [Hm _].
    by apply raise_floor_lookup in Hm as [[Heq _]|[_ Hm]]. }
  split; cbn [h_floor h_given].
  - intros k' m Hm. by apply keep_tracked_lookup in Hm as [_ ?].
  - intros k' q Hq. destruct (decide (k' = k)) as [->|Hne].
    + destruct (Hek q Hq) as (Ha & Hb & Hc). split; [eauto|]. rewrite elem_of_cons. destruct Hc as [ | -> ]; auto.
    + destruct (H2 k' q (He k' q Hne Hq)) as [Ha Hb]. split; [eauto|by right].
  - intros k' ref st Hs. destruct (decide (k' = k)) as [->|Hne].
    + destruct (Hfk ref st Hs) as [|(Hp & Ha & Hb & Hc)]; [by left|right]. rewrite Hp. split; [eauto|].
      rewrite elem_of_cons. destruct Hc as [ | -> ]; auto.
    + destruct (H3 k' ref st (Hf k' _ Hne Hs)) as [|H]; [by left|right]. destruct (fs_hasPending st).
      * destruct H as [Ha Hb]. split; [eauto|by right].
      * apply eq_None_not_Some. intros [m Hm]. apply Hother in Hm; [congruence|done].
Qed.

(** * Every operation preserves both *)

Definition run_ok (s : PointerCache * history) : Prop := cache_ok s.1 /\ history_ok s.1 s.2.

Lemma update_ok c h k p :
  cache_ok c -> history_ok c h -> SlotKey_valid k = true -> SlotPointer_valid p = true ->
  let c' := snd (UpdateCommitted k p c) in
  cache_ok c' /\ history_ok c' (mkHistory (keep_tracked c' (raise_floor k (sp_generation p) (h_floor h))) ((k, p) :: h_given h)).
Proof.
  intros Hc Hh Hk Hp. unfold UpdateCommitted. rewrite Hk, Hp. cbn [negb].
  destruct (pc_entries c !! k) as [existing|] eqn:Ee.
  - assert (Hd := ck_disjoint c Hc k ltac:(eauto)). destruct (ho_entry _ _ Hh k existing Ee) as [Hfl Hgi].
    unfold updateResidentLocked.
    destruct (Z.ltb_spec (sp_generation p) (sp_generation existing)).
    { cbn [snd]. split; [done|]. apply (history_raise c); auto.
      - intros q Hq. rewrite Ee in Hq. injection Hq as <-. repeat split; auto. lia.
      - intros ref st Hs. congruence. }
    destruct ((sp_generation p =? sp_generation existing) && _) eqn:Eq.
    { apply andb_true_iff in Eq as [Eq%Z.eqb_eq _]. cbn [snd]. split; [done|]. apply (history_raise c); auto.
      - intros q Hq. rewrite Ee in Hq. injection Hq as <-. repeat split; auto. lia.
      - intros ref st Hs. congruence. }
    destruct (Z.eqb_spec (sp_generation p) (sp_generation existing)).
    { cbn [snd]. split; [apply move_front_ok; eauto|]. apply (history_raise c); auto; cbn [with_entries pc_entries pc_fills].
      - intros q Hq. rewrite Ee in Hq. injection Hq as <-. repeat split; auto. lia.
      - intros ref st Hs. congruence. }
    cbn [snd]. split; [apply replace_ok; eauto|]. apply (history_raise c); auto; cbn [with_entries pc_entries pc_fills].
    + intros k' q Hne Hq. by rewrite lookup_insert_ne in Hq.
    + intros q Hq. rewrite lookup_insert_eq in Hq. injection Hq as <-. repeat split; [|lia|by right].
      intros m Hm. specialize (Hfl m Hm). lia.
    + intros ref st Hs. congruence.
  - destruct (pc_fills c !! k) as [[ref st]|] eqn:Ef.
    2:{ cbn [snd]. split; [done|]. apply (history_raise c); auto; congruence. }
    destruct (updatePendingFill st p) as [err st'] eqn:Eu. cbn [snd]. split; [apply fills_insert_ok; eauto|].
    apply (history_raise c); auto; cbn [with_fills pc_entries pc_fills].
    + intros k' x Hne Hx. by rewrite lookup_insert_ne in Hx.
    + intros q Hq. congruence.
    + intros ref' st0 Hs. rewrite lookup_insert_eq in Hs. injection Hs as <- <-.
      assert (Hfill := ho_fill _ _ Hh k ref st Ef). unfold updatePendingFill in Eu.
      destruct (fs_conflicted st) eqn:Ec; [injection Eu as _ <-; by left|].
      destruct Hfill as [|Hfill]; [congruence|].
      destruct (fs_hasPending st) eqn:Ep; cbn [negb orb] in Eu.
      2:{ injection Eu as _ <-. right. cbn. repeat split; [|lia|by right]. intros m Hm. congruence. }
      destruct Hfill as [Ha Hb].
      destruct (Z.ltb_spec (sp_generation (fs_pending st)) (sp_generation p)).
      { injection Eu as _ <-. right. cbn. repeat split; [|lia|by right]. intros m Hm. specialize (Ha m Hm). lia. }
      destruct (Z.ltb_spec (sp_generation p) (sp_generation (fs_pending st))).
      { injection Eu as _ <-. right. repeat split; auto; lia. }
      destruct (bool_decide _); injection Eu as _ <-; [right; repeat split; auto; lia|by left].
Qed.

(** Opening a reservation where there is room. *)
Lemma open_fill_ok c h k ref :
  cache_ok c -> pc_entries c !! k = None -> pc_fills c !! k = None -> occupancy c < pc_maxEntries c ->
  h_floor h !! k = None ->
  (forall x p, pc_entries c !! x = Some p ->
    (forall m, h_floor h !! x = Some m -> m <= sp_generation p) /\ (x, p) ∈ h_given h) ->
  (forall x r st, pc_fills c !! x = Some (r, st) -> fs_conflicted st = true \/
    (if fs_hasPending st
     then (forall m, h_floor h !! x = Some m -> m <= sp_generation (fs_pending st)) /\ (x, fs_pending st) ∈ h_given h
     else h_floor h !! x = None)) ->
  let c' := mkPointerCache (pc_maxEntries c) (pc_entries c) (<[k := (ref, new_fill)]> (pc_fills c)) (pc_recency c) (S ref) in
  cache_ok c' /\ history_ok c' (mkHistory (keep_tracked c' (h_floor h)) (h_given h)).
Proof.
  intros [Hk Hb Hd] Ee Ef Hlt Hfl H2 H3. split.
  - split; cbn [pc_recency pc_entries pc_fills pc_maxEntries]; auto.
    + unfold occupancy in *. cbn [pc_entries pc_fills]. rewrite map_size_insert_None by done. lia.
    + intros x Hx. rewrite lookup_insert_ne; [auto|]. intros ->. rewrite Ee in Hx. by destruct Hx.
  - split; cbn [h_floor h_given pc_entries pc_fills].
    + intros x m Hm. by apply keep_tracked_lookup in Hm as [_ ?].
    + intros x p Hp. destruct (H2 x p Hp) as [Ha Hb']. split; [|done]. intros m Hm.
      apply keep_tracked_lookup in Hm as [Hm _]. auto.
    + intros x r st Hs. destruct (decide (x = k)) as [->|Hne].
      * rewrite lookup_insert_eq in Hs. injection Hs as <- <-. right. cbn.
        apply eq_None_not_Some. intros [m Hm]. apply keep_tracked_lookup in Hm as [Hm _]. congruence.
      * rewrite lookup_insert_ne in Hs by done. destruct (H3 x r st Hs) as [|H]; [by left|right].
        destruct (fs_hasPending st).
        -- destruct H as [Ha Hb']. split; [|done]. intros m Hm. apply keep_tracked_lookup in Hm as [Hm _]. auto.
        -- apply eq_None_not_Some. intros [m Hm]. apply keep_tracked_lookup in Hm as [Hm _]. congruence.
Qed.

Lemma begin_ok c h k :
  cache_ok c -> history_ok c h ->
  let c' := snd (BeginAuthoritativeFill k c) in
  cache_ok c' /\ history_ok c' (mkHistory (keep_tracked c' (h_floor h)) (h_given h)).
Proof.
  intros Hc Hh. assert (Hsame : cache_ok c /\ history_ok c (mkHistory (keep_tracked c (h_floor h)) (h_given h))).
  { split; [done|]. by apply (history_frame c c h []). }
  unfold BeginAuthoritativeFill. destruct (SlotKey_valid k); cbn [negb]; [|done].
  destruct (pc_entries c !! k) eqn:Ee; [done|]. destruct (Z.eqb_spec (pc_maxEntries c) 0); [done|].
  destruct (pc_fills c !! k) eqn:Ef; [done|].
  assert (Hfl : h_floor h !! k = None).
  { apply eq_None_not_Some. intros [m Hm]. apply (ho_tracked _ _ Hh) in Hm as [[? ?]|[? ?]]; congruence. }
  assert (Hb := ck_bound c Hc). assert (Hs0 : 0 <= Z.of_nat (base.size (pc_entries c))) by lia.
  destruct (Z.eqb_spec (occupancy c) (pc_maxEntries c)) as [Efull|Efull]; cbn [andb].
  - destruct (Z.eqb_spec (Z.of_nat (base.size (pc_entries c))) 0); [done|]. cbn [snd].
    destruct (evict_fills c) as [E1 E2]. assert (Hf := evict_frees c Hc ltac:(lia)).
    assert (Hent : forall x p, pc_entries (evictOldestLocked c) !! x = Some p -> pc_entries c !! x = Some p).
    { intros x p Hp. rewrite <- (evict_sub c x) by eauto. done. }
    apply open_fill_ok; auto using evict_ok.
    + destruct (pc_entries (evictOldestLocked c) !! k) eqn:E; [|done]. apply Hent in E. congruence.
    + by rewrite E1.
    + rewrite E2, Hf. lia.
    + intros x p Hp. by apply (ho_entry _ _ Hh), Hent.
    + rewrite E1. apply (ho_fill _ _ Hh).
  - cbn [snd]. apply open_fill_ok; auto; [lia|apply (ho_entry _ _ Hh)|apply (ho_fill _ _ Hh)].
Qed.

Lemma complete_ok c h f p :
  cache_ok c -> history_ok c h ->
  let c' := snd (Complete f p c) in
  cache_ok c' /\ history_ok c' (mkHistory (keep_tracked c' (h_floor h)) ((af_key f, p) :: h_given h)).
Proof.
  intros Hc Hh. set (extra := [(af_key f, p)]).
  assert (Hsame : cache_ok c /\ history_ok c (mkHistory (keep_tracked c (h_floor h)) (extra ++ h_given h))).
  { split; [done|]. by apply history_frame with c. }
  unfold Complete. destruct (pc_fills c !! af_key f) as [[ref st]|] eqn:Ef; [|done].
  destruct (ref =? af_ref f)%nat; cbn [negb]; [|done].
  set (c1 := with_fills (delete (af_key f) (pc_fills c)) c).
  assert (Hc1 : cache_ok c1) by (by apply fills_delete_ok).
  assert (Hf1 : forall k x, pc_fills c1 !! k = Some x -> pc_fills c !! k = Some x).
  { intros k x Hx. unfold c1 in Hx. cbn [with_fills pc_fills] in Hx. by apply lookup_delete_Some in Hx as [_ ?]. }
  assert (Hdrop : cache_ok c1 /\ history_ok c1 (mkHistory (keep_tracked c1 (h_floor h)) (extra ++ h_given h))).
  { split; [done|]. by apply history_frame with c. }
  destruct (SlotPointer_valid p); cbn [negb]; [|done].
  destruct (fs_conflicted st) eqn:Econf; [done|].
  destruct (selectNewestPointer p st) as [selected|err] eqn:Esel; [|done]. cbn [snd].
  assert (Hnone : pc_entries c !! af_key f = None).
  { destruct (pc_entries c !! af_key f) eqn:E; [|done]. rewrite (ck_disjoint c Hc) in Ef; [done|eauto]. }
  destruct (admit_ok c1 (af_key f) selected) as [Ead Hok]; auto.
  { apply lookup_delete_eq. }
  { unfold occupancy, c1. cbn [with_fills pc_entries pc_fills]. rewrite map_size_delete_Some by eauto.
    assert (Hb := ck_bound c Hc). unfold occupancy in Hb.
    assert (base.size (pc_fills c) <> 0)%nat by (intros E%map_size_empty_inv; rewrite E in Ef; done). cbn. lia. }
  split; [done|]. rewrite Ead.
  destruct (ho_fill _ _ Hh _ _ _ Ef) as [|Hfill]; [congruence|].
  assert (Hsel : (forall m, h_floor h !! af_key f = Some m -> m <= sp_generation selected) /\
    (af_key f, selected) ∈ extra ++ h_given h).
  { unfold selectNewestPointer in Esel. destruct (fs_hasPending st); cbn [negb orb] in Esel.
    - destruct Hfill as [Ha Hb]. destruct (Z.ltb_spec (sp_generation (fs_pending st)) (sp_generation p)).
      { injection Esel as <-. split; [intros m Hm; specialize (Ha m Hm); lia|left]. }
      destruct (Z.ltb_spec (sp_generation p) (sp_generation (fs_pending st))).
      { injection Esel as <-. split; [done|by right]. }
      destruct (bool_decide _); [|done]. injection Esel as <-.
      split; [intros m Hm; specialize (Ha m Hm); lia|left].
    - injection Esel as <-. split; [intros m Hm; congruence|left]. }
  set (c2 := with_entries _ _ c1). change (extra ++ h_given h) with ((af_key f, p) :: h_given h) in Hsel.
  split; cbn [h_floor h_given].
  - intros k m Hm. by apply keep_tracked_lookup in Hm as [_ ?].
  - intros k q Hq. cbn [c2 with_entries pc_entries] in Hq. destruct (decide (k = af_key f)) as [->|Hne].
    + rewrite lookup_insert_eq in Hq. injection Hq as <-. destruct Hsel as [Ha Hb]. split; [|done].
      intros m Hm. apply keep_tracked_lookup in Hm as [Hm _]. auto.
    + rewrite lookup_insert_ne in Hq by done. destruct (ho_entry _ _ Hh k q Hq) as [Ha Hb]. split; [|by right].
      intros m Hm. apply keep_tracked_lookup in Hm as [Hm _]. auto.
  - intros k r s Hs. cbn [c2 with_entries pc_fills] in Hs. apply Hf1 in Hs.
    destruct (ho_fill _ _ Hh k r s Hs) as [|H]; [by left|right]. destruct (fs_hasPending s).
    + destruct H as [Ha Hb]. split; [|by right]. intros m Hm. apply keep_tracked_lookup in Hm as [Hm _]. auto.
    + apply eq_None_not_Some. intros [m Hm]. apply keep_tracked_lookup in Hm as [Hm _]. congruence.
Qed.

Lemma pointer_step_ok s s' : run_ok s -> pointer_step s s' -> run_ok s'.
Proof.
  intros [Hc Hh] Hs. destruct Hs as [c h k p c'|c h k c'|c h f p c'|c h f c'|c h k c']; cbn [fst snd] in *.
  - destruct (SlotKey_valid k) eqn:Hk; [destruct (SlotPointer_valid p) eqn:Hp|]; cbn [andb].
    + by apply update_ok.
    + assert (c' = c) as -> by (unfold c', UpdateCommitted; by rewrite Hk, Hp).
      split; [done|]. by apply (history_frame c c h [(k, p)]).
    + assert (c' = c) as -> by (unfold c', UpdateCommitted; by rewrite Hk).
      split; [done|]. by apply (history_frame c c h [(k, p)]).
  - by apply begin_ok.
  - by apply complete_ok.
  - assert (Hf : forall x y, pc_fills c' !! x = Some y -> pc_fills c !! x = Some y).
    { unfold c', Cancel. destruct (pc_fills c !! af_key f) as [[ref st]|]; [|done].
      destruct (ref =? af_ref f)%nat; [|done]. intros x y Hx. cbn [with_fills pc_fills] in Hx.
      by apply lookup_delete_Some in Hx as [_ ?]. }
    split; cbn [fst snd].
    + unfold c', Cancel. destruct (pc_fills c !! af_key f) as [[ref st]|]; [|done].
      destruct (ref =? af_ref f)%nat; [by apply fills_delete_ok|done].
    + apply (history_frame c c' h []); auto. intros x p. unfold c', Cancel.
      destruct (pc_fills c !! af_key f) as [[ref st]|]; [|done]. by destruct (ref =? af_ref f)%nat.
  - split; cbn [fst snd].
    + unfold c', Pin. destruct (SlotKey_valid k); [|done]. cbn [negb].
      destruct (pc_entries c !! k) eqn:E; [|done]. cbn [snd]. apply move_front_ok; eauto.
    + apply (history_frame c c' h []); auto; intros x y; unfold c', Pin;
        (destruct (SlotKey_valid k); [|done]); by destruct (pc_entries c !! k).
Qed.

Lemma new_cache_ok maxEntries c : NewPointerCache maxEntries = Some c -> run_ok (c, mkHistory ∅ []).
Proof.
  unfold NewPointerCache. destruct (Z.ltb_spec maxEntries 0); [done|]. intros [= <-]. split; cbn [fst snd].
  - split; cbn; [apply recency_empty| |]; done.
  - split; cbn; intros k *; by rewrite lookup_empty.
Qed.

(** C32: the slot-pointer cache is bounded and never serves a pointer that is
    older than what it was told. After any sequence of committed updates,
    fill reservations, completions (with stale handles too), cancellations and
    pins on a new cache, residents and reservations together never exceed
    [maxEntries]; and a pin of a slot is a pointer some caller supplied for
    that very slot, at a generation no lower than every generation reported by
    [UpdateCommitted] since the slot's reservation or residence began, even
    when an update overtook the authoritative read of a pending fill. *)
Theorem pointer_cache_never_regresses maxEntries c0 c h :
  NewPointerCache maxEntries = Some c0 -> rtc pointer_step (c0, mkHistory ∅ []) (c, h) ->
  occupancy c <= pc_maxEntries c /\
  forall k pin c', Pin k c = (Some pin, c') ->
    (k, mkSlotPointer (pin_revision pin) (pin_generation pin)) ∈ h_given h /\
    pin_namespace pin = sk_namespace k /\ pin_slot pin = sk_slot k /\
    forall m, h_floor h !! k = Some m -> m <= pin_generation pin.
Proof.
  intros Hnew Hr. assert (Hok : run_ok (c, h)).
  { revert Hr. generalize (new_cache_ok _ _ Hnew). generalize (c0, mkHistory ∅ []). generalize (c, h).
    intros t s Hs Hr. induction Hr; eauto using pointer_step_ok. }
  destruct Hok as [Hc Hh]. cbn [fst snd] in *. split; [apply Hc|]. intros k pin c'. unfold Pin.
  destruct (SlotKey_valid k); [|done]. cbn [negb]. destruct (pc_entries c !! k) as [[r g]|] eqn:E; [|done].
  intros [= <- _]. cbn. destruct (ho_entry _ _ Hh k _ E) as [Ha Hb]. auto.
Qed.
