(* ===== verification/RevisionCache.v ===== *)
(** The compiled-revision cache (internal/cache/revisions.go, weight.go).

    A cache bounded by entries and by approximate bytes, in front of a loader
    of the application: concurrent misses of one key share one load, a load
    that nobody waits for any more is abandoned and its result never admitted,
    and eviction prefers inactive revisions, least recently used first.

    The cache's maps, its recency list and its byte count are one record; the
    [revisionCall] objects the callers share are a heap of calls, so that a
    late completion of an abandoned call is told apart from the call that
    replaced it. Every critical section is one step. *)

From Stdlib Require Import ZArith Lia.
From stdpp Require Import base list gmap strings fin_maps.
From S2P Require Import Prelude Limits Types Invocation Recency.

Record RevisionKey := mkRevisionKey { rk_namespace : string; rk_revision : string; rk_evaluatorABI : string }.
#[global] Instance RevisionKey_eq_dec : EqDecision RevisionKey.
Proof. solve_decision. Defined.
#[global] Instance RevisionKey_countable : Countable RevisionKey.
Proof.
  apply (inj_countable' (fun k => (rk_namespace k, rk_revision k, rk_evaluatorABI k))
           (fun p => mkRevisionKey p.1.1 p.1.2 p.2)). by intros [].
Defined.

(** The package's errors, the context's error and the loader's own. *)
Inductive RevisionError :=
  | errInvalidRevisionKey | errInvalidArtifact | errNilLoader | errLoaderPanic
  | errContext (a : ctx_answer) | errLoader (e : GoError).
Definition RevisionKey_valid (k : RevisionKey) : bool :=
  bool_decide (rk_namespace k <> ""%string) && bool_decide (rk_revision k <> ""%string)
  && bool_decide (rk_evaluatorABI k <> ""%string).
(** [None] is [errInvalidRevisionKey]. *)
Definition NewRevisionKey (namespace revision evaluatorABI : string) : option RevisionKey :=
  if bool_decide (namespace = ""%string) || bool_decide (revision = ""%string)
     || bool_decide (evaluatorABI = ""%string)
  then None else Some (mkRevisionKey namespace revision evaluatorABI).

(** ** Weights (weight.go) *)

Definition approximateRevisionOverhead : Z := 128.
Definition approximateRevisionBytes (key : RevisionKey) (encodedBytes : Z) : Z :=
  int64 (approximateRevisionOverhead + len (rk_namespace key) + len (rk_revision key)
         + len (rk_evaluatorABI key) + encodedBytes).

Section RevisionCache.
(** [dsl.Artifact] with what the cache asks of it: whether [Program()] is set,
    and the length of [MarshalBinary()], [None] for its error. *)
Context {Artifact : Type} (hasProgram : Artifact -> bool) (marshal : Artifact -> option Z).

Record HydratedRevision := mkHydrated { hr_artifact : option Artifact; hr_approximateBytes : Z }.
Definition no_revision : HydratedRevision := mkHydrated None 0.

Record RevisionCache := mkRevisionCache {
  rc_maxEntries : Z; rc_maxBytes : Z;
  rc_entries : gmap RevisionKey (HydratedRevision * bool);   (* value, active *)
  rc_inflight : gmap RevisionKey nat;
  rc_recency : list RevisionKey;
  rc_bytes : Z }.

(** [None] is [errInvalidLimits]. *)
Definition NewRevisionCache (maxEntries maxBytes : Z) : option RevisionCache :=
  if (maxEntries <? 0) || (maxBytes <? 0) then None
  else Some (mkRevisionCache maxEntries maxBytes ∅ ∅ [] 0).

Definition with_resident e r b (c : RevisionCache) : RevisionCache :=
  mkRevisionCache (rc_maxEntries c) (rc_maxBytes c) e (rc_inflight c) r b.
Definition with_inflight f (c : RevisionCache) : RevisionCache :=
  mkRevisionCache (rc_maxEntries c) (rc_maxBytes c) (rc_entries c) f (rc_recency c) (rc_bytes c).

Definition hydrateRevision (key : RevisionKey) (artifact : option Artifact) : HydratedRevision + RevisionError :=
  match artifact with
  | None => inr errInvalidArtifact
  | Some a =>
      if negb (hasProgram a) then inr errInvalidArtifact
      else match marshal a with
      | None => inr errInvalidArtifact
      | Some n => inl (mkHydrated artifact (approximateRevisionBytes key n))
      end
  end.

(** The search from the back for the first inactive entry. *)
Definition inactive (c : RevisionCache) (k : RevisionKey) : bool :=
  match rc_entries c !! k with Some (_, active) => negb active | None => false end.
Definition eviction_candidate (c : RevisionCache) : option RevisionKey :=
  match find (inactive c) (reverse (rc_recency c)) with
  | Some k => Some k
  | None => last (rc_recency c)
  end.

Definition evictOneLocked (c : RevisionCache) : RevisionCache :=
  match eviction_candidate c with
  | None => c
  | Some k =>
      match rc_entries c !! k with
      | None => c
      | Some (v, _) =>
          with_resident (delete k (rc_entries c)) (remove_key k (rc_recency c))
            (int64 (rc_bytes c - hr_approximateBytes v)) c
      end
  end.

Definition over_limit (weight : Z) (c : RevisionCache) : bool :=
  (rc_maxEntries c <=? Z.of_nat (base.size (rc_entries c)))
  || (int64 (rc_maxBytes c - weight) <? rc_bytes c).

(** The eviction loop. Each turn removes an entry, so the number of entries
    plus one is enough fuel ([evict_loop_room]). *)
Fixpoint evict_loop (fuel : nat) (weight : Z) (c : RevisionCache) : RevisionCache :=
  match fuel with
  | O => c
  | S fuel => if over_limit weight c then evict_loop fuel weight (evictOneLocked c) else c
  end.

Definition admitLocked (key : RevisionKey) (value : HydratedRevision) (c : RevisionCache)
  : HydratedRevision * RevisionCache :=
  match rc_entries c !! key with
  | Some (existing, _) =>
      (existing, with_resident (rc_entries c) (move_front key (rc_recency c)) (rc_bytes c) c)
  | None =>
      if (rc_maxEntries c =? 0) || (rc_maxBytes c =? 0) || (rc_maxBytes c <? hr_approximateBytes value)
      then (value, c)
      else
        let c := evict_loop (S (base.size (rc_entries c))) (hr_approximateBytes value) c in
        (value, with_resident (<[key := (value, false)]> (rc_entries c)) (key :: rc_recency c)
                  (int64 (rc_bytes c + hr_approximateBytes value)) c)
  end.

Definition SetActive (key : RevisionKey) (active : bool) (c : RevisionCache) : RevisionCache :=
  if negb (RevisionKey_valid key) then c
  else match rc_entries c !! key with
  | None => c
  | Some (v, _) => with_resident (<[key := (v, active)]> (rc_entries c)) (rc_recency c) (rc_bytes c) c
  end.

(** ** Calls *)

Definition answer : Type := HydratedRevision * option RevisionError.

(** [done] is [None] until the channel is closed. *)
Record revisionCall := mkCall {
  call_key : RevisionKey; call_waiters : Z; call_abandoned : bool; call_canceled : bool;
  call_done : option answer }.

(** A caller of [GetOrLoad]. *)
Inductive caller := AwaitsCall (key : RevisionKey) (ref : nat) | Got (key : RevisionKey) (a : answer).

Record system := mkSystem {
  sys_cache : RevisionCache; sys_calls : gmap nat revisionCall; sys_callers : gmap nat caller;
  sys_loaded : list (RevisionKey * Artifact)   (* what the loaders returned *) }.

Definition GetOrLoad_guard (ctxErr : ctx_answer) (key : RevisionKey) (nilLoader : bool)
  : option RevisionError :=
  match ctxErr with
  | CtxUsable =>
      if negb (RevisionKey_valid key) then Some errInvalidRevisionKey
      else if nilLoader then Some errNilLoader else None
  | a => Some (errContext a)
  end.

(** The critical section of [GetOrLoad]: a hit, or the call to wait for; a new
    call is allocated at [ref]. *)
Definition GetOrLoad_section (ref : nat) (key : RevisionKey) (c : RevisionCache) (calls : gmap nat revisionCall)
  : (HydratedRevision + nat) * RevisionCache * gmap nat revisionCall :=
  match rc_entries c !! key with
  | Some (value, _) =>
      (inl value, with_resident (rc_entries c) (move_front key (rc_recency c)) (rc_bytes c) c, calls)
  | None =>
      match rc_inflight c !! key with
      | Some current =>
          (inr current, c,
           alter (fun call => mkCall (call_key call) (call_waiters call + 1) (call_abandoned call)
                                (call_canceled call) (call_done call)) current calls)
      | None =>
          (inr ref, with_inflight (<[key := ref]> (rc_inflight c)) c,
           <[ref := mkCall key 1 false false None]> calls)
      end
  end.

(** What [loadRevision] hands to [completeRevisionLoad]. *)
Definition loadRevision (key : RevisionKey) (o : call_outcome (option Artifact)) : answer :=
  match o with
  | Panicked => (no_revision, Some errLoaderPanic)
  | Returned (inr e) => (no_revision, Some (errLoader e))
  | Returned (inl artifact) =>
      match hydrateRevision key artifact with
      | inl v => (v, None)
      | inr e => (no_revision, Some e)
      end
  end.

Definition completeRevisionLoad (ref : nat) (call : revisionCall) (a : answer) (c : RevisionCache)
  (calls : gmap nat revisionCall) : RevisionCache * gmap nat revisionCall :=
  let key := call_key call in
  let c := if bool_decide (rc_inflight c !! key = Some ref)
           then with_inflight (delete key (rc_inflight c)) c else c in
  let '(value, c) :=
    match a.2 with
    | None => if call_abandoned call then (a.1, c) else admitLocked key a.1 c
    | Some _ => (a.1, c)
    end in
  (c, <[ref := mkCall key (call_waiters call) (call_abandoned call) true (Some (value, a.2))]> calls).

(** The [ctx.Done()] branch of [waitForRevision]. *)
Definition stop_waiting (key : RevisionKey) (ref : nat) (c : RevisionCache) (calls : gmap nat revisionCall)
  : RevisionCache * gmap nat revisionCall :=
  match calls !! ref with
  | Some call =>
      if bool_decide (rc_inflight c !! key = Some ref) then
        let left := call_waiters call - 1 in
        if left =? 0
        then (with_inflight (delete key (rc_inflight c)) c,
              <[ref := mkCall (call_key call) left true true (call_done call)]> calls)
        else (c, <[ref := mkCall (call_key call) left (call_abandoned call) (call_canceled call) (call_done call)]> calls)
      else (c, calls)
  | None => (c, calls)
  end.

(** A length the machine can hold. *)
Definition weight_fits (key : RevisionKey) (o : call_outcome (option Artifact)) : Prop :=
  match o with
  | Returned (inl (Some a)) =>
      forall n, marshal a = Some n ->
        0 <= n /\ approximateRevisionOverhead + len (rk_namespace key) + len (rk_revision key)
                  + len (rk_evaluatorABI key) + n <= MaxInt64
  | _ => True
  end.
Definition record_load (key : RevisionKey) (o : call_outcome (option Artifact)) (loaded : list (RevisionKey * Artifact))
  : list (RevisionKey * Artifact) :=
  match o with Returned (inl (Some a)) => (key, a) :: loaded | _ => loaded end.

Inductive sys_step : system -> system -> Prop :=
  | sys_refused s w key a nilLoader e :
      sys_callers s !! w = None -> GetOrLoad_guard a key nilLoader = Some e ->
      sys_step s (mkSystem (sys_cache s) (sys_calls s) (<[w := Got key (no_revision, Some e)]> (sys_callers s))
                    (sys_loaded s))
  | sys_get s w ref key o c calls :
      sys_callers s !! w = None -> sys_calls s !! ref = None ->
      GetOrLoad_guard CtxUsable key false = None ->
      GetOrLoad_section ref key (sys_cache s) (sys_calls s) = (o, c, calls) ->
      sys_step s (mkSystem c calls
        (<[w := match o with inl v => Got key (v, None) | inr r => AwaitsCall key r end]> (sys_callers s))
        (sys_loaded s))
  | sys_load s ref call o c calls :
      (* the loading goroutine completes *)
      sys_calls s !! ref = Some call -> call_done call = None -> weight_fits (call_key call) o ->
      completeRevisionLoad ref call (loadRevision (call_key call) o) (sys_cache s) (sys_calls s) = (c, calls) ->
      sys_step s (mkSystem c calls (sys_callers s) (record_load (call_key call) o (sys_loaded s)))
  | sys_receive s w key ref call a :
      (* [<-call.done] *)
      sys_callers s !! w = Some (AwaitsCall key ref) -> sys_calls s !! ref = Some call -> call_done call = Some a ->
      sys_step s (mkSystem (sys_cache s) (sys_calls s) (<[w := Got key a]> (sys_callers s)) (sys_loaded s))
  | sys_stop s w key ref a c calls :
      (* [<-ctx.Done()] *)
      sys_callers s !! w = Some (AwaitsCall key ref) -> a <> CtxUsable ->
      stop_waiting key ref (sys_cache s) (sys_calls s) = (c, calls) ->
      sys_step s (mkSystem c calls (<[w := Got key (no_revision, Some (errContext a))]> (sys_callers s)) (sys_loaded s))
  | sys_active s key active :
      sys_step s (mkSystem (SetActive key active (sys_cache s)) (sys_calls s) (sys_callers s) (sys_loaded s)).

(** * Weights of a map *)

Definition weight (e : HydratedRevision * bool) : Z := hr_approximateBytes e.1.
Definition total (m : gmap RevisionKey (HydratedRevision * bool)) : Z :=
  map_fold (fun _ e acc => weight e + acc) 0 m.

Lemma total_fresh m k e : m !! k = None -> total (<[k := e]> m) = weight e + total m.
Proof. intros Hk. unfold total. rewrite map_fold_insert_L; [done| |done]. intros. lia. Qed.
Lemma total_delete m k e : m !! k = Some e -> total m = weight e + total (delete k m).
Proof. intros Hk. unfold total. rewrite (map_fold_delete_L _ _ k e m); [done| |done]. intros. lia. Qed.
Lemma total_update m k e e' : m !! k = Some e -> weight e' = weight e -> total (<[k := e']> m) = total m.
Proof.
  intros Hk Hw. rewrite (total_delete m k e Hk), <- insert_delete_eq.
  rewrite total_fresh by apply lookup_delete_eq. lia.
Qed.
Lemma total_nonneg m : (forall k e, m !! k = Some e -> 0 <= weight e) -> 0 <= total m.
Proof.
  induction m as [|k e m Hk IH] using map_ind; [by unfold total; rewrite map_fold_empty|]. intros Hw.
  rewrite total_fresh by done. assert (0 <= weight e) by (apply (Hw k); apply lookup_insert_eq).
  assert (0 <= total m); [|lia]. apply IH. intros k' e' He. apply (Hw k'). rewrite lookup_insert_ne; [done|].
  intros ->. congruence.
Qed.

(** * The resident revisions *)

(** A value hydrated from an artifact that a loader of this key returned. *)
Definition loaded_ok (loaded : list (RevisionKey * Artifact)) (k : RevisionKey) (v : HydratedRevision) : Prop :=
  exists a n, hr_artifact v = Some a /\ hasProgram a = true /\ marshal a = Some n /\ (k, a) ∈ loaded /\
    hr_approximateBytes v = 128 + len (rk_namespace k) + len (rk_revision k) + len (rk_evaluatorABI k) + n /\ 0 <= n.

Lemma loaded_weight loaded k v : loaded_ok loaded k v -> 0 <= hr_approximateBytes v.
Proof. intros (a & n & _ & _ & _ & _ & -> & Hn). unfold len. lia. Qed.
Lemma loaded_grows loaded loaded' k v :
  (forall x, x ∈ loaded -> x ∈ loaded') -> loaded_ok loaded k v -> loaded_ok loaded' k v.
Proof. intros Hs (a & n & H1 & H2 & H3 & H4 & H5). exists a, n. naive_solver. Qed.

Record cache_inv (loaded : list (RevisionKey * Artifact)) (c : RevisionCache) : Prop := {
  cv_recency : recency_ok (rc_entries c) (rc_recency c);
  cv_bytes : rc_bytes c = total (rc_entries c);
  cv_entries : Z.of_nat (base.size (rc_entries c)) <= rc_maxEntries c;
  cv_max : rc_bytes c <= rc_maxBytes c <= MaxInt64;
  cv_loaded : forall k v b, rc_entries c !! k = Some (v, b) -> loaded_ok loaded k v
}.

Lemma bytes_nonneg loaded c : cache_inv loaded c -> 0 <= rc_bytes c.
Proof.
  intros [_ -> _ _ Hl]. apply total_nonneg. intros k [v b] Hk. eapply loaded_weight, Hl, Hk.
Qed.

(** The candidate is resident, and active only when every entry is. *)
Lemma evict_candidate_spec loaded c :
  cache_inv loaded c -> rc_entries c <> ∅ ->
  exists k v b, eviction_candidate c = Some k /\ rc_entries c !! k = Some (v, b) /\
    (b = true -> forall k' v' b', rc_entries c !! k' = Some (v', b') -> b' = true).
Proof.
  intros [Hr _ _ _ _] Hne. unfold eviction_candidate.
  destruct (find (inactive c) (reverse (rc_recency c))) as [k|] eqn:Ef.
  - apply find_some in Ef as [_ Hi]. unfold inactive in Hi.
    destruct (rc_entries c !! k) as [[v b]|] eqn:Ek; [|done]. exists k, v, b. split; [done|]. split; [done|].
    intros ->. done.
  - destruct (last (rc_recency c)) as [k|] eqn:El.
    2:{ apply last_None in El. rewrite El in Hr. by apply recency_nil in Hr. }
    assert (Hk : k ∈ rc_recency c) by (by apply last_Some_elem_of).
    apply (rk_keys _ _ Hr) in Hk as [[v b] Hk]. exists k, v, b. split; [done|]. split; [done|].
    intros _ k' v' b' Hk'. assert (Hin : k' ∈ rc_recency c) by (apply (rk_keys _ _ Hr); eauto).
    assert (Hn := find_none _ _ Ef k'). rewrite <- list_elem_of_In, elem_of_reverse in Hn. specialize (Hn Hin).
    unfold inactive in Hn. rewrite Hk' in Hn. by destruct b'.
Qed.

Lemma evict_one loaded c :
  cache_inv loaded c -> rc_entries c <> ∅ ->
  exists k v b, rc_entries c !! k = Some (v, b) /\
    (b = true -> forall k' v' b', rc_entries c !! k' = Some (v', b') -> b' = true) /\
    evictOneLocked c = with_resident (delete k (rc_entries c)) (remove_key k (rc_recency c))
                         (rc_bytes c - hr_approximateBytes v) c /\
    cache_inv loaded (evictOneLocked c).
Proof.
  intros Hc Hne. destruct (evict_candidate_spec _ _ Hc Hne) as (k & v & b & Ec & Ek & Hb). exists k, v, b.
  split; [done|]. split; [done|]. unfold evictOneLocked. rewrite Ec, Ek.
  assert (Ht := total_delete _ _ _ Ek). unfold weight in Ht. cbn [fst] in Ht.
  assert (Hw : 0 <= hr_approximateBytes v) by (eapply loaded_weight, (cv_loaded _ _ Hc), Ek).
  assert (Hd : 0 <= total (delete k (rc_entries c))).
  { apply total_nonneg. intros k' [v' b'] [_ Hk']%lookup_delete_Some. eapply loaded_weight, (cv_loaded _ _ Hc), Hk'. }
  destruct Hc as [Hr Hby He Hm Hl]. rewrite int64_id by (unfold MaxInt64 in *; lia). split; [done|].
  split; cbn [with_resident rc_entries rc_recency rc_bytes rc_maxEntries rc_maxBytes].
  - by apply recency_delete.
  - lia.
  - rewrite map_size_delete_Some by eauto. lia.
  - lia.
  - intros k' v' b' [_ Hk']%lookup_delete_Some. eauto.
Qed.

(** [c'] was reached from [c] by evictions that spared active entries while
    any inactive one was left. *)
Record evicted (c c' : RevisionCache) : Prop := {
  ev_sub : rc_entries c' ⊆ rc_entries c;
  ev_prefers : forall k v, rc_entries c !! k = Some (v, true) -> rc_entries c' !! k = None ->
    forall k' v' b', rc_entries c' !! k' = Some (v', b') -> b' = true;
  ev_limits : rc_maxEntries c' = rc_maxEntries c /\ rc_maxBytes c' = rc_maxBytes c /\ rc_inflight c' = rc_inflight c
}.

Lemma over_limit_nonempty loaded w c :
  cache_inv loaded c -> 0 <= w <= rc_maxBytes c -> 0 < rc_maxEntries c -> over_limit w c = true -> rc_entries c <> ∅.
Proof.
  intros Hc Hw He Ho Hz. destruct Hc as [_ Hby _ Hm _]. unfold over_limit in Ho.
  rewrite Hby, Hz in Ho. unfold total in Ho. rewrite map_size_empty, map_fold_empty, int64_id in Ho by (unfold MaxInt64 in *; lia).
  apply orb_true_iff in Ho as [Ho%Z.leb_le|Ho%Z.ltb_lt]; lia.
Qed.

(** The eviction loop ends with room for the value. *)
Lemma evict_loop_room loaded w : forall fuel c,
  cache_inv loaded c -> 0 <= w <= rc_maxBytes c -> 0 < rc_maxEntries c ->
  (base.size (rc_entries c) < fuel)%nat ->
  let c' := evict_loop fuel w c in
  cache_inv loaded c' /\ over_limit w c' = false /\ evicted c c'.
Proof.
  induction fuel as [|fuel IH]; intros c Hc Hw He Hf; [lia|]. cbn [evict_loop].
  destruct (over_limit w c) eqn:Eo.
  2:{ split; [done|]. split; [done|]. split; [done| |done]. intros k v H1 H2. congruence. }
  assert (Hne := over_limit_nonempty _ _ _ Hc Hw He Eo).
  destruct (evict_one _ _ Hc Hne) as (k & v & b & Ek & Hb & Ev & Hc').
  rewrite Ev in *. set (c1 := with_resident _ _ _ c) in *.
  assert (base.size (rc_entries c) <> 0)%nat by (by intros ?%map_size_empty_inv).
  destruct (IH c1) as (I1 & I2 & I3); [done|done|done|unfold c1; cbn; rewrite map_size_delete_Some by eauto; lia|].
  split; [done|]. split; [done|]. destruct I3 as [J1 J2 J3]. split; [|..|done].
  - etrans; [exact J1|]. apply delete_subseteq.
  - intros k1 v1 H1 H2 k2 v2 b2 H3. destruct (decide (k1 = k)) as [->|Hn].
    + rewrite Ek in H1. injection H1 as -> ->. apply (Hb eq_refl k2 v2).
      eapply lookup_weaken; [exact H3|]. etrans; [exact J1|]. apply delete_subseteq.
    + apply (J2 k1 v1) with k2 v2; [|done|done]. unfold c1. cbn. by rewrite lookup_delete_ne.
Qed.

(** Admission of a value loaded for a key that is not resident. *)
Lemma admit_spec loaded c k v :
  cache_inv loaded c -> rc_entries c !! k = None -> loaded_ok loaded k v ->
  let '(v', c') := admitLocked k v c in
  v' = v /\ cache_inv loaded c' /\ rc_inflight c' = rc_inflight c /\
  (forall k' e, rc_entries c' !! k' = Some e -> k' = k \/ rc_entries c !! k' = Some e) /\
  (c' = c \/
   (rc_entries c' !! k = Some (v, false) /\
    forall k1 v1, rc_entries c !! k1 = Some (v1, true) -> rc_entries c' !! k1 = None ->
      forall k2 v2 b2, k2 <> k -> rc_entries c' !! k2 = Some (v2, b2) -> b2 = true)).
Proof.
  intros Hc Hk Hv. assert (Hw := loaded_weight _ _ _ Hv). unfold admitLocked. rewrite Hk.
  destruct (_ || _) eqn:Eg; [split; [done|]; split; [done|]; split; [done|]; split; [by right|by left]|].
  apply orb_false_iff in Eg as [[E1%Z.eqb_neq E2%Z.eqb_neq]%orb_false_iff E3%Z.ltb_ge].
  assert (Hpos : 0 < rc_maxEntries c) by (destruct Hc as [_ _ He _ _]; lia).
  destruct (evict_loop_room loaded (hr_approximateBytes v) (S (base.size (rc_entries c))) c Hc)
    as (I1 & I2 & [J1 J2 (J3 & J4 & J5)]); [lia|done|lia|].
  set (c1 := evict_loop _ _ c) in *. assert (H0 := bytes_nonneg _ _ I1).
  assert (Hk1 : rc_entries c1 !! k = None) by (by eapply lookup_weaken_None).
  unfold over_limit in I2. apply orb_false_iff in I2 as [L1%Z.leb_gt L2%Z.ltb_ge].
  assert (Hm := cv_max _ _ I1). rewrite J4 in L2, Hm. rewrite J3 in L1. rewrite int64_id in L2 by (unfold MaxInt64 in *; lia).
  split; [done|]. split; [|split; [done|split]].
  - destruct I1 as [K1 K2 K3 K4 K5]. split; cbn [with_resident rc_entries rc_recency rc_bytes rc_maxEntries rc_maxBytes].
    + by apply recency_push.
    + rewrite total_fresh by done. rewrite int64_id by (unfold MaxInt64 in *; lia). unfold weight. cbn [fst]. lia.
    + rewrite map_size_insert_None by done. lia.
    + rewrite int64_id by (unfold MaxInt64 in *; lia). lia.
    + intros k' v' b'. destruct (decide (k' = k)) as [->|Hn].
      * rewrite lookup_insert_eq. by intros [= <- <-].
      * rewrite lookup_insert_ne by done. eauto.
  - cbn. intros k' e H. destruct (decide (k' = k)) as [->|Hn]; [by left|right]. rewrite lookup_insert_ne in H by done.
    by eapply lookup_weaken.
  - right. cbn. split; [apply lookup_insert_eq|]. intros k1 v1 H1 H2 k2 v2 b2 Hn H3.
    assert (k1 <> k) by congruence. rewrite lookup_insert_ne in H2, H3 by done. eauto.
Qed.

(** * Calls and callers *)

Definition waits_for (ref : nat) (x : nat * caller) : Prop :=
  match x.2 with AwaitsCall _ r => r = ref | Got _ _ => False end.
#[local] Instance waits_for_dec ref x : Decision (waits_for ref x).
Proof. unfold waits_for. destruct x.2; apply _. Defined.

(** The callers blocked on a call. *)
Definition blocked (ref : nat) (callers : gmap nat caller) : nat := map_count (waits_for ref) callers.

Lemma blocked_fresh ref callers w x :
  callers !! w = None ->
  blocked ref (<[w := x]> callers) =
  (match x with AwaitsCall _ r => if decide (r = ref) then 1 else 0 | Got _ _ => 0 end + blocked ref callers)%nat.
Proof.
  intros Hw. unfold blocked. rewrite map_count_fresh by done. f_equal. destruct x as [k r|k a].
  - destruct (decide (r = ref)); [by rewrite decide_True|by rewrite decide_False].
  - rewrite decide_False; [done|]. by intros [].
Qed.

Lemma blocked_answer ref callers w k r a :
  callers !! w = Some (AwaitsCall k r) ->
  blocked ref callers = ((if decide (r = ref) then 1 else 0) + blocked ref (<[w := Got k a]> callers))%nat.
Proof.
  intros Hw. assert (Hc := map_count_change (waits_for ref) callers w (Got k a) _ Hw).
  rewrite (decide_False (P := waits_for ref (w, Got k a))) in Hc by (by intros []).
  unfold blocked. rewrite <- Nat.add_0_l at 1. by rewrite <- Hc.
Qed.

Record call_ok (s : system) (ref : nat) (call : revisionCall) : Prop := {
  co_live : call_done call = None -> call_abandoned call = false ->
    rc_inflight (sys_cache s) !! call_key call = Some ref;
  co_abandoned : call_abandoned call = true -> blocked ref (sys_callers s) = 0%nat;
  co_done : forall v, call_done call = Some (v, None) -> loaded_ok (sys_loaded s) (call_key call) v
}.

Record sys_inv (s : system) : Prop := {
  si_cache : cache_inv (sys_loaded s) (sys_cache s);
  si_inflight : forall k ref, rc_inflight (sys_cache s) !! k = Some ref ->
    rc_entries (sys_cache s) !! k = None /\
    exists call, sys_calls s !! ref = Some call /\ call_key call = k /\ call_done call = None /\
      call_abandoned call = false /\ call_waiters call = Z.of_nat (blocked ref (sys_callers s));
  si_calls : forall ref call, sys_calls s !! ref = Some call -> call_ok s ref call;
  si_waiting : forall w k ref, sys_callers s !! w = Some (AwaitsCall k ref) ->
    exists call, sys_calls s !! ref = Some call /\ call_key call = k;
  si_answers : forall w k v, sys_callers s !! w = Some (Got k (v, None)) -> loaded_ok (sys_loaded s) k v
}.

(** A reference nobody has used has no one waiting. *)
Lemma blocked_unused s ref :
  sys_inv s -> sys_calls s !! ref = None -> blocked ref (sys_callers s) = 0%nat.
Proof.
  intros Hs Hr. apply map_count_zero. intros w x Hw. unfold waits_for. cbn [snd]. destruct x as [k r|k a]; [|by intros []].
  intros ->. destruct (si_waiting _ Hs _ _ _ Hw) as (call & Hc & _). congruence.
Qed.

(** Replacing residents only. *)
Lemma cache_inv_move loaded c k :
  cache_inv loaded c -> is_Some (rc_entries c !! k) ->
  cache_inv loaded (with_resident (rc_entries c) (move_front k (rc_recency c)) (rc_bytes c) c).
Proof. intros [H1 H2 H3 H4 H5] Hk. split; cbn; auto. by apply recency_move. Qed.

Lemma SetActive_inv loaded k b c : cache_inv loaded c -> cache_inv loaded (SetActive k b c).
Proof.
  intros Hc. unfold SetActive. destruct (RevisionKey_valid k); [|done]. cbn [negb].
  destruct (rc_entries c !! k) as [[v b0]|] eqn:Ek; [|done]. destruct Hc as [H1 H2 H3 H4 H5]. split; cbn; auto.
  - apply recency_update; eauto.
  - by rewrite (total_update _ _ _ _ Ek).
  - rewrite map_size_insert_Some by eauto. done.
  - intros k' v' b'. destruct (decide (k' = k)) as [->|Hn].
    + rewrite lookup_insert_eq. intros [= <- <-]. eauto.
    + rewrite lookup_insert_ne by done. eauto.
Qed.

Lemma SetActive_keys k b c k' :
  (rc_entries (SetActive k b c) !! k' = None <-> rc_entries c !! k' = None) /\ rc_inflight (SetActive k b c) = rc_inflight c.
Proof.
  unfold SetActive. destruct (RevisionKey_valid k); [|done]. cbn [negb].
  destruct (rc_entries c !! k) as [[v b0]|] eqn:Ek; [|done]. split; [|done]. cbn.
  destruct (decide (k' = k)) as [->|Hn]; [rewrite lookup_insert_eq; split; congruence|by rewrite lookup_insert_ne].
Qed.

Lemma cache_inv_grows loaded loaded' c :
  (forall x, x ∈ loaded -> x ∈ loaded') -> cache_inv loaded c -> cache_inv loaded' c.
Proof. intros Hs [H1 H2 H3 H4 H5]. split; eauto using loaded_grows. Qed.

Lemma record_load_grows k o loaded x : x ∈ loaded -> x ∈ record_load k o loaded.
Proof. destruct o as [[[a|]|e]|]; [by right|done..]. Qed.

(** A load that succeeds delivers an artifact of its own loader. *)
Lemma loadRevision_ok k o loaded v :
  weight_fits k o -> loadRevision k o = (v, None) -> loaded_ok (record_load k o loaded) k v.
Proof.
  intros Hf. destruct o as [[[a|]|e]|]; cbn; try done.
  destruct (hasProgram a) eqn:Ep; [|done]. cbn. destruct (marshal a) as [n|] eqn:Em; [|done]. intros [= <-].
  destruct (Hf n Em) as [Hn Hm]. exists a, n. cbn [hr_artifact hr_approximateBytes]. repeat split; auto; [by left|].
  unfold approximateRevisionBytes, approximateRevisionOverhead in *. apply int64_id. unfold MaxInt64 in *.
  unfold len in *. lia.
Qed.

Lemma call_frame s s' ref call :
  call_ok s ref call ->
  (rc_inflight (sys_cache s) !! call_key call = Some ref -> rc_inflight (sys_cache s') !! call_key call = Some ref) ->
  (blocked ref (sys_callers s) = 0 -> blocked ref (sys_callers s') = 0)%nat ->
  (forall x, x ∈ sys_loaded s -> x ∈ sys_loaded s') ->
  call_ok s' ref call.
Proof. intros [H1 H2 H3] Hi Hb Hl. split; eauto using loaded_grows. Qed.

(** * Every step preserves the invariant *)

Lemma refused_inv s w k e :
  sys_inv s -> sys_callers s !! w = None ->
  sys_inv (mkSystem (sys_cache s) (sys_calls s) (<[w := Got k (no_revision, Some e)]> (sys_callers s)) (sys_loaded s)).
Proof.
  intros Hs Hw. assert (Hb : forall ref x, blocked ref (<[w := Got k x]> (sys_callers s)) = blocked ref (sys_callers s)).
  { intros. by rewrite blocked_fresh. }
  split; cbn [sys_cache sys_calls sys_callers sys_loaded].
  - apply Hs.
  - intros k' ref Hi. rewrite Hb. by apply Hs.
  - intros ref call Hc. apply (call_frame s); auto; [by apply Hs|]. cbn. by rewrite Hb.
  - intros w' k' ref. rewrite lookup_insert_Some. intros [[_ [=]]|[_ H]]. by apply (si_waiting _ Hs w').
  - intros w' k' v. rewrite lookup_insert_Some. intros [[_ [=]]|[_ H]]. by apply (si_answers _ Hs w').
Qed.

(** Answering a caller with a value loaded for its key. *)
Lemma answered_inv s w k v c :
  sys_inv s -> sys_callers s !! w = None -> cache_inv (sys_loaded s) c ->
  rc_inflight c = rc_inflight (sys_cache s) -> rc_entries c = rc_entries (sys_cache s) ->
  loaded_ok (sys_loaded s) k v ->
  sys_inv (mkSystem c (sys_calls s) (<[w := Got k (v, None)]> (sys_callers s)) (sys_loaded s)).
Proof.
  intros Hs Hw Hc Hif He Hv.
  assert (Hb : forall ref x, blocked ref (<[w := Got k x]> (sys_callers s)) = blocked ref (sys_callers s)).
  { intros. by rewrite blocked_fresh. }
  split; cbn [sys_cache sys_calls sys_callers sys_loaded].
  - done.
  - intros k' ref Hi. rewrite Hb, He. apply Hs. by rewrite <- Hif.
  - intros ref call Hcl. apply (call_frame s); cbn; rewrite ?Hb, ?Hif; auto. by apply Hs.
  - intros w' k' ref. rewrite lookup_insert_Some. intros [[_ [=]]|[_ H]]. by apply (si_waiting _ Hs w').
  - intros w' k' v'. rewrite lookup_insert_Some. intros [[_ [= <- <-]]|[_ H]]; [done|]. by apply (si_answers _ Hs w').
Qed.

Lemma join_inv s w k ref call :
  sys_inv s -> sys_callers s !! w = None -> rc_inflight (sys_cache s) !! k = Some ref ->
  sys_calls s !! ref = Some call ->
  sys_inv (mkSystem (sys_cache s)
    (<[ref := mkCall (call_key call) (call_waiters call + 1) (call_abandoned call) (call_canceled call) (call_done call)]>
       (sys_calls s))
    (<[w := AwaitsCall k ref]> (sys_callers s)) (sys_loaded s)).
Proof.
  intros Hs Hw Hi Hcall. destruct (si_inflight _ Hs k ref Hi) as (_ & call' & Hc' & Hk & Hd & Ha & Hwt).
  rewrite Hcall in Hc'. injection Hc' as <-.
  split; cbn [sys_cache sys_calls sys_callers sys_loaded].
  - apply Hs.
  - intros k' ref' Hi'. destruct (si_inflight _ Hs k' ref' Hi') as (He & call' & Hc' & Hk' & Hd' & Ha' & Hw').
    split; [done|]. rewrite blocked_fresh by done. destruct (decide (ref' = ref)) as [->|Hne].
    + rewrite Hcall in Hc'. injection Hc' as <-. rewrite lookup_insert_eq, decide_True by done.
      eexists. split; [done|]. cbn. repeat split; auto. lia.
    + rewrite lookup_insert_ne, decide_False by done. exists call'. auto.
  - intros ref' call'. rewrite lookup_insert_Some. intros [[<- <-]|[Hne Hc]].
    + destruct (si_calls _ Hs ref call Hcall) as [I1 I2 I3]. split; cbn; auto. congruence.
    + apply (call_frame s); auto; [by apply Hs|]. cbn. intros H0. rewrite blocked_fresh, decide_False by done. done.
  - intros w' k' ref'. rewrite lookup_insert_Some. intros [[_ [= <- <-]]|[_ H]].
    + rewrite lookup_insert_eq. eauto.
    + destruct (si_waiting _ Hs _ _ _ H) as (c & Hc & Hkc). destruct (decide (ref' = ref)) as [->|Hne].
      * rewrite Hcall in Hc. injection Hc as <-. rewrite lookup_insert_eq. eauto.
      * rewrite lookup_insert_ne by done. eauto.
  - intros w' k' v. rewrite lookup_insert_Some. intros [[_ [=]]|[_ H]]. by apply (si_answers _ Hs w').
Qed.

Lemma start_call_inv s w k ref :
  sys_inv s -> sys_callers s !! w = None -> sys_calls s !! ref = None ->
  rc_entries (sys_cache s) !! k = None -> rc_inflight (sys_cache s) !! k = None ->
  sys_inv (mkSystem (with_inflight (<[k := ref]> (rc_inflight (sys_cache s))) (sys_cache s))
    (<[ref := mkCall k 1 false false None]> (sys_calls s)) (<[w := AwaitsCall k ref]> (sys_callers s)) (sys_loaded s)).
Proof.
  intros Hs Hw Hr He Hi. assert (H0 := blocked_unused _ _ Hs Hr).
  split; cbn [sys_cache sys_calls sys_callers sys_loaded].
  - destruct (si_cache _ Hs) as [K1 K2 K3 K4 K5]. by split.
  - cbn. intros k' ref'. rewrite lookup_insert_Some. intros [[<- <-]|[Hne Hi']].
    + split; [done|]. rewrite lookup_insert_eq. eexists. split; [done|]. cbn. rewrite blocked_fresh, decide_True by done.
      repeat split; auto. rewrite H0. done.
    + destruct (si_inflight _ Hs k' ref' Hi') as (He' & call & Hc & Hk & Hd & Ha & Hwt). split; [done|].
      assert (ref' <> ref) by congruence. rewrite lookup_insert_ne, blocked_fresh, decide_False by done. exists call. auto.
  - intros ref' call. rewrite lookup_insert_Some. intros [[<- <-]|[Hne Hc]].
    + split; cbn; [by rewrite lookup_insert_eq|done|done].
    + apply (call_frame s); auto; [by apply Hs| |]; cbn.
      * intros Hx. rewrite lookup_insert_ne; [done|congruence].
      * intros Hx. rewrite blocked_fresh, decide_False by done. done.
  - intros w' k' ref'. rewrite lookup_insert_Some. intros [[_ [= <- <-]]|[_ H]].
    + rewrite lookup_insert_eq. eauto.
    + destruct (si_waiting _ Hs _ _ _ H) as (c & Hc & Hkc). rewrite lookup_insert_ne by congruence. eauto.
  - intros w' k' v. rewrite lookup_insert_Some. intros [[_ [=]]|[_ H]]. by apply (si_answers _ Hs w').
Qed.

Lemma get_inv s w ref k o c calls :
  sys_inv s -> sys_callers s !! w = None -> sys_calls s !! ref = None ->
  GetOrLoad_section ref k (sys_cache s) (sys_calls s) = (o, c, calls) ->
  sys_inv (mkSystem c calls
    (<[w := match o with inl v => Got k (v, None) | inr r => AwaitsCall k r end]> (sys_callers s)) (sys_loaded s)).
Proof.
  intros Hs Hw Hr. unfold GetOrLoad_section. destruct (rc_entries (sys_cache s) !! k) as [[v b]|] eqn:Ee.
  - intros [= <- <- <-]. assert (Hc := si_cache _ Hs). apply answered_inv; auto.
    + apply cache_inv_move; eauto.
    + by apply (cv_loaded _ _ Hc _ _ b).
  - destruct (rc_inflight (sys_cache s) !! k) as [cur|] eqn:Ei; intros [= <- <- <-].
    + destruct (si_inflight _ Hs k cur Ei) as (_ & call & Hc & _).
      replace (alter _ cur (sys_calls s)) with
        (<[cur := mkCall (call_key call) (call_waiters call + 1) (call_abandoned call) (call_canceled call) (call_done call)]>
           (sys_calls s)).
      * by apply join_inv.
      * apply map_eq. intros i. destruct (decide (i = cur)) as [->|Hne].
        -- by rewrite lookup_insert_eq, lookup_alter_eq, Hc.
        -- by rewrite lookup_insert_ne, lookup_alter_ne.
    + by apply start_call_inv.
Qed.

Lemma finish_inv s ref call c loaded ans ab :
  sys_inv s -> sys_calls s !! ref = Some call -> ab = call_abandoned call ->
  cache_inv loaded c -> (forall x, x ∈ sys_loaded s -> x ∈ loaded) ->
  (forall k r, rc_inflight c !! k = Some r ->
     rc_inflight (sys_cache s) !! k = Some r /\ r <> ref /\ rc_entries c !! k = None) ->
  (forall k r, r <> ref -> rc_inflight (sys_cache s) !! k = Some r -> rc_inflight c !! k = Some r) ->
  (forall v, ans = (v, None) -> loaded_ok loaded (call_key call) v) ->
  sys_inv (mkSystem c
    (<[ref := mkCall (call_key call) (call_waiters call) ab true (Some ans)]> (sys_calls s))
    (sys_callers s) loaded).
Proof.
  intros Hs Hcall -> Hc Hl Ha Hb Hv. split; cbn [sys_cache sys_calls sys_callers sys_loaded].
  - done.
  - intros k r Hi. destruct (Ha k r Hi) as (H1 & H2 & H3). split; [done|].
    rewrite lookup_insert_ne by done. by apply Hs.
  - intros r call'. rewrite lookup_insert_Some. intros [[<- <-]|[Hne Hc']].
    + destruct (si_calls _ Hs ref call Hcall) as [I1 I2 I3]. split; cbn; [done|done|]. intros v [= ->]. auto.
    + apply (call_frame s); cbn; auto. by apply Hs.
  - intros w k r Hw. destruct (si_waiting _ Hs _ _ _ Hw) as (call' & Hc' & Hk). destruct (decide (r = ref)) as [->|Hne].
    + rewrite Hcall in Hc'. injection Hc' as <-. rewrite lookup_insert_eq. eauto.
    + rewrite lookup_insert_ne by done. eauto.
  - intros w k v Hw. eapply loaded_grows; [exact Hl|]. by apply (si_answers _ Hs w).
Qed.

Lemma load_inv s ref call o c calls :
  sys_inv s -> sys_calls s !! ref = Some call -> call_done call = None -> weight_fits (call_key call) o ->
  completeRevisionLoad ref call (loadRevision (call_key call) o) (sys_cache s) (sys_calls s) = (c, calls) ->
  sys_inv (mkSystem c calls (sys_callers s) (record_load (call_key call) o (sys_loaded s))).
Proof.
  intros Hs Hcall Hd Hf. set (loaded := record_load _ _ _). unfold completeRevisionLoad.
  assert (Hl : forall x, x ∈ sys_loaded s -> x ∈ loaded) by (intros; by apply record_load_grows).
  assert (Hc := cache_inv_grows _ _ _ Hl (si_cache _ Hs)).
  assert (Hv : forall v, loadRevision (call_key call) o = (v, None) -> loaded_ok loaded (call_key call) v).
  { intros v. by apply loadRevision_ok. }
  destruct (si_calls _ Hs ref call Hcall) as [I1 I2 I3].
  destruct (call_abandoned call) eqn:Eab.
  - rewrite bool_decide_false.
    2:{ intros Hi. destruct (si_inflight _ Hs _ _ Hi) as (_ & call' & Hc' & _ & _ & Hx & _). congruence. }
    replace (match (loadRevision (call_key call) o).2 with None => _ | Some _ => _ end)
      with ((loadRevision (call_key call) o).1, sys_cache s)
      by (by destruct ((loadRevision (call_key call) o).2)).
    intros [= <- <-]. rewrite <- surjective_pairing. apply finish_inv; auto.
    intros k r Hi. destruct (si_inflight _ Hs k r Hi) as (He & call' & Hc' & _ & _ & Hx & _). split; [done|].
    split; [|done]. intros ->. congruence.
  - assert (Hi : rc_inflight (sys_cache s) !! call_key call = Some ref) by auto.
    destruct (si_inflight _ Hs _ _ Hi) as (He & _). rewrite bool_decide_true by done.
    set (c0 := with_inflight _ (sys_cache s)).
    assert (Hc0 : cache_inv loaded c0) by (by destruct Hc).
    assert (Hin : forall k r, rc_inflight c0 !! k = Some r ->
      rc_inflight (sys_cache s) !! k = Some r /\ r <> ref /\ rc_entries (sys_cache s) !! k = None /\ k <> call_key call).
    { intros k r. unfold c0. cbn. rewrite lookup_delete_Some. intros [Hne Hk].
      destruct (si_inflight _ Hs k r Hk) as (He' & call' & Hc' & Hk' & _). repeat split; auto.
      intros ->. congruence. }
    assert (Hout : forall k r, r <> ref -> rc_inflight (sys_cache s) !! k = Some r -> rc_inflight c0 !! k = Some r).
    { intros k r Hne Hk. unfold c0. cbn. apply lookup_delete_Some. split; [|done]. congruence. }
    destruct (loadRevision (call_key call) o) as [v [e|]] eqn:El; cbn [fst snd].
    + intros [= <- <-]. apply finish_inv; auto.
      intros k r Hk. destruct (Hin k r Hk) as (H1 & H2 & H3 & H4). auto.
    + assert (Had := admit_spec loaded c0 (call_key call) v Hc0 He (Hv v eq_refl)).
      destruct (admitLocked (call_key call) v c0) as [v' c'] eqn:Ead. destruct Had as (-> & Hc' & Hif & Hent & _).
      intros [= <- <-]. apply finish_inv; auto; rewrite Hif; auto.
      intros k r Hk. destruct (Hin k r Hk) as (H1 & H2 & H3 & H4). repeat split; auto.
      destruct (rc_entries c' !! k) as [e|] eqn:Ek; [|done]. destruct (Hent k e Ek) as [|Hx]; [done|].
      unfold c0 in Hx. cbn in Hx. congruence.
Qed.

Lemma receive_inv s w k ref call a :
  sys_inv s -> sys_callers s !! w = Some (AwaitsCall k ref) -> sys_calls s !! ref = Some call ->
  call_done call = Some a ->
  sys_inv (mkSystem (sys_cache s) (sys_calls s) (<[w := Got k a]> (sys_callers s)) (sys_loaded s)).
Proof.
  intros Hs Hw Hcall Hd. destruct (si_waiting _ Hs _ _ _ Hw) as (call' & Hc' & Hk).
  rewrite Hcall in Hc'. injection Hc' as <-.
  split; cbn [sys_cache sys_calls sys_callers sys_loaded].
  - apply Hs.
  - intros k' r Hi. destruct (si_inflight _ Hs k' r Hi) as (He & call' & Hc' & Hk' & Hd' & Ha' & Hwt). split; [done|].
    exists call'. rewrite (blocked_answer r _ w k ref a Hw), decide_False in Hwt by congruence. auto.
  - intros r call' Hc'. apply (call_frame s); auto; [by apply Hs|]. cbn. intros H0.
    rewrite (blocked_answer r _ w k ref a Hw) in H0. lia.
  - intros w' k' r. rewrite lookup_insert_Some. intros [[_ [=]]|[_ H]]. by apply (si_waiting _ Hs w').
  - intros w' k' v. rewrite lookup_insert_Some. intros [[_ [= <- ->]]|[_ H]].
    + rewrite <- Hk. by apply (si_calls _ Hs ref call Hcall).
    + by apply (si_answers _ Hs w').
Qed.

Lemma stop_inv s w k ref a c calls :
  sys_inv s -> sys_callers s !! w = Some (AwaitsCall k ref) ->
  stop_waiting k ref (sys_cache s) (sys_calls s) = (c, calls) ->
  sys_inv (mkSystem c calls (<[w := Got k (no_revision, Some (errContext a))]> (sys_callers s)) (sys_loaded s)).
Proof.
  intros Hs Hw. destruct (si_waiting _ Hs _ _ _ Hw) as (call & Hcall & Hk). unfold stop_waiting. rewrite Hcall.
  set (got := Got k _).
  assert (Hb : forall r, blocked r (sys_callers s) =
    ((if decide (ref = r) then 1 else 0) + blocked r (<[w := got]> (sys_callers s)))%nat).
  { intros r. by apply blocked_answer. }
  assert (Hwait : forall w' k' r, <[w := got]> (sys_callers s) !! w' = Some (AwaitsCall k' r) ->
    sys_callers s !! w' = Some (AwaitsCall k' r)).
  { intros w' k' r. rewrite lookup_insert_Some. by intros [[_ [=]]|[_ H]]. }
  assert (Hans : forall w' k' v, <[w := got]> (sys_callers s) !! w' = Some (Got k' (v, None)) ->
    loaded_ok (sys_loaded s) k' v).
  { intros w' k' v. rewrite lookup_insert_Some. intros [[_ [=]]|[_ H]]. by apply (si_answers _ Hs w'). }
  case_bool_decide as Hi.
  2:{ intros [= <- <-]. split; cbn [sys_cache sys_calls sys_callers sys_loaded]; auto; [apply Hs| | |].
    - intros k' r Hi'. destruct (si_inflight _ Hs k' r Hi') as (He & call' & Hc' & Hk' & Hd' & Ha' & Hwt).
      split; [done|]. exists call'. rewrite Hb, decide_False in Hwt; [auto|]. intros ->. congruence.
    - intros r call' Hc'. apply (call_frame s); auto; [by apply Hs|]. cbn. rewrite Hb. lia.
    - intros w' k' r Hx. by eapply si_waiting, Hwait. }
  destruct (si_inflight _ Hs k ref Hi) as (He & call' & Hc' & _ & Hd & Ha & Hwt).
  rewrite Hcall in Hc'. injection Hc' as <-. rewrite Hb, decide_True in Hwt by done.
  assert (Hkeep : forall r x, (forall y, sys_calls s !! ref = Some y -> call_key y = call_key x) ->
    forall w' k', <[w := got]> (sys_callers s) !! w' = Some (AwaitsCall k' r) ->
    exists y, <[ref := x]> (sys_calls s) !! r = Some y /\ call_key y = k').
  { intros r x Hx w' k' H. apply Hwait in H. destruct (si_waiting _ Hs _ _ _ H) as (y & Hy & Hyk).
    destruct (decide (r = ref)) as [->|Hne].
    - rewrite lookup_insert_eq. exists x. split; [done|]. rewrite <- (Hx y Hy). done.
    - rewrite lookup_insert_ne by done. eauto. }
  destruct (Z.eqb_spec (call_waiters call - 1) 0) as [Ez|Ez]; intros [= <- <-].
  - split; cbn [sys_cache sys_calls sys_callers sys_loaded]; auto.
    + destruct (si_cache _ Hs) as [K1 K2 K3 K4 K5]. by split.
    + cbn. intros k' r [Hne Hi']%lookup_delete_Some.
      destruct (si_inflight _ Hs k' r Hi') as (He' & y & Hy & Hk' & Hd' & Ha' & Hwt'). split; [done|].
      assert (ref <> r) by congruence. rewrite Hb, decide_False in Hwt' by done. rewrite lookup_insert_ne by done. exists y. auto.
    + intros r y. rewrite lookup_insert_Some. intros [[<- <-]|[Hne Hy]].
      * split; cbn; [done|lia|]. rewrite Hd. done.
      * apply (call_frame s); auto; [by apply Hs| |]; cbn.
        -- intros Hx. rewrite lookup_delete_ne; [done|]. congruence.
        -- rewrite Hb. lia.
    + intros w' k' r Hx. eapply Hkeep; [|done]. intros y Hy. rewrite Hcall in Hy. by injection Hy as <-.
  - split; cbn [sys_cache sys_calls sys_callers sys_loaded]; auto; [apply Hs| | |].
    + intros k' r Hi'. destruct (si_inflight _ Hs k' r Hi') as (He' & y & Hy & Hk' & Hd' & Ha' & Hwt'). split; [done|].
      destruct (decide (r = ref)) as [->|Hne].
      * rewrite lookup_insert_eq. eexists. split; [done|]. cbn. rewrite Hcall in Hy. injection Hy as <-.
        repeat split; auto. lia.
      * rewrite Hb, decide_False in Hwt' by done. rewrite lookup_insert_ne by done. exists y. auto.
    + intros r y. rewrite lookup_insert_Some. intros [[<- <-]|[Hne Hy]].
      * destruct (si_calls _ Hs ref call Hcall) as [I1 I2 I3]. split; cbn; auto. congruence.
      * apply (call_frame s); auto; [by apply Hs|]; cbn. rewrite Hb. lia.
    + intros w' k' r Hx. eapply Hkeep; [|done]. intros y Hy. rewrite Hcall in Hy. by injection Hy as <-.
Qed.

Lemma active_inv s k b :
  sys_inv s -> sys_inv (mkSystem (SetActive k b (sys_cache s)) (sys_calls s) (sys_callers s) (sys_loaded s)).
Proof.
  intros Hs. assert (Hi : rc_inflight (SetActive k b (sys_cache s)) = rc_inflight (sys_cache s)).
  { apply (SetActive_keys k b _ k). }
  split; cbn [sys_cache sys_calls sys_callers sys_loaded].
  - apply SetActive_inv, Hs.
  - intros k' r. rewrite Hi. intros Hx. destruct (si_inflight _ Hs k' r Hx) as [He Hc]. split; [|done].
    by apply SetActive_keys.
  - intros r call Hc. apply (call_frame s); cbn; auto; [by apply Hs|]. by rewrite Hi.
  - apply Hs.
  - apply Hs.
Qed.

Lemma sys_step_inv s s' : sys_inv s -> sys_step s s' -> sys_inv s'.
Proof.
  intros Hs Hstep. destruct Hstep; eauto using refused_inv, get_inv, load_inv, receive_inv, stop_inv, active_inv.
Qed.

Definition idle_system (c : RevisionCache) : system := mkSystem c ∅ ∅ [].

Lemma new_system_inv maxEntries maxBytes c :
  maxBytes <= MaxInt64 -> NewRevisionCache maxEntries maxBytes = Some c -> sys_inv (idle_system c).
Proof.
  intros Hm. unfold NewRevisionCache. destruct (_ || _) eqn:E; [done|].
  apply orb_false_iff in E as [E1%Z.ltb_ge E2%Z.ltb_ge]. intros [= <-].
  split; cbn; try (intros *; by rewrite lookup_empty). split; cbn [sys_cache idle_system rc_entries rc_recency rc_bytes rc_maxEntries rc_maxBytes];
    [apply recency_empty|done|rewrite map_size_empty; lia|lia|].
  intros *. by rewrite lookup_empty.
Qed.

(** C31: the compiled-revision cache. After any interleaving of lookups,
    completions of loads, cancelled waits and activity changes on a new cache:
    the residents number at most [MaxEntries] and their weights add up to
    [bytes], at most [MaxBytes]; of all loads of one key at most one is still
    wanted, and then the key is not resident (single flight); nobody waits for
    an abandoned load; and every resident and every value a caller got was
    made from an artifact that a loader of exactly that key returned. *)
Theorem revision_cache_sound maxEntries maxBytes c0 s :
  maxBytes <= MaxInt64 -> NewRevisionCache maxEntries maxBytes = Some c0 -> rtc sys_step (idle_system c0) s ->
  let c := sys_cache s in
  Z.of_nat (base.size (rc_entries c)) <= rc_maxEntries c /\
  (rc_bytes c = total (rc_entries c) /\ rc_bytes c <= rc_maxBytes c) /\
  (forall r1 r2 call1 call2, sys_calls s !! r1 = Some call1 -> sys_calls s !! r2 = Some call2 ->
     call_key call1 = call_key call2 ->
     call_done call1 = None -> call_abandoned call1 = false ->
     call_done call2 = None -> call_abandoned call2 = false ->
     r1 = r2 /\ rc_entries c !! call_key call1 = None) /\
  (forall w k ref, sys_callers s !! w = Some (AwaitsCall k ref) ->
     exists call, sys_calls s !! ref = Some call /\ call_key call = k /\ call_abandoned call = false) /\
  (forall k v b, rc_entries c !! k = Some (v, b) -> loaded_ok (sys_loaded s) k v) /\
  (forall w k v, sys_callers s !! w = Some (Got k (v, None)) -> loaded_ok (sys_loaded s) k v).
Proof.
  intros Hm Hnew Hr. assert (Hs : sys_inv s).
  { generalize (new_system_inv _ _ _ Hm Hnew). induction Hr; eauto using sys_step_inv. }
  assert (Hc := si_cache _ Hs). cbn zeta. split; [apply Hc|]. split; [split; apply Hc|]. split.
  { intros r1 r2 call1 call2 H1 H2 Hk D1 A1 D2 A2.
    assert (L1 := co_live _ _ _ (si_calls _ Hs _ _ H1) D1 A1). assert (L2 := co_live _ _ _ (si_calls _ Hs _ _ H2) D2 A2).
    split; [congruence|]. by apply (si_inflight _ Hs _ _ L1). }
  split.
  { intros w k ref Hw. destruct (si_waiting _ Hs _ _ _ Hw) as (call & Hcall & Hk). exists call. split; [done|].
    split; [done|]. destruct (call_abandoned call) eqn:Ea; [|done]. exfalso.
    assert (H0 := co_abandoned _ _ _ (si_calls _ Hs _ _ Hcall) Ea). unfold blocked in H0. rewrite map_count_zero in H0.
    by apply (H0 w _ Hw). }
  split; [apply Hc|apply Hs].
Qed.
End RevisionCache.
