(* ===== verification/StoreData.v ===== *)
(** Snapshot requests, tuple queries and their results (store/data.go).

    [newError] of the store package and [policyengine.ErrorX] are the same
    categories. The redacted formatting methods are left out. *)

From Stdlib Require Import ZArith Lia Sorted Permutation.
From stdpp Require Import base list gmap strings sorting.
From S2P Require Import Prelude Limits Text Types Cost Canon Data Policy.

Definition aggregateFieldMetadataBytes : Z := 8.
Definition aggregateCollectionMetadataBytes : Z := 8.
Definition aggregateValueMetadataBytes : Z := 9.
Definition aggregateUint64Bytes : Z := 8.
Definition aggregateBoolBytes : Z := 1.

(** * Snapshot requests *)

Record SnapshotRequest := mkSnapshotRequest {
  sr_namespace : string; sr_minimumGeneration : Z; sr_readAt : Time }.

Definition NewSnapshotRequest (namespace : string) (minimumGeneration : Z) (readAt : Time)
  : result SnapshotRequest :=
  let? _ := NewGetDataGenerationRequest namespace in
  if IsZero readAt then Err ErrorInvalidArgument
  else Ok (mkSnapshotRequest namespace minimumGeneration readAt).

(** [candidate == r] compares the fields the constructor copied. *)
Definition SnapshotRequest_Valid (r : SnapshotRequest) : bool :=
  is_ok (NewSnapshotRequest (sr_namespace r) (sr_minimumGeneration r) (sr_readAt r)).

(** * Tuple queries *)

Record TupleQuery := mkTupleQuery { tq_resource : EntityRef; tq_relation : string; tq_limit : Z }.

Definition NewTupleQuery (resource : EntityRef) (relation : string) (limit : Z) : result TupleQuery :=
  if limit <=? 0 then Err ErrorInvalidArgument
  else if MaxAggregateWorkItems <? limit then Err ErrorResourceExhausted
  else
    let? _ := NewTupleKey (mkTuple resource relation (mkSubjectRef "query" "validation" "")) in
    Ok (mkTupleQuery resource relation limit).

Definition TupleQuery_Valid (q : TupleQuery) : bool :=
  is_ok (NewTupleQuery (tq_resource q) (tq_relation q) (tq_limit q)).

(** * Tuple results *)

(** The [add] closures: [used] never exceeds the maximum. *)
Definition aggregate_add (used size : Z) : result Z :=
  if (size <? 0) || (MaxAggregateOutputBytes - used <? size) then Err ErrorResourceExhausted
  else Ok (used + size).

Definition aggregate_text (used : Z) (text : string) : result Z :=
  let? used := aggregate_add used aggregateFieldMetadataBytes in aggregate_add used (len text).

Definition validateTupleResultBytes (query : TupleQuery) (subjects : list SubjectRef) : result unit :=
  let? used := foldM aggregate_text 0
                 [ent_Type (tq_resource query); ent_ID (tq_resource query); tq_relation query] in
  let? used := aggregate_add used aggregateFieldMetadataBytes in
  let? used := aggregate_add used aggregateUint64Bytes in
  let? used := aggregate_add used aggregateCollectionMetadataBytes in
  let? _ := foldM (fun used subject =>
    foldM aggregate_text used [sub_Type subject; sub_ID subject; sub_Relation subject]) used subjects in
  Ok tt.

Record TupleResult := mkTupleResult { tr_query : TupleQuery; tr_subjects : list SubjectRef }.

(** [sort.Slice] then the in-place removal of equal neighbours. *)
Definition NewTupleResult (query : TupleQuery) (subjects : list SubjectRef) : result TupleResult :=
  if negb (TupleQuery_Valid query) then Err ErrorInvalidArgument
  else if (tq_limit query <? zlen subjects) || (MaxAggregateWorkItems <? zlen subjects)
  then Err ErrorResourceExhausted
  else
    let? _ := validateTupleResultBytes query subjects in
    if forallb (fun subject => is_ok (NewRelationshipTuple
         (mkTuple (tq_resource query) (tq_relation query) subject) None)) subjects
    then
      let? ordered := compactM (fun y x => Ok (cmp_eq (compareSubjectRef y x))) None
                        (sort_by compareSubjectRef subjects) in
      Ok (mkTupleResult query ordered)
    else Err ErrorIntegrity.

Definition TupleResult_Valid (r : TupleResult) : bool :=
  match NewTupleResult (tr_query r) (tr_subjects r) with
  | Err _ => false
  | Ok candidate => bool_decide (tr_subjects candidate = tr_subjects r)
  end.

(** * Attribute results *)

Definition zero_value : Value := mkValue 0 "" 0 false.

Record AttributeResult := mkAttributeResult {
  are_key : AttributeKey; are_value : Value; are_found : bool; are_valid : bool }.

Definition validateAttributeResultBytes (key : AttributeKey) (value : Value) : result unit :=
  let? used := foldM aggregate_text 0 [ent_Type (ak_entity key); ent_ID (ak_entity key)] in
  let? used := aggregate_add used aggregateCollectionMetadataBytes in
  let? used := foldM aggregate_text used (ak_path key) in
  let? used := aggregate_add used aggregateFieldMetadataBytes in
  let? used := aggregate_add used aggregateBoolBytes in
  let? used := aggregate_add used aggregateValueMetadataBytes in
  if val_kind value =? ValueKindString then let? _ := aggregate_add used (len (val_text value)) in Ok tt
  else Ok tt.

Definition NewAttributeResult (key : AttributeKey) (value : Value) (found : bool) : result AttributeResult :=
  match NewAttributeKeyPath (ak_entity key) (ak_path key) with
  | Err _ => Err ErrorInvalidArgument
  | Ok canonicalKey =>
      if negb found then
        if negb (val_kind value =? 0) then Err ErrorIntegrity
        else
          let? _ := validateAttributeResultBytes canonicalKey value in
          Ok (mkAttributeResult canonicalKey zero_value false true)
      else if negb (is_ok (NewAttributePath (ak_entity canonicalKey) (ak_path canonicalKey) value))
      then Err ErrorIntegrity
      else
        let? _ := validateAttributeResultBytes canonicalKey value in
        Ok (mkAttributeResult canonicalKey value true true)
  end.

Definition AttributeResult_Valid (r : AttributeResult) : bool :=
  if negb (are_valid r) then false
  else match NewAttributeResult (are_key r) (are_value r) (are_found r) with
       | Err _ => false
       | Ok candidate => are_valid candidate && eqb (are_found candidate) (are_found r)
       end.

(** * Facts *)

(** A tuple result lists the given subjects once each, in order. *)
Lemma NewTupleResult_Ok query subjects r :
  NewTupleResult query subjects = Ok r ->
  tr_query r = query /\ StronglySorted (clt compareSubjectRef) (tr_subjects r) /\
  (forall x, x ∈ tr_subjects r <-> x ∈ subjects).
Proof.
  unfold NewTupleResult. destruct (TupleQuery_Valid query); [|done]. cbn [negb].
  destruct (_ || _); [done|]. intros (? & _ & H)%rbind_ok. destruct (forallb _ _); [|done].
  apply rbind_ok in H as (ordered & Hc & [= <-]).
  destruct (compact_sorted_spec compareSubjectRef _ (sort_by_sorted compareSubjectRef subjects)) as (l' & E & S' & M).
  assert (ordered = l') as -> by (unfold same_step in E; congruence). split; [done|]. split; [done|].
  intros y. by rewrite M, (sort_by_elem compareSubjectRef).
Qed.

(** ** The output budget in closed form *)

Definition acharge (used cost : Z) : result Z :=
  if used + cost <=? MaxAggregateOutputBytes then Ok (used + cost) else Err ErrorResourceExhausted.

Definition aggregate_ok (used : Z) : Prop := 0 <= used <= MaxAggregateOutputBytes.

(** A step that charges [cost x], whatever was used before. *)
Definition aggregates {A} (f : Z -> A -> result Z) (cost : A -> Z) : Prop :=
  forall used x, aggregate_ok used -> 0 <= cost x /\ f used x = acharge used (cost x).

Lemma aggregate_add_charge used size :
  aggregate_ok used -> 0 <= size -> aggregate_add used size = acharge used size.
Proof.
  unfold aggregate_ok, aggregate_add, acharge. intros Hu Hs.
  replace (size <? 0) with false by (symmetry; by apply Z.ltb_ge). cbn [orb].
  destruct (Z.ltb_spec (MaxAggregateOutputBytes - used) size), (Z.leb_spec (used + size) MaxAggregateOutputBytes); done || lia.
Qed.

Lemma aggregate_seq used first n (k : Z -> result Z) m :
  aggregate_ok used -> 0 <= n -> 0 <= m -> first = acharge used n ->
  (forall used', aggregate_ok used' -> k used' = acharge used' m) ->
  (let? used' := first in k used') = acharge used (n + m).
Proof.
  intros Hu Hn Hm -> Hk. unfold acharge at 1. destruct (Z.leb_spec (used + n) MaxAggregateOutputBytes); simpl.
  - rewrite Hk by (unfold aggregate_ok in *; lia). unfold acharge. by rewrite Z.add_assoc.
  - unfold acharge. destruct (Z.leb_spec (used + (n + m)) MaxAggregateOutputBytes); [lia|done].
Qed.

Lemma aggregate_text_charges : aggregates aggregate_text textCost.
Proof.
  intros used x Hu. split; [apply textCost_nonneg|]. assert (H := len_nonneg x).
  apply aggregate_seq; auto; [lia|by apply aggregate_add_charge|]. intros. by apply aggregate_add_charge.
Qed.

Lemma aggregate_fold {A} (f : Z -> A -> result Z) cost : aggregates f cost -> aggregates (foldM f) (sum_cost cost).
Proof.
  intros Hf used xs Hu. assert (Hc : forall x, 0 <= cost x) by (intros x; apply (Hf 0 x); by vm_compute).
  split; [by apply sum_cost_nonneg|]. revert used Hu. induction xs as [|x xs IH]; intros used Hu; simpl.
  - unfold acharge, aggregate_ok in *. rewrite Z.add_0_r. by destruct (Z.leb_spec used MaxAggregateOutputBytes); [|lia].
  - apply aggregate_seq; [done|auto|by apply sum_cost_nonneg|by apply Hf|exact IH].
Qed.

(** The last part of a size check, which drops the counter. *)
Definition fits (used cost : Z) : result unit :=
  if used + cost <=? MaxAggregateOutputBytes then Ok tt else Err ErrorResourceExhausted.

Lemma fits_seq used first n (k : Z -> result unit) m :
  aggregate_ok used -> 0 <= n -> 0 <= m -> first = acharge used n ->
  (forall used', aggregate_ok used' -> k used' = fits used' m) ->
  (let? used' := first in k used') = fits used (n + m).
Proof.
  intros Hu Hn Hm -> Hk. unfold acharge. destruct (Z.leb_spec (used + n) MaxAggregateOutputBytes); simpl.
  - rewrite Hk by (unfold aggregate_ok in *; lia). unfold fits. by rewrite Z.add_assoc.
  - unfold fits. destruct (Z.leb_spec (used + (n + m)) MaxAggregateOutputBytes); [lia|done].
Qed.

Lemma fits_last used first n : first = acharge used n -> (let? _ := first in Ok tt) = fits used n.
Proof. intros ->. unfold acharge, fits. by case_match. Qed.

Ltac fits_charge :=
  first [ apply aggregate_add_charge; [assumption|first [apply len_nonneg|by vm_compute]]
        | eapply (aggregate_fold aggregate_text textCost aggregate_text_charges); assumption ].

Ltac fits_charges :=
  repeat (apply fits_seq; [assumption|solve [solve_nonneg]|solve [solve_nonneg]|fits_charge|];
          let u := fresh "u" in intros u ?).

Definition tupleResultCost (query : TupleQuery) (subjects : list SubjectRef) : Z :=
  sum_cost textCost [ent_Type (tq_resource query); ent_ID (tq_resource query); tq_relation query] +
  (8 + (8 + (8 + sum_cost subjectCost subjects))).

Definition attributeResultCost (key : AttributeKey) (value : Value) : Z := attributeKeyCost key + (9 + valueCost value).

Lemma aggregate_subject_charges :
  aggregates (fun used subject => foldM aggregate_text used [sub_Type subject; sub_ID subject; sub_Relation subject])
    subjectCost.
Proof.
  intros used x Hu. split; [solve_nonneg|].
  destruct (aggregate_fold _ _ aggregate_text_charges used [sub_Type x; sub_ID x; sub_Relation x] Hu) as [_ ->].
  f_equal. unfold subjectCost. simpl. lia.
Qed.

Lemma validateTupleResultBytes_exact query subjects :
  validateTupleResultBytes query subjects =
  if tupleResultCost query subjects <=? MaxAggregateOutputBytes then Ok tt else Err ErrorResourceExhausted.
Proof.
  change (validateTupleResultBytes query subjects = fits 0 (tupleResultCost query subjects)).
  assert (aggregate_ok 0) by by vm_compute.
  unfold validateTupleResultBytes, tupleResultCost. fits_charges.
  apply fits_last. by apply (aggregate_fold _ _ aggregate_subject_charges).
Qed.

Lemma validateAttributeResultBytes_exact key value :
  validateAttributeResultBytes key value =
  if attributeResultCost key value <=? MaxAggregateOutputBytes then Ok tt else Err ErrorResourceExhausted.
Proof.
  change (validateAttributeResultBytes key value = fits 0 (attributeResultCost key value)).
  assert (aggregate_ok 0) by by vm_compute.
  replace (attributeResultCost key value) with
    (sum_cost textCost [ent_Type (ak_entity key); ent_ID (ak_entity key)] +
     (8 + (sum_cost textCost (ak_path key) + (8 + (1 + (9 + (if val_kind value =? ValueKindString then len (val_text value) else 0)))))))
    by (unfold attributeResultCost, attributeKeyCost, entityCost, pathCost, valueCost; simpl; lia).
  assert (Hl := len_nonneg (val_text value)).
  assert (0 <= if val_kind value =? ValueKindString then len (val_text value) else 0) by (case_match; lia).
  unfold validateAttributeResultBytes. fits_charges. case_match.
  - apply fits_last. by apply aggregate_add_charge.
  - unfold fits. rewrite Z.add_0_r. unfold aggregate_ok in *. by case_match eqn:E; [|apply Z.leb_gt in E; lia].
Qed.

(** Within the query's limit, a tuple result of valid subjects is built unless
    it exceeds the output budget. *)
Lemma NewTupleResult_total query subjects :
  TupleQuery_Valid query = true -> zlen subjects <= tq_limit query ->
  forallb (fun subject => is_ok (NewRelationshipTuple
    (mkTuple (tq_resource query) (tq_relation query) subject) None)) subjects = true ->
  if tupleResultCost query subjects <=? MaxAggregateOutputBytes
  then exists r, NewTupleResult query subjects = Ok r
  else NewTupleResult query subjects = Err ErrorResourceExhausted.
Proof.
  intros Hq Hl Hv. unfold NewTupleResult. rewrite Hq, Hv. cbn [negb].
  assert (Hmax : tq_limit query <= MaxAggregateWorkItems).
  { unfold TupleQuery_Valid, NewTupleQuery in Hq. destruct (_ <=? 0); [done|].
    by destruct (Z.ltb_spec MaxAggregateWorkItems (tq_limit query)). }
  rewrite (proj2 (Z.ltb_ge _ _) Hl), (proj2 (Z.ltb_ge _ _) (Z.le_trans _ _ _ Hl Hmax)). cbn [orb].
  rewrite validateTupleResultBytes_exact. destruct (_ <=? _); [|done]. cbn [rbind].
  destruct (compact_sorted_spec compareSubjectRef _ (sort_by_sorted compareSubjectRef subjects)) as (l' & E & _).
  unfold same_step in E. rewrite E. by eexists.
Qed.
