(* ===== verification/SqliteCodec.v ===== *)
(** The durable encodings of the SQLite store (store/sqlite/codec.go).

    Every record the store writes into a BLOB column is a version byte followed
    by big-endian integers and length-prefixed text. A decoder is a sequence of
    reads of a [codecReader], every failure of which is the same integrity
    error. Each field is an instance of [FieldCodec], whose two laws say that a
    read accepts exactly the field's encoding; [parses] composes them, so that
    every decoder of the package is shown to be the exact inverse of its
    encoder ([DurableCodec]). *)

From Stdlib Require Import ZArith Lia.
From stdpp Require Import base list strings.
From S2P Require Import Prelude Limits Text Types Cost Data DataValid Policy Events Revisions Cursor.

Definition codecVersion : Z := 1.
Definition provenanceAbsent : Z := 0.
Definition provenancePresent : Z := 1.

(** * The reader *)

Record codecReader := mkReader { cr_data : list Z; cr_offset : Z }.

Definition newReader (data : list Z) : codecReader := mkReader data 0.

(** [r.data[from:to]] *)
Definition slice (data : list Z) (from to : Z) : list Z :=
  take (Z.to_nat (to - from)) (drop (Z.to_nat from) data).

(** [len(r.data)-r.offset] *)
Definition reader_left (r : codecReader) : Z := zlen (cr_data r) - cr_offset r.

Definition reader_byte (r : codecReader) : option (Z * codecReader) :=
  if zlen (cr_data r) <=? cr_offset r then None
  else match cr_data r !! Z.to_nat (cr_offset r) with
       | Some value => Some (value, mkReader (cr_data r) (cr_offset r + 1))
       | None => None
       end.

Definition reader_string16 (maximum : Z) (r : codecReader) : option (string * codecReader) :=
  if reader_left r <? 2 then None
  else
    let length := be_decode (slice (cr_data r) (cr_offset r) (cr_offset r + 2)) in
    let r := mkReader (cr_data r) (cr_offset r + 2) in
    if (maximum <? length) || (reader_left r <? length) then None
    else
      let value := string_of_bytes (slice (cr_data r) (cr_offset r) (cr_offset r + length)) in
      Some (value, mkReader (cr_data r) (cr_offset r + length)).

Definition reader_bytes32 (maximum : Z) (r : codecReader) : option (list Z * codecReader) :=
  if reader_left r <? 4 then None
  else
    let length := be_decode (slice (cr_data r) (cr_offset r) (cr_offset r + 4)) in
    let r := mkReader (cr_data r) (cr_offset r + 4) in
    if (maximum <? length) || (reader_left r <? length) then None
    else
      let stop := cr_offset r + length in
      Some (slice (cr_data r) (cr_offset r) stop, mkReader (cr_data r) stop).

Definition reader_uint32 (r : codecReader) : option (Z * codecReader) :=
  if reader_left r <? 4 then None
  else Some (be_decode (slice (cr_data r) (cr_offset r) (cr_offset r + 4)), mkReader (cr_data r) (cr_offset r + 4)).

Definition reader_uint64 (r : codecReader) : option (Z * codecReader) :=
  if reader_left r <? 8 then None
  else Some (be_decode (slice (cr_data r) (cr_offset r) (cr_offset r + 8)), mkReader (cr_data r) (cr_offset r + 8)).

Definition reader_int64 (r : codecReader) : option (Z * codecReader) :=
  match reader_uint64 r with
  | Some (value, r) => Some (int64 value, r)
  | None => None
  end.

Definition reader_fixed (length : Z) (r : codecReader) : option (list Z * codecReader) :=
  if (length <? 0) || (reader_left r <? length) then None
  else Some (slice (cr_data r) (cr_offset r) (cr_offset r + length), mkReader (cr_data r) (cr_offset r + length)).

Definition reader_done (r : codecReader) : bool := cr_offset r =? zlen (cr_data r).

(** [value, ok := reader.m(); if !ok { return error }] *)
Definition readOr {A B} (e : ErrorCategory) (m : option (A * codecReader))
  (k : A -> codecReader -> result B) : result B :=
  match m with Some (x, r) => k x r | None => Err e end.

Notation "'read?' x ',' r ':=' m 'or' e 'in' k" := (readOr e m (fun x r => k))
  (at level 10, x name, r name, m at level 200, e at level 9, k at level 200) : go_scope.

(** * Writers. The integer arguments are of the named width. *)

Definition appendCodecUint16 (destination : list Z) (value : Z) : list Z := destination ++ be_encode 2 value.
Definition appendCodecUint32 (destination : list Z) (value : Z) : list Z := destination ++ be_encode 4 value.
Definition appendCodecUint64 (destination : list Z) (value : Z) : list Z := destination ++ be_encode 8 value.

Definition appendCodecString16 (destination : list Z) (value : string) : list Z :=
  appendCodecUint16 destination (len value mod 2 ^ 16) ++ bytes_of_string value.

(** * Times *)

Definition codecTime (value : Time) : option (Z * Z) :=
  if IsZero value then None else Some (Unix value, Nanosecond value).

Definition decodeCodecTime (seconds nanos : Z) : option Time :=
  if Second <=? nanos then None
  else
    let result := time_Unix seconds nanos in
    if IsZero result then None else Some result.

(** [err != nil] of a constructor becomes an integrity error. *)
Definition integrity {A} (r : result A) : result A :=
  match r with Ok a => Ok a | Err _ => Err ErrorIntegrity end.

(** * Revision metadata, activations and state events *)

Definition canonicalRevisionMetadata (value : RevisionMetadata) : result RevisionMetadata :=
  let? id := integrity (ParseRevisionID (RevisionMetadata_ID value)) in
  integrity (NewRevisionMetadata (rm_namespace value) id (rm_publishedAt value)).

Definition encodeRevisionMetadata (value : RevisionMetadata) : result (list Z) :=
  let? canonical := canonicalRevisionMetadata value in
  match codecTime (rm_publishedAt canonical) with
  | None => Err ErrorIntegrity
  | Some (seconds, nanos) =>
      let encoded := [codecVersion] in
      let encoded := appendCodecString16 encoded (rm_namespace canonical) in
      let encoded := appendCodecString16 encoded (RevisionMetadata_ID canonical) in
      let encoded := appendCodecUint64 encoded (seconds mod 2 ^ 64) in
      Ok (appendCodecUint32 encoded nanos)
  end.

Definition decodeRevisionMetadata (encoded : list Z) : result RevisionMetadata :=
  let reader := newReader encoded in
  read? version, reader := reader_byte reader or ErrorIntegrity in
  if negb (version =? codecVersion) then Err ErrorIntegrity
  else
    read? namespace, reader := reader_string16 MaxNamespaceBytes reader or ErrorIntegrity in
    read? revisionID, reader := reader_string16 MaxIdentifierBytes reader or ErrorIntegrity in
    read? seconds, reader := reader_int64 reader or ErrorIntegrity in
    read? nanos, reader := reader_uint32 reader or ErrorIntegrity in
    if negb (reader_done reader) then Err ErrorIntegrity
    else match decodeCodecTime seconds nanos with
         | None => Err ErrorIntegrity
         | Some when =>
             let? id := integrity (ParseRevisionID revisionID) in
             integrity (NewRevisionMetadata namespace id when)
         end.

Definition canonicalActivation (value : Activation) : result Activation :=
  integrity (NewActivation (act_namespace value) (act_slot value) (act_revisionID value)
               (act_generation value) (act_activatedAt value)).

Definition encodeActivation (value : Activation) : result (list Z) :=
  let? canonical := canonicalActivation value in
  match codecTime (act_activatedAt canonical) with
  | None => Err ErrorIntegrity
  | Some (seconds, nanos) =>
      let encoded := [codecVersion] in
      let encoded := appendCodecString16 encoded (act_namespace canonical) in
      let encoded := appendCodecString16 encoded (act_slot canonical) in
      let encoded := appendCodecString16 encoded (act_revisionID canonical) in
      let encoded := appendCodecUint64 encoded (act_generation canonical) in
      let encoded := appendCodecUint64 encoded (seconds mod 2 ^ 64) in
      Ok (appendCodecUint32 encoded nanos)
  end.

Definition decodeActivation (encoded : list Z) : result Activation :=
  let reader := newReader encoded in
  read? version, reader := reader_byte reader or ErrorIntegrity in
  if negb (version =? codecVersion) then Err ErrorIntegrity
  else
    read? namespace, reader := reader_string16 MaxNamespaceBytes reader or ErrorIntegrity in
    read? slot, reader := reader_string16 MaxIdentifierBytes reader or ErrorIntegrity in
    read? revisionID, reader := reader_string16 MaxIdentifierBytes reader or ErrorIntegrity in
    read? generation, reader := reader_uint64 reader or ErrorIntegrity in
    read? seconds, reader := reader_int64 reader or ErrorIntegrity in
    read? nanos, reader := reader_uint32 reader or ErrorIntegrity in
    if negb (reader_done reader) then Err ErrorIntegrity
    else match decodeCodecTime seconds nanos with
         | None => Err ErrorIntegrity
         | Some when => integrity (NewActivation namespace slot revisionID generation when)
         end.

Definition canonicalStateEvent (value : StateEvent) : result StateEvent :=
  integrity (NewStateEvent (mkStateEvent (ev_namespace value) (ev_cursor value) (ev_kind value)
    (ev_revisionID value) (ev_slot value) (ev_slotGeneration value) (ev_dataGeneration value) (ev_occurredAt value))).

Definition encodeStateEvent (value : StateEvent) : result (list Z) :=
  let? canonical := canonicalStateEvent value in
  match codecTime (ev_occurredAt canonical) with
  | None => Err ErrorIntegrity
  | Some (seconds, nanos) =>
      let encoded := [codecVersion; ev_kind canonical mod 2 ^ 8] in
      let encoded := appendCodecString16 encoded (ev_namespace canonical) in
      let encoded := appendCodecString16 encoded (ev_cursor canonical) in
      let encoded := appendCodecString16 encoded (ev_revisionID canonical) in
      let encoded := appendCodecString16 encoded (ev_slot canonical) in
      let encoded := appendCodecUint64 encoded (ev_slotGeneration canonical) in
      let encoded := appendCodecUint64 encoded (ev_dataGeneration canonical) in
      let encoded := appendCodecUint64 encoded (seconds mod 2 ^ 64) in
      Ok (appendCodecUint32 encoded nanos)
  end.

Definition decodeStateEvent (encoded : list Z) : result StateEvent :=
  let reader := newReader encoded in
  read? version, reader := reader_byte reader or ErrorIntegrity in
  if negb (version =? codecVersion) then Err ErrorIntegrity
  else
    read? kind, reader := reader_byte reader or ErrorIntegrity in
    read? namespace, reader := reader_string16 MaxNamespaceBytes reader or ErrorIntegrity in
    read? cursor, reader := reader_string16 MaxIdentifierBytes reader or ErrorIntegrity in
    read? revisionID, reader := reader_string16 MaxIdentifierBytes reader or ErrorIntegrity in
    read? slot, reader := reader_string16 MaxIdentifierBytes reader or ErrorIntegrity in
    read? slotGeneration, reader := reader_uint64 reader or ErrorIntegrity in
    read? dataGeneration, reader := reader_uint64 reader or ErrorIntegrity in
    read? seconds, reader := reader_int64 reader or ErrorIntegrity in
    read? nanos, reader := reader_uint32 reader or ErrorIntegrity in
    if negb (reader_done reader) then Err ErrorIntegrity
    else match decodeCodecTime seconds nanos with
         | None => Err ErrorIntegrity
         | Some when => integrity (NewStateEvent (mkStateEvent namespace cursor kind revisionID slot
                                     slotGeneration dataGeneration when))
         end.

(** * Provenance *)

Section Provenance.
Context `{D : Dsl}.

Definition encodeRevisionProvenance (value : RevisionProvenance) : result (list Z) :=
  if RevisionProvenance_Valid value then
    let sourceName := prov_sourceName value in
    let source := prov_originalSource value in
    if (MaxSourceNameBytes <? len sourceName) || (MaxPolicySourceBytes <? zlen source)
    then Err ErrorIntegrity
    else
      let encoded := [codecVersion; provenancePresent] in
      let encoded := appendCodecUint16 encoded (len sourceName mod 2 ^ 16) in
      let encoded := encoded ++ bytes_of_string sourceName in
      let encoded := appendCodecUint32 encoded (zlen source mod 2 ^ 32) in
      Ok (encoded ++ source)
  else if bool_decide (prov_sourceName value = ""%string) && (zlen (prov_originalSource value) =? 0)
  then Ok [codecVersion; provenanceAbsent]
  else Err ErrorIntegrity.

Definition decodeRevisionProvenance (namespace : string) (encoded : list Z) : result RevisionProvenance :=
  let reader := newReader encoded in
  read? version, reader := reader_byte reader or ErrorIntegrity in
  if negb (version =? codecVersion) then Err ErrorIntegrity
  else
    read? presence, reader := reader_byte reader or ErrorIntegrity in
    if presence =? provenanceAbsent then
      if negb (reader_done reader) then Err ErrorIntegrity else Ok zero_provenance
    else if presence =? provenancePresent then
      read? sourceName, reader := reader_string16 MaxSourceNameBytes reader or ErrorIntegrity in
      read? source, reader := reader_bytes32 MaxPolicySourceBytes reader or ErrorIntegrity in
      if negb (reader_done reader) then Err ErrorIntegrity
      else
        let? request := integrity (NewPublishRequest namespace sourceName source) in
        integrity (NewRevisionProvenance request)
    else Err ErrorIntegrity.
End Provenance.

(** * What a read accepts *)

(** The unread bytes. *)
Definition rest (r : codecReader) : list Z := drop (Z.to_nat (cr_offset r)) (cr_data r).

Definition reader_wf (r : codecReader) : Prop :=
  0 <= cr_offset r <= zlen (cr_data r) /\ Forall is_byte (cr_data r).

(** A read takes from the front exactly the encoding of a value of the field's
    domain, and it always succeeds on one. *)
Class FieldCodec {A} (P : A -> Prop) (enc : A -> list Z)
  (read : codecReader -> option (A * codecReader)) : Prop := {
  field_sound r x r' : reader_wf r -> read r = Some (x, r') ->
    P x /\ rest r = enc x ++ rest r' /\ reader_wf r';
  field_complete r x bs : reader_wf r -> P x -> rest r = enc x ++ bs ->
    exists r', read r = Some (x, r') /\ rest r' = bs /\ reader_wf r' }.

Lemma newReader_wf bs : Forall is_byte bs -> reader_wf (newReader bs).
Proof. intros H. split; [|done]. simpl. pose proof (zlen_nonneg bs). lia. Qed.

Lemma rest_length r : reader_wf r -> zlen (rest r) = reader_left r.
Proof. intros [H _]. unfold rest, reader_left, zlen in *. rewrite length_drop. lia. Qed.

Lemma rest_bytes r : reader_wf r -> Forall is_byte (rest r).
Proof. intros [_ H]. by apply Forall_drop. Qed.

Lemma rest_nil r : reader_wf r -> reader_done r = true <-> rest r = [].
Proof.
  intros Hr. rewrite <- zlen_zero, rest_length by done. unfold reader_done, reader_left.
  rewrite Z.eqb_eq. lia.
Qed.

Lemma rest_slice r n : 0 <= n -> slice (cr_data r) (cr_offset r) (cr_offset r + n) = take (Z.to_nat n) (rest r).
Proof. intros. unfold slice, rest. f_equal. lia. Qed.

(** Moving forward by [n] unread bytes. *)
Lemma rest_advance r n : reader_wf r -> 0 <= n <= reader_left r ->
  let r' := mkReader (cr_data r) (cr_offset r + n) in
  rest r' = drop (Z.to_nat n) (rest r) /\ reader_wf r'.
Proof.
  intros [Ho Hb] Hn r'. unfold reader_left in Hn. split; [|split; [unfold r'; cbn [cr_data cr_offset]; lia|done]].
  unfold rest, r'. cbn [cr_data cr_offset]. rewrite drop_drop. f_equal. lia.
Qed.

(** Big-endian numbers are exactly the byte strings of their width. *)
Lemma be_decode_range bs : Forall is_byte bs -> 0 <= be_decode bs < 256 ^ zlen bs.
Proof.
  unfold be_decode. induction bs as [|b bs IH] using rev_ind; intros H; [done|].
  apply Forall_app in H as [H Hb]. rewrite Forall_singleton in Hb. specialize (IH H). unfold is_byte in Hb.
  rewrite fold_left_app, zlen_app. cbn [fold_left]. change (zlen [b]) with 1.
  rewrite Z.pow_add_r, Z.pow_1_r by (pose proof (zlen_nonneg bs); lia). lia.
Qed.

Lemma be_encode_decode bs : Forall is_byte bs -> be_encode (length bs) (be_decode bs) = bs.
Proof.
  assert (S : forall n v b, is_byte b -> be_encode (S n) (v * 256 + b) = be_encode n v ++ [b]).
  { unfold is_byte. intros n v b Hb. induction n as [|n IH].
    { cbn. rewrite Z.div_1_r. f_equal. rewrite Z.add_comm, Z.mod_add, Z.mod_small by lia. done. }
    cbn [be_encode]. cbn [be_encode] in IH. rewrite IH. cbn [app]. f_equal.
    rewrite Nat2Z.inj_succ, Z.pow_succ_r by lia.
    rewrite <- Z.div_div by (try lia; apply Z.pow_nonzero; lia). do 2 f_equal. dlia. }
  unfold be_decode. induction bs as [|b bs IH] using rev_ind; intros H; [done|].
  apply Forall_app in H as [H Hb]. rewrite Forall_singleton in Hb.
  rewrite fold_left_app, length_app, Nat.add_comm. cbn [fold_left length Nat.add].
  rewrite S by done. by rewrite IH.
Qed.

(** * The fields *)

Definition unsigned (width : Z) (v : Z) : Prop := 0 <= v < 2 ^ width.

Lemma uint_field n width read : width = 8 * Z.of_nat n ->
  (forall r, read r = if reader_left r <? Z.of_nat n then None
     else Some (be_decode (slice (cr_data r) (cr_offset r) (cr_offset r + Z.of_nat n)),
                mkReader (cr_data r) (cr_offset r + Z.of_nat n))) ->
  FieldCodec (unsigned width) (be_encode n) read.
Proof.
  intros -> Hread.
  assert (E : 2 ^ (8 * Z.of_nat n) = 256 ^ Z.of_nat n) by (rewrite Z.pow_mul_r by lia; done).
  split; intros r x.
  - intros r' Hr. rewrite Hread. destruct (Z.ltb_spec (reader_left r) (Z.of_nat n)); [done|].
    rewrite rest_slice, Nat2Z.id by lia. intros [= <- <-].
    destruct (rest_advance r (Z.of_nat n) Hr ltac:(lia)) as [Ha Hw]. cbn zeta in Ha. rewrite Nat2Z.id in Ha.
    assert (Hb : Forall is_byte (take n (rest r))) by (by apply Forall_take, rest_bytes).
    assert (Hl : length (take n (rest r)) = n).
    { rewrite length_take. pose proof (rest_length r Hr). unfold zlen in *. lia. }
    split; [|split; [|done]].
    + unfold unsigned. rewrite E. pose proof (be_decode_range _ Hb) as R. unfold zlen in R. by rewrite Hl in R.
    + rewrite <- Hl at 1. rewrite be_encode_decode, Ha by done. by rewrite take_drop.
  - intros bs Hr Hx Hrest. rewrite Hread. pose proof (rest_length r Hr) as L.
    rewrite Hrest, zlen_app in L. unfold zlen in L. rewrite be_encode_length in L.
    destruct (Z.ltb_spec (reader_left r) (Z.of_nat n)); [lia|].
    destruct (rest_advance r (Z.of_nat n) Hr ltac:(lia)) as [Ha Hw]. cbn zeta in Ha. rewrite Nat2Z.id in Ha.
    eexists. rewrite rest_slice, Nat2Z.id, Hrest, take_app_length' by (rewrite ?be_encode_length; lia).
    rewrite be_decode_encode by (unfold unsigned in Hx; lia). split; [done|]. split; [|done].
    by rewrite Ha, Hrest, drop_app_length' by (by rewrite be_encode_length).
Qed.

#[export] Instance uint32_field : FieldCodec (unsigned 32) (be_encode 4) reader_uint32.
Proof. by apply (uint_field 4). Qed.
#[export] Instance uint64_field : FieldCodec (unsigned 64) (be_encode 8) reader_uint64.
Proof. by apply (uint_field 8). Qed.

Definition signed64 (v : Z) : Prop := - 2 ^ 63 <= v < 2 ^ 63.

Lemma int64_signed v : signed64 (int64 v).
Proof. unfold signed64, int64. pose proof (Z.mod_pos_bound (v + 2 ^ 63) (2 ^ 64) ltac:(lia)). lia. Qed.

Lemma int64_unsigned v : unsigned 64 v -> int64 v mod 2 ^ 64 = v.
Proof.
  unfold unsigned. intros H. destruct (int64_spec v) as [k ->]. rewrite Z.mod_add by lia. by apply Z.mod_small.
Qed.

#[export] Instance int64_field : FieldCodec signed64 (fun v => be_encode 8 (v mod 2 ^ 64)) reader_int64.
Proof.
  split; intros r x.
  - intros r' Hr. unfold reader_int64. destruct (reader_uint64 r) as [[v r1]|] eqn:E; [|done].
    intros [= <- <-]. apply field_sound in E as (Hv & Hrest & Hw); [|done].
    split; [apply int64_signed|]. by rewrite int64_unsigned.
  - intros bs Hr Hx Hrest. unfold reader_int64.
    assert (U : unsigned 64 (x mod 2 ^ 64)) by (by apply Z.mod_pos_bound).
    destruct (field_complete (FieldCodec := uint64_field) r _ bs Hr U Hrest) as (r' & -> & ?).
    exists r'. by rewrite int64_mod, int64_fixed.
Qed.

#[export] Instance byte_field : FieldCodec is_byte (fun b => [b]) reader_byte.
Proof.
  split; intros r x.
  - intros r' Hr. unfold reader_byte. destruct (Z.leb_spec (zlen (cr_data r)) (cr_offset r)); [done|].
    destruct (_ !! _) as [b|] eqn:E; [|done]. intros [= <- <-].
    destruct (rest_advance r 1 Hr ltac:(unfold reader_left; destruct Hr; lia)) as [Ha Hw].
    assert (C : rest r = b :: drop 1 (rest r)).
    { unfold rest at 1. rewrite (drop_S _ _ _ E). unfold rest. rewrite drop_drop. do 2 f_equal. lia. }
    split; [|split; [rewrite Ha; exact C|done]].
    pose proof (rest_bytes r Hr) as Hb. rewrite C in Hb. by inversion_clear Hb.
  - intros bs Hr Hx Hrest. unfold reader_byte. pose proof (rest_length r Hr) as L. rewrite Hrest in L.
    cbn [app] in L. rewrite zlen_cons in L. pose proof (zlen_nonneg bs). unfold reader_left in L.
    destruct (Z.leb_spec (zlen (cr_data r)) (cr_offset r)); [lia|].
    assert (E : cr_data r !! Z.to_nat (cr_offset r) = Some x).
    { rewrite <- (Nat.add_0_r (Z.to_nat _)), <- lookup_drop. change (rest r !! 0%nat = Some x). by rewrite Hrest. }
    rewrite E. destruct (rest_advance r 1 Hr ltac:(unfold reader_left; lia)) as [Ha Hw].
    eexists. split; [done|]. split; [|done]. by rewrite Ha, Hrest.
Qed.

(** [string16] and [bytes32]: a length prefix and that many bytes. *)
Lemma prefixed_field n maximum read : 0 <= maximum < 256 ^ Z.of_nat n ->
  (forall r, read r = if reader_left r <? Z.of_nat n then None
     else
       let length := be_decode (slice (cr_data r) (cr_offset r) (cr_offset r + Z.of_nat n)) in
       let r := mkReader (cr_data r) (cr_offset r + Z.of_nat n) in
       if (maximum <? length) || (reader_left r <? length) then None
       else Some (slice (cr_data r) (cr_offset r) (cr_offset r + length), mkReader (cr_data r) (cr_offset r + length))) ->
  FieldCodec (fun bs => Forall is_byte bs /\ zlen bs <= maximum) (fun bs => be_encode n (zlen bs) ++ bs) read.
Proof.
  intros Hm Hread.
  assert (F : FieldCodec (unsigned (8 * Z.of_nat n)) (be_encode n) (fun r =>
    if reader_left r <? Z.of_nat n then None
    else Some (be_decode (slice (cr_data r) (cr_offset r) (cr_offset r + Z.of_nat n)),
               mkReader (cr_data r) (cr_offset r + Z.of_nat n)))) by (by apply uint_field).
  assert (E : 2 ^ (8 * Z.of_nat n) = 256 ^ Z.of_nat n) by (rewrite Z.pow_mul_r by lia; done).
  split; intros r x.
  - intros r' Hr. rewrite Hread. cbv zeta. pose proof (fun v r1 => field_sound (FieldCodec := F) r v r1 Hr) as S.
    cbv beta in S. destruct (_ <? Z.of_nat n); [done|].
    specialize (S _ _ eq_refl) as (Hv & Hrest & Hw). revert Hv Hrest Hw.
    set (r1 := mkReader _ _). set (v := be_decode _). intros Hv Hrest Hw.
    destruct (Z.ltb_spec maximum v); [done|]. destruct (Z.ltb_spec (reader_left r1) v); [done|].
    unfold unsigned in Hv. cbn [orb]. rewrite rest_slice by lia. intros [= <- <-].
    destruct (rest_advance r1 v Hw ltac:(lia)) as [Ha Hw']. cbn zeta in Ha.
    assert (L : zlen (take (Z.to_nat v) (rest r1)) = v).
    { unfold zlen. rewrite length_take. pose proof (rest_length r1 Hw). unfold zlen in *. lia. }
    split; [split; [by apply Forall_take, rest_bytes|lia]|]. split; [|done].
    rewrite L, <- app_assoc, Hrest. f_equal. etrans; [symmetry; apply (take_drop (Z.to_nat v))|]. f_equal. by rewrite <- Ha.
  - intros bs Hr [Hb Hl] Hrest. rewrite Hread. cbv zeta. rewrite <- app_assoc in Hrest.
    destruct (field_complete (FieldCodec := F) r (zlen x) (x ++ bs) Hr) as (r1 & Hr1 & Hrest1 & Hw); [|done|].
    { unfold unsigned. pose proof (zlen_nonneg x). lia. }
    destruct (_ <? Z.of_nat n); [done|]. injection Hr1 as Hv Hr1. rewrite Hv, Hr1.
    pose proof (rest_length r1 Hw) as L. rewrite Hrest1, zlen_app in L. pose proof (zlen_nonneg bs). pose proof (zlen_nonneg x).
    destruct (Z.ltb_spec maximum (zlen x)); [lia|]. destruct (Z.ltb_spec (reader_left r1) (zlen x)); [lia|].
    destruct (rest_advance r1 (zlen x) Hw ltac:(lia)) as [Ha Hw']. cbn zeta in Ha.
    eexists. cbn [orb]. rewrite rest_slice, Hrest1 by lia. unfold zlen at 1. rewrite Nat2Z.id, take_app_length.
    split; [done|]. split; [|done]. rewrite Ha, Hrest1. unfold zlen. by rewrite Nat2Z.id, drop_app_length.
Qed.

#[export] Instance bytes32_field maximum : 0 <= maximum < 2 ^ 32 ->
  FieldCodec (fun bs => Forall is_byte bs /\ zlen bs <= maximum) (fun bs => be_encode 4 (zlen bs) ++ bs)
    (reader_bytes32 maximum).
Proof. intros Hm. by apply (prefixed_field 4). Qed.

(** A field read through a conversion that is exact in both directions. *)
Lemma mapped_field {A B} (P : A -> Prop) (Q : B -> Prop) enc read (f : A -> B) (g : B -> A) (read' : codecReader -> option (B * codecReader)) :
  FieldCodec P enc read ->
  (forall r, read' r = match read r with Some (x, r) => Some (f x, r) | None => None end) ->
  (forall x, P x -> Q (f x) /\ g (f x) = x) -> (forall y, Q y -> P (g y) /\ f (g y) = y) ->
  FieldCodec Q (fun y => enc (g y)) read'.
Proof.
  intros F Hread Hf Hg. split; intros r x.
  - intros r' Hr. rewrite Hread. destruct (read r) as [[y r1]|] eqn:E; [|done]. intros [= <- <-].
    apply (field_sound (FieldCodec := F)) in E as (Hy & Hrest & Hw); [|done].
    destruct (Hf y Hy) as [HQ Hgf]. by rewrite Hgf.
  - intros bs Hr Hx Hrest. destruct (Hg x Hx) as [HP Hfg].
    destruct (field_complete (FieldCodec := F) r (g x) bs Hr HP Hrest) as (r' & E & ?).
    exists r'. by rewrite Hread, E, Hfg.
Qed.

#[export] Instance string16_field maximum : 0 <= maximum < 2 ^ 16 ->
  FieldCodec (fun s => len s <= maximum) (fun s => be_encode 2 (len s mod 2 ^ 16) ++ bytes_of_string s)
    (reader_string16 maximum).
Proof.
  intros Hm.
  assert (F : FieldCodec (fun s => len s <= maximum)
    (fun s => be_encode 2 (zlen (bytes_of_string s)) ++ bytes_of_string s) (reader_string16 maximum)).
  { pose proof (prefixed_field 2 maximum _ Hm (fun r => eq_refl)) as F.
    apply (mapped_field _ _ _ _ string_of_bytes bytes_of_string _ F).
    - intros r. unfold reader_string16. change (Z.of_nat 2) with 2. cbv zeta.
      destruct (_ <? 2); [done|]. by destruct (_ || _).
    - intros x [Hb Hl]. rewrite bytes_of_string_of_bytes by done. split; [|done].
      by rewrite <- zlen_bytes_of_string, bytes_of_string_of_bytes.
    - intros y Hy. rewrite zlen_bytes_of_string, string_of_bytes_of_string.
      split; [split; [apply bytes_of_string_range|done]|done]. }
  assert (M : forall s, len s <= maximum -> len s mod 2 ^ 16 = zlen (bytes_of_string s)).
  { intros s Hs. rewrite zlen_bytes_of_string. apply Z.mod_small. unfold len in *. lia. }
  split; intros r x.
  - intros r' Hr E. apply (field_sound (FieldCodec := F)) in E as (Hx & Hrest & Hw); [|done]. by rewrite M.
  - intros bs Hr Hx. rewrite M by done. by apply (field_complete (FieldCodec := F)).
Qed.

Lemma fixed_field n : FieldCodec (fun bs => Forall is_byte bs /\ zlen bs = n) (fun bs => bs) (reader_fixed n).
Proof.
  split; intros r x.
  - intros r' Hr. unfold reader_fixed. destruct (Z.ltb_spec n 0); [done|].
    destruct (Z.ltb_spec (reader_left r) n); [done|]. cbn [orb]. rewrite rest_slice by lia. intros [= <- <-].
    destruct (rest_advance r n Hr ltac:(lia)) as [Ha Hw]. cbn zeta in Ha. rewrite Ha, take_drop.
    split; [|done]. split; [by apply Forall_take, rest_bytes|].
    unfold zlen. rewrite length_take. pose proof (rest_length r Hr). unfold zlen in *. lia.
  - intros bs Hr [Hb Hl] Hrest. unfold reader_fixed. pose proof (rest_length r Hr) as L.
    rewrite Hrest, zlen_app in L. pose proof (zlen_nonneg bs). pose proof (zlen_nonneg x).
    destruct (Z.ltb_spec n 0); [lia|]. destruct (Z.ltb_spec (reader_left r) n); [lia|].
    destruct (rest_advance r n Hr ltac:(lia)) as [Ha Hw]. cbn zeta in Ha.
    eexists. cbn [orb]. rewrite rest_slice, Hrest by lia. rewrite <- Hl at 1. unfold zlen at 1.
    rewrite Nat2Z.id, take_app_length. split; [done|]. split; [|done].
    rewrite Ha, Hrest, <- Hl. unfold zlen. by rewrite Nat2Z.id, drop_app_length.
Qed.

(** * Decoders *)

(** The decoder [k] answers [v] exactly on the unread bytes that [S] relates
    to it. *)
Definition parses {B} (k : codecReader -> result B) (S : list Z -> B -> Prop) : Prop :=
  forall r v, reader_wf r -> k r = Ok v <-> S (rest r) v.

Lemma parses_read {A B} P enc (read : codecReader -> option (A * codecReader)) `{F : FieldCodec A P enc read}
  e (k : A -> codecReader -> result B) S :
  (forall x, P x -> parses (k x) (S x)) ->
  parses (fun r => readOr e (read r) k) (fun bs v => exists x bs', P x /\ bs = enc x ++ bs' /\ S x bs' v).
Proof.
  intros Hk r v Hr. unfold readOr. split.
  - destruct (read r) as [[x r1]|] eqn:E; [|done]. intros H.
    apply field_sound in E as (Hx & Hrest & Hw); [|done]. exists x, (rest r1).
    split; [done|]. split; [done|]. by apply Hk.
  - intros (x & bs & Hx & Hrest & HS). destruct (field_complete r x bs Hr Hx Hrest) as (r' & -> & <- & Hw).
    by apply Hk.
Qed.

Lemma parses_guard {B} (b : bool) e (k : codecReader -> result B) S :
  parses k S -> parses (fun r => if b then Err e else k r) (fun bs v => b = false /\ S bs v).
Proof. intros Hk r v Hr. destruct b; [naive_solver|]. rewrite (Hk r v Hr). naive_solver. Qed.

Lemma parses_done {B} e (m : result B) :
  parses (fun r => if negb (reader_done r) then Err e else m) (fun bs v => bs = [] /\ m = Ok v).
Proof.
  intros r v Hr. rewrite <- (rest_nil r Hr). destruct (reader_done r); simpl; naive_solver.
Qed.

Lemma parses_if {B} (b : bool) (k1 k2 : codecReader -> result B) S1 S2 :
  parses k1 S1 -> parses k2 S2 ->
  parses (fun r => if b then k1 r else k2 r) (fun bs v => if b then S1 bs v else S2 bs v).
Proof. by destruct b. Qed.

Lemma parses_fail {B} e : parses (fun _ => @Err B e) (fun _ _ => False).
Proof. intros r v Hr. naive_solver. Qed.

(** A decoder is the exact inverse of an encoder: it answers a value exactly
    on the value's own encoding, and only values of the machine's widths. *)
Class DurableCodec {A} (encode : A -> result (list Z)) (decode : list Z -> result A) (wf : A -> Prop) : Prop :=
  codec_exact bs v : Forall is_byte bs -> decode bs = Ok v <-> encode v = Ok bs /\ wf v.

(** * The time fields *)

Lemma decodeCodecTime_exact seconds nanos t : signed64 seconds -> unsigned 32 nanos ->
  decodeCodecTime seconds nanos = Some t <-> codecTime t = Some (seconds, nanos) /\ time_wf t.
Proof.
  unfold unsigned. intros Hs Hn. unfold decodeCodecTime, codecTime. split.
  - destruct (Z.leb_spec Second nanos) as [|Hlt]; [done|]. destruct (IsZero (time_Unix seconds nanos)) eqn:Hz; [done|].
    intros [= <-]. rewrite Hz.
    assert (Hd : time_Unix seconds nanos / Second = int64 (seconds + unixToInternal)).
    { unfold time_Unix. rewrite Z.add_comm, Z.div_add, Z.div_small by (unfold Second in *; lia). lia. }
    assert (Hm : time_Unix seconds nanos mod Second = nanos).
    { unfold time_Unix. rewrite Z.add_comm, Z.mod_add, Z.mod_small by (unfold Second in *; lia). done. }
    split.
    + unfold Unix, Nanosecond. rewrite Hd, Hm. do 2 f_equal.
      destruct (int64_spec (seconds + unixToInternal)) as [k ->].
      replace (seconds + unixToInternal + k * 2 ^ 64 - unixToInternal) with (seconds + k * 2 ^ 64) by ring.
      by rewrite int64_congr, int64_fixed.
    + unfold time_wf. rewrite Hd. apply int64_signed.
  - intros [Ht Hw]. destruct (IsZero t) eqn:Hz; [done|]. injection Ht as <- <-.
    unfold Nanosecond. pose proof (Z.mod_pos_bound t Second ltac:(done)).
    destruct (Z.leb_spec Second (t mod Second)); [lia|].
    assert (E : time_Unix (Unix t) (t mod Second) = t).
    { rewrite <- (time_Unix_roundtrip t Hw) at 3. unfold Nanosecond. f_equal.
      rewrite int64_mod. by rewrite int64_fixed by (apply int64_signed). }
    by rewrite E, Hz.
Qed.

(** The two time fields of an encoded value. *)
Lemma codecTime_fields t seconds nanos : codecTime t = Some (seconds, nanos) ->
  signed64 seconds /\ unsigned 32 nanos.
Proof.
  unfold codecTime. destruct (IsZero t); [done|]. intros [= <- <-]. split; [apply int64_signed|].
  unfold unsigned, Nanosecond. pose proof (Z.mod_pos_bound t Second ltac:(done)). unfold Second in *. lia.
Qed.

(** * Lengths of validated text *)

Lemma identifier_fits s : validateIdentifier s = Ok tt -> len s <= MaxIdentifierBytes.
Proof. by intros (_ & H & _)%validateText_Ok. Qed.
Lemma optional_fits s : validateOptionalIdentifier s = Ok tt -> len s <= MaxIdentifierBytes.
Proof. by intros (_ & H & _)%validateText_Ok. Qed.
Lemma namespace_fits s : validateNamespace s = Ok tt -> len s <= MaxNamespaceBytes.
Proof. unfold validateNamespace. intros ([] & (_ & H & _)%validateText_Ok & _)%rbind_ok. done. Qed.
Lemma revisionID_fits s : validRevisionIDString s = true -> len s <= MaxIdentifierBytes.
Proof. unfold validRevisionIDString. intros [->%Z.eqb_eq _]%andb_true_iff. by vm_compute. Qed.
Lemma empty_fits s : s = ""%string -> len s <= MaxIdentifierBytes.
Proof. by intros ->. Qed.

#[export] Hint Resolve identifier_fits optional_fits namespace_fits revisionID_fits empty_fits : codec.

Lemma integrity_Ok {A} (r : result A) a : integrity r = Ok a <-> r = Ok a.
Proof. by destruct r. Qed.

Lemma Ok_inj {A} (a b : A) : Ok a = Ok b -> a = b.
Proof. by intros [= ->]. Qed.

Lemma codec_width s maximum : 0 <= maximum < 2 ^ 16 -> len s <= maximum -> len s mod 2 ^ 16 = len s.
Proof. intros. apply Z.mod_small. unfold len in *. lia. Qed.

(** [MaxIdentifierBytes] fits a 16-bit length. *)
#[export] Instance identifier_field :
  FieldCodec (fun s => len s <= MaxIdentifierBytes) (fun s => be_encode 2 (len s mod 2 ^ 16) ++ bytes_of_string s)
    (reader_string16 MaxIdentifierBytes).
Proof. by apply string16_field. Qed.
#[export] Instance namespace_field :
  FieldCodec (fun s => len s <= MaxNamespaceBytes) (fun s => be_encode 2 (len s mod 2 ^ 16) ++ bytes_of_string s)
    (reader_string16 MaxNamespaceBytes).
Proof. by apply string16_field. Qed.

(** The decoders start at the first byte. *)
Lemma parses_start {B} (k : codecReader -> result B) S bs v :
  parses k S -> Forall is_byte bs -> k (newReader bs) = Ok v <-> S bs v.
Proof. intros Hk Hb. by rewrite (Hk _ v (newReader_wf bs Hb)). Qed.

Ltac codec_parse :=
  repeat (lazymatch goal with
    | |- parses (fun r => readOr _ _ _) _ => eapply parses_read; [exact _|]; intros ? ?
    | |- parses (fun r => if negb (reader_done r) then _ else _) _ => eapply parses_done
    | |- parses (fun r => if _ then Err _ else _) _ => eapply parses_guard
    | |- parses (fun r => if _ then _ else _) _ => eapply parses_if
    | |- parses (fun r => Err _) _ => apply parses_fail
    end).

(** Replaces [decode bs = Ok v] by the specification that the reads build. *)
Ltac codec_spec :=
  cbv zeta;
  lazymatch goal with |- ?l = Ok ?v <-> _ =>
    lazymatch l with context [newReader ?bs] =>
      lazymatch (eval pattern (newReader bs) in l) with ?k _ =>
        etrans; [eapply (parses_start k _ bs v); [codec_parse|assumption]|] end end end; cbv beta.

(** Opens the specification that [codec_parse] built. *)
Ltac codec_open H :=
  lazymatch type of H with
  | exists x, _ => let x := fresh x in destruct H as [x H]; codec_open H
  | _ /\ _ => let Hl := fresh "Hf" in destruct H as [Hl H]; codec_open Hl; codec_open H
  | negb (_ =? _) = false => apply negb_false_iff, Z.eqb_eq in H
  | negb (bool_decide _) = false => apply negb_false_iff, bool_decide_eq_true in H
  | _ => idtac
  end.

(** Builds the specification of an encoding, field by field, leaving the
    domains of the fields. *)
Ltac codec_close :=
  repeat (lazymatch goal with
    | |- exists _ _, _ /\ _ = _ ++ _ /\ _ => eexists _, _; split; [|split; [first [reflexivity | rewrite <- app_assoc; reflexivity]|]]
    | |- negb _ = false /\ _ => split; [reflexivity|]
    | |- _ = [] /\ _ => split; [reflexivity|]
    end).

(** * The codecs are exact *)

#[local] Arguments be_encode : simpl never.

Definition activation_machine (a : Activation) : Prop :=
  unsigned 64 (act_generation a) /\ time_wf (act_activatedAt a).

Lemma NewActivation_fits ns sl id g t a : NewActivation ns sl id g t = Ok a ->
  a = mkActivation ns sl id g t /\ len ns <= MaxNamespaceBytes /\ len sl <= MaxIdentifierBytes /\
  len id <= MaxIdentifierBytes.
Proof.
  unfold NewActivation. intros (? & _ & ([] & Hn & ([] & Hs & H)%rbind_ok)%rbind_ok)%rbind_ok.
  destruct (validRevisionIDString id) eqn:Hi; [|done]. destruct (_ || _ || _); [done|].
  injection H as <-. repeat split; eauto with codec.
Qed.

#[export] Instance activation_codec : DurableCodec encodeActivation decodeActivation activation_machine.
Proof.
  intros bs v Hb. unfold decodeActivation. codec_spec.
  unfold encodeActivation, canonicalActivation. split.
  - intros H. codec_open H. subst.
    destruct (decodeCodecTime _ _) as [t|] eqn:Ht; [|done].
    apply decodeCodecTime_exact in Ht as [Ht Hw]; [|done..].
    rewrite integrity_Ok in H. destruct (NewActivation_fits _ _ _ _ _ _ H) as (-> & _). cbn. rewrite H. cbn.
    rewrite Ht. unfold appendCodecString16, appendCodecUint16, appendCodecUint32, appendCodecUint64.
    split; [|done]. f_equal. by rewrite <- !app_assoc, app_nil_r.
  - intros [H [Hg Ht]]. apply rbind_ok in H as (a & Ha & H).
    rewrite integrity_Ok in Ha. destruct (NewActivation_fits _ _ _ _ _ _ Ha) as (-> & Hn & Hs & Hi). cbn in H.
    destruct (codecTime _) as [[seconds nanos]|] eqn:E; [|done]. injection H as <-.
    destruct (codecTime_fields _ _ _ E) as [Hsec Hnan].
    assert (D : decodeCodecTime seconds nanos = Some (act_activatedAt v)).
    { apply decodeCodecTime_exact; done. }
    unfold appendCodecString16, appendCodecUint16, appendCodecUint32, appendCodecUint64. rewrite <- !app_assoc.
    rewrite <- (app_nil_r (be_encode 4 _)). codec_close; [done..|]. rewrite D, Ha. by destruct v.
Qed.

Ltac codec_unfold :=
  unfold appendCodecString16, appendCodecUint16, appendCodecUint32, appendCodecUint64.

Definition event_machine (e : StateEvent) : Prop :=
  unsigned 64 (ev_slotGeneration e) /\ unsigned 64 (ev_dataGeneration e) /\ time_wf (ev_occurredAt e).

Lemma NewStateEvent_fits e e' : NewStateEvent e = Ok e' ->
  e' = e /\ is_byte (ev_kind e) /\ len (ev_namespace e) <= MaxNamespaceBytes /\ len (ev_cursor e) <= MaxIdentifierBytes /\
  len (ev_revisionID e) <= MaxIdentifierBytes /\ len (ev_slot e) <= MaxIdentifierBytes.
Proof.
  intros H. pose proof (NewStateEvent_Ok _ _ H) as ->. split; [done|]. revert H.
  unfold NewStateEvent. intros (? & _ & H)%rbind_ok. destruct (IsZero _); [done|].
  apply rbind_ok in H as ([] & Hn & ([] & Hc & H)%rbind_ok).
  unfold event_fields_ok, StateEventRevisionPublished, StateEventSlotActivated, StateEventDataWritten in H.
  assert (F : is_byte (ev_kind e) /\ (ev_revisionID e = ""%string \/ validRevisionIDString (ev_revisionID e) = true) /\
    (ev_slot e = ""%string \/ validateIdentifier (ev_slot e) = Ok tt)).
  { unfold is_byte. destruct (Z.eqb_spec (ev_kind e) 1); [|destruct (Z.eqb_spec (ev_kind e) 2); [|destruct (Z.eqb_spec (ev_kind e) 3); [|done]]];
      (split; [lia|]); destruct (negb _) eqn:B; try done;
      rewrite negb_true_iff, !orb_false_iff, ?negb_false_iff, ?bool_decide_eq_false in B;
      destruct B as [[[B1 B2] _] _]; split.
    all: try (left; by apply dec_stable). all: try (by right). right. by apply is_ok_unit_iff. }
  destruct F as (Hk & [Hr|Hr] & [Hs|Hs]); repeat split; try apply Hk; eauto with codec.
Qed.

#[export] Instance event_codec : DurableCodec encodeStateEvent decodeStateEvent event_machine.
Proof.
  intros bs v Hb. unfold decodeStateEvent. codec_spec. unfold encodeStateEvent, canonicalStateEvent. split.
  - intros H. codec_open H. subst.
    destruct (decodeCodecTime _ _) as [t|] eqn:Ht; [|done].
    apply decodeCodecTime_exact in Ht as [Ht Hw]; [|done..].
    rewrite integrity_Ok in H. destruct (NewStateEvent_fits _ _ H) as (-> & Hk & _). cbn in *. rewrite H. cbn. rewrite Ht.
    codec_unfold. split; [|done]. f_equal. unfold is_byte in Hk. rewrite Z.mod_small by done.
    by rewrite <- !app_assoc, app_nil_r.
  - intros [H (Hg & Hd & Ht)]. apply rbind_ok in H as (a & Ha & H).
    rewrite integrity_Ok in Ha. destruct (NewStateEvent_fits _ _ Ha) as (-> & Hk & Hn & Hc & Hr & Hs). cbn in H, Hk, Hn, Hc, Hr, Hs.
    destruct (codecTime _) as [[seconds nanos]|] eqn:E; [|done]. injection H as <-.
    destruct (codecTime_fields _ _ _ E) as [Hsec Hnan].
    assert (D : decodeCodecTime seconds nanos = Some (ev_occurredAt v)) by (by apply decodeCodecTime_exact).
    codec_unfold. rewrite <- (app_nil_r (be_encode 4 _)), <- !app_assoc.
    rewrite Z.mod_small by (unfold is_byte in Hk; lia).
    codec_close; [done..|]. rewrite D, Ha. by destruct v.
Qed.

Definition metadata_machine (m : RevisionMetadata) : Prop := revision_wf (rm_id m) /\ time_wf (rm_publishedAt m).

#[export] Instance metadata_codec : DurableCodec encodeRevisionMetadata decodeRevisionMetadata metadata_machine.
Proof.
  intros bs v Hb. unfold decodeRevisionMetadata. codec_spec. unfold encodeRevisionMetadata, canonicalRevisionMetadata. split.
  - intros H. codec_open H. subst.
    destruct (decodeCodecTime _ _) as [t|] eqn:Ht; [|done].
    apply decodeCodecTime_exact in Ht as [Ht Hw]; [|done..].
    apply rbind_ok in H as (id & Hid & H). rewrite integrity_Ok in Hid. rewrite integrity_Ok in H.
    destruct (NewRevisionMetadata_Ok _ _ _ _ H) as [-> _]. destruct (ParseRevisionID_Ok _ _ Hid) as (_ & Hwf & Hs).
    unfold RevisionMetadata_ID. cbn. rewrite Hs, Hid. cbn. rewrite H. cbn. rewrite Ht, Hs.
    codec_unfold. split; [|done]. f_equal. by rewrite <- !app_assoc, app_nil_r.
  - intros [H [Hwf Ht]]. apply rbind_ok in H as (m & (id & Hid & Hm)%rbind_ok & H). rewrite integrity_Ok in Hid. rewrite integrity_Ok in Hm.
    unfold RevisionMetadata_ID in *. rewrite ParseRevisionID_String in Hid by done. injection Hid as <-.
    destruct (NewRevisionMetadata_Ok _ _ _ _ Hm) as [-> _]. cbn in H.
    destruct (codecTime _) as [[seconds nanos]|] eqn:E; [|done]. injection H as <-.
    destruct (codecTime_fields _ _ _ E) as [Hsec Hnan].
    assert (D : decodeCodecTime seconds nanos = Some (rm_publishedAt v)) by (by apply decodeCodecTime_exact).
    assert (Hn : len (rm_namespace v) <= MaxNamespaceBytes).
    { unfold NewRevisionMetadata in Hm. apply rbind_ok in Hm as (? & _ & ([] & Hn & _)%rbind_ok). eauto with codec. }
    assert (Hi : len (RevisionID_String (rm_id v)) <= MaxIdentifierBytes) by (by apply revisionID_fits, RevisionID_String_valid).
    codec_unfold. rewrite <- (app_nil_r (be_encode 4 _)), <- !app_assoc.
    codec_close; [done..|]. rewrite D, ParseRevisionID_String by done. cbn. rewrite Hm. by destruct v.
Qed.

(** The budget of a publication always has room for its parts, so the
    namespace of a provenance does not matter as long as it is one. *)
Lemma NewPublishRequest_accepts ns name source r : validateNamespace ns = Ok tt ->
  NewPublishRequest ns name source = Ok r <->
  r = mkPublishRequest ns name source /\ 0 < zlen source <= MaxPolicySourceBytes /\
  validateText name MaxSourceNameBytes false = Ok tt.
Proof.
  intros Hn. unfold NewPublishRequest. pose proof (zlen_nonneg source).
  destruct (Z.eqb_spec (zlen source) 0); [naive_solver lia|].
  destruct (Z.ltb_spec MaxPolicySourceBytes (zlen source)); [naive_solver lia|].
  rewrite Hn. cbn [rbind]. destruct (validateText name _ _) as [[]|] eqn:Ht; cbn [rbind].
  2:{ split; [|naive_solver]. by intros (? & _ & ?)%rbind_ok. }
  assert (C : exists b, addPublishRequestCost (mkBudget 0 MaxAggregateInputBytes) ns name source = Ok b).
  { apply is_ok_true. unfold addPublishRequestCost, addBytesCost.
    pose proof (namespace_fits ns Hn) as L1. apply validateText_Ok in Ht as (_ & L2 & _).
    assert (E : costs (fun b (x : string * string * list Z) =>
        let? b := addTextCost b x.1.1 in let? b := addTextCost b x.1.2 in
        let? b := add b fieldMetadataBytes in add b (zlen x.2))
      (fun x => textCost x.1.1 + (textCost x.1.2 + (8 + zlen x.2)))).
    { intros b [[a c] l] Hb. cbn [fst snd]. pose proof (zlen_nonneg l). pose proof (textCost_nonneg a).
      pose proof (textCost_nonneg c). split; [lia|]. cost_unfold.
      apply seq_charge; [done|lia|lia|cost_leaf|]. intros b1 Hb1.
      apply seq_charge; [done|lia|lia|cost_leaf|]. intros b2 Hb2.
      apply seq_charge; [done|lia|lia|cost_leaf|]. intros. cost_leaf. }
    etrans; [apply (costs_fits _ _ MaxAggregateInputBytes (ns, name, source) E); by vm_compute|].
    apply Z.leb_le. cbn [fst snd]. unfold textCost.
    assert (B : MaxNamespaceBytes = 1024 /\ MaxSourceNameBytes = 1024 /\ MaxPolicySourceBytes = 1048576
      /\ MaxAggregateInputBytes = 4194304) by done. lia. }
  destruct C as [b ->]. cbn [rbind]. naive_solver lia.
Qed.

Section ProvenanceFacts.
Context `{D : Dsl}.

(** A provenance as the constructors build them: a recorded source with its
    digest, or none. *)
Definition provenance_machine (p : RevisionProvenance) : Prop :=
  RevisionProvenance_Valid p = true /\ Forall is_byte (prov_originalSource p) \/ p = zero_provenance.

Lemma RevisionProvenance_Valid_iff p :
  RevisionProvenance_Valid p = true <->
  prov_valid p = true /\ prov_originalSourceDigest p = sha256_Sum256 (prov_originalSource p) /\
  0 < zlen (prov_originalSource p) <= MaxPolicySourceBytes /\
  validateText (prov_sourceName p) MaxSourceNameBytes false = Ok tt.
Proof.
  unfold RevisionProvenance_Valid. pose proof (zlen_nonneg (prov_originalSource p)).
  destruct (prov_valid p); [|naive_solver]. cbn [negb orb].
  destruct (Z.eqb_spec (zlen (prov_originalSource p)) 0); [naive_solver lia|]. cbn [orb].
  case_bool_decide; [naive_solver|]. rewrite is_ok_true.
  setoid_rewrite (NewPublishRequest_accepts "provenance"); [|by vm_compute]. naive_solver.
Qed.

(** The source fields of a provenance: the writer inlines [appendCodecString16]. *)
#[local] Instance sourceName_field :
  FieldCodec (fun s => len s <= MaxSourceNameBytes) (fun s => be_encode 2 (len s mod 2 ^ 16) ++ bytes_of_string s)
    (reader_string16 MaxSourceNameBytes).
Proof. by apply string16_field. Qed.
#[local] Instance source_field :
  FieldCodec (fun bs => Forall is_byte bs /\ zlen bs <= MaxPolicySourceBytes) (fun bs => be_encode 4 (zlen bs) ++ bs)
    (reader_bytes32 MaxPolicySourceBytes).
Proof. by apply bytes32_field. Qed.

Lemma provenance_codec ns : validateNamespace ns = Ok tt ->
  DurableCodec encodeRevisionProvenance (decodeRevisionProvenance ns) provenance_machine.
Proof.
  intros Hns bs v Hb. unfold decodeRevisionProvenance. codec_spec.
  unfold encodeRevisionProvenance. split.
  - intros H. codec_open H. subst. destruct (Z.eqb_spec x0 provenanceAbsent) as [->|].
    { destruct H as [-> [= <-]]. split; [done|by right]. }
    destruct (Z.eqb_spec x0 provenancePresent) as [->|]; [|done]. codec_open H. subst.
    apply rbind_ok in H as (request & Hq & H). rewrite integrity_Ok in Hq. rewrite integrity_Ok in H.
    apply NewPublishRequest_accepts in Hq as (-> & Hz & Ht); [|done].
    apply rbind_ok in H as (q & _ & [= <-]). cbn [pub_sourceName pub_source prov_sourceName prov_originalSource].
    assert (V : RevisionProvenance_Valid (mkRevisionProvenance x x0 (sha256_Sum256 x0) true) = true)
      by (by apply RevisionProvenance_Valid_iff).
    rewrite V. cbn [prov_sourceName prov_originalSource].
    destruct (Z.ltb_spec MaxSourceNameBytes (len x)); [lia|]. destruct (Z.ltb_spec MaxPolicySourceBytes (zlen x0)); [lia|].
    cbn [orb]. codec_unfold. split; [|left; split; [exact V|done]]. f_equal. rewrite <- !app_assoc, app_nil_r.
    cbn [app]. do 5 f_equal. rewrite Z.mod_small; [done|]. pose proof (zlen_nonneg x0). change MaxPolicySourceBytes with 1048576 in *. lia.
  - intros [H Hm]. destruct (RevisionProvenance_Valid v) eqn:V.
    + apply RevisionProvenance_Valid_iff in V as (Hv & Hd & Hz & Ht). pose proof Ht as (_ & Hl & _)%validateText_Ok.
      destruct (_ || _); [done|]. injection H as <-. destruct Hm as [[_ Hbytes]| ->]; [|done]. codec_unfold.
      rewrite (Z.mod_small (zlen _)) by (change (2 ^ 32) with 4294967296; change MaxPolicySourceBytes with 1048576 in Hz; lia).
      rewrite <- (app_nil_r (_ ++ prov_originalSource v)), <- !app_assoc.
      codec_close; [done..|]. cbn [Z.eqb provenancePresent provenanceAbsent Pos.eqb]. codec_close; [lia|split; [done|lia]|].
      pose proof (proj2 (NewPublishRequest_accepts _ _ _ _ Hns) (conj eq_refl (conj Hz Ht))) as Q. rewrite Q.
      cbn [rbind integrity]. unfold NewRevisionProvenance. cbn [pub_namespace pub_sourceName pub_source].
      rewrite Q. cbn [rbind integrity].
      destruct v. cbn in *. by subst.
    + destruct Hm as [[? _]| ->]; [congruence|]. injection H as <-. by codec_close.
Qed.
End ProvenanceFacts.
