(* ===== verification/SqliteData.v ===== *)
(** The durable rows of the SQLite store: timestamps, tuple keys, attribute
    paths, keys and values, replay records (store/sqlite/tuples.go,
    attributes.go, the codecs of idempotency.go, the timestamps of events.go).

    The rows keep identities as encoded keys beside readable columns; decoding
    a row re-derives the key from the columns and refuses a row whose key is
    another one. *)

From Stdlib Require Import ZArith Lia.
From stdpp Require Import base list strings.
From S2P Require Import Prelude Limits Text Types Cost Data DataValid Policy Events Revisions Cursor Fingerprint SqliteCodec.

(** * Timestamps (events.go) *)

(** [time.Unix(0, nanos)], which normalises the nanoseconds. *)
Definition time_UnixNano (nanos : Z) : Time := time_Unix (nanos / Second) (nanos mod Second).

Definition sqliteTimestamp (value : Time) : option (Time * Z) :=
  if IsZero value then None
  else
    let seconds := Unix value in
    if (Z.quot (2 ^ 63 - 1) Second <? seconds) || (seconds <? Z.quot (- 2 ^ 63) Second) then None
    else
      let base := seconds * Second in
      if (2 ^ 63 - 1 - Nanosecond value <? base) then None
      else
        let nanos := base + Nanosecond value in
        let canonical := time_UnixNano nanos in
        if negb (canonical =? value) then None else Some (canonical, nanos).

(** * Tuples (tuples.go) *)

Definition encodeTupleKey (value : Tuple) : result (list Z) :=
  let? key := integrity (NewTupleKey value) in
  let tuple := tk_tuple key in
  let encoded := [codecVersion] in
  let encoded := appendCodecString16 encoded (ent_Type (tup_Resource tuple)) in
  let encoded := appendCodecString16 encoded (ent_ID (tup_Resource tuple)) in
  let encoded := appendCodecString16 encoded (tup_Relation tuple) in
  let encoded := appendCodecString16 encoded (sub_Type (tup_Subject tuple)) in
  let encoded := appendCodecString16 encoded (sub_ID (tup_Subject tuple)) in
  Ok (appendCodecString16 encoded (sub_Relation (tup_Subject tuple))).

Definition decodeTupleKey (encoded : list Z) : result Tuple :=
  let reader := newReader encoded in
  read? version, reader := reader_byte reader or ErrorIntegrity in
  if negb (version =? codecVersion) then Err ErrorIntegrity
  else
    read? resourceType, reader := reader_string16 MaxIdentifierBytes reader or ErrorIntegrity in
    read? resourceID, reader := reader_string16 MaxIdentifierBytes reader or ErrorIntegrity in
    read? relation, reader := reader_string16 MaxIdentifierBytes reader or ErrorIntegrity in
    read? subjectType, reader := reader_string16 MaxIdentifierBytes reader or ErrorIntegrity in
    read? subjectID, reader := reader_string16 MaxIdentifierBytes reader or ErrorIntegrity in
    read? subjectRelation, reader := reader_string16 MaxIdentifierBytes reader or ErrorIntegrity in
    if negb (reader_done reader) then Err ErrorIntegrity
    else
      let? key := integrity (NewTupleKey (mkTuple (mkEntityRef resourceType resourceID) relation
                                            (mkSubjectRef subjectType subjectID subjectRelation))) in
      Ok (tk_tuple key).

(** [durableTuple]; a NULL expiry is [None]. *)
Record durableTuple := mkDurableTuple {
  dt_key : list Z; dt_tuple : RelationshipTuple; dt_expiresAtNS : option Z }.

(** [err != nil] of a constructor becomes an invalid argument. *)
Definition invalid {A} (r : result A) : result A :=
  match r with Ok a => Ok a | Err _ => Err ErrorInvalidArgument end.

Definition canonicalDurableTuple (value : RelationshipTuple) : result durableTuple :=
  let? expiry :=
    (if rt_hasExpiry value then
       match sqliteTimestamp (rt_expiresAt value) with
       | None => Err ErrorInvalidArgument
       | Some (canonical, nanos) => Ok (Some canonical, Some nanos)
       end
     else Ok (None, None)) in
  let? canonical := invalid (NewRelationshipTuple (rt_tuple value) expiry.1) in
  let? key := encodeTupleKey (rt_tuple canonical) in
  Ok (mkDurableTuple key canonical expiry.2).

Definition decodeDurableTuple (key : list Z)
  (subjectType subjectID subjectRelation relation resourceType resourceID : string)
  (expiresAtNS : option Z) : result RelationshipTuple :=
  let tuple := mkTuple (mkEntityRef resourceType resourceID) relation
                 (mkSubjectRef subjectType subjectID subjectRelation) in
  let? expiry :=
    (match expiresAtNS with
     | Some ns =>
         match sqliteTimestamp (time_UnixNano ns) with
         | None => Err ErrorIntegrity
         | Some (canonical, nanos) => if negb (nanos =? ns) then Err ErrorIntegrity else Ok (Some canonical)
         end
     | None => Ok None
     end) in
  let? result := integrity (NewRelationshipTuple tuple expiry) in
  match encodeTupleKey (rt_tuple result) with
  | Ok expected => if bool_decide (expected = key) then Ok result else Err ErrorIntegrity
  | Err _ => Err ErrorIntegrity
  end.

(** * Attributes (attributes.go) *)

Definition attributeValueString : Z := 1.
Definition attributeValueInteger : Z := 2.
Definition attributeValueBoolean : Z := 3.
Definition attributeValueNull : Z := 4.

(** The entity the path codec validates a path with. *)
Definition codec_entity : EntityRef := mkEntityRef "codec" "codec".

Definition encodeAttributePath (path : list string) : result (list Z) :=
  let? probe := integrity (NewAttributeKeyPath codec_entity path) in
  let canonical := ak_path probe in
  if 2 ^ 32 - 1 <? zlen canonical then Err ErrorIntegrity
  else
    let encoded := appendCodecUint32 [codecVersion] (zlen canonical) in
    Ok (fold_left appendCodecString16 canonical encoded).

(** [for range count { segment, ok := reader.string16(..); .. }] *)
Fixpoint reader_segments (count : nat) (path : list string) (r : codecReader) : option (list string * codecReader) :=
  match count with
  | O => Some (path, r)
  | S count =>
      match reader_string16 MaxIdentifierBytes r with
      | Some (segment, r) => reader_segments count (path ++ [segment]) r
      | None => None
      end
  end.

Definition decodeAttributePath (encoded : list Z) : result (list string) :=
  let reader := newReader encoded in
  read? version, reader := reader_byte reader or ErrorIntegrity in
  if negb (version =? codecVersion) then Err ErrorIntegrity
  else
    read? count, reader := reader_uint32 reader or ErrorIntegrity in
    if (count =? 0) || (MaxAggregateWorkItems <? count) || (reader_left reader <? count * 2) then Err ErrorIntegrity
    else
      read? path, reader := reader_segments (Z.to_nat count) [] reader or ErrorIntegrity in
      if negb (reader_done reader) then Err ErrorIntegrity
      else
        let? probe := integrity (NewAttributeKeyPath codec_entity path) in
        Ok (ak_path probe).

Definition encodeAttributeKey (value : AttributeKey) : result (list Z) :=
  let? canonical := integrity (NewAttributeKeyPath (ak_entity value) (ak_path value)) in
  let? path := encodeAttributePath (ak_path canonical) in
  if MaxAggregateInputBytes <? zlen path then Err ErrorIntegrity
  else
    let entity := ak_entity canonical in
    let encoded := [codecVersion] in
    let encoded := appendCodecString16 encoded (ent_Type entity) in
    let encoded := appendCodecString16 encoded (ent_ID entity) in
    let encoded := appendCodecUint32 encoded (zlen path mod 2 ^ 32) in
    Ok (encoded ++ path).

Definition decodeAttributeKey (encoded : list Z) : result AttributeKey :=
  let reader := newReader encoded in
  read? version, reader := reader_byte reader or ErrorIntegrity in
  if negb (version =? codecVersion) then Err ErrorIntegrity
  else
    read? entityType, reader := reader_string16 MaxIdentifierBytes reader or ErrorIntegrity in
    read? entityID, reader := reader_string16 MaxIdentifierBytes reader or ErrorIntegrity in
    read? pathEncoded, reader := reader_bytes32 MaxAggregateInputBytes reader or ErrorIntegrity in
    if negb (reader_done reader) then Err ErrorIntegrity
    else
      let? path := decodeAttributePath pathEncoded in
      integrity (NewAttributeKeyPath (mkEntityRef entityType entityID) path).

Definition encodeAttributeValue (value : Value) : result (list Z) :=
  let encoded := [codecVersion] in
  if val_kind value =? ValueKindString then
    if MaxStringValueBytes <? len (val_text value) then Err ErrorIntegrity
    else
      let encoded := encoded ++ [attributeValueString] in
      let encoded := appendCodecUint32 encoded (len (val_text value) mod 2 ^ 32) in
      Ok (encoded ++ bytes_of_string (val_text value))
  else if val_kind value =? ValueKindInteger then
    let encoded := encoded ++ [attributeValueInteger] in
    Ok (appendCodecUint64 encoded (val_integer value mod 2 ^ 64))
  else if val_kind value =? ValueKindBoolean then
    let encoded := encoded ++ [attributeValueBoolean] in
    if val_boolean value then Ok (encoded ++ [1]) else Ok (encoded ++ [0])
  else if val_kind value =? ValueKindNull then Ok (encoded ++ [attributeValueNull])
  else Err ErrorIntegrity.

Definition decodeAttributeValue (encoded : list Z) : result Value :=
  let reader := newReader encoded in
  read? version, reader := reader_byte reader or ErrorIntegrity in
  if negb (version =? codecVersion) then Err ErrorIntegrity
  else
    read? kind, reader := reader_byte reader or ErrorIntegrity in
    if kind =? attributeValueString then
      read? text, reader := reader_bytes32 MaxStringValueBytes reader or ErrorIntegrity in
      if negb (reader_done reader) then Err ErrorIntegrity
      else integrity (NewStringValue (string_of_bytes text))
    else if kind =? attributeValueInteger then
      read? integer, reader := reader_int64 reader or ErrorIntegrity in
      if negb (reader_done reader) then Err ErrorIntegrity else Ok (NewIntegerValue integer)
    else if kind =? attributeValueBoolean then
      read? boolean, reader := reader_byte reader or ErrorIntegrity in
      if negb (reader_done reader) then Err ErrorIntegrity
      else if negb (boolean =? 0) && negb (boolean =? 1) then Err ErrorIntegrity
      else Ok (NewBooleanValue (boolean =? 1))
    else if kind =? attributeValueNull then
      if negb (reader_done reader) then Err ErrorIntegrity else Ok NewNullValue
    else Err ErrorIntegrity.

Record durableAttribute := mkDurableAttribute {
  da_key : list Z; da_attribute : Attribute; da_path : list Z; da_value : list Z }.

Definition canonicalDurableAttribute (value : Attribute) : result durableAttribute :=
  let? canonical := invalid (NewAttributePath (attr_entity value) (attr_path value) (attr_value value)) in
  let? keyValue := match NewAttributeKeyPath (attr_entity canonical) (attr_path canonical) with
                   | Ok k => Ok k | Err _ => Err ErrorInternal end in
  let? key := encodeAttributeKey keyValue in
  let? path := encodeAttributePath (attr_path canonical) in
  let? encodedValue := encodeAttributeValue (attr_value canonical) in
  Ok (mkDurableAttribute key canonical path encodedValue).

Definition decodeDurableAttribute (key path encodedValue : list Z) (entityType entityID : string)
  : result Attribute :=
  let? decodedPath := decodeAttributePath path in
  let? decodedValue := decodeAttributeValue encodedValue in
  let? result := integrity (NewAttributePath (mkEntityRef entityType entityID) decodedPath decodedValue) in
  let? attributeKey := integrity (NewAttributeKeyPath (attr_entity result) (attr_path result)) in
  match encodeAttributeKey attributeKey with
  | Ok expected => if bool_decide (expected = key) then Ok result else Err ErrorIntegrity
  | Err _ => Err ErrorIntegrity
  end.

(** [for length := 1; length < len(path); length++] *)
Fixpoint attribute_prefixes (entity : EntityRef) (path : list string) (lengths : list nat) : result (list (list Z)) :=
  match lengths with
  | [] => Ok []
  | length :: lengths =>
      let? prefix := match NewAttributeKeyPath entity (take length path) with
                     | Ok k => Ok k | Err _ => Err ErrorInternal end in
      let? encoded := encodeAttributeKey prefix in
      let? result := attribute_prefixes entity path lengths in
      Ok (encoded :: result)
  end.

Definition strictAttributePrefixes (key : AttributeKey) : result (list (list Z)) :=
  attribute_prefixes (ak_entity key) (ak_path key) (seq 1 (length (ak_path key) - 1)).

Definition attributeKeyFromAttribute (value : Attribute) : result AttributeKey :=
  integrity (NewAttributeKeyPath (attr_entity value) (attr_path value)).

(** * Replay records (idempotency.go) *)

Definition idempotencyCodecFingerprint : Z := 1.

Definition encodeIdempotencyFingerprint (value : IdempotencyFingerprint) : result (list Z) :=
  let bytes := Fingerprint_Bytes value in
  if negb (fp_valid value) || negb (zlen bytes =? sha256_Size) then Err ErrorIntegrity
  else Ok ([codecVersion] ++ bytes).

Definition decodeIdempotencyFingerprint (encoded : list Z) : result (list Z) :=
  if negb (zlen encoded =? 1 + sha256_Size) || bool_decide (head encoded <> Some codecVersion)
  then Err ErrorIntegrity else Ok (drop 1 encoded).

Definition encodeIdempotencyResponse (value : WriteDataResponse) : result (list Z) :=
  if (wr_generation value =? 0) || wr_replayed value then Err ErrorIntegrity
  else Ok (appendCodecUint64 [codecVersion; idempotencyCodecFingerprint] (wr_generation value)).

Definition decodeIdempotencyResponse (encoded : list Z) (replayed : bool) : result WriteDataResponse :=
  let reader := newReader encoded in
  read? version, reader := reader_byte reader or ErrorIntegrity in
  if negb (version =? codecVersion) then Err ErrorIntegrity
  else
    read? kind, reader := reader_byte reader or ErrorIntegrity in
    if negb (kind =? idempotencyCodecFingerprint) then Err ErrorIntegrity
    else
      read? generation, reader := reader_uint64 reader or ErrorIntegrity in
      if negb (reader_done reader) then Err ErrorIntegrity
      else integrity (NewWriteDataResponse generation replayed).

(** * Timestamps *)

#[local] Arguments be_encode : simpl never.

(** The earliest and the latest instant with a durable timestamp, relative to
    the epoch: 1677 to 2262. *)
Definition timestamp_range (nanos : Z) : Prop := -9223372036 * Second <= nanos <= 2 ^ 63 - 1.

Lemma time_UnixNano_epoch nanos : signed64 nanos -> time_UnixNano nanos = nanos + unixToInternal * Second.
Proof.
  unfold signed64. intros H. unfold time_UnixNano, time_Unix.
  rewrite int64_fixed by (unfold Second, unixToInternal; dlia). pose proof (Z.div_mod nanos Second ltac:(done)). lia.
Qed.

Lemma sqliteTimestamp_exact value canonical nanos : time_wf value ->
  sqliteTimestamp value = Some (canonical, nanos) <->
  value <> 0 /\ canonical = value /\ nanos = value - unixToInternal * Second /\ timestamp_range nanos.
Proof.
  intros Hw. unfold sqliteTimestamp, IsZero. destruct (Z.eqb_spec value 0); [naive_solver|].
  change (Z.quot (2 ^ 63 - 1) Second) with 9223372036. change (Z.quot (- 2 ^ 63) Second) with (-9223372036).
  unfold time_wf, timestamp_range, Unix, Nanosecond in *. pose proof (Z.div_mod value Second ltac:(done)) as Hd.
  pose proof (Z.mod_pos_bound value Second ltac:(done)) as Hm.
  set (s := value / Second) in *. set (m := value mod Second) in *.
  destruct (decide (- 2 ^ 63 <= s - unixToInternal)) as [Hin|Hout].
  - rewrite int64_fixed by (unfold unixToInternal in *; lia).
    destruct (Z.ltb_spec 9223372036 (s - unixToInternal)); [split; [done|unfold Second, unixToInternal in *; lia]|].
    destruct (Z.ltb_spec (s - unixToInternal) (-9223372036)); [split; [done|unfold Second, unixToInternal in *; lia]|].
    cbn [orb]. destruct (Z.ltb_spec (2 ^ 63 - 1 - m) ((s - unixToInternal) * Second));
      [split; [done|unfold Second, unixToInternal in *; lia]|].
    rewrite time_UnixNano_epoch by (unfold signed64, Second, unixToInternal in *; lia).
    replace ((s - unixToInternal) * Second + m + unixToInternal * Second) with value by lia.
    rewrite Z.eqb_refl. cbn [negb]. split; [intros [= <- <-]; unfold Second, unixToInternal in *; lia|].
    intros (_ & -> & -> & _). do 2 f_equal. lia.
  - replace (int64 (s - unixToInternal)) with (s - unixToInternal + 2 ^ 64).
    2:{ rewrite <- (int64_congr _ 1), int64_fixed; unfold unixToInternal in *; lia. }
    destruct (Z.ltb_spec 9223372036 (s - unixToInternal + 2 ^ 64)); [|unfold unixToInternal in *; lia].
    cbn [orb]. split; [done|]. unfold Second, unixToInternal in *. lia.
Qed.

(** A timestamp is the instant it was made from, in both directions. *)
Lemma sqliteTimestamp_fixed value canonical nanos : sqliteTimestamp value = Some (canonical, nanos) ->
  canonical = value /\ time_UnixNano nanos = value.
Proof.
  unfold sqliteTimestamp. destruct (IsZero value); [done|]. destruct (_ || _); [done|]. destruct (_ <? _); [done|].
  destruct (Z.eqb_spec (time_UnixNano (Unix value * Second + Nanosecond value)) value) as [E|]; [|done].
  cbn [negb]. by intros [= <- <-].
Qed.

(** * Tuple keys *)

Lemma relationship_fits t : validateDSLRelationship t = Ok tt ->
  len (ent_Type (tup_Resource t)) <= MaxIdentifierBytes /\ len (ent_ID (tup_Resource t)) <= MaxIdentifierBytes /\
  len (tup_Relation t) <= MaxIdentifierBytes /\ len (sub_Type (tup_Subject t)) <= MaxIdentifierBytes /\
  len (sub_ID (tup_Subject t)) <= MaxIdentifierBytes /\ len (sub_Relation (tup_Subject t)) <= MaxIdentifierBytes.
Proof.
  unfold validateDSLRelationship, validateEntityRef, validateSubjectRef. intros H.
  repeat match goal with H : rbind _ _ = Ok _ |- _ => apply rbind_ok in H as ([] & ? & ?) end.
  repeat split; eauto with codec.
Qed.

#[export] Instance tupleKey_codec : DurableCodec encodeTupleKey decodeTupleKey (fun _ => True).
Proof.
  intros bs v Hb. unfold decodeTupleKey. codec_spec. unfold encodeTupleKey, NewTupleKey. split.
  - intros H. codec_open H. subst.
    apply rbind_ok in H as (k & Hk & [= <-]). rewrite integrity_Ok in Hk.
    apply rbind_ok in Hk as ([] & Hv & [= <-]). cbn [tk_tuple]. rewrite Hv. cbn [rbind integrity tk_tuple tup_Resource ent_Type ent_ID tup_Relation tup_Subject sub_Type sub_ID sub_Relation].
    codec_unfold. split; [|done]. f_equal. by rewrite <- !app_assoc, app_nil_r.
  - intros [H _]. apply rbind_ok in H as (k & Hk & [= <-]). rewrite integrity_Ok in Hk.
    apply rbind_ok in Hk as ([] & Hv & [= <-]). destruct (relationship_fits _ Hv) as (? & ? & ? & ? & ? & ?).
    cbn [tk_tuple]. codec_unfold. rewrite <- (app_nil_r (_ ++ bytes_of_string (sub_Relation _))), <- !app_assoc.
    codec_close; [done..|]. by destruct v as [[] ? []]; cbn in *; rewrite Hv.
Qed.

Lemma encodeTupleKey_total t : is_ok (encodeTupleKey t) = is_ok (validateDSLRelationship t).
Proof. unfold encodeTupleKey, NewTupleKey. by destruct (validateDSLRelationship t). Qed.

(** A row of the tuples table decodes to a tuple exactly when the tuple's
    columns are those of the row. *)
Lemma durable_tuple_exact key st sid sr rel rt rid expiresAtNS t :
  decodeDurableTuple key st sid sr rel rt rid expiresAtNS = Ok t <->
  rt_tuple t = mkTuple (mkEntityRef rt rid) rel (mkSubjectRef st sid sr) /\
  canonicalDurableTuple t = Ok (mkDurableTuple key t expiresAtNS).
Proof.
  unfold decodeDurableTuple, canonicalDurableTuple, NewRelationshipTuple.
  set (tuple := mkTuple _ _ _). split.
  - intros (expiry & He & (r & Hr & H)%rbind_ok)%rbind_ok. rewrite integrity_Ok in Hr.
    apply rbind_ok in Hr as ([] & Hv & Hr).
    assert (Ht : rt_tuple r = tuple) by (destruct expiry; [destruct (IsZero _)|]; simplify_eq; done).
    rewrite Ht in H. destruct (encodeTupleKey tuple) as [expected|] eqn:Hk; [|done].
    case_bool_decide; [|done]. injection H as ->. subst expected. split; [done|].
    assert (Hx : (if rt_hasExpiry t then
        match sqliteTimestamp (rt_expiresAt t) with
        | Some (canonical, nanos) => Ok (Some canonical, Some nanos)
        | None => Err ErrorInvalidArgument end else Ok (None, None)) = Ok (expiry, expiresAtNS)).
    { destruct expiresAtNS as [ns|].
      - destruct (sqliteTimestamp (time_UnixNano ns)) as [[c n]|] eqn:Hs; [|done].
        destruct (Z.eqb_spec n ns) as [->|]; [|done]. injection He as <-.
        destruct (sqliteTimestamp_fixed _ _ _ Hs) as [-> _]. destruct (IsZero _); [done|]. injection Hr as <-.
        cbn. by rewrite Hs.
      - injection He as <-. by injection Hr as <-. }
    rewrite Hx. cbn [rbind fst snd]. rewrite Ht, Hv. cbn [rbind].
    assert (Hc : (match expiry with Some t0 => if IsZero t0 then Err ErrorInvalidArgument else Ok (mkRelationshipTuple tuple t0 true)
      | None => Ok (mkRelationshipTuple tuple 0 false) end) = Ok t) by done.
    rewrite Hc. cbn [invalid rbind]. by rewrite Ht, Hk.
  - intros [Ht ([e n] & He & (c & Hc & (k & Hk & [= -> -> <-])%rbind_ok)%rbind_ok)%rbind_ok]. cbn [fst snd] in *.
    rewrite Ht in Hc. destruct (validateDSLRelationship tuple) as [[]|] eqn:Hv; [|done]. cbn [rbind] in Hc.
    assert (Hx : (match n with
      | Some ns => match sqliteTimestamp (time_UnixNano ns) with
          | Some (canonical, nanos) => if negb (nanos =? ns) then Err ErrorIntegrity else Ok (Some canonical)
          | None => Err ErrorIntegrity end
      | None => Ok None end) = Ok e).
    { destruct (rt_hasExpiry t); [|by injection He as <- <-].
      destruct (sqliteTimestamp (rt_expiresAt t)) as [[c' n']|] eqn:Hs; [|done]. injection He as <- <-.
      destruct (sqliteTimestamp_fixed _ _ _ Hs) as [-> Hu]. rewrite Hu, Hs, Z.eqb_refl. done. }
    rewrite Hx. cbn [rbind]. 
    assert (Hc' : (match e with Some t0 => if IsZero t0 then Err ErrorInvalidArgument else Ok (mkRelationshipTuple tuple t0 true)
      | None => Ok (mkRelationshipTuple tuple 0 false) end) = Ok t).
    { destruct e; [destruct (IsZero _)|]; by simplify_eq/=. }
    rewrite Hc'. cbn [integrity rbind]. rewrite Hk. by rewrite bool_decide_eq_true_2.
Qed.

(** * Attribute paths *)

Definition segments_encoding (path : list string) : list Z :=
  concat (map (fun s => be_encode 2 (len s mod 2 ^ 16) ++ bytes_of_string s) path).

Lemma append_segments path bs : fold_left appendCodecString16 path bs = bs ++ segments_encoding path.
Proof.
  revert bs. induction path as [|s path IH]; intros bs; cbn [fold_left]; [by rewrite app_nil_r|].
  rewrite IH. unfold segments_encoding. cbn [map concat]. codec_unfold. by rewrite <- !app_assoc.
Qed.

(** The loop of [decodeAttributePath] reads exactly the requested segments. *)
Lemma segments_field n : FieldCodec
  (fun path => length path = n /\ Forall (fun s => len s <= MaxIdentifierBytes) path) segments_encoding (reader_segments n []).
Proof.
  assert (S : forall n acc r path r', reader_wf r -> reader_segments n acc r = Some (path, r') ->
    exists tail, path = acc ++ tail /\ length tail = n /\ Forall (fun s => len s <= MaxIdentifierBytes) tail /\
      rest r = segments_encoding tail ++ rest r' /\ reader_wf r').
  { clear n. induction n as [|n IH]; intros acc r path r' Hr H; cbn [reader_segments] in H.
    { injection H as <- <-. exists []. by rewrite app_nil_r. }
    destruct (reader_string16 _ r) as [[s r1]|] eqn:E; [|done].
    apply (field_sound (FieldCodec := identifier_field)) in E as (Hs & Hrest & Hw); [|done].
    apply IH in H as (tail & -> & Hl & Hf & Hrest' & Hw'); [|done].
    exists (s :: tail). rewrite <- app_assoc. split; [done|]. split; [cbn; by rewrite Hl|]. split; [by constructor|].
    split; [|done]. rewrite Hrest, Hrest'. unfold segments_encoding. cbn [map concat]. by rewrite <- !app_assoc. }
  assert (C : forall path acc r bs, reader_wf r -> Forall (fun s => len s <= MaxIdentifierBytes) path ->
    rest r = segments_encoding path ++ bs ->
    exists r', reader_segments (length path) acc r = Some (acc ++ path, r') /\ rest r' = bs /\ reader_wf r').
  { clear. induction path as [|s path IH]; intros acc r bs Hr Hp Hrest; cbn [length reader_segments].
    { exists r. by rewrite app_nil_r. }
    inversion_clear Hp as [|? ? Hs Hp'].
    destruct (field_complete (FieldCodec := identifier_field) r s (segments_encoding path ++ bs) Hr Hs) as (r1 & -> & Hr1 & Hw).
    { rewrite Hrest. unfold segments_encoding. cbn [map concat]. by rewrite <- !app_assoc. }
    destruct (IH (acc ++ [s]) r1 bs Hw Hp' Hr1) as (r' & -> & ?). exists r'. by rewrite <- app_assoc. }
  split.
  - intros r path r' Hr H. apply S in H as (tail & -> & ? & ? & ? & ?); done.
  - intros r path bs Hr [<- Hp] Hrest. by apply (C path []).
Qed.

(** A guard on the number of unread bytes. *)
Lemma parses_left {B} (b : Z -> bool) e (k : codecReader -> result B) S :
  parses k S -> parses (fun r => if b (reader_left r) then Err e else k r) (fun bs v => b (zlen bs) = false /\ S bs v).
Proof.
  intros Hk r v Hr. rewrite rest_length by done. destruct (b (reader_left r)); [naive_solver|].
  rewrite (Hk r v Hr). naive_solver.
Qed.

Lemma be_encode_zlen n v : zlen (be_encode n v) = Z.of_nat n.
Proof. unfold zlen. by rewrite be_encode_length. Qed.

Lemma segments_length path : 2 * zlen path <= zlen (segments_encoding path).
Proof.
  induction path as [|s path IH]; [done|]. unfold segments_encoding in *. cbn [map concat].
  rewrite zlen_cons, !zlen_app, be_encode_zlen. pose proof (zlen_nonneg (bytes_of_string s)). lia.
Qed.

Lemma path_fits path : validateAttributePath path = Ok tt ->
  0 < zlen path <= MaxAggregateWorkItems /\ Forall (fun s => len s <= MaxIdentifierBytes) path /\
  pathCost path <= MaxAggregateInputBytes.
Proof.
  unfold validateAttributePath. pose proof (zlen_nonneg path). destruct (Z.eqb_spec (zlen path) 0); [done|].
  destruct (Z.ltb_spec MaxAggregateWorkItems (zlen path)); [done|]. intros (b & Hc & H')%rbind_ok.
  split; [lia|]. split.
  - clear -H'. induction path as [|s path IH]; [constructor|]. cbn [foldM] in H'.
    apply rbind_ok in H' as ([] & ([] & Hs & _)%rbind_ok & H'). constructor; [eauto with codec|auto].
  - apply Z.leb_le. rewrite <- (costs_fits addAttributePathCost pathCost) by (auto with costs; by vm_compute).
    by rewrite Hc.
Qed.

Lemma NewAttributeKeyPath_fits e p k : NewAttributeKeyPath e p = Ok k ->
  k = mkAttributeKey e p /\ len (ent_Type e) <= MaxIdentifierBytes /\ len (ent_ID e) <= MaxIdentifierBytes /\
  validateAttributePath p = Ok tt.
Proof.
  unfold NewAttributeKeyPath, validateEntityRef.
  intros ([] & ([] & H1 & H2)%rbind_ok & ([] & H3 & (? & _ & (? & _ & [= <-])%rbind_ok)%rbind_ok)%rbind_ok)%rbind_ok.
  repeat split; eauto with codec.
Qed.

#[export] Instance path_codec : DurableCodec encodeAttributePath decodeAttributePath (fun _ => True).
Proof.
  intros bs v Hb. unfold decodeAttributePath. cbv zeta.
  set (finish := fun path => let? probe := integrity (NewAttributeKeyPath codec_entity path) in Ok (ak_path probe)).
  assert (F : forall path, finish path = Ok v <-> path = v /\ exists k, NewAttributeKeyPath codec_entity v = Ok k).
  { intros path. unfold finish. rewrite rbind_ok. setoid_rewrite integrity_Ok. split.
    - intros (k & Hk & [= <-]). destruct (NewAttributeKeyPath_fits _ _ _ Hk) as (-> & _). by eauto.
    - intros [-> [k Hk]]. destruct (NewAttributeKeyPath_fits _ _ _ Hk) as (-> & _). by eauto. }
  etrans.
  { eapply (parses_start (fun r => readOr _ (reader_byte r) _) _ bs v); [|done]. eapply parses_read; [exact _|].
    intros ? _. eapply parses_guard. eapply parses_read; [exact _|]. intros count _.
    eapply (parses_left (fun left => (count =? 0) || (MaxAggregateWorkItems <? count) || (left <? count * 2))).
    eapply parses_read; [apply segments_field|]. intros path _. eapply (parses_done _ (finish path)). }
  cbv beta. unfold encodeAttributePath. split.
  - intros H. codec_open H. subst. apply F in H as [-> [k Hk]]. rewrite Hk. cbn [rbind integrity].
    destruct (NewAttributeKeyPath_fits _ _ _ Hk) as (-> & _ & _ & Hp). cbn [ak_path].
    destruct (path_fits _ Hp) as [Hl _]. unfold MaxAggregateWorkItems in Hl.
    destruct (Z.ltb_spec (2 ^ 32 - 1) (zlen v)); [lia|]. split; [|done]. f_equal.
    rewrite append_segments. codec_unfold. rewrite app_nil_r, <- app_assoc. do 3 f_equal.
    unfold zlen. match goal with H : length v = Z.to_nat _ |- _ => rewrite H end. rewrite Z2Nat.id; [done|].
    match goal with H : unsigned 32 _ |- _ => destruct H; lia end.
  - intros [(k & Hk & H)%rbind_ok _]. rewrite integrity_Ok in Hk.
    destruct (NewAttributeKeyPath_fits _ _ _ Hk) as (-> & _ & _ & Hp). cbn [ak_path] in H.
    destruct (path_fits _ Hp) as (Hl & Hf & _). unfold MaxAggregateWorkItems in Hl.
    destruct (Z.ltb_spec (2 ^ 32 - 1) (zlen v)); [done|]. injection H as <-. rewrite append_segments. codec_unfold.
    exists codecVersion, (be_encode 4 (zlen v) ++ segments_encoding v ++ []). split; [done|].
    split; [by rewrite app_nil_r, <- !app_assoc|]. split; [done|].
    exists (zlen v), (segments_encoding v ++ []). split; [unfold unsigned; lia|]. split; [done|]. split.
    { destruct (Z.eqb_spec (zlen v) 0); [lia|]. destruct (Z.ltb_spec MaxAggregateWorkItems (zlen v)); [unfold MaxAggregateWorkItems in *; lia|].
      rewrite app_nil_r. pose proof (segments_length v). destruct (Z.ltb_spec (zlen (segments_encoding v)) (zlen v * 2)); [lia|done]. }
    exists v, []. split; [unfold zlen; rewrite Nat2Z.id; done|]. split; [done|]. split; [done|]. apply F. eauto.
Qed.

(** A valid key is within the budget of one request. *)
Lemma NewAttributeKeyPath_accepts e p k :
  NewAttributeKeyPath e p = Ok k <->
  k = mkAttributeKey e p /\ validateEntityRef e = Ok tt /\ validateAttributePath p = Ok tt /\
  entityCost e + pathCost p <= MaxAggregateInputBytes.
Proof.
  assert (C : is_ok (addAttributeKeyCost (mkBudget 0 MaxAggregateInputBytes) (mkAttributeKey e p)) =
    (entityCost e + pathCost p <=? MaxAggregateInputBytes)).
  { apply (costs_fits _ attributeKeyCost); [auto with costs|by vm_compute]. }
  unfold NewAttributeKeyPath. unfold addAttributeKeyCost in C. cbn [ak_entity ak_path] in C.
  destruct (validateEntityRef e) as [[]|]; cbn [rbind]; [|naive_solver].
  destruct (validateAttributePath p) as [[]|]; cbn [rbind]; [|naive_solver].
  rewrite <- Z.leb_le, <- C. destruct (addEntityRefCost _ e) as [b|]; cbn [rbind is_ok]; [|naive_solver].
  destruct (addAttributePathCost b p); cbn [rbind is_ok]; naive_solver.
Qed.

(** The encoding of a path is smaller than its cost. *)
Lemma encodeAttributePath_size path bs : encodeAttributePath path = Ok bs ->
  zlen bs <= pathCost path /\ Forall is_byte bs.
Proof.
  unfold encodeAttributePath. intros (k & Hk & H)%rbind_ok. rewrite integrity_Ok in Hk.
  apply NewAttributeKeyPath_accepts in Hk as (-> & _ & _ & _). cbn [ak_path] in H. destruct (_ <? _); [done|].
  injection H as <-. rewrite append_segments. codec_unfold. rewrite !zlen_app.
  assert (E : forall p, zlen (segments_encoding p) <= sum_cost textCost p /\ Forall is_byte (segments_encoding p)).
  { clear. induction p as [|s p [IH1 IH2]]; [done|]. unfold segments_encoding in *. cbn [map concat].
    change (sum_cost textCost (s :: p)) with (8 + len s + sum_cost textCost p).
    rewrite !zlen_app, zlen_bytes_of_string, be_encode_zlen. split; [lia|].
    rewrite !Forall_app. split; [|done]. split; [apply be_encode_bytes|apply bytes_of_string_range]. }
  destruct (E path) as [E1 E2]. rewrite be_encode_zlen. change (zlen [codecVersion]) with 1.
  unfold pathCost. split; [lia|]. rewrite !Forall_app. split; [|done]. split; [by repeat constructor|apply be_encode_bytes].
Qed.

(** * Attribute keys and values *)

#[local] Instance encodedPath_field :
  FieldCodec (fun bs => Forall is_byte bs /\ zlen bs <= MaxAggregateInputBytes) (fun bs => be_encode 4 (zlen bs) ++ bs)
    (reader_bytes32 MaxAggregateInputBytes).
Proof. by apply bytes32_field. Qed.
#[local] Instance text_field :
  FieldCodec (fun bs => Forall is_byte bs /\ zlen bs <= MaxStringValueBytes) (fun bs => be_encode 4 (zlen bs) ++ bs)
    (reader_bytes32 MaxStringValueBytes).
Proof. by apply bytes32_field. Qed.

#[export] Instance key_codec : DurableCodec encodeAttributeKey decodeAttributeKey (fun _ => True).
Proof.
  intros bs v Hb. unfold decodeAttributeKey. codec_spec. unfold encodeAttributeKey. split.
  - intros H. codec_open H. subst. apply rbind_ok in H as (p & Hp & Hk). rewrite integrity_Ok in Hk.
    apply codec_exact in Hp as [Hp _]; [|done]. destruct (NewAttributeKeyPath_fits _ _ _ Hk) as (-> & _).
    cbn [ak_entity ak_path]. rewrite Hk. cbn [rbind integrity ak_entity ak_path ent_Type ent_ID]. rewrite Hp. cbn [rbind].
    match goal with H : zlen _ <= MaxAggregateInputBytes |- _ => rename H into L end.
    destruct (Z.ltb_spec MaxAggregateInputBytes (zlen x2)); [lia|]. split; [|done]. f_equal. codec_unfold.
    rewrite (Z.mod_small (zlen x2)) by (pose proof (zlen_nonneg x2); change MaxAggregateInputBytes with 4194304 in L; lia).
    by rewrite <- !app_assoc, app_nil_r.
  - intros [(k & Hk & (p & Hp & H)%rbind_ok)%rbind_ok _]. rewrite integrity_Ok in Hk.
    destruct (NewAttributeKeyPath_fits _ _ _ Hk) as (-> & L1 & L2 & _). cbn [ak_entity ak_path] in *.
    destruct (Z.ltb_spec MaxAggregateInputBytes (zlen p)) as [|L]; [done|]. injection H as <-.
    destruct (encodeAttributePath_size _ _ Hp) as [_ B]. codec_unfold.
    rewrite (Z.mod_small (zlen p)) by (pose proof (zlen_nonneg p); change MaxAggregateInputBytes with 4194304 in L; lia).
    rewrite <- (app_nil_r (_ ++ p)), <- !app_assoc. codec_close; [done..|].
    assert (Hd : decodeAttributePath p = Ok (ak_path v)) by (by apply codec_exact).
    rewrite Hd. cbn [rbind]. destruct v as [[] ?]. cbn in *. by rewrite Hk.
Qed.

Definition value_machine (v : Value) : Prop := Value_valid v = true /\ signed64 (val_integer v).

Lemma len_string_of_bytes bs : Forall is_byte bs -> len (string_of_bytes bs) = zlen bs.
Proof. intros H. by rewrite <- zlen_bytes_of_string, bytes_of_string_of_bytes. Qed.

Lemma empty_text s : len s =? 0 = true -> s = ""%string.
Proof. intros H%Z.eqb_eq. by destruct s. Qed.

#[export] Instance value_codec : DurableCodec encodeAttributeValue decodeAttributeValue value_machine.
Proof.
  intros bs v Hb. unfold decodeAttributeValue. codec_spec. unfold encodeAttributeValue, value_machine. split.
  - intros H. codec_open H. subst. destruct (Z.eqb_spec x0 attributeValueString) as [->|].
    { codec_open H. subst. rewrite integrity_Ok in H. apply rbind_ok in H as ([] & Ht & [= <-]).
      match goal with H : Forall is_byte ?l, L0 : zlen ?l <= MaxStringValueBytes |- _ => rename H into B, L0 into L; rename l into text end.
      cbn [val_kind val_text val_integer]. rewrite Z.eqb_refl, len_string_of_bytes, bytes_of_string_of_bytes by done.
      destruct (Z.ltb_spec MaxStringValueBytes (zlen text)); [lia|].
      rewrite Z.mod_small by (pose proof (zlen_nonneg text); change MaxStringValueBytes with 65536 in L; lia).
      split; [f_equal; codec_unfold; by rewrite <- !app_assoc, app_nil_r|]. split; [|done].
      unfold Value_valid. cbn. by rewrite Ht. }
    destruct (Z.eqb_spec x0 attributeValueInteger) as [->|].
    { codec_open H. subst. injection H as <-. codec_unfold. split; [|done]. cbn [NewIntegerValue val_kind val_integer].
      f_equal; by rewrite <- !app_assoc, app_nil_r. }
    destruct (Z.eqb_spec x0 attributeValueBoolean) as [->|].
    { codec_open H. subst. destruct (Z.eqb_spec x 0) as [->|]; [by injection H as <-|].
      destruct (Z.eqb_spec x 1) as [->|]; [by injection H as <-|done]. }
    destruct (Z.eqb_spec x0 attributeValueNull) as [->|]; [|done]. codec_open H. subst. by injection H as <-.
  - intros [H [V I]]. destruct v as [kind text integer boolean]. unfold Value_valid in V. cbn [val_kind val_text val_integer val_boolean] in *.
    destruct (Z.eqb_spec kind ValueKindString) as [->|].
    { destruct (Z.ltb_spec MaxStringValueBytes (len text)) as [|L]; [done|]. apply Ok_inj in H as <-.
      rewrite !andb_true_iff, negb_true_iff in V. destruct V as [[->%Z.eqb_eq ->] Ht%is_ok_unit_iff]. codec_unfold.
      rewrite (Z.mod_small (len text) (2 ^ 32)) by (pose proof (len_nonneg text); change MaxStringValueBytes with 65536 in L; lia).
      rewrite <- zlen_bytes_of_string, <- (app_nil_r (_ ++ bytes_of_string text)), <- !app_assoc.
      codec_close; [done..|]. change (attributeValueString =? attributeValueString) with true. cbv iota.
      codec_close; [split; [apply bytes_of_string_range|by rewrite zlen_bytes_of_string]|].
      rewrite string_of_bytes_of_string. unfold NewStringValue. by rewrite Ht. }
    destruct (Z.eqb_spec kind ValueKindInteger) as [->|].
    { apply Ok_inj in H as <-. rewrite andb_true_iff, negb_true_iff in V. destruct V as [->%empty_text ->]. codec_unfold.
      rewrite <- (app_nil_r (be_encode 8 _)), <- !app_assoc. codec_close; [done..|].
      change (attributeValueInteger =? attributeValueString) with false.
      change (attributeValueInteger =? attributeValueInteger) with true. cbv iota. by codec_close. }
    destruct (Z.eqb_spec kind ValueKindBoolean) as [->|].
    { rewrite andb_true_iff in V. destruct V as [->%empty_text ->%Z.eqb_eq].
      destruct boolean; injection H as <-.
      - exists codecVersion, [attributeValueBoolean; 1]. split; [done|]. split; [done|]. split; [done|].
        exists attributeValueBoolean, [1]. split; [done|]. split; [done|]. by exists 1, [].
      - exists codecVersion, [attributeValueBoolean; 0]. split; [done|]. split; [done|]. split; [done|].
        exists attributeValueBoolean, [0]. split; [done|]. split; [done|]. by exists 0, []. }
    destruct (Z.eqb_spec kind ValueKindNull) as [->|]; [|done].
    rewrite !andb_true_iff, negb_true_iff in V. destruct V as [[->%empty_text ->%Z.eqb_eq] ->]. injection H as <-.
    exists codecVersion, [attributeValueNull]. split; [done|]. split; [done|]. split; [done|].
    by exists attributeValueNull, [].
Qed.

(** * Attribute rows *)

Lemma NewAttributePath_fits e p v a : NewAttributePath e p v = Ok a ->
  a = mkAttribute e p v /\ Value_valid v = true.
Proof.
  unfold NewAttributePath, validateValue.
  intros (? & _ & (? & _ & (? & Hv & (? & _ & [= <-])%rbind_ok)%rbind_ok)%rbind_ok)%rbind_ok.
  by destruct (Value_valid v).
Qed.

(** A row of the attributes table decodes to an attribute exactly when the
    attribute's columns are those of the row. *)
Lemma durable_attribute_exact key path value et eid a : Forall is_byte path -> Forall is_byte value ->
  decodeDurableAttribute key path value et eid = Ok a <->
  attr_entity a = mkEntityRef et eid /\ signed64 (val_integer (attr_value a)) /\
  canonicalDurableAttribute a = Ok (mkDurableAttribute key a path value).
Proof.
  intros Hpb Hvb. unfold decodeDurableAttribute, canonicalDurableAttribute. split.
  - intros (p & Hp & (v & Hv & (r & Hr & (k & Hk & H)%rbind_ok)%rbind_ok)%rbind_ok)%rbind_ok.
    apply codec_exact in Hp as [Hp _]; [|done]. apply codec_exact in Hv as [Hv [_ Hi]]; [|done].
    rewrite integrity_Ok in Hr. rewrite integrity_Ok in Hk. destruct (NewAttributePath_fits _ _ _ _ Hr) as [-> _].
    cbn [attr_entity attr_path] in *. destruct (encodeAttributeKey k) as [expected|] eqn:He; [|done].
    case_bool_decide; [|done]. injection H as <-. subst expected. cbn [attr_entity attr_path attr_value].
    split; [done|]. split; [done|]. rewrite Hr. cbn [invalid rbind attr_entity attr_path attr_value].
    rewrite Hk. cbn [rbind]. rewrite He, Hp, Hv. done.
  - intros (He & Hi & (c & Hc & (k & Hk & (ke & Hke & (pe & Hpe & (ve & Hve & [= -> -> -> ->])%rbind_ok)%rbind_ok)%rbind_ok)%rbind_ok)%rbind_ok).
    destruct (NewAttributePath _ _ _) as [c'|] eqn:Hn; [|done]. injection Hc as ->.
    destruct (NewAttributePath_fits _ _ _ _ Hn) as [Ea Hvalid].
    assert (Dp : decodeAttributePath path = Ok (attr_path a)) by (by apply codec_exact).
    assert (Dv : decodeAttributeValue value = Ok (attr_value a)) by (by apply codec_exact).
    rewrite Dp, Dv. cbn [rbind]. rewrite <- He, Hn. cbn [integrity rbind].
    destruct (NewAttributeKeyPath _ _) as [k'|]; [|done]. injection Hk as ->. cbn [integrity rbind].
    rewrite Hke. by rewrite bool_decide_eq_true_2.
Qed.

(** * Ancestors *)

Lemma validateAttributePath_take path n : validateAttributePath path = Ok tt -> (0 < n)%nat ->
  validateAttributePath (take n path) = Ok tt /\ pathCost (take n path) <= pathCost path.
Proof.
  intros H Hn. destruct (path_fits _ H) as (Hl & _ & Hc).
  assert (Hs : pathCost (take n path) <= pathCost path).
  { unfold pathCost. rewrite <- (take_drop n path) at 2.
    assert (A : forall l1 l2, sum_cost textCost (l1 ++ l2) = sum_cost textCost l1 + sum_cost textCost l2).
    { intros l1 l2. induction l1 as [|x l1 IH]; [done|]. cbn in *. unfold sum_cost in *. cbn. lia. }
    rewrite A. pose proof (sum_cost_nonneg textCost (drop n path) textCost_nonneg). lia. }
  split; [|done]. unfold validateAttributePath in *.
  assert (Hz : 0 < zlen (take n path) <= zlen path) by (unfold zlen in *; rewrite length_take; lia).
  destruct (Z.eqb_spec (zlen (take n path)) 0); [lia|].
  destruct (Z.ltb_spec MaxAggregateWorkItems (zlen (take n path))); [lia|].
  assert (Hb : is_ok (addAttributePathCost (mkBudget 0 MaxAggregateInputBytes) (take n path)) = true).
  { rewrite (costs_fits _ pathCost) by (auto with costs; by vm_compute). apply Z.leb_le. lia. }
  apply is_ok_true in Hb as [b Hb]. rewrite Hb. cbn [rbind].
  destruct (zlen path =? 0); [done|]. destruct (MaxAggregateWorkItems <? zlen path); [done|].
  apply rbind_ok in H as (? & _ & H). rewrite <- (take_drop n path), foldM_app in H.
  by apply rbind_ok in H as ([] & H & _).
Qed.

Lemma NewAttributeKeyPath_take e path n : (0 < n)%nat -> is_ok (NewAttributeKeyPath e path) = true ->
  NewAttributeKeyPath e (take n path) = Ok (mkAttributeKey e (take n path)).
Proof.
  intros Hn [k Hk]%is_ok_true. apply NewAttributeKeyPath_accepts in Hk as (-> & He & Hp & Hc).
  destruct (validateAttributePath_take path n Hp Hn). apply NewAttributeKeyPath_accepts. repeat split; auto. lia.
Qed.

(** The keys that encode: those that are valid with the path codec's probe too. *)
Definition key_encodable (k : AttributeKey) : Prop :=
  is_ok (NewAttributeKeyPath (ak_entity k) (ak_path k)) = true /\
  is_ok (NewAttributeKeyPath codec_entity (ak_path k)) = true.

Lemma encodeAttributeKey_total k : (exists bs, encodeAttributeKey k = Ok bs) <-> key_encodable k.
Proof.
  unfold key_encodable, encodeAttributeKey. split.
  - intros (bs & (c & Hc & (p & Hp & _)%rbind_ok)%rbind_ok). rewrite integrity_Ok in Hc. rewrite Hc. split; [done|].
    apply NewAttributeKeyPath_accepts in Hc as (-> & _). cbn [ak_path] in Hp. unfold encodeAttributePath in Hp.
    by destruct (NewAttributeKeyPath codec_entity (ak_path k)).
  - intros [[c Hc]%is_ok_true [q Hq]%is_ok_true]. rewrite Hc. cbn [integrity rbind].
    apply NewAttributeKeyPath_accepts in Hc as (-> & _ & _ & Hcost). cbn [ak_path].
    assert (Hp : exists p, encodeAttributePath (ak_path k) = Ok p).
    { unfold encodeAttributePath. rewrite Hq. cbn [integrity rbind].
      apply NewAttributeKeyPath_accepts in Hq as (-> & _ & Hv & _). cbn [ak_path].
      destruct (path_fits _ Hv) as [Hl _]. unfold MaxAggregateWorkItems in Hl.
      destruct (Z.ltb_spec (2 ^ 32 - 1) (zlen (ak_path k))); [lia|eauto]. }
    destruct Hp as [p Hp]. rewrite Hp. cbn [rbind]. destruct (encodeAttributePath_size _ _ Hp) as [L _].
    destruct (Z.ltb_spec MaxAggregateInputBytes (zlen p)); [|eauto].
    assert (0 <= entityCost (ak_entity k)) by (unfold entityCost; pose proof textCost_nonneg; apply Z.add_nonneg_nonneg; auto). lia.
Qed.

Lemma encodeAttributeKey_bytes k bs : encodeAttributeKey k = Ok bs -> Forall is_byte bs.
Proof.
  unfold encodeAttributeKey. intros (c & Hc & (p & Hp & H)%rbind_ok)%rbind_ok. destruct (_ <? _); [done|].
  apply Ok_inj in H as <-. destruct (encodeAttributePath_size _ _ Hp) as [_ B]. codec_unfold. rewrite !Forall_app.
  repeat split; auto using be_encode_bytes, bytes_of_string_range. by repeat constructor.
Qed.

(** Two keys with one encoding are one key. *)
Lemma encodeAttributeKey_inj k1 k2 bs : encodeAttributeKey k1 = Ok bs -> encodeAttributeKey k2 = Ok bs -> k1 = k2.
Proof.
  intros H1 H2. pose proof (encodeAttributeKey_bytes _ _ H1) as B.
  assert (D1 : decodeAttributeKey bs = Ok k1) by (by apply codec_exact).
  assert (D2 : decodeAttributeKey bs = Ok k2) by (by apply codec_exact). congruence.
Qed.

Lemma key_encodable_take k n : (0 < n)%nat -> key_encodable k ->
  key_encodable (mkAttributeKey (ak_entity k) (take n (ak_path k))).
Proof.
  intros Hn [H1 H2]. unfold key_encodable. cbn [ak_entity ak_path].
  split; by rewrite (NewAttributeKeyPath_take _ _ n Hn).
Qed.

Lemma strict_prefix_take {A} (p q : list A) : p `prefix_of` q /\ p <> q /\ p <> [] <->
  exists n, (0 < n < length q)%nat /\ p = take n q.
Proof.
  split.
  - intros ([t ->] & Hne & Hn). exists (length p). rewrite length_app, take_app_length. split; [|done].
    destruct p; [done|]. destruct t; [by rewrite app_nil_r in Hne|]. cbn. lia.
  - intros (n & Hn & ->). split; [apply prefix_take|]. split; intros E; apply (f_equal length) in E; rewrite length_take in E;
      cbn in E; lia.
Qed.

(** The ancestor rows of an attribute are the encodings of exactly the strict
    prefixes of its path, on its entity. *)
Lemma strictAttributePrefixes_exact k : key_encodable k ->
  exists rows, strictAttributePrefixes k = Ok rows /\
    forall k' bs, encodeAttributeKey k' = Ok bs ->
      bs ∈ rows <-> ak_entity k' = ak_entity k /\ ak_path k' `prefix_of` ak_path k /\ ak_path k' <> ak_path k.
Proof.
  intros Hk. unfold strictAttributePrefixes.
  assert (L : forall ns, Forall (fun n => 0 < n)%nat ns -> exists rows,
    attribute_prefixes (ak_entity k) (ak_path k) ns = Ok rows /\
    forall bs, bs ∈ rows <-> exists n, n ∈ ns /\ encodeAttributeKey (mkAttributeKey (ak_entity k) (take n (ak_path k))) = Ok bs).
  { induction ns as [|n ns IH]; intros Hns; cbn [attribute_prefixes].
    { exists []. split; [done|]. intros bs. split; [by intros ?%not_elem_of_nil|by intros (? & ?%not_elem_of_nil & _)]. }
    inversion_clear Hns as [|? ? Hn Hns']. destruct (IH Hns') as (rows & Hrows & Hin).
    rewrite (NewAttributeKeyPath_take _ _ n Hn (proj1 Hk)). cbn [rbind].
    destruct (proj2 (encodeAttributeKey_total _) (key_encodable_take k n Hn Hk)) as [e He]. rewrite He. cbn [rbind].
    rewrite Hrows. cbn [rbind]. eexists. split; [done|]. intros bs. rewrite elem_of_cons, Hin. split.
    - intros [->|(m & Hm & ?)]; [exists n|exists m]; (split; [by constructor|done]).
    - intros (m & [->|Hm]%elem_of_cons & Hb); [left; congruence|right; eauto]. }
  destruct (L (seq 1 (length (ak_path k) - 1))) as (rows & Hrows & Hin).
  { apply Forall_forall. intros n Hn%elem_of_seq. lia. }
  exists rows. split; [done|]. intros k' bs Hb. rewrite Hin.
  assert (Hne : ak_path k' <> []).
  { assert (E : key_encodable k') by (apply encodeAttributeKey_total; eauto). destruct E as [[c Hc]%is_ok_true _].
    apply NewAttributeKeyPath_accepts in Hc as (_ & _ & Hv & _). intros E. by rewrite E in Hv. }
  split.
  - intros (n & Hn%elem_of_seq & Hb'). pose proof (encodeAttributeKey_inj _ _ _ Hb Hb') as ->. cbn [ak_entity ak_path].
    split; [done|]. assert (P : exists m, (0 < m < length (ak_path k))%nat /\ take n (ak_path k) = take m (ak_path k)) by (exists n; split; [lia|done]).
    apply strict_prefix_take in P. tauto.
  - intros (He & Hp & Hn). destruct (proj1 (strict_prefix_take (ak_path k') (ak_path k))) as (n & Hlt & E); [done|].
    exists n. split; [apply elem_of_seq; lia|]. rewrite <- He, <- E. by destruct k'.
Qed.

(** * Replay records *)

#[export] Instance response_codec :
  DurableCodec encodeIdempotencyResponse (fun bs => decodeIdempotencyResponse bs false)
    (fun w => unsigned 64 (wr_generation w)).
Proof.
  intros bs v Hb. unfold decodeIdempotencyResponse. codec_spec. unfold encodeIdempotencyResponse, NewWriteDataResponse. split.
  - intros H. codec_open H. subst. rewrite integrity_Ok in H.
    match goal with U : unsigned 64 ?g |- _ => destruct (g =? 0) eqn:E; [done|] end. injection H as <-.
    cbn [wr_generation wr_replayed]. rewrite E. cbn [orb]. codec_unfold. split; [|done]. f_equal; by rewrite app_nil_r.
  - intros [H Hg]. destruct v as [g r]. cbn [wr_generation wr_replayed] in *. destruct (g =? 0) eqn:E; [done|].
    destruct r; [done|]. cbn [orb] in H. apply Ok_inj in H as <-. codec_unfold.
    rewrite <- (app_nil_r (be_encode 8 g)). codec_close; [done..|]. by rewrite E.
Qed.

Lemma fingerprint_codec f bs :
  encodeIdempotencyFingerprint f = Ok bs -> decodeIdempotencyFingerprint bs = Ok (Fingerprint_Bytes f).
Proof.
  unfold encodeIdempotencyFingerprint, decodeIdempotencyFingerprint. destruct (fp_valid f) eqn:V; [|done].
  destruct (Z.eqb_spec (zlen (Fingerprint_Bytes f)) sha256_Size) as [L|]; [|done]. cbn [negb orb].
  intros H. apply Ok_inj in H as <-. cbn [app]. rewrite zlen_cons, L. cbn [head].
  by rewrite bool_decide_eq_false_2 by auto.
Qed.

(** C22: The durable encodings of the SQLite store are exact. Of every byte
    string, a decoder answers a value precisely when that value encodes to that
    byte string (and, where the value has machine numbers, they are in range):
    a stored row reads back as what was stored, two values never share an
    encoding, and no other spelling, trailing byte, wrong version, kind or
    length is accepted. *)
Theorem durable_codecs_exact `{D : Dsl} bs : Forall is_byte bs ->
  (forall t, decodeTupleKey bs = Ok t <-> encodeTupleKey t = Ok bs) /\
  (forall p, decodeAttributePath bs = Ok p <-> encodeAttributePath p = Ok bs) /\
  (forall k, decodeAttributeKey bs = Ok k <-> encodeAttributeKey k = Ok bs) /\
  (forall v, decodeAttributeValue bs = Ok v <-> encodeAttributeValue v = Ok bs /\ value_machine v) /\
  (forall e, decodeStateEvent bs = Ok e <-> encodeStateEvent e = Ok bs /\ event_machine e) /\
  (forall a, decodeActivation bs = Ok a <-> encodeActivation a = Ok bs /\ activation_machine a) /\
  (forall m, decodeRevisionMetadata bs = Ok m <-> encodeRevisionMetadata m = Ok bs /\ metadata_machine m) /\
  (forall ns p, validateNamespace ns = Ok tt ->
     decodeRevisionProvenance ns bs = Ok p <-> encodeRevisionProvenance p = Ok bs /\ provenance_machine p) /\
  (forall w, decodeIdempotencyResponse bs false = Ok w <->
     encodeIdempotencyResponse w = Ok bs /\ unsigned 64 (wr_generation w)).
Proof.
  intros Hb. split; [intros t; rewrite (codec_exact bs t Hb); tauto|]. split; [intros p; rewrite (codec_exact bs p Hb); tauto|].
  split; [intros k; rewrite (codec_exact bs k Hb); tauto|]. split; [intros v; by apply codec_exact|].
  split; [intros e; by apply codec_exact|]. split; [intros a; by apply codec_exact|]. split; [intros m; by apply codec_exact|].
  split; [intros ns p Hns; by apply (provenance_codec ns Hns)|].
  intros w. exact (response_codec bs w Hb).
Qed.
