(* ===== verification/SqliteCursor.v ===== *)
(** Page cursors of the SQLite store (store/sqlite/cursors.go).

    A cursor authenticates its scope (domain, namespace, slot), the position
    and retention boundary it was minted at, and for revision pages the
    publication time and identifier of the last row. The theorem at the end
    says that decoding is the exact inverse of minting: a token is accepted in
    a scope exactly when this key minted it for that scope. *)

From Stdlib Require Import ZArith Lia.
From stdpp Require Import base list strings.
From S2P Require Import Prelude Limits Text Types Cost Data DataValid Policy Events Revisions Cursor SqliteCodec.

(** [cursorDomain] is a byte. *)
Definition cursorDomainRevision : Z := 1.
Definition cursorDomainHistory : Z := 2.
Definition cursorDomainEvent : Z := 3.

Definition cursorScopeLength : Z := 16.
Definition cursorMACLength : Z := 32.
Definition cursorFixedLength : Z := 1 + 1 + cursorScopeLength + 8 + 8 + 8 + 4 + 2.

Record sqliteCursorState := mkSqliteCursor {
  sc_domain : Z; sc_namespace : string; sc_slot : string; sc_position : Z; sc_boundary : Z;
  sc_revisionPublishedAt : Time; sc_revisionID : string }.

Definition validCursorScope (domain : Z) (namespace slot : string) : bool :=
  if bool_decide (namespace = ""%string) then false
  else if (domain =? cursorDomainRevision) || (domain =? cursorDomainEvent) then bool_decide (slot = ""%string)
  else if domain =? cursorDomainHistory then bool_decide (slot <> ""%string)
  else false.

(** The conditions of the history and event domains are the same. *)
Definition validCursorState (value : sqliteCursorState) : bool :=
  if negb (validCursorScope (sc_domain value) (sc_namespace value) (sc_slot value)) then false
  else if sc_domain value =? cursorDomainRevision then
    if negb (sc_position value =? 0) || negb (sc_boundary value =? 0) || IsZero (sc_revisionPublishedAt value)
       || bool_decide (sc_revisionID value = ""%string)
    then false else is_ok (ParseRevisionID (sc_revisionID value))
  else if (sc_domain value =? cursorDomainHistory) || (sc_domain value =? cursorDomainEvent) then
    (0 <? sc_position value) && (sc_boundary value <? sc_position value)
    && IsZero (sc_revisionPublishedAt value) && bool_decide (sc_revisionID value = ""%string)
  else false.

Definition cursorCodecTime (value : sqliteCursorState) : option (Z * Z) :=
  if negb (sc_domain value =? cursorDomainRevision) then Some (0, 0)
  else codecTime (sc_revisionPublishedAt value).

Section SqliteCursors.
Context `{H : Hmac} (cursorKey : list Z).

Definition sqliteCursorScope (domain : Z) (namespace slot : string) : list Z :=
  take 16 (hmac_sum cursorKey
    (bytes_of_string "cadrena.cursor.scope" ++ [0] ++ [domain; 0] ++ bytes_of_string namespace ++ [0]
     ++ bytes_of_string slot)).

Definition newCursor (value : sqliteCursorState) : result string :=
  if negb (validCursorState value) then Err ErrorInternal
  else match cursorCodecTime value with
  | None => Err ErrorInternal
  | Some (seconds, nanos) =>
      if (MaxIdentifierBytes <? len (sc_revisionID value)) || (2 ^ 16 - 1 <? len (sc_revisionID value))
      then Err ErrorInternal
      else
        let bodyLength := cursorFixedLength + len (sc_revisionID value) in
        if MaxIdentifierBytes <? b64_len (bodyLength + cursorMACLength) then Err ErrorInternal
        else
          let body := [codecVersion; sc_domain value] in
          let body := body ++ sqliteCursorScope (sc_domain value) (sc_namespace value) (sc_slot value) in
          let body := appendCodecUint64 body (sc_position value) in
          let body := appendCodecUint64 body (sc_boundary value) in
          let body := appendCodecUint64 body (seconds mod 2 ^ 64) in
          let body := appendCodecUint32 body nanos in
          let body := appendCodecUint16 body (len (sc_revisionID value) mod 2 ^ 16) in
          let body := body ++ bytes_of_string (sc_revisionID value) in
          let token := body ++ hmac_sum cursorKey body in
          Ok (string_of_bytes (b64_encode token))
  end.

(** The fields of an authenticated body. *)
Definition decode_body (body : list Z) (domain : Z) (namespace slot : string) : result sqliteCursorState :=
  let reader := newReader body in
  read? version, reader := reader_byte reader or ErrorInvalidArgument in
  if negb (version =? codecVersion) then Err ErrorInvalidArgument
  else
    read? actualDomain, reader := reader_byte reader or ErrorInvalidArgument in
    if negb (actualDomain =? domain) then Err ErrorInvalidArgument
    else
      read? suppliedScope, reader := reader_fixed cursorScopeLength reader or ErrorInvalidArgument in
      if negb (bool_decide (suppliedScope = sqliteCursorScope domain namespace slot)) then Err ErrorInvalidArgument
      else
        read? position, reader := reader_uint64 reader or ErrorInvalidArgument in
        read? boundary, reader := reader_uint64 reader or ErrorInvalidArgument in
        read? seconds, reader := reader_int64 reader or ErrorInvalidArgument in
        read? nanos, reader := reader_uint32 reader or ErrorInvalidArgument in
        read? revisionID, reader := reader_string16 MaxIdentifierBytes reader or ErrorInvalidArgument in
        if negb (reader_done reader) then Err ErrorInvalidArgument
        else
          let? when :=
            (if domain =? cursorDomainRevision then
               match decodeCodecTime seconds nanos with
               | Some when => Ok when
               | None => Err ErrorInvalidArgument
               end
             else if negb (seconds =? 0) || negb (nanos =? 0) then Err ErrorInvalidArgument
             else Ok 0) in
          let result := mkSqliteCursor domain namespace slot position boundary when revisionID in
          if negb (validCursorState result) then Err ErrorInvalidArgument else Ok result.

Definition decodeCursor (value : string) (domain : Z) (namespace slot : string) : result sqliteCursorState :=
  if bool_decide (value = ""%string) then Ok (mkSqliteCursor domain namespace slot 0 0 0 "")
  else if negb (validCursorScope domain namespace slot) || (MaxIdentifierBytes <? len value)
  then Err ErrorInvalidArgument
  else match b64_decode (bytes_of_string value) with
  | None => Err ErrorInvalidArgument
  | Some token =>
      if zlen token <? cursorFixedLength + cursorMACLength then Err ErrorInvalidArgument
      else if negb (bool_decide (string_of_bytes (b64_encode token) = value)) then Err ErrorInvalidArgument
      else
        let body := slice token 0 (zlen token - cursorMACLength) in
        let suppliedMAC := slice token (zlen token - cursorMACLength) (zlen token) in
        if negb (bool_decide (suppliedMAC = hmac_sum cursorKey body)) then Err ErrorInvalidArgument
        else decode_body body domain namespace slot
  end.
End SqliteCursors.

(** * Facts *)

Lemma b64_value_range c n : b64_value c = Some n -> 0 <= n < 64.
Proof.
  unfold b64_value, in_range. intros Hv.
  repeat (match type of Hv with (if ?b then _ else _) = _ => destruct b eqn:?E end); simplify_eq;
    rewrite ?andb_true_iff, ?Z.leb_le, ?Z.eqb_eq in *; lia.
Qed.

Lemma b64_groups_bytes n : forall cs bs, (length cs <= n)%nat -> b64_groups cs = Some bs -> Forall is_byte bs.
Proof.
  unfold is_byte. induction n as [|n IH]; intros [|c0 [|c1 [|c2 [|c3 cs]]]] bs Hl; cbn [length] in Hl; try lia; cbn [b64_groups];
    try (intros [= <-]; constructor); try done.
  - destruct (b64_value c0) as [a|] eqn:Ea; [|done]. destruct (b64_value c1) as [b|] eqn:Eb; [|done]. intros [= <-].
    apply b64_value_range in Ea, Eb. constructor; [dlia|constructor].
  - destruct (b64_value c0) as [a|] eqn:Ea; [|done]. destruct (b64_value c1) as [b|] eqn:Eb; [|done].
    destruct (b64_value c2) as [c|] eqn:Ec; [|done]. intros [= <-].
    apply b64_value_range in Ea, Eb, Ec. constructor; [dlia|]. constructor; [dlia|constructor].
  - destruct (b64_value c0) as [a|] eqn:Ea; [|done]. destruct (b64_value c1) as [b|] eqn:Eb; [|done].
    destruct (b64_value c2) as [c|] eqn:Ec; [|done]. destruct (b64_value c3) as [d|] eqn:Ed; [|done].
    destruct (b64_groups cs) as [rest'|] eqn:Er; [|done]. intros [= <-].
    apply b64_value_range in Ea, Eb, Ec, Ed. constructor; [dlia|]. constructor; [dlia|]. constructor; [dlia|].
    apply (IH cs); [lia|done].
Qed.

Section SqliteCursorFacts.
Context `{H : Hmac} (cursorKey : list Z).

(** The widths of a cursor's fields. *)
Definition cursor_machine (c : sqliteCursorState) : Prop :=
  unsigned 64 (sc_position c) /\ unsigned 64 (sc_boundary c) /\ time_wf (sc_revisionPublishedAt c).

(** The body that a cursor authenticates. *)
Definition cursor_body (c : sqliteCursorState) (seconds nanos : Z) : list Z :=
  [codecVersion] ++ [sc_domain c] ++ sqliteCursorScope cursorKey (sc_domain c) (sc_namespace c) (sc_slot c)
  ++ be_encode 8 (sc_position c) ++ be_encode 8 (sc_boundary c) ++ be_encode 8 (seconds mod 2 ^ 64) ++ be_encode 4 nanos
  ++ be_encode 2 (len (sc_revisionID c) mod 2 ^ 16) ++ bytes_of_string (sc_revisionID c).

Lemma sqliteCursorScope_fixed d n s : Forall is_byte (sqliteCursorScope cursorKey d n s) /\
  zlen (sqliteCursorScope cursorKey d n s) = cursorScopeLength.
Proof.
  unfold sqliteCursorScope. split; [apply Forall_take, hmac_bytes|].
  unfold zlen. by rewrite length_take, hmac_len.
Qed.

Lemma validCursorState_fits c : validCursorState c = true ->
  is_byte (sc_domain c) /\ len (sc_revisionID c) <= 64.
Proof.
  unfold validCursorState, validCursorScope, cursorDomainRevision, cursorDomainHistory, cursorDomainEvent.
  destruct (negb _); [done|]. destruct (Z.eqb_spec (sc_domain c) 1) as [->|].
  { destruct (_ || _); [done|]. intros [id Hid]%is_ok_true. split; [done|].
    apply ParseRevisionID_Ok in Hid as (Hv & _). unfold validRevisionIDString in Hv.
    apply andb_true_iff in Hv as [Hl%Z.eqb_eq _]. lia. }
  destruct (Z.eqb_spec (sc_domain c) 2) as [->|]; [|destruct (Z.eqb_spec (sc_domain c) 3) as [->|]; [|done]]; cbn [orb];
    rewrite !andb_true_iff, bool_decide_eq_true; intros [_ ->]; done.
Qed.

#[local] Existing Instance fixed_field.
#[local] Arguments be_encode : simpl never.

Lemma decode_body_exact body domain namespace slot c : Forall is_byte body ->
  decode_body cursorKey body domain namespace slot = Ok c <->
  sc_domain c = domain /\ sc_namespace c = namespace /\ sc_slot c = slot /\ validCursorState c = true /\ cursor_machine c /\
  exists seconds nanos, cursorCodecTime c = Some (seconds, nanos) /\ body = cursor_body c seconds nanos.
Proof.
  intros Hb. unfold decode_body. codec_spec. split.
  - intros E. codec_open E. subst.
    apply rbind_ok in E as (when & Hw & E). destruct (validCursorState _) eqn:V; [|done]. cbn [negb] in E. injection E as <-.
    cbn [sc_domain sc_namespace sc_slot]. do 3 (split; [done|]). split; [done|].
    assert (T : cursorCodecTime (mkSqliteCursor domain namespace slot x2 x3 when x6) = Some (x4, x5) /\ time_wf when).
    { unfold cursorCodecTime. cbn [sc_domain sc_revisionPublishedAt]. destruct (domain =? cursorDomainRevision); cbn [negb].
      - destruct (decodeCodecTime x4 x5) as [t|] eqn:Ht; [|done]. injection Hw as <-.
        by apply decodeCodecTime_exact in Ht.
      - destruct (Z.eqb_spec x4 0) as [->|]; [|done]. destruct (Z.eqb_spec x5 0) as [->|]; [|done]. by injection Hw as <-. }
    destruct T as [T Tw]. split; [done|]. exists x4, x5. split; [done|]. unfold cursor_body.
    cbn [sc_domain sc_namespace sc_slot sc_position sc_boundary sc_revisionID]. by rewrite app_nil_r.
  - intros (<- & <- & <- & V & (Hp & Hbd & Ht) & seconds & nanos & T & ->). unfold cursor_body.
    destruct (validCursorState_fits _ V) as [Hd Hl]. destruct (sqliteCursorScope_fixed (sc_domain c) (sc_namespace c) (sc_slot c)) as [Hs1 Hs2].
    assert (U : signed64 seconds /\ unsigned 32 nanos).
    { unfold cursorCodecTime in T. destruct (negb _); [by injection T as <- <-|]. by apply codecTime_fields in T. }
    rewrite <- (app_nil_r (_ ++ bytes_of_string _)).
    eexists _, _. split; [|split; [reflexivity|]]; [done|]. split; [done|].
    eexists _, _. split; [|split; [reflexivity|]]; [done|]. split; [by rewrite Z.eqb_refl|].
    eexists _, _. split; [|split; [reflexivity|]]; [done|]. split; [by rewrite bool_decide_eq_true_2|].
    codec_close; [done|done|apply U|apply U|etrans; [exact Hl|by vm_compute]|].
    assert (W : (if sc_domain c =? cursorDomainRevision then
        match decodeCodecTime seconds nanos with Some when => Ok when | None => Err ErrorInvalidArgument end
      else if negb (seconds =? 0) || negb (nanos =? 0) then Err ErrorInvalidArgument else Ok 0) = Ok (sc_revisionPublishedAt c)).
    { unfold cursorCodecTime in T. destruct (sc_domain c =? cursorDomainRevision) eqn:Er; cbn [negb] in T.
      - rewrite (proj2 (decodeCodecTime_exact seconds nanos _ (proj1 U) (proj2 U)) (conj T Ht)). done.
      - injection T as <- <-. cbn. unfold validCursorState in V. destruct (negb _); [done|]. rewrite Er in V.
        destruct (_ || _); [|done]. rewrite !andb_true_iff in V. destruct V as [[_ Hz] _]. unfold IsZero in Hz.
        apply Z.eqb_eq in Hz. by rewrite Hz. }
    rewrite W. cbn [rbind]. destruct c; cbn [sc_domain sc_namespace sc_slot sc_position sc_boundary sc_revisionPublishedAt sc_revisionID] in *.
    by rewrite V.
Qed.

Lemma cursor_body_length c seconds nanos :
  zlen (cursor_body c seconds nanos) = cursorFixedLength + len (sc_revisionID c).
Proof.
 unfold cursor_body. rewrite !zlen_app, zlen_bytes_of_string. destruct (sqliteCursorScope_fixed (sc_domain c) (sc_namespace c) (sc_slot c)) as [_ ->].
  unfold zlen, cursorFixedLength. rewrite !be_encode_length. cbn [length]. lia.
Qed.

Lemma newCursor_exact c value : newCursor cursorKey c = Ok value <->
  validCursorState c = true /\ exists seconds nanos, cursorCodecTime c = Some (seconds, nanos) /\
  let body := cursor_body c seconds nanos in
  value = string_of_bytes (b64_encode (body ++ hmac_sum cursorKey body)) /\
  b64_len (zlen body + 32) <= MaxIdentifierBytes.
Proof.
  unfold newCursor. destruct (validCursorState c) eqn:V; [|naive_solver]. cbn [negb].
  destruct (cursorCodecTime c) as [[seconds nanos]|] eqn:T; [|naive_solver].
  destruct (validCursorState_fits _ V) as [_ Hl]. change MaxIdentifierBytes with 1024.
  destruct (Z.ltb_spec 1024 (len (sc_revisionID c))); [lia|]. destruct (Z.ltb_spec (2 ^ 16 - 1) (len (sc_revisionID c))); [lia|].
  cbn [orb]. cbv zeta. codec_unfold.
  match goal with |- context [Ok (string_of_bytes (b64_encode (?b ++ hmac_sum cursorKey ?b)))] =>
    replace b with (cursor_body c seconds nanos) by (unfold cursor_body; by rewrite <- !app_assoc) end.
  rewrite <- (cursor_body_length c seconds nanos). change cursorMACLength with 32.
  destruct (Z.ltb_spec 1024 (b64_len (zlen (cursor_body c seconds nanos) + 32))).
  - split; [done|]. intros (_ & ? & ? & [= <- <-] & _ & ?). lia.
  - split; [intros <-%Ok_inj; split; [done|]; by exists seconds, nanos|]. by intros (_ & ? & ? & [= <- <-] & -> & _).
Qed.

Lemma cursor_body_bytes c seconds nanos : is_byte (sc_domain c) -> Forall is_byte (cursor_body c seconds nanos).
Proof.
  intros Hd. unfold cursor_body. destruct (sqliteCursorScope_fixed (sc_domain c) (sc_namespace c) (sc_slot c)) as [Hs _].
  rewrite !Forall_app. repeat split; auto using be_encode_bytes, bytes_of_string_range; by repeat constructor.
Qed.

(** The token of a body splits into the body and its authentication code. *)
Lemma token_split (body mac : list Z) : zlen mac = 32 ->
  slice (body ++ mac) 0 (zlen (body ++ mac) - 32) = body /\
  slice (body ++ mac) (zlen (body ++ mac) - 32) (zlen (body ++ mac)) = mac.
Proof.
  intros Hm. unfold slice. rewrite zlen_app, Hm. pose proof (zlen_nonneg body). unfold zlen in *. split.
  - change (Z.to_nat 0) with 0%nat. rewrite drop_0, take_app_length'; [done|lia].
  - rewrite drop_app_length' by lia. rewrite take_ge; [done|lia].
Qed.

Lemma slice_cover (token : list Z) n : 0 <= n <= zlen token -> slice token 0 n ++ slice token n (zlen token) = token.
Proof.
  intros Hn. unfold slice, zlen in *. change (Z.to_nat 0) with 0%nat. rewrite drop_0, Z.sub_0_r.
  rewrite (take_ge (drop _ _)) by (rewrite length_drop; lia). apply take_drop.
Qed.

Lemma minted_nonempty c : newCursor cursorKey c = Ok ""%string -> False.
Proof.
  intros (V & seconds & nanos & _ & E & _)%newCursor_exact. cbv zeta in E. set (body := cursor_body _ _ _) in *.
  destruct (validCursorState_fits _ V) as [Hdom _].
  assert (Hb : Forall is_byte (body ++ hmac_sum cursorKey body)).
  { rewrite Forall_app. split; [by apply cursor_body_bytes|apply hmac_bytes]. }
  apply (f_equal bytes_of_string) in E. rewrite bytes_of_string_of_bytes in E by (by apply b64_encode_bytes).
  apply (f_equal zlen) in E. rewrite b64_encode_len, zlen_app in E. unfold b64_len in E.
  assert (Z32 : zlen (hmac_sum cursorKey body) = 32) by (unfold zlen; by rewrite hmac_len).
  pose proof (zlen_nonneg body). change (zlen (bytes_of_string "")) with 0 in E. dlia.
Qed.

Lemma decodeCursor_exact value domain namespace slot c :
  decodeCursor cursorKey value domain namespace slot = Ok c <->
  sc_domain c = domain /\ sc_namespace c = namespace /\ sc_slot c = slot /\
  (value = ""%string /\ c = mkSqliteCursor domain namespace slot 0 0 0 "" \/
   newCursor cursorKey c = Ok value /\ cursor_machine c).
Proof.
  unfold decodeCursor. case_bool_decide as Hv.
  { subst. split; [intros [= <-]; eauto 6|]. intros (<- & <- & <- & [[_ ->]|[Hn _]]); [done|].
    by apply minted_nonempty in Hn. }
  destruct (validCursorScope domain namespace slot) eqn:Hsc; cbn [negb orb].
  2:{ split; [done|]. intros (<- & <- & <- & [[? _]|[Hn _]]); [done|]. apply newCursor_exact in Hn as [V _].
      unfold validCursorState in V. by rewrite Hsc in V. }
  split.
  - destruct (Z.ltb_spec MaxIdentifierBytes (len value)) as [|Hl]; [done|].
    destruct (b64_decode _) as [token|] eqn:Hd; [|done].
    assert (Hb : Forall is_byte token) by (by eapply b64_groups_bytes in Hd).
    destruct (Z.ltb_spec (zlen token) (cursorFixedLength + cursorMACLength)) as [|Ht]; [done|].
    case_bool_decide as Henc; [|done]. cbn [negb]. change cursorMACLength with 32 in *.
    pose proof (slice_cover token (zlen token - 32) ltac:(unfold cursorFixedLength, cursorScopeLength in Ht; lia)) as Hcov.
    set (body := slice token 0 (zlen token - 32)) in *. set (mac := slice token (zlen token - 32) (zlen token)) in *.
    case_bool_decide as Hmac; [|done]. cbn [negb].
    assert (Hbb : Forall is_byte body) by (rewrite <- Hcov, Forall_app in Hb; apply Hb).
    intros (<- & <- & <- & V & M & seconds & nanos & T & Ebody)%decode_body_exact; [|done].
    do 3 (split; [done|]). right. split; [|done]. apply newCursor_exact. split; [done|]. exists seconds, nanos.
    split; [done|]. cbv zeta. rewrite <- Ebody, <- Hmac, Hcov. split; [done|].
    assert (Z32 : zlen mac = 32) by (rewrite Hmac; unfold zlen; by rewrite hmac_len).
    rewrite <- Z32, <- zlen_app, Hcov, <- b64_encode_len.
    rewrite <- Henc, <- zlen_bytes_of_string, bytes_of_string_of_bytes in Hl by (by apply b64_encode_bytes). done.
  - intros (<- & <- & <- & [[? _]|[Hn M]]); [done|].
    apply newCursor_exact in Hn as (V & seconds & nanos & T & E & Hl). cbv zeta in E. set (body := cursor_body _ _ _) in *.
    destruct (validCursorState_fits _ V) as [Hdom _].
    assert (Hb : Forall is_byte (body ++ hmac_sum cursorKey body)).
    { rewrite Forall_app. split; [by apply cursor_body_bytes|apply hmac_bytes]. }
    assert (Z32 : zlen (hmac_sum cursorKey body) = 32) by (unfold zlen; by rewrite hmac_len).
    assert (Hbs : bytes_of_string value = b64_encode (body ++ hmac_sum cursorKey body)).
    { rewrite E. apply bytes_of_string_of_bytes. by apply b64_encode_bytes. }
    destruct (Z.ltb_spec MaxIdentifierBytes (len value)) as [Hgt|_].
    { rewrite <- zlen_bytes_of_string, Hbs, b64_encode_len, zlen_app, Z32 in Hgt. lia. }
    rewrite Hbs, b64_decode_encode by done. rewrite bool_decide_eq_true_2 by done. cbn [negb].
    assert (Hlen : cursorFixedLength <= zlen body) by (unfold body; rewrite cursor_body_length; pose proof (len_nonneg (sc_revisionID c)); lia).
    change cursorMACLength with 32. destruct (token_split body (hmac_sum cursorKey body) Z32) as [-> ->].
    rewrite zlen_app, Z32. destruct (Z.ltb_spec (zlen body + 32) (cursorFixedLength + 32)); [lia|].
    rewrite bool_decide_eq_true_2 by done. cbn [negb]. apply decode_body_exact; [by apply cursor_body_bytes|].
    do 5 (split; [done|]). exists seconds, nanos. done.
Qed.

(** C23: a page token of the durable store is accepted exactly where it was
    minted. Decoding a non-empty token in a scope answers a cursor if and only
    if minting that cursor, which is of that scope, under this key yields
    exactly that token: no other spelling, scope, domain or content is
    accepted, every minted token is, and the position, boundary, time and
    identifier come back unchanged. The empty token is the start of a scope. *)
Theorem sqlite_cursor_exact value domain namespace slot c :
  decodeCursor cursorKey value domain namespace slot = Ok c <->
  sc_domain c = domain /\ sc_namespace c = namespace /\ sc_slot c = slot /\
  (value = ""%string /\ c = mkSqliteCursor domain namespace slot 0 0 0 "" \/
   newCursor cursorKey c = Ok value /\ cursor_machine c).
Proof. apply decodeCursor_exact. Qed.
End SqliteCursorFacts.
