(* ===== verification/SqliteDb.v ===== *)
(** The tables of the SQLite store and the statements that its operations run
    (store/sqlite/migrations/0001_initial.sql and the SQL text in idempotency.go,
    slots.go, revisions.go, events.go and snapshot.go), the transaction in
    which they run (writer.go) and the mapping of failures (errors.go,
    locking.go).

    A table is a finite map from its primary key to the other columns. A
    statement reads or changes the tables of the open transaction; it may fail
    at any point with any error of the driver, and a violated constraint makes
    it fail. The environment of a transaction gives, for each numbered step,
    the state of the context and the failure of the statement, if any, so that
    a theorem over all environments covers every fault. *)

From Stdlib Require Import ZArith Lia.
From stdpp Require Import base list gmap strings.
From S2P Require Import Prelude Limits Text Types Invocation Cost Data DataValid Policy Events Revisions Cursor Fingerprint SqliteCodec SqliteData SqliteCursor.

(** * Failures *)

(** The context of a call when it is asked: nil, usable, past its deadline, or
    ended otherwise. *)
Inductive context_state := NilContext | LiveContext | DeadlinePassed | ContextCanceled.

Definition sqliteContextError (c : context_state) : result unit :=
  match c with
  | NilContext => Err ErrorInvalidArgument
  | LiveContext => Ok tt
  | DeadlinePassed => Err ErrorDeadlineExceeded
  | ContextCanceled => Err ErrorCanceled
  end.

(** The errors that [mapError] tells apart, by the first of its tests that
    they satisfy; a SQLite result code may be extended. *)
Inductive driverError :=
  | DriverDeadline | DriverCanceled | DriverPermission | DriverNoSpace | DriverReadOnly
  | DriverEngine (c : ErrorCategory)
  | DriverSqlite (code : Z)
  | DriverOther.

Definition SQLITE_ERROR : Z := 1.
Definition SQLITE_PERM : Z := 3.
Definition SQLITE_BUSY : Z := 5.
Definition SQLITE_LOCKED : Z := 6.
Definition SQLITE_READONLY : Z := 8.
Definition SQLITE_CORRUPT : Z := 11.
Definition SQLITE_FULL : Z := 13.
Definition SQLITE_CONSTRAINT : Z := 19.
Definition SQLITE_NOTADB : Z := 26.

Definition mapError (ctx : context_state) (err : driverError) : ErrorCategory :=
  match ctx with
  | NilContext => ErrorInvalidArgument
  | DeadlinePassed => ErrorDeadlineExceeded
  | ContextCanceled => ErrorCanceled
  | LiveContext =>
      match err with
      | DriverDeadline => ErrorDeadlineExceeded
      | DriverCanceled => ErrorCanceled
      | DriverPermission => ErrorPermissionDenied
      | DriverNoSpace => ErrorResourceExhausted
      | DriverReadOnly => ErrorPermissionDenied
      | DriverEngine c => c
      | DriverSqlite code =>
          let code := Z.land code 0xff in
          if (code =? SQLITE_BUSY) || (code =? SQLITE_LOCKED) then ErrorUnavailable
          else if code =? SQLITE_FULL then ErrorResourceExhausted
          else if (code =? SQLITE_READONLY) || (code =? SQLITE_PERM) then ErrorPermissionDenied
          else if (code =? SQLITE_CORRUPT) || (code =? SQLITE_NOTADB) then ErrorIntegrity
          else ErrorInternal
      | DriverOther => ErrorInternal
      end
  end.

(** [mapError(ctx, err)] of an error that is already an engine error. *)
Definition mapEngineError (ctx : context_state) (c : ErrorCategory) : ErrorCategory := mapError ctx (DriverEngine c).

(** * Tables *)

Record headRow := mkHeadRow {
  hd_dataGeneration : Z; hd_eventSequence : Z; hd_expiredThrough : Z; hd_effectiveTimeNS : option Z }.
Record revisionRow := mkRevisionRow { rvr_artifact : list Z; rvr_provenance : list Z; rvr_publishedAtNS : Z }.
Record slotRow := mkSlotRow { slr_revisionID : string; slr_generation : Z; slr_activatedAtNS : Z }.
Record historyRow := mkHistoryRow { hyr_revisionID : string; hyr_activatedAtNS : Z }.
Record tupleRow := mkTupleRow {
  tpr_subjectType : string; tpr_subjectID : string; tpr_subjectRelation : string; tpr_relation : string;
  tpr_resourceType : string; tpr_resourceID : string; tpr_expiresAtNS : option Z }.
Record attributeRow := mkAttributeRow {
  atr_entityType : string; atr_entityID : string; atr_path : list Z; atr_value : list Z; atr_expiresAtNS : option Z }.
Record eventRow := mkEventRow { evr_kind : string; evr_payload : list Z; evr_createdAtNS : Z }.
Record idempotencyRow := mkIdempotencyRow { idr_fingerprint : list Z; idr_response : list Z }.

Record database := mkDatabase {
  db_heads : gmap string headRow;
  db_revisions : gmap (string * string) revisionRow;
  db_slots : gmap (string * string) slotRow;
  db_history : gmap (string * string * Z) historyRow;
  db_tuples : gmap (string * list Z) tupleRow;
  db_attributes : gmap (string * list Z) attributeRow;
  db_ancestors : gset (string * list Z * list Z);
  db_events : gmap (string * Z) eventRow;
  db_idempotency : gmap (string * string) idempotencyRow }.

Definition with_heads f (d : database) := mkDatabase (f (db_heads d)) (db_revisions d) (db_slots d) (db_history d)
  (db_tuples d) (db_attributes d) (db_ancestors d) (db_events d) (db_idempotency d).
Definition with_revision_rows f (d : database) := mkDatabase (db_heads d) (f (db_revisions d)) (db_slots d) (db_history d)
  (db_tuples d) (db_attributes d) (db_ancestors d) (db_events d) (db_idempotency d).
Definition with_slot_rows f (d : database) := mkDatabase (db_heads d) (db_revisions d) (f (db_slots d)) (db_history d)
  (db_tuples d) (db_attributes d) (db_ancestors d) (db_events d) (db_idempotency d).
Definition with_history f (d : database) := mkDatabase (db_heads d) (db_revisions d) (db_slots d) (f (db_history d))
  (db_tuples d) (db_attributes d) (db_ancestors d) (db_events d) (db_idempotency d).
Definition with_tuples f (d : database) := mkDatabase (db_heads d) (db_revisions d) (db_slots d) (db_history d)
  (f (db_tuples d)) (db_attributes d) (db_ancestors d) (db_events d) (db_idempotency d).
Definition with_attributes f (d : database) := mkDatabase (db_heads d) (db_revisions d) (db_slots d) (db_history d)
  (db_tuples d) (f (db_attributes d)) (db_ancestors d) (db_events d) (db_idempotency d).
Definition with_ancestors f (d : database) := mkDatabase (db_heads d) (db_revisions d) (db_slots d) (db_history d)
  (db_tuples d) (db_attributes d) (f (db_ancestors d)) (db_events d) (db_idempotency d).
Definition with_event_rows f (d : database) := mkDatabase (db_heads d) (db_revisions d) (db_slots d) (db_history d)
  (db_tuples d) (db_attributes d) (db_ancestors d) (f (db_events d)) (db_idempotency d).
Definition with_idempotency f (d : database) := mkDatabase (db_heads d) (db_revisions d) (db_slots d) (db_history d)
  (db_tuples d) (db_attributes d) (db_ancestors d) (db_events d) (f (db_idempotency d)).

(** * Statements. [None] is a violated constraint. *)

(** [INSERT INTO namespace_heads(namespace) VALUES (?) ON CONFLICT(namespace) DO NOTHING] *)
Definition sql_ensure_head (namespace : string) (d : database) : option database :=
  Some (match db_heads d !! namespace with
        | Some _ => d
        | None => with_heads (<[namespace := mkHeadRow 0 0 0 None]>) d
        end).

(** [UPDATE namespace_heads SET .. = ? WHERE namespace = ?] *)
Definition sql_update_head (namespace : string) (f : headRow -> headRow) (d : database) : option database :=
  match db_heads d !! namespace with
  | None => Some d
  | Some h =>
      let h := f h in
      if (hd_dataGeneration h <? 0) || (hd_eventSequence h <? 0) || (hd_expiredThrough h <? 0) then None
      else Some (with_heads (<[namespace := h]>) d)
  end.

Definition set_dataGeneration (g : Z) (h : headRow) : headRow :=
  mkHeadRow g (hd_eventSequence h) (hd_expiredThrough h) (hd_effectiveTimeNS h).
Definition set_eventSequence (n : Z) (h : headRow) : headRow :=
  mkHeadRow (hd_dataGeneration h) n (hd_expiredThrough h) (hd_effectiveTimeNS h).
Definition set_effectiveTime (t : Z) (h : headRow) : headRow :=
  mkHeadRow (hd_dataGeneration h) (hd_eventSequence h) (hd_expiredThrough h) (Some t).
(** [CASE WHEN expired_through < ? THEN ? ELSE expired_through END] *)
Definition raise_expiredThrough (cutoff : Z) (h : headRow) : headRow :=
  mkHeadRow (hd_dataGeneration h) (hd_eventSequence h)
    (if hd_expiredThrough h <? cutoff then cutoff else hd_expiredThrough h) (hd_effectiveTimeNS h).

(** [INSERT INTO revisions(..) VALUES ..]: the primary key is unique. *)
Definition sql_insert_revision (namespace revisionID : string) (row : revisionRow) (d : database) : option database :=
  match db_revisions d !! (namespace, revisionID) with
  | Some _ => None
  | None => Some (with_revision_rows (<[(namespace, revisionID) := row]>) d)
  end.

(** The foreign key of slot heads and history to revisions. *)
Definition references_revision (namespace revisionID : string) (d : database) : bool :=
  match db_revisions d !! (namespace, revisionID) with Some _ => true | None => false end.

Definition sql_upsert_slot (namespace slot : string) (row : slotRow) (d : database) : option database :=
  if (slr_generation row <=? 0) || negb (references_revision namespace (slr_revisionID row) d) then None
  else Some (with_slot_rows (<[(namespace, slot) := row]>) d).

Definition sql_insert_history (namespace slot : string) (generation : Z) (row : historyRow) (d : database)
  : option database :=
  if (generation <=? 0) || negb (references_revision namespace (hyr_revisionID row) d) then None
  else match db_history d !! (namespace, slot, generation) with
       | Some _ => None
       | None => Some (with_history (<[(namespace, slot, generation) := row]>) d)
       end.

(** [DELETE FROM activation_history WHERE namespace = ? AND slot = ? AND generation < ?] *)
Definition sql_delete_history (namespace slot : string) (tail : Z) (d : database) : option database :=
  Some (with_history (filter (fun kv => ~ (kv.1.1 = (namespace, slot) /\ kv.1.2 < tail))) d).

Definition sql_delete_tuple (namespace : string) (key : list Z) (d : database) : option database :=
  Some (with_tuples (delete (namespace, key)) d).
Definition sql_upsert_tuple (namespace : string) (key : list Z) (row : tupleRow) (d : database) : option database :=
  Some (with_tuples (<[(namespace, key) := row]>) d).

(** [DELETE FROM attribute_ancestors WHERE namespace = ? AND attribute_key = ?] *)
Definition sql_delete_ancestors (namespace : string) (key : list Z) (d : database) : option database :=
  Some (with_ancestors (filter (fun x => x.1 <> (namespace, key))) d).

(** [DELETE FROM attributes ..], whose ancestor rows go with it (ON DELETE CASCADE). *)
Definition sql_delete_attribute (namespace : string) (key : list Z) (d : database) : option database :=
  sql_delete_ancestors namespace key (with_attributes (delete (namespace, key)) d).

Definition sql_upsert_attribute (namespace : string) (key : list Z) (row : attributeRow) (d : database)
  : option database :=
  Some (with_attributes (<[(namespace, key) := row]>) d).

Definition sql_insert_ancestor (namespace : string) (key ancestor : list Z) (d : database) : option database :=
  if bool_decide ((namespace, key, ancestor) ∈ db_ancestors d) then None
  else match db_attributes d !! (namespace, key) with
       | None => None
       | Some _ => Some (with_ancestors (fun x => {[(namespace, key, ancestor)]} ∪ x) d)
       end.

Definition sql_insert_event (namespace : string) (sequence : Z) (row : eventRow) (d : database) : option database :=
  if sequence <=? 0 then None
  else match db_events d !! (namespace, sequence) with
       | Some _ => None
       | None => Some (with_event_rows (<[(namespace, sequence) := row]>) d)
       end.

(** [DELETE FROM state_events WHERE namespace = ? AND sequence <= ?] *)
Definition sql_delete_events (namespace : string) (cutoff : Z) (d : database) : option database :=
  Some (with_event_rows (filter (fun kv => ~ (kv.1.1 = namespace /\ kv.1.2 <= cutoff))) d).

Definition sql_insert_idempotency (namespace key : string) (row : idempotencyRow) (d : database) : option database :=
  match db_idempotency d !! (namespace, key) with
  | Some _ => None
  | None => Some (with_idempotency (<[(namespace, key) := row]>) d)
  end.

(** * Queries over several rows *)

(** The numbers of the selected rows, in ascending order. *)
Definition sorted_numbers (l : list Z) : list Z := sort_by Z.compare l.

Definition event_sequences (namespace : string) (d : database) : list Z :=
  sorted_numbers (omap (fun '((ns, n), _) => if bool_decide (ns = namespace) then Some n else None) (map_to_list (db_events d))).

(** [SELECT COALESCE(MAX(sequence), 0) FROM state_events WHERE namespace = ? AND created_at_ns <= ?] *)
Definition sql_time_cutoff (namespace : string) (threshold : Z) (d : database) : Z :=
  default 0 (last (List.filter (fun n => match db_events d !! (namespace, n) with
                                         | Some row => evr_createdAtNS row <=? threshold
                                         | None => false end) (event_sequences namespace d))).

(** [.. ORDER BY sequence DESC LIMIT 1 OFFSET ?] *)
Definition sql_count_cutoff (namespace : string) (offset : Z) (d : database) : option Z :=
  reverse (event_sequences namespace d) !! Z.to_nat offset.

Definition history_generations (namespace slot : string) (d : database) : list Z :=
  sorted_numbers (omap (fun '((ns, sl, n), _) => if bool_decide (ns = namespace /\ sl = slot) then Some n else None)
    (map_to_list (db_history d))).

Definition sql_history_tail (namespace slot : string) (offset : Z) (d : database) : option Z :=
  reverse (history_generations namespace slot d) !! Z.to_nat offset.

(** [SELECT 1 FROM attribute_ancestors WHERE namespace = ? AND ancestor_path = ? LIMIT 1] *)
Definition sql_has_descendant (namespace : string) (ancestor : list Z) (d : database) : bool :=
  existsb (fun x => bool_decide (x.1.1 = namespace /\ x.2 = ancestor)) (elements (db_ancestors d)).

(** * Transactions *)

(** What surrounds a sequence of statements: the context and the failure of
    each step, the clock ([None] is nil or panics), whether the database is
    closed, and the tables that a query sees. Inside a transaction a query sees the transaction's own tables;
    outside, each query sees what is committed when it runs. *)
Record txEnv := mkTxEnv {
  te_ctx : nat -> context_state;
  te_fault : nat -> option driverError;
  te_clock : option Time;
  te_closed : bool;
  te_seen : nat -> database -> database }.

Definition in_transaction (env : txEnv) : txEnv :=
  mkTxEnv (te_ctx env) (te_fault env) (te_clock env) (te_closed env) (fun _ d => d).

Record txState := mkTxState { tx_db : database; tx_step : nat }.

(** A part of a transaction callback: it reads the environment and changes the
    tables. *)
Definition tx (A : Type) : Type := txEnv -> txState -> result A * txState.

Definition tx_ret {A} (a : A) : tx A := fun _ s => (Ok a, s).
Definition tx_fail {A} (e : ErrorCategory) : tx A := fun _ s => (Err e, s).
Definition tx_lift {A} (r : result A) : tx A := fun _ s => (r, s).
Definition tx_bind {A B} (m : tx A) (k : A -> tx B) : tx B := fun env s =>
  match m env s with
  | (Ok a, s) => k a env s
  | (Err e, s) => (Err e, s)
  end.

Notation "'let!' x ':=' m 'in' k" := (tx_bind m (fun x => k))
  (at level 10, x name, m at level 200, k at level 200) : go_scope.

(** [contextError(ctx)] at this point. *)
Definition tx_context : tx unit := fun env s =>
  (sqliteContextError (te_ctx env (tx_step s)), mkTxState (tx_db s) (S (tx_step s))).

(** [conn.ExecContext(ctx, ..)] with [mapError] on its error. *)
Definition tx_exec (f : database -> option database) : tx unit := fun env s =>
  let n := tx_step s in
  match te_fault env n with
  | Some e => (Err (mapError (te_ctx env n) e), mkTxState (tx_db s) (S n))
  | None =>
      match f (tx_db s) with
      | Some d => (Ok tt, mkTxState d (S n))
      | None => (Err (mapError (te_ctx env n) (DriverSqlite SQLITE_CONSTRAINT)), mkTxState (tx_db s) (S n))
      end
  end.

(** [conn.QueryRowContext(ctx, ..).Scan(..)] with [mapError] on its error. *)
Definition tx_query {A} (f : database -> A) : tx A := fun env s =>
  let n := tx_step s in
  match te_fault env n with
  | Some e => (Err (mapError (te_ctx env n) e), mkTxState (tx_db s) (S n))
  | None => (Ok (f (te_seen env n (tx_db s))), mkTxState (tx_db s) (S n))
  end.

(** [for _, x := range l { if err := f(x); err != nil { return err } }] *)
Fixpoint tx_each {A} (f : A -> tx unit) (l : list A) : tx unit :=
  match l with
  | [] => tx_ret tt
  | x :: l => let! _ := f x in tx_each f l
  end.

(** How the COMMIT statement ends: it is acknowledged, it fails and nothing is
    durable, or it takes effect and an error is reported nevertheless (the
    driver answers with the context's error when the context ended while the
    statement ran, internal/sqlitenofollow/stmt.go). *)
Inductive commitOutcome :=
  | CommitDone
  | CommitFailed (e : driverError)
  | CommitUnreported (e : driverError).

(** [executeWrite]: the answer to the caller, the committed tables, and whether
    the connection must be discarded. A transaction that does not commit
    leaves the tables as they were. [begin] and [rollback] are the failures of
    those two statements. *)
Definition executeWrite {A} (env : txEnv) (begin : option driverError) (commit : commitOutcome)
  (rollback : option driverError) (fn : tx A) (d : database)
  : result A * database * bool :=
  match sqliteContextError (te_ctx env 0) with
  | Err e => (Err e, d, false)
  | Ok _ =>
      if te_closed env then (Err ErrorUnavailable, d, false)
      else match begin with
      | Some e => (Err (mapError (te_ctx env 1) e), d, false)
      | None =>
          match fn (in_transaction env) (mkTxState d 2) with
          | (Err e, s) => (Err (mapEngineError (te_ctx env (tx_step s)) e), d, bool_decide (is_Some rollback))
          | (Ok a, s) =>
              match sqliteContextError (te_ctx env (tx_step s)) with
              | Err e => (Err e, d, bool_decide (is_Some rollback))
              | Ok _ =>
                  match commit with
                  | CommitFailed e => (Err (mapError (te_ctx env (S (tx_step s))) e), d, true)
                  | CommitUnreported e => (Err (mapError (te_ctx env (S (tx_step s))) e), tx_db s, true)
                  | CommitDone => (Ok a, tx_db s, false)
                  end
              end
          end
      end
  end.

(** How BEGIN IMMEDIATE ends on a connection without a transaction: it opens
    one, it fails, or it opens one and an error is reported nevertheless, as
    for COMMIT. On a connection that has a transaction it fails. *)
Inductive beginOutcome :=
  | BeginDone
  | BeginFailed (e : driverError)
  | BeginUnreported (e : driverError).

Definition begin_error (busy : bool) (begin : beginOutcome) : option driverError :=
  if busy then Some (DriverSqlite SQLITE_ERROR)
  else match begin with BeginDone => None | BeginFailed e | BeginUnreported e => Some e end.

(** The transaction that BEGIN opened without saying so is still open when
    [executeWrite] returns: that branch does not roll back. *)
Definition left_open (env : txEnv) (begin : beginOutcome) : bool :=
  is_ok (sqliteContextError (te_ctx env 0)) && negb (te_closed env)
  && match begin with BeginUnreported _ => true | _ => false end.

(** One request of [writerLoop] on its connection; [busy] says whether a
    transaction is open on it. A discarded connection is replaced. *)
Definition writer_turn {A} (busy : bool) (env : txEnv) (begin : beginOutcome) (commit : commitOutcome)
  (rollback : option driverError) (fn : tx A) (d : database) : result A * database * bool :=
  let '(r, d', discard) := executeWrite env (begin_error busy begin) commit rollback fn d in
  (r, d', if discard then false else busy || left_open env begin).

(** [Store.read]: [admission] is the error of [acquireReader], if any. *)
Definition store_read {A} (env : txEnv) (admission : option ErrorCategory) (fn : tx A) (d : database) : result A :=
  let? _ := sqliteContextError (te_ctx env 0) in
  match admission with
  | Some e => Err e
  | None =>
      match fn env (mkTxState d 1) with
      | (Err e, s) => Err (mapEngineError (te_ctx env (tx_step s)) e)
      | (Ok a, s) => let? _ := sqliteContextError (te_ctx env (tx_step s)) in Ok a
      end
  end.

(** How a write request fares in the queue of the single writer
    ([database.write] and [writerLoop]): it is refused before admission, the
    caller receives what the transaction answered, or the caller leaves
    (its context ends or the database closes) while the writer may still run
    the admitted transaction. *)
Inductive queueOutcome :=
  | QueueRefused (e : ErrorCategory)
  | QueueServed
  | QueueAbandoned (e : ErrorCategory) (executed : bool).

(** [database.write] *)
Definition database_write {A} (outcome : queueOutcome) (env : txEnv) (begin : option driverError)
  (commit : commitOutcome) (rollback : option driverError) (fn : tx A) (d : database) : result A * database :=
  match outcome with
  | QueueRefused e => (Err e, d)
  | QueueServed => let '(r, d', _) := executeWrite env begin commit rollback fn d in (r, d')
  | QueueAbandoned e executed =>
      (Err e, if executed then (executeWrite env begin commit rollback fn d).1.2 else d)
  end.
