(* ===== verification/SqliteStore.v ===== *)
(** The operations of the SQLite store: data writes (idempotency.go, data.go),
    slots (slots.go), revisions (revisions.go), events (events.go) and the
    reads of a pinned snapshot (snapshot.go). Each callback is a sequence of
    statements of SqliteDb.v in the order of the source; each handler runs it
    through the writer queue or a reader. *)

From Stdlib Require Import ZArith Lia.
From stdpp Require Import base list gmap strings.
From S2P Require Import Prelude Limits Text Types Invocation Cost Data DataValid Policy Events Revisions Cursor Fingerprint StoreData SqliteCodec SqliteData SqliteCursor SqliteDb.

(** What surrounds a call: the context at the handler's own checks, the fate of
    its write in the queue, the transaction, the failures of BEGIN and
    ROLLBACK, and how COMMIT ends. *)
Record callEnv := mkCallEnv {
  ce_ctx : nat -> context_state; ce_queue : queueOutcome; ce_tx : txEnv;
  ce_begin : option driverError; ce_commit : commitOutcome; ce_rollback : option driverError }.

Definition call_write {A} (env : callEnv) (fn : tx A) (d : database) : result A * database :=
  database_write (ce_queue env) (ce_tx env) (ce_begin env) (ce_commit env) (ce_rollback env) fn d.

(** Any error of a constructor as one category. *)
Definition or_error {A} (e : ErrorCategory) (r : result A) : result A :=
  match r with Ok a => Ok a | Err _ => Err e end.

(** [mapError(ctx, err)] of an engine error at this point. *)
Definition mapped {A} (ctx : context_state) (r : result A) : result A :=
  match r with Ok a => Ok a | Err e => Err (mapEngineError ctx e) end.

(** * Namespace heads and the clock (events.go) *)

Definition sqliteRetentionLimit : Z := MaxAggregateWorkItems.
Definition eventRetentionDuration : Z := 24 * Hour.

(** [None] is [sql.ErrNoRows]. *)
Definition readNamespaceHead (namespace : string) : tx (option headRow) :=
  let! row := tx_query (fun d => db_heads d !! namespace) in
  match row with
  | None => tx_ret None
  | Some h =>
      if (hd_dataGeneration h <? 0) || (hd_eventSequence h <? 0) || (hd_expiredThrough h <? 0)
         || (hd_eventSequence h <? hd_expiredThrough h)
      then tx_fail ErrorIntegrity else tx_ret (Some h)
  end.

Definition ensureNamespaceHead (namespace : string) : tx headRow :=
  let! _ := tx_exec (sql_ensure_head namespace) in
  let! head := readNamespaceHead namespace in
  match head with Some h => tx_ret h | None => tx_fail ErrorInternal end.

Definition canonicalClockNow (clock : option Time) : result (Time * Z) :=
  match clock with
  | None => Err ErrorInternal
  | Some now => match sqliteTimestamp now with Some r => Ok r | None => Err ErrorInternal end
  end.

Definition tx_now : tx (Time * Z) := fun env s => (canonicalClockNow (te_clock env), s).

(** The time does not go back below the namespace's recorded one. *)
Definition advanced_time (candidateNS : Z) (h : headRow) : Z :=
  match hd_effectiveTimeNS h with
  | Some t => if candidateNS <? t then t else candidateNS
  | None => candidateNS
  end.

Definition record_time (namespace : string) (effectiveNS : Z) (h : headRow) : tx unit :=
  if bool_decide (hd_effectiveTimeNS h = Some effectiveNS) then tx_ret tt
  else tx_exec (sql_update_head namespace (set_effectiveTime effectiveNS)).

Definition effectiveNow (namespace : string) : tx Time :=
  let! now := tx_now in
  let! head := ensureNamespaceHead namespace in
  let effectiveNS := advanced_time now.2 head in
  let! _ := record_time namespace effectiveNS head in
  if effectiveNS =? now.2 then tx_ret now.1 else tx_ret (time_UnixNano effectiveNS).

(** * The event stream (events.go) *)

Definition nextEventSequence (namespace : string) : tx (Z * Z) :=
  let! head := ensureNamespaceHead namespace in
  if hd_eventSequence head =? MaxInt64 then tx_fail ErrorResourceExhausted
  else
    let next := hd_eventSequence head + 1 in
    let! _ := tx_exec (sql_update_head namespace (set_eventSequence next)) in
    tx_ret (next, hd_expiredThrough head).

Definition stateEventKindName (kind : Z) : string :=
  if kind =? StateEventRevisionPublished then "revision_published"
  else if kind =? StateEventSlotActivated then "slot_activated"
  else if kind =? StateEventDataWritten then "data_written"
  else "".

Definition pruneEvents (namespace : string) (effectiveNowNS : Z) : tx unit :=
  let timeThreshold :=
    if - 2 ^ 63 + eventRetentionDuration <=? effectiveNowNS then effectiveNowNS - eventRetentionDuration else - 2 ^ 63 in
  let! timeCutoff := tx_query (sql_time_cutoff namespace timeThreshold) in
  let! found := tx_query (sql_count_cutoff namespace sqliteRetentionLimit) in
  let countCutoff := default 0 found in
  let cutoff := Z.max timeCutoff countCutoff in
  if cutoff <=? 0 then tx_ret tt
  else
    let! _ := tx_exec (sql_delete_events namespace cutoff) in
    tx_exec (sql_update_head namespace (raise_expiredThrough cutoff)).

Section Store.
Context `{D : Dsl} `{H : Hmac} (cursorKey : list Z) (activationHistoryRetention : Z).

(** [input] without cursor and time. *)
Definition appendStateEvent (input : StateEvent) (occurredAt : Time) : tx unit :=
  let namespace := ev_namespace input in
  let! next := nextEventSequence namespace in
  let! cursor := tx_lift (newCursor cursorKey (mkSqliteCursor cursorDomainEvent namespace "" next.1 next.2 0 "")) in
  let! event := tx_lift (or_error ErrorInternal (NewStateEvent (mkStateEvent namespace cursor (ev_kind input)
    (ev_revisionID input) (ev_slot input) (ev_slotGeneration input) (ev_dataGeneration input) occurredAt))) in
  let! payload := tx_lift (encodeStateEvent event) in
  match sqliteTimestamp (ev_occurredAt event) with
  | None => tx_fail ErrorInternal
  | Some (when, occurredAtNS) =>
      if negb (when =? ev_occurredAt event) then tx_fail ErrorInternal
      else
        let! _ := tx_exec (sql_insert_event namespace next.1
                    (mkEventRow (stateEventKindName (ev_kind event)) payload occurredAtNS)) in
        pruneEvents namespace occurredAtNS
  end.

Definition pruneEventsForRead (env : callEnv) (namespace : string) (d : database) : result unit * database :=
  match sqliteContextError (ce_ctx env 1) with
  | Err e => (Err e, d)
  | Ok _ =>
      match canonicalClockNow (te_clock (ce_tx env)) with
      | Err e => (Err e, d)
      | Ok now =>
          call_write env
            (let! head := readNamespaceHead namespace in
             match head with
             | None => tx_ret tt
             | Some head =>
                 let effectiveNS := advanced_time now.2 head in
                 let! _ := record_time namespace effectiveNS head in
                 pruneEvents namespace effectiveNS
             end) d
      end
  end.

(** [SELECT .. FROM state_events WHERE namespace = ? AND sequence > ? ORDER BY sequence ASC LIMIT ?] *)
Definition sql_events_after (namespace : string) (position limit : Z) (d : database) : list (Z * eventRow) :=
  omap (fun n => match db_events d !! (namespace, n) with Some row => Some (n, row) | None => None end)
    (take (Z.to_nat limit) (List.filter (fun n => position <? n) (event_sequences namespace d))).

(** The loop over the rows of a page. *)
Fixpoint event_rows (namespace : string) (previous : Z) (rows : list (Z * eventRow)) : result (list StateEvent) :=
  match rows with
  | [] => Ok []
  | (sequence, row) :: rows =>
      if (sequence <=? 0) || (sequence <=? previous) then Err ErrorIntegrity
      else
        let? event := decodeStateEvent (evr_payload row) in
        if bool_decide (ev_namespace event <> namespace)
           || bool_decide (stateEventKindName (ev_kind event) <> evr_kind row)
           || negb (ev_occurredAt event =? time_UnixNano (evr_createdAtNS row))
        then Err ErrorIntegrity
        else match decodeCursor cursorKey (ev_cursor event) cursorDomainEvent namespace "" with
             | Err _ => Err ErrorIntegrity
             | Ok eventCursor =>
                 if negb (sc_position eventCursor =? sequence) then Err ErrorIntegrity
                 else let? events := event_rows namespace sequence rows in Ok (event :: events)
             end
  end.

(** The reader callback of [ListEvents]. *)
Definition events_page (request : ListEventsRequest) (cursor : sqliteCursorState) : tx (list StateEvent) :=
  let namespace := le_namespace request in
  let! found := readNamespaceHead namespace in
  let head := default (mkHeadRow 0 0 0 None) found in
  if bool_decide (le_afterCursor request <> ""%string)
     && ((sc_position cursor <=? hd_expiredThrough head) || (hd_expiredThrough head <? sc_boundary cursor))
  then tx_fail ErrorCursorExpired
  else
    let! rows := tx_query (sql_events_after namespace (sc_position cursor) (le_limit request + 1)) in
    tx_lift (event_rows namespace 0 rows).

Definition sqlite_ListEvents (env : callEnv) (readEnv : txEnv) (admission : option ErrorCategory)
  (request : ListEventsRequest) (d : database) : result ListEventsResponse * database :=
  match (let? _ := sqliteContextError (ce_ctx env 0) in
         let? _ := mapped (ce_ctx env 2) (NewListEventsRequest (le_namespace request) (le_afterCursor request) (le_limit request)) in
         decodeCursor cursorKey (le_afterCursor request) cursorDomainEvent (le_namespace request) "") with
  | Err e => (Err e, d)
  | Ok cursor =>
      match pruneEventsForRead env (le_namespace request) d with
      | (Err e, d) => (Err e, d)
      | (Ok _, d) =>
          ((let? events := store_read readEnv admission (events_page request cursor) d in
            let more := le_limit request <? zlen events in
            let events := if more then take (Z.to_nat (le_limit request)) events else events in
            let next := if more then match last events with Some e => ev_cursor e | None => ""%string end else ""%string in
            NewListEventsResponse request events next), d)
      end
  end.

(** * Revisions (revisions.go) *)

Definition rebuild_write (metadata : RevisionMetadata) (artifact : list Z) (provenance : RevisionProvenance)
  : result RevisionWrite :=
  if RevisionProvenance_Valid provenance then NewRevisionWriteWithProvenance metadata artifact provenance
  else NewRevisionWrite metadata artifact.

Definition decodeRevisionRecord (namespace revisionID : string) (artifact provenance : list Z) (publishedAtNS : Z)
  : result RevisionRecord :=
  if (zlen artifact =? 0) || (MaxPolicyArtifactBytes <? zlen artifact) then Err ErrorIntegrity
  else
    let? id := integrity (ParseRevisionID revisionID) in
    let? metadata := integrity (NewRevisionMetadata namespace id (time_UnixNano publishedAtNS)) in
    let? decodedProvenance := decodeRevisionProvenance namespace provenance in
    let? write := integrity (rebuild_write metadata artifact decodedProvenance) in
    integrity (NewRevisionRecordFromWrite write).

Definition canonicalRevisionRecord (write : RevisionWrite) : result (RevisionRecord * Z * list Z) :=
  if negb (RevisionWrite_Valid write) then Err ErrorInvalidArgument
  else
    let metadata := rw_metadata write in
    let? id := invalid (ParseRevisionID (RevisionMetadata_ID metadata)) in
    match sqliteTimestamp (rm_publishedAt metadata) with
    | None => Err ErrorInvalidArgument
    | Some (publishedAt, publishedAtNS) =>
        let? canonicalMetadata := invalid (NewRevisionMetadata (rm_namespace metadata) id publishedAt) in
        let? canonicalWrite := invalid (rebuild_write canonicalMetadata (rw_artifact write) (rw_provenance write)) in
        let? record := NewRevisionRecordFromWrite canonicalWrite in
        let? encodedProvenance := encodeRevisionProvenance (rw_provenance record) in
        Ok (record, publishedAtNS, encodedProvenance)
    end.

(** [None] is a revision that is not there. *)
Definition readRevision (namespace revisionID : string) : tx (option RevisionRecord) :=
  let! row := tx_query (fun d => db_revisions d !! (namespace, revisionID)) in
  match row with
  | None => tx_ret None
  | Some row =>
      let! record := tx_lift (decodeRevisionRecord namespace revisionID (rvr_artifact row) (rvr_provenance row)
                               (rvr_publishedAtNS row)) in
      tx_ret (Some record)
  end.

Definition publish_input (namespace revisionID : string) : StateEvent :=
  mkStateEvent namespace "" StateEventRevisionPublished revisionID "" 0 0 0.

(** The callback of [PutRevision]: [Some] is the record found, [None] a new one. *)
Definition put_revision (record : RevisionRecord) (publishedAtNS : Z) (provenance : list Z) : tx (option RevisionRecord) :=
  let namespace := rm_namespace (rw_metadata record) in
  let id := RevisionMetadata_ID (rw_metadata record) in
  let! _ := tx_context in
  let! stored := readRevision namespace id in
  match stored with
  | Some stored =>
      if negb (bool_decide (rw_artifact stored = rw_artifact record)) then tx_fail ErrorIntegrity
      else tx_ret (Some stored)
  | None =>
      let! _ := tx_exec (sql_insert_revision namespace id (mkRevisionRow (rw_artifact record) provenance publishedAtNS)) in
      let! occurredAt := effectiveNow namespace in
      let! _ := appendStateEvent (publish_input namespace id) occurredAt in
      tx_ret None
  end.

(** [reservation] is the error of the wait for the namespace's publication
    reservation, if any. *)
Definition sqlite_PutRevision (env : callEnv) (reservation : option ErrorCategory) (write : RevisionWrite) (d : database)
  : result PutRevisionResult * database :=
  match (let? _ := sqliteContextError (ce_ctx env 0) in
         let? c := canonicalRevisionRecord write in
         let? created := or_error ErrorInternal (NewPutRevisionResult c.1.1 true) in
         Ok (c, created)) with
  | Err e => (Err e, d)
  | Ok ((record, publishedAtNS, provenance), created) =>
      match reservation with
      | Some e => (Err e, d)
      | None =>
          match call_write env (put_revision record publishedAtNS provenance) d with
          | (Err e, d) => (Err e, d)
          | (Ok (Some existing), d) => (NewPutRevisionResult existing false, d)
          | (Ok None, d) => (Ok created, d)
          end
      end
  end.

Definition sqlite_GetRevision (ctx : nat -> context_state) (env : txEnv) (admission : option ErrorCategory)
  (request : GetRevisionRequest) (d : database) : result RevisionRecord :=
  let? _ := sqliteContextError (ctx 0%nat) in
  let? _ := mapped (ctx 1%nat) (NewGetRevisionRequest (gr_namespace request) (gr_revisionID request)) in
  let? found := store_read env admission (readRevision (gr_namespace request) (gr_revisionID request)) d in
  match found with Some record => Ok record | None => Err ErrorNotFound end.

Definition decodeRevisionMetadataColumns (namespace revisionID : string) (publishedAtNS : Z) : result RevisionMetadata :=
  let? id := integrity (ParseRevisionID revisionID) in
  integrity (NewRevisionMetadata namespace id (time_UnixNano publishedAtNS)).

(** [ORDER BY published_at_ns ASC, revision_id ASC] *)
Definition compareColumns (a b : Z * string) : comparison :=
  match Z.compare a.1 b.1 with Eq => String.compare a.2 b.2 | c => c end.

(** The two SELECTs of [ListRevisions]; [after] is the cursor's row. *)
Definition sql_revisions (namespace : string) (after : option (Z * string)) (limit : Z) (d : database) : list (Z * string) :=
  take (Z.to_nat limit) (List.filter (fun r => match after with
      | None => true
      | Some c => match compareColumns c r with Lt => true | _ => false end end)
    (sort_by compareColumns (omap (fun '((ns, id), row) =>
       if bool_decide (ns = namespace) then Some (rvr_publishedAtNS row, id) else None) (map_to_list (db_revisions d))))).

Fixpoint metadata_rows (namespace : string) (rows : list (Z * string)) : result (list RevisionMetadata) :=
  match rows with
  | [] => Ok []
  | (publishedAtNS, revisionID) :: rows =>
      let? value := decodeRevisionMetadataColumns namespace revisionID publishedAtNS in
      let? values := metadata_rows namespace rows in Ok (value :: values)
  end.

Definition sqlite_ListRevisions (ctx : nat -> context_state) (env : txEnv) (admission : option ErrorCategory)
  (request : ListRevisionsRequest) (d : database) : result ListRevisionsResponse :=
  let namespace := lr_namespace request in
  let? _ := sqliteContextError (ctx 0%nat) in
  let? _ := mapped (ctx 1%nat) (NewListRevisionsRequest namespace (lr_cursor request) (lr_limit request)) in
  let? cursor := decodeCursor cursorKey (lr_cursor request) cursorDomainRevision namespace "" in
  let? after :=
    (if bool_decide (lr_cursor request = ""%string) then Ok None
     else match sqliteTimestamp (sc_revisionPublishedAt cursor) with
          | Some (_, cursorNS) => Ok (Some (cursorNS, sc_revisionID cursor))
          | None => Err ErrorInvalidArgument
          end) in
  let? metadata := store_read env admission
    (let! rows := tx_query (sql_revisions namespace after (lr_limit request + 1)) in
     tx_lift (metadata_rows namespace rows)) d in
  let more := lr_limit request <? zlen metadata in
  let metadata := if more then take (Z.to_nat (lr_limit request)) metadata else metadata in
  let? next :=
    (match last metadata with
     | Some row => if more then newCursor cursorKey (mkSqliteCursor cursorDomainRevision namespace "" 0 0
                                  (rm_publishedAt row) (RevisionMetadata_ID row)) else Ok ""%string
     | None => Ok ""%string
     end) in
  NewListRevisionsResponse request metadata next.

(** * Slots (slots.go) *)

Definition expectationMatches (expectation : SlotExpectation) (current : option Activation) : bool :=
  if IsUnset expectation then negb (bool_decide (is_Some current))
  else
    let '(revisionID, generation, active) := Active expectation in
    active && match current with
              | Some a => bool_decide (act_revisionID a = revisionID) && (act_generation a =? generation)
              | None => false
              end.

Definition readSlotHead (namespace slot : string) : tx (option Activation) :=
  let! row := tx_query (fun d => db_slots d !! (namespace, slot)) in
  match row with
  | None => tx_ret None
  | Some row =>
      if slr_generation row <=? 0 then tx_fail ErrorIntegrity
      else
        let! result := tx_lift (integrity (NewActivation namespace slot (slr_revisionID row) (slr_generation row)
                                 (time_UnixNano (slr_activatedAtNS row)))) in
        tx_ret (Some result)
  end.

Definition pruneActivationHistory (namespace slot : string) (retention : Z) : tx unit :=
  if retention <? 2 then tx_fail ErrorInternal
  else
    let! tail := tx_query (sql_history_tail namespace slot (retention - 1)) in
    match tail with
    | None => tx_ret tt
    | Some retainedTail =>
        if retainedTail <=? 0 then tx_fail ErrorIntegrity
        else tx_exec (sql_delete_history namespace slot retainedTail)
    end.

Definition activate_input (namespace slot revisionID : string) (generation : Z) : StateEvent :=
  mkStateEvent namespace "" StateEventSlotActivated revisionID slot generation 0 0.

(** The statements on the slot's row and its history. *)
Definition move_slot (namespace slot target : string) (generation occurredAtNS : Z) : tx unit :=
  let! _ := tx_exec (sql_upsert_slot namespace slot (mkSlotRow target generation occurredAtNS)) in
  let! _ := tx_exec (sql_insert_history namespace slot generation (mkHistoryRow target occurredAtNS)) in
  pruneActivationHistory namespace slot activationHistoryRetention.

(** The generation after the current one. *)
Definition sqlite_next_generation (current : option Activation) : result Z :=
  match current with
  | Some a => if MaxInt64 <=? act_generation a then Err ErrorResourceExhausted else Ok (act_generation a + 1)
  | None => Ok 1
  end.

(** The callback of [Activate]. *)
Definition activate_slot (request : ActivateRequest) : tx ActivateResponse :=
  let namespace := ar_namespace request in
  let slot := ar_slot request in
  let target := ar_targetRevisionID request in
  let! revision := readRevision namespace target in
  match revision with
  | None => tx_fail ErrorNotFound
  | Some _ =>
      let! current := readSlotHead namespace slot in
      if negb (expectationMatches (ar_expectation request) current) then tx_fail ErrorConflict
      else
        let! generation := tx_lift (sqlite_next_generation current) in
        let! occurredAt := effectiveNow namespace in
        let! activation := tx_lift (or_error ErrorInternal (NewActivation namespace slot target generation occurredAt)) in
        match sqliteTimestamp (act_activatedAt activation) with
        | None => tx_fail ErrorInternal
        | Some (_, occurredAtNS) =>
            let! _ := move_slot namespace slot target generation occurredAtNS in
            let! _ := appendStateEvent (activate_input namespace slot target generation) occurredAt in
            tx_lift (or_error ErrorInternal (NewActivateResponse activation))
        end
  end.

Definition sqlite_Activate (env : callEnv) (request : ActivateRequest) (d : database)
  : result ActivateResponse * database :=
  match (let? _ := sqliteContextError (ce_ctx env 0) in
         mapped (ce_ctx env 1) (NewActivateRequest (ar_namespace request) (ar_slot request) (ar_targetRevisionID request)
                                  (ar_expectation request))) with
  | Err e => (Err e, d)
  | Ok _ => call_write env (activate_slot request) d
  end.

Definition sqlite_Resolve (ctx : nat -> context_state) (env : txEnv) (admission : option ErrorCategory)
  (request : ResolveRequest) (d : database) : result ResolveResponse :=
  let? _ := sqliteContextError (ctx 0%nat) in
  let? _ := mapped (ctx 1%nat) (NewResolveRequest (rr_namespace request) (rr_slot request)) in
  let? found := store_read env admission (readSlotHead (rr_namespace request) (rr_slot request)) d in
  match found with Some activation => NewResolveResponse activation | None => Err ErrorNotFound end.

(** [.. WHERE namespace = ? AND slot = ? AND generation > ? ORDER BY generation ASC LIMIT ?] *)
Definition sql_history_after (namespace slot : string) (position limit : Z) (d : database) : list (Z * historyRow) :=
  omap (fun n => match db_history d !! (namespace, slot, n) with Some row => Some (n, row) | None => None end)
    (take (Z.to_nat limit) (List.filter (fun n => position <? n) (history_generations namespace slot d))).

Fixpoint history_rows (namespace slot : string) (previous : Z) (rows : list (Z * historyRow)) : result (list Activation) :=
  match rows with
  | [] => Ok []
  | (generation, row) :: rows =>
      if (generation <=? 0) || (generation <=? previous) then Err ErrorIntegrity
      else
        let? activation := integrity (NewActivation namespace slot (hyr_revisionID row) generation
                                        (time_UnixNano (hyr_activatedAtNS row))) in
        let? activations := history_rows namespace slot generation rows in
        Ok (activation :: activations)
  end.

(** The reader callback: the oldest retained generation and the page. *)
Definition history_page (request : ListActivationHistoryRequest) (cursor : sqliteCursorState) : tx (Z * list Activation) :=
  let namespace := lh_namespace request in
  let slot := lh_slot request in
  let! first := tx_query (fun d => head (history_generations namespace slot d)) in
  let oldestGeneration := default 0 first in
  let oldest := if 0 <? oldestGeneration then oldestGeneration else 0 in
  if bool_decide (lh_cursor request <> ""%string) && (0 <? oldest) && (sc_position cursor <? oldest)
  then tx_fail ErrorCursorExpired
  else
    let! rows := tx_query (sql_history_after namespace slot (sc_position cursor) (lh_limit request + 1)) in
    let! values := tx_lift (history_rows namespace slot 0 rows) in
    tx_ret (oldest, values).

Definition sqlite_ListActivationHistory (ctx : nat -> context_state) (env : txEnv) (admission : option ErrorCategory)
  (request : ListActivationHistoryRequest) (d : database) : result ListActivationHistoryResponse :=
  let namespace := lh_namespace request in
  let slot := lh_slot request in
  let? _ := sqliteContextError (ctx 0%nat) in
  let? _ := mapped (ctx 1%nat) (NewListActivationHistoryRequest namespace slot (lh_cursor request) (lh_limit request)) in
  let? cursor := decodeCursor cursorKey (lh_cursor request) cursorDomainHistory namespace slot in
  let? page := store_read env admission (history_page request cursor) d in
  let more := lh_limit request <? zlen page.2 in
  let values := if more then take (Z.to_nat (lh_limit request)) page.2 else page.2 in
  let boundary := if 1 <? page.1 then page.1 - 1 else 0 in
  let? next :=
    (match last values with
     | Some a => if more then newCursor cursorKey (mkSqliteCursor cursorDomainHistory namespace slot (act_generation a)
                                boundary 0 "") else Ok ""%string
     | None => Ok ""%string
     end) in
  NewListActivationHistoryResponse request values next.

(** * Data writes (idempotency.go) *)

Definition readIdempotencyRecord (namespace key : string) : tx (option (list Z * WriteDataResponse)) :=
  let! row := tx_query (fun d => db_idempotency d !! (namespace, key)) in
  match row with
  | None => tx_ret None
  | Some row =>
      let! fingerprint := tx_lift (decodeIdempotencyFingerprint (idr_fingerprint row)) in
      let! response := tx_lift (decodeIdempotencyResponse (idr_response row) false) in
      tx_ret (Some (fingerprint, response))
  end.

Definition deleteTuple (namespace : string) (key : TupleKey) : tx unit :=
  let! canonical := tx_lift (invalid (NewTupleKey (tk_tuple key))) in
  let! encoded := tx_lift (encodeTupleKey (tk_tuple canonical)) in
  tx_exec (sql_delete_tuple namespace encoded).

(** The columns of a durable tuple. *)
Definition tuple_row (record : durableTuple) : tupleRow :=
  let tuple := rt_tuple (dt_tuple record) in
  mkTupleRow (sub_Type (tup_Subject tuple)) (sub_ID (tup_Subject tuple)) (sub_Relation (tup_Subject tuple))
    (tup_Relation tuple) (ent_Type (tup_Resource tuple)) (ent_ID (tup_Resource tuple)) (dt_expiresAtNS record).

Definition upsertTuple (namespace : string) (value : RelationshipTuple) : tx unit :=
  let! record := tx_lift (canonicalDurableTuple value) in
  tx_exec (sql_upsert_tuple namespace (dt_key record) (tuple_row record)).

Definition deleteAttribute (namespace : string) (value : AttributeKey) : tx unit :=
  let! canonical := tx_lift (invalid (NewAttributeKeyPath (ak_entity value) (ak_path value))) in
  let! key := tx_lift (encodeAttributeKey canonical) in
  tx_exec (sql_delete_attribute namespace key).

(** [SELECT 1 FROM attributes WHERE namespace = ? AND attribute_key = ?] for
    each strict prefix. *)
Definition check_prefix (namespace : string) (key : AttributeKey) (length : nat) : tx unit :=
  let! prefix := tx_lift (or_error ErrorInternal (NewAttributeKeyPath (ak_entity key) (take length (ak_path key)))) in
  let! encoded := tx_lift (encodeAttributeKey prefix) in
  let! found := tx_query (fun d => bool_decide (is_Some (db_attributes d !! (namespace, encoded)))) in
  if found : bool then tx_fail ErrorConflict else tx_ret tt.

Definition ensureNoAttributeConflict (namespace : string) (value : Attribute) : tx unit :=
  let! key := tx_lift (attributeKeyFromAttribute value) in
  let! _ := tx_each (check_prefix namespace key) (seq 1 (length (ak_path key) - 1)) in
  let! encoded := tx_lift (encodeAttributeKey key) in
  let! descendant := tx_query (sql_has_descendant namespace encoded) in
  if descendant : bool then tx_fail ErrorConflict else tx_ret tt.

Definition attribute_row (record : durableAttribute) : attributeRow :=
  let entity := attr_entity (da_attribute record) in
  mkAttributeRow (ent_Type entity) (ent_ID entity) (da_path record) (da_value record) None.

Definition upsertAttribute (namespace : string) (value : Attribute) : tx unit :=
  let! record := tx_lift (canonicalDurableAttribute value) in
  let! _ := tx_exec (sql_upsert_attribute namespace (da_key record) (attribute_row record)) in
  let! _ := tx_exec (sql_delete_ancestors namespace (da_key record)) in
  let! key := tx_lift (attributeKeyFromAttribute (da_attribute record)) in
  let! prefixes := tx_lift (strictAttributePrefixes key) in
  tx_each (fun prefix => tx_exec (sql_insert_ancestor namespace (da_key record) prefix)) prefixes.

Definition write_attribute (namespace : string) (attribute : Attribute) : tx unit :=
  let! _ := ensureNoAttributeConflict namespace attribute in
  upsertAttribute namespace attribute.

Definition data_input (namespace : string) (generation : Z) : StateEvent :=
  mkStateEvent namespace "" StateEventDataWritten "" "" 0 generation 0.

(** The four loops over the request's mutations. *)
Definition write_facts (request : WriteDataRequest) : tx unit :=
  let namespace := wd_namespace request in
  let! _ := tx_each (deleteTuple namespace) (wd_tupleDeletes request) in
  let! _ := tx_each (upsertTuple namespace) (wd_tupleWrites request) in
  let! _ := tx_each (deleteAttribute namespace) (wd_attributeDeletes request) in
  tx_each (write_attribute namespace) (wd_attributeWrites request).

(** The end of the callback: the time, the event, the replay record and the
    new generation. *)
Definition finish_write (request : WriteDataRequest) (fingerprintEncoded : list Z) (nextGeneration : Z) : tx WriteDataResponse :=
  let namespace := wd_namespace request in
  let! occurredAt := effectiveNow namespace in
  let! response := tx_lift (or_error ErrorInternal (NewWriteDataResponse nextGeneration false)) in
  let! responseEncoded := tx_lift (encodeIdempotencyResponse response) in
  let! _ := appendStateEvent (data_input namespace nextGeneration) occurredAt in
  let! _ := tx_exec (sql_insert_idempotency namespace (wd_idempotencyKey request)
              (mkIdempotencyRow fingerprintEncoded responseEncoded)) in
  let! _ := tx_exec (sql_update_head namespace (set_dataGeneration nextGeneration)) in
  tx_ret response.

(** The callback when the idempotency key is new. *)
Definition write_fresh (request : WriteDataRequest) (fingerprintEncoded : list Z) : tx WriteDataResponse :=
  let namespace := wd_namespace request in
  let! revision := readRevision namespace (wd_validationRevisionID request) in
  match revision with
  | None => tx_fail ErrorNotFound
  | Some _ =>
      let! head := ensureNamespaceHead namespace in
      if negb (hd_dataGeneration head =? wd_expectedGeneration request) then tx_fail ErrorConflict
      else if hd_dataGeneration head =? MaxInt64 then tx_fail ErrorResourceExhausted
      else
        let! _ := write_facts request in
        finish_write request fingerprintEncoded (hd_dataGeneration head + 1)
  end.

(** The callback of [WriteData]; [fingerprint] and its durable form. *)
Definition write_data (request : WriteDataRequest) (fingerprint fingerprintEncoded : list Z) : tx WriteDataResponse :=
  let! stored := readIdempotencyRecord (wd_namespace request) (wd_idempotencyKey request) in
  match stored with
  | Some (storedFingerprint, storedResponse) =>
      if negb (bool_decide (storedFingerprint = fingerprint)) then tx_fail ErrorConflict
      else tx_lift (integrity (NewWriteDataResponse (wr_generation storedResponse) true))
  | None => write_fresh request fingerprintEncoded
  end.

(** [mapError(context.Background(), err)] of the constructor's error. *)
Definition canonicalWriteDataRequest (value : WriteDataRequest) : result WriteDataRequest :=
  mapped LiveContext (NewWriteDataRequest (request_input value)).

(** The result, the tables, and whether the generation waiters of the
    namespace are notified. *)
Definition sqlite_WriteData (env : callEnv) (request : WriteDataRequest) (d : database)
  : result WriteDataResponse * database * bool :=
  match (let? _ := sqliteContextError (ce_ctx env 0) in
         let? canonical := canonicalWriteDataRequest request in
         let? sf := mapped (ce_ctx env 1) (FingerprintWriteData canonical) in
         let? fingerprintEncoded := encodeIdempotencyFingerprint sf.2 in
         let? _ := sqliteContextError (ce_ctx env 2) in
         Ok (canonical, Fingerprint_Bytes sf.2, fingerprintEncoded)) with
  | Err e => (Err e, d, false)
  | Ok (canonical, fingerprint, fingerprintEncoded) =>
      let '(r, d') := call_write env (write_data canonical fingerprint fingerprintEncoded) d in
      (r, d', match r with Ok response => negb (wr_replayed response) | Err _ => false end)
  end.

(** [GetDataGeneration] (data.go) *)
Definition sqlite_GetDataGeneration (ctx : nat -> context_state) (env : txEnv) (admission : option ErrorCategory)
  (request : GetDataGenerationRequest) (d : database) : result GetDataGenerationResponse :=
  let? _ := sqliteContextError (ctx 0%nat) in
  let? _ := mapped (ctx 1%nat) (NewGetDataGenerationRequest (gdg_namespace request)) in
  let? generation := store_read env admission
    (let! head := readNamespaceHead (gdg_namespace request) in
     tx_ret (match head with Some h => hd_dataGeneration h | None => 0 end)) d in
  NewGetDataGenerationResponse generation.
End Store.

(** * Reads of a pinned snapshot (snapshot.go)

    A snapshot holds a read transaction, so every query sees the tables [d] of
    the moment it was opened. *)

Record sqliteSnapshot := mkSqliteSnapshot {
  sqs_namespace : string; sqs_generation : Z; sqs_minimum : Z; sqs_readAt : Time; sqs_readAtNS : Z;
  sqs_closing : bool }.

(** [openPinnedSnapshot] after the connection was acquired: [begin] is the
    failure of BEGIN. *)
Definition openPinnedSnapshot (env : txEnv) (begin : option driverError) (request : SnapshotRequest)
  (readAt : Time) (readAtNS : Z) (d : database) : result sqliteSnapshot :=
  match begin with
  | Some e => Err (mapError (te_ctx env 0) e)
  | None =>
      let? head := (readNamespaceHead (sr_namespace request) (in_transaction env) (mkTxState d 1)).1 in
      Ok (mkSqliteSnapshot (sr_namespace request) (match head with Some h => hd_dataGeneration h | None => 0 end)
            (sr_minimumGeneration request) readAt readAtNS false)
  end.

(** [queryConnection]: a snapshot that is being closed admits no read. *)
Definition queryConnection (ctx : context_state) (view : sqliteSnapshot) : result unit :=
  let? _ := sqliteContextError ctx in
  if sqs_closing view then Err ErrorFailedPrecondition else Ok tt.

(** [expires_at_ns IS NULL OR expires_at_ns > ?] *)
Definition unexpired (expires : option Z) (readAtNS : Z) : bool :=
  match expires with None => true | Some t => readAtNS <? t end.

(** The rows of one resource and relation that are not expired, by subject. *)
Definition sql_tuples (namespace : string) (query : TupleQuery) (readAtNS limit : Z) (d : database)
  : list (list Z * tupleRow) :=
  take (Z.to_nat limit)
    (sort_by (fun a b => comparePairs [(tpr_subjectType a.2, tpr_subjectType b.2); (tpr_subjectID a.2, tpr_subjectID b.2);
                                       (tpr_subjectRelation a.2, tpr_subjectRelation b.2)])
      (omap (fun '((ns, key), row) =>
        if bool_decide (ns = namespace /\ tpr_resourceType row = ent_Type (tq_resource query)
             /\ tpr_resourceID row = ent_ID (tq_resource query) /\ tpr_relation row = tq_relation query)
           && unexpired (tpr_expiresAtNS row) readAtNS
        then Some (key, row) else None) (map_to_list (db_tuples d)))).

(** What the iteration over the rows of a query meets: the failure of the query
    itself, the rows that [rows.Scan] refuses, and the number of rows after
    which [rows.Next] stops with an error, which [rows.Err] then reports. *)
Record rowsEnv := mkRowsEnv {
  rse_query : option driverError; rse_unscanned : nat -> bool; rse_stop : option (nat * driverError) }.

Definition rows_intact : rowsEnv := mkRowsEnv None (fun _ => false) None.

(** The rows that [rows.Next] reaches; [None] is one that does not scan. *)
Definition delivered {A} (env : rowsEnv) (rows : list A) : list (option A) :=
  imap (fun n row => if rse_unscanned env n then None else Some row)
    (match rse_stop env with Some (n, _) => take n rows | None => rows end).

(** [if err := rows.Err(); err != nil { return mapError(ctx, err) }] *)
Definition rows_err (ctx : context_state) (env : rowsEnv) : result unit :=
  match rse_stop env with Some (_, e) => Err (mapError ctx e) | None => Ok tt end.

(** The loop over the rows; [subjects] are those already collected. *)
Fixpoint subject_rows (query : TupleQuery) (subjects : list SubjectRef) (rows : list (option (list Z * tupleRow)))
  : result (list SubjectRef) :=
  match rows with
  | [] => Ok subjects
  | None :: _ => Err ErrorIntegrity
  | Some (key, row) :: rows =>
      let? tuple := decodeDurableTuple key (tpr_subjectType row) (tpr_subjectID row) (tpr_subjectRelation row)
                      (tpr_relation row) (tpr_resourceType row) (tpr_resourceID row) (tpr_expiresAtNS row) in
      let value := rt_tuple tuple in
      if bool_decide (tup_Resource value <> tq_resource query) || bool_decide (tup_Relation value <> tq_relation query)
      then Err ErrorIntegrity
      else
        let subjects := subjects ++ [tup_Subject value] in
        if tq_limit query <? zlen subjects then Err ErrorResourceExhausted
        else subject_rows query subjects rows
  end.

Definition sqlite_QueryTuples (ctx : nat -> context_state) (env : rowsEnv) (view : sqliteSnapshot)
  (query : TupleQuery) (d : database) : result TupleResult :=
  let? _ := sqliteContextError (ctx 0%nat) in
  if negb (TupleQuery_Valid query) then Err ErrorInvalidArgument
  else
    let? _ := queryConnection (ctx 1%nat) view in
    match rse_query env with
    | Some e => Err (mapError (ctx 2%nat) e)
    | None =>
        let rows := sql_tuples (sqs_namespace view) query (sqs_readAtNS view) (tq_limit query + 1) d in
        let? subjects := subject_rows query [] (delivered env rows) in
        let? _ := rows_err (ctx 3%nat) env in
        let? _ := sqliteContextError (ctx 4%nat) in
        NewTupleResult query subjects
    end.

Definition sqlite_GetAttribute (ctx : nat -> context_state) (fault : option driverError) (view : sqliteSnapshot)
  (key : AttributeKey) (d : database) : result AttributeResult :=
  let? _ := sqliteContextError (ctx 0%nat) in
  let? canonical := invalid (NewAttributeKeyPath (ak_entity key) (ak_path key)) in
  if bool_decide (ak_path canonical <> ak_path key) then Err ErrorInvalidArgument else
  let? encoded := encodeAttributeKey canonical in
  let? _ := queryConnection (ctx 1%nat) view in
  match fault with
  | Some e => Err (mapError (ctx 2%nat) e)
  | None =>
      match db_attributes d !! (sqs_namespace view, encoded) with
      | None => NewAttributeResult canonical zero_value false
      | Some row =>
          if negb (unexpired (atr_expiresAtNS row) (sqs_readAtNS view)) then NewAttributeResult canonical zero_value false
          else
            let? attribute := decodeDurableAttribute encoded (atr_path row) (atr_value row) (atr_entityType row) (atr_entityID row) in
            if bool_decide (attr_entity attribute <> ak_entity canonical)
               || bool_decide (attr_path attribute <> ak_path canonical)
            then Err ErrorIntegrity
            else
              let? _ := sqliteContextError (ctx 3%nat) in
              NewAttributeResult canonical (attr_value attribute) true
      end
  end.

(** The join of the ancestors of a path with their attributes that are not
    expired. Which row LIMIT 1 selects is not specified: [choose] does. *)
Definition sql_descendants (namespace : string) (ancestor : list Z) (readAtNS : Z) (d : database)
  : list (list Z * attributeRow) :=
  omap (fun '((ns, key), anc) =>
    if bool_decide (ns = namespace /\ anc = ancestor) then
      match db_attributes d !! (ns, key) with
      | Some row => if unexpired (atr_expiresAtNS row) readAtNS then Some (key, row) else None
      | None => None
      end
    else None) (elements (db_ancestors d)).

Definition sqlite_HasAttributeDescendant (ctx : nat -> context_state) (fault : option driverError)
  (choose : list (list Z * attributeRow) -> nat) (view : sqliteSnapshot) (key : AttributeKey) (d : database) : result bool :=
  let? _ := sqliteContextError (ctx 0%nat) in
  let? canonical := invalid (NewAttributeKeyPath (ak_entity key) (ak_path key)) in
  if bool_decide (ak_path canonical <> ak_path key) then Err ErrorInvalidArgument else
  let? encoded := encodeAttributeKey canonical in
  let? _ := queryConnection (ctx 1%nat) view in
  match fault with
  | Some e => Err (mapError (ctx 2%nat) e)
  | None =>
      let rows := sql_descendants (sqs_namespace view) encoded (sqs_readAtNS view) d in
      match rows !! (choose rows mod length rows)%nat with
      | None => Ok false
      | Some (attributeKey, row) =>
          let? _ := sqliteContextError (ctx 3%nat) in
          let? attribute := decodeDurableAttribute attributeKey (atr_path row) (atr_value row) (atr_entityType row) (atr_entityID row) in
          let? attributeKeyValue := attributeKeyFromAttribute attribute in
          let? prefixes := strictAttributePrefixes attributeKeyValue in
          if bool_decide (encoded ∈ prefixes) then Ok true else Err ErrorIntegrity
      end
  end.
