(* ===== verification/Runtime.v ===== *)
(** Requests in flight: how application code runs against its ports.

    The services of internal/app compose a caller gate, stores, caches, a
    pinned snapshot, verifiers, a clock and an event sink. A request is a
    [prog]: a tree of operations on those ports, each followed by a
    continuation for every reply. Nothing is assumed of the replies; a run is
    any trace of operations and replies that the tree admits, so that a
    theorem over all runs covers every store, every cache state, every
    interleaving with other requests and every failure. *)

From Stdlib Require Import ZArith Lia.
From stdpp Require Import base list gmap strings.
From S2P Require Import Prelude Limits Text Types Invocation Cost Canon Data Policy Caller Requests Revisions Domain Evidence Extensions Recency PointerCache RevisionCache StoreData.

(** * Ports *)

(** A [store.Snapshot] handle with the values its accessors return. A
    [time.Time] carries a location and may carry a monotonic reading besides
    its instant: [snp_sameStruct] says whether those of [ReadAt()] are the ones
    of the time that was asked for. *)
Record Snapshot := mkSnapshotHandle {
  snp_handle : nat; snp_namespace : string; snp_generation : Z; snp_readAt : Time; snp_sameStruct : bool }.

#[global] Instance Snapshot_eq_dec : EqDecision Snapshot.
Proof. solve_decision. Defined.

(** What the context and the slots answer during one call of application code,
    and what that code does. *)
Definition extension_reply (T : Type) : Type := Context * bool * call_outcome T.

Section Ports.
Context `{D : Dsl}.

Inductive op :=
  | OContextErr                                                          (* ctx.Err() *)
  | OClock                                                               (* Clock() *)
  | OAuthorize (caller : Caller) (namespace : string) (required : list Capability)
  | OVerifyApproval (request : ApprovalVerificationRequest)
  | OVerifyDelegation (request : DelegationVerificationRequest)
  | ORecordDecision (event : CompletedDecisionEvent)
  | OPutRevision (write : RevisionWrite)
  | OGetRevision (request : GetRevisionRequest)
  | OListRevisions (request : ListRevisionsRequest)
  | OActivate (request : ActivateRequest)
  | OResolve (request : ResolveRequest)
  | OListActivationHistory (request : ListActivationHistoryRequest)
  | OGetDataGeneration (request : GetDataGenerationRequest)
  | OWriteData (request : WriteDataRequest)
  | OOpenSnapshot (request : SnapshotRequest)
  | OGetAttribute (s : Snapshot) (key : AttributeKey)
  | OHasAttributeDescendant (s : Snapshot) (key : AttributeKey)
  | OQueryTuples (s : Snapshot) (query : TupleQuery)
  | OClose (s : Snapshot)
  | OGetOrLoad (key : RevisionKey)
  | OUpdateCommitted (key : SlotKey) (pointer : SlotPointer)
  | OListEvents (request : ListEventsRequest).

Definition reply (o : op) : Type :=
  match o with
  | OContextErr => ctx_answer
  | OClock => option Time                                                (* [None]: a panic *)
  | OAuthorize _ _ _ => extension_reply CallerAuthorization
  | OVerifyApproval _ => extension_reply ApprovalVerificationResult
  | OVerifyDelegation _ => extension_reply DelegationVerificationResult
  | ORecordDecision _ => Context * bool * sink_outcome
  | OPutRevision _ => PutRevisionResult + GoError
  | OGetRevision _ => RevisionRecord + GoError
  | OListRevisions _ => ListRevisionsResponse + GoError
  | OActivate _ => ActivateResponse + GoError
  | OResolve _ => ResolveResponse + GoError
  | OListActivationHistory _ => ListActivationHistoryResponse + GoError
  | OGetDataGeneration _ => GetDataGenerationResponse + GoError
  | OWriteData _ => WriteDataResponse + GoError
  | OOpenSnapshot _ => option Snapshot + GoError                         (* [None]: a nil snapshot *)
  | OGetAttribute _ _ => AttributeResult + GoError
  | OHasAttributeDescendant _ _ => bool + GoError
  | OQueryTuples _ _ => TupleResult + GoError
  | OClose _ => option GoError
  | OGetOrLoad _ => HydratedRevision (Artifact := Artifact) + RevisionError
  | OUpdateCommitted _ _ => option PointerError
  | OListEvents _ => ListEventsResponse + GoError
  end%type.

(** * Programs *)

Inductive prog (A : Type) : Type :=
  | Ret (a : A)
  | Do (o : op) (k : reply o -> prog A).
Arguments Ret {A} a.
Arguments Do {A} o k.

Fixpoint pbind {A B} (p : prog A) (f : A -> prog B) : prog B :=
  match p with
  | Ret a => f a
  | Do o k => Do o (fun x => pbind (k x) f)
  end.

Definition call (o : op) : prog (reply o) := Do o Ret.

(** A step that may fail: the error is returned at once. *)
Definition ebind {A B E} (p : prog (A + E)) (f : A -> prog (B + E)) : prog (B + E) :=
  pbind p (fun r => match r with inl a => f a | inr e => Ret (inr e) end).

(** A loop that threads a value and stops at the first error. *)
Fixpoint ploop {A S E} (f : S -> A -> prog (S + E)) (s : S) (l : list A) : prog (S + E) :=
  match l with
  | [] => Ret (inl s)
  | x :: rest => ebind (f s x) (fun s' => ploop f s' rest)
  end.

(** * Runs *)

Definition event : Type := {o : op & reply o}.
Definition trace : Type := list event.
Definition ev (o : op) (x : reply o) : event := existT o x.

Fixpoint runs {A} (p : prog A) (tr : trace) (a : A) : Prop :=
  match p with
  | Ret b => tr = [] /\ a = b
  | Do o k => exists x tr', tr = ev o x :: tr' /\ runs (k x) tr' a
  end.

Lemma runs_bind {A B} (p : prog A) (f : A -> prog B) : forall tr b,
  runs (pbind p f) tr b <-> exists tr1 tr2 a, tr = tr1 ++ tr2 /\ runs p tr1 a /\ runs (f a) tr2 b.
Proof.
  induction p as [a|o k IH]; intros tr b; cbn [pbind runs].
  - split; [intros H; by exists [], tr, a|]. by intros (? & tr2 & ? & -> & [-> ->] & H).
  - split.
    + intros (x & tr' & -> & H). apply IH in H as (tr1 & tr2 & a & -> & H1 & H2).
      exists (ev o x :: tr1), tr2, a. split; [done|]. split; [eauto|done].
    + intros (? & tr2 & a & -> & (x & tr1 & -> & H1) & H2). exists x, (tr1 ++ tr2). split; [done|].
      apply IH. eauto 6.
Qed.

Lemma runs_ebind {A B E} (p : prog (A + E)) (f : A -> prog (B + E)) tr r :
  runs (ebind p f) tr r <->
  (exists e, runs p tr (inr e) /\ r = inr e) \/
  (exists tr1 tr2 a, tr = tr1 ++ tr2 /\ runs p tr1 (inl a) /\ runs (f a) tr2 r).
Proof.
  unfold ebind. rewrite runs_bind. split.
  - intros (tr1 & tr2 & [a|e] & -> & H1 & H2); [right; eauto 6|left]. destruct H2 as [-> ->].
    rewrite app_nil_r. eauto.
  - intros [(e & H & ->)|(tr1 & tr2 & a & -> & H1 & H2)].
    + exists tr, [], (inr e). by rewrite app_nil_r.
    + exists tr1, tr2, (inl a). auto.
Qed.

Lemma runs_call o tr x : runs (call o) tr x <-> tr = [ev o x].
Proof.
  unfold call. cbn. split; [by intros (y & tr' & -> & -> & ->)|]. intros ->. by exists x, [].
Qed.

(** Every tree has a run for every way the ports may answer: the reply to an
    operation may depend on everything that happened before. *)
Fixpoint exec {A} (env : trace -> forall o, reply o) (p : prog A) (past : trace) : trace * A :=
  match p with
  | Ret a => ([], a)
  | Do o k =>
      let x := env past o in
      let '(tr, a) := exec env (k x) (past ++ [ev o x]) in (ev o x :: tr, a)
  end.

Lemma exec_runs {A} env (p : prog A) : forall past, runs p (fst (exec env p past)) (snd (exec env p past)).
Proof.
  induction p as [a|o k IH]; intros past; cbn; [done|]. specialize (IH (env past o) (past ++ [ev o (env past o)])).
  destruct (exec env (k (env past o)) _) as [tr a]. cbn in *. eauto.
Qed.

(** * Errors (check.go, publish.go) *)

Definition appError (category : ErrorCategory) : GoError := engineError category.

Definition sanitizeRuntimeError (err : GoError) (fallback : ErrorCategory) : GoError :=
  match err with
  | TypedError e => appError (EngineError_Category e)
  | ContextDeadlineExceeded => appError ErrorDeadlineExceeded
  | ContextCanceled => appError ErrorCanceled
  | ForeignError => appError fallback
  end.

(** The error value of [ctx.Err()]; a nil or panicking context does not get
    past the caller gate. *)
Definition context_error (a : ctx_answer) : option GoError :=
  match a with
  | CtxUsable => None
  | CtxDeadline => Some ContextDeadlineExceeded
  | CtxCanceled => Some ContextCanceled
  | _ => Some ForeignError
  end.

(** [sanitizeRuntimeError(ctx.Err(), ErrorInternal)] as a guard. *)
Definition check_context : prog (unit + GoError) :=
  pbind (call OContextErr) (fun a =>
    Ret match context_error a with
        | None => inl tt
        | Some e => inr (sanitizeRuntimeError e ErrorInternal)
        end).

(** [store.ContextError(ctx)] *)
Definition ContextError : prog (unit + GoError) :=
  pbind (call OContextErr) (fun a =>
    Ret match a with
        | CtxUsable => inl tt
        | CtxNil => inr (engineError ErrorInvalidArgument)
        | CtxDeadline => inr (engineError ErrorDeadlineExceeded)
        | _ => inr (engineError ErrorCanceled)
        end).

Definition lift {A} (r : result A) : prog (A + GoError) := Ret (of_result r).
Definition fail {A} (e : GoError) : prog (A + GoError) := Ret (inr e).

(** A call whose error is sanitized. *)
Definition sanitized {A} (p : prog (A + GoError)) (fallback : ErrorCategory) : prog (A + GoError) :=
  pbind p (fun r => Ret match r with inl a => inl a | inr e => inr (sanitizeRuntimeError e fallback) end).

(** [policyengine.AuthorizeCaller] with the service's authorizer. *)
Definition authorize (caller : Caller) (namespace : string) (required : list Capability) : prog (unit + GoError) :=
  pbind (call (OAuthorize caller namespace required)) (fun '(ctx, slotFree, outcome) =>
    lift (AuthorizeCaller ctx slotFree (Some (fun _ _ _ => outcome)) caller namespace required)).

(** ** Successful runs *)

Lemma runs_ebind_inl {A B E} (p : prog (A + E)) (f : A -> prog (B + E)) tr b :
  runs (ebind p f) tr (inl b) <-> exists tr1 tr2 a, tr = tr1 ++ tr2 /\ runs p tr1 (inl a) /\ runs (f a) tr2 (inl b).
Proof. rewrite runs_ebind. split; [by intros [(e & _ & [=])|H]|by right]. Qed.

Lemma runs_lift {A} (r : result A) tr x : runs (lift r) tr x <-> tr = [] /\ x = of_result r.
Proof. done. Qed.
Lemma runs_lift_inl {A} (r : result A) tr a : runs (lift r) tr (inl a) <-> tr = [] /\ r = Ok a.
Proof. rewrite runs_lift. destruct r; cbn; naive_solver congruence. Qed.

(** An invariant of a loop, on runs whose events satisfy [P]. *)
Lemma runs_ploop_inl {A S E} (P : event -> Prop) (I : list A -> S -> Prop) (f : S -> A -> prog (S + E)) l :
  (forall before x s s' tr, x ∈ l -> I before s -> Forall P tr -> runs (f s x) tr (inl s') -> I (before ++ [x]) s') ->
  forall before s tr s', I before s -> Forall P tr -> runs (ploop f s l) tr (inl s') -> I (before ++ l) s'.
Proof.
  induction l as [|x l IH]; intros Hstep before s tr s' Hi Hp; cbn [ploop].
  - intros [_ [= ->]]. by rewrite app_nil_r.
  - rewrite runs_ebind_inl. intros (tr1 & tr2 & s1 & -> & H1 & H2). apply Forall_app in Hp as [Hp1 Hp2].
    replace (before ++ x :: l) with ((before ++ [x]) ++ l) by (by rewrite <- app_assoc).
    eapply IH; [|eapply Hstep; [left|exact Hi|exact Hp1|exact H1]|exact Hp2|exact H2].
    intros b y t t' tr' Hy. apply Hstep. by right.
Qed.

(** * What a trace says of the past *)

(** The facts behind a snapshot. *)
Record View := mkView {
  vw_attribute : EntityRef -> list string -> option Value;
  vw_subjects : EntityRef -> string -> list SubjectRef }.

(** A snapshot serves a view when no successful read contradicts it. Reads may
    fail at any time. *)
Definition event_serves (s : Snapshot) (v : View) (e : event) : Prop :=
  match e with
  | existT (OGetAttribute s' key) (inl r) => s' = s ->
      vw_attribute v (ak_entity key) (ak_path key) = if are_found r then Some (are_value r) else None
  | existT (OHasAttributeDescendant s' key) (inl b) => s' = s ->
      b = true <-> exists rest, rest <> [] /\ is_Some (vw_attribute v (ak_entity key) (ak_path key ++ rest))
  | existT (OQueryTuples s' query) (inl r) => s' = s ->
      tr_subjects r = vw_subjects v (tq_resource query) (tq_relation query)
  | _ => True
  end.
Definition serves (s : Snapshot) (v : View) (tr : trace) : Prop := Forall (event_serves s v) tr.

Lemma serves_app s v tr1 tr2 : serves s v (tr1 ++ tr2) <-> serves s v tr1 /\ serves s v tr2.
Proof. apply Forall_app. Qed.

(** * Programs that stay within some operations *)

(** Every operation the program may perform satisfies [P]. *)
Fixpoint only {A} (P : op -> Prop) (p : prog A) : Prop :=
  match p with
  | Ret _ => True
  | Do o k => P o /\ forall x, only P (k x)
  end.

Lemma only_bind {A B} P (p : prog A) (f : A -> prog B) : only P p -> (forall a, only P (f a)) -> only P (pbind p f).
Proof.
  intros Hp Hf. induction p as [a|o k IH]; cbn; [apply Hf|]. destruct Hp as [Ho Hk]. split; [done|]. intros x.
  by apply IH.
Qed.
Lemma only_ebind {A B E} P (p : prog (A + E)) (f : A -> prog (B + E)) :
  only P p -> (forall a, only P (f a)) -> only P (ebind p f).
Proof. intros Hp Hf. apply only_bind; [done|]. intros [a|e]; [apply Hf|done]. Qed.
Lemma only_ploop {A S E} P (f : S -> A -> prog (S + E)) l : forall s,
  (forall s x, only P (f s x)) -> only P (ploop f s l).
Proof. induction l as [|x l IH]; intros s Hf; cbn [ploop]; [done|]. apply only_ebind; auto. Qed.
Lemma only_call P o : P o -> only P (call o).
Proof. by split. Qed.
Lemma only_weaken {A} (P Q : op -> Prop) (p : prog A) : (forall o, P o -> Q o) -> only P p -> only Q p.
Proof. intros H. induction p as [a|o k IH]; cbn; [done|]. intros [Ho Hk]. auto. Qed.

Lemma only_runs {A} P (p : prog A) : only P p -> forall tr a, runs p tr a -> Forall (fun e => P (projT1 e)) tr.
Proof.
  induction p as [a|o k IH]; cbn; [by intros _ tr b [-> _]|]. intros [Ho Hk] tr b (x & tr' & -> & H).
  constructor; [done|]. exact (IH x (Hk x) tr' b H).
Qed.
End Ports.

Arguments Ret {D A} a.
Arguments Do {D A} o k.

(** [x, err := p; if err != nil { return err }]. *)
Notation "'let!' x ':=' e 'in' k" := (ebind e (fun x => k))
  (at level 10, x name, e at level 200, k at level 200) : go_scope.
Notation "e ';;!' k" := (ebind e (fun _ => k))
  (at level 100, k at level 200, right associativity) : go_scope.
