(* ===== verification/Evaluator.v ===== *)
(** Contextual data and the snapshot reader (internal/domain/attribute.go,
    internal/evaluator).

    A request may bring facts of its own. [NormalizeContextualData] admits them
    only as additions to the pinned snapshot; [SnapshotReader] then answers the
    DSL evaluator from the snapshot and those facts together. The theorems
    relate both to the view behind the snapshot. *)

From Stdlib Require Import ZArith Lia Sorted.
From stdpp Require Import base list gmap strings sorting.
From S2P Require Import Prelude Limits Text Types Invocation Cost Canon Data DataValid Policy Caller Requests Revisions Domain Evidence Extensions StoreData Runtime.

(** * Contextual data (internal/domain/attribute.go) *)

Definition equalValue (left right : Value) : bool :=
  if negb (val_kind left =? val_kind right) then false
  else if val_kind left =? ValueKindString then bool_decide (val_text left = val_text right)
  else if val_kind left =? ValueKindInteger then val_integer left =? val_integer right
  else if val_kind left =? ValueKindBoolean then Bool.eqb (val_boolean left) (val_boolean right)
  else val_kind left =? ValueKindNull.

Definition sameAttributeKey (left right : AttributeKey) : bool :=
  bool_decide (ak_entity left = ak_entity right) && bool_decide (ak_path left = ak_path right).

Section Normalize.
Context `{D : Dsl}.

(** One prefix of an attribute's path, [attributePath[:length]]. *)
Definition normalize_prefix (snapshot : Snapshot) (attribute : Attribute) (exactDuplicate : bool) (length : nat)
  : prog (bool + GoError) :=
  let path := take length (attr_path attribute) in
  let! key := lift (NewAttributeKeyPath (attr_entity attribute) path) in
  let! persistent := call (OGetAttribute snapshot key) in
  if negb (AttributeResult_Valid persistent) || negb (sameAttributeKey (are_key persistent) key)
  then fail (engineError ErrorIntegrity)
  else if negb (are_found persistent) then Ret (inl exactDuplicate)
  else if negb (length =? List.length (attr_path attribute))%nat
          || negb (equalValue (are_value persistent) (attr_value attribute))
  then fail (engineError ErrorInvalidArgument)
  else Ret (inl true).

Definition normalize_attribute (s : DataSchema) (snapshot : Snapshot) (additive : list Attribute)
  (attribute : Attribute) : prog (list Attribute + GoError) :=
  if negb (validAttributePath s (attr_entity attribute) (attr_path attribute))
  then fail (engineError ErrorInvalidArgument)
  else
    let! exactDuplicate :=
      ploop (normalize_prefix snapshot attribute) false (seq 1 (length (attr_path attribute))) in
    let! key := lift (NewAttributeKeyPath (attr_entity attribute) (attr_path attribute)) in
    let! hasDescendant := call (OHasAttributeDescendant snapshot key) in
    if (hasDescendant : bool) then fail (engineError ErrorInvalidArgument)
    else Ret (inl (if (exactDuplicate : bool) then additive else additive ++ [attribute])).

(** The context and the snapshot are not nil at its two calls. *)
Definition NormalizeContextualData (s : DataSchema) (snapshot : Snapshot) (contextual : ContextualData)
  : prog (ContextualData + GoError) :=
  let! validated := lift (NewContextualData (cd_tuples contextual) (cd_attributes contextual)) in
  let! additive := ploop (normalize_attribute s snapshot) [] (cd_attributes validated) in
  lift (NewContextualData (cd_tuples validated) additive).
End Normalize.

(** * Values for the evaluator (attributes.go) *)

(** The dynamic types handed to the DSL as [any]. *)
Inductive any_value := AnyString (s : string) | AnyInteger (n : Z) | AnyBoolean (b : bool) | AnyNil.

Definition resolveValue (value : Value) : result any_value :=
  if val_kind value =? ValueKindString then Ok (AnyString (val_text value))
  else if val_kind value =? ValueKindInteger then Ok (AnyInteger (val_integer value))
  else if val_kind value =? ValueKindBoolean then Ok (AnyBoolean (val_boolean value))
  else if val_kind value =? ValueKindNull then Ok AnyNil
  else Err ErrorInvalidArgument.

(** The arguments in map iteration order; the result is again a map. *)
Definition ResolveArguments (arguments : gmap string Value) : result (gmap string any_value) :=
  foldM (fun resolved kv => let? converted := resolveValue kv.2 in Ok (<[kv.1 := converted]> resolved))
    ∅ (map_to_list arguments).

(** * The snapshot reader (adapter.go, attributes.go) *)

Record SnapshotReader := mkSnapshotReader {
  rd_snapshot : Snapshot; rd_tuples : list RelationshipTuple; rd_attributes : list Attribute }.

Definition NewSnapshotReader (snapshot : Snapshot) (contextual : ContextualData) : SnapshotReader :=
  mkSnapshotReader snapshot (cd_tuples contextual) (cd_attributes contextual).

Definition compareSubjects (left right : SubjectRef) : comparison :=
  match String.compare (sub_Type left) (sub_Type right) with
  | Eq =>
      match String.compare (sub_ID left) (sub_ID right) with
      | Eq => String.compare (sub_Relation left) (sub_Relation right)
      | o => o
      end
  | o => o
  end.

Section Reader.
Context `{D : Dsl}.

(** [if index%64 == 0 { if err := store.ContextError(ctx); ... }] *)
Definition poll (index : nat) : prog (unit + GoError) :=
  if (index mod 64 =? 0)%nat then ContextError else Ret (inl tt).

Definition appendSubject (canonical : list SubjectRef) (subject : SubjectRef) : list SubjectRef :=
  if bool_decide (last canonical = Some subject) then canonical else canonical ++ [subject].

(** The merge loop; [index] is [contextualIndex+persistentIndex], and fuel for
    every element of both slices is enough. *)
Fixpoint merge_loop (fuel index : nat) (canonical contextual persistent : list SubjectRef)
  : prog (list SubjectRef + GoError) :=
  match fuel with
  | O => Ret (inl canonical)
  | S fuel =>
      match contextual, persistent with
      | [], [] => Ret (inl canonical)
      | [], y :: ys => poll index ;;! merge_loop fuel (index + 1) (appendSubject canonical y) [] ys
      | x :: xs, [] => poll index ;;! merge_loop fuel (index + 1) (appendSubject canonical x) xs []
      | x :: xs, y :: ys =>
          poll index ;;!
          match compareSubjects x y with
          | Lt => merge_loop fuel (index + 1) (appendSubject canonical x) xs persistent
          | Eq => merge_loop fuel (index + 2) (appendSubject canonical x) xs ys
          | Gt => merge_loop fuel (index + 1) (appendSubject canonical y) contextual ys
          end
      end
  end.

Definition canonicalSubjects (contextual persistent : list SubjectRef) : prog (list SubjectRef + GoError) :=
  let! canonical := merge_loop (S (length contextual + length persistent)) 0 [] contextual persistent in
  ContextError ;;! Ret (inl canonical).

(** An unexpired contextual tuple of the requested bucket. *)
Definition live_match (readAt : Time) (resource : EntityRef) (relation : string) (t : RelationshipTuple) : bool :=
  if bool_decide (tup_Resource (rt_tuple t) <> resource) || bool_decide (tup_Relation (rt_tuple t) <> relation)
  then false
  else negb (rt_hasExpiry t && negb (readAt <? rt_expiresAt t)).

Definition contextual_subject (r : SnapshotReader) (resource : EntityRef) (relation : string)
  (subjects : list SubjectRef) (item : nat * RelationshipTuple) : prog (list SubjectRef + GoError) :=
  poll item.1 ;;!
  Ret (inl (if live_match (snp_readAt (rd_snapshot r)) resource relation item.2
            then subjects ++ [tup_Subject (rt_tuple item.2)] else subjects)).

Definition ReadTuples (r : SnapshotReader) (resource : EntityRef) (relation : string)
  : prog (list SubjectRef + GoError) :=
  ContextError ;;!
  match NewTupleQuery resource relation MaxAggregateWorkItems with
  | Err _ => fail (engineError ErrorInvalidArgument)
  | Ok query =>
      let! subjects := ploop (contextual_subject r resource relation) []
                         (combine (seq 0 (length (rd_tuples r))) (rd_tuples r)) in
      ContextError ;;!
      let! result := call (OQueryTuples (rd_snapshot r) query) in
      ContextError ;;!
      if MaxAggregateWorkItems - zlen subjects <? zlen (tr_subjects result)
      then fail (engineError ErrorResourceExhausted)
      else
        let! subjects := canonicalSubjects subjects (tr_subjects result) in
        if MaxAggregateWorkItems <? zlen subjects then fail (engineError ErrorResourceExhausted)
        else ContextError ;;! Ret (inl subjects)
  end.

(** ** Attributes *)

Definition pathPrefix (prefix path : list string) : bool :=
  if (length path <=? length prefix)%nat then false else prefixb prefix path.

(** The scan of the contextual attributes: the value at the path, and whether
    another one lies above or below it. *)
Definition scan_attribute (entity : EntityRef) (path : list string) (found : option Value * bool)
  (item : nat * Attribute) : prog (option Value * bool + GoError) :=
  poll item.1 ;;!
  Ret (inl
    (if bool_decide (attr_entity item.2 <> entity) then found
     else if bool_decide (attr_path item.2 = path) then (Some (attr_value item.2), found.2)
     else if pathPrefix (attr_path item.2) path || pathPrefix path (attr_path item.2) then (found.1, true)
     else found)).

(** One strict ancestor, [path[:index]]. *)
Definition reject_ancestor (r : SnapshotReader) (entity : EntityRef) (path : list string) (_ : unit) (index : nat)
  : prog (unit + GoError) :=
  ContextError ;;!
  match NewAttributeKeyPath entity (take index path) with
  | Err _ => fail (engineError ErrorInvalidArgument)
  | Ok ancestor =>
      let! result := call (OGetAttribute (rd_snapshot r) ancestor) in
      if negb (AttributeResult_Valid result) || negb (sameAttributeKey (are_key result) ancestor)
      then fail (engineError ErrorIntegrity)
      else if are_found result then fail (engineError ErrorInvalidArgument)
      else Ret (inl tt)
  end.

Definition rejectPersistentPathConflict (r : SnapshotReader) (entity : EntityRef) (path : list string)
  (key : AttributeKey) : prog (unit + GoError) :=
  let! descendant := call (OHasAttributeDescendant (rd_snapshot r) key) in
  if (descendant : bool) then fail (engineError ErrorInvalidArgument)
  else ploop (reject_ancestor r entity path) tt (seq 1 (length path - 1)) ;;! ContextError.

Definition ResolveAttribute (r : SnapshotReader) (entity : EntityRef) (path : list string)
  : prog (option any_value + GoError) :=
  ContextError ;;!
  match NewAttributeKeyPath entity path with
  | Err _ => fail (engineError ErrorInvalidArgument)
  | Ok key =>
      let! scan := ploop (scan_attribute entity path) (None, false)
                     (combine (seq 0 (length (rd_attributes r))) (rd_attributes r)) in
      ContextError ;;!
      let! persistent := call (OGetAttribute (rd_snapshot r) key) in
      if negb (AttributeResult_Valid persistent) || negb (sameAttributeKey (are_key persistent) key)
      then fail (engineError ErrorIntegrity)
      else if are_found persistent && scan.2 then fail (engineError ErrorInvalidArgument)
      else match scan.1 with
      | Some contextual =>
          if are_found persistent && bool_decide (contextual <> are_value persistent)
          then fail (engineError ErrorInvalidArgument)
          else
            rejectPersistentPathConflict r entity path key ;;!
            let! converted := lift (resolveValue contextual) in
            Ret (inl (Some converted))
      | None =>
          if negb (are_found persistent) then Ret (inl None)
          else let! converted := lift (resolveValue (are_value persistent)) in Ret (inl (Some converted))
      end
  end.
End Reader.
