(* ===== verification/EvaluatorProofs.v ===== *)
(** Contextual data are additive, and the snapshot reader answers from the
    snapshot's view and the contextual facts together (proofs for Evaluator.v). *)

From Stdlib Require Import ZArith Lia Sorted.
From stdpp Require Import base list gmap strings sorting.
From S2P Require Import Prelude Limits Text Types Invocation Cost Canon Data DataValid Policy Caller Requests Revisions Domain Evidence Extensions StoreData Runtime Evaluator.

(** Splits a successful run into its steps. *)
Ltac run_step H tr x Hx :=
  let tr' := fresh "tr" in
  apply runs_ebind_inl in H as (tr & tr' & x & -> & Hx & H).

(** * Canonical contexts *)

Record canonical_context (d : ContextualData) : Prop := {
  cc_tuples : StronglySorted (clt compareRelationshipTuple) (cd_tuples d);
  cc_tuples_free : clash_free tuple_conflict rt_tuple (cd_tuples d);
  cc_attributes : StronglySorted (clt compareAttribute) (cd_attributes d);
  cc_attributes_free : clash_free keys_conflict attr_key (cd_attributes d);
  cc_valid : forall a, a ∈ cd_attributes d -> Attribute_valid a = true
}.

Lemma clash_free_sub {A K} (conf : K -> K -> bool) (key : A -> K) l l' :
  (forall x, x ∈ l' -> x ∈ l) -> clash_free conf key l -> clash_free conf key l'.
Proof. intros Hs Hf a b Ha Hb. auto. Qed.

Lemma NewContextualData_canonical tuples attributes d :
  NewContextualData tuples attributes = Ok d -> canonical_context d.
Proof.
  unfold NewContextualData. destruct (_ || _); [done|]. intros (b & _ & H)%rbind_ok.
  destruct (forallb RelationshipTuple_valid tuples); [|done].
  destruct (forallb Attribute_valid attributes) eqn:Ha; [|done]. cbn [negb] in H.
  apply rbind_ok in H as (ts & (S1 & M1 & F1)%canonicalRelationshipTuples_Ok & H).
  apply rbind_ok in H as (ats & (S2 & M2 & F2)%canonicalAttributes_Ok & [= <-]).
  split; cbn; auto.
  - eapply clash_free_sub; [|exact F1]. intros x. apply M1.
  - eapply clash_free_sub; [|exact F2]. intros x. apply M2.
  - intros a Hin. rewrite forallb_forall in Ha. apply Ha. rewrite <- list_elem_of_In. by apply M2.
Qed.

(** Canonical facts are kept as they are. *)
Lemma NewContextualData_id tuples attributes d :
  canonical_context (mkContextualData tuples attributes) -> NewContextualData tuples attributes = Ok d ->
  d = mkContextualData tuples attributes.
Proof.
  intros [S1 F1 S2 F2 _]. cbn in *. unfold NewContextualData. destruct (_ || _); [done|]. intros (b & _ & H)%rbind_ok.
  destruct (forallb RelationshipTuple_valid tuples); [|done].
  destruct (forallb Attribute_valid attributes); [|done]. cbn [negb] in H.
  assert (C1 : canonicalRelationshipTuples tuples = Ok tuples).
  { by apply (canonical_id _ compareTuplePairs _ _ _ compareRelationshipTuple_mono relationshipTuples_step). }
  assert (C2 : canonicalAttributes attributes = Ok attributes).
  { by apply (canonical_id _ compareAttributeDeleteKey _ _ _ compareAttribute_mono attributes_step). }
  rewrite C1, C2 in H. by injection H as <-.
Qed.

Lemma sorted_sublist {A} (R : A -> A -> Prop) l l' : sublist l' l -> StronglySorted R l -> StronglySorted R l'.
Proof.
  induction 1 as [|x l' l Hs IH|x l' l Hs IH]; intros H; [done|..]; inversion_clear H as [|? ? Hl Hx]; [|auto].
  constructor; [auto|]. rewrite Forall_forall in *. intros y Hy. apply Hx. by eapply elem_of_sublist.
Qed.

(** * Values *)

Lemma equalValue_eq v w : Value_valid v = true -> Value_valid w = true -> equalValue v w = true -> v = w.
Proof.
  destruct v as [k t i b], w as [k' t' i' b']. unfold Value_valid, equalValue. cbn [val_kind val_text val_integer val_boolean].
  destruct (Z.eqb_spec k k') as [<-|]; [|done]. cbn [negb].
  assert (Hlen : forall s, len s =? 0 = true -> s = ""%string).
  { intros s Hs%Z.eqb_eq. destruct s; [done|]. unfold len in Hs. cbn in Hs. lia. }
  destruct (k =? ValueKindString); [|destruct (k =? ValueKindInteger); [|destruct (k =? ValueKindBoolean);
    [|destruct (k =? ValueKindNull); [|done]]]]; rewrite ?andb_true_iff, ?negb_true_iff, ?Z.eqb_eq.
  - intros [[-> ->] _] [[-> ->] _] ->%bool_decide_eq_true. done.
  - intros [->%Z.eqb_eq%Hlen ->] [->%Z.eqb_eq%Hlen ->] ->. done.
  - intros [->%Z.eqb_eq%Hlen ->] [->%Z.eqb_eq%Hlen ->] ->%eqb_prop. done.
  - intros [[->%Z.eqb_eq%Hlen ->] ->] [[->%Z.eqb_eq%Hlen ->] ->] _. done.
Qed.

Lemma attribute_value_valid a : Attribute_valid a = true -> Value_valid (attr_value a) = true.
Proof.
  unfold Attribute_valid, validateValue. rewrite andb_true_iff. intros [_ H]. by destruct (Value_valid (attr_value a)).
Qed.

Lemma AttributeResult_value r : AttributeResult_Valid r = true -> are_found r = true -> Value_valid (are_value r) = true.
Proof.
  unfold AttributeResult_Valid, NewAttributeResult. destruct (are_valid r); [|done]. cbn [negb].
  intros H Hf. rewrite Hf in H. destruct (NewAttributeKeyPath _ _) as [key|]; [|done]. cbn [negb] in H.
  destruct (is_ok (NewAttributePath _ _ _)) eqn:E; [|done]. apply is_ok_true in E as (x & E).
  unfold NewAttributePath in E. apply rbind_ok in E as (? & _ & E). apply rbind_ok in E as (? & _ & E).
  apply rbind_ok in E as (? & E & _). unfold validateValue in E. by destruct (Value_valid (are_value r)).
Qed.

Lemma NewAttributeKeyPath_key e p key : NewAttributeKeyPath e p = Ok key -> key = mkAttributeKey e p.
Proof.
  unfold NewAttributeKeyPath. intros H. do 4 (apply rbind_ok in H as (? & _ & H)). by injection H as <-.
Qed.

(** * Normalisation *)

(** The contextual attribute neither overrides a fact of the view nor lies
    above or below one. *)
Definition additive_over (v : View) (a : Attribute) : Prop :=
  (forall p, p <> [] -> p `prefix_of` attr_path a -> p <> attr_path a -> vw_attribute v (attr_entity a) p = None) /\
  (forall rest, rest <> [] -> vw_attribute v (attr_entity a) (attr_path a ++ rest) = None) /\
  (vw_attribute v (attr_entity a) (attr_path a) = None \/
   vw_attribute v (attr_entity a) (attr_path a) = Some (attr_value a)).

Section Normalize.
Context `{D : Dsl} (s : DataSchema) (snapshot : Snapshot) (v : View).

(** One read of an attribute. *)
Lemma read_attribute key tr r :
  serves snapshot v tr -> runs (call (OGetAttribute snapshot key)) tr (inl r) ->
  vw_attribute v (ak_entity key) (ak_path key) = if are_found r then Some (are_value r) else None.
Proof. intros Hs ->%runs_call. apply Forall_cons in Hs as [H _]. by apply H. Qed.

Lemma normalize_prefix_spec a dup n tr dup' :
  Attribute_valid a = true -> serves snapshot v tr -> (n <= length (attr_path a))%nat ->
  runs (normalize_prefix snapshot a dup n) tr (inl dup') ->
  (vw_attribute v (attr_entity a) (take n (attr_path a)) = None /\ dup' = dup) \/
  (n = length (attr_path a) /\ vw_attribute v (attr_entity a) (attr_path a) = Some (attr_value a) /\ dup' = true).
Proof.
  intros Ha Hs Hn. unfold normalize_prefix. intros H. run_step H tr1 key Hk.
  apply runs_lift_inl in Hk as [-> ->%NewAttributeKeyPath_key]. run_step H tr2 r Hr.
  apply serves_app in Hs as [_ Hs]. apply serves_app in Hs as [Hs _].
  assert (Hv := read_attribute _ _ _ Hs Hr). cbn [ak_entity ak_path] in Hv.
  destruct (AttributeResult_Valid r) eqn:Ev; [|by destruct H]. cbn [negb orb] in H.
  destruct (sameAttributeKey _ _); [|by destruct H]. cbn [negb] in H.
  destruct (are_found r) eqn:Ef; cbn [negb] in H; [|left; destruct H as [_ [= <-]]; auto].
  destruct (Nat.eqb_spec n (length (attr_path a))) as [->|]; [|by destruct H]. cbn [negb orb] in H.
  destruct (equalValue (are_value r) (attr_value a)) eqn:Eq; [|by destruct H]. destruct H as [_ [= <-]].
  right. split; [done|]. split; [|done]. rewrite firstn_all in Hv. rewrite Hv. f_equal.
  apply equalValue_eq; auto using attribute_value_valid, AttributeResult_value.
Qed.

Lemma normalize_attribute_spec additive a tr additive' :
  Attribute_valid a = true -> serves snapshot v tr ->
  runs (normalize_attribute s snapshot additive a) tr (inl additive') ->
  validAttributePath s (attr_entity a) (attr_path a) = true /\ additive_over v a /\
  additive' = if bool_decide (vw_attribute v (attr_entity a) (attr_path a) = None) then additive ++ [a] else additive.
Proof.
  intros Ha Hs. unfold normalize_attribute.
  destruct (validAttributePath _ _ _) eqn:Ep; cbn [negb]; [|by intros [_ [=]]]. intros H.
  run_step H tr1 dup Hd. apply serves_app in Hs as [Hs1 Hs]. run_step H tr2 key Hk.
  apply runs_lift_inl in Hk as [-> Hkey%NewAttributeKeyPath_key]. apply serves_app in Hs as [_ Hs].
  run_step H tr3 desc Hdesc. apply serves_app in Hs as [Hs3 _]. apply runs_call in Hdesc as ->.
  apply Forall_cons in Hs3 as [Hdesc _]. specialize (Hdesc eq_refl). rewrite Hkey in Hdesc. cbn [ak_entity ak_path] in Hdesc.
  destruct desc; [by destruct H|]. destruct H as [_ [= ->]].
  set (path := attr_path a) in *. set (e := attr_entity a) in *.
  assert (HI : forall n, n ∈ seq 1 (length path) ->
      (n < length path -> vw_attribute v e (take n path) = None)%nat /\
      (n = length path -> vw_attribute v e path = None \/ vw_attribute v e path = Some (attr_value a))).
  { intros n Hn.
    assert (Hl := runs_ploop_inl (event_serves snapshot v) (fun before _ => forall n, n ∈ before ->
      (n < length path -> vw_attribute v e (take n path) = None)%nat /\
      (n = length path -> vw_attribute v e path = None \/ vw_attribute v e path = Some (attr_value a)))
      (normalize_prefix snapshot a) (seq 1 (length path))).
    refine (Hl _ [] _ _ _ _ Hs1 Hd n Hn); [|intros m Hm; by apply elem_of_nil in Hm].
    intros before m x x' tr Hm Hb Hp Hrun k [Hk|Hk]%elem_of_app; [by apply Hb|].
    apply list_elem_of_singleton in Hk as ->. apply elem_of_seq in Hm.
    destruct (normalize_prefix_spec a x m tr x' Ha Hp ltac:(fold path; lia) Hrun) as [[Hv _]|(-> & Hv & _)].
    - split; [done|]. intros ->. left. by rewrite firstn_all in Hv.
    - split; [fold path; lia|by right]. }
  assert (Hdup : dup = true <-> vw_attribute v e path = Some (attr_value a) /\ path <> []).
  { assert (Hl := runs_ploop_inl (event_serves snapshot v) (fun before x =>
      x = true <-> vw_attribute v e path = Some (attr_value a) /\ length path ∈ before)
      (normalize_prefix snapshot a) (seq 1 (length path))).
    specialize (fun H => Hl H [] false tr1 dup). cbn [app] in Hl. rewrite Hl; [| |split; [done|]; by intros [_ ?%elem_of_nil]|exact Hs1|exact Hd].
    - rewrite elem_of_seq. destruct path; cbn; naive_solver lia.
    - intros before m x x' tr Hm Hb Hp Hrun. apply elem_of_seq in Hm. rewrite elem_of_app, list_elem_of_singleton.
      destruct (normalize_prefix_spec a x m tr x' Ha Hp ltac:(fold path; lia) Hrun) as [[Hv ->]|(-> & Hv & ->)].
      + rewrite Hb. split; [intros []; auto|]. intros [Hx [|<-]]; [auto|]. exfalso. fold path e in Hv. rewrite firstn_all in Hv. congruence.
      + split; [auto|done]. }
  assert (Hnone : vw_attribute v e path = None \/ vw_attribute v e path = Some (attr_value a) \/ path = []).
  { destruct path as [|x rest] eqn:E; [by right; right|].
    destruct (HI (length (x :: rest))) as [_ H]; [apply elem_of_seq; cbn; lia|]. destruct H; auto. }
  assert (Hne : path <> []).
  { unfold Attribute_valid in Ha. intros E. fold path in Ha. rewrite E in Ha. cbn in Ha. by rewrite andb_false_r in Ha. }
  split; [done|]. split; [split; [|split]|].
  - intros p Hp [rest Hrest] Hx. fold path in Hrest, Hx.
    assert (Hlen : (length p < length path)%nat).
    { rewrite Hrest, length_app. destruct rest; [rewrite app_nil_r in Hrest; congruence|cbn; lia]. }
    destruct (HI (length p)) as [H _]; [apply elem_of_seq; destruct p; cbn in *; [done|lia]|].
    specialize (H Hlen). by rewrite Hrest, take_app_length in H.
  - intros rest Hr. destruct (vw_attribute v e (path ++ rest)) as [x|] eqn:Ex; [|done]. exfalso.
    assert (false = true); [|done]. apply Hdesc. exists rest. split; [done|]. fold path e. eauto.
  - naive_solver.
  - case_bool_decide as Hv.
    + destruct dup; [|done]. exfalso. destruct (proj1 Hdup eq_refl) as [H _]. congruence.
    + destruct dup; [done|]. exfalso. assert (false = true); [|done]. apply Hdup. naive_solver.
Qed.

(** Contextual facts are additive. When normalisation succeeds against a
    snapshot, every contextual attribute names a path the policy's guards
    read, and the snapshot holds nothing at any strict prefix or extension of
    that path and either nothing or the very same value at the path itself;
    the result keeps all tuples, and exactly the attributes that are new. A
    contextual value can therefore never override, shadow or be shadowed by a
    persistent one, even when reads fail or other requests interleave. *)
Lemma normalize_additive contextual tr d :
  serves snapshot v tr -> runs (NormalizeContextualData s snapshot contextual) tr (inl d) ->
  exists validated, NewContextualData (cd_tuples contextual) (cd_attributes contextual) = Ok validated /\
    (forall a, a ∈ cd_attributes validated ->
       validAttributePath s (attr_entity a) (attr_path a) = true /\ additive_over v a) /\
    cd_tuples d = cd_tuples validated /\
    cd_attributes d = filter (fun a => vw_attribute v (attr_entity a) (attr_path a) = None) (cd_attributes validated) /\
    canonical_context d.
Proof.
  intros Hs H. unfold NormalizeContextualData in H. run_step H tr1 validated Hv. apply runs_lift_inl in Hv as [-> Hv].
  run_step H tr2 additive Hl. apply runs_lift_inl in H as [-> H]. rewrite app_nil_r in Hs. cbn [app] in Hs.
  assert (Hc := NewContextualData_canonical _ _ _ Hv). exists validated. split; [done|].
  assert (HI : (forall a, a ∈ cd_attributes validated ->
       validAttributePath s (attr_entity a) (attr_path a) = true /\ additive_over v a) /\
     additive = filter (fun a => vw_attribute v (attr_entity a) (attr_path a) = None) (cd_attributes validated)).
  { refine (runs_ploop_inl (event_serves snapshot v) (fun before additive =>
      (forall a, a ∈ before -> validAttributePath s (attr_entity a) (attr_path a) = true /\ additive_over v a) /\
      additive = filter (fun a => vw_attribute v (attr_entity a) (attr_path a) = None) before)
      _ _ _ [] [] tr2 additive _ Hs Hl); [|split; [intros a Ha; by apply elem_of_nil in Ha|done]].
    intros before a x x' tr Ha [Hb ->] Hp Hrun.
    destruct (normalize_attribute_spec _ _ _ _ (cc_valid _ Hc a Ha) Hp Hrun) as (H1 & H2 & ->). split.
    - intros y [Hy|Hy]%elem_of_app; [by apply Hb|]. by apply list_elem_of_singleton in Hy as ->.
    - rewrite filter_app, filter_cons, filter_nil. case_bool_decide as E;
        [by rewrite decide_True|by rewrite decide_False, app_nil_r]. }
  destruct HI as [HI ->]. split; [done|]. assert (Hd := NewContextualData_canonical _ _ _ H).
  apply NewContextualData_id in H as ->; [done|].
  destruct Hc as [C1 C2 C3 C4 C5]. split; cbn; auto.
  - eapply sorted_sublist; [|exact C3]. apply sublist_filter.
  - eapply clash_free_sub; [|exact C4]. intros x. rewrite list_elem_of_filter. tauto.
  - intros a. rewrite list_elem_of_filter. intros [_ Ha]. auto.
Qed.
End Normalize.

(** * The merge of subjects *)

Lemma compareSubjects_ref x y : compareSubjects x y = compareSubjectRef x y.
Proof.
  unfold compareSubjects, compareSubjectRef. cbn [comparePairs].
  destruct (String.compare (sub_Type x) _), (String.compare (sub_ID x) _), (String.compare (sub_Relation x) _); done.
Qed.

Section Merge.
Context `{D : Dsl}.
Notation sorted := (StronglySorted (clt compareSubjectRef)).

Lemma appendSubject_sorted l x xs : sorted (l ++ x :: xs) -> appendSubject l x = l ++ [x].
Proof.
  intros H. unfold appendSubject. case_bool_decide as E; [|done]. exfalso.
  apply StronglySorted_app in H as (H & _ & _). apply (tc_lt_irrefl compareSubjectRef x).
  apply H; [by apply last_Some_elem_of|left].
Qed.

Lemma sorted_shift l x xs : sorted (l ++ x :: xs) -> sorted ((l ++ [x]) ++ xs).
Proof. by rewrite <- app_assoc. Qed.

(** Putting a smaller element in front of the rest of the other list. *)
Lemma sorted_before l x xs y ys :
  sorted (l ++ x :: xs) -> sorted (l ++ y :: ys) -> clt compareSubjectRef x y -> sorted ((l ++ [x]) ++ y :: ys).
Proof.
  intros (H1 & H2 & H3)%StronglySorted_app (K1 & K2 & K3)%StronglySorted_app Hlt. rewrite <- app_assoc.
  apply StronglySorted_app. split; [|split; [done|]].
  - intros a b Ha Hb. apply elem_of_app in Hb as [Hb|Hb]; [|by apply K1].
    apply list_elem_of_singleton in Hb as ->. apply H1; [done|left].
  - constructor; [done|]. inversion_clear K3 as [|? ? Ky Kf]. constructor; [done|].
    rewrite Forall_forall in Kf |- *. intros z Hz. exact (tc_trans compareSubjectRef _ _ _ Hlt (Kf z Hz)).
Qed.

Lemma sorted_skip l x ys : sorted (l ++ x :: ys) -> sorted ((l ++ [x]) ++ ys).
Proof. apply sorted_shift. Qed.

(** The loop ends within its fuel and merges the two lists. *)
Lemma merge_loop_spec fuel : forall index l xs ys tr r,
  (length xs + length ys < fuel)%nat -> sorted (l ++ xs) -> sorted (l ++ ys) ->
  runs (merge_loop fuel index l xs ys) tr (inl r) ->
  sorted r /\ forall x, x ∈ r <-> x ∈ l \/ x ∈ xs \/ x ∈ ys.
Proof.
  induction fuel as [|fuel IH]; intros index l xs ys tr r Hf Hx Hy H; [lia|]. cbn [merge_loop] in H.
  destruct xs as [|x xs], ys as [|y ys].
  - destruct H as [_ [= ->]]. rewrite app_nil_r in Hx. split; [done|]. intros z. rewrite elem_of_nil. naive_solver.
  - run_step H tr1 u Hu. rewrite (appendSubject_sorted l y ys) in H by done.
    apply IH in H as [H1 H2]; [|cbn in *; lia|rewrite app_nil_r; apply sorted_shift in Hy; by apply StronglySorted_app in Hy as (_ & ? & _)|by apply sorted_shift].
    split; [done|]. intros z. rewrite H2, elem_of_app, list_elem_of_singleton, elem_of_cons, elem_of_nil. tauto.
  - run_step H tr1 u Hu. rewrite (appendSubject_sorted l x xs) in H by done.
    apply IH in H as [H1 H2]; [|cbn in *; lia|by apply sorted_shift|rewrite app_nil_r; apply sorted_shift in Hx; by apply StronglySorted_app in Hx as (_ & ? & _)].
    split; [done|]. intros z. rewrite H2, elem_of_app, list_elem_of_singleton, elem_of_cons, elem_of_nil. tauto.
  - run_step H tr1 u Hu. rewrite compareSubjects_ref in H.
    revert H. destruct (tc_spec compareSubjectRef x y) as [->|Hlt|Hlt]; intros H.
    + rewrite (appendSubject_sorted l y xs) in H by done.
      apply IH in H as [H1 H2]; [|cbn in *; lia|by apply sorted_shift|by apply sorted_shift].
      split; [done|]. intros z. rewrite H2, elem_of_app, list_elem_of_singleton, !elem_of_cons. tauto.
    + rewrite (appendSubject_sorted l x xs) in H by done.
      apply IH in H as [H1 H2]; [|cbn in *; lia|by apply sorted_shift|by eapply sorted_before].
      split; [done|]. intros z. rewrite H2, elem_of_app, list_elem_of_singleton, !elem_of_cons. tauto.
    + rewrite (appendSubject_sorted l y ys) in H by done.
      apply IH in H as [H1 H2]; [|cbn in *; lia|by eapply sorted_before|by apply sorted_shift].
      split; [done|]. intros z. rewrite H2, elem_of_app, list_elem_of_singleton, !elem_of_cons. tauto.
Qed.
End Merge.

(** * Reading tuples *)

(** In one bucket, tuples are ordered by subject. *)
Lemma bucket_order t1 t2 :
  tup_Resource t1 = tup_Resource t2 -> tup_Relation t1 = tup_Relation t2 ->
  clt compareTuplePairs t1 t2 -> clt compareSubjectRef (tup_Subject t1) (tup_Subject t2).
Proof.
  unfold clt, compareTuplePairs, compareSubjectRef. intros -> ->. cbn [comparePairs].
  by rewrite !(tc_refl String.compare).
Qed.

Lemma bucket_sorted p (l : list RelationshipTuple) resource relation :
  (forall t, p t = true -> tup_Resource (rt_tuple t) = resource /\ tup_Relation (rt_tuple t) = relation) ->
  StronglySorted (clt compareTuplePairs) (rt_tuple <$> l) ->
  StronglySorted (clt compareSubjectRef) (map (fun t => tup_Subject (rt_tuple t)) (filter (fun t => p t = true) l)).
Proof.
  intros Hp. induction l as [|t l IH]; intros Hs; [constructor|]. inversion_clear Hs as [|? ? Hl Ht].
  rewrite filter_cons. case_decide as E; [|auto]. cbn [map]. constructor; [auto|]. apply Forall_forall.
  intros x (u & -> & Hu)%list_elem_of_fmap. apply list_elem_of_filter in Hu as [Hpu Hu].
  destruct (Hp t E) as [E1 E2]. destruct (Hp u Hpu) as [E3 E4]. apply bucket_order; [congruence..|].
  rewrite Forall_forall in Ht. apply Ht. apply list_elem_of_fmap. eauto.
Qed.

Lemma live_match_bucket readAt resource relation t :
  live_match readAt resource relation t = true ->
  tup_Resource (rt_tuple t) = resource /\ tup_Relation (rt_tuple t) = relation.
Proof.
  unfold live_match. destruct (_ || _) eqn:E; [done|]. intros _.
  apply orb_false_iff in E as [E1%bool_decide_eq_false E2%bool_decide_eq_false].
  split; by apply dec_stable.
Qed.

Lemma combine_snd {A B} (l : list A) (k : list B) : length l = length k -> map snd (combine l k) = k.
Proof. revert k. induction l as [|x l IH]; intros [|y k]; cbn; [done..|]. intros [= H]. by rewrite IH. Qed.

Section Reader.
Context `{D : Dsl} (r : SnapshotReader) (v : View).

Lemma contextual_subjects_spec resource relation tr subjects :
  runs (ploop (contextual_subject r resource relation) [] (combine (seq 0 (length (rd_tuples r))) (rd_tuples r))) tr (inl subjects) ->
  subjects = map (fun t => tup_Subject (rt_tuple t))
    (filter (fun t => live_match (snp_readAt (rd_snapshot r)) resource relation t = true) (rd_tuples r)).
Proof.
  intros H. rewrite <- (combine_snd (seq 0 (length (rd_tuples r))) (rd_tuples r)) at 1 by apply length_seq.
  refine (runs_ploop_inl (fun _ => True) (fun before subjects => subjects = map (fun t => tup_Subject (rt_tuple t))
    (filter (fun t => live_match (snp_readAt (rd_snapshot r)) resource relation t = true) (map snd before)))
    _ _ _ [] [] tr subjects _ _ H); [|done|by apply Forall_true].
  intros before x s s' tr' _ -> _ Hrun. unfold contextual_subject in Hrun. run_step Hrun tr1 u Hu.
  destruct Hrun as [_ [= ->]]. rewrite map_app, filter_app, map_app. cbn [map]. rewrite filter_cons, filter_nil.
  destruct (live_match _ resource relation x.2) eqn:E.
  - by rewrite decide_True.
  - rewrite decide_False by done. cbn. by rewrite app_nil_r.
Qed.

(** The evaluator sees the union. Whatever the context does, when a tuple
    read succeeds it returns, in strictly increasing order and without
    repetition, exactly the subjects that the pinned snapshot holds for the
    resource and relation together with the unexpired contextual ones. *)
Lemma ReadTuples_exact resource relation tr subjects :
  canonical_context (mkContextualData (rd_tuples r) (rd_attributes r)) ->
  (forall e rel, StronglySorted (clt compareSubjectRef) (vw_subjects v e rel)) ->
  serves (rd_snapshot r) v tr -> runs (ReadTuples r resource relation) tr (inl subjects) ->
  StronglySorted (clt compareSubjectRef) subjects /\
  forall x, x ∈ subjects <->
    x ∈ vw_subjects v resource relation \/
    exists t, t ∈ rd_tuples r /\ rt_tuple t = mkTuple resource relation x /\
      (rt_hasExpiry t = true -> snp_readAt (rd_snapshot r) < rt_expiresAt t).
Proof.
  intros Hc Hv Hs H. unfold ReadTuples in H.
  run_step H tr1 u Hu. clear Hu. destruct (NewTupleQuery _ _ _) as [query|] eqn:Eq; [|by destruct H].
  assert (Hq : tq_resource query = resource /\ tq_relation query = relation).
  { unfold NewTupleQuery in Eq. destruct (_ <=? 0); [done|]. destruct (_ <? _); [done|].
    apply rbind_ok in Eq as (? & _ & [= <-]). done. }
  run_step H tr2 contextual Hctx. run_step H tr3 u2 Hu. clear Hu. run_step H tr4 res Hres.
  run_step H tr5 u3 Hu. clear Hu. destruct (_ <? zlen (tr_subjects res)); [by destruct H|].
  run_step H tr6 canonical Hcan. destruct (_ <? zlen canonical); [by destruct H|]. run_step H tr7 u4 Hu. clear Hu.
  destruct H as [_ [= ->]]. apply contextual_subjects_spec in Hctx.
  apply runs_call in Hres as ->. unfold serves in Hs. rewrite !Forall_app in Hs. destruct Hs as (_ & _ & _ & Hres & _).
  apply Forall_cons in Hres as [Hres _]. specialize (Hres eq_refl). destruct Hq as [E1 E2]. rewrite E1, E2 in Hres.
  unfold canonicalSubjects in Hcan. run_step Hcan tr8 merged Hm. run_step Hcan tr9 u5 Hu. clear Hu.
  destruct Hcan as [_ [= ->]]. apply merge_loop_spec in Hm as [M1 M2]; [|lia| |rewrite Hres; apply Hv].
  2:{ cbn [app]. rewrite Hctx. apply (bucket_sorted _ _ resource relation); [apply live_match_bucket|].
    apply (canonical_keys_sorted compareRelationshipTuple compareTuplePairs tuple_conflict rt_tuple
      compareRelationshipTuple_mono); [apply _|apply Hc..]. }
  split; [done|]. intros x. rewrite M2, Hres, Hctx, elem_of_nil. setoid_rewrite list_elem_of_fmap.
  setoid_rewrite list_elem_of_filter. unfold live_match. split.
  - intros [[]|[(t & -> & Ht & Hin)|]]; [right|by left]. exists t. destruct (_ || _) eqn:E; [done|].
    apply orb_false_iff in E as [E3%bool_decide_eq_false E4%bool_decide_eq_false].
    apply dec_stable in E3, E4. split; [done|]. split; [destruct (rt_tuple t); cbn in *; congruence|].
    intros Hx. rewrite Hx in Ht. cbn in Ht. destruct (Z.ltb_spec (snp_readAt (rd_snapshot r)) (rt_expiresAt t)); [done|done].
  - intros [|(t & Hin & Ht & Hx)]; [by right; right|right; left]. exists t. rewrite Ht. cbn. split; [done|].
    split; [|done]. rewrite !bool_decide_false by auto. cbn. destruct (rt_hasExpiry t); [|done].
    cbn. specialize (Hx eq_refl). by apply Z.ltb_lt in Hx as ->.
Qed.

(** ** Attributes *)

(** The contextual value at a path, and the contextual attributes above or
    below it. *)
Definition contextual_value (l : list Attribute) (e : EntityRef) (p : list string) : option Value :=
  attr_value <$> last (filter (fun a => attr_entity a = e /\ attr_path a = p) l).
Definition contextual_conflict (l : list Attribute) (e : EntityRef) (p : list string) : Prop :=
  exists a, a ∈ l /\ attr_entity a = e /\ attr_path a <> p /\ (attr_path a `prefix_of` p \/ p `prefix_of` attr_path a).

Lemma pathPrefix_spec p q : pathPrefix p q = true <-> p `prefix_of` q /\ p <> q.
Proof.
  unfold pathPrefix. destruct (Nat.leb_spec (length q) (length p)).
  - split; [done|]. intros [Hp Hne]. exfalso. apply Hne. apply prefix_same_length; [done|].
    apply prefix_length in Hp. lia.
  - rewrite prefixb_spec. split; [|by intros []]. intros Hp. split; [done|]. intros ->. lia.
Qed.

Lemma scan_attributes_spec e p tr found :
  runs (ploop (scan_attribute e p) (None, false) (combine (seq 0 (length (rd_attributes r))) (rd_attributes r))) tr (inl found) ->
  found.1 = contextual_value (rd_attributes r) e p /\
  (found.2 = true <-> contextual_conflict (rd_attributes r) e p).
Proof.
  intros H. rewrite <- (combine_snd (seq 0 (length (rd_attributes r))) (rd_attributes r)) at 1 2 by apply length_seq.
  refine (runs_ploop_inl (fun _ => True) (fun before found =>
    found.1 = contextual_value (map snd before) e p /\ (found.2 = true <-> contextual_conflict (map snd before) e p))
    _ _ _ [] (None, false) tr found _ _ H); [| |by apply Forall_true].
  2:{ split; [done|]. split; [done|]. intros (a & Ha & _). by apply elem_of_nil in Ha. }
  intros before x s s' tr' _ [Hb1 Hb2] _ Hrun. unfold scan_attribute in Hrun. run_step Hrun tr1 u Hu.
  destruct Hrun as [_ [= ->]]. destruct x as [i a]. rewrite map_app. cbn [map snd].
  assert (Hcv : contextual_value (map snd before ++ [a]) e p =
    if decide (attr_entity a = e /\ attr_path a = p) then Some (attr_value a) else contextual_value (map snd before) e p).
  { unfold contextual_value. rewrite filter_app, filter_cons, filter_nil. case_decide; [by rewrite last_snoc|].
    by rewrite app_nil_r. }
  assert (Hcc : contextual_conflict (map snd before ++ [a]) e p <->
    contextual_conflict (map snd before) e p \/
    (attr_entity a = e /\ attr_path a <> p /\ (attr_path a `prefix_of` p \/ p `prefix_of` attr_path a))).
  { unfold contextual_conflict. setoid_rewrite elem_of_app. setoid_rewrite list_elem_of_singleton. split.
    - intros (y & [Hy| ->] & Hrest); [left; eauto|by right].
    - intros [(y & Hy & Hrest)|Hrest]; eauto. }
  rewrite Hcv, Hcc. case_bool_decide as Ee.
  { rewrite decide_False by tauto. split; [done|]. rewrite Hb2. tauto. }
  case_bool_decide as Ep.
  { rewrite decide_True by done. split; [done|]. cbn [snd]. rewrite Hb2. tauto. }
  rewrite decide_False by tauto.
  destruct (pathPrefix (attr_path a) p || pathPrefix p (attr_path a)) eqn:Ex.
  - cbn [fst snd]. split; [done|]. split; [|done]. intros _. right.
    rewrite orb_true_iff, !pathPrefix_spec in Ex. tauto.
  - split; [done|]. rewrite Hb2. split; [by left|]. intros [|(_ & _ & Hx)]; [done|]. exfalso.
    apply orb_false_iff in Ex as [E1 E2]. rewrite <- not_true_iff_false, pathPrefix_spec in E1, E2.
    destruct Hx; naive_solver.
Qed.

Lemma reject_ancestors_spec e p tr :
  serves (rd_snapshot r) v tr ->
  runs (ploop (reject_ancestor r e p) tt (seq 1 (length p - 1))) tr (inl tt) ->
  forall q, q <> [] -> q `prefix_of` p -> q <> p -> vw_attribute v e q = None.
Proof.
  intros Hs H q Hq [rest Hrest] Hne.
  assert (Hlen : (0 < length q < length p)%nat).
  { rewrite Hrest, length_app. destruct rest; [rewrite app_nil_r in Hrest; congruence|].
    destruct q; [done|]. cbn. lia. }
  assert (HI : forall n, n ∈ seq 1 (length p - 1) -> vw_attribute v e (take n p) = None).
  { refine (runs_ploop_inl (event_serves (rd_snapshot r) v)
      (fun before _ => forall n, n ∈ before -> vw_attribute v e (take n p) = None) _ _ _ [] tt tr tt _ Hs H).
    2:{ intros n Hn. by apply elem_of_nil in Hn. }
    intros before n u u' tr' _ Hb Hp Hrun m [Hm|Hm]%elem_of_app; [auto|]. apply list_elem_of_singleton in Hm as ->.
    unfold reject_ancestor in Hrun. run_step Hrun tr1 u1 Hu. clear Hu.
    destruct (NewAttributeKeyPath e (take n p)) as [key|] eqn:Ek; [|by destruct Hrun].
    apply NewAttributeKeyPath_key in Ek as ->. run_step Hrun tr2 res Hres.
    apply Forall_app in Hp as [_ Hp]. apply Forall_app in Hp as [Hp _].
    assert (Hval := read_attribute _ _ _ _ _ Hp Hres). cbn [ak_entity ak_path] in Hval. rewrite Hval.
    destruct (negb _ || negb _); [by destruct Hrun|]. destruct (are_found res); [by destruct Hrun|done]. }
  specialize (HI (length q)). rewrite Hrest, take_app_length in HI. apply HI. apply elem_of_seq. rewrite <- Hrest. lia.
Qed.

(** Attribute reads see the merged facts. When a resource attribute
    resolves, a contextual value at the path is returned only if the snapshot
    holds nothing or the same value there and nothing above or below; without
    one the answer is the snapshot's own, and then no contextual attribute
    lies above or below it. *)
Lemma ResolveAttribute_exact e p tr found :
  serves (rd_snapshot r) v tr -> runs (ResolveAttribute r e p) tr (inl found) ->
  match contextual_value (rd_attributes r) e p with
  | Some c =>
      (vw_attribute v e p = None \/ vw_attribute v e p = Some c) /\
      (forall rest, rest <> [] -> vw_attribute v e (p ++ rest) = None) /\
      (forall q, q <> [] -> q `prefix_of` p -> q <> p -> vw_attribute v e q = None) /\
      exists x, resolveValue c = Ok x /\ found = Some x
  | None =>
      match vw_attribute v e p with
      | None => found = None
      | Some c => ~ contextual_conflict (rd_attributes r) e p /\ exists x, resolveValue c = Ok x /\ found = Some x
      end
  end.
Proof.
  intros Hs H. unfold ResolveAttribute in H. run_step H tr1 u Hu. clear Hu.
  destruct (NewAttributeKeyPath e p) as [key|] eqn:Ek; [|by destruct H]. apply NewAttributeKeyPath_key in Ek as ->.
  run_step H tr2 scan Hscan. apply scan_attributes_spec in Hscan as [Hval Hconf]. run_step H tr3 u1 Hu. clear Hu.
  run_step H tr4 res Hres. unfold serves in Hs. rewrite !Forall_app in Hs. destruct Hs as (_ & _ & _ & Hs & Hs').
  assert (Hv := read_attribute _ _ _ _ _ Hs Hres). cbn [ak_entity ak_path] in Hv. rewrite Hv.
  destruct (negb _ || negb _); [by destruct H|].
  destruct (are_found res && scan.2) eqn:Ec; [by destruct H|].
  rewrite <- Hval. destruct (scan.1) as [c|].
  - destruct (are_found res && bool_decide (c <> are_value res)) eqn:Ed; [by destruct H|]. run_step H tr5 u2 Hrej. run_step H tr6 x Hx.
    apply runs_lift_inl in Hx as [-> Hx]. destruct H as [_ [= ->]].
    unfold rejectPersistentPathConflict in Hrej. run_step Hrej tr7 desc Hdesc. apply Forall_app in Hs' as [Hs' _].
    apply Forall_app in Hs' as [Hs7 Hs']. apply runs_call in Hdesc as ->. apply Forall_cons in Hs7 as [Hd _].
    specialize (Hd eq_refl). cbn [ak_entity ak_path] in Hd. destruct desc; [by destruct Hrej|].
    run_step Hrej tr8 u3 Hanc. destruct u3. apply Forall_app in Hs' as [Hs' _].
    split; [|split; [|split; [|by exists x]]].
    + destruct (are_found res); [|by left]. right. cbn in Ed. apply bool_decide_eq_false in Ed. apply dec_stable in Ed.
      by rewrite Ed.
    + intros rest Hr. destruct (vw_attribute v e (p ++ rest)) eqn:E; [|done]. exfalso. assert (false = true); [|done].
      apply Hd. exists rest. eauto.
    + by apply reject_ancestors_spec with tr8.
  - destruct (are_found res); cbn [negb] in H; [|by destruct H as [_ [= ->]]].
    run_step H tr5 x Hx. apply runs_lift_inl in Hx as [-> Hx]. destruct H as [_ [= ->]]. split; [|by exists x].
    rewrite <- Hconf. cbn in Ec. by rewrite Ec.
Qed.
End Reader.
