(* ===== verification/AppFingerprint.v ===== *)
(** Request fingerprints (internal/app/check.go, batch.go).

    The byte streams that the services hash: of a check, of a batch, of the
    effective contextual facts and of one item of an approval. Expiry times
    enter as [time.RFC3339Nano] text. *)

From Stdlib Require Import ZArith Lia.
From stdpp Require Import base list gmap strings sorting.
From S2P Require Import Prelude Limits Text Types Cost Canon Data Policy Requests Revisions Fingerprint Evidence.

(** * time.Time.UTC().Format(time.RFC3339Nano) *)

(** The proleptic Gregorian date of a day counted from 0001-01-01. Years are
    counted from March, so that the leap day comes last. *)
Definition days_to_date (days : Z) : Z * Z * Z :=
  let d := days + 306 in
  let era := d / 146097 in
  let doe := d mod 146097 in
  let yoe := (doe - doe / 1460 + doe / 36524 - doe / 146096) / 365 in
  let doy := doe - (365 * yoe + yoe / 4 - yoe / 100) in
  let mp := (5 * doy + 2) / 153 in
  let day := doy - (153 * mp + 2) / 5 + 1 in
  let month := if mp <? 10 then mp + 3 else mp - 9 in
  (yoe + 400 * era + (if month <=? 2 then 1 else 0), month, day).

(** Decimal digits of a non-negative number as bytes, padded with zeros. *)
Fixpoint decimal (fuel : nat) (n : Z) : list Z :=
  match fuel with
  | O => []
  | S fuel => if n <? 10 then [48 + n] else decimal fuel (n / 10) ++ [48 + n mod 10]
  end.
Definition pad_int (width : nat) (n : Z) : list Z :=
  let digits := decimal 25 n in replicate (width - length digits) 48 ++ digits.
Definition append_int (width : nat) (n : Z) : list Z :=
  if n <? 0 then 45 :: pad_int width (- n) else pad_int width n.

(** ".999999999": the nine digits without trailing zeros, nothing for zero. *)
Fixpoint trim_zeros (digits : list Z) : list Z :=
  match digits with
  | [] => []
  | d :: rest => match trim_zeros rest with [] => if d =? 48 then [] else [d] | r => d :: r end
  end.
Definition fraction (nanoseconds : Z) : list Z :=
  match trim_zeros (pad_int 9 nanoseconds) with [] => [] | digits => 46 :: digits end.

Definition rfc3339_bytes (t : Time) : list Z :=
  let seconds := t / Second in
  let '(year, month, day) := days_to_date (seconds / 86400) in
  let rest := seconds mod 86400 in
  append_int 4 year ++ [45] ++ append_int 2 month ++ [45] ++ append_int 2 day ++ [84]
  ++ append_int 2 (rest / 3600) ++ [58] ++ append_int 2 (rest / 60 mod 60) ++ [58] ++ append_int 2 (rest mod 60)
  ++ fraction (t mod Second) ++ [90].
Definition RFC3339Nano (t : Time) : string := string_of_bytes (rfc3339_bytes t).

Example rfc3339_zero : RFC3339Nano 0 = "0001-01-01T00:00:00Z"%string.
Proof. by vm_compute. Qed.
Example rfc3339_reference : RFC3339Nano (63271836245 * Second + 120000000) = "2006-01-02T22:04:05.12Z"%string.
Proof. by vm_compute. Qed.

(** * Streams *)

Definition writeFingerprintString (value : string) : list Z := writeUint64 (len value) ++ bytes_of_string value.
Definition writeFingerprintUint64 (value : Z) : list Z := writeUint64 value.
Definition writeEntityFingerprint (entity : EntityRef) : list Z :=
  writeFingerprintString (ent_Type entity) ++ writeFingerprintString (ent_ID entity).

Definition writeValueFingerprint (value : Value) : list Z :=
  [val_kind value] ++
  (if val_kind value =? ValueKindString then writeFingerprintString (val_text value)
   else if val_kind value =? ValueKindInteger then writeUint64 (val_integer value mod 2 ^ 64)
   else if val_kind value =? ValueKindBoolean then [if val_boolean value then 1 else 0]
   else []).

(** The keys in sorted order. *)
Definition writeArgumentsFingerprint (arguments : gmap string Value) : list Z :=
  flat_map (fun key => writeFingerprintString key ++
                       match arguments !! key with Some v => writeValueFingerprint v | None => [] end)
    (sort_by String.compare (map fst (map_to_list arguments))).

Definition writeTupleFingerprint (t : RelationshipTuple) : list Z :=
  writeEntityFingerprint (tup_Resource (rt_tuple t)) ++ writeFingerprintString (tup_Relation (rt_tuple t))
  ++ writeFingerprintString (sub_Type (tup_Subject (rt_tuple t)))
  ++ writeFingerprintString (sub_ID (tup_Subject (rt_tuple t)))
  ++ writeFingerprintString (sub_Relation (tup_Subject (rt_tuple t)))
  ++ writeFingerprintString (if rt_hasExpiry t then RFC3339Nano (rt_expiresAt t) else ""%string).

Definition writeContextualFingerprint (contextual : ContextualData) : list Z :=
  flat_map writeTupleFingerprint (cd_tuples contextual)
  ++ flat_map (fun a => writeEntityFingerprint (attr_entity a) ++ flat_map writeFingerprintString (attr_path a)
                        ++ writeValueFingerprint (attr_value a)) (cd_attributes contextual).

Definition writeSelectorFingerprint (selector : Selector) : list Z :=
  let '(slot, is_slot) := Selector_Slot selector in
  if is_slot then writeFingerprintString "slot" ++ writeFingerprintString slot
  else
    let '(revision, exact) := ExactRevision selector in
    if exact then writeFingerprintString "revision" ++ writeFingerprintString revision else [].

Definition check_preimage (request : CheckRequest) : list Z :=
  writeFingerprintString (ck_namespace request) ++ writeSelectorFingerprint (ck_selector request)
  ++ writeEntityFingerprint (ck_subject request) ++ writeEntityFingerprint (ck_resource request)
  ++ writeFingerprintString (ck_action request) ++ writeArgumentsFingerprint (ck_arguments request)
  ++ writeUint64 (ck_minimumGeneration request) ++ writeContextualFingerprint (ck_contextualData request).

Definition writeItemFingerprint (item : BatchCheckItem) : list Z :=
  writeEntityFingerprint (bi_subject item) ++ writeEntityFingerprint (bi_resource item)
  ++ writeFingerprintString (bi_action item) ++ writeUint64 (Z.of_nat (base.size (bi_arguments item)))
  ++ writeArgumentsFingerprint (bi_arguments item).

Definition batch_preimage (request : BatchCheckRequest) : list Z :=
  writeFingerprintString (bc_namespace request) ++ writeSelectorFingerprint (bc_selector request)
  ++ writeUint64 (zlen (bc_items request)) ++ flat_map writeItemFingerprint (bc_items request)
  ++ writeUint64 (bc_minimumGeneration request)
  ++ writeUint64 (zlen (cd_tuples (bc_contextualData request)))
  ++ writeUint64 (zlen (cd_attributes (bc_contextualData request)))
  ++ writeContextualFingerprint (bc_contextualData request).

Definition writeAttributeFingerprint (a : Attribute) : list Z :=
  writeEntityFingerprint (attr_entity a) ++ writeFingerprintUint64 (zlen (attr_path a))
  ++ flat_map writeFingerprintString (attr_path a) ++ writeValueFingerprint (attr_value a).

Definition effective_preimage (contextual : ContextualData) : list Z :=
  bytes_of_string "cadrena.approval.effective-context.v1"
  ++ writeFingerprintUint64 (zlen (cd_tuples contextual)) ++ flat_map writeTupleFingerprint (cd_tuples contextual)
  ++ writeFingerprintUint64 (zlen (cd_attributes contextual))
  ++ flat_map writeAttributeFingerprint (cd_attributes contextual).

Definition approval_item_preimage (subject resource : EntityRef) (action : string) (arguments : gmap string Value)
  (effectiveContextFingerprint : list Z) (usedDelegation : bool) : list Z :=
  bytes_of_string "cadrena.approval.item.v1"
  ++ writeEntityFingerprint subject ++ writeEntityFingerprint resource ++ writeFingerprintString action
  ++ writeFingerprintUint64 (Z.of_nat (base.size arguments)) ++ writeArgumentsFingerprint arguments
  ++ effectiveContextFingerprint ++ [if usedDelegation then 1 else 0].

Section Digests.
Context `{D : Dsl}.
Definition checkFingerprint (request : CheckRequest) : list Z := sha256_Sum256 (check_preimage request).
Definition batchFingerprint (request : BatchCheckRequest) : list Z := sha256_Sum256 (batch_preimage request).
Definition fingerprintEffectiveContext (contextual : ContextualData) : list Z :=
  sha256_Sum256 (effective_preimage contextual).
Definition approvalItemFingerprint (subject resource : EntityRef) (action : string) (arguments : gmap string Value)
  (effectiveContextFingerprint : list Z) (usedDelegation : bool) : list Z :=
  sha256_Sum256 (approval_item_preimage subject resource action arguments effectiveContextFingerprint usedDelegation).
End Digests.

(** The size of verifier facts (batch.go). *)
Definition contextualDataVerifierBytes (contextual : ContextualData) : Z :=
  let textBytes := fun value => 8 + len value in
  let tuple_bytes := fun t =>
    textBytes (ent_Type (tup_Resource (rt_tuple t))) + textBytes (ent_ID (tup_Resource (rt_tuple t)))
    + textBytes (tup_Relation (rt_tuple t)) + textBytes (sub_Type (tup_Subject (rt_tuple t)))
    + textBytes (sub_ID (tup_Subject (rt_tuple t))) + textBytes (sub_Relation (tup_Subject (rt_tuple t)))
    + (8 + 1) + (if rt_hasExpiry t then 8 + 40 else 0) in
  let attribute_bytes := fun a =>
    textBytes (ent_Type (attr_entity a)) + textBytes (ent_ID (attr_entity a)) + 8
    + fold_right (fun s n => textBytes s + n) 0 (attr_path a) + 9
    + (if val_kind (attr_value a) =? ValueKindString then len (val_text (attr_value a)) else 0) in
  2 * 8 + fold_right (fun t n => tuple_bytes t + n) 0 (cd_tuples contextual)
  + fold_right (fun a n => attribute_bytes a + n) 0 (cd_attributes contextual).
