(* ===== verification/Session.v ===== *)
(** Evaluation sessions (internal/app: resolve.go, check.go, batch.go,
    explain.go, resource_attributes.go).

    A session pins one revision, one data generation and one instant, admits
    the request's facts against them, and answers every item of the request
    from that pin. The DSL's compiled program is a parameter: an [evaluation]
    that may poll the context and read relations, in any number and order,
    before it answers. *)

From Stdlib Require Import ZArith Lia.
From stdpp Require Import base list gmap strings sorting.
From S2P Require Import Prelude Limits Text Types Invocation Cost Canon Data Policy Caller Requests Revisions Domain Fingerprint Evidence Extensions PointerCache RevisionCache StoreData Runtime Evaluator AppFingerprint.

(** * The compiled program (package github.com/cadrena/dsl) *)

(** [map[string]any] with nested maps, as resource attributes are handed over. *)
Inductive any_tree := AnyLeaf (v : any_value) | AnyMap (children : list (string * any_tree)).

Record DslRequest := mkDslRequest {
  dq_Subject : EntityRef; dq_Resource : EntityRef; dq_Action : string;
  dq_Arguments : gmap string any_value; dq_ResourceAttributes : list (string * any_tree) }.

Inductive DslDecision := DslDeny | DslAllow | DslRequireApproval | DslOther.
Record TraceStep := mkTraceStep {
  ts_Resource : EntityRef; ts_Declaration : string; ts_Kind : string; ts_Matched : bool }.
Record DslResult := mkDslResult {
  ds_Decision : DslDecision; ds_Reason : string; ds_RequiredApprovals : list string; ds_Trace : list TraceStep }.

(** A [*dsl.CheckError] with its code and cause, or any other error. *)
Inductive EvaluationError := CheckError (code : string) (cause : option GoError) | OtherError (e : GoError).

(** [Program.Check]: it reaches the engine only through the context and the
    tuple reader. *)
Inductive evaluation :=
  | Evaluated (r : DslResult + EvaluationError)
  | PollsContext (k : ctx_answer -> evaluation)
  | ReadsTuples (resource : EntityRef) (relation : string) (k : list SubjectRef + GoError -> evaluation).

Class DslEval `{D : Dsl} := {
  CompileArtifact : string -> list Z -> option Artifact;
  hasProgram : Artifact -> bool;                       (* [Artifact.Program() != nil] *)
  Program_Check : Artifact -> DslRequest -> evaluation;
  EvaluatorABIV1 : string
}.

(** * Work budgets (batch.go) *)

Record batchWorkBudget := mkWork { wb_items : Z; wb_bytes : Z; wb_maxItems : Z; wb_maxBytes : Z }.

(** [None] is a nil budget. *)
Definition work_add (b : option batchWorkBudget) (items bytes : Z) : result (option batchWorkBudget) :=
  match b with
  | None => Ok None
  | Some b =>
      if (items <? 0) || (bytes <? 0) || (wb_maxItems b - wb_items b <? items) || (wb_maxBytes b - wb_bytes b <? bytes)
      then Err ErrorResourceExhausted
      else Ok (Some (mkWork (wb_items b + items) (wb_bytes b + bytes) (wb_maxItems b) (wb_maxBytes b)))
  end.

(** The budgets of a session: one object each, shared by all its items. *)
Record budgets := mkBudgets {
  bg_attribute : option batchWorkBudget; bg_verifier : option batchWorkBudget; bg_graph : option batchWorkBudget }.

Definition new_verifier_budget : batchWorkBudget := mkWork 0 0 MaxVerifierOutputItems MaxVerifierOutputBytes.
Definition new_attribute_budget : batchWorkBudget := mkWork 0 0 MaxAggregateWorkItems MaxAggregateInputBytes.
Definition new_graph_budget : batchWorkBudget := mkWork 0 0 MaxAggregateWorkItems 0.

(** * Resource attributes (resource_attributes.go) *)

Fixpoint insertResourceAttribute (root : list (string * any_tree)) (path : list string) (value : any_value)
  : result (list (string * any_tree)) :=
  match path with
  | [] => Err ErrorIntegrity
  | part :: rest =>
      match rest with
      | [] => match child part root with
              | Some _ => Err ErrorIntegrity
              | None => Ok (set_child part (AnyLeaf value) root)
              end
      | _ => match child part root with
             | None => let? next := insertResourceAttribute [] rest value in Ok (set_child part (AnyMap next) root)
             | Some (AnyMap next) =>
                 let? next := insertResourceAttribute next rest value in Ok (set_child part (AnyMap next) root)
             | Some (AnyLeaf _) => Err ErrorIntegrity
             end
      end
  end.

Definition path_size (path : list string) : Z :=
  8 * zlen path + fold_right (fun part n => len part + n) 0 path.
Definition any_size (v : any_value) : Z := 8 + match v with AnyString text => len text | _ => 0 end.

(** * The session (batch.go) *)

(** [sharedEvaluationRequest] *)
Record shared_request := mkShared {
  sh_namespace : string; sh_selector : Selector; sh_contextualData : ContextualData;
  sh_approvalEvidence : list Z; sh_delegationEvidence : list Z; sh_minimumGeneration : Z }.
Definition check_shared (r : CheckRequest) : shared_request :=
  mkShared (ck_namespace r) (ck_selector r) (ck_contextualData r) (ck_approvalEvidence r)
    (ck_delegationEvidence r) (ck_minimumGeneration r).
Definition batch_shared (r : BatchCheckRequest) : shared_request :=
  mkShared (bc_namespace r) (bc_selector r) (bc_contextualData r) (bc_approvalEvidence r)
    (bc_delegationEvidence r) (bc_minimumGeneration r).

Record resolvedRevision := mkResolved { rv_namespace : string; rv_revisionID : string; rv_slotGeneration : Z }.

Section Session.
Context `{D : Dsl} `{DS : !DslSchema} `{DE : !DslEval}.

(** The program is that of the artifact, [close] is the snapshot's, and the
    budgets are passed along. *)
Record evaluationSession := mkSession {
  ss_revisionID : string; ss_slotGeneration : Z; ss_dataGeneration : Z; ss_evaluatedAt : Time;
  ss_artifact : Artifact; ss_reader : SnapshotReader; ss_schema : DataSchema; ss_binding : EvidenceBinding;
  ss_effectiveContextFingerprint : list Z; ss_usedContextualData : bool; ss_usedDelegation : bool;
  ss_approvalEvidence : list Z; ss_batch : bool }.

(** ** The pin (resolve.go, check.go) *)

Definition resolveRevision (request : shared_request) : prog (resolvedRevision + GoError) :=
  let '(revisionID, exact) := ExactRevision (sh_selector request) in
  if (exact : bool) then Ret (inl (mkResolved (sh_namespace request) revisionID 0))
  else
    let '(slot, ok) := Selector_Slot (sh_selector request) in
    if negb ok then fail (appError ErrorInvalidArgument)
    else
      let! resolveRequest := lift (NewResolveRequest (sh_namespace request) slot) in
      let! response := sanitized (call (OResolve resolveRequest)) ErrorUnavailable in
      let activation := rsr_activation response in
      if bool_decide (act_namespace activation <> sh_namespace request) || bool_decide (act_slot activation <> slot)
         || bool_decide (act_revisionID activation = ""%string) || (act_generation activation =? 0)
      then fail (appError ErrorIntegrity)
      else
        let pin := mkResolved (sh_namespace request) (act_revisionID activation) (act_generation activation) in
        match NewSlotKey (sh_namespace request) slot, NewSlotPointer (act_revisionID activation) (act_generation activation) with
        | inl key, inl pointer => pbind (call (OUpdateCommitted key pointer)) (fun _ => Ret (inl pin))
        | _, _ => Ret (inl pin)
        end.

(** The loader given to the revision cache; it runs on the cache's goroutine. *)
Definition revision_loader (pin : resolvedRevision) : prog (Artifact + GoError) :=
  let! request := lift (NewGetRevisionRequest (rv_namespace pin) (rv_revisionID pin)) in
  let! record := call (OGetRevision request) in
  let metadata := rw_metadata record in
  if negb (RevisionRecord_Valid record) || bool_decide (rm_namespace metadata <> rv_namespace pin)
     || bool_decide (RevisionMetadata_ID metadata <> rv_revisionID pin)
  then fail (appError ErrorIntegrity)
  else match DecodeArtifact (rw_artifact record) with
  | None => fail (appError ErrorIntegrity)
  | Some artifact => Ret (inl artifact)
  end.

(** The [error] value of a failed [GetOrLoad]. *)
Definition cache_error (e : RevisionError) : GoError :=
  match e with
  | errContext a => default ForeignError (context_error a)
  | errLoader e => e
  | _ => ForeignError
  end.

Definition load_revision (pin : resolvedRevision) : prog (Artifact + GoError) :=
  match NewRevisionKey (rv_namespace pin) (rv_revisionID pin) EvaluatorABIV1 with
  | None => fail (appError ErrorInternal)
  | Some key =>
      pbind (call (OGetOrLoad key)) (fun r =>
        match r with
        | inr e => fail (sanitizeRuntimeError (cache_error e) ErrorInternal)
        | inl value =>
            match hr_artifact value with
            | Some artifact => if hasProgram artifact then Ret (inl artifact) else fail (appError ErrorIntegrity)
            | None => fail (appError ErrorIntegrity)
            end
        end)
  end.

(** [OClock] answers [None] for a panic. *)
Definition evaluationTime : prog (Time + GoError) :=
  pbind (call OClock) (fun r =>
    match r with
    | None => fail (appError ErrorInternal)
    | Some value => if IsZero value then fail (appError ErrorInternal) else Ret (inl value)
    end).

Definition openExactSnapshot (request : shared_request) (readAt : Time) : prog (Snapshot + GoError) :=
  let! headRequest := lift (NewGetDataGenerationRequest (sh_namespace request)) in
  let! head := sanitized (call (OGetDataGeneration headRequest)) ErrorUnavailable in
  if negb (gdr_validResponse head) then fail (appError ErrorIntegrity)
  else
    let minimum := if sh_minimumGeneration request <? gdr_generation head then gdr_generation head
                   else sh_minimumGeneration request in
    let! snapshotRequest := lift (NewSnapshotRequest (sh_namespace request) minimum readAt) in
    let! opened := sanitized (call (OOpenSnapshot snapshotRequest)) ErrorUnavailable in
    match (opened : option Snapshot) with
    | None => fail (appError ErrorFailedPrecondition)
    | Some snapshot =>
        if bool_decide (snp_namespace snapshot <> sh_namespace request) || negb ((snp_readAt snapshot =? readAt) && snp_sameStruct snapshot)
           || negb (snp_generation snapshot =? gdr_generation head)
           || (snp_generation snapshot <? sh_minimumGeneration request)
        then pbind (call (OClose snapshot)) (fun _ => fail (appError ErrorFailedPrecondition))
        else Ret (inl snapshot)
    end.

(** ** Opening (batch.go) *)

(** The closure [fail]: an error closes the snapshot first. *)
Definition closing {A} (snapshot : Snapshot) (p : prog (A + GoError)) : prog (A + GoError) :=
  pbind p (fun r =>
    match r with
    | inl a => Ret (inl a)
    | inr e => pbind (call (OClose snapshot)) (fun _ => fail e)
    end).

Definition verify_delegation (verification : DelegationVerificationRequest)
  : prog (DelegationVerificationResult + GoError) :=
  pbind (call (OVerifyDelegation verification)) (fun '(ctx, slotFree, outcome) =>
    lift (InvokeDelegationVerifier ctx slotFree (Some (fun _ => outcome)) verification)).
Definition verify_approval (verification : ApprovalVerificationRequest)
  : prog (ApprovalVerificationResult + GoError) :=
  pbind (call (OVerifyApproval verification)) (fun '(ctx, slotFree, outcome) =>
    lift (InvokeApprovalVerifier ctx slotFree (Some (fun _ => outcome)) verification)).

(** The facts a delegation adds, and whether there was one. *)
Definition admit_delegation (schema : DataSchema) (snapshot : Snapshot) (binding : EvidenceBinding)
  (evidence : list Z) (contextual : ContextualData) (verifier : option batchWorkBudget)
  : prog (ContextualData * bool * option batchWorkBudget + GoError) :=
  if zlen evidence =? 0 then Ret (inl (contextual, false, verifier))
  else
    let! verification := lift (NewDelegationVerificationRequest binding evidence) in
    let! verified := verify_delegation verification in
    let delegated := dvr_contextualData verified in
    let! verifier := lift (work_add verifier (zlen (cd_tuples delegated) + zlen (cd_attributes delegated))
                             (contextualDataVerifierBytes delegated)) in
    lift (ValidateContextualTuples schema delegated) ;;!
    let! merged := lift (NewContextualData (cd_tuples contextual ++ cd_tuples delegated)
                           (cd_attributes contextual ++ cd_attributes delegated)) in
    let! merged := sanitized (NormalizeContextualData schema snapshot merged) ErrorInternal in
    Ret (inl (merged, true, verifier)).

Definition session_binding (caller : Caller) (request : shared_request) (fingerprint : list Z)
  (pin : resolvedRevision) (snapshot : Snapshot) (evaluatedAt : Time) : result EvidenceBinding :=
  NewEvidenceBinding (mkEvidenceBindingInput (Caller_Binding caller) (sh_namespace request) (sh_selector request)
    (rv_revisionID pin) (rv_slotGeneration pin) (snp_generation snapshot) evaluatedAt
    (NewEvidenceFingerprint fingerprint)).

(** What happens between opening the snapshot and handing out the session. *)
Definition admit_session (caller : Caller) (request : shared_request) (fingerprint : list Z)
  (verifierBudget : option batchWorkBudget) (pin : resolvedRevision) (artifact : Artifact) (evaluatedAt : Time)
  (snapshot : Snapshot) : prog (evaluationSession * budgets + GoError) :=
  match session_binding caller request fingerprint pin snapshot evaluatedAt with
  | Err _ => fail (appError ErrorInternal)
  | Ok binding =>
      let! schema := lift (NewDataSchema (Some artifact)) in
      lift (ValidateContextualTuples schema (sh_contextualData request)) ;;!
      let! contextual := sanitized (NormalizeContextualData schema snapshot (sh_contextualData request)) ErrorInternal in
      let! admitted := admit_delegation schema snapshot binding (sh_delegationEvidence request) contextual verifierBudget in
      let '(contextual, usedDelegation, verifierBudget) := admitted in
      Ret (inl (mkSession (rv_revisionID pin) (rv_slotGeneration pin) (snp_generation snapshot) evaluatedAt artifact
                  (NewSnapshotReader snapshot contextual) schema binding (fingerprintEffectiveContext contextual)
                  (negb (ContextualData_Empty contextual)) usedDelegation (sh_approvalEvidence request) false,
                mkBudgets (Some new_attribute_budget) verifierBudget None))
  end.

Definition openEvaluationSession (caller : Caller) (request : shared_request) (fingerprint : list Z)
  (verifierBudget : option batchWorkBudget) : prog (evaluationSession * budgets + GoError) :=
  let! pin := resolveRevision request in
  let! artifact := load_revision pin in
  let! evaluatedAt := evaluationTime in
  let! snapshot := openExactSnapshot request evaluatedAt in
  closing snapshot (admit_session caller request fingerprint verifierBudget pin artifact evaluatedAt snapshot).

Definition session_snapshot (session : evaluationSession) : Snapshot := rd_snapshot (ss_reader session).

(** ** One item (check.go, resource_attributes.go) *)

Definition resolve_path (session : evaluationSession) (resource : EntityRef)
  (state : list (string * any_tree) * option batchWorkBudget) (path : list string)
  : prog (list (string * any_tree) * option batchWorkBudget + GoError) :=
  check_context ;;!
  let! budget := lift (work_add state.2 (zlen path + 2) (path_size path)) in
  let! found := sanitized (ResolveAttribute (ss_reader session) resource path) ErrorUnavailable in
  match (found : option any_value) with
  | None => Ret (inl (state.1, budget))
  | Some value =>
      let! budget := lift (work_add budget 0 (any_size value)) in
      let! attributes := lift (insertResourceAttribute state.1 path value) in
      Ret (inl (attributes, budget))
  end.

Definition resolveResourceAttributes (session : evaluationSession) (budget : option batchWorkBudget)
  (resource : EntityRef) (action : string) : prog (list (string * any_tree) * option batchWorkBudget + GoError) :=
  ploop (resolve_path session resource) ([], budget) (ResourcePaths (ss_schema session) (ent_Type resource) action).

(** [budgetedTupleReader]; without a graph budget the reader itself. *)
Definition budgeted_read (reader : SnapshotReader) (graph : option batchWorkBudget) (resource : EntityRef)
  (relation : string) : prog ((list SubjectRef + GoError) * option batchWorkBudget) :=
  pbind (ReadTuples reader resource relation) (fun r =>
    Ret match r with
        | inr e => (inr e, graph)
        | inl subjects =>
            match work_add graph (1 + zlen subjects) 0 with
            | Ok graph => (inl subjects, graph)
            | Err e => (inr (engineError e), graph)
            end
        end).

Fixpoint run_evaluation (reader : SnapshotReader) (graph : option batchWorkBudget) (e : evaluation)
  : prog ((DslResult + EvaluationError) * option batchWorkBudget) :=
  match e with
  | Evaluated r => Ret (r, graph)
  | PollsContext k => Do OContextErr (fun a => run_evaluation reader graph (k a))
  | ReadsTuples resource relation k =>
      pbind (budgeted_read reader graph resource relation) (fun x => run_evaluation reader x.2 (k x.1))
  end.

(** [None] is a nil error: a [CheckError] without a cause. *)
Definition sanitizeEvaluationError (e : EvaluationError) : option GoError :=
  match e with
  | OtherError err => Some (sanitizeRuntimeError err ErrorFailedPrecondition)
  | CheckError code cause =>
      if bool_decide (code = "E_CHECK_MAX_DEPTH"%string) then Some (appError ErrorResourceExhausted)
      else if bool_decide (code = "E_CHECK_CONTEXT"%string) || bool_decide (code = "E_CHECK_TUPLE_READER"%string)
      then (fun err => sanitizeRuntimeError err ErrorFailedPrecondition) <$> cause
      else Some (appError ErrorFailedPrecondition)
  end.

(** The requirements without a satisfied identifier; both lists are sorted, and
    [satisfied] is what is left from [index] on. *)
Fixpoint unsatisfied (satisfied requirements : list string) : list string :=
  match requirements with
  | [] => []
  | requirement :: rest =>
      let ahead := skip_below requirement satisfied in
      match ahead with
      | s :: _ => if bool_decide (s = requirement) then unsatisfied ahead rest else requirement :: unsatisfied ahead rest
      | [] => requirement :: unsatisfied ahead rest
      end
  end.

Definition verified_bytes (satisfied : list string) : Z :=
  8 + fold_right (fun identifier n => 8 + len identifier + n) 0 satisfied.

Definition finalizeApproval (binding : EvidenceBinding) (evidence : list Z) (r : DslResult)
  (budget : option batchWorkBudget) : prog (Decision * list string * bool * option batchWorkBudget + GoError) :=
  if (zlen (ds_RequiredApprovals r) =? 0) && negb (zlen evidence =? 0) then fail (appError ErrorFailedPrecondition)
  else match ds_Decision r with
  | DslDeny => Ret (inl (DecisionDeny, [], false, budget))
  | DslAllow => Ret (inl (DecisionAllow, [], false, budget))
  | DslOther => fail (appError ErrorInternal)
  | DslRequireApproval =>
      if zlen (ds_RequiredApprovals r) =? 0 then fail (appError ErrorInternal)
      else
        let requirements := sort_strings (ds_RequiredApprovals r) in
        if zlen evidence =? 0 then Ret (inl (DecisionRequireApproval, requirements, false, budget))
        else
          let! verification := lift (NewApprovalVerificationRequest binding requirements evidence) in
          let! verified := verify_approval verification in
          let satisfied := avr_satisfiedRequirementIDs verified in
          let! budget := lift (work_add budget (zlen satisfied) (verified_bytes satisfied)) in
          match unsatisfied satisfied requirements with
          | [] => Ret (inl (DecisionAllow, [], true, budget))
          | missing => Ret (inl (DecisionRequireApproval, missing, true, budget))
          end
  end.

Definition zero_result : DecisionResult :=
  mkDecisionResult false 0 "" "" "" 0 0 0 [] zero_digest false false false false.

Definition item_binding (session : evaluationSession) (item : BatchCheckItem) : result EvidenceBinding :=
  NewEvidenceBinding (mkEvidenceBindingInput (eb_caller (ss_binding session)) (eb_namespace (ss_binding session))
    (eb_selector (ss_binding session)) (ss_revisionID session) (ss_slotGeneration session)
    (ss_dataGeneration session) (ss_evaluatedAt session)
    (NewEvidenceFingerprint (approvalItemFingerprint (bi_subject item) (bi_resource item) (bi_action item)
       (bi_arguments item) (ss_effectiveContextFingerprint session) (ss_usedDelegation session)))).

(** The stream hashed into the decision's identifier. *)
Definition decision_preimage (session : evaluationSession) (item : BatchCheckItem) (decision : Decision) : list Z :=
  EvidenceFingerprint_Bytes (eb_fingerprint (ss_binding session))
  ++ (if ss_batch session
      then writeEntityFingerprint (bi_subject item) ++ writeEntityFingerprint (bi_resource item)
           ++ writeFingerprintString (bi_action item) ++ writeArgumentsFingerprint (bi_arguments item)
      else [])
  ++ [decision mod 256].

Definition decision_result (session : evaluationSession) (item : BatchCheckItem) (decision : Decision)
  (reason : string) (requirements : list string) (usedApproval : bool) (digest : list Z) : result DecisionResult :=
  NewDecisionResult (mkDecisionResultInput decision
    (string_of_bytes (hex_encode (sha256_Sum256 (decision_preimage session item decision)))) reason
    (ss_revisionID session) (ss_slotGeneration session) (ss_dataGeneration session) (ss_evaluatedAt session)
    requirements digest (ss_usedContextualData session) usedApproval (ss_usedDelegation session)).

(** From the program's answer to the engine's. *)
Definition decide_item (session : evaluationSession) (budget : budgets) (item : BatchCheckItem) (r : DslResult)
  : prog (DecisionResult * budgets + GoError) :=
  let! graph := lift (match bg_graph budget with
                      | None => Ok None
                      | Some b => work_add (Some b) (zlen (ds_Trace r)) 0
                      end) in
  match item_binding session item with
  | Err _ => fail (appError ErrorInternal)
  | Ok binding =>
      let! final := finalizeApproval binding (ss_approvalEvidence session) r (bg_verifier budget) in
      let '(decision, requirements, usedApproval, verifier) := final in
      let! digest := (if decision =? DecisionRequireApproval
                      then match AuthorizationDigest binding with
                           | Some digest => Ret (inl digest)
                           | None => fail (appError ErrorInternal)
                           end
                      else Ret (inl zero_digest)) in
      match decision_result session item decision (ds_Reason r) requirements usedApproval digest with
      | Err _ => fail (appError ErrorInternal)
      | Ok x => Ret (inl (x, mkBudgets (bg_attribute budget) verifier graph))
      end
  end.

(** The four arguments of the Go method are an item. *)
Definition evaluateSessionItemWithTrace (session : evaluationSession) (budget : budgets) (item : BatchCheckItem)
  : prog (DecisionResult * list TraceStep * budgets + GoError) :=
  let! arguments := lift (ResolveArguments (bi_arguments item)) in
  let! resolved := resolveResourceAttributes session (bg_attribute budget) (bi_resource item) (bi_action item) in
  pbind (run_evaluation (ss_reader session) (bg_graph budget)
           (Program_Check (ss_artifact session)
              (mkDslRequest (bi_subject item) (bi_resource item) (bi_action item) arguments resolved.1)))
    (fun '(answer, graph) =>
       match answer with
       | inr e => match sanitizeEvaluationError e with
                  | Some err => fail err
                  | None => Ret (inl (zero_result, [], mkBudgets resolved.2 (bg_verifier budget) graph))
                  end
       | inl r =>
           let! decided := decide_item session (mkBudgets resolved.2 (bg_verifier budget) graph) item r in
           Ret (inl (decided.1, ds_Trace r, decided.2))
       end).

Definition evaluateSessionItem (session : evaluationSession) (budget : budgets) (item : BatchCheckItem)
  : prog (DecisionResult * budgets + GoError) :=
  let! r := evaluateSessionItemWithTrace session budget item in Ret (inl (r.1.1, r.2)).

(** ** The operations (check.go, batch.go, explain.go) *)

Definition check_item (r : CheckRequest) : BatchCheckItem :=
  mkBatchCheckItem (ck_subject r) (ck_resource r) (ck_action r) (ck_arguments r).

(** The outcome of [DeliverDecisionEvent] is discarded. *)
Definition deliverDecisionEvent (r : DecisionResult) : prog unit :=
  match NewCompletedDecisionEvent
          (mkCompletedDecisionEventInput (dr_decision r) (dr_reasonCode r) (dr_revisionID r) (dr_slotGeneration r)
             (dr_dataGeneration r) (dr_evaluatedAt r) (dr_usedContextualData r) (dr_usedApproval r)
             (dr_usedDelegation r)) with
  | Ok event => pbind (call (ORecordDecision event)) (fun _ => Ret tt)
  | Err _ => Ret tt
  end.

(** [closeErr := session.close()] after an evaluation whose error comes first. *)
Definition close_after {A} (snapshot : Snapshot) (p : prog (A + GoError)) : prog (A + GoError) :=
  pbind p (fun r =>
    pbind (call (OClose snapshot)) (fun closeErr =>
      match r, (closeErr : option GoError) with
      | inr e, _ => fail e
      | inl _, Some e => fail (sanitizeRuntimeError e ErrorInternal)
      | inl a, None => Ret (inl a)
      end)).

Definition Check (caller : Caller) (request : CheckRequest) : prog (CheckResponse + GoError) :=
  let! validated := lift (NewCheckRequest request) in
  authorize caller (ck_namespace validated) (CheckRequest_RequiredCapabilities validated) ;;!
  let! session := openEvaluationSession caller (check_shared validated) (checkFingerprint validated) None in
  let! evaluated := close_after (session_snapshot session.1)
                      (evaluateSessionItem session.1 session.2 (check_item validated)) in
  match NewCheckResponse validated evaluated.1 with
  | Err _ => fail (appError ErrorInternal)
  | Ok response => pbind (deliverDecisionEvent evaluated.1) (fun _ => Ret (inl response))
  end.

(** [session.batch = true] and the graph budget. *)
Definition batch_session (session : evaluationSession) : evaluationSession :=
  mkSession (ss_revisionID session) (ss_slotGeneration session) (ss_dataGeneration session) (ss_evaluatedAt session)
    (ss_artifact session) (ss_reader session) (ss_schema session) (ss_binding session)
    (ss_effectiveContextFingerprint session) (ss_usedContextualData session) (ss_usedDelegation session)
    (ss_approvalEvidence session) true.
Definition batch_budgets (b : budgets) : budgets := mkBudgets (bg_attribute b) (bg_verifier b) (Some new_graph_budget).

Definition batch_item (session : evaluationSession) (state : list DecisionResult * budgets) (item : BatchCheckItem)
  : prog (list DecisionResult * budgets + GoError) :=
  check_context ;;!
  let! r := evaluateSessionItem session state.2 item in
  Ret (inl (state.1 ++ [r.1], r.2)).

Fixpoint deliver_all (results : list DecisionResult) : prog unit :=
  match results with
  | [] => Ret tt
  | r :: rest => pbind (deliverDecisionEvent r) (fun _ => deliver_all rest)
  end.

(** The loop closes the session on an error, and the code after it on success:
    on every path once, so that [close_after] describes both. *)
Definition BatchCheck (caller : Caller) (request : BatchCheckRequest) : prog (BatchCheckResponse + GoError) :=
  let! validated := lift (NewBatchCheckRequest request) in
  authorize caller (bc_namespace validated) (BatchCheckRequest_RequiredCapabilities validated) ;;!
  let! session := openEvaluationSession caller (batch_shared validated) (batchFingerprint validated)
                    (Some new_verifier_budget) in
  let! evaluated := close_after (session_snapshot session.1)
                      (ploop (batch_item (batch_session session.1)) ([], batch_budgets session.2)
                         (bc_items validated)) in
  match NewBatchCheckResponse validated evaluated.1 with
  | Err e => fail (sanitizeRuntimeError (engineError e) ErrorInternal)
  | Ok response => pbind (deliver_all evaluated.1) (fun _ => Ret (inl response))
  end.

(** The [declarations] map: entity, name and kind. *)
Definition declarations (schema : Schema) : list (string * string * string) :=
  flat_map (fun e =>
    map (fun r => (ed_Name e, rd_Name r, "relation"%string)) (ed_Relations e)
    ++ map (fun name => (ed_Name e, name, "permission"%string)) (ed_Permissions e)
    ++ map (fun name => (ed_Name e, name, "action"%string)) (ed_Actions e)) (sc_Entities schema).

Definition redact_step (schema : Schema) (steps : list ExplainStep) (item : TraceStep)
  : prog (list ExplainStep + GoError) :=
  check_context ;;!
  if negb (bool_decide ((ent_Type (ts_Resource item), ts_Declaration item, ts_Kind item) ∈ declarations schema))
  then fail (appError ErrorInternal)
  else match NewExplainStep (ent_Type (ts_Resource item) +:+ "." +:+ ts_Declaration item) (ts_Kind item) (ts_Matched item) with
  | Err _ => fail (appError ErrorInternal)
  | Ok step => Ret (inl (steps ++ [step]))
  end.

Definition redactedExplainSteps (artifact : Artifact) (steps : list TraceStep) : prog (list ExplainStep + GoError) :=
  if MaxExplainSteps <? zlen steps then fail (appError ErrorResourceExhausted)
  else
    check_context ;;!
    match Parse (CanonicalSource artifact) with
    | None => fail (appError ErrorInternal)
    | Some schema => ploop (redact_step schema) [] steps
    end.

Definition Explain (caller : Caller) (request : ExplainRequest) : prog (ExplainResponse + GoError) :=
  let! validatedCheck := lift (NewCheckRequest (ex_check request)) in
  let! validated := lift (NewExplainRequest validatedCheck) in
  authorize caller (ck_namespace validatedCheck) (ExplainRequest_RequiredCapabilities validated) ;;!
  let! session := openEvaluationSession caller (check_shared validatedCheck) (checkFingerprint validatedCheck)
                    (Some new_verifier_budget) in
  let! evaluated := close_after (session_snapshot session.1)
                      (evaluateSessionItemWithTrace session.1 session.2 (check_item validatedCheck)) in
  let! steps := redactedExplainSteps (ss_artifact session.1) evaluated.1.2 in
  match NewExplainResponse validated evaluated.1.1 steps with
  | Err e => fail (sanitizeRuntimeError (engineError e) ErrorInternal)
  | Ok response => pbind (deliverDecisionEvent evaluated.1.1) (fun _ => Ret (inl response))
  end.
End Session.
