(* ===== verification/Services.v ===== *)
(** Policy and data services (internal/app: publish.go, activate.go, data.go;
    internal/artifact/loader.go), and the engine's own operations
    (embedded/engine.go).

    Each operation revalidates its request, asks the caller gate, calls one
    store operation and checks that the answer belongs to the request. *)

From Stdlib Require Import ZArith Lia.
From stdpp Require Import base list gmap strings.
From S2P Require Import Prelude Limits Text Types Invocation Cost Canon Data Policy Caller Requests Events Status Revisions Domain Evidence Extensions StoreData Runtime Evaluator Session.

Section Services.
Context `{D : Dsl} `{DS : !DslSchema} `{DE : !DslEval}.

(** * Policies *)

(** [Loader.Compile]: the error is the DSL's own. *)
Definition Loader_Compile (sourceName : string) (source : list Z) : Artifact + GoError :=
  match CompileArtifact sourceName source with Some artifact => inl artifact | None => inr ForeignError end.

Definition publicationTime : prog (Time + GoError) :=
  pbind (call OClock) (fun r =>
    match r with
    | None => fail (appError ErrorInternal)
    | Some value => if IsZero value then fail (appError ErrorInternal) else Ret (inl value)
    end).

Definition PolicyService_Publish (caller : Caller) (request : PublishRequest) : prog (RevisionMetadata * bool + GoError) :=
  let! validated := lift (NewPublishRequest (pub_namespace request) (pub_sourceName request) (pub_source request)) in
  authorize caller (pub_namespace validated) PublishRequest_RequiredCapabilities ;;!
  let! compiled := Ret (Loader_Compile (pub_sourceName validated) (pub_source validated)) in
  let! publishedAt := publicationTime in
  let! revision := Ret (NewRevision validated compiled publishedAt) in
  let! stored := call (OPutRevision revision) in
  if negb (PutRevisionResult_Valid stored) || negb (Matches revision (pr_record stored) (pr_created stored))
  then fail (appError ErrorIntegrity)
  else lift (NewPublishResponse (rw_metadata (pr_record stored)) (pr_created stored)).

Definition PolicyService_GetRevision (caller : Caller) (request : GetRevisionRequest) : prog (RevisionMetadata + GoError) :=
  let! validated := lift (NewGetRevisionRequest (gr_namespace request) (gr_revisionID request)) in
  authorize caller (gr_namespace validated) GetRevisionRequest_RequiredCapabilities ;;!
  let! record := call (OGetRevision validated) in
  let metadata := rw_metadata record in
  if negb (RevisionRecord_Valid record) || bool_decide (rm_namespace metadata <> gr_namespace validated)
     || bool_decide (RevisionMetadata_ID metadata <> gr_revisionID validated)
  then fail (appError ErrorIntegrity)
  else lift (NewGetRevisionResponse metadata).

Definition PolicyService_ListRevisions (caller : Caller) (request : ListRevisionsRequest)
  : prog (ListRevisionsResponse + GoError) :=
  let! validated := lift (NewListRevisionsRequest (lr_namespace request) (lr_cursor request) (lr_limit request)) in
  authorize caller (lr_namespace validated) ListRevisionsRequest_RequiredCapabilities ;;!
  let! response := call (OListRevisions validated) in
  match NewListRevisionsResponse validated (lrr_revisions response) (lrr_nextCursor response) with
  | Err _ => fail (appError ErrorIntegrity)
  | Ok bound => Ret (inl bound)
  end.

Definition PolicyService_Activate (caller : Caller) (request : ActivateRequest) : prog (ActivateResponse + GoError) :=
  let! validated := lift (domain_NewActivation request) in
  authorize caller (ar_namespace validated) ActivateRequest_RequiredCapabilities ;;!
  let! response := call (OActivate validated) in
  let storedActivation := acr_activation response in
  if bool_decide (act_namespace storedActivation <> ar_namespace validated)
     || bool_decide (act_slot storedActivation <> ar_slot validated)
     || bool_decide (act_revisionID storedActivation <> ar_targetRevisionID validated)
  then fail (appError ErrorIntegrity)
  else match NewActivateResponse storedActivation with
  | Err _ => fail (appError ErrorIntegrity)
  | Ok bound => Ret (inl bound)
  end.

Definition PolicyService_Resolve (caller : Caller) (request : ResolveRequest) : prog (ResolveResponse + GoError) :=
  let! validated := lift (NewSlot request) in
  authorize caller (rr_namespace validated) ResolveRequest_RequiredCapabilities ;;!
  let! response := call (OResolve validated) in
  let activation := rsr_activation response in
  if bool_decide (act_namespace activation <> rr_namespace validated)
     || bool_decide (act_slot activation <> rr_slot validated)
  then fail (appError ErrorIntegrity)
  else match NewResolveResponse activation with
  | Err _ => fail (appError ErrorIntegrity)
  | Ok bound => Ret (inl bound)
  end.

Definition PolicyService_ListActivationHistory (caller : Caller) (request : ListActivationHistoryRequest)
  : prog (ListActivationHistoryResponse + GoError) :=
  let! validated := lift (ValidateActivationHistoryRequest request) in
  authorize caller (lh_namespace validated) ListActivationHistoryRequest_RequiredCapabilities ;;!
  let! response := call (OListActivationHistory validated) in
  match NewListActivationHistoryResponse validated (lhr_activations response) (lhr_nextCursor response) with
  | Err _ => fail (appError ErrorIntegrity)
  | Ok bound => Ret (inl bound)
  end.

(** * Data *)

Definition DataService_GetDataGeneration (caller : Caller) (request : GetDataGenerationRequest)
  : prog (GetDataGenerationResponse + GoError) :=
  let! validated := lift (ValidateGetDataGenerationRequest request) in
  authorize caller (gdg_namespace validated) GetDataGenerationRequest_RequiredCapabilities ;;!
  let! response := call (OGetDataGeneration validated) in
  if negb (gdr_validResponse response) then fail (appError ErrorIntegrity) else Ret (inl response).

Definition DataService_WriteData (caller : Caller) (request : WriteDataRequest) : prog (WriteDataResponse + GoError) :=
  let! validated := lift (ValidateWriteDataRequest request) in
  authorize caller (wd_namespace validated) WriteDataRequest_RequiredCapabilities ;;!
  let! revisionRequest := lift (NewGetRevisionRequest (wd_namespace validated) (wd_validationRevisionID validated)) in
  let! record := call (OGetRevision revisionRequest) in
  let metadata := rw_metadata record in
  if bool_decide (rm_namespace metadata <> wd_namespace validated)
     || bool_decide (RevisionMetadata_ID metadata <> wd_validationRevisionID validated)
  then fail (appError ErrorNotFound)
  else if negb (RevisionRecord_Valid record) then fail (appError ErrorIntegrity)
  else match DecodeArtifact (rw_artifact record) with
  | None => fail (appError ErrorIntegrity)
  | Some artifact =>
      let! schema := lift (NewDataSchema (Some artifact)) in
      lift (ValidateTuplePaths schema validated) ;;!
      lift (ValidateAttributePaths schema validated) ;;!
      let! response := call (OWriteData validated) in
      if wr_generation response =? 0 then fail (appError ErrorIntegrity) else Ret (inl response)
  end.

(** * The engine (embedded/engine.go) *)

Definition engine_ListEvents (caller : Caller) (request : ListEventsRequest) : prog (ListEventsResponse + GoError) :=
  let! validated := lift (NewListEventsRequest (le_namespace request) (le_afterCursor request) (le_limit request)) in
  authorize caller (le_namespace validated) ListEventsRequest_RequiredCapabilities ;;!
  let! response := call (OListEvents validated) in
  match NewListEventsResponse validated (ler_events response) (ler_nextCursor response) with
  | Err _ => fail (appError ErrorIntegrity)
  | Ok canonical => Ret (inl canonical)
  end.

Definition engine_components : result (list ComponentStatus) :=
  foldM (fun components name =>
    match NewComponentStatus name ComponentReady "READY" with
    | Err _ => Err ErrorInternal
    | Ok component => Ok (components ++ [component])
    end) [] ["evaluator"; "store"]%string.

Definition engine_Status (caller : Caller) (request : StatusRequest) : prog (StatusResponse + GoError) :=
  let! validated := lift (NewStatusRequest (sr_authorizationNamespace request)) in
  authorize caller (sr_authorizationNamespace validated) StatusRequest_RequiredCapabilities ;;!
  let! components := lift engine_components in
  match NewStatusResponse true components with
  | Err _ => fail (appError ErrorInternal)
  | Ok response => Ret (inl response)
  end.
End Services.
