(* ===== verification/Engine.v ===== *)
(** Composition (options.go, embedded/options.go, embedded/engine.go, and the
    service constructors of internal/app).

    An engine is built from sealed options over defaults that refuse: without
    a verifier no evidence is believed, and without a store or an authorizer
    there is no engine. *)

From Stdlib Require Import ZArith Lia.
From stdpp Require Import base list gmap strings.
From S2P Require Import Prelude Limits Text Types Invocation Cost Canon Data Policy Caller Requests Revisions Evidence Extensions Recency PointerCache RevisionCache.

(** * Extension options (options.go) *)

Record Options := mkOptions {
  op_callerAuthorizer : CallerAuthorizer; op_approvalVerifier : ApprovalVerifier;
  op_delegationVerifier : DelegationVerifier; op_decisionEventSink : DecisionEventSink }.

(** [apply] may fail or panic; [None] is the zero value. *)
Definition Option : Type := option (Options -> call_outcome Options).

Definition WithCallerAuthorizer (authorizer : CallerAuthorizer) : Option :=
  Some (fun options =>
    match authorizer with
    | None => Returned (inr (engineError ErrorInvalidArgument))
    | Some _ => Returned (inl (mkOptions authorizer (op_approvalVerifier options) (op_delegationVerifier options)
                                 (op_decisionEventSink options)))
    end).
Definition WithApprovalVerifier (verifier : ApprovalVerifier) : Option :=
  Some (fun options =>
    match verifier with
    | None => Returned (inr (engineError ErrorInvalidArgument))
    | Some _ => Returned (inl (mkOptions (op_callerAuthorizer options) verifier (op_delegationVerifier options)
                                 (op_decisionEventSink options)))
    end).
Definition WithDelegationVerifier (verifier : DelegationVerifier) : Option :=
  Some (fun options =>
    match verifier with
    | None => Returned (inr (engineError ErrorInvalidArgument))
    | Some _ => Returned (inl (mkOptions (op_callerAuthorizer options) (op_approvalVerifier options) verifier
                                 (op_decisionEventSink options)))
    end).
Definition WithDecisionEventSink (sink : DecisionEventSink) : Option :=
  Some (fun options =>
    match sink with
    | None => Returned (inr (engineError ErrorInvalidArgument))
    | Some _ => Returned (inl (mkOptions (op_callerAuthorizer options) (op_approvalVerifier options)
                                 (op_delegationVerifier options) sink))
    end).

Definition applyOption (apply : Options -> call_outcome Options) (configured : Options) : result Options :=
  match apply configured with
  | Panicked => Err ErrorInternal
  | Returned (inr e) => Err (sanitizedExtensionError e ErrorInternal)
  | Returned (inl configured) => Ok configured
  end.

Definition NewOptions (options : list Option) : result Options :=
  foldM (fun configured option =>
    match option with
    | None => Err ErrorInvalidArgument
    | Some apply => applyOption apply configured
    end)
    (mkOptions DefaultCallerAuthorizer DefaultApprovalVerifier DefaultDelegationVerifier DefaultDecisionEventSink)
    options.

(** The accessors fall back to the defaults. *)
Definition Options_CallerAuthorizer (o : Options) : CallerAuthorizer :=
  match op_callerAuthorizer o with None => DefaultCallerAuthorizer | a => a end.
Definition Options_ApprovalVerifier (o : Options) : ApprovalVerifier :=
  match op_approvalVerifier o with None => DefaultApprovalVerifier | v => v end.
Definition Options_DelegationVerifier (o : Options) : DelegationVerifier :=
  match op_delegationVerifier o with None => DefaultDelegationVerifier | v => v end.
Definition Options_DecisionEventSink (o : Options) : DecisionEventSink :=
  match op_decisionEventSink o with None => DefaultDecisionEventSink | s => s end.

(** * The embedded engine *)

Section Engine.
(** A [store.Store] and a clock: only whether they are nil matters here. *)
Context {store clock Artifact : Type}.

(** ** Services (check.go, publish.go, data.go) *)

Record AuthorizationDependencies := mkDependencies {
  ap_Revisions : option store; ap_Slots : option store; ap_Data : option store;
  ap_RevisionCache : option (RevisionCache (Artifact := Artifact)); ap_PointerCache : option PointerCache;
  ap_CallerAuthorizer : CallerAuthorizer; ap_ApprovalVerifier : ApprovalVerifier;
  ap_DelegationVerifier : DelegationVerifier; ap_DecisionSink : DecisionEventSink; ap_Clock : option clock }.

Definition nilDependency {A} (value : option A) : bool := match value with None => true | Some _ => false end.

Definition NewAuthorizationService (d : AuthorizationDependencies) : result AuthorizationDependencies :=
  if nilDependency (ap_Revisions d) || nilDependency (ap_Slots d) || nilDependency (ap_Data d)
     || nilDependency (ap_RevisionCache d) || nilDependency (ap_PointerCache d)
     || nilDependency (ap_CallerAuthorizer d) || nilDependency (ap_Clock d)
  then Err ErrorInvalidArgument
  else Ok (mkDependencies (ap_Revisions d) (ap_Slots d) (ap_Data d) (ap_RevisionCache d) (ap_PointerCache d)
             (ap_CallerAuthorizer d)
             (if nilDependency (ap_ApprovalVerifier d) then DefaultApprovalVerifier else ap_ApprovalVerifier d)
             (if nilDependency (ap_DelegationVerifier d) then DefaultDelegationVerifier else ap_DelegationVerifier d)
             (if nilDependency (ap_DecisionSink d) then DefaultDecisionEventSink else ap_DecisionSink d)
             (ap_Clock d)).

(** The fields of [PolicyService] and [DataService]. *)
Definition NewPolicyService (storage : option store) (authorizer : CallerAuthorizer) (now : option clock)
  : result (option store * CallerAuthorizer * option clock) :=
  if nilDependency storage || nilDependency authorizer || nilDependency now then Err ErrorInvalidArgument
  else Ok (storage, authorizer, now).
Definition NewDataService (revisions dataReader dataWriter : option store) (authorizer : CallerAuthorizer)
  : result (option store * option store * option store * CallerAuthorizer) :=
  if nilDependency revisions || nilDependency dataReader || nilDependency dataWriter || nilDependency authorizer
  then Err ErrorInvalidArgument
  else Ok (revisions, dataReader, dataWriter, authorizer).

(** ** Options (embedded/options.go) *)

Record configuration := mkConfiguration {
  cf_store : option store; cf_callerAuthorizer : CallerAuthorizer; cf_approvalVerifier : ApprovalVerifier;
  cf_delegationVerifier : DelegationVerifier; cf_decisionEventSink : DecisionEventSink }.

Definition defaultConfiguration : configuration :=
  mkConfiguration None None DefaultApprovalVerifier DefaultDelegationVerifier DefaultDecisionEventSink.

(** The options of this package set one field and never fail; [ZeroOption] is
    the zero value. *)
Inductive embedded_Option :=
  | ZeroOption | WithStore (s : option store) | embedded_WithCallerAuthorizer (a : CallerAuthorizer)
  | embedded_WithApprovalVerifier (v : ApprovalVerifier) | embedded_WithDelegationVerifier (v : DelegationVerifier)
  | embedded_WithDecisionEventSink (s : DecisionEventSink).

Definition embedded_applyOption (c : configuration) (o : embedded_Option) : result configuration :=
  match o with
  | ZeroOption => Err ErrorInvalidArgument
  | WithStore s => Ok (mkConfiguration s (cf_callerAuthorizer c) (cf_approvalVerifier c) (cf_delegationVerifier c) (cf_decisionEventSink c))
  | embedded_WithCallerAuthorizer a => Ok (mkConfiguration (cf_store c) a (cf_approvalVerifier c) (cf_delegationVerifier c) (cf_decisionEventSink c))
  | embedded_WithApprovalVerifier v => Ok (mkConfiguration (cf_store c) (cf_callerAuthorizer c) v (cf_delegationVerifier c) (cf_decisionEventSink c))
  | embedded_WithDelegationVerifier v => Ok (mkConfiguration (cf_store c) (cf_callerAuthorizer c) (cf_approvalVerifier c) v (cf_decisionEventSink c))
  | embedded_WithDecisionEventSink s => Ok (mkConfiguration (cf_store c) (cf_callerAuthorizer c) (cf_approvalVerifier c) (cf_delegationVerifier c) s)
  end.

Definition validateConfiguration (c : configuration) : result unit :=
  if nilDependency (cf_store c) || nilDependency (cf_callerAuthorizer c) then Err ErrorInvalidArgument
  else if nilDependency (cf_approvalVerifier c) || nilDependency (cf_delegationVerifier c)
          || nilDependency (cf_decisionEventSink c)
  then Err ErrorInvalidArgument
  else Ok tt.

Definition defaultRevisionCacheEntries : Z := 128.
Definition defaultRevisionCacheBytes : Z := Z.shiftl 32 20.
Definition defaultPointerCacheEntries : Z := 1024.

Record engine := mkEngine {
  en_policy : option store * CallerAuthorizer * option clock; en_authorization : AuthorizationDependencies;
  en_data : option store * option store * option store * CallerAuthorizer;
  en_store : option store; en_authorizer : CallerAuthorizer }.

Definition or_internal {A} (r : result A) : result A := match r with Ok a => Ok a | Err _ => Err ErrorInternal end.
Definition some_or_internal {A} (r : option A) : result A := match r with Some a => Ok a | None => Err ErrorInternal end.

(** [systemClock] is the system's clock. *)
Definition New (systemClock : clock) (options : list embedded_Option) : result engine :=
  let? configured := foldM embedded_applyOption defaultConfiguration options in
  let? _ := validateConfiguration configured in
  let? policyService := or_internal (NewPolicyService (cf_store configured) (cf_callerAuthorizer configured) (Some systemClock)) in
  let? dataService := or_internal (NewDataService (cf_store configured) (cf_store configured) (cf_store configured)
                                     (cf_callerAuthorizer configured)) in
  let? revisionCache := some_or_internal (NewRevisionCache defaultRevisionCacheEntries defaultRevisionCacheBytes) in
  let? pointerCache := some_or_internal (NewPointerCache defaultPointerCacheEntries) in
  let? authorizationService := or_internal (NewAuthorizationService
    (mkDependencies (cf_store configured) (cf_store configured) (cf_store configured) (Some revisionCache)
       (Some pointerCache) (cf_callerAuthorizer configured) (cf_approvalVerifier configured)
       (cf_delegationVerifier configured) (cf_decisionEventSink configured) (Some systemClock))) in
  Ok (mkEngine policyService authorizationService dataService (cf_store configured) (cf_callerAuthorizer configured)).
End Engine.

(** * Fail-closed composition *)

Section FailClosed.
Context {store clock Artifact : Type}.
Implicit Types options : list (embedded_Option (store := store)).

(** The value the last option of a kind sets. *)
Definition last_set {A} (pick : embedded_Option -> option A) options : option A := last (omap pick options).
Definition pick_store (o : embedded_Option (store := store)) : option (option store) :=
  match o with WithStore s => Some s | _ => None end.
Definition pick_authorizer (o : embedded_Option (store := store)) : option CallerAuthorizer :=
  match o with embedded_WithCallerAuthorizer a => Some a | _ => None end.
Definition pick_approval (o : embedded_Option (store := store)) : option ApprovalVerifier :=
  match o with embedded_WithApprovalVerifier v => Some v | _ => None end.
Definition pick_delegation (o : embedded_Option (store := store)) : option DelegationVerifier :=
  match o with embedded_WithDelegationVerifier v => Some v | _ => None end.
Definition pick_sink (o : embedded_Option (store := store)) : option DecisionEventSink :=
  match o with embedded_WithDecisionEventSink s => Some s | _ => None end.

Lemma last_set_cons {A} (pick : embedded_Option -> option A) o options d :
  default d (last_set pick (o :: options)) = default (default d (pick o)) (last_set pick options).
Proof.
  unfold last_set. cbn [omap list_omap]. destruct (pick o) as [a|]; [|done].
  destruct (omap pick options) as [|b l] eqn:E; [done|]. rewrite last_cons. by destruct (last (b :: l)) eqn:El.
Qed.

Lemma configured_last options : forall c c',
  foldM embedded_applyOption c options = Ok c' ->
  cf_store c' = default (cf_store c) (last_set pick_store options) /\
  cf_callerAuthorizer c' = default (cf_callerAuthorizer c) (last_set pick_authorizer options) /\
  cf_approvalVerifier c' = default (cf_approvalVerifier c) (last_set pick_approval options) /\
  cf_delegationVerifier c' = default (cf_delegationVerifier c) (last_set pick_delegation options) /\
  cf_decisionEventSink c' = default (cf_decisionEventSink c) (last_set pick_sink options).
Proof.
  induction options as [|o options IH]; intros c c'; cbn [foldM]; [by intros [= <-]|].
  intros (c1 & H1 & H2)%rbind_ok. apply IH in H2. rewrite !last_set_cons.
  destruct o; [done|injection H1 as <-; exact H2..].
Qed.

(** C27: an engine without configured ports refuses. An engine is composed only
    over a store and an authorizer that were configured last and are not nil,
    every service is given that same store and that same authorizer, and the
    verifiers are the ones configured last. If none was configured, no
    approval or delegation evidence is ever believed, whatever the request. *)
Theorem engine_fail_closed (systemClock : clock) options (e : engine (Artifact := Artifact)) :
  New systemClock options = Ok e ->
  (exists s a, last_set pick_store options = Some (Some s) /\ last_set pick_authorizer options = Some (Some a) /\
     en_store e = Some s /\ en_authorizer e = Some a /\ en_policy e = (Some s, Some a, Some systemClock) /\
     en_data e = (Some s, Some s, Some s, Some a) /\ ap_CallerAuthorizer (en_authorization e) = Some a /\
     ap_Revisions (en_authorization e) = Some s /\ ap_Slots (en_authorization e) = Some s /\
     ap_Data (en_authorization e) = Some s) /\
  ap_ApprovalVerifier (en_authorization e) = default DefaultApprovalVerifier (last_set pick_approval options) /\
  ap_DelegationVerifier (en_authorization e) = default DefaultDelegationVerifier (last_set pick_delegation options) /\
  (last_set pick_approval options = None -> forall ctx slotFree request r,
     InvokeApprovalVerifier ctx slotFree (ap_ApprovalVerifier (en_authorization e)) request <> Ok r) /\
  (last_set pick_delegation options = None -> forall ctx slotFree request r,
     InvokeDelegationVerifier ctx slotFree (ap_DelegationVerifier (en_authorization e)) request <> Ok r).
Proof.
  unfold New. intros (c & Hc & H)%rbind_ok. apply configured_last in Hc as (C1 & C2 & C3 & C4 & C5).
  apply rbind_ok in H as (u & Hv & H). unfold validateConfiguration in Hv.
  destruct (cf_store c) as [s|]; [|done]. destruct (cf_callerAuthorizer c) as [a|]; [|done].
  destruct (cf_approvalVerifier c) as [av|] eqn:Ea; [|done]. destruct (cf_delegationVerifier c) as [dv|] eqn:Ed; [|done].
  destruct (cf_decisionEventSink c) as [k|]; [|done]. cbn in H. injection H as <-. cbn.
  split; [|split; [exact C3|split; [exact C4|]]].
  - exists s, a. destruct (last_set pick_store options), (last_set pick_authorizer options); cbn in C1, C2; try done. naive_solver.
  - split.
    + intros E ctx slotFree request r Hr. rewrite E in C3. injection C3 as ->.
      unfold InvokeApprovalVerifier in Hr. repeat case_match; try done. subst.
      unfold invokeExtension, rejectApprovalVerifier in *. repeat case_match; simplify_eq; done.
    + intros E ctx slotFree request r Hr. rewrite E in C4. injection C4 as ->.
      unfold InvokeDelegationVerifier in Hr. repeat case_match; try done. subst.
      unfold invokeExtension, rejectDelegationVerifier in *. repeat case_match; simplify_eq; done.
Qed.
End FailClosed.
