(* ===== verification/ServiceSafety.v ===== *)
(** What no request can do, whatever the ports answer.

    The caller gate stands in front of every operation of the services, and
    an evaluation holds at most one snapshot, reads only that one, and closes
    it exactly once on every path. *)

From Stdlib Require Import ZArith Lia.
From stdpp Require Import base list gmap strings.
From S2P Require Import Prelude Limits Text Types Invocation Cost Canon Data Policy Caller Requests Events Status Revisions Domain Evidence Extensions StoreData Runtime Evaluator AppFingerprint Session Services.

Section Safety.
Context `{D : Dsl} `{DS : !DslSchema} `{DE : !DslEval}.

(** * The operations of the services *)

Inductive endpoint :=
  | EPublish (r : PublishRequest) | EGetRevision (r : GetRevisionRequest) | EListRevisions (r : ListRevisionsRequest)
  | EActivate (r : ActivateRequest) | EResolve (r : ResolveRequest)
  | EListActivationHistory (r : ListActivationHistoryRequest)
  | EGetDataGeneration (r : GetDataGenerationRequest) | EWriteData (r : WriteDataRequest)
  | EListEvents (r : ListEventsRequest) | EStatus (r : StatusRequest)
  | ECheck (r : CheckRequest) | EBatchCheck (r : BatchCheckRequest) | EExplain (r : ExplainRequest).

Definition response (e : endpoint) : Type :=
  match e with
  | EPublish _ => RevisionMetadata * bool
  | EGetRevision _ => RevisionMetadata
  | EListRevisions _ => ListRevisionsResponse
  | EActivate _ => ActivateResponse
  | EResolve _ => ResolveResponse
  | EListActivationHistory _ => ListActivationHistoryResponse
  | EGetDataGeneration _ => GetDataGenerationResponse
  | EWriteData _ => WriteDataResponse
  | EListEvents _ => ListEventsResponse
  | EStatus _ => StatusResponse
  | ECheck _ => CheckResponse
  | EBatchCheck _ => BatchCheckResponse
  | EExplain _ => ExplainResponse
  end.

Definition serve (caller : Caller) (e : endpoint) : prog (response e + GoError) :=
  match e with
  | EPublish r => PolicyService_Publish caller r
  | EGetRevision r => PolicyService_GetRevision caller r
  | EListRevisions r => PolicyService_ListRevisions caller r
  | EActivate r => PolicyService_Activate caller r
  | EResolve r => PolicyService_Resolve caller r
  | EListActivationHistory r => PolicyService_ListActivationHistory caller r
  | EGetDataGeneration r => DataService_GetDataGeneration caller r
  | EWriteData r => DataService_WriteData caller r
  | EListEvents r => engine_ListEvents caller r
  | EStatus r => engine_Status caller r
  | ECheck r => Check caller r
  | EBatchCheck r => BatchCheck caller r
  | EExplain r => Explain caller r
  end.

Definition endpoint_namespace (e : endpoint) : string :=
  match e with
  | EPublish r => pub_namespace r
  | EGetRevision r => gr_namespace r
  | EListRevisions r => lr_namespace r
  | EActivate r => ar_namespace r
  | EResolve r => rr_namespace r
  | EListActivationHistory r => lh_namespace r
  | EGetDataGeneration r => gdg_namespace r
  | EWriteData r => wd_namespace r
  | EListEvents r => le_namespace r
  | EStatus r => sr_authorizationNamespace r
  | ECheck r => ck_namespace r
  | EBatchCheck r => bc_namespace r
  | EExplain r => ck_namespace (ex_check r)
  end.

Definition endpoint_capabilities (e : endpoint) : list Capability :=
  match e with
  | EPublish _ => [CapabilityPolicyPublish]
  | EGetRevision _ | EListRevisions _ | EResolve _ | EListActivationHistory _ => [CapabilityPolicyRead]
  | EActivate _ => [CapabilityPolicyActivate]
  | EGetDataGeneration _ | EWriteData _ => [CapabilityDataWrite]
  | EListEvents _ => [CapabilityEventsRead]
  | EStatus _ => [CapabilitySystemStatus]
  | ECheck r => CheckRequest_RequiredCapabilities r
  | EBatchCheck r => BatchCheckRequest_RequiredCapabilities r
  | EExplain r => ExplainRequest_RequiredCapabilities r
  end.

(** * The gate *)

Definition not_authorize (o : op) : Prop := match o with OAuthorize _ _ _ => False | _ => True end.

(** The answer to the gate's question lets the caller in. *)
Definition granted (caller : Caller) (ns : string) (caps : list Capability)
  (x : extension_reply CallerAuthorization) : Prop :=
  AuthorizeCaller x.1.1 x.1.2 (Some (fun _ _ _ => x.2)) caller ns caps = Ok tt.

Definition gate_run {A} (caller : Caller) (ns : string) (caps : list Capability) (tr : trace) (r : A + GoError) : Prop :=
  (tr = [] /\ exists e, r = inr e) \/
  exists x rest, tr = ev (OAuthorize caller ns caps) x :: rest /\
    ((granted caller ns caps x /\ Forall (fun e => not_authorize (projT1 e)) rest) \/
     (~ granted caller ns caps x /\ rest = [] /\ exists c, r = inr (engineError c))).

Definition gated {A} (caller : Caller) (ns : string) (caps : list Capability) (p : prog (A + GoError)) : Prop :=
  forall tr r, runs p tr r -> gate_run caller ns caps tr r.

Lemma gated_lift {A B} caller ns caps (v : result A) (f : A -> prog (B + GoError)) :
  (forall a, v = Ok a -> gated caller ns caps (f a)) -> gated caller ns caps (ebind (lift v) f).
Proof.
  intros Hf tr r H. destruct v as [a|e]; [by apply (Hf a)|]. left. cbn in H. destruct H as [-> ->]. eauto.
Qed.

Lemma gated_authorize {B} caller ns caps (k : prog (B + GoError)) :
  only not_authorize k -> gated caller ns caps (ebind (authorize caller ns caps) (fun _ => k)).
Proof.
  intros Hk tr r (tr1 & tr2 & a & -> & H1 & H2)%runs_bind. right. unfold authorize in H1.
  apply runs_bind in H1 as (tr3 & tr4 & x & -> & ->%runs_call & H1).
  destruct x as [[ctx slotFree] outcome]. apply runs_lift in H1 as [-> ->].
  exists (ctx, slotFree, outcome), tr2. split; [done|]. unfold granted. cbn [fst snd].
  destruct (AuthorizeCaller _ _ _ _ _ _) as [[]|e]; cbn [of_result] in H2.
  - left. split; [done|]. by apply (only_runs _ _ Hk _ _ H2).
  - right. destruct H2 as [-> ->]. split; [done|]. split; [done|]. eauto.
Qed.
End Safety.

(** Decomposes [only P p] down to the operations of [p]. *)
Ltac only_step :=
  match goal with
  | |- only _ (ebind _ _) => apply only_ebind; [|intros ?]
  | |- only _ (pbind _ _) => apply only_bind; [|intros ?]
  | |- only _ (ploop _ _ _) => apply only_ploop; intros ? ?
  | |- only _ (call _) => apply only_call
  | |- only _ (lift _) => exact I
  | |- only _ (fail _) => exact I
  | |- only _ (Ret _) => exact I
  | |- only _ (let (_, _) := ?x in _) => destruct x
  | |- only _ (if ?b then _ else _) => destruct b
  | |- only _ (match ?x with _ => _ end) => destruct x
  | |- only _ ContextError => unfold ContextError
  | |- only _ check_context => unfold check_context
  | |- only _ (sanitized _ _) => unfold sanitized
  | |- only _ (poll _) => unfold poll
  end.
Ltac only_walk := repeat only_step; try done.

(** Inverts a successful request constructor, which keeps its namespace. *)
Ltac constructed H :=
  unfold NewPublishRequest, NewGetRevisionRequest, NewListRevisionsRequest, domain_NewActivation, NewActivateRequest,
    NewSlot, NewResolveRequest, ValidateActivationHistoryRequest, NewListActivationHistoryRequest,
    ValidateGetDataGenerationRequest, NewGetDataGenerationRequest, ValidateWriteDataRequest, NewWriteDataRequest,
    NewListEventsRequest, NewStatusRequest in H;
  repeat first [progress cbv zeta in H | apply rbind_ok in H as (? & _ & H)
    | match type of H with (if ?b then _ else _) = _ => destruct b; [try discriminate H|try discriminate H] end];
  injection H as <-;
  cbn [pub_namespace gr_namespace lr_namespace ar_namespace rr_namespace lh_namespace gdg_namespace wd_namespace
    request_input in_Namespace le_namespace sr_authorizationNamespace].

Section Walks.
Context `{D : Dsl} `{DS : !DslSchema} `{DE : !DslEval}.

(** * The operations of an open session *)

(** Reads of one snapshot, the context and the verifiers. *)
Definition session_op (s : Snapshot) (o : op) : Prop :=
  match o with
  | OContextErr | OVerifyApproval _ | OVerifyDelegation _ => True
  | OGetAttribute s' _ | OHasAttributeDescendant s' _ | OQueryTuples s' _ => s' = s
  | _ => False
  end.

Lemma NormalizeContextualData_only schema s d : only (session_op s) (NormalizeContextualData schema s d).
Proof. unfold NormalizeContextualData, normalize_attribute, normalize_prefix. only_walk. Qed.

Lemma merge_loop_only s fuel : forall index l xs ys, only (session_op s) (merge_loop fuel index l xs ys).
Proof.
  induction fuel as [|fuel IH]; intros index l xs ys; cbn [merge_loop]; [done|].
  destruct xs as [|x xs], ys as [|y ys]; only_walk; apply IH.
Qed.

Lemma ReadTuples_only r resource relation : only (session_op (rd_snapshot r)) (ReadTuples r resource relation).
Proof.
  unfold ReadTuples, contextual_subject, canonicalSubjects. only_walk. apply merge_loop_only.
Qed.

Lemma ResolveAttribute_only r e p : only (session_op (rd_snapshot r)) (ResolveAttribute r e p).
Proof.
  unfold ResolveAttribute, scan_attribute, rejectPersistentPathConflict, reject_ancestor. only_walk.
Qed.

Lemma run_evaluation_only r e : forall graph, only (session_op (rd_snapshot r)) (run_evaluation r graph e).
Proof.
  induction e as [res|k IH|resource relation k IH]; intros graph; cbn [run_evaluation]; [done| |].
  - split; [done|]. intros a. apply IH.
  - apply only_bind; [|intros x; apply IH]. unfold budgeted_read. apply only_bind; [apply ReadTuples_only|done].
Qed.

Lemma finalizeApproval_only s b ev r w : only (session_op s) (finalizeApproval b ev r w).
Proof. unfold finalizeApproval, verify_approval. only_walk. Qed.

Lemma evaluate_only session budget item :
  only (session_op (session_snapshot session)) (evaluateSessionItemWithTrace session budget item).
Proof.
  unfold evaluateSessionItemWithTrace, resolveResourceAttributes, resolve_path, decide_item.
  only_walk; [apply ResolveAttribute_only|apply run_evaluation_only|apply finalizeApproval_only].
Qed.

Lemma admit_only caller request fp w pin a t s :
  only (session_op s) (admit_session caller request fp w pin a t s).
Proof.
  unfold admit_session, admit_delegation, verify_delegation. only_walk; apply NormalizeContextualData_only.
Qed.

Lemma evaluate_item_only session budget item :
  only (session_op (session_snapshot session)) (evaluateSessionItem session budget item).
Proof. unfold evaluateSessionItem. only_walk. apply evaluate_only. Qed.

Lemma batch_only session items st :
  only (session_op (session_snapshot session)) (ploop (batch_item (batch_session session)) st items).
Proof.
  unfold batch_item, evaluateSessionItem. only_walk. apply (evaluate_only (batch_session session)).
Qed.

(** * The caller gate *)

Lemma session_not_authorize s o : session_op s o -> not_authorize o.
Proof. by destruct o. Qed.
Lemma evaluate_not_authorize session budget item :
  only not_authorize (evaluateSessionItemWithTrace session budget item).
Proof. eapply only_weaken; [apply session_not_authorize|apply evaluate_only]. Qed.
Lemma batch_not_authorize session st items : only not_authorize (ploop (batch_item (batch_session session)) st items).
Proof. eapply only_weaken; [apply session_not_authorize|apply batch_only]. Qed.
Lemma deliver_not_authorize r : only not_authorize (deliverDecisionEvent r).
Proof. unfold deliverDecisionEvent. only_walk. Qed.
Lemma deliver_all_not_authorize l : only not_authorize (deliver_all l).
Proof. induction l; cbn; [done|]. apply only_bind; [apply deliver_not_authorize|done]. Qed.

Lemma open_not_authorize caller request fp w : only not_authorize (openEvaluationSession caller request fp w).
Proof.
  unfold openEvaluationSession, resolveRevision, load_revision, evaluationTime, openExactSnapshot, closing. only_walk.
  eapply only_weaken; [apply session_not_authorize|apply admit_only].
Qed.

Lemma NewCheckRequest_id r v : NewCheckRequest r = Ok v -> v = r.
Proof.
  unfold NewCheckRequest. destruct (_ || _ || _); [done|]. intros (? & _ & H)%rbind_ok. destruct (_ || _); [done|].
  do 5 (apply rbind_ok in H as (? & _ & H)). congruence.
Qed.
Lemma NewBatchCheckRequest_id r v : NewBatchCheckRequest r = Ok v -> v = r.
Proof.
  unfold NewBatchCheckRequest. destruct (_ || _ || _); [done|]. intros H. do 3 (apply rbind_ok in H as (? & _ & H)).
  destruct (_ || _ || _); [done|]. apply rbind_ok in H as (? & _ & H). destruct (negb _); congruence.
Qed.

(** C2: no operation without the caller gate. Whatever the ports answer, each
    of the engine's thirteen operations (policies, data, authorization, events
    and status) rejects its request before it does anything at all, or asks
    the gate first, once,
    for the request's namespace and exactly the capabilities that operation
    requires. Unless the gate grants them nothing else happens: no clock, no
    store, no cache, no verifier and no event sink is touched, and the caller
    gets an engine error. *)
Theorem caller_gate caller e tr r :
  runs (serve caller e) tr r -> gate_run caller (endpoint_namespace e) (endpoint_capabilities e) tr r.
Proof.
  revert tr r. fold (gated caller (endpoint_namespace e) (endpoint_capabilities e) (serve caller e)).
  destruct e; cbn [serve endpoint_namespace endpoint_capabilities response]; apply gated_lift; intros a Ha.
  1-10: constructed Ha; apply gated_authorize; unfold publicationTime; only_walk.
  - apply NewCheckRequest_id in Ha as ->. apply gated_authorize. unfold close_after, evaluateSessionItem.
    only_walk; auto using open_not_authorize, deliver_not_authorize, evaluate_not_authorize.
  - apply NewBatchCheckRequest_id in Ha as ->. apply gated_authorize. unfold close_after.
    apply only_ebind; [apply open_not_authorize|]. intros session. apply only_ebind.
    + apply only_bind; [apply batch_not_authorize|intros; only_walk].
    + intros x. only_walk. apply deliver_all_not_authorize.
  - apply NewCheckRequest_id in Ha as ->. apply gated_lift. intros b Hb. unfold NewExplainRequest in Hb.
    destruct (CheckRequest_valid _); [|done]. injection Hb as <-. apply gated_authorize.
    unfold close_after, redactedExplainSteps, redact_step.
    only_walk; auto using open_not_authorize, deliver_not_authorize, evaluate_not_authorize.
Qed.
End Walks.

(** * The snapshot of an evaluation *)

Section Discipline.
Context `{D : Dsl} `{DS : !DslSchema} `{DE : !DslEval}.

(** The life of an evaluation's snapshot: not asked for yet, open, closed, or
    asked for and not obtained. *)
Inductive snapshot_phase := Unopened | Open (s : Snapshot) | Closed (s : Snapshot) | Refused.

#[export] Instance snapshot_phase_eq : EqDecision snapshot_phase.
Proof. solve_decision. Defined.

(** [None] as a result: a snapshot is asked for a second time, another one than
    the open one is read or closed, or a decision is recorded although no
    snapshot was opened or it is not closed yet. *)
Definition snapshot_step (p : snapshot_phase) (e : event) : option snapshot_phase :=
  match e with
  | existT (OOpenSnapshot _) reply =>
      match p with
      | Unopened => Some (match reply with inl (Some s) => Open s | _ => Refused end)
      | _ => None
      end
  | existT (OGetAttribute s _) _ | existT (OHasAttributeDescendant s _) _ | existT (OQueryTuples s _) _ =>
      if bool_decide (p = Open s) then Some p else None
  | existT (OClose s) _ => if bool_decide (p = Open s) then Some (Closed s) else None
  | existT (ORecordDecision _) _ => match p with Closed _ => Some p | _ => None end
  | _ => Some p
  end.

Fixpoint snapshot_run (p : snapshot_phase) (tr : trace) : option snapshot_phase :=
  match tr with
  | [] => Some p
  | e :: rest => match snapshot_step p e with Some p' => snapshot_run p' rest | None => None end
  end.

(** No snapshot is left open. *)
Definition settled (p : snapshot_phase) : Prop := match p with Open _ => False | _ => True end.

Lemma snapshot_run_app tr1 : forall tr2 st st1,
  snapshot_run st tr1 = Some st1 -> snapshot_run st (tr1 ++ tr2) = snapshot_run st1 tr2.
Proof.
  induction tr1 as [|e tr1 IH]; intros tr2 st st1; cbn; [congruence|].
  destruct (snapshot_step st e) as [st'|]; [apply IH|done].
Qed.

(** A triple: from [st] the monitor accepts every run of [p]. *)
Definition tracks {A} (st : snapshot_phase) (p : prog A) (Q : A -> snapshot_phase -> Prop) : Prop :=
  forall tr a, runs p tr a -> exists st', snapshot_run st tr = Some st' /\ Q a st'.

Lemma tracks_ret {A} st (a : A) (Q : A -> snapshot_phase -> Prop) : Q a st -> tracks st (Ret a) Q.
Proof. intros H tr b [-> ->]. by exists st. Qed.

Lemma tracks_bind {A B} st (p : prog A) (f : A -> prog B) Q R :
  tracks st p Q -> (forall a st', Q a st' -> tracks st' (f a) R) -> tracks st (pbind p f) R.
Proof.
  intros Hp Hf tr b (tr1 & tr2 & a & -> & H1 & H2)%runs_bind. destruct (Hp _ _ H1) as (st1 & E1 & HQ).
  destruct (Hf _ _ HQ _ _ H2) as (st2 & E2 & HR). exists st2. by rewrite (snapshot_run_app _ _ _ _ E1).
Qed.

(** Errors are returned in the state in which they arise. *)
Lemma tracks_ebind {A B} st (p : prog (A + GoError)) (f : A -> prog (B + GoError)) Q (R : B + GoError -> snapshot_phase -> Prop) :
  tracks st p Q -> (forall a st', Q (inl a) st' -> tracks st' (f a) R) ->
  (forall e st', Q (inr e) st' -> R (inr e) st') -> tracks st (ebind p f) R.
Proof.
  intros Hp Hf He. eapply tracks_bind; [exact Hp|]. intros [a|e] st' HQ; [by apply Hf|]. by apply tracks_ret, He.
Qed.

Lemma tracks_call st o (Q : reply o -> snapshot_phase -> Prop) :
  (forall x, exists st', snapshot_step st (ev o x) = Some st' /\ Q x st') -> tracks st (call o) Q.
Proof.
  intros H tr x ->%runs_call. destruct (H x) as (st' & E & HQ). exists st'. cbn [snapshot_run]. by rewrite E.
Qed.

(** The operations that leave the state [st] as it is. *)
Definition stays (st : snapshot_phase) (o : op) : Prop :=
  match o with
  | OOpenSnapshot _ | OClose _ => False
  | OGetAttribute s _ | OHasAttributeDescendant s _ | OQueryTuples s _ => st = Open s
  | ORecordDecision _ => match st with Closed _ => True | _ => False end
  | _ => True
  end.

Lemma tracks_only {A} st (p : prog A) : only (stays st) p -> tracks st p (fun _ st' => st' = st).
Proof.
  intros Hp tr a H. exists st. split; [|done]. assert (Hf := only_runs _ _ Hp _ _ H). clear Hp H a p.
  induction Hf as [|[o x] tr Ho _ IH]; [done|]. assert (E : snapshot_step st (ev o x) = Some st).
  { destruct o; cbn in *; try done; try (rewrite Ho; by rewrite bool_decide_true). by destruct st. }
  change (match snapshot_step st (ev o x) with Some st' => snapshot_run st' tr | None => None end = Some st).
  by rewrite E.
Qed.

Lemma session_stays s o : session_op s o -> stays (Open s) o.
Proof. destruct o; cbn; try done; by intros ->. Qed.

(** Each session-level program leaves its snapshot open. *)
Lemma tracks_session {A} s (p : prog A) : only (session_op s) p -> tracks (Open s) p (fun _ st' => st' = Open s).
Proof. intros H. apply tracks_only. eapply only_weaken; [apply session_stays|done]. Qed.

Lemma tracks_close s (Q : option GoError -> snapshot_phase -> Prop) : (forall x, Q x (Closed s)) -> tracks (Open s) (call (OClose s)) Q.
Proof. intros HQ. apply tracks_call. intros x. exists (Closed s). cbn. by rewrite bool_decide_true. Qed.

Lemma tracks_deliver s r : tracks (Closed s) (deliverDecisionEvent r) (fun _ st' => st' = Closed s).
Proof. apply tracks_only. unfold deliverDecisionEvent. only_walk. Qed.
Lemma tracks_deliver_all s l : tracks (Closed s) (deliver_all l) (fun _ st' => st' = Closed s).
Proof.
  induction l as [|r l IH]; cbn [deliver_all]; [by apply tracks_ret|].
  eapply tracks_bind; [apply tracks_deliver|]. by intros _ ? ->.
Qed.

(** After an opening: the snapshot is open, or the error left none open. *)
Definition snapshot_opened {A} (snapshot : A -> Snapshot) (r : A + GoError) (p : snapshot_phase) : Prop :=
  match r with inl a => p = Open (snapshot a) | inr _ => settled p end.

Lemma tracks_openExactSnapshot request t : tracks Unopened (openExactSnapshot request t) (snapshot_opened (fun s => s)).
Proof.
  unfold openExactSnapshot. eapply tracks_ebind; [by apply tracks_only| |by intros e ? ->].
  intros q ? ->. eapply tracks_ebind; [apply tracks_only; only_walk| |by intros e ? ->].
  intros head ? ->. destruct (negb _); [by apply tracks_ret|].
  eapply tracks_ebind; [by apply tracks_only| |by intros e ? ->]. intros sq ? ->.
  eapply (tracks_ebind _ _ _ (fun r st' => st' = match r with inl (Some s) => Open s | _ => Refused end)); [| |by intros e ? ->].
  - eapply tracks_bind; [apply (tracks_call _ (OOpenSnapshot sq) (fun r st' => st' = match r with inl (Some s) => Open s | _ => Refused end))|].
    + intros [[s|]|e]; eauto.
    + intros [[s|]|e] st' ->; by apply tracks_ret.
  - intros [s|] ? ->; [|by apply tracks_ret]. destruct (_ || _); [|by apply tracks_ret].
    eapply tracks_bind; [by apply (tracks_close _ (fun _ st' => st' = Closed s))|]. intros _ ? ->. by apply tracks_ret.
Qed.

Lemma admit_session_snapshot caller request fp w pin a t s tr session b :
  runs (admit_session caller request fp w pin a t s) tr (inl (session, b)) -> session_snapshot session = s.
Proof.
  unfold admit_session. destruct (session_binding _ _ _ _ _ _); [|by intros [_ ?]].
  intros (? & ? & schema & _ & _ & H)%runs_ebind_inl. apply runs_ebind_inl in H as (? & ? & ? & _ & _ & H).
  apply runs_ebind_inl in H as (? & ? & contextual & _ & _ & H). apply runs_ebind_inl in H as (? & ? & [[c u] v] & _ & _ & H).
  by destruct H as [_ [= -> _]].
Qed.

Lemma session_opened request caller fp w :
  tracks Unopened (openEvaluationSession caller request fp w) (snapshot_opened (fun x => session_snapshot x.1)).
Proof.
  unfold openEvaluationSession.
  eapply tracks_ebind; [apply tracks_only; unfold resolveRevision; only_walk| |by intros e ? ->]. intros pin ? ->.
  eapply tracks_ebind; [apply tracks_only; unfold load_revision; only_walk| |by intros e ? ->]. intros a ? ->.
  eapply tracks_ebind; [apply tracks_only; unfold evaluationTime; only_walk| |by intros e ? ->]. intros t ? ->.
  eapply tracks_ebind; [apply tracks_openExactSnapshot| |by intros e ? Hst]. intros s ? ->.
  intros tr r H. unfold closing in H. apply runs_bind in H as (tr1 & tr2 & x & -> & H1 & H2).
  destruct (tracks_session s _ (admit_only caller request fp w pin a t s) _ _ H1) as (st1 & E1 & ->).
  rewrite (snapshot_run_app _ _ _ _ E1). destruct x as [x|e].
  - destruct H2 as [-> ->]. exists (Open s). split; [done|]. destruct x as [session b]. apply admit_session_snapshot in H1. cbn. congruence.
  - apply runs_bind in H2 as (? & ? & x & -> & ->%runs_call & [-> ->]). exists (Closed s). cbn. by rewrite bool_decide_true.
Qed.

(** Evaluation, then [session.close()]. *)
Lemma tracks_close_after {A} s (p : prog (A + GoError)) :
  only (session_op s) p -> tracks (Open s) (close_after s p) (fun _ st' => st' = Closed s).
Proof.
  intros Hp. unfold close_after. eapply tracks_bind; [by apply tracks_session|]. intros r ? ->.
  eapply tracks_bind; [by apply (tracks_close _ (fun _ st' => st' = Closed s))|]. intros closeErr ? ->.
  destruct r, (closeErr : option GoError); by apply tracks_ret.
Qed.

(** The end of an evaluation: nothing is open, and if it answers its snapshot
    was opened and closed. *)
Definition evaluated {A} (r : A + GoError) (p : snapshot_phase) : Prop :=
  match r with inl _ => exists s, p = Closed s | inr _ => settled p end.

(** The policy and data services have no snapshot at all. *)
Ltac only_services :=
  unfold PolicyService_Publish, PolicyService_GetRevision, PolicyService_ListRevisions, PolicyService_Activate,
    PolicyService_Resolve, PolicyService_ListActivationHistory, DataService_GetDataGeneration, DataService_WriteData,
    engine_ListEvents, engine_Status, authorize, publicationTime; only_walk.

Definition evaluates (e : endpoint) : bool :=
  match e with ECheck _ | EBatchCheck _ | EExplain _ => true | _ => false end.

(** C10: an evaluation never leaks, mixes up or outlives its snapshot. On
    every path of a check, a batch or an explanation, failures at any step
    included, a snapshot is asked for at most once in the whole run; every
    attribute and tuple is read from that one while it is open; it is closed
    exactly once and not used afterwards, decisions are delivered only after
    that, and an evaluation that answers did open and close it. The other
    calls never ask for a snapshot. *)
Theorem snapshot_discipline caller e tr r :
  runs (serve caller e) tr r ->
  exists last, snapshot_run Unopened tr = Some last /\
    if evaluates e then evaluated r last else last = Unopened.
Proof.
  intros H. assert (Ht : tracks Unopened (serve caller e) (fun r last => if evaluates e then evaluated r last else last = Unopened)); [|by apply Ht].
  clear H tr r. assert (Hauth : forall ns caps, tracks Unopened (authorize caller ns caps) (fun _ st' => st' = Unopened)).
  { intros. apply tracks_only. unfold authorize. only_walk. }
  destruct e; cbn [serve response evaluates].
  1-10: apply tracks_only; only_services.
  - unfold Check. eapply tracks_ebind; [by apply tracks_only| |by intros e ? ->]. intros v ? ->.
    eapply tracks_ebind; [apply Hauth| |by intros e ? ->]. intros _ ? ->.
    eapply tracks_ebind; [apply session_opened| |by intros e ? Hst]. intros session ? ->.
    eapply tracks_ebind; [apply tracks_close_after, evaluate_item_only| |by intros e ? ->]. intros x ? ->.
    destruct (NewCheckResponse _ _); [|by apply tracks_ret]. eapply tracks_bind; [apply tracks_deliver|]. intros _ ? ->.
    apply tracks_ret. by eexists.
  - unfold BatchCheck. eapply tracks_ebind; [by apply tracks_only| |by intros e ? ->]. intros v ? ->.
    eapply tracks_ebind; [apply Hauth| |by intros e ? ->]. intros _ ? ->.
    eapply tracks_ebind; [apply session_opened| |by intros e ? Hst]. intros session ? ->.
    eapply tracks_ebind; [apply tracks_close_after, batch_only| |by intros e ? ->]. intros x ? ->.
    destruct (NewBatchCheckResponse _ _); [|by apply tracks_ret]. eapply tracks_bind; [apply tracks_deliver_all|]. intros _ ? ->.
    apply tracks_ret. by eexists.
  - unfold Explain. eapply tracks_ebind; [by apply tracks_only| |by intros e ? ->]. intros v ? ->.
    eapply tracks_ebind; [by apply tracks_only| |by intros e ? ->]. intros q ? ->.
    eapply tracks_ebind; [apply Hauth| |by intros e ? ->]. intros _ ? ->.
    eapply tracks_ebind; [apply session_opened| |by intros e ? Hst]. intros session ? ->.
    eapply tracks_ebind; [apply tracks_close_after, evaluate_only| |by intros e ? ->]. intros x ? ->.
    eapply tracks_ebind; [apply tracks_only; unfold redactedExplainSteps, redact_step; only_walk| |by intros e ? ->].
    intros steps ? ->.
    destruct (NewExplainResponse _ _ _); [|by apply tracks_ret]. eapply tracks_bind; [apply tracks_deliver|]. intros _ ? ->.
    apply tracks_ret. by eexists.
Qed.
End Discipline.
