(* ===== verification/SessionProofs.v ===== *)
(** A decision is the policy's answer on pinned facts (proofs for Session.v).

    The specification: a [pin] says what an evaluation is pinned to and where
    each part came from; [facts] are the snapshot's view together with the
    admitted contextual facts; [evaluates] is the compiled program on such
    facts, with no budget, no merge and no port in sight; [approved] is the
    step from the program's answer to the engine's. The theorems say that the
    services implement exactly that, on every run that succeeds. *)

From Stdlib Require Import ZArith Lia Sorted.
From stdpp Require Import base list gmap strings sorting.
From S2P Require Import Prelude Limits Text Types Invocation Cost Canon Data DataValid Policy Caller Requests Revisions Domain Fingerprint Evidence Extensions PointerCache RevisionCache StoreData Runtime Evaluator EvaluatorProofs AppFingerprint Session ServiceSafety.

(** * Facts *)

Record Facts := mkFacts {
  ft_attribute : EntityRef -> list string -> option Value;
  ft_subject : EntityRef -> string -> SubjectRef -> Prop }.

(** The view of a snapshot and the contextual facts that have not expired. *)
Definition merged (v : View) (readAt : Time) (d : ContextualData) : Facts :=
  mkFacts
    (fun e p => match contextual_value (cd_attributes d) e p with Some c => Some c | None => vw_attribute v e p end)
    (fun e rel x => x ∈ vw_subjects v e rel \/
       exists t, t ∈ cd_tuples d /\ rt_tuple t = mkTuple e rel x /\ (rt_hasExpiry t = true -> readAt < rt_expiresAt t)).

(** The program on facts: a read gets the subjects in order, or an error. *)
Inductive evaluates (F : Facts) : evaluation -> DslResult + EvaluationError -> Prop :=
  | evaluates_done r : evaluates F (Evaluated r) r
  | evaluates_poll k a r : evaluates F (k a) r -> evaluates F (PollsContext k) r
  | evaluates_read resource relation k subjects r :
      StronglySorted (clt compareSubjectRef) subjects ->
      (forall x, x ∈ subjects <-> ft_subject F resource relation x) ->
      evaluates F (k (inl subjects)) r -> evaluates F (ReadsTuples resource relation k) r
  | evaluates_error resource relation k e r :
      evaluates F (k (inr e)) r -> evaluates F (ReadsTuples resource relation k) r.

(** * Attribute trees *)

(** The leaf at a path. *)
Fixpoint leaf_at (root : list (string * any_tree)) (path : list string) : option any_value :=
  match path with
  | [] => None
  | part :: rest =>
      match child part root, rest with
      | Some (AnyLeaf v), [] => Some v
      | Some (AnyMap next), _ :: _ => leaf_at next rest
      | _, _ => None
      end
  end.

Lemma child_set_child {A} name name' (x : A) l :
  child name' (set_child name x l) = if bool_decide (name = name') then Some x else child name' l.
Proof.
  case_bool_decide as E; [subst; apply child_set_eq|]. apply child_set_ne. congruence.
Qed.

Lemma leaf_at_nil path : leaf_at [] path = None.
Proof. by destruct path as [|? []]. Qed.

Lemma leaf_at_insert path : forall root value root' q,
  insertResourceAttribute root path value = Ok root' ->
  leaf_at root' q = if bool_decide (q = path) then Some value else leaf_at root q.
Proof.
  induction path as [|part rest IH]; intros root value root' q; cbn [insertResourceAttribute]; [done|].
  destruct rest as [|second rest].
  - destruct (child part root) eqn:Ec; [done|]. intros [= <-]. destruct q as [|p q]; [by rewrite bool_decide_false|].
    cbn [leaf_at]. rewrite child_set_child. case_bool_decide as E.
    + subst p. rewrite Ec. destruct q; [by rewrite bool_decide_true|]. by rewrite bool_decide_false.
    + rewrite bool_decide_false; [done|congruence].
  - assert (Hgo : forall next next', insertResourceAttribute next (second :: rest) value = Ok next' ->
      child part root = None /\ next = [] \/ child part root = Some (AnyMap next) ->
      leaf_at (set_child part (AnyMap next') root) q =
      if bool_decide (q = part :: second :: rest) then Some value else leaf_at root q).
    { intros next next' Hn Hc. destruct q as [|p q]; [by rewrite bool_decide_false|]. cbn [leaf_at].
      rewrite child_set_child. case_bool_decide as E.
      - subst p. destruct q as [|q1 q]; [rewrite bool_decide_false by done; by destruct Hc as [[-> _]| ->]|].
        rewrite (IH _ _ _ (q1 :: q) Hn). repeat case_bool_decide; try congruence.
        destruct Hc as [[-> ->]| ->]; [apply leaf_at_nil|done].
      - rewrite bool_decide_false; [done|congruence]. }
    destruct (child part root) as [[v|next]|] eqn:Ec; [done| |]; intros (next' & Hn & [= <-])%rbind_ok; eapply Hgo; eauto.
Qed.

(** * Approvals *)

Definition missing_from (satisfied requirements : list string) : list string :=
  filter (fun r => r ∉ satisfied) requirements.

Lemma skip_below_later r x satisfied :
  StronglySorted (clt String.compare) satisfied -> cle String.compare r x ->
  x ∈ skip_below r satisfied <-> x ∈ satisfied.
Proof.
  intros Hs Hle. destruct (skip_below_spec r satisfied Hs) as ([p Ep] & Hkeep & _). split; [|auto].
  intros Hx. rewrite Ep. apply elem_of_app. by right.
Qed.

Lemma filter_ext_in {A} (P Q : A -> Prop) `{!forall x, base.Decision (P x)} `{!forall x, base.Decision (Q x)} (l : list A) :
  (forall x, x ∈ l -> P x <-> Q x) -> filter P l = filter Q l.
Proof.
  induction l as [|x l IH]; intros Hl; [done|]. rewrite !filter_cons, IH by (intros y Hy; apply Hl; by right).
  assert (Hx : P x <-> Q x) by (apply Hl; left). by repeat case_decide; try tauto.
Qed.

(** The two-pointer walk leaves out exactly the satisfied requirements. *)
Lemma unsatisfied_spec requirements : forall satisfied,
  StronglySorted (clt String.compare) satisfied -> StronglySorted (cle String.compare) requirements ->
  unsatisfied satisfied requirements = missing_from satisfied requirements.
Proof.
  induction requirements as [|r rest IH]; intros satisfied Hs Hr; [done|].
  inversion_clear Hr as [|? ? Hrest Hle]. cbn [unsatisfied]. unfold missing_from. rewrite filter_cons.
  destruct (skip_below_spec r satisfied Hs) as (Hsuf & _ & Hhead).
  assert (Hs' := strict_suffix _ _ Hsuf Hs).
  assert (Hin := skip_below_later r r satisfied Hs ltac:(unfold cle; by rewrite (tc_refl String.compare))).
  assert (Htail : unsatisfied (skip_below r satisfied) rest = missing_from satisfied rest).
  { rewrite IH by done. unfold missing_from. rewrite Forall_forall in Hle.
    apply filter_ext_in. intros x Hx. by rewrite skip_below_later by auto. }
  destruct (skip_below r satisfied) as [|s ahead] eqn:E.
  - rewrite decide_True; [by rewrite Htail|]. rewrite <- Hin. apply not_elem_of_nil.
  - case_bool_decide as Es.
    + subst s. rewrite decide_False; [done|]. rewrite <- Hin. intros H. apply H. left.
    + rewrite decide_True; [by rewrite Htail|]. rewrite <- Hin. intros [|Hx]%elem_of_cons; [congruence|].
      inversion_clear Hs' as [|? ? _ Hf]. rewrite Forall_forall in Hf. specialize (Hf _ Hx).
      specialize (Hhead _ _ eq_refl). unfold cle, clt in *. by rewrite (tc_lt_asym String.compare _ _ Hf) in Hhead.
Qed.

Section Approved.
Context `{D : Dsl} `{DS : !DslSchema} `{DE : !DslEval}.

(** What a verifier said during a run, and the engine believed. *)
Definition verifier_satisfied (tr : trace) (verification : ApprovalVerificationRequest)
  (verified : ApprovalVerificationResult) : Prop :=
  exists ctx slotFree outcome, ev (OVerifyApproval verification) (ctx, slotFree, outcome) ∈ tr /\
    InvokeApprovalVerifier ctx slotFree (Some (fun _ => outcome)) verification = Ok verified.

(** From the program's answer to the decision, its open requirements and
    whether approval evidence was used. *)
Inductive approved (tr : trace) (binding : EvidenceBinding) (evidence : list Z) (r : DslResult)
  : Decision -> list string -> bool -> Prop :=
  | approved_deny :
      ds_Decision r = DslDeny -> (ds_RequiredApprovals r = [] -> evidence = []) ->
      approved tr binding evidence r DecisionDeny [] false
  | approved_allow :
      ds_Decision r = DslAllow -> (ds_RequiredApprovals r = [] -> evidence = []) ->
      approved tr binding evidence r DecisionAllow [] false
  | approved_pending :
      ds_Decision r = DslRequireApproval -> ds_RequiredApprovals r <> [] -> evidence = [] ->
      approved tr binding evidence r DecisionRequireApproval (sort_strings (ds_RequiredApprovals r)) false
  | approved_verified verification verified missing :
      ds_Decision r = DslRequireApproval -> ds_RequiredApprovals r <> [] -> evidence <> [] ->
      NewApprovalVerificationRequest binding (sort_strings (ds_RequiredApprovals r)) evidence = Ok verification ->
      verifier_satisfied tr verification verified ->
      missing = missing_from (avr_satisfiedRequirementIDs verified) (sort_strings (ds_RequiredApprovals r)) ->
      approved tr binding evidence r (if bool_decide (missing = []) then DecisionAllow else DecisionRequireApproval)
        missing true.

Lemma zlen_eqb {A} (l : list A) : (zlen l =? 0) = bool_decide (l = []).
Proof. destruct l; [done|]. rewrite bool_decide_false by done. apply Z.eqb_neq. unfold zlen. cbn [length]. lia. Qed.

Lemma satisfied_sorted verification ctx slotFree outcome verified :
  InvokeApprovalVerifier ctx slotFree (Some (fun _ => outcome)) verification = Ok verified ->
  StronglySorted (clt String.compare) (avr_satisfiedRequirementIDs verified).
Proof.
  unfold InvokeApprovalVerifier. destruct (contextEngineError (ctx_err ctx 0)); [done|]. destruct (negb _); [done|].
  destruct (contextEngineError (ctx_err ctx 3)); [done|]. destruct (invokeExtension _ _ _ _ _) as [r|]; [|done].
  destruct (ApprovalVerificationResult_valid r) eqn:Hv; [|done]. cbn [negb].
  destruct (satisfied_requested _ _); [|done]. intros [= <-]. unfold ApprovalVerificationResult_valid in Hv.
  destruct (validCanonicalIdentifiers (avr_satisfiedRequirementIDs r) _ _) eqn:Hc; [|by rewrite orb_true_r in Hv].
  apply validCanonicalIdentifiers_iff in Hc; [tauto|apply verifier_limit].
Qed.

Lemma finalizeApproval_approved binding evidence r budget tr decision requirements used budget' :
  runs (finalizeApproval binding evidence r budget) tr (inl (decision, requirements, used, budget')) ->
  approved tr binding evidence r decision requirements used.
Proof.
  unfold finalizeApproval. rewrite !zlen_eqb.
  destruct (bool_decide (ds_RequiredApprovals r = [])) eqn:Er; cbn [andb negb].
  - apply bool_decide_eq_true in Er. destruct (bool_decide (evidence = [])) eqn:Ee; cbn [negb]; [|by intros [_ ?]].
    apply bool_decide_eq_true in Ee.
    destruct (ds_Decision r) eqn:Ed; intros [_ [= -> -> -> _]]; by constructor.
  - apply bool_decide_eq_false in Er.
    destruct (ds_Decision r) eqn:Ed; [intros [_ [= -> -> -> _]]; by constructor..| |by intros [_ ?]].
    destruct (bool_decide (evidence = [])) eqn:Ee.
    { intros [_ [= -> -> -> _]]. apply bool_decide_eq_true in Ee. by constructor. }
    apply bool_decide_eq_false in Ee. intros H. run_step H tr1 verification Hv. apply runs_lift_inl in Hv as [-> Hv].
    run_step H tr2 verified Hf. run_step H tr3 budget1 Hb. apply runs_lift_inl in Hb as [-> Hb].
    unfold verify_approval in Hf. apply runs_bind in Hf as (? & ? & [[ctx slotFree] outcome] & -> & ->%runs_call & Hf).
    apply runs_lift_inl in Hf as [-> Hf]. assert (Hs := satisfied_sorted _ _ _ _ _ Hf).
    rewrite unsatisfied_spec in H by (done || apply (sort_by_sorted String.compare)).
    assert (Hd : used = true /\ requirements = missing_from (avr_satisfiedRequirementIDs verified) (sort_strings (ds_RequiredApprovals r)) /\
      decision = if bool_decide (requirements = []) then DecisionAllow else DecisionRequireApproval).
    { destruct (missing_from _ _); destruct H as [_ [= -> -> -> _]]; done. }
    destruct Hd as (-> & Hreq & ->). eapply approved_verified; eauto.
    exists ctx, slotFree, outcome. split; [|done]. cbn. left.
Qed.
End Approved.

Section SessionPin.
Context `{D : Dsl} `{DS : !DslSchema} `{DE : !DslEval}.

Lemma runs_sanitized {A} (p : prog (A + GoError)) fb tr a :
  runs (sanitized p fb) tr (inl a) <-> runs p tr (inl a).
Proof.
  unfold sanitized. rewrite runs_bind. split.
  - intros (tr1 & tr2 & [x|e] & -> & H & [-> [=]]). rewrite app_nil_r. by subst.
  - intros H. exists tr, [], (inl a). by rewrite app_nil_r.
Qed.

(** * What an evaluation is pinned to *)

(** The revision: the selected one, or what the slot resolved to. *)
Definition revision_selected (request : shared_request) (tr : trace) (revisionID : string) (slotGeneration : Z) : Prop :=
  match ExactRevision (sh_selector request) with
  | (exact, true) => revisionID = exact /\ slotGeneration = 0
  | (_, false) =>
      exists activation, slotGeneration <> 0 /\ revisionID <> ""%string /\
        ev (OResolve (mkResolveRequest (sh_namespace request) (fst (Selector_Slot (sh_selector request)))))
           (inl (mkResolveResponse activation)) ∈ tr /\
        act_namespace activation = sh_namespace request /\
        act_slot activation = fst (Selector_Slot (sh_selector request)) /\
        act_revisionID activation = revisionID /\ act_generation activation = slotGeneration
  end.

(** The artifact: what the cache delivered under that revision's key. *)
Definition artifact_loaded (request : shared_request) (tr : trace) (revisionID : string) (artifact : Artifact) : Prop :=
  hasProgram artifact = true /\
  exists bytes, ev (OGetOrLoad (mkRevisionKey (sh_namespace request) revisionID EvaluatorABIV1))
                  (inl (mkHydrated (Some artifact) bytes)) ∈ tr.

(** The snapshot: opened at the clock's time and the head generation, which is
    not below the requested minimum. *)
Definition snapshot_pinned (request : shared_request) (tr : trace) (s : Snapshot) : Prop :=
  snp_namespace s = sh_namespace request /\ sh_minimumGeneration request <= snp_generation s /\
  IsZero (snp_readAt s) = false /\ ev OClock (Some (snp_readAt s)) ∈ tr /\
  ev (OGetDataGeneration (mkGetDataGenerationRequest (sh_namespace request)))
     (inl (mkGetDataGenerationResponse true (snp_generation s))) ∈ tr /\
  ev (OOpenSnapshot (mkSnapshotRequest (sh_namespace request) (snp_generation s) (snp_readAt s))) (inl (Some s)) ∈ tr.

Lemma resolveRevision_selected request tr pin :
  runs (resolveRevision request) tr (inl pin) ->
  rv_namespace pin = sh_namespace request /\
  revision_selected request tr (rv_revisionID pin) (rv_slotGeneration pin).
Proof.
  unfold resolveRevision, revision_selected. destruct (ExactRevision (sh_selector request)) as [revisionID []].
  { by intros [_ [= ->]]. }
  destruct (Selector_Slot (sh_selector request)) as [slot []]; cbn [negb fst]; [|by intros [_ ?]].
  intros H. run_step H tr1 q Hq. apply runs_lift_inl in Hq as [-> Hq].
  unfold NewResolveRequest in Hq. do 2 (apply rbind_ok in Hq as (? & _ & Hq)). injection Hq as <-.
  run_step H tr2 resp Hr. apply runs_sanitized, runs_call in Hr as ->. destruct resp as [activation]. cbn [rsr_activation] in H.
  destruct (_ || _) eqn:E; [by destruct H|]. rewrite !orb_false_iff in E. destruct E as [[[E1 E2] E3] E4].
  apply bool_decide_eq_false, dec_stable in E1, E2. apply bool_decide_eq_false in E3. apply Z.eqb_neq in E4.
  assert (pin = mkResolved (sh_namespace request) (act_revisionID activation) (act_generation activation)) as ->.
  { destruct (NewSlotKey (sh_namespace request) slot), (NewSlotPointer (act_revisionID activation) (act_generation activation)); [|by destruct H as [_ [=]]..].
    apply runs_bind in H as (? & ? & ? & _ & _ & H). by destruct H as [_ [=]]. }
  split; [done|]. exists activation. repeat split; try done. cbn. left.
Qed.

Lemma load_revision_loaded pin request tr a :
  rv_namespace pin = sh_namespace request -> runs (load_revision pin) tr (inl a) ->
  artifact_loaded request tr (rv_revisionID pin) a.
Proof.
  intros Hn. unfold load_revision, NewRevisionKey. destruct (_ || _); [by intros [_ ?]|].
  intros (tr1 & tr2 & [h|e] & -> & ->%runs_call & H)%runs_bind; [|by destruct H].
  destruct h as [[x|] bytes]; cbn [hr_artifact] in H; [|by destruct H].
  destruct (hasProgram x) eqn:Hp; [|by destruct H]. destruct H as [-> [= ->]]. split; [done|].
  exists bytes. rewrite <- Hn. cbn. left.
Qed.

Lemma evaluationTime_clock tr t :
  runs evaluationTime tr (inl t) -> IsZero t = false /\ ev OClock (Some t) ∈ tr.
Proof.
  unfold evaluationTime. intros (tr1 & tr2 & [x|] & -> & ->%runs_call & H)%runs_bind; [|by destruct H].
  destruct (IsZero x) eqn:E; [by destruct H|]. destruct H as [_ [= ->]]. split; [done|]. left.
Qed.

Lemma openExactSnapshot_pinned request tr0 tr t s :
  IsZero t = false -> ev OClock (Some t) ∈ tr0 -> runs (openExactSnapshot request t) tr (inl s) ->
  snp_readAt s = t /\ snapshot_pinned request (tr0 ++ tr) s.
Proof.
  intros Ht Hclock H. unfold openExactSnapshot in H. run_step H ta q Hq. apply runs_lift_inl in Hq as [-> Hq].
  unfold NewGetDataGenerationRequest in Hq. apply rbind_ok in Hq as (? & _ & Hq). injection Hq as <-.
  run_step H tb hd0 Hh. apply runs_sanitized, runs_call in Hh as ->.
  destruct (gdr_validResponse hd0) eqn:Hval; cbn [negb] in H; [|by destruct H].
  run_step H te sq Hsq. apply runs_lift_inl in Hsq as [-> Hsq]. run_step H td opened Ho.
  apply runs_sanitized, runs_call in Ho as ->. destruct opened as [s'|]; [|by destruct H].
  destruct (_ || _) eqn:E in H; [by apply runs_bind in H as (? & ? & ? & _ & _ & [_ ?])|]. destruct H as [-> [= <-]].
  rewrite !orb_false_iff, !negb_false_iff in E. destruct E as [[[E1 E2] E3] E4].
  apply bool_decide_eq_false, dec_stable in E1. apply andb_true_iff in E2 as [E2 _]. apply Z.eqb_eq in E2, E3. apply Z.ltb_ge in E4.
  assert (sq = mkSnapshotRequest (sh_namespace request) (snp_generation s) (snp_readAt s)) as ->.
  { unfold NewSnapshotRequest in Hsq. apply rbind_ok in Hsq as (? & _ & Hsq). destruct (IsZero t); [done|].
    injection Hsq as <-. f_equal; [|done]. destruct (Z.ltb_spec (sh_minimumGeneration request) (gdr_generation hd0)); lia. }
  split; [done|]. unfold snapshot_pinned. subst t. repeat split; try done.
  - apply elem_of_app. by left.
  - apply elem_of_app. right. rewrite E3. destruct hd0 as [valid g]. cbn in Hval |- *. subst valid. left.
  - apply elem_of_app. right. cbn. right. left.
Qed.
End SessionPin.

(** * The admitted context *)

Section Context.
Context `{D : Dsl} `{DS : !DslSchema} `{DE : !DslEval}.

(** What a delegation verifier said during a run, and the engine believed;
    without evidence there is nothing delegated. *)
Definition delegation_verified (tr : trace) (binding : EvidenceBinding) (evidence : list Z) (used : bool)
  (delegated : ContextualData) : Prop :=
  if used then
    evidence <> [] /\ exists verification verified ctx slotFree outcome,
      NewDelegationVerificationRequest binding evidence = Ok verification /\
      ev (OVerifyDelegation verification) (ctx, slotFree, outcome) ∈ tr /\
      InvokeDelegationVerifier ctx slotFree (Some (fun _ => outcome)) verification = Ok verified /\
      delegated = dvr_contextualData verified
  else evidence = [] /\ delegated = mkContextualData [] [].

(** The effective context: the request's and the delegated facts, each of which
    the schema admits and none of which contradicts, repeats, shadows or
    refines an attribute of the snapshot. *)
Record admitted (schema : DataSchema) (v : View) (given delegated effective : ContextualData) : Prop := {
  ad_tuples : forall t, t ∈ cd_tuples effective <-> t ∈ cd_tuples given \/ t ∈ cd_tuples delegated;
  ad_attributes : forall a, a ∈ cd_attributes effective <->
    (a ∈ cd_attributes given \/ a ∈ cd_attributes delegated) /\ vw_attribute v (attr_entity a) (attr_path a) = None;
  ad_valid : forall t, t ∈ cd_tuples effective -> validTuple schema (rt_tuple t) = true;
  ad_additive : forall a, a ∈ cd_attributes given \/ a ∈ cd_attributes delegated ->
    validAttributePath schema (attr_entity a) (attr_path a) = true /\ additive_over v a;
  ad_canonical : canonical_context effective
}.

Lemma NewContextualData_members tuples attributes d :
  NewContextualData tuples attributes = Ok d ->
  (forall t, t ∈ cd_tuples d <-> t ∈ tuples) /\ (forall a, a ∈ cd_attributes d <-> a ∈ attributes).
Proof.
  unfold NewContextualData. destruct (_ || _); [done|]. intros (b & _ & H)%rbind_ok.
  destruct (negb _); [done|]. destruct (negb _); [done|].
  apply rbind_ok in H as (ts & (_ & M1 & _)%canonicalRelationshipTuples_Ok & H).
  by apply rbind_ok in H as (ats & (_ & M2 & _)%canonicalAttributes_Ok & [= <-]).
Qed.

Lemma ValidateContextualTuples_Ok schema d :
  ValidateContextualTuples schema d = Ok tt -> forall t, t ∈ cd_tuples d -> validTuple schema (rt_tuple t) = true.
Proof.
  unfold ValidateContextualTuples. destruct (forallb _ _) eqn:E; [|done]. intros _ t Ht.
  rewrite forallb_forall in E. apply E. by rewrite <- list_elem_of_In.
Qed.

Lemma normalize_members schema s v d tr d' :
  serves s v tr -> runs (sanitized (NormalizeContextualData schema s d) ErrorInternal) tr (inl d') ->
  (forall t, t ∈ cd_tuples d' <-> t ∈ cd_tuples d) /\
  (forall a, a ∈ cd_attributes d' <-> a ∈ cd_attributes d /\ vw_attribute v (attr_entity a) (attr_path a) = None) /\
  (forall a, a ∈ cd_attributes d -> validAttributePath schema (attr_entity a) (attr_path a) = true /\ additive_over v a) /\
  canonical_context d'.
Proof.
  intros Hs H%runs_sanitized. destruct (normalize_additive _ _ _ _ _ _ Hs H) as (x & Hx & Hadd & -> & -> & Hc).
  destruct (NewContextualData_members _ _ _ Hx) as [M1 M2]. split; [exact M1|].
  split; [intros a; rewrite list_elem_of_filter, M2; tauto|]. split; [|done]. intros a Ha. by apply Hadd, M2.
Qed.

Lemma admit_delegation_admitted schema s v binding evidence given contextual w tr tr1 d used w' :
  serves s v tr1 -> serves s v tr ->
  ValidateContextualTuples schema given = Ok tt ->
  runs (sanitized (NormalizeContextualData schema s given) ErrorInternal) tr1 (inl contextual) ->
  runs (admit_delegation schema s binding evidence contextual w) tr (inl (d, used, w')) ->
  exists delegated, delegation_verified tr binding evidence used delegated /\ admitted schema v given delegated d.
Proof.
  intros Hs1 Hs Hval Hn H. destruct (normalize_members _ _ _ _ _ _ Hs1 Hn) as (N1 & N2 & N3 & N4).
  assert (Hvalid := ValidateContextualTuples_Ok _ _ Hval).
  unfold admit_delegation in H. rewrite zlen_eqb in H. case_bool_decide as Ee.
  { destruct H as [-> [= -> -> ->]]. exists (mkContextualData [] []). split; [done|].
    split; cbn [cd_tuples cd_attributes]; [intros t; rewrite elem_of_nil, N1; tauto|intros a; rewrite elem_of_nil, N2; tauto| | |done].
    - intros t Ht. by apply Hvalid, N1.
    - intros a [Ha|Ha]; [by apply N3|by apply elem_of_nil in Ha]. }
  run_step H ta verification Hq. apply runs_lift_inl in Hq as [-> Hq]. run_step H tb verified Hf.
  unfold verify_delegation in Hf. apply runs_bind in Hf as (? & ? & [[ctx slotFree] outcome] & -> & ->%runs_call & Hf).
  apply runs_lift_inl in Hf as [-> Hf]. run_step H te w1 Hw. apply runs_lift_inl in Hw as [-> Hw].
  run_step H tf u Hu. apply runs_lift_inl in Hu as [-> Hu]. destruct u.
  assert (Hvalid' := ValidateContextualTuples_Ok _ _ Hu). run_step H tg m Hm. apply runs_lift_inl in Hm as [-> Hm].
  run_step H th m' Hm'. destruct H as [-> [= -> -> ->]].
  cbn [app] in Hs. rewrite app_nil_r in Hs. apply Forall_cons in Hs as [_ Hs].
  destruct (NewContextualData_members _ _ _ Hm) as [M1 M2]. destruct (normalize_members _ _ _ _ _ _ Hs Hm') as (L1 & L2 & L3 & L4).
  exists (dvr_contextualData verified). split.
  - split; [done|]. exists verification, verified, ctx, slotFree, outcome. repeat split; try done. cbn. left.
  - split; [|  |  |  |done].
    + intros t. rewrite L1, M1, elem_of_app, N1. done.
    + intros a. rewrite L2, M2, elem_of_app, N2. tauto.
    + intros t. rewrite L1, M1, elem_of_app, N1. intros [Ht|Ht]; auto.
    + intros a [Ha|Ha]; [by apply N3|]. apply L3, M2, elem_of_app. by right.
Qed.
End Context.

(** * One item *)

(** The value handed to the program for an attribute. *)
Definition resolved_attribute (F : Facts) (e : EntityRef) (p : list string) : option any_value :=
  match ft_attribute F e p with
  | Some c => match resolveValue c with Ok x => Some x | Err _ => None end
  | None => None
  end.

Section Item.
Context `{D : Dsl} `{DS : !DslSchema} `{DE : !DslEval} (v : View).
Hypothesis view_sorted : forall e rel, StronglySorted (clt compareSubjectRef) (vw_subjects v e rel).

(** The facts a reader answers from. *)
Definition reader_context (r : SnapshotReader) : ContextualData := mkContextualData (rd_tuples r) (rd_attributes r).
Definition reader_facts (r : SnapshotReader) : Facts := merged v (snp_readAt (rd_snapshot r)) (reader_context r).

Lemma run_evaluation_refines r : canonical_context (reader_context r) -> forall e graph tr answer graph',
  serves (rd_snapshot r) v tr -> runs (run_evaluation r graph e) tr (answer, graph') ->
  evaluates (reader_facts r) e answer.
Proof.
  intros Hc e. induction e as [x|k IH|resource relation k IH]; intros graph tr answer graph' Hs; cbn [run_evaluation].
  - intros [_ [= -> _]]. constructor.
  - intros (a & tr' & -> & H). apply Forall_cons in Hs as [_ Hs]. eapply evaluates_poll, IH; eauto.
  - intros (tr1 & tr2 & [x g] & -> & H1 & H2)%runs_bind. apply serves_app in Hs as [Hs1 Hs2].
    specialize (IH x _ _ _ _ Hs2 H2). unfold budgeted_read in H1.
    apply runs_bind in H1 as (tr3 & tr4 & res & -> & H1 & [-> Hx]). apply serves_app in Hs1 as [Hs1 _].
    destruct res as [subjects|err]; [|injection Hx as -> _; by eapply evaluates_error].
    destruct (work_add graph _ 0) as [g'|]; injection Hx as -> _; [|by eapply evaluates_error].
    destruct (ReadTuples_exact r v resource relation _ _ Hc view_sorted Hs1 H1) as [S1 S2].
    eapply evaluates_read; [exact S1|exact S2|exact IH].
Qed.

Lemma ResolveAttribute_resolved r e p tr found :
  serves (rd_snapshot r) v tr -> runs (ResolveAttribute r e p) tr (inl found) ->
  found = resolved_attribute (reader_facts r) e p.
Proof.
  intros Hs H. assert (Hr := ResolveAttribute_exact _ _ _ _ _ _ Hs H).
  unfold resolved_attribute, reader_facts. cbn [ft_attribute merged reader_context cd_attributes].
  destruct (contextual_value (rd_attributes r) e p) as [c|].
  - destruct Hr as (_ & _ & _ & x & -> & ->). done.
  - destruct (vw_attribute v e p) as [c|]; [|done]. destruct Hr as (_ & x & -> & ->). done.
Qed.

(** The attributes handed to the program: for every path the action's guard
    compares the fact at that path, and nothing else. *)
Definition attributes_match (F : Facts) (schema : DataSchema) (resource : EntityRef) (action : string)
  (attributes : list (string * any_tree)) : Prop :=
  forall q, leaf_at attributes q =
    if bool_decide (q ∈ ResourcePaths schema (ent_Type resource) action) then resolved_attribute F resource q else None.

Lemma resolveResourceAttributes_match session budget resource action tr attributes budget' :
  serves (session_snapshot session) v tr ->
  runs (resolveResourceAttributes session budget resource action) tr (inl (attributes, budget')) ->
  attributes_match (reader_facts (ss_reader session)) (ss_schema session) resource action attributes.
Proof.
  intros Hs H. unfold resolveResourceAttributes in H. set (F := reader_facts (ss_reader session)).
  refine (runs_ploop_inl (event_serves (session_snapshot session) v) (fun before state => forall q, leaf_at state.1 q =
    if bool_decide (q ∈ before) then resolved_attribute F resource q else None) _ _ _ [] _ tr (attributes, budget') _ Hs H).
  2:{ intros q. rewrite bool_decide_false by apply not_elem_of_nil. apply leaf_at_nil. }
  intros before path st st' tr' _ HI Hp Hrun q. unfold resolve_path in Hrun. run_step Hrun ta u Hu. clear Hu.
  run_step Hrun tb b Hb. clear Hb. run_step Hrun te found Hf. apply runs_sanitized in Hf.
  rewrite !Forall_app in Hp. destruct Hp as (_ & _ & Hp & _).
  apply ResolveAttribute_resolved in Hf; [|exact Hp]. fold F in Hf.
  assert (Hstep : forall o, leaf_at st'.1 q = (if bool_decide (q = path) then o else leaf_at st.1 q) ->
    o = resolved_attribute F resource path ->
    leaf_at st'.1 q = if bool_decide (q ∈ before ++ [path]) then resolved_attribute F resource q else None).
  { intros o -> ->. rewrite HI. rewrite (bool_decide_ext (q ∈ before ++ [path]) (q ∈ before \/ q = path))
      by (by rewrite elem_of_app, list_elem_of_singleton). repeat case_bool_decide; naive_solver. }
  destruct found as [value|].
  - run_step Hrun tf b2 Hb. clear Hb. run_step Hrun tg root Hr. apply runs_lift_inl in Hr as [-> Hr].
    destruct Hrun as [_ [= ->]]. apply (Hstep (Some value)); [|done]. cbn [fst]. by apply leaf_at_insert.
  - destruct Hrun as [_ [= ->]]. apply (Hstep None); [|done]. cbn [fst]. case_bool_decide as E; [|done]. subst q.
    rewrite HI, <- Hf. case (bool_decide (path ∈ before)); reflexivity.
Qed.
End Item.

(** * Decisions *)

Section Decisions.
Context `{D : Dsl} `{DS : !DslSchema} `{DE : !DslEval}.

(** Everything the items of one request are decided from. *)
Record SessionPin := mkPin {
  pn_revisionID : string; pn_slotGeneration : Z; pn_artifact : Artifact; pn_schema : DataSchema;
  pn_snapshot : Snapshot; pn_binding : EvidenceBinding; pn_context : ContextualData; pn_usedDelegation : bool }.

(** The run [tr] pinned [p] for the request, where the pinned snapshot shows [v]. *)
Record pinned (caller : Caller) (request : shared_request) (fingerprint : list Z) (tr : trace) (v : View) (p : SessionPin)
  : Prop := {
  pd_revision : revision_selected request tr (pn_revisionID p) (pn_slotGeneration p);
  pd_artifact : artifact_loaded request tr (pn_revisionID p) (pn_artifact p);
  pd_schema : NewDataSchema (Some (pn_artifact p)) = Ok (pn_schema p);
  pd_snapshot : snapshot_pinned request tr (pn_snapshot p);
  pd_binding : session_binding caller request fingerprint
    (mkResolved (sh_namespace request) (pn_revisionID p) (pn_slotGeneration p)) (pn_snapshot p)
    (snp_readAt (pn_snapshot p)) = Ok (pn_binding p);
  pd_context : exists delegated,
    delegation_verified tr (pn_binding p) (sh_delegationEvidence request) (pn_usedDelegation p) delegated /\
    admitted (pn_schema p) v (sh_contextualData request) delegated (pn_context p)
}.

Definition pin_facts (v : View) (p : SessionPin) : Facts := merged v (snp_readAt (pn_snapshot p)) (pn_context p).

(** The binding that approval evidence for one item must match. *)
Definition approval_binding (p : SessionPin) (item : BatchCheckItem) : result EvidenceBinding :=
  NewEvidenceBinding (mkEvidenceBindingInput (eb_caller (pn_binding p)) (eb_namespace (pn_binding p))
    (eb_selector (pn_binding p)) (pn_revisionID p) (pn_slotGeneration p) (snp_generation (pn_snapshot p))
    (snp_readAt (pn_snapshot p))
    (NewEvidenceFingerprint (approvalItemFingerprint (bi_subject item) (bi_resource item) (bi_action item)
       (bi_arguments item) (fingerprintEffectiveContext (pn_context p)) (pn_usedDelegation p)))).

(** The decision on one item. *)
Definition decided (tr : trace) (v : View) (p : SessionPin) (evidence : list Z) (item : BatchCheckItem)
  (steps : list TraceStep) (r : DecisionResult) : Prop :=
  exists arguments attributes answer binding requirements,
    ResolveArguments (bi_arguments item) = Ok arguments /\
    attributes_match (pin_facts v p) (pn_schema p) (bi_resource item) (bi_action item) attributes /\
    evaluates (pin_facts v p)
      (Program_Check (pn_artifact p)
         (mkDslRequest (bi_subject item) (bi_resource item) (bi_action item) arguments attributes)) (inl answer) /\
    approval_binding p item = Ok binding /\
    approved tr binding evidence answer (dr_decision r) requirements (dr_usedApproval r) /\
    (forall x, x ∈ dr_requirements r <-> x ∈ requirements) /\
    steps = ds_Trace answer /\ dr_reasonCode r = ds_Reason answer /\
    dr_revisionID r = pn_revisionID p /\ dr_slotGeneration r = pn_slotGeneration p /\
    dr_dataGeneration r = snp_generation (pn_snapshot p) /\ dr_evaluatedAt r = snp_readAt (pn_snapshot p) /\
    dr_usedContextualData r = negb (ContextualData_Empty (pn_context p)) /\
    dr_usedDelegation r = pn_usedDelegation p /\
    (dr_decision r = DecisionRequireApproval -> AuthorizationDigest binding = Some (dr_approvalBindingDigest r)).

(** ** Traces only grow *)

Lemma approved_weaken tr tr' b ev r d q u : (forall e, e ∈ tr -> e ∈ tr') -> approved tr b ev r d q u -> approved tr' b ev r d q u.
Proof.
  intros Hsub H. destruct H as [| | |verification verified missing ? ? ? ? (ctx & sf & o & Hin & Hi)];
    [constructor; auto..|]. eapply approved_verified; eauto. exists ctx, sf, o. auto.
Qed.

Lemma decided_weaken tr tr' v p ev item steps r :
  (forall e, e ∈ tr -> e ∈ tr') -> decided tr v p ev item steps r -> decided tr' v p ev item steps r.
Proof.
  intros Hsub (args & attrs & answer & b & q & H1 & H2 & H3 & H4 & H5 & H6). exists args, attrs, answer, b, q.
  repeat (split; [done|]). split; [|done]. eapply approved_weaken; eauto.
Qed.

Lemma selected_weaken request tr tr' id g :
  (forall e, e ∈ tr -> e ∈ tr') -> revision_selected request tr id g -> revision_selected request tr' id g.
Proof.
  intros Hsub. unfold revision_selected. destruct (ExactRevision _) as [? []]; [done|].
  intros (a & ? & ? & Hin & ?). exists a. auto.
Qed.
Lemma loaded_weaken request tr tr' id a :
  (forall e, e ∈ tr -> e ∈ tr') -> artifact_loaded request tr id a -> artifact_loaded request tr' id a.
Proof. intros Hsub (? & bytes & Hin). split; [done|]. exists bytes. auto. Qed.
Lemma snapshot_weaken request tr tr' s :
  (forall e, e ∈ tr -> e ∈ tr') -> snapshot_pinned request tr s -> snapshot_pinned request tr' s.
Proof. intros Hsub (? & ? & ? & I1 & I2 & I3). repeat split; auto. Qed.
Lemma delegation_weaken tr tr' b evidence used d :
  (forall e, e ∈ tr -> e ∈ tr') -> delegation_verified tr b evidence used d -> delegation_verified tr' b evidence used d.
Proof.
  intros Hsub. unfold delegation_verified. destruct used; [|done].
  intros (? & x & y & c & sf & o & ? & Hin & ?). split; [done|]. exists x, y, c, sf, o. auto.
Qed.

Lemma pinned_weaken caller request fp tr tr' v p :
  (forall e, e ∈ tr -> e ∈ tr') -> pinned caller request fp tr v p -> pinned caller request fp tr' v p.
Proof.
  intros Hsub [H1 H2 H3 H4 H5 (d & Hd & Ha)].
  split; eauto using selected_weaken, loaded_weaken, snapshot_weaken. exists d. eauto using delegation_weaken.
Qed.

(** ** Sessions *)

(** A session that holds what was pinned. *)
Definition session_of (p : SessionPin) (evidence : list Z) (batch : bool) : evaluationSession :=
  mkSession (pn_revisionID p) (pn_slotGeneration p) (snp_generation (pn_snapshot p)) (snp_readAt (pn_snapshot p))
    (pn_artifact p) (NewSnapshotReader (pn_snapshot p) (pn_context p)) (pn_schema p) (pn_binding p)
    (fingerprintEffectiveContext (pn_context p)) (negb (ContextualData_Empty (pn_context p)))
    (pn_usedDelegation p) evidence batch.

Lemma session_pins caller request fp w tr session b (view : Snapshot -> View) :
  (forall s, serves s (view s) tr) ->
  runs (openEvaluationSession caller request fp w) tr (inl (session, b)) ->
  exists p, session = session_of p (sh_approvalEvidence request) false /\
    pinned caller request fp tr (view (pn_snapshot p)) p.
Proof.
  intros Hs H. unfold openEvaluationSession in H. run_step H ta pin Hpin. run_step H tb a Ha. run_step H te t Ht.
  run_step H tf s Ho. unfold closing in H. apply runs_bind in H as (tg & th & x & -> & H & Hx).
  destruct x as [x|e]; [|by apply runs_bind in Hx as (? & ? & ? & _ & _ & [_ ?])]. destruct Hx as [-> [= <-]].
  destruct (resolveRevision_selected _ _ _ Hpin) as [Hns Hsel]. assert (Hart := load_revision_loaded _ _ _ _ Hns Ha).
  destruct (evaluationTime_clock _ _ Ht) as [Hz Hclock].
  destruct (openExactSnapshot_pinned _ _ _ _ _ Hz Hclock Ho) as [Hread Hsnap]. subst t.
  specialize (Hs s). rewrite !serves_app in Hs. destruct Hs as (_ & _ & _ & _ & Hs & _).
  unfold admit_session in H. destruct (session_binding _ _ _ _ _ _) as [binding|] eqn:Eb; [|by destruct H].
  run_step H ti schema Hsc. apply runs_lift_inl in Hsc as [-> Hsc]. run_step H tj u Hu. apply runs_lift_inl in Hu as [-> Hu].
  destruct u. run_step H tk d Hd. run_step H tm adm Hadm. destruct adm as [[d' used] w']. destruct H as [-> [= -> ->]].
  cbn [app] in Hs. rewrite app_nil_r, !serves_app in Hs. destruct Hs as [Hs1 Hs2].
  destruct (admit_delegation_admitted _ _ _ _ _ _ _ _ _ _ _ _ _ Hs1 Hs2 Hu Hd Hadm) as (delegated & Hdv & Had).
  exists (mkPin (rv_revisionID pin) (rv_slotGeneration pin) a schema s binding d' used). split; [done|].
  assert (E : mkResolved (sh_namespace request) (rv_revisionID pin) (rv_slotGeneration pin) = pin)
    by (rewrite <- Hns; by destruct pin).
  split; cbn [pn_revisionID pn_slotGeneration pn_artifact pn_schema pn_snapshot pn_binding pn_context pn_usedDelegation].
  - eapply selected_weaken; [|exact Hsel]. intros e He. rewrite !elem_of_app. tauto.
  - eapply loaded_weaken; [|exact Hart]. intros e He. rewrite !elem_of_app. tauto.
  - done.
  - eapply snapshot_weaken; [|exact Hsnap]. intros e. rewrite !elem_of_app. tauto.
  - by rewrite E.
  - exists delegated. split; [|done]. eapply delegation_weaken; [|exact Hdv]. intros e He. rewrite !elem_of_app. tauto.
Qed.

(** ** Items *)

Lemma decide_item_decided p evidence batch budget item answer tr r b' :
  runs (decide_item (session_of p evidence batch) budget item answer) tr (inl (r, b')) ->
  exists binding requirements,
    approval_binding p item = Ok binding /\
    approved tr binding evidence answer (dr_decision r) requirements (dr_usedApproval r) /\
    (forall x, x ∈ dr_requirements r <-> x ∈ requirements) /\ dr_reasonCode r = ds_Reason answer /\
    dr_revisionID r = pn_revisionID p /\ dr_slotGeneration r = pn_slotGeneration p /\
    dr_dataGeneration r = snp_generation (pn_snapshot p) /\ dr_evaluatedAt r = snp_readAt (pn_snapshot p) /\
    dr_usedContextualData r = negb (ContextualData_Empty (pn_context p)) /\
    dr_usedDelegation r = pn_usedDelegation p /\
    (dr_decision r = DecisionRequireApproval -> AuthorizationDigest binding = Some (dr_approvalBindingDigest r)).
Proof.
  intros H. unfold decide_item in H. run_step H ta graph Hg. apply runs_lift_inl in Hg as [-> _].
  change (item_binding (session_of p evidence batch) item) with (approval_binding p item) in H.
  destruct (approval_binding p item) as [binding|]; [|by destruct H].
  run_step H tb final Hf. destruct final as [[[decision requirements] used] w].
  apply finalizeApproval_approved in Hf. cbn [ss_approvalEvidence session_of] in Hf.
  run_step H te digest Hd. destruct (decision_result _ _ _ _ _ _ _) as [x|] eqn:Ex; [|by destruct H].
  destruct H as [-> [= -> ->]]. apply NewDecisionResult_iff in Ex as (_ & _ & Hcan & Hin & _).
  cbn [di_Decision di_ReasonCode di_RevisionID di_SlotGeneration di_DataGeneration di_EvaluatedAt di_Requirements
    di_ApprovalBindingDigest di_UsedContextualData di_UsedApproval di_UsedDelegation ss_revisionID ss_slotGeneration
    ss_dataGeneration ss_evaluatedAt ss_usedContextualData ss_usedDelegation session_of] in Hcan, Hin.
  apply canonicalIdentifiers_Ok in Hcan as (_ & Hmem & _); [|apply result_limit].
  unfold result_input in Hin. injection Hin as Ed _ Er E1 E2 E3 E4 E5 E6 E7 E8. subst decision used.
  exists binding, requirements. split; [done|].
  split; [eapply approved_weaken; [|exact Hf]; intros e He; rewrite !elem_of_app; tauto|]. repeat (split; [done|]).
  intros Hreq. rewrite Hreq in Hd. cbn in Hd. destruct (AuthorizationDigest binding); [|by destruct Hd].
  destruct Hd as [_ [= ->]]. congruence.
Qed.

Lemma evaluate_decided p evidence batch budget item tr r steps b' v :
  (forall e rel, StronglySorted (clt compareSubjectRef) (vw_subjects v e rel)) ->
  canonical_context (pn_context p) -> serves (pn_snapshot p) v tr ->
  runs (evaluateSessionItemWithTrace (session_of p evidence batch) budget item) tr (inl (r, steps, b')) ->
  DecisionResult_valid r = true -> decided tr v p evidence item steps r.
Proof.
  intros Hsorted Hc Hs H Hvalid. unfold evaluateSessionItemWithTrace in H. set (ses := session_of p evidence batch) in *.
  assert (Hctx : reader_context (ss_reader ses) = pn_context p) by (unfold reader_context, ses; cbn; by destruct (pn_context p)).
  assert (HF : reader_facts v (ss_reader ses) = pin_facts v p) by (unfold reader_facts, pin_facts; by rewrite Hctx).
  run_step H ta arguments Ha. apply runs_lift_inl in Ha as [-> Ha]. run_step H tb attrs Hb. destruct attrs as [attrs w].
  apply runs_bind in H as (te & tf & [answer graph] & -> & He & H). rewrite !serves_app in Hs.
  destruct Hs as (_ & Hs1 & Hs2 & _).
  apply (resolveResourceAttributes_match v) in Hb; [|exact Hs1]. rewrite HF in Hb.
  apply (run_evaluation_refines v Hsorted) in He; [|by rewrite Hctx|exact Hs2]. rewrite HF in He.
  destruct answer as [answer|e].
  2:{ destruct (sanitizeEvaluationError e); [by destruct H|]. by destruct H as [_ [= -> _ _]]. }
  run_step H tg done1 Hd. destruct done1 as [x b]. destruct H as [-> [= -> -> ->]].
  apply decide_item_decided in Hd as (binding & requirements & K1 & K2 & K3 & K4).
  exists arguments, attrs, answer, binding, requirements. repeat (split; [done|]).
  split; [eapply approved_weaken; [|exact K2]; intros y Hy; rewrite !elem_of_app; tauto|]. done.
Qed.

(** The pinned context of a session is canonical. *)
Lemma pinned_canonical caller request fp tr v p : pinned caller request fp tr v p -> canonical_context (pn_context p).
Proof. intros [_ _ _ _ _ (d & _ & [])]. done. Qed.

Lemma close_after_inl {A} s (p : prog (A + GoError)) tr a :
  runs (close_after s p) tr (inl a) -> exists tr1 tr2, tr = tr1 ++ tr2 /\ runs p tr1 (inl a).
Proof.
  unfold close_after. intros (tr1 & tr2 & [x|e] & -> & H1 & H2)%runs_bind.
  - apply runs_bind in H2 as (? & ? & [c|] & -> & _ & H2); [by destruct H2|]. destruct H2 as [_ [= ->]]. eauto.
  - apply runs_bind in H2 as (? & ? & ? & _ & _ & [_ ?]). done.
Qed.

(** C1: a check decides what the policy says about pinned facts. Suppose no
    successful read of a snapshot contradicts the view behind it. Whenever a
    check answers, then in that very run the revision was the selected one or
    the slot's, the program was loaded under exactly that revision's key, and
    one snapshot was opened at the namespace's head generation, at the
    clock's time, not below the requested minimum. The program was evaluated
    with the resolved arguments, for every path its guard compares the
    attribute found in the snapshot or the admitted context, and relations
    that are the exact union of both; every contextual or delegated fact is
    admitted by the schema and adds to the snapshot without touching what is
    there. The decision follows from the program's answer and, if approvals
    are required, from what the verifier confirmed for this very item; the
    response names the revision, generations, time and open requirements. *)
Theorem check_decides caller request tr response (view : Snapshot -> View) :
  (forall s e rel, StronglySorted (clt compareSubjectRef) (vw_subjects (view s) e rel)) ->
  (forall s, serves s (view s) tr) -> runs (Check caller request) tr (inl response) ->
  cr_selector response = ck_selector request /\ CheckResponse_valid response = true /\
  exists p steps,
    pinned caller (check_shared request) (checkFingerprint request) tr (view (pn_snapshot p)) p /\
    decided tr (view (pn_snapshot p)) p (ck_approvalEvidence request) (check_item request) steps (cr_result response).
Proof.
  intros Hsorted Hs H. unfold Check in H. run_step H ta v Hv. apply runs_lift_inl in Hv as [-> Hv].
  apply NewCheckRequest_id in Hv as ->. run_step H tb u Hu. clear Hu. run_step H te session Hses. destruct session as [session b].
  run_step H tf x Hx. apply close_after_inl in Hx as (tg & th & -> & Hx). destruct x as [x b'].
  unfold evaluateSessionItem in Hx. run_step Hx ti y Hy. destruct y as [[y steps] b1]. destruct Hx as [-> [= -> ->]].
  assert (Hs1 : forall s, serves s (view s) te) by (intros s; specialize (Hs s); rewrite !serves_app in Hs; tauto).
  apply (session_pins _ _ _ _ _ _ _ view Hs1) in Hses as (p & -> & Hp). cbn [fst snd] in *.
  destruct (NewCheckResponse request y) as [resp|] eqn:Er; [|by destruct H].
  apply runs_bind in H as (? & ? & ? & -> & _ & [-> [= ->]]). unfold NewCheckResponse in Er.
  destruct (CheckRequest_valid request) eqn:Hreq; [|done]. destruct (DecisionResult_valid y) eqn:Hval; [|done]. cbn [negb orb] in Er.
  destruct (selectorMatchesResult _ _) eqn:Hsel; [|done]. injection Er as <-. cbn [cr_selector cr_result].
  split; [done|]. split.
  { unfold CheckResponse_valid. cbn [cr_selector cr_result]. rewrite Hval, Hsel, !andb_true_r.
    unfold CheckRequest_valid in Hreq. destruct (Selector_valid (ck_selector request)); [done|].
    rewrite orb_true_r in Hreq. done. }
  exists p, steps. split; [eapply pinned_weaken; [|exact Hp]; intros e He; rewrite !elem_of_app; tauto|].
  assert (Hs2 : serves (pn_snapshot p) (view (pn_snapshot p)) ti)
    by (specialize (Hs (pn_snapshot p)); rewrite !serves_app in Hs; tauto).
  eapply decided_weaken; [|eapply evaluate_decided; eauto using pinned_canonical].
  intros e He. rewrite !elem_of_app. tauto.
Qed.
End Decisions.
