(* ===== verification/ServiceProofs.v ===== *)
(** What the services answer (proofs for Session.v and Services.v): batches
    share one pin, explanations reveal declarations only, published revisions
    and data writes are what their requests say. *)

From Stdlib Require Import ZArith Lia Sorted.
From stdpp Require Import base list gmap strings sorting.
From S2P Require Import Prelude Limits Text Types Invocation Cost Canon Data DataValid Policy Caller Requests Revisions Domain Fingerprint Evidence Extensions PointerCache RevisionCache StoreData Runtime Evaluator EvaluatorProofs AppFingerprint Session Services ServiceSafety SessionProofs.

Section Batch.
Context `{D : Dsl} `{DS : !DslSchema} `{DE : !DslEval}.

(** * Batches *)

Lemma batch_items_decided p evidence v TR items tr st results b :
  (forall e rel, StronglySorted (clt compareSubjectRef) (vw_subjects v e rel)) ->
  canonical_context (pn_context p) -> serves (pn_snapshot p) v tr -> (forall e, e ∈ tr -> e ∈ TR) ->
  runs (ploop (batch_item (session_of p evidence true)) ([], st) items) tr (inl (results, b)) ->
  Forall2 (fun item r => DecisionResult_valid r = true -> exists steps, decided TR v p evidence item steps r) items results.
Proof.
  intros Hsorted Hc Hs Hsub H.
  refine (runs_ploop_inl (fun e => e ∈ TR /\ event_serves (pn_snapshot p) v e) (fun before state =>
    Forall2 (fun item r => DecisionResult_valid r = true -> exists steps, decided TR v p evidence item steps r) before state.1)
    _ _ _ [] ([], st) tr (results, b) _ _ H).
  - intros before item s s' tr' _ HI Hp Hrun. unfold batch_item in Hrun. run_step Hrun ta u Hu. clear Hu.
    run_step Hrun tb r Hr. destruct Hrun as [-> [= ->]]. apply Forall2_app; [done|]. constructor; [|done].
    intros Hvalid. unfold evaluateSessionItem in Hr. run_step Hr te y Hy. destruct y as [[y steps] b1].
    destruct Hr as [-> [= ->]]. cbn [fst] in *. rewrite !Forall_app in Hp. destruct Hp as (_ & [Hp _] & _).
    exists steps. eapply decided_weaken; [|eapply evaluate_decided; [exact Hsorted|exact Hc| |exact Hy|exact Hvalid]].
    + intros e He. rewrite Forall_forall in Hp. exact (proj1 (Hp e He)).
    + eapply Forall_impl; [exact Hp|]. intros e [_ He]. exact He.
  - constructor.
  - apply Forall_forall. intros e He. split; [auto|]. unfold serves in Hs. rewrite Forall_forall in Hs. auto.
Qed.

Lemma Forall2_impl_in_r {A B} (P Q : A -> B -> Prop) l k :
  Forall2 P l k -> (forall x y, y ∈ k -> P x y -> Q x y) -> Forall2 Q l k.
Proof.
  induction 1 as [|x y l k Hxy Hlk IH]; intros HQ; constructor; [apply HQ; [left|done]|].
  apply IH. intros a b Hb. apply HQ. by right.
Qed.

(** C11: a batch is one evaluation. Whenever a batch answers, one revision, one
    program, one snapshot, one instant and one effective context were pinned
    for the whole request, and the results are, in the order of the items and
    one each, the decisions on those items from that single pin: no item can
    see another revision, a later write or another item's facts. *)
Theorem batch_decides caller request tr response (view : Snapshot -> View) :
  (forall s e rel, StronglySorted (clt compareSubjectRef) (vw_subjects (view s) e rel)) ->
  (forall s, serves s (view s) tr) -> runs (BatchCheck caller request) tr (inl response) ->
  br_selector response = bc_selector request /\
  exists p,
    pinned caller (batch_shared request) (batchFingerprint request) tr (view (pn_snapshot p)) p /\
    Forall2 (fun item r => DecisionResult_valid r = true /\
               exists steps, decided tr (view (pn_snapshot p)) p (bc_approvalEvidence request) item steps r)
      (bc_items request) (br_results response).
Proof.
  intros Hsorted Hs H. unfold BatchCheck in H. run_step H ta v Hv. apply runs_lift_inl in Hv as [-> Hv].
  apply NewBatchCheckRequest_id in Hv as ->. run_step H tb u Hu. clear Hu. run_step H te session Hses.
  destruct session as [session b]. run_step H tf x Hx. apply close_after_inl in Hx as (tg & th & -> & Hx).
  destruct x as [results b'].
  assert (Hs1 : forall s, serves s (view s) te) by (intros s; specialize (Hs s); rewrite !serves_app in Hs; tauto).
  apply (session_pins _ _ _ _ _ _ _ view Hs1) in Hses as (p & -> & Hp). cbn [fst snd] in *.
  destruct (NewBatchCheckResponse request results) as [resp|] eqn:Er; [|by destruct H].
  apply runs_bind in H as (? & ? & ? & -> & _ & [-> [= ->]]). unfold NewBatchCheckResponse in Er.
  destruct (_ <? _) eqn:El in Er; [done|]. destruct (_ || _) eqn:Eq in Er; [done|]. apply rbind_ok in Er as (? & _ & Er).
  destruct results as [|first rest] eqn:Eres; [done|]. rewrite <- Eres in *.
  destruct (forallb _ results) eqn:Eall; [|done]. cbn [negb] in Er.
  destruct (selectorMatchesResult (bc_selector request) first); [|done]. cbn [negb] in Er.
  injection Er as <-. cbn [br_selector br_results]. split; [done|]. exists p.
  split; [eapply pinned_weaken; [|exact Hp]; intros e He; rewrite !elem_of_app; tauto|].
  assert (Hs2 : serves (pn_snapshot p) (view (pn_snapshot p)) tg)
    by (specialize (Hs (pn_snapshot p)); rewrite !serves_app in Hs; tauto).
  eapply Forall2_impl_in_r.
  2:{ intros item r Hr Hd. rewrite forallb_forall in Eall. apply list_elem_of_In, Eall in Hr.
    apply andb_true_iff in Hr as [Hr _]. exact (conj Hr (Hd Hr)). }
  eapply batch_items_decided; [by apply Hsorted|by eapply pinned_canonical|exact Hs2| |exact Hx].
  intros e He. rewrite !elem_of_app. tauto.
Qed.
End Batch.

(** * Explanations *)

Section Explain.
Context `{D : Dsl} `{DS : !DslSchema} `{DE : !DslEval}.

(** A step of an explanation: a declaration of the schema, how it was used and
    whether it matched; no entity, subject or value. *)
Definition redacts (schema : Schema) (t : TraceStep) (step : ExplainStep) : Prop :=
  (ent_Type (ts_Resource t), ts_Declaration t, ts_Kind t) ∈ declarations schema /\
  es_schemaPath step = (ent_Type (ts_Resource t) +:+ "." +:+ ts_Declaration t)%string /\
  es_operator step = ts_Kind t /\ es_outcome step = ts_Matched t.

Lemma redactedExplainSteps_redacts artifact trace tr steps :
  runs (redactedExplainSteps artifact trace) tr (inl steps) ->
  exists schema, Parse (CanonicalSource artifact) = Some schema /\ Forall2 (redacts schema) trace steps.
Proof.
  unfold redactedExplainSteps. destruct (_ <? _); [by intros [_ ?]|]. intros H. run_step H ta u Hu. clear Hu.
  destruct (Parse _) as [schema|]; [|by destruct H]. exists schema. split; [done|].
  refine (runs_ploop_inl (fun _ => True) (fun before steps => Forall2 (redacts schema) before steps) _ _ _ [] [] _ steps _ _ H);
    [|constructor|by apply Forall_true].
  intros before t s s' tr' _ HI _ Hrun. unfold redact_step in Hrun. run_step Hrun tb u1 Hu. clear Hu.
  destruct (bool_decide _) eqn:Ed; cbn [negb] in Hrun; [|by destruct Hrun]. apply bool_decide_eq_true in Ed.
  destruct (NewExplainStep _ _ _) as [step|] eqn:Es; [|by destruct Hrun]. destruct Hrun as [_ [= ->]].
  apply Forall2_app; [done|]. constructor; [|done]. unfold NewExplainStep in Es.
  do 2 (apply rbind_ok in Es as (? & _ & Es)). by injection Es as <-.
Qed.

(** C26: an explanation decides like a check and reveals declarations only. It
    is evaluated once, from one pin, to a decision under the same rules as a
    check; its steps are, one by one and in order, the steps of that very
    evaluation, reduced to a relation, permission or action that the
    revision's own schema declares, the kind of step and whether it matched. *)
Theorem explain_decides caller request tr response (view : Snapshot -> View) :
  (forall s e rel, StronglySorted (clt compareSubjectRef) (vw_subjects (view s) e rel)) ->
  (forall s, serves s (view s) tr) -> runs (Explain caller request) tr (inl response) ->
  er_selector response = ck_selector (ex_check request) /\
  exists p steps schema,
    pinned caller (check_shared (ex_check request)) (checkFingerprint (ex_check request)) tr (view (pn_snapshot p)) p /\
    decided tr (view (pn_snapshot p)) p (ck_approvalEvidence (ex_check request)) (check_item (ex_check request)) steps
      (er_result response) /\
    Parse (CanonicalSource (pn_artifact p)) = Some schema /\ Forall2 (redacts schema) steps (er_steps response).
Proof.
  intros Hsorted Hs H. unfold Explain in H. run_step H ta v Hv. apply runs_lift_inl in Hv as [-> Hv].
  apply NewCheckRequest_id in Hv as ->. run_step H tz q Hq. apply runs_lift_inl in Hq as [-> Hq].
  unfold NewExplainRequest in Hq. destruct (CheckRequest_valid _); [|done]. injection Hq as <-.
  run_step H tb u Hu. clear Hu. run_step H te session Hses. destruct session as [session b].
  run_step H tf x Hx. apply close_after_inl in Hx as (tg & th & -> & Hx). destruct x as [[y steps] b'].
  run_step H ti redacted Hr. cbn [fst snd] in Hr. apply redactedExplainSteps_redacts in Hr as (schema & Hparse & Hred).
  assert (Hs1 : forall s, serves s (view s) te) by (intros s; specialize (Hs s); rewrite !serves_app in Hs; tauto).
  apply (session_pins _ _ _ _ _ _ _ view Hs1) in Hses as (p & -> & Hp). cbn [fst snd] in *.
  destruct (NewExplainResponse _ y redacted) as [resp|] eqn:Er; [|by destruct H].
  apply runs_bind in H as (? & ? & ? & -> & _ & [-> [= ->]]). unfold NewExplainResponse in Er.
  destruct (_ <? _) in Er; [done|]. apply rbind_ok in Er as (? & _ & Er). cbn [ex_check] in Er.
  destruct (DecisionResult_valid y) eqn:Hval; [|by rewrite orb_true_r in Er].
  destruct (_ || _) in Er; [done|]. destruct (negb _) in Er; [done|]. destruct (negb _) in Er; [done|].
  injection Er as <-. cbn [er_selector er_result er_steps]. split; [done|].
  exists p, steps, schema. split; [eapply pinned_weaken; [|exact Hp]; intros e He; rewrite !elem_of_app; tauto|].
  split; [|done].
  assert (Hs2 : serves (pn_snapshot p) (view (pn_snapshot p)) tg)
    by (specialize (Hs (pn_snapshot p)); rewrite !serves_app in Hs; tauto).
  eapply decided_weaken; [|eapply evaluate_decided; [apply Hsorted|by eapply pinned_canonical|exact Hs2|exact Hx|exact Hval]].
  intros e He. rewrite !elem_of_app. tauto.
Qed.
End Explain.

(** * Reaching an operation *)

Section Reach.
Context `{D : Dsl} `{DS : !DslSchema} `{DE : !DslEval}.

(** An operation that a program never performs is performed by what follows,
    and only after the program succeeded. *)
Lemma reached {A B} (P : op -> Prop) (p : prog (A + GoError)) (f : A -> prog (B + GoError)) tr r o (x : reply o) :
  ev o x ∈ tr -> runs (ebind p f) tr r -> only P p -> ~ P o ->
  exists tr1 tr2 a, tr = tr1 ++ tr2 /\ runs p tr1 (inl a) /\ runs (f a) tr2 r /\ ev o x ∈ tr2.
Proof.
  intros Hin H Hp Ho. assert (Hnot : forall tr1 a, runs p tr1 a -> ev o x ∉ tr1).
  { intros tr1 a H1 Hx. apply only_runs with (P := P) in H1; [|done]. rewrite Forall_forall in H1. exact (Ho (H1 _ Hx)). }
  apply runs_ebind in H as [(e & H & ->)|(tr1 & tr2 & a & -> & H1 & H2)]; [by apply Hnot in H|].
  exists tr1, tr2, a. repeat (split; [done|]). apply elem_of_app in Hin as [Hin|]; [|done]. by apply Hnot in H1.
Qed.

(** * The minimum generation *)

Definition not_head (o : op) : Prop := match o with OGetDataGeneration _ => False | _ => True end.

(** The generation a head read returned. *)
Definition head_of (e : event) : option Z :=
  match e with existT (OGetDataGeneration _) (inl hd) => Some (gdr_generation hd) | _ => None end.

(** What the code does with a minimum generation above the head. SPEC.md and the
    store's contract describe a wait for it. If the head that an evaluation reads lies below the requested minimum, the evaluation
    is refused, whatever the store answers afterwards; in particular when it
    waited and opened a snapshot that satisfies the minimum. *)
Theorem minimum_above_head_refused caller request fp w tr r q hd :
  runs (openEvaluationSession caller request fp w) tr r ->
  ev (OGetDataGeneration q) (inl hd) ∈ tr -> gdr_generation hd < sh_minimumGeneration request ->
  exists e, r = inr e.
Proof.
  intros H Hin Hlt. unfold openEvaluationSession in H.
  destruct (reached not_head _ _ _ _ _ _ Hin H) as (t1 & t2 & pin & -> & _ & H1 & Hin1); [unfold resolveRevision; only_walk|intros []|]. clear H Hin.
  destruct (reached not_head _ _ _ _ _ _ Hin1 H1) as (t3 & t4 & a & -> & _ & H2 & Hin2); [unfold load_revision; only_walk|intros []|]. clear H1 Hin1.
  destruct (reached not_head _ _ _ _ _ _ Hin2 H2) as (t5 & t6 & t & -> & _ & H & Hin3); [unfold evaluationTime; only_walk|intros []|]. clear H2 Hin2.
  apply runs_ebind in H as [(e & _ & ->)|(t7 & t8 & s & -> & Ho & H)]; [eauto|]. exfalso.
  apply elem_of_app in Hin3 as [Hin3|Hin3].
  - unfold openExactSnapshot in Ho. run_step Ho ta gq Hq. apply runs_lift_inl in Hq as [-> _].
    run_step Ho tb hd' Hh. apply runs_sanitized, runs_call in Hh as ->.
    destruct (gdr_validResponse hd'); cbn [negb] in Ho; [|by destruct Ho].
    run_step Ho te sq Hsq. apply runs_lift_inl in Hsq as [-> _]. run_step Ho tf opened Hop.
    apply runs_sanitized, runs_call in Hop as ->. destruct opened as [s'|]; [|by destruct Ho].
    destruct (_ || _) eqn:E in Ho; [by apply runs_bind in Ho as (? & ? & ? & _ & _ & [_ ?])|]. destruct Ho as [-> _].
    rewrite !orb_false_iff, !negb_false_iff in E. destruct E as [[[_ _] E3%Z.eqb_eq] E4%Z.ltb_ge].
    apply elem_of_cons in Hin3 as [Heq|Heq%list_elem_of_singleton]; apply (f_equal head_of) in Heq; cbn in Heq;
      [|discriminate Heq]. injection Heq as Heq. lia.
  - unfold closing in H. apply runs_bind in H as (t9 & t10 & x & -> & H1 & H2).
    assert (Hno : forall tr', Forall (fun e => not_head (projT1 e)) tr' -> ev (OGetDataGeneration q) (inl hd) ∉ tr').
    { intros tr' Hf Hx. rewrite Forall_forall in Hf. exact (Hf _ Hx). }
    apply elem_of_app in Hin3 as [Hin3|Hin3]; revert Hin3; apply Hno.
    + eapply only_runs; [|exact H1]. eapply only_weaken; [|apply admit_only]. by intros [].
    + destruct x as [x|e]; [by destruct H2 as [-> _]|]. eapply only_runs; [|exact H2]. only_walk.
Qed.
End Reach.

(** * Writes, publications and reads of policies *)

(** The common start: validation that returns the request itself, the gate, and
    one call of the store. *)
Ltac answer_step H q reply :=
  let v := fresh "v" in let Hv := fresh "Hv" in let u := fresh "u" in let Hu := fresh "Hu" in let Hr := fresh "Hr" in
  let ta := fresh "ta" in let tb := fresh "tb" in let te := fresh "te" in
  run_step H ta v Hv; apply runs_lift_inl in Hv as [-> Hv];
  assert (v = q) as -> by (destruct q; constructed Hv; done);
  run_step H tb u Hu; clear Hu; run_step H te reply Hr; apply runs_call in Hr as ->.

Section Answers.
Context `{D : Dsl} `{DS : !DslSchema} `{DE : !DslEval}.

(** Every tuple and attribute a request writes or deletes has a place in the
    schema. *)
Definition schema_admits (schema : DataSchema) (q : WriteDataRequest) : Prop :=
  (forall t, t ∈ wd_tupleWrites q -> validTuple schema (rt_tuple t) = true) /\
  (forall k, k ∈ wd_tupleDeletes q -> validTuple schema (tk_tuple k) = true) /\
  (forall a, a ∈ wd_attributeWrites q -> validAttributePath schema (attr_entity a) (attr_path a) = true) /\
  (forall k, k ∈ wd_attributeDeletes q -> validAttributePath schema (ak_entity k) (ak_path k) = true).

Lemma forallb_elem_of {A} (f : A -> bool) l : forallb f l = true -> forall x, x ∈ l -> f x = true.
Proof. rewrite forallb_forall. intros H x Hx. apply H. by rewrite <- list_elem_of_In. Qed.

Lemma schema_admits_Ok schema q :
  ValidateTuplePaths schema q = Ok tt -> ValidateAttributePaths schema q = Ok tt -> schema_admits schema q.
Proof.
  unfold ValidateTuplePaths, ValidateAttributePaths.
  destruct (forallb _ (wd_tupleWrites q)) eqn:E1; [|done]. destruct (forallb _ (wd_tupleDeletes q)) eqn:E2; [|done].
  destruct (forallb _ (wd_attributeWrites q)) eqn:E3; [|done]. destruct (forallb _ (wd_attributeDeletes q)) eqn:E4; [|done].
  intros _ _. repeat split; by apply forallb_elem_of.
Qed.

Definition not_write (o : op) : Prop := match o with OWriteData _ => False | _ => True end.

(** The replies to data writes. *)
Definition write_of (e : event) : option (WriteDataRequest * (WriteDataResponse + GoError)) :=
  match e with existT (OWriteData q) x => Some (q, x) | _ => None end.

(** C12: only typed data reach the store. If a data write reaches the store at
    all, then the exact validation revision named by the request was read
    before, its record is intact and belongs to the request's namespace and
    identifier, and its schema admits every tuple and attribute the request
    writes or deletes; what reaches the store is the request itself,
    revalidated; and the answer is the store's, an error included, except that
    a response without a generation is refused. *)
Theorem data_write_admitted caller request tr r q x :
  runs (DataService_WriteData caller request) tr r -> ev (OWriteData q) x ∈ tr ->
  NewWriteDataRequest (request_input request) = Ok q /\
  (exists record artifact schema,
     ev (OGetRevision (mkGetRevisionRequest (wd_namespace q) (wd_validationRevisionID q))) (inl record) ∈ tr /\
     RevisionRecord_Valid record = true /\ rm_namespace (rw_metadata record) = wd_namespace q /\
     RevisionMetadata_ID (rw_metadata record) = wd_validationRevisionID q /\
     DecodeArtifact (rw_artifact record) = Some artifact /\ NewDataSchema (Some artifact) = Ok schema /\
     schema_admits schema q) /\
  r = match x with
      | inl resp => if wr_generation resp =? 0 then inr (appError ErrorIntegrity) else inl resp
      | inr e => inr e
      end.
Proof.
  intros H Hin. unfold DataService_WriteData in H.
  destruct (reached not_write _ _ _ _ _ _ Hin H) as (t1 & t2 & v & -> & Hv & H1 & Hin1); [done|intros []|]. clear H Hin.
  apply runs_lift_inl in Hv as [-> Hv].
  destruct (reached not_write _ _ _ _ _ _ Hin1 H1) as (t3 & t4 & u & -> & _ & H2 & Hin2);
    [unfold authorize; only_walk|intros []|]. clear H1 Hin1.
  destruct (reached not_write _ _ _ _ _ _ Hin2 H2) as (t5 & t6 & rq & -> & Hrq & H3 & Hin3); [done|intros []|]. clear H2 Hin2.
  apply runs_lift_inl in Hrq as [-> Hrq]. unfold NewGetRevisionRequest in Hrq. apply rbind_ok in Hrq as (? & _ & Hrq).
  destruct (validRevisionIDString _); [|done]. injection Hrq as <-.
  destruct (reached not_write _ _ _ _ _ _ Hin3 H3) as (t7 & t8 & record & -> & ->%runs_call & H4 & Hin4); [done|intros []|].
  clear H3 Hin3. destruct (_ || _) eqn:E in H4; [destruct H4 as [-> _]; by apply elem_of_nil in Hin4|].
  apply orb_false_iff in E as [E1%bool_decide_eq_false%dec_stable E2%bool_decide_eq_false%dec_stable].
  destruct (RevisionRecord_Valid record) eqn:Hrec; cbn [negb] in H4; [|destruct H4 as [-> _]; by apply elem_of_nil in Hin4].
  destruct (DecodeArtifact (rw_artifact record)) as [artifact|] eqn:Hdec; [|destruct H4 as [-> _]; by apply elem_of_nil in Hin4].
  destruct (reached not_write _ _ _ _ _ _ Hin4 H4) as (t9 & t10 & schema & -> & Hsc & H5 & Hin5); [done|intros []|]. clear H4 Hin4.
  destruct (reached not_write _ _ _ _ _ _ Hin5 H5) as (t11 & t12 & [] & -> & Ht & H6 & Hin6); [done|intros []|]. clear H5 Hin5.
  destruct (reached not_write _ _ _ _ _ _ Hin6 H6) as (t13 & t14 & [] & -> & Ha & H7 & Hin7); [done|intros []|]. clear H6 Hin6.
  apply runs_lift_inl in Hsc as [-> Hsc], Ht as [-> Ht], Ha as [-> Ha].
  assert (Hwrite : v = q /\ r = match x with
      | inl resp => if wr_generation resp =? 0 then inr (appError ErrorIntegrity) else inl resp
      | inr e => inr e end).
  { apply runs_bind in H7 as (t15 & t16 & y & -> & ->%runs_call & H7).
    assert (Hend : t16 = [] /\ r = match y with
      | inl resp => if wr_generation resp =? 0 then inr (appError ErrorIntegrity) else inl resp
      | inr e => inr e end) by (destruct y as [resp|e]; [destruct (wr_generation resp =? 0)|]; done).
    destruct Hend as [-> ->]. apply list_elem_of_singleton, (f_equal write_of) in Hin7. cbn in Hin7. by injection Hin7 as -> ->. }
  destruct Hwrite as [-> ->]. split; [done|]. split; [|done]. exists record, artifact, schema.
  split; [rewrite !elem_of_app, list_elem_of_singleton; tauto|]. repeat (split; [done|]). by apply schema_admits_Ok.
Qed.

(** C25: a published revision is what the source compiles to. Whenever a
    publication answers, the source compiled to an artifact, and what was put
    into the store is exactly that artifact's canonical encoding under the
    identifier derived from it, in the request's namespace, stamped with the
    clock's time and the request's source as provenance; the record the store
    answered with is intact and has the same namespace, identifier and bytes,
    and the response is that record's metadata. *)
Theorem publish_exact caller request tr metadata created :
  runs (PolicyService_Publish caller request) tr (inl (metadata, created)) ->
  exists artifact t write record id encoded,
    CompileArtifact (pub_sourceName request) (pub_source request) = Some artifact /\
    ev OClock (Some t) ∈ tr /\ ev (OPutRevision write) (inl (mkPutRevisionResult record created)) ∈ tr /\
    MarshalBinary artifact = Some encoded /\ RevisionIDFromArtifact (Some artifact) = Ok id /\
    rw_artifact write = encoded /\ rw_metadata write = mkRevisionMetadata (pub_namespace request) id t /\
    prov_sourceName (rw_provenance write) = pub_sourceName request /\
    prov_originalSource (rw_provenance write) = pub_source request /\
    RevisionRecord_Valid record = true /\ rw_artifact record = encoded /\
    rm_namespace metadata = pub_namespace request /\ RevisionMetadata_ID metadata = RevisionID_String id /\
    metadata = rw_metadata record.
Proof.
  intros H. unfold PolicyService_Publish in H. run_step H ta v Hv. apply runs_lift_inl in Hv as [-> Hv].
  assert (v = request) as ->.
  { destruct request. constructed Hv. done. }
  run_step H tb u Hu. clear Hu. run_step H te artifact Hc. destruct Hc as [-> Hc]. run_step H tf t Ht.
  run_step H tg write Hw. destruct Hw as [-> Hw]. run_step H th stored Hp. apply runs_call in Hp as ->.
  destruct stored as [record created']. cbn [pr_record pr_created PutRevisionResult_Valid] in H.
  unfold Loader_Compile in Hc. destruct (CompileArtifact _ _) as [a|] eqn:Ec; [|done]. injection Hc as ->.
  destruct (negb (PutRevisionResult_Valid _) || _) eqn:E; [by destruct H|].
  apply orb_false_iff in E as [E1%negb_false_iff E2%negb_false_iff]. apply runs_lift_inl in H as [-> H].
  unfold NewPublishResponse in H. destruct (RevisionMetadata_valid _); [|done]. injection H as <- <-.
  unfold NewRevision in Hw. destruct (MarshalBinary a) as [encoded|] eqn:Em; [|done].
  destruct (rbind _ _) as [w|] eqn:Ew in Hw; [|done]. injection Hw as ->.
  apply rbind_ok in Ew as (id & Hid & Ew). apply rbind_ok in Ew as (m & Hm & Ew). apply rbind_ok in Ew as (prov & Hprov & Ew).
  assert (m = mkRevisionMetadata (pub_namespace request) id t) as ->.
  { unfold NewRevisionMetadata in Hm. do 2 (apply rbind_ok in Hm as (? & _ & Hm)). destruct (_ || _); congruence. }
  unfold NewRevisionProvenance in Hprov. apply rbind_ok in Hprov as (? & _ & Hprov). injection Hprov as <-.
  unfold NewRevisionWriteWithProvenance in Ew. apply rbind_ok in Ew as (w0 & Hw0 & Ew).
  destruct (RevisionProvenance_Valid _); [|done]. injection Ew as <-.
  assert (w0 = mkRevisionWrite (mkRevisionMetadata (pub_namespace request) id t) encoded zero_provenance) as ->.
  { unfold NewRevisionWrite in Hw0. apply rbind_ok in Hw0 as (? & _ & Hw0).
    destruct (_ =? 0); [done|]. destruct (_ <? _); congruence. }
  clear Hw0. cbn [rw_metadata rw_artifact] in *. set (write := mkRevisionWrite _ _ _) in *.
  unfold Matches in E2. destruct (_ || _) in E2; [done|]. destruct (_ || _) eqn:E in E2; [done|].
  rewrite !orb_false_iff in E. destruct E as [[F1%bool_decide_eq_false%dec_stable F2%bool_decide_eq_false%dec_stable]
    F3%bool_decide_eq_false%dec_stable].
  assert (Hclock : ev OClock (Some t) ∈ tf).
  { unfold publicationTime in Ht. apply runs_bind in Ht as (? & ? & [y|] & -> & ->%runs_call & Ht); [|by destruct Ht].
    destruct (IsZero y); [by destruct Ht|]. destruct Ht as [_ [= ->]]. left. }
  exists a, t, write, record, id, encoded. split; [done|]. split; [rewrite !elem_of_app; tauto|].
  split; [rewrite !elem_of_app; do 5 right; left; left|]. repeat (split; [done|]). done.
Qed.

(** What the revision cache's loader returns: the artifact of an intact record
    of exactly the pinned namespace and identifier. *)
Lemma revision_loader_exact pin tr a :
  runs (revision_loader pin) tr (inl a) ->
  exists record, ev (OGetRevision (mkGetRevisionRequest (rv_namespace pin) (rv_revisionID pin))) (inl record) ∈ tr /\
    RevisionRecord_Valid record = true /\ rm_namespace (rw_metadata record) = rv_namespace pin /\
    RevisionMetadata_ID (rw_metadata record) = rv_revisionID pin /\ DecodeArtifact (rw_artifact record) = Some a.
Proof.
  intros H. unfold revision_loader in H. run_step H ta q Hq. apply runs_lift_inl in Hq as [-> Hq]. constructed Hq.
  run_step H tb record Hr. apply runs_call in Hr as ->. destruct (_ || _) eqn:E; [by destruct H|].
  rewrite !orb_false_iff, negb_false_iff in E. destruct E as [[E1 E2%bool_decide_eq_false%dec_stable] E3%bool_decide_eq_false%dec_stable].
  destruct (DecodeArtifact _) eqn:Ed; [|by destruct H]. destruct H as [-> [= ->]]. exists record.
  split; [left|]. done.
Qed.

(** Policy answers belong to their request. Whatever the store returns, a
    revision, an activation, a slot's pointer or a page is answered only if it
    came from the store in this run and carries the request's namespace and
    its identifier, slot or target; pages are revalidated against the request
    (limits, order, namespace). A store that mixes up tenants or slots causes
    an INTEGRITY error, not a wrong answer. *)
Lemma answers_bound caller tr :
  (forall q m, runs (PolicyService_GetRevision caller q) tr (inl m) ->
     exists record, ev (OGetRevision q) (inl record) ∈ tr /\ RevisionRecord_Valid record = true /\
       m = rw_metadata record /\ rm_namespace m = gr_namespace q /\ RevisionMetadata_ID m = gr_revisionID q) /\
  (forall q response, runs (PolicyService_Activate caller q) tr (inl response) ->
     ev (OActivate q) (inl response) ∈ tr /\ Activation_valid (acr_activation response) = true /\
     act_namespace (acr_activation response) = ar_namespace q /\ act_slot (acr_activation response) = ar_slot q /\
     act_revisionID (acr_activation response) = ar_targetRevisionID q) /\
  (forall q response, runs (PolicyService_Resolve caller q) tr (inl response) ->
     ev (OResolve q) (inl response) ∈ tr /\ Activation_valid (rsr_activation response) = true /\
     act_namespace (rsr_activation response) = rr_namespace q /\ act_slot (rsr_activation response) = rr_slot q) /\
  (forall q page, runs (PolicyService_ListRevisions caller q) tr (inl page) ->
     exists stored, ev (OListRevisions q) (inl stored) ∈ tr /\ lrr_request page = q /\
       lrr_revisions page = lrr_revisions stored /\ lrr_nextCursor page = lrr_nextCursor stored /\
       zlen (lrr_revisions page) <= lr_limit q /\ validRevisionPage q (lrr_revisions page) = true) /\
  (forall q page, runs (PolicyService_ListActivationHistory caller q) tr (inl page) ->
     exists stored, ev (OListActivationHistory q) (inl stored) ∈ tr /\ lhr_request page = q /\
       lhr_activations page = lhr_activations stored /\ lhr_nextCursor page = lhr_nextCursor stored /\
       zlen (lhr_activations page) <= lh_limit q /\ validActivationHistoryPage q (lhr_activations page) = true).
Proof.
  split; [|split; [|split; [|split]]]; intros q out H.
  - unfold PolicyService_GetRevision in H. answer_step H q record.
    destruct (_ || _) eqn:E; [by destruct H|]. apply runs_lift_inl in H as [-> H].
    rewrite !orb_false_iff, negb_false_iff in E. destruct E as [[E1 E2%bool_decide_eq_false%dec_stable] E3%bool_decide_eq_false%dec_stable].
    unfold NewGetRevisionResponse in H. destruct (RevisionMetadata_valid _); [|done]. injection H as <-.
    exists record. split; [rewrite !elem_of_app; right; right; left; left|]. done.
  - unfold PolicyService_Activate in H. answer_step H q resp.
    destruct (_ || _) eqn:E; [by destruct H|]. rewrite !orb_false_iff in E. destruct E as [[E1 E2] E3].
    apply bool_decide_eq_false, dec_stable in E1, E2, E3. unfold NewActivateResponse in H.
    destruct (Activation_valid _) eqn:Ev; [|by destruct H]. destruct H as [-> [= ->]]. destruct resp.
    split; [rewrite !elem_of_app; right; right; left; left|]. done.
  - unfold PolicyService_Resolve in H. answer_step H q resp.
    destruct (_ || _) eqn:E; [by destruct H|]. rewrite !orb_false_iff in E. destruct E as [E1 E2].
    apply bool_decide_eq_false, dec_stable in E1, E2. unfold NewResolveResponse in H.
    destruct (Activation_valid _) eqn:Ev; [|by destruct H]. destruct H as [-> [= ->]]. destruct resp.
    split; [rewrite !elem_of_app; right; right; left; left|]. done.
  - unfold PolicyService_ListRevisions in H. answer_step H q stored.
    destruct (NewListRevisionsResponse _ _ _) as [bound|] eqn:E; [|by destruct H]. destruct H as [-> [= ->]].
    unfold NewListRevisionsResponse in E. destruct (negb _); [done|]. destruct (_ || _) eqn:El; [done|].
    apply orb_false_iff in El as [El%Z.ltb_ge _]. do 2 (apply rbind_ok in E as (? & _ & E)).
    destruct (validRevisionPage _ _) eqn:Ev; [|done]. injection E as <-. exists stored.
    split; [rewrite !elem_of_app; right; right; left; left|]. done.
  - unfold PolicyService_ListActivationHistory in H. answer_step H q stored.
    destruct (NewListActivationHistoryResponse _ _ _) as [bound|] eqn:E; [|by destruct H]. destruct H as [-> [= ->]].
    unfold NewListActivationHistoryResponse in E. destruct (negb _); [done|]. destruct (_ || _) eqn:El; [done|].
    apply orb_false_iff in El as [El%Z.ltb_ge _]. do 2 (apply rbind_ok in E as (? & _ & E)).
    destruct (validActivationHistoryPage _ _) eqn:Ev; [|done]. injection E as <-. exists stored.
    split; [rewrite !elem_of_app; right; right; left; left|]. done.
Qed.
End Answers.
