(* ===== verification/MemState.v ===== *)
(** State of the memory store and its lock-protected helpers
    (store/memory/store.go, store/memory/events.go).

    Everything here runs while [Store.mu] is held, so it is a plain state
    transformer. Pointers that the code compares or shares get an identity:
    [dv_ref] for data versions, [cr_ref] for commit reservations and [gw_ref]
    for generation waits are drawn from [st_nextRef]; [st_closed] lists the
    channels that have been closed, by the reference of their owner.

    The package's test controls (pauses, blocked reads, [expireEvents]) are
    armed only by its own tests and are left out; [failNextEvent], which
    makes one commit fail after it has reserved, is kept. *)

From Stdlib Require Import ZArith Lia Sorted.
From stdpp Require Import base list gmap strings sorting.
From S2P Require Import Prelude Limits Text Types Cost Policy Events Revisions Avl Index Cursor.

(** * Contexts and clocks *)

(** [store.ContextError] under [safeContextError]: nil contexts, [ctx.Err]
    and a panicking context become sanitized categories. *)
Definition safeContextError (a : ctx_answer) : result unit :=
  match a with
  | CtxNil => Err ErrorInvalidArgument
  | CtxUsable => Ok tt
  | CtxDeadline => Err ErrorDeadlineExceeded
  | CtxCanceled | CtxOther => Err ErrorCanceled
  | CtxPanic => Err ErrorInternal
  end.

(** [contextWaitError] *)
Definition contextWaitError (a : ctx_answer) : ErrorCategory :=
  match safeContextError a with Err e => e | Ok _ => ErrorInternal end.

(** [Clock.Now()] of one call: [None] is a panic. *)
Definition store_now (clock : option Time) : result Time :=
  match clock with
  | None => Err ErrorInternal
  | Some value => if IsZero value then Err ErrorInternal else Ok value
  end.

(** * Records *)

Definition activationHistoryRetention : Z := 3.
Definition eventRetentionLimit : Z := MaxAggregateWorkItems.
Definition defaultEventRetention : Z := 24 * Hour.

Record slotState := mkSlotState { ss_current : Activation; ss_history : list Activation }.

Record dataVersion := mkDataVersion {
  dv_ref : nat; dv_generation : Z; dv_tuples : tupleNode; dv_attributes : attributeEntityNode }.

Record idempotencyState := mkIdempotencyState {
  is_fingerprint : list Z; is_response : WriteDataResponse }.

(** [current] is never nil: the only writer stores a fresh version. *)
Record dataState := mkDataState {
  ds_generation : Z; ds_current : dataVersion; ds_idempotency : gmap string idempotencyState }.

Record generationWait := mkGenerationWait { gw_ref : nat; gw_refs : Z }.

Record eventRecord := mkEventRecord { er_sequence : Z; er_value : StateEvent }.
Record eventState := mkEventState { es_values : list eventRecord; es_expiredThrough : Z }.

Record commitReservationKey := mkReservationKey {
  crk_domain : string; crk_namespace : string; crk_name : string }.

Record commitReservation := mkReservation {
  cr_ref : nat; cr_key : commitReservationKey; cr_operation : string;
  cr_idempotencyKey : string; cr_fingerprint : list Z }.

#[global] Instance commitReservationKey_eq_dec : EqDecision commitReservationKey.
Proof. solve_decision. Defined.
#[global] Instance commitReservationKey_countable : Countable commitReservationKey.
Proof.
  apply (inj_countable' (fun k => (crk_domain k, crk_namespace k, crk_name k))
    (fun p => mkReservationKey p.1.1 p.1.2 p.2)).
  by intros [].
Defined.

Record Store := mkStore {
  st_effectiveTime : Time;
  st_revisions : gmap string (gmap string RevisionRecord);
  st_revisionOrder : gmap string revisionNode;
  st_slots : gmap string (gmap string slotState);
  st_data : gmap string dataState;
  st_waiters : gmap string generationWait;
  st_events : gmap string eventState;
  st_reservations : gmap commitReservationKey commitReservation;
  st_cursorKey : list Z;
  st_cursorKeyOK : bool;
  st_failNextEvent : bool;
  st_nextRef : nat;
  st_closed : list nat }.

(** [New]: maps are empty, the cursor key is 32 random bytes. *)
Definition newStore (cursorKey : list Z) : Store :=
  mkStore 0 ∅ ∅ ∅ ∅ ∅ ∅ ∅ cursorKey true false 0 [].

(** [newStoreWithCursorKeySource]: the key source reports the bytes it left in
    the array and how many it wrote, or an error. *)
Definition newStoreWithCursorKeySource (source : option (list Z * Z)) : result Store :=
  match source with
  | Some (cursorKey, written) => if written =? 32 then Ok (newStore cursorKey) else Err ErrorInternal
  | None => Err ErrorInternal
  end.

(** Field updates. *)
Definition with_effectiveTime (t : Time) (s : Store) : Store :=
  mkStore t (st_revisions s) (st_revisionOrder s) (st_slots s) (st_data s) (st_waiters s)
    (st_events s) (st_reservations s) (st_cursorKey s) (st_cursorKeyOK s) (st_failNextEvent s)
    (st_nextRef s) (st_closed s).
Definition with_revisions (r : gmap string (gmap string RevisionRecord)) (o : gmap string revisionNode)
  (s : Store) : Store :=
  mkStore (st_effectiveTime s) r o (st_slots s) (st_data s) (st_waiters s)
    (st_events s) (st_reservations s) (st_cursorKey s) (st_cursorKeyOK s) (st_failNextEvent s)
    (st_nextRef s) (st_closed s).
Definition with_slots (m : gmap string (gmap string slotState)) (s : Store) : Store :=
  mkStore (st_effectiveTime s) (st_revisions s) (st_revisionOrder s) m (st_data s) (st_waiters s)
    (st_events s) (st_reservations s) (st_cursorKey s) (st_cursorKeyOK s) (st_failNextEvent s)
    (st_nextRef s) (st_closed s).
Definition with_data (m : gmap string dataState) (s : Store) : Store :=
  mkStore (st_effectiveTime s) (st_revisions s) (st_revisionOrder s) (st_slots s) m (st_waiters s)
    (st_events s) (st_reservations s) (st_cursorKey s) (st_cursorKeyOK s) (st_failNextEvent s)
    (st_nextRef s) (st_closed s).
Definition with_waiters (m : gmap string generationWait) (closed : list nat) (next : nat) (s : Store) : Store :=
  mkStore (st_effectiveTime s) (st_revisions s) (st_revisionOrder s) (st_slots s) (st_data s) m
    (st_events s) (st_reservations s) (st_cursorKey s) (st_cursorKeyOK s) (st_failNextEvent s)
    next closed.
Definition with_events (m : gmap string eventState) (s : Store) : Store :=
  mkStore (st_effectiveTime s) (st_revisions s) (st_revisionOrder s) (st_slots s) (st_data s) (st_waiters s)
    m (st_reservations s) (st_cursorKey s) (st_cursorKeyOK s) (st_failNextEvent s)
    (st_nextRef s) (st_closed s).
Definition with_reservations (m : gmap commitReservationKey commitReservation) (closed : list nat)
  (next : nat) (s : Store) : Store :=
  mkStore (st_effectiveTime s) (st_revisions s) (st_revisionOrder s) (st_slots s) (st_data s) (st_waiters s)
    (st_events s) m (st_cursorKey s) (st_cursorKeyOK s) (st_failNextEvent s) next closed.
Definition with_failNextEvent (b : bool) (s : Store) : Store :=
  mkStore (st_effectiveTime s) (st_revisions s) (st_revisionOrder s) (st_slots s) (st_data s) (st_waiters s)
    (st_events s) (st_reservations s) (st_cursorKey s) (st_cursorKeyOK s) b (st_nextRef s) (st_closed s).
(** Allocation of one pointer. *)
Definition with_nextRef (n : nat) (s : Store) : Store :=
  mkStore (st_effectiveTime s) (st_revisions s) (st_revisionOrder s) (st_slots s) (st_data s) (st_waiters s)
    (st_events s) (st_reservations s) (st_cursorKey s) (st_cursorKeyOK s) (st_failNextEvent s) n (st_closed s).

(** * Commit reservations *)

Definition reserveCommitLocked (key : commitReservationKey) (s : Store) : option (commitReservation * Store) :=
  match st_reservations s !! key with
  | Some _ => None
  | None =>
      let reservation := mkReservation (st_nextRef s) key "" "" [] in
      Some (reservation, with_reservations (<[key := reservation]> (st_reservations s)) (st_closed s)
                           (S (st_nextRef s)) s)
  end.

(** [s.reservations[reservation.key] == reservation], a pointer comparison. *)
Definition ownsCommitReservationLocked (reservation : commitReservation) (s : Store) : bool :=
  match st_reservations s !! cr_key reservation with
  | Some current => Nat.eqb (cr_ref current) (cr_ref reservation)
  | None => false
  end.

Definition releaseCommitReservationLocked (reservation : commitReservation) (s : Store) : Store :=
  if ownsCommitReservationLocked reservation s
  then with_reservations (delete (cr_key reservation) (st_reservations s))
         (cr_ref reservation :: st_closed s) (st_nextRef s) s
  else s.

(** [reservation.operation = ...; .idempotencyKey = ...; .fingerprint = ...]
    on the shared reservation. *)
Definition describe_reservation (reservation : commitReservation) (operation idempotencyKey : string)
  (fingerprint : list Z) (s : Store) : Store :=
  with_reservations
    (<[cr_key reservation := mkReservation (cr_ref reservation) (cr_key reservation) operation
         idempotencyKey fingerprint]> (st_reservations s))
    (st_closed s) (st_nextRef s) s.

(** * Effective time *)

Definition effectiveTimeLocked (candidate : Time) (s : Store) : Time * Store :=
  if candidate <? st_effectiveTime s then (st_effectiveTime s, s)
  else (candidate, with_effectiveTime candidate s).

(** * Generation waiters *)

Definition registerGenerationWaitLocked (namespace : string) (s : Store) : generationWait * Store :=
  match st_waiters s !! namespace with
  | Some wait =>
      let wait := mkGenerationWait (gw_ref wait) (gw_refs wait + 1) in
      (wait, with_waiters (<[namespace := wait]> (st_waiters s)) (st_closed s) (st_nextRef s) s)
  | None =>
      let wait := mkGenerationWait (st_nextRef s) 1 in
      (wait, with_waiters (<[namespace := wait]> (st_waiters s)) (st_closed s) (S (st_nextRef s)) s)
  end.

Definition unregisterGenerationWaitLocked (namespace : string) (wait : generationWait) (s : Store) : Store :=
  match st_waiters s !! namespace with
  | Some current =>
      if Nat.eqb (gw_ref current) (gw_ref wait) then
        let refs := gw_refs current - 1 in
        if refs =? 0
        then with_waiters (delete namespace (st_waiters s)) (st_closed s) (st_nextRef s) s
        else with_waiters (<[namespace := mkGenerationWait (gw_ref current) refs]> (st_waiters s))
               (st_closed s) (st_nextRef s) s
      else s
  | None => s
  end.

Definition notifyGenerationWaitersLocked (namespace : string) (s : Store) : Store :=
  match st_waiters s !! namespace with
  | Some wait => with_waiters (delete namespace (st_waiters s)) (gw_ref wait :: st_closed s) (st_nextRef s) s
  | None => s
  end.

(** * Events (events.go) *)

Definition highWater (state : eventState) : Z :=
  match last (es_values state) with
  | Some e => Z.max (es_expiredThrough state) (er_sequence e)
  | None => es_expiredThrough state
  end.

Definition nextEventSequenceLocked (namespace : string) (s : Store) : result Z :=
  let high := match st_events s !! namespace with Some state => highWater state | None => 0 end in
  if high =? MaxUint64 then Err ErrorResourceExhausted else Ok (high + 1).

(** [input] carries the event fields; its cursor and time are set here. *)
Definition newEventLocked `{H : Hmac} (input : StateEvent) (occurredAt : Time) (s : Store) : result eventRecord :=
  let? sequence := nextEventSequenceLocked (ev_namespace input) s in
  let? cursor := newCursorLocked (st_cursorKey s) (st_cursorKeyOK s)
                   (mkCursorState "event" (ev_namespace input) "" sequence 0 "") in
  let? value := NewStateEvent
    (mkStateEvent (ev_namespace input) cursor (ev_kind input) (ev_revisionID input) (ev_slot input)
       (ev_slotGeneration input) (ev_dataGeneration input) occurredAt) in
  Ok (mkEventRecord sequence value).

Definition prune_state (now : Time) (state : eventState) : eventState :=
  let values := es_values state in
  let cutoff := now - defaultEventRetention in
  let timeCut := search_list (fun e => cutoff <? ev_occurredAt (er_value e)) values in
  let countCut := Z.to_nat (Z.max 0 (zlen values - eventRetentionLimit)) in
  let cut := Nat.max timeCut countCut in
  match cut with
  | O => state
  | S c =>
      match values !! c with
      | Some e => mkEventState (drop cut values) (Z.max (es_expiredThrough state) (er_sequence e))
      | None => state
      end
  end.

Definition pruneEventsLocked (namespace : string) (now : Time) (s : Store) : Store :=
  match st_events s !! namespace with
  | Some state =>
      if zlen (es_values state) =? 0 then s
      else with_events (<[namespace := prune_state now state]> (st_events s)) s
  | None => s
  end.

Definition appendEventLocked (event : eventRecord) (now : Time) (s : Store) : Store :=
  let namespace := ev_namespace (er_value event) in
  let state := default (mkEventState [] 0) (st_events s !! namespace) in
  pruneEventsLocked namespace now
    (with_events (<[namespace := mkEventState (es_values state ++ [event]) (es_expiredThrough state)]>
                    (st_events s)) s).
