(* ===== verification/MemEvents.v ===== *)
(** The event stream of a namespace (store/memory/events.go): sequence
    numbers are consecutive, times never go back, retention drops a prefix
    and remembers how far it went. *)

From Stdlib Require Import ZArith Lia Sorted.
From stdpp Require Import base list gmap strings sorting.
From S2P Require Import Prelude Limits Text Types Cost Policy Events Revisions Avl Index Cursor MemState.

(** * Sorted lists of integers *)

Lemma sorted_lookup {A} (R : A -> A -> Prop) l i j x y :
  StronglySorted R l -> (i < j)%nat -> l !! i = Some x -> l !! j = Some y -> R x y.
Proof.
  intros Hs. revert i j. induction Hs as [|a l Hs IH Ha]; intros i j Hij Hi Hj; [done|].
  destruct i as [|i], j as [|j]; simpl in *; try lia; [|by apply (IH i j); [lia|..]].
  injection Hi as ->. rewrite Forall_forall in Ha. apply Ha. by eapply list_elem_of_lookup_2.
Qed.

Lemma sorted_drop {A} (R : A -> A -> Prop) n l : StronglySorted R l -> StronglySorted R (drop n l).
Proof.
  intros H. revert n. induction H as [|a l H IH Ha]; intros [|n]; simpl; try constructor; auto.
Qed.

Lemma sorted_take {A} (R : A -> A -> Prop) n l : StronglySorted R l -> StronglySorted R (take n l).
Proof.
  intros H. revert n. induction H as [|a l H IH Ha]; intros [|n]; simpl; constructor; auto. by apply Forall_take.
Qed.

Lemma drop_seqZ n m k : drop n (seqZ m k) = seqZ (m + Z.of_nat n) (k - Z.of_nat n).
Proof.
  apply list_eq. intros i. rewrite lookup_drop. apply option_eq. intros z. rewrite !lookup_seqZ. lia.
Qed.

Lemma sorted_snoc {A} (R : A -> A -> Prop) l x :
  StronglySorted R (l ++ [x]) <-> StronglySorted R l /\ Forall (fun y => R y x) l.
Proof.
  split.
  - intros H. induction l as [|a l IH]; simpl in *; [split; constructor|].
    inversion_clear H as [|? ? Hs Ha]. destruct (IH Hs) as [H1 H2]. rewrite Forall_app in Ha.
    destruct Ha as [Ha1 Ha2]. inversion_clear Ha2. split; constructor; auto.
  - intros [Hs Hx]. induction Hs as [|a l Hs IH Ha]; simpl; [repeat constructor|].
    inversion_clear Hx as [|? ? Hax Hxl]. constructor; [auto|]. apply Forall_app. split; [done|]. by constructor.
Qed.

Section Stream.
Context `{H : Hmac} (cursorKey : list Z) (cursorKeyOK : bool).

(** An event of the stream: valid, of the namespace, carrying the cursor of
    its own sequence number. *)
Definition event_ok (namespace : string) (e : eventRecord) : Prop :=
  StateEvent_valid (er_value e) = true /\ ev_namespace (er_value e) = namespace /\
  newCursorLocked cursorKey cursorKeyOK (mkCursorState "event" namespace "" (er_sequence e) 0 "")
    = Ok (ev_cursor (er_value e)).

(** [extra] is the room the retention limit leaves: 0 at rest, 1 between
    appending and pruning. *)
Record stream_ok (namespace : string) (extra : Z) (t : Time) (st : eventState) : Prop := {
  so_expired : 0 <= es_expiredThrough st;
  so_sequences : map er_sequence (es_values st)
                 = seqZ (es_expiredThrough st + 1) (zlen (es_values st));
  so_bound : es_expiredThrough st + zlen (es_values st) <= MaxUint64;
  so_times : StronglySorted Z.le (map (fun e => ev_occurredAt (er_value e)) (es_values st));
  so_now : Forall (fun e => ev_occurredAt (er_value e) <= t) (es_values st);
  so_events : Forall (event_ok namespace) (es_values st);
  so_retained : zlen (es_values st) <= eventRetentionLimit + extra
}.

Lemma stream_sequence ns x t st i e :
  stream_ok ns x t st -> es_values st !! i = Some e ->
  er_sequence e = es_expiredThrough st + 1 + Z.of_nat i.
Proof.
  intros Hs Hi. assert (E : map er_sequence (es_values st) !! i = Some (er_sequence e)).
  { by rewrite list_lookup_fmap, Hi. }
  rewrite (so_sequences _ _ _ _ Hs) in E. apply lookup_seqZ in E as [E _]. lia.
Qed.

(** The high-water mark is the last number handed out. *)
Lemma stream_highWater ns x t st :
  stream_ok ns x t st -> highWater st = es_expiredThrough st + zlen (es_values st).
Proof.
  intros Hs. unfold highWater. destruct (last (es_values st)) as [e|] eqn:El.
  - rewrite last_lookup in El. assert (Hi := stream_sequence _ _ _ _ _ _ Hs El).
    apply lookup_lt_Some in El. unfold zlen. lia.
  - apply last_None in El. rewrite El. unfold zlen. simpl. lia.
Qed.

Lemma stream_time ns x t t' st : stream_ok ns x t st -> t <= t' -> stream_ok ns x t' st.
Proof.
  intros Hs Ht. destruct Hs as [H0 H1 H2 H3 H4 H5 H6]. split; auto.
  eapply Forall_impl; [exact H4|]. simpl. intros; lia.
Qed.

Lemma stream_empty ns t : stream_ok ns 0 t (mkEventState [] 0).
Proof. split; simpl; try constructor; by vm_compute. Qed.

Lemma stream_append ns t st e :
  stream_ok ns 0 t st -> er_sequence e = es_expiredThrough st + zlen (es_values st) + 1 ->
  er_sequence e <= MaxUint64 -> ev_occurredAt (er_value e) = t -> event_ok ns e ->
  stream_ok ns 1 t (mkEventState (es_values st ++ [e]) (es_expiredThrough st)).
Proof.
  intros Hs Hseq Hmax Ht He. destruct Hs as [H0 H1 H2 H3 H4 H5 H6].
  assert (Hz : zlen (es_values st ++ [e]) = zlen (es_values st) + 1) by (rewrite zlen_app; done).
  split; cbn [es_values es_expiredThrough].
  - done.
  - rewrite map_app, H1, Hz. cbn [map]. rewrite seqZ_app by (apply zlen_nonneg || lia).
    f_equal. rewrite Hseq. unfold seqZ. simpl. f_equal. lia.
  - rewrite Hz. lia.
  - rewrite map_app. cbn [map]. apply sorted_snoc. split; [done|]. rewrite Ht.
    apply Forall_map. exact H4.
  - apply Forall_app. split; [done|]. constructor; [lia|constructor].
  - apply Forall_app. split; [done|]. by constructor.
  - rewrite Hz. lia.
Qed.

(** The time cut separates the expired prefix. *)
Lemma timeCut_spec ns x t st cutoff :
  stream_ok ns x t st ->
  let r := search_list (fun e => cutoff <? ev_occurredAt (er_value e)) (es_values st) in
  (r <= length (es_values st))%nat /\
  Forall (fun e => ev_occurredAt (er_value e) <= cutoff) (take r (es_values st)) /\
  Forall (fun e => cutoff < ev_occurredAt (er_value e)) (drop r (es_values st)).
Proof.
  intros Hs. destruct (search_list_split (fun e => cutoff <? ev_occurredAt (er_value e)) (es_values st))
    as (Hr & Hlo & Hhi).
  - intros i j a b Hij Hi Hj Ha. apply Z.ltb_lt in Ha. apply Z.ltb_lt.
    destruct (decide (i = j)) as [->|Hne]; [congruence|].
    assert (ev_occurredAt (er_value a) <= ev_occurredAt (er_value b)); [|lia].
    apply (sorted_lookup Z.le _ i j _ _ (so_times _ _ _ _ Hs)); [lia|..]; by rewrite list_lookup_fmap, ?Hi, ?Hj.
  - split; [done|]. split; eapply Forall_impl; try eassumption; simpl; intros e He.
    + by apply Z.ltb_ge in He.
    + by apply Z.ltb_lt in He.
Qed.

(** Pruning drops a prefix, keeps the high-water mark, and leaves at most the
    retention limit. *)
Lemma prune_spec ns x t now st :
  stream_ok ns x t st -> (x = 0 \/ x = 1) ->
  let st' := prune_state now st in
  stream_ok ns 0 t st' /\ highWater st' = highWater st /\
  (exists cut, es_values st' = drop cut (es_values st) /\
     es_expiredThrough st' = es_expiredThrough st + Z.of_nat cut /\ (cut <= length (es_values st))%nat /\
     (forall i e, es_values st !! i = Some e -> (i < cut)%nat ->
        ev_occurredAt (er_value e) <= now - defaultEventRetention \/
        eventRetentionLimit <= zlen (es_values st) - Z.of_nat i - 1)).
Proof.
  intros Hs Hx st'. set (cutoff := now - defaultEventRetention).
  destruct (timeCut_spec ns x t st cutoff Hs) as (Hr & Hlo & _). revert Hr Hlo.
  set (r := search_list _ _). intros Hr Hlo.
  set (c := Z.to_nat (Z.max 0 (zlen (es_values st) - eventRetentionLimit))).
  set (cut := Nat.max r c).
  assert (Hcut : (cut <= length (es_values st))%nat) by (unfold cut, c, zlen, eventRetentionLimit, MaxAggregateWorkItems; lia).
  assert (E : es_values st' = drop cut (es_values st) /\
    es_expiredThrough st' = es_expiredThrough st + Z.of_nat cut).
  { unfold st', prune_state. fold cutoff r c cut. destruct cut as [|k] eqn:Ek; [split; simpl; [done|lia]|].
    destruct (lookup_lt_is_Some_2 (es_values st) k) as [e He]; [lia|]. rewrite He. simpl. split; [done|].
    assert (Hq := stream_sequence _ _ _ _ _ _ Hs He). lia. }
  destruct E as [Ev Ee]. assert (Hz : zlen (es_values st') = zlen (es_values st) - Z.of_nat cut).
  { rewrite Ev. unfold zlen. rewrite length_drop. lia. }
  assert (Hs' : stream_ok ns 0 t st').
  { destruct Hs as [H0 H1 H2 H3 H4 H5 H6]. split.
    - rewrite Ee. lia.
    - rewrite Ev at 1. rewrite <- skipn_map, H1, Hz, Ee, drop_seqZ. f_equal. lia.
    - rewrite Ee, Hz. lia.
    - rewrite Ev, <- skipn_map. by apply sorted_drop.
    - rewrite Ev. by apply Forall_drop.
    - rewrite Ev. by apply Forall_drop.
    - rewrite Hz. unfold cut, c. lia. }
  split; [done|]. split.
  { rewrite (stream_highWater _ _ _ _ Hs'), (stream_highWater _ _ _ _ Hs). lia. }
  exists cut. repeat (split; [done|]). intros i e Hi Hic.
  destruct (decide (i < r)%nat) as [Hir|Hir].
  - left. rewrite Forall_lookup in Hlo. apply (Hlo i). rewrite lookup_take_lt by done. done.
  - right. assert (i < c)%nat by (unfold cut in Hic; lia). unfold c in *. lia.
Qed.
End Stream.
