(* ===== verification/MemOps.v ===== *)
(** Operations of the memory store (store/memory/idempotency.go, slots.go,
    revisions.go, events.go, data.go).

    A mutating operation has two critical sections, with [Store.mu] released
    between them while the clock runs: [*_begin] reserves the mutation's
    domain and validates its preconditions, [*_commit] validates them again
    and publishes. [commit_tail] is the code between and around the second
    section, identical in the three operations. A call that finds its domain
    reserved returns a conflict or waits ([Wait]); the sequential handlers
    answer [None] when they would wait for another call. *)

From Stdlib Require Import ZArith Lia Sorted.
From stdpp Require Import base list gmap strings sorting.
From S2P Require Import Prelude Limits Text Types Cost Canon Data Policy Events Revisions Avl Index Cursor Fingerprint MemState.

(** How the first critical section of an operation ends. *)
Inductive begun (P A : Type) : Type :=
  | Hold (reservation : commitReservation) (prepared : P) (failEvent : bool)
  | Wait (pending : nat)
  | Return (answer : result A).
Arguments Hold {P A} reservation prepared failEvent.
Arguments Wait {P A} pending.
Arguments Return {P A} answer.

(** * The commit protocol *)

(** [if failEvent { s.mu.Lock() ... }] *)
Definition fail_section (reservation : commitReservation) (s : Store) : result unit * Store :=
  if negb (ownsCommitReservationLocked reservation s) then (Err ErrorInternal, s)
  else if st_failNextEvent s then (Err ErrorUnavailable, with_failNextEvent false s)
  else (Ok tt, s).

(** The head of the second critical section, then the operation's commit. *)
Definition commit_section {P A} (commit : P -> Time -> Store -> result A * Store)
  (reservation : commitReservation) (prepared : P) (now : Time) (done : bool) (answer : ctx_answer)
  (s : Store) : result A * Store :=
  if negb (ownsCommitReservationLocked reservation s) then (Err ErrorInternal, s)
  else if done then (Err (contextWaitError answer), s)
  else commit prepared now s.

(** From the end of the first critical section to the return: poll the
    context, honour an armed failure, read the clock, commit, release. Every
    early return releases the reservation. *)
Definition commit_tail {P A} (commit : P -> Time -> Store -> result A * Store)
  (ctx : Context) (clock : option Time) (reservation : commitReservation) (prepared : P)
  (failEvent : bool) (s : Store) : result A * Store :=
  let release := releaseCommitReservationLocked reservation in
  if ctx_done ctx 10 then (Err (contextWaitError (ctx_err ctx 10)), release s)
  else
    match (if failEvent then fail_section reservation s else (Ok tt, s)) with
    | (Err e, s) => (Err e, release s)
    | (Ok _, s) =>
        match store_now clock with
        | Err e => (Err e, release s)
        | Ok now =>
            if ctx_done ctx 11 then (Err (contextWaitError (ctx_err ctx 11)), release s)
            else
              let '(answer, s) := commit_section commit reservation prepared now
                                    (ctx_done ctx 12) (ctx_err ctx 12) s in
              (answer, release s)
        end
    end.

(** A whole mutating call after its own argument checks. *)
Definition run_commit {P A} (begin : Store -> begun P A * Store)
  (commit : P -> Time -> Store -> result A * Store) (ctx : Context) (clock : option Time) (s : Store)
  : option (result A * Store) :=
  match begin s with
  | (Wait _, _) => None
  | (Return answer, s) => Some (answer, s)
  | (Hold reservation prepared failEvent, s) =>
      Some (commit_tail commit ctx clock reservation prepared failEvent s)
  end.

Section Operations.
Context `{D : Dsl} `{H : Hmac}.

(** * Data writes (idempotency.go) *)

Definition idempotencyRecord (state : option dataState) (key : string) : option idempotencyState :=
  match state with None => None | Some d => ds_idempotency d !! key end.

Definition has_revision (s : Store) (namespace revisionID : string) : bool :=
  match st_revisions s !! namespace with
  | Some byID => match byID !! revisionID with Some _ => true | None => false end
  | None => false
  end.

(** Deletes before writes; an attribute that collides with an occupied path
    makes the whole write fail. *)
Definition apply_tuples (r : WriteDataRequest) (root : tupleNode) : tupleNode :=
  let root := fold_left (fun root k => tupleDelete root (tk_tuple k)) (wd_tupleDeletes r) root in
  fold_left (fun root t => tupleSet root (rt_tuple t) t) (wd_tupleWrites r) root.

Definition apply_attributes (r : WriteDataRequest) (root : attributeEntityNode)
  : attributeEntityNode * bool :=
  let root := fold_left attributeDelete (wd_attributeDeletes r) root in
  fold_stop attributeSet root (wd_attributeWrites r).

Record write_prepared := mkWritePrepared {
  wp_base : dataVersion; wp_candidate : dataVersion; wp_response : WriteDataResponse }.

Definition data_key (namespace : string) : commitReservationKey := mkReservationKey "data" namespace "".

(** [base := state.current], or a fresh empty version when there is no state. *)
Definition write_base (state : option dataState) (s : Store) : dataVersion * Store :=
  match state with
  | Some d => (ds_current d, s)
  | None => (mkDataVersion (st_nextRef s) 0 Leaf Leaf, with_nextRef (S (st_nextRef s)) s)
  end.

(** The end of the first section: derive the candidate version from the base
    and hold the reservation, or release it. *)
Definition write_candidate (request : WriteDataRequest) (reservation : commitReservation)
  (currentGeneration : Z) (state : option dataState) (s : Store)
  : begun write_prepared WriteDataResponse * Store :=
  let '(base, s) := write_base state s in
  let tupleRoot := apply_tuples request (dv_tuples base) in
  let '(attributeRoot, ok) := apply_attributes request (dv_attributes base) in
  if negb ok then (Return (Err ErrorConflict), releaseCommitReservationLocked reservation s)
  else
    let generation := currentGeneration + 1 in
    let candidate := mkDataVersion (st_nextRef s) generation tupleRoot attributeRoot in
    let s := with_nextRef (S (st_nextRef s)) s in
    match NewWriteDataResponse generation false with
    | Err e => (Return (Err e), releaseCommitReservationLocked reservation s)
    | Ok response =>
        (Hold reservation (mkWritePrepared base candidate response) (st_failNextEvent s), s)
    end.

Definition write_begin (request : WriteDataRequest) (fingerprint : list Z) (s : Store)
  : begun write_prepared WriteDataResponse * Store :=
  let namespace := wd_namespace request in
  match reserveCommitLocked (data_key namespace) s with
  | None =>
      match st_reservations s !! data_key namespace with
      | Some pending =>
          if bool_decide (cr_operation pending = "data"%string)
             && bool_decide (cr_idempotencyKey pending = wd_idempotencyKey request)
             && bool_decide (cr_fingerprint pending = fingerprint)
          then (Wait (cr_ref pending), s)
          else (Return (Err ErrorConflict), s)
      | None => (Return (Err ErrorConflict), s)
      end
  | Some (reservation, s) =>
      let s := describe_reservation reservation "data" (wd_idempotencyKey request) fingerprint s in
      let fail e := (Return (Err e), releaseCommitReservationLocked reservation s) in
      let state := st_data s !! namespace in
      match idempotencyRecord state (wd_idempotencyKey request) with
      | Some previous =>
          (Return (if bool_decide (is_fingerprint previous <> fingerprint) then Err ErrorConflict
                   else NewWriteDataResponse (wr_generation (is_response previous)) true),
           releaseCommitReservationLocked reservation s)
      | None =>
          if negb (has_revision s namespace (wd_validationRevisionID request)) then fail ErrorNotFound
          else
            let currentGeneration := match state with Some d => ds_generation d | None => 0 end in
            if negb (currentGeneration =? wd_expectedGeneration request) then fail ErrorConflict
            else if currentGeneration =? MaxUint64 then fail ErrorResourceExhausted
            else
              match nextEventSequenceLocked namespace s with
              | Err e => fail e
              | Ok _ =>
                  write_candidate request reservation currentGeneration state s
              end
      end
  end.

(** The event a data write appends. *)
Definition data_event (namespace : string) (generation : Z) : StateEvent :=
  mkStateEvent namespace "" StateEventDataWritten "" "" 0 generation 0.

(** [state == nil] and [state.current != base] (a pointer comparison). *)
Definition write_revalidates (request : WriteDataRequest) (base : dataVersion) (state : option dataState) : bool :=
  match state with
  | None => (wd_expectedGeneration request =? 0) && (dv_generation base =? 0)
  | Some d => (ds_generation d =? wd_expectedGeneration request)
              && Nat.eqb (dv_ref (ds_current d)) (dv_ref base)
  end.

Definition write_commit (request : WriteDataRequest) (fingerprint : list Z) (p : write_prepared)
  (now : Time) (s : Store) : result WriteDataResponse * Store :=
  let namespace := wd_namespace request in
  let state := st_data s !! namespace in
  if negb (write_revalidates request (wp_base p) state) then (Err ErrorConflict, s)
  else if negb (has_revision s namespace (wd_validationRevisionID request)) then (Err ErrorNotFound, s)
  else
    match idempotencyRecord state (wd_idempotencyKey request) with
    | Some previous =>
        (if bool_decide (is_fingerprint previous <> fingerprint) then Err ErrorConflict
         else NewWriteDataResponse (wr_generation (is_response previous)) true, s)
    | None =>
        match nextEventSequenceLocked namespace s with
        | Err e => (Err e, s)
        | Ok _ =>
            let '(now, s) := effectiveTimeLocked now s in
            let generation := dv_generation (wp_candidate p) in
            match newEventLocked (data_event namespace generation) now s with
            | Err e => (Err e, s)
            | Ok event =>
                let idempotency := match state with Some d => ds_idempotency d | None => ∅ end in
                let state := mkDataState generation (wp_candidate p)
                  (<[wd_idempotencyKey request := mkIdempotencyState fingerprint (wp_response p)]> idempotency) in
                let s := with_data (<[namespace := state]> (st_data s)) s in
                let s := notifyGenerationWaitersLocked namespace s in
                (Ok (wp_response p), appendEventLocked event now s)
            end
        end
    end.

Definition WriteData (ctx : Context) (clock : option Time) (request : WriteDataRequest) (s : Store)
  : option (result WriteDataResponse * Store) :=
  match (let? _ := safeContextError (ctx_err ctx 0) in
         let? sf := FingerprintWriteData request in
         let? _ := safeContextError (ctx_err ctx 1) in
         Ok (Fingerprint_Bytes (snd sf))) with
  | Err e => Some (Err e, s)
  | Ok fingerprint =>
      if ctx_done ctx 2 then Some (Err (contextWaitError (ctx_err ctx 2)), s)
      else if ctx_done ctx 3 then Some (Err (contextWaitError (ctx_err ctx 3)), s)
      else run_commit (write_begin request fingerprint) (write_commit request fingerprint) ctx clock s
  end.

(** * Slots (slots.go) *)

Definition activationExpectationMatches (expectation : SlotExpectation) (state : option slotState) : bool :=
  if IsUnset expectation then match state with None => true | Some _ => false end
  else
    let '(revisionID, generation, active) := Active expectation in
    active && match state with
              | Some st => bool_decide (act_revisionID (ss_current st) = revisionID)
                           && (act_generation (ss_current st) =? generation)
              | None => false
              end.

Definition slot_lookup (s : Store) (namespace slot : string) : option slotState :=
  match st_slots s !! namespace with Some bySlot => bySlot !! slot | None => None end.

Definition slot_key (namespace slot : string) : commitReservationKey :=
  mkReservationKey "slot" namespace slot.

(** The next slot generation, or exhaustion of [uint64]. *)
Definition next_slot_generation (state : option slotState) : result Z :=
  match state with
  | None => Ok 1
  | Some st =>
      if act_generation (ss_current st) =? MaxUint64 then Err ErrorResourceExhausted
      else Ok (act_generation (ss_current st) + 1)
  end.

Definition activate_begin (request : ActivateRequest) (s : Store) : begun Z ActivateResponse * Store :=
  let namespace := ar_namespace request in
  match reserveCommitLocked (slot_key namespace (ar_slot request)) s with
  | None => (Return (Err ErrorConflict), s)
  | Some (reservation, s) =>
      let fail e := (Return (Err e), releaseCommitReservationLocked reservation s) in
      if negb (has_revision s namespace (ar_targetRevisionID request)) then fail ErrorNotFound
      else
        let state := slot_lookup s namespace (ar_slot request) in
        if negb (activationExpectationMatches (ar_expectation request) state) then fail ErrorConflict
        else
          match next_slot_generation state with
          | Err e => fail e
          | Ok generation =>
              match nextEventSequenceLocked namespace s with
              | Err e => fail e
              | Ok _ => (Hold reservation generation (st_failNextEvent s), s)
              end
          end
  end.

Definition slot_event (namespace slot revisionID : string) (generation : Z) : StateEvent :=
  mkStateEvent namespace "" StateEventSlotActivated revisionID slot generation 0 0.

(** [append] and the retention cut of [state.history]. *)
Definition extend_history (history : list Activation) (activation : Activation) : list Activation :=
  let extended := history ++ [activation] in
  if activationHistoryRetention <? zlen extended
  then drop (length extended - Z.to_nat activationHistoryRetention) extended
  else extended.

Definition activate_commit (request : ActivateRequest) (generation : Z) (now : Time) (s : Store)
  : result ActivateResponse * Store :=
  let namespace := ar_namespace request in
  let slot := ar_slot request in
  if negb (has_revision s namespace (ar_targetRevisionID request)) then (Err ErrorNotFound, s)
  else
    let state := slot_lookup s namespace slot in
    if negb (activationExpectationMatches (ar_expectation request) state) then (Err ErrorConflict, s)
    else
      match next_slot_generation state with
      | Err e => (Err e, s)
      | Ok currentGeneration =>
          if negb (currentGeneration =? generation) then (Err ErrorConflict, s)
          else
            match nextEventSequenceLocked namespace s with
            | Err e => (Err e, s)
            | Ok _ =>
                let '(now, s) := effectiveTimeLocked now s in
                match (let? activation := NewActivation namespace slot (ar_targetRevisionID request) generation now in
                       let? response := NewActivateResponse activation in
                       let? event := newEventLocked (slot_event namespace slot (ar_targetRevisionID request) generation) now s in
                       Ok (activation, response, event)) with
                | Err e => (Err e, s)
                | Ok (activation, response, event) =>
                    let history := match state with Some st => ss_history st | None => [] end in
                    let bySlot := default ∅ (st_slots s !! namespace) in
                    let s := with_slots (<[namespace :=
                      <[slot := mkSlotState activation (extend_history history activation)]> bySlot]> (st_slots s)) s in
                    (Ok response, appendEventLocked event now s)
                end
            end
      end.

Definition Activate (ctx : Context) (clock : option Time) (request : ActivateRequest) (s : Store)
  : option (result ActivateResponse * Store) :=
  match (let? _ := safeContextError (ctx_err ctx 0) in
         if is_ok (NewActivateRequest (ar_namespace request) (ar_slot request)
                     (ar_targetRevisionID request) (ar_expectation request))
         then safeContextError (ctx_err ctx 1)
         else Err ErrorInvalidArgument) with
  | Err e => Some (Err e, s)
  | Ok _ => run_commit (activate_begin request) (activate_commit request) ctx clock s
  end.

Definition Resolve (ctx : Context) (request : ResolveRequest) (s : Store) : result ResolveResponse :=
  let? _ := safeContextError (ctx_err ctx 0) in
  if negb (is_ok (NewResolveRequest (rr_namespace request) (rr_slot request))) then Err ErrorInvalidArgument
  else
    let? _ := safeContextError (ctx_err ctx 1) in
    let state := slot_lookup s (rr_namespace request) (rr_slot request) in
    let? _ := safeContextError (ctx_err ctx 2) in
    match state with
    | None => Err ErrorNotFound
    | Some st => NewResolveResponse (ss_current st)
    end.

Definition ListActivationHistory (ctx : Context) (request : ListActivationHistoryRequest) (s : Store)
  : result ListActivationHistoryResponse :=
  let? _ := safeContextError (ctx_err ctx 0) in
  if negb (is_ok (NewListActivationHistoryRequest (lh_namespace request) (lh_slot request)
                    (lh_cursor request) (lh_limit request)))
  then Err ErrorInvalidArgument
  else
    let? position := cursorPositionLocked (st_cursorKey s) (st_cursorKeyOK s)
                       (lh_cursor request) "history" (lh_namespace request) (lh_slot request) in
    let? _ := safeContextError (ctx_err ctx 1) in
    let history := match slot_lookup s (lh_namespace request) (lh_slot request) with
                   | Some st => ss_history st | None => [] end in
    if bool_decide (lh_cursor request <> ""%string)
       && match history with a :: _ => position <? act_generation a | [] => false end
    then Err ErrorCursorExpired
    else
      let start := search_list (fun a => position <? act_generation a) history in
      let finish := Nat.min (start + Z.to_nat (lh_limit request)) (length history) in
      let page := take (finish - start) (drop start history) in
      let? next := (if Nat.ltb finish (length history) then
                      match last page with
                      | Some a => newCursorLocked (st_cursorKey s) (st_cursorKeyOK s)
                          (mkCursorState "history" (lh_namespace request) (lh_slot request) (act_generation a) 0 "")
                      | None => Err ErrorInternal
                      end
                    else Ok ""%string) in
      let? _ := safeContextError (ctx_err ctx 2) in
      NewListActivationHistoryResponse request page next.

(** * Revisions (revisions.go) *)

Definition revision_lookup (s : Store) (namespace id : string) : option RevisionRecord :=
  match st_revisions s !! namespace with Some byID => byID !! id | None => None end.

Definition revision_key (namespace : string) : commitReservationKey :=
  mkReservationKey "revision" namespace "".

(** The answer for a revision that is already stored. *)
Definition existing_answer (existing : RevisionRecord) (artifact : list Z) : result PutRevisionResult :=
  if bool_decide (rw_artifact existing <> artifact) then Err ErrorIntegrity
  else NewPutRevisionResult existing false.

(** One iteration of the reservation loop; [answer] is the context check made
    after the lock is released when the revision already exists. *)
Definition put_begin (answer : ctx_answer) (record : RevisionRecord) (s : Store)
  : begun unit PutRevisionResult * Store :=
  let namespace := rm_namespace (rw_metadata record) in
  match reserveCommitLocked (revision_key namespace) s with
  | None =>
      match st_reservations s !! revision_key namespace with
      | Some current => (Wait (cr_ref current), s)
      | None => (Return (Err ErrorInternal), s)
      end
  | Some (reservation, s) =>
      match revision_lookup s namespace (RevisionMetadata_ID (rw_metadata record)) with
      | Some existing =>
          (Return (let? _ := safeContextError answer in existing_answer existing (rw_artifact record)),
           releaseCommitReservationLocked reservation s)
      | None =>
          match nextEventSequenceLocked namespace s with
          | Err e => (Return (Err e), releaseCommitReservationLocked reservation s)
          | Ok _ => (Hold reservation tt (st_failNextEvent s), s)
          end
      end
  end.

Definition revision_event (namespace revisionID : string) : StateEvent :=
  mkStateEvent namespace "" StateEventRevisionPublished revisionID "" 0 0 0.

Definition put_commit (record : RevisionRecord) (createdResult : PutRevisionResult) (_ : unit)
  (now : Time) (s : Store) : result PutRevisionResult * Store :=
  let namespace := rm_namespace (rw_metadata record) in
  let id := RevisionMetadata_ID (rw_metadata record) in
  match revision_lookup s namespace id with
  | Some existing => (existing_answer existing (rw_artifact record), s)
  | None =>
      match nextEventSequenceLocked namespace s with
      | Err e => (Err e, s)
      | Ok _ =>
          let '(now, s) := effectiveTimeLocked now s in
          match newEventLocked (revision_event namespace id) now s with
          | Err e => (Err e, s)
          | Ok event =>
              let ordered := revisionSet (default Leaf (st_revisionOrder s !! namespace)) record in
              let byID := default ∅ (st_revisions s !! namespace) in
              let s := with_revisions (<[namespace := <[id := record]> byID]> (st_revisions s))
                         (<[namespace := ordered]> (st_revisionOrder s)) s in
              (Ok createdResult, appendEventLocked event now s)
          end
      end
  end.

Definition PutRevision (ctx : Context) (clock : option Time) (write : RevisionWrite) (s : Store)
  : option (result PutRevisionResult * Store) :=
  match (let? _ := safeContextError (ctx_err ctx 0) in
         if negb (RevisionWrite_Valid write) then Err ErrorInvalidArgument
         else
           let? record := NewRevisionRecordFromWrite write in
           let? createdResult := NewPutRevisionResult record true in
           let? _ := safeContextError (ctx_err ctx 1) in
           Ok (record, createdResult)) with
  | Err e => Some (Err e, s)
  | Ok (record, createdResult) =>
      run_commit (put_begin (ctx_err ctx 2) record) (put_commit record createdResult) ctx clock s
  end.

Definition GetRevision (ctx : Context) (request : GetRevisionRequest) (s : Store) : result RevisionRecord :=
  let? _ := safeContextError (ctx_err ctx 0) in
  if negb (is_ok (NewGetRevisionRequest (gr_namespace request) (gr_revisionID request)))
  then Err ErrorInvalidArgument
  else
    let? _ := safeContextError (ctx_err ctx 1) in
    let record := revision_lookup s (gr_namespace request) (gr_revisionID request) in
    let? _ := safeContextError (ctx_err ctx 2) in
    match record with None => Err ErrorNotFound | Some r => Ok r end.

Definition ListRevisions (ctx : Context) (request : ListRevisionsRequest) (s : Store)
  : result ListRevisionsResponse :=
  let? _ := safeContextError (ctx_err ctx 0) in
  if negb (is_ok (NewListRevisionsRequest (lr_namespace request) (lr_cursor request) (lr_limit request)))
  then Err ErrorInvalidArgument
  else
    let? cursor := cursorStateLocked (st_cursorKey s) (st_cursorKeyOK s)
                     (lr_cursor request) "revision" (lr_namespace request) "" in
    let? _ := safeContextError (ctx_err ctx 1) in
    let root := default Leaf (st_revisionOrder s !! lr_namespace request) in
    let page := revisionPage (mkRevisionKey (cs_revisionPublishedAt cursor) (cs_revisionID cursor))
                  (bool_decide (lr_cursor request <> ""%string)) (lr_limit request)
                  collect_metadata root [] in
    let metadata := pg_user page in
    let? next := (if pg_more page then
                    match last metadata with
                    | Some m => newCursorLocked (st_cursorKey s) (st_cursorKeyOK s)
                        (mkCursorState "revision" (lr_namespace request) "" 0 (rm_publishedAt m) (RevisionMetadata_ID m))
                    | None => Err ErrorInternal
                    end
                  else Ok ""%string) in
    let? _ := safeContextError (ctx_err ctx 2) in
    NewListRevisionsResponse request metadata next.

(** * Events (events.go) *)

Definition ListEvents (ctx : Context) (clock : option Time) (request : ListEventsRequest) (s : Store)
  : result ListEventsResponse * Store :=
  match (let? _ := safeContextError (ctx_err ctx 0) in
         if negb (is_ok (NewListEventsRequest (le_namespace request) (le_afterCursor request) (le_limit request)))
         then Err ErrorInvalidArgument
         else
           let? position := cursorPositionLocked (st_cursorKey s) (st_cursorKeyOK s)
                              (le_afterCursor request) "event" (le_namespace request) "" in
           let? _ := safeContextError (ctx_err ctx 1) in
           let? now := store_now clock in
           let? _ := safeContextError (ctx_err ctx 2) in
           Ok (position, now)) with
  | Err e => (Err e, s)
  | Ok (position, now) =>
      let '(now, s) := effectiveTimeLocked now s in
      let s := pruneEventsLocked (le_namespace request) now s in
      let values := match st_events s !! le_namespace request with Some st => es_values st | None => [] end in
      let expiredThrough := match st_events s !! le_namespace request with
                            | Some st => es_expiredThrough st | None => 0 end in
      (if bool_decide (le_afterCursor request <> ""%string) && (position <=? expiredThrough)
       then Err ErrorCursorExpired
       else
         let start := search_list (fun e => position <? er_sequence e) values in
         let finish := Nat.min (start + Z.to_nat (le_limit request)) (length values) in
         let page := map er_value (take (finish - start) (drop start values)) in
         let next := if Nat.ltb finish (length values)
                     then match last page with Some e => ev_cursor e | None => ""%string end
                     else ""%string in
         let? _ := safeContextError (ctx_err ctx 3) in
         NewListEventsResponse request page next, s)
  end.

(** * Data reads (data.go) *)

Definition GetDataGeneration (ctx : Context) (request : GetDataGenerationRequest) (s : Store)
  : result GetDataGenerationResponse :=
  let? _ := safeContextError (ctx_err ctx 0) in
  if negb (is_ok (NewGetDataGenerationRequest (gdg_namespace request))) then Err ErrorInvalidArgument
  else
    let? _ := safeContextError (ctx_err ctx 1) in
    let generation := match st_data s !! gdg_namespace request with Some d => ds_generation d | None => 0 end in
    let? _ := safeContextError (ctx_err ctx 2) in
    NewGetDataGenerationResponse generation.
End Operations.
