(* ===== verification/MemData.v ===== *)
(** What a data write does to the facts of a namespace.

    The store keeps relationship tuples in a balanced tree and attributes in a
    trie of trees. [spec_tuples] and [spec_attributes] are the same write on
    finite maps; [apply_tuples_rep] and [apply_attributes_rep] say that the
    indexes implement them, and when an attribute write is refused. *)

From Stdlib Require Import ZArith Lia Sorted.
From stdpp Require Import base list gmap strings sorting.
From S2P Require Import Prelude Limits Text Types Cost Canon Data Policy Events Revisions Avl Index Cursor Fingerprint MemState MemOps.

(** * The specification: deletes, then writes, on finite maps *)

Definition remove_keys {K A} `{Countable K} (ks : list K) (m : gmap K A) : gmap K A :=
  fold_left (fun m k => delete k m) ks m.

Definition put_values {K A} `{Countable K} (key : A -> K) (vs : list A) (m : gmap K A) : gmap K A :=
  fold_left (fun m v => <[key v := v]> m) vs m.

Definition spec_tuples (r : WriteDataRequest) (m : gmap Tuple RelationshipTuple) : gmap Tuple RelationshipTuple :=
  put_values rt_tuple (wd_tupleWrites r) (remove_keys (map tk_tuple (wd_tupleDeletes r)) m).

Definition spec_attributes (r : WriteDataRequest) (m : gmap AttributeKey Attribute) : gmap AttributeKey Attribute :=
  put_values attr_key (wd_attributeWrites r) (remove_keys (wd_attributeDeletes r) m).

(** An attribute that every read can answer: its own fields are valid and,
    with the nine bytes of the result's found flag, it fits one output. *)
Definition readable_attribute (a : Attribute) : Prop :=
  Attribute_valid a = true /\ attributeCost a + 9 <= MaxAggregateOutputBytes.

(** Facts are filed under their own key and are individually valid. *)
Definition tuples_keyed (m : gmap Tuple RelationshipTuple) : Prop :=
  forall k t, m !! k = Some t -> rt_tuple t = k /\ RelationshipTuple_valid t = true.
Definition attributes_keyed (m : gmap AttributeKey Attribute) : Prop :=
  forall k a, m !! k = Some a -> attr_key a = k /\ readable_attribute a.

(** What the request constructor checks of the mutations. *)
Definition mutations_ok (r : WriteDataRequest) : Prop :=
  consistent_mutations (request_input r) /\
  Forall (fun t => RelationshipTuple_valid t = true) (wd_tupleWrites r) /\
  Forall readable_attribute (wd_attributeWrites r).

(** A written attribute lands strictly above or below an occupied path that
    the write does not delete. *)
Definition blocked (r : WriteDataRequest) (m : gmap AttributeKey Attribute) : Prop :=
  exists a, a ∈ wd_attributeWrites r /\ occupied_conflict (remove_keys (wd_attributeDeletes r) m) (attr_key a).

Section Maps.
Context {K A : Type} `{EqDecision K} `{Countable K}.
Implicit Types m : gmap K A.

Lemma lookup_remove_keys (ks : list K) m k :
  remove_keys ks m !! k = if decide (k ∈ ks) then None else m !! k.
Proof.
  unfold remove_keys. revert m. induction ks as [|k' ks IH]; intros m; cbn [fold_left].
  { rewrite decide_False; [done|]. apply not_elem_of_nil. }
  rewrite IH. destruct (decide (k ∈ ks)) as [Hin|Hnin].
  - rewrite decide_True; [done|]. by apply elem_of_cons; right.
  - destruct (decide (k = k')) as [->|Hne].
    + rewrite lookup_delete_eq, decide_True; [done|]. by apply elem_of_cons; left.
    + rewrite lookup_delete_ne by done. rewrite decide_False; [done|].
      rewrite elem_of_cons. tauto.
Qed.

Lemma lookup_put_values_ne (key : A -> K) vs m k :
  k ∉ map key vs -> put_values key vs m !! k = m !! k.
Proof.
  unfold put_values. revert m. induction vs as [|v vs IH]; intros m Hk; simpl; [done|].
  simpl in Hk. rewrite not_elem_of_cons in Hk. destruct Hk. rewrite IH by done. by rewrite lookup_insert_ne.
Qed.

Lemma lookup_put_values (key : A -> K) vs m v :
  (forall x y, x ∈ vs -> y ∈ vs -> key x = key y -> x = y) -> v ∈ vs ->
  put_values key vs m !! key v = Some v.
Proof.
  unfold put_values. revert m. induction vs as [|w vs IH]; intros m Hinj Hv; simpl; [by apply elem_of_nil in Hv|].
  destruct (decide (key v ∈ map key vs)) as [Hin|Hnin].
  - apply list_elem_of_fmap in Hin as (u & Eu & Hu).
    assert (v = u) as ->. { apply Hinj; [done|by apply elem_of_cons; right|done]. }
    apply IH; [|done]. intros x y Hx Hy. apply Hinj; by apply elem_of_cons; right.
  - apply elem_of_cons in Hv as [->|Hv].
    + fold (put_values key vs (<[key w := w]> m)). rewrite lookup_put_values_ne by done. apply lookup_insert_eq.
    + exfalso. apply Hnin. apply list_elem_of_fmap. by exists v.
Qed.

(** Whatever holds of the old facts and of the written ones holds after. *)
Lemma put_remove_forall (P : K -> A -> Prop) (key : A -> K) ks vs m :
  (forall k v, m !! k = Some v -> P k v) -> Forall (fun v => P (key v) v) vs ->
  forall k v, put_values key vs (remove_keys ks m) !! k = Some v -> P k v.
Proof.
  intros Hm Hvs. assert (Hr : forall k v, remove_keys ks m !! k = Some v -> P k v).
  { intros k v. rewrite lookup_remove_keys. destruct (decide _); [done|]. apply Hm. }
  revert Hr. generalize (remove_keys ks m) as m'. clear m Hm. unfold put_values.
  induction Hvs as [|w vs Hw _ IH]; intros m' Hm'; [done|]. simpl. apply IH. intros k v.
  rewrite lookup_insert_Some. intros [[<- <-]|[_ Hk]]; [done|]. by apply Hm'.
Qed.
End Maps.

Lemma spec_tuples_keyed r m : mutations_ok r -> tuples_keyed m -> tuples_keyed (spec_tuples r m).
Proof.
  intros (_ & Hw & _) Hm. unfold spec_tuples, tuples_keyed. apply put_remove_forall; [exact Hm|].
  eapply Forall_impl; [exact Hw|]. done.
Qed.

Lemma spec_attributes_keyed r m : mutations_ok r -> attributes_keyed m -> attributes_keyed (spec_attributes r m).
Proof.
  intros (_ & _ & Hw) Hm. unfold spec_attributes, attributes_keyed. apply put_remove_forall; [exact Hm|].
  eapply Forall_impl; [exact Hw|]. done.
Qed.

(** * Tuples *)

Lemma tuple_deletes_rep ks : forall root,
  avl root -> bst compareTuple root ->
  let root' := fold_left (fun root k => tupleDelete root (tk_tuple k)) ks root in
  avl root' /\ bst compareTuple root' /\ tmap root' = remove_keys (map tk_tuple ks) (tmap root).
Proof.
  unfold remove_keys. induction ks as [|k ks IH]; intros root Ha Hb; simpl; [done|].
  unfold tupleDelete at 2 4 6. rewrite <- (tmap_delete compareTuple) by done.
  apply IH; [by apply (delete_avl compareTuple)|by apply (bst_delete compareTuple)].
Qed.

Lemma tuple_writes_rep ts : forall root,
  avl root -> bst compareTuple root ->
  let root' := fold_left (fun root t => tupleSet root (rt_tuple t) t) ts root in
  avl root' /\ bst compareTuple root' /\ tmap root' = put_values rt_tuple ts (tmap root).
Proof.
  unfold put_values. induction ts as [|t ts IH]; intros root Ha Hb; simpl; [done|].
  unfold tupleSet at 2 4 6. rewrite <- (tmap_set compareTuple) by done.
  apply IH; [by apply (set_avl compareTuple)|by apply (bst_set compareTuple)].
Qed.

Lemma apply_tuples_rep r root :
  avl root -> bst compareTuple root ->
  avl (apply_tuples r root) /\ bst compareTuple (apply_tuples r root) /\
  tmap (apply_tuples r root) = spec_tuples r (tmap root).
Proof.
  intros Ha Hb. unfold apply_tuples, spec_tuples.
  destruct (tuple_deletes_rep (wd_tupleDeletes r) root Ha Hb) as (Ha' & Hb' & E').
  destruct (tuple_writes_rep (wd_tupleWrites r) _ Ha' Hb') as (Ha2 & Hb2 & E2).
  split; [done|]. split; [done|]. by rewrite E2, E'.
Qed.

(** * Attributes *)

Lemma attribute_deletes_rep ks : forall root m,
  attributes_rep root m -> attributes_rep (fold_left attributeDelete ks root) (remove_keys ks m).
Proof.
  unfold remove_keys. induction ks as [|k ks IH]; intros root m Hr; simpl; [done|].
  by apply IH, attributeDelete_rep.
Qed.

(** Written keys that do not overlap each other do not block each other. *)
Lemma occupied_conflict_put m a b :
  (overlap (attr_key a) (attr_key b) -> a = b) ->
  occupied_conflict (<[attr_key a := a]> m) (attr_key b) <->
  occupied_conflict m (attr_key b).
Proof.
  intros Hab. unfold occupied_conflict. split; intros (k & x & Hk & Hne & Ho); exists k.
  - destruct (decide (attr_key a = k)) as [<-|Hk'].
    + exfalso. apply Hne. by rewrite (Hab Ho).
    + rewrite lookup_insert_ne in Hk by done. by exists x.
  - destruct (decide (attr_key a = k)) as [<-|Hk'].
    + exists a. by rewrite lookup_insert_eq.
    + exists x. by rewrite lookup_insert_ne.
Qed.

Lemma attribute_writes_rep ws : forall root m,
  attributes_rep root m ->
  (forall x y, x ∈ ws -> y ∈ ws -> overlap (attr_key x) (attr_key y) -> x = y) ->
  match fold_stop attributeSet root ws with
  | (root', true) => attributes_rep root' (put_values attr_key ws m) /\
                     Forall (fun a => ~ occupied_conflict m (attr_key a)) ws
  | (_, false) => Exists (fun a => occupied_conflict m (attr_key a)) ws
  end.
Proof.
  unfold put_values. induction ws as [|w ws IH]; intros root m Hr Hc; simpl; [by split|].
  assert (Hs := attributeSet_rep root m w Hr). destruct (attributeSet root w) as [root1 [|]].
  2:{ by constructor; apply Hs. }
  destruct Hs as [Hr1 Hn]. specialize (IH root1 _ Hr1).
  assert (Hconf : forall a, a ∈ ws ->
    occupied_conflict (<[attr_key w := w]> m) (attr_key a) <-> occupied_conflict m (attr_key a)).
  { intros a Ha. apply occupied_conflict_put. apply Hc; set_solver. }
  destruct (fold_stop attributeSet root1 ws) as [root2 [|]].
  - destruct IH as [IH1 IH2]; [intros; apply Hc; set_solver|]. split; [done|]. constructor; [done|].
    rewrite Forall_forall in IH2. apply Forall_forall. intros a Ha. rewrite <- Hconf by done. by apply IH2.
  - apply Exists_cons. right. apply Exists_exists in IH as (a & Ha & Ho); [|intros; apply Hc; set_solver].
    apply Exists_exists. exists a. split; [done|]. by apply Hconf.
Qed.

Lemma apply_attributes_rep r root m :
  attributes_rep root m -> mutations_ok r ->
  match apply_attributes r root with
  | (root', true) => attributes_rep root' (spec_attributes r m) /\ ~ blocked r m
  | (_, false) => blocked r m
  end.
Proof.
  intros Hr ((_ & Hc & _) & _). unfold apply_attributes, spec_attributes, blocked.
  assert (Hd := attribute_deletes_rep (wd_attributeDeletes r) root m Hr).
  assert (Hw := attribute_writes_rep (wd_attributeWrites r) _ _ Hd Hc).
  destruct (fold_stop _ _ _) as [root' [|]].
  - destruct Hw as [H1 H2]. split; [done|]. intros (a & Ha & Ho).
    rewrite Forall_forall in H2. by apply (H2 a).
  - by apply Exists_exists.
Qed.

(** * Attribute paths never nest *)

Lemma trieGet_above node p s q a :
  wf_opt node -> trieGet node p = Some a -> trieGet node (p ++ s :: q) = None.
Proof.
  intros Hwf. unfold trieGet. rewrite trieFind_app. assert (Hf := wf_find p node Hwf).
  destruct (trieFind node p) as [t|]; [|done]. specialize (Hf t eq_refl).
  destruct Hf as [b|]; [|done]. intros _. simpl. by rewrite trieFind_None.
Qed.

(** The facts of a version form an antichain of paths per entity. *)
Lemma attributes_antichain root m k k' a a' :
  attributes_rep root m -> m !! k = Some a -> m !! k' = Some a' -> overlap k k' -> k = k'.
Proof.
  intros [(_ & _ & Hwf) Hm] Hk Hk' [He Hp]. rewrite <- Hm in Hk, Hk'. unfold attributeGet in *.
  destruct k as [e p], k' as [e' p']. simpl in *. subst e'. f_equal.
  destruct Hp as [[x ->]|[x ->]]; (destruct x as [|s q]; [by rewrite app_nil_r|]); exfalso.
  - by rewrite (trieGet_above _ _ _ _ _ (Hwf e) Hk) in Hk'.
  - by rewrite (trieGet_above _ _ _ _ _ (Hwf e) Hk') in Hk.
Qed.
