(* ===== verification/MemInv.v ===== *)
(** The well-formedness invariant of the memory store.

    [store_inv] says that the four views a namespace has (revision index and
    map, slots with their history, data versions, event stream) are each
    well formed and agree, and that pointers and channels are used linearly.
    The lemmas say which critical sections leave which part alone and that
    appending an event keeps the streams. *)

From Stdlib Require Import ZArith Lia Sorted.
From stdpp Require Import base list gmap strings sorting.
From S2P Require Import Prelude Limits Text Types Cost Canon Data Policy Events Revisions Avl Index Cursor Fingerprint MemState MemEvents MemOps MemData.

#[global] Instance revisionKey_eq_dec : EqDecision revisionKey.
Proof. unfold EqDecision. intros [t i] [t' i']. unfold Time in *. solve_decision. Defined.
#[global] Instance revisionKey_countable : Countable revisionKey.
Proof.
  apply (inj_countable' (fun k => ((rk_publishedAt k : Z), rk_id k)) (fun p => mkRevisionKey p.1 p.2)).
  by intros [].
Defined.

Section Invariant.
Context `{D : Dsl} `{H : Hmac}.

(** * Parts *)

Definition events_ok (s : Store) : Prop :=
  forall ns st, st_events s !! ns = Some st ->
    stream_ok (st_cursorKey s) (st_cursorKeyOK s) ns 0 (st_effectiveTime s) st.

Definition revision_root (s : Store) (ns : string) : revisionNode :=
  default Leaf (st_revisionOrder s !! ns).

(** The ordered index holds exactly the stored revisions, each under its own
    key; every stored revision is verified and in its namespace. *)
Definition revisions_ok (s : Store) : Prop :=
  forall ns,
    avl (revision_root s ns) /\ bst compareRevisionKey (revision_root s ns) /\
    (forall k r, avl_get compareRevisionKey (revision_root s ns) k = Some r <->
       k = revisionKeyFor r /\ revision_lookup s ns (RevisionMetadata_ID (rw_metadata r)) = Some r) /\
    (forall id r, revision_lookup s ns id = Some r ->
       RevisionMetadata_ID (rw_metadata r) = id /\ rm_namespace (rw_metadata r) = ns /\
       RevisionRecord_Valid r = true).

Definition activation_ok (s : Store) (ns sl : string) (a : Activation) : Prop :=
  Activation_valid a = true /\ act_namespace a = ns /\ act_slot a = sl /\
  1 <= act_generation a <= MaxUint64 /\ act_activatedAt a <= st_effectiveTime s /\
  has_revision s ns (act_revisionID a) = true.

(** History: the most recent activations, at most three, with consecutive
    generations and non-decreasing times, ending with the current one. *)
Record slot_ok (s : Store) (ns sl : string) (st : slotState) : Prop := {
  sl_last : last (ss_history st) = Some (ss_current st);
  sl_len : zlen (ss_history st) <= activationHistoryRetention;
  sl_generations : map act_generation (ss_history st)
    = seqZ (act_generation (ss_current st) - zlen (ss_history st) + 1) (zlen (ss_history st));
  sl_times : StronglySorted Z.le (map act_activatedAt (ss_history st));
  sl_all : Forall (activation_ok s ns sl) (ss_history st);
  sl_complete : zlen (ss_history st) = Z.min activationHistoryRetention (act_generation (ss_current st))
}.

Definition slots_ok (s : Store) : Prop :=
  forall ns sl st, slot_lookup s ns sl = Some st -> slot_ok s ns sl st.

(** The facts a data version holds, as finite maps. *)
Definition version_rep (v : dataVersion) (tuples : gmap Tuple RelationshipTuple)
  (attributes : gmap AttributeKey Attribute) : Prop :=
  avl (dv_tuples v) /\ bst compareTuple (dv_tuples v) /\ tmap (dv_tuples v) = tuples /\
  attributes_rep (dv_attributes v) attributes /\ tuples_keyed tuples /\ attributes_keyed attributes.

Definition version_ok (v : dataVersion) : Prop := exists tuples attributes, version_rep v tuples attributes.

Record namespace_data_ok (d : dataState) : Prop := {
  nd_version : version_ok (ds_current d);
  nd_generation : dv_generation (ds_current d) = ds_generation d;
  nd_range : 1 <= ds_generation d <= MaxUint64;
  nd_replays : forall k i, ds_idempotency d !! k = Some i ->
    1 <= wr_generation (is_response i) <= ds_generation d /\ wr_replayed (is_response i) = false
}.

Definition data_ok (s : Store) : Prop := forall ns d, st_data s !! ns = Some d -> namespace_data_ok d.

(** Pointers are fresh, owners of channels are distinct, and no owned channel
    is closed. *)
Record refs_ok (s : Store) : Prop := {
  ro_closed_nodup : NoDup (st_closed s);
  ro_closed : Forall (fun r => (r < st_nextRef s)%nat) (st_closed s);
  ro_data : forall ns d, st_data s !! ns = Some d -> (dv_ref (ds_current d) < st_nextRef s)%nat;
  ro_reservation : forall k r, st_reservations s !! k = Some r ->
    cr_key r = k /\ (cr_ref r < st_nextRef s)%nat /\ cr_ref r ∉ st_closed s;
  ro_waiter : forall ns w, st_waiters s !! ns = Some w ->
    (gw_ref w < st_nextRef s)%nat /\ gw_ref w ∉ st_closed s /\ 1 <= gw_refs w;
  ro_reservation_inj : forall k k' r r', st_reservations s !! k = Some r -> st_reservations s !! k' = Some r' ->
    cr_ref r = cr_ref r' -> k = k';
  ro_waiter_inj : forall n n' w w', st_waiters s !! n = Some w -> st_waiters s !! n' = Some w' ->
    gw_ref w = gw_ref w' -> n = n';
  ro_disjoint : forall k r n w, st_reservations s !! k = Some r -> st_waiters s !! n = Some w ->
    cr_ref r <> gw_ref w
}.

Record store_inv (s : Store) : Prop := {
  si_key : st_cursorKeyOK s = true;
  si_events : events_ok s;
  si_revisions : revisions_ok s;
  si_slots : slots_ok s;
  si_data : data_ok s;
  si_refs : refs_ok s
}.

(** * Framing *)

(** The sections that only move reservations, waiters, references, channels
    or the armed failure. *)
Record same_facts (s s' : Store) : Prop := {
  sf_time : st_effectiveTime s' = st_effectiveTime s;
  sf_revisions : st_revisions s' = st_revisions s;
  sf_order : st_revisionOrder s' = st_revisionOrder s;
  sf_slots : st_slots s' = st_slots s;
  sf_data : st_data s' = st_data s;
  sf_events : st_events s' = st_events s;
  sf_key : st_cursorKey s' = st_cursorKey s;
  sf_keyOK : st_cursorKeyOK s' = st_cursorKeyOK s
}.

#[export] Instance same_facts_preorder : PreOrder same_facts.
Proof.
  split; [by intros s|]. intros a b c [] []. split; congruence.
Qed.

(** A slot stays well formed as time passes and revisions are published. *)
Lemma slot_ok_mono s s' ns sl st :
  slot_ok s ns sl st -> st_effectiveTime s <= st_effectiveTime s' ->
  (forall id, has_revision s ns id = true -> has_revision s' ns id = true) -> slot_ok s' ns sl st.
Proof.
  intros [h1 h2 h3 h4 h5 h6] Ht Hrev. split; auto. eapply Forall_impl; [exact h5|].
  intros a (? & ? & ? & ? & ? & ?). repeat split; auto; lia.
Qed.

Lemma same_facts_inv s s' : same_facts s s' -> store_inv s -> refs_ok s' -> store_inv s'.
Proof.
  intros F [Hk He Hr Hs Hd _] Hrefs. destruct F. split; auto.
  - congruence.
  - unfold events_ok. rewrite sf_events0, sf_key0, sf_keyOK0, sf_time0. exact He.
  - unfold revisions_ok, revision_root, revision_lookup in *. by rewrite sf_order0, sf_revisions0.
  - intros ns sl st. unfold slot_lookup. rewrite sf_slots0. intros Hst.
    eapply slot_ok_mono; [by apply Hs|lia|]. unfold has_revision. by rewrite sf_revisions0.
  - unfold data_ok. by rewrite sf_data0.
Qed.

Lemma reserve_spec k s r s' :
  reserveCommitLocked k s = Some (r, s') ->
  st_reservations s !! k = None /\ r = mkReservation (st_nextRef s) k "" "" [] /\
  s' = with_reservations (<[k := r]> (st_reservations s)) (st_closed s) (S (st_nextRef s)) s.
Proof.
  unfold reserveCommitLocked. destruct (st_reservations s !! k) eqn:E; [done|]. by intros [= <- <-].
Qed.

Lemma reserve_inv k s r s' : store_inv s -> reserveCommitLocked k s = Some (r, s') -> store_inv s'.
Proof.
  intros Hi (Hn & -> & ->)%reserve_spec. assert (Hr := si_refs s Hi).
  eapply same_facts_inv; [|exact Hi|]; [done|]. destruct Hr as [r1 r2 r3 r4 r5 r6 r7 r8].
  assert (Hfresh : st_nextRef s ∉ st_closed s).
  { intros Hin. rewrite Forall_forall in r2. specialize (r2 _ Hin). lia. }
  split; cbn [st_closed st_nextRef st_data st_reservations st_waiters with_reservations]; auto.
  - eapply Forall_impl; [exact r2|]. simpl. lia.
  - intros ns d Hd. specialize (r3 ns d Hd). lia.
  - intros k' r'. destruct (decide (k = k')) as [<-|Hne].
    + rewrite lookup_insert_eq. intros [= <-]. simpl. repeat split; auto; lia.
    + rewrite lookup_insert_ne by done. intros Hk. destruct (r4 k' r' Hk) as (? & ? & ?). repeat split; auto; lia.
  - intros ns w Hw. destruct (r5 ns w Hw) as (? & ? & ?). repeat split; auto; lia.
  - intros k1 k2 x1 x2.
    destruct (decide (k = k1)) as [<-|H1], (decide (k = k2)) as [<-|H2];
      rewrite ?lookup_insert_eq, ?lookup_insert_ne by done; intros E1 E2; simplify_eq; auto; simpl; intros E.
    + destruct (r4 _ _ E2) as (_ & ? & _). lia.
    + destruct (r4 _ _ E1) as (_ & ? & _). lia.
    + by eapply r6.
  - intros k1 x1 n w. destruct (decide (k = k1)) as [<-|H1];
      rewrite ?lookup_insert_eq, ?lookup_insert_ne by done; intros E1 E2; [|by eapply r8].
    simplify_eq. simpl. destruct (r5 _ _ E2) as (? & _). lia.
Qed.

Lemma describe_inv r op key fp s :
  store_inv s -> (exists r0, st_reservations s !! cr_key r = Some r0 /\ cr_ref r0 = cr_ref r) ->
  store_inv (describe_reservation r op key fp s).
Proof.
  intros Hi (r0 & Hr0 & Eref). assert (Hr := si_refs s Hi).
  eapply same_facts_inv; [|exact Hi|]; [done|]. destruct Hr as [r1 r2 r3 r4 r5 r6 r7 r8].
  unfold describe_reservation.
  split; cbn [st_closed st_nextRef st_data st_reservations st_waiters with_reservations]; auto.
  - intros k r'. destruct (decide (cr_key r = k)) as [<-|Hne].
    + rewrite lookup_insert_eq. intros [= <-]. simpl. rewrite <- Eref. split; [done|]. by apply r4 in Hr0 as (_ & ?).
    + rewrite lookup_insert_ne by done. apply r4.
  - intros k1 k2 x1 x2.
    destruct (decide (cr_key r = k1)) as [<-|H1], (decide (cr_key r = k2)) as [<-|H2];
      rewrite ?lookup_insert_eq, ?lookup_insert_ne by done; intros E1 E2; simplify_eq; auto; simpl; intros E.
    + eapply r6; eauto. congruence.
    + eapply r6; eauto. congruence.
    + by eapply r6.
  - intros k1 x1 n w. destruct (decide (cr_key r = k1)) as [<-|H1];
      rewrite ?lookup_insert_eq, ?lookup_insert_ne by done; intros E1 E2; [|by eapply r8].
    simplify_eq. simpl. rewrite <- Eref. by eapply r8.
Qed.

Lemma release_facts r s : same_facts s (releaseCommitReservationLocked r s).
Proof. unfold releaseCommitReservationLocked. by destruct (ownsCommitReservationLocked r s). Qed.

Lemma release_inv r s : store_inv s -> store_inv (releaseCommitReservationLocked r s).
Proof.
  intros Hi. eapply same_facts_inv; [apply release_facts|done|]. assert (Hr := si_refs s Hi).
  unfold releaseCommitReservationLocked, ownsCommitReservationLocked.
  destruct (st_reservations s !! cr_key r) as [cur|] eqn:Ec; [|done].
  destruct (Nat.eqb_spec (cr_ref cur) (cr_ref r)) as [E|]; [|done].
  destruct Hr as [r1 r2 r3 r4 r5 r6 r7 r8]. destruct (r4 _ _ Ec) as (Ek & Hlt & Hnin).
  rewrite E in Hlt, Hnin.
  split; cbn [st_closed st_nextRef st_data st_reservations st_waiters with_reservations]; auto.
  - by constructor.
  - intros k x [Hne Hk]%lookup_delete_Some. destruct (r4 _ _ Hk) as (? & ? & Hx). repeat split; auto.
    rewrite not_elem_of_cons. split; [|done]. intros E'. apply Hne. eapply r6; eauto. congruence.
  - intros n w Hw. destruct (r5 _ _ Hw) as (? & Hx & ?). repeat split; auto.
    rewrite not_elem_of_cons. split; [|done]. intros E'. eapply (r8 _ _ _ _ Ec Hw). congruence.
  - intros k1 k2 x1 x2 [_ E1]%lookup_delete_Some [_ E2]%lookup_delete_Some. by eapply r6.
  - intros k1 x1 n w [_ E1]%lookup_delete_Some. by eapply r8.
Qed.

Lemma nextRef_inv n s : store_inv s -> (st_nextRef s <= n)%nat -> store_inv (with_nextRef n s).
Proof.
  intros Hi Hn. eapply same_facts_inv; [|exact Hi|]; [done|].
  destruct (si_refs s Hi) as [r1 r2 r3 r4 r5 r6 r7 r8].
  split; cbn [st_closed st_nextRef st_data st_reservations st_waiters with_nextRef]; auto.
  - eapply Forall_impl; [exact r2|]. simpl. lia.
  - intros ns d Hd. specialize (r3 ns d Hd). lia.
  - intros k r Hk. destruct (r4 _ _ Hk) as (? & ? & ?). repeat split; auto. lia.
  - intros k r Hk. destruct (r5 _ _ Hk) as (? & ? & ?). repeat split; auto. lia.
Qed.

Lemma fail_inv b s : store_inv s -> store_inv (with_failNextEvent b s).
Proof.
  intros Hi. eapply same_facts_inv; [|exact Hi|]; [done|].
  destruct (si_refs s Hi) as [r1 r2 r3 r4 r5 r6 r7 r8]. by split.
Qed.

(** * Effective time and events *)

Lemma effectiveTime_spec t s now s' :
  effectiveTimeLocked t s = (now, s') ->
  now = st_effectiveTime s' /\ st_effectiveTime s <= now /\ t <= now /\ s' = with_effectiveTime now s.
Proof.
  unfold effectiveTimeLocked. destruct (Z.ltb_spec t (st_effectiveTime s)); intros [= <- <-];
    repeat split; simpl; try lia. by destruct s.
Qed.

Lemma time_inv now s : store_inv s -> st_effectiveTime s <= now -> store_inv (with_effectiveTime now s).
Proof.
  intros [Hk He Hr Hs Hd Hrefs] Hle. split; auto.
  - intros ns st Hst. eapply stream_time; [by apply He|done].
  - intros ns sl st Hst. by eapply slot_ok_mono; [apply Hs|..].
  - destruct Hrefs. by split.
Qed.

(** A new event continues its stream. *)
Definition continues (s : Store) (e : eventRecord) : Prop :=
  nextEventSequenceLocked (ev_namespace (er_value e)) s = Ok (er_sequence e) /\
  event_ok (st_cursorKey s) (st_cursorKeyOK s) (ev_namespace (er_value e)) e /\
  ev_occurredAt (er_value e) = st_effectiveTime s.

Lemma newEvent_Ok input s e :
  0 <= ev_slotGeneration input -> 0 <= ev_dataGeneration input ->
  newEventLocked input (st_effectiveTime s) s = Ok e ->
  continues s e /\ ev_namespace (er_value e) = ev_namespace input /\ ev_kind (er_value e) = ev_kind input /\
  ev_revisionID (er_value e) = ev_revisionID input /\ ev_slot (er_value e) = ev_slot input /\
  ev_slotGeneration (er_value e) = ev_slotGeneration input /\
  ev_dataGeneration (er_value e) = ev_dataGeneration input.
Proof.
  intros Hs Hd. unfold newEventLocked. intros Hn.
  apply rbind_ok in Hn as (seq & Hseq & Hn). apply rbind_ok in Hn as (cur & Hcur & Hn).
  apply rbind_ok in Hn as (v & Hv & Hn). injection Hn as <-.
  assert (Ev := NewStateEvent_Ok _ _ Hv). subst v. simpl. split; [|done].
  split; [done|]. split; [|done]. split; [by apply NewStateEvent_iff_valid in Hv|]. done.
Qed.

Lemma nextSequence_spec s ns seq :
  events_ok s -> nextEventSequenceLocked ns s = Ok seq ->
  let st := default (mkEventState [] 0) (st_events s !! ns) in
  stream_ok (st_cursorKey s) (st_cursorKeyOK s) ns 0 (st_effectiveTime s) st /\
  seq = es_expiredThrough st + zlen (es_values st) + 1 /\ seq <= MaxUint64.
Proof.
  intros He. unfold nextEventSequenceLocked. destruct (st_events s !! ns) as [st|] eqn:Est; simpl.
  - specialize (He ns st Est). rewrite (stream_highWater _ _ _ _ _ _ He).
    destruct (Z.eqb_spec (es_expiredThrough st + zlen (es_values st)) MaxUint64); [done|]. intros [= <-].
    assert (B := so_bound _ _ _ _ _ _ He). split; [done|]. split; [done|]. lia.
  - intros [= <-]. split; [apply stream_empty|]. by vm_compute.
Qed.

Definition stream (s : Store) (ns : string) : eventState :=
  default (mkEventState [] 0) (st_events s !! ns).

(** Appending an event extends the stream of its namespace; what is pruned is
    a prefix that never reaches the new event. *)
Lemma append_events s e :
  events_ok s -> continues s e ->
  exists st' cut, st_events (appendEventLocked e (st_effectiveTime s) s)
    = <[ev_namespace (er_value e) := st']> (st_events s) /\
    stream_ok (st_cursorKey s) (st_cursorKeyOK s) (ev_namespace (er_value e)) 0 (st_effectiveTime s) st' /\
    highWater st' = er_sequence e /\
    es_values st' = drop cut (es_values (stream s (ev_namespace (er_value e)))) ++ [e] /\
    (cut <= length (es_values (stream s (ev_namespace (er_value e)))))%nat.
Proof.
  intros He (Hseq & Hok & Ht). destruct (nextSequence_spec s _ _ He Hseq) as (Hst & Eseq & Hmax).
  unfold appendEventLocked, pruneEventsLocked, stream. set (ns := ev_namespace (er_value e)) in *.
  set (st := default (mkEventState [] 0) (st_events s !! ns)) in *. cbn [st_events with_events].
  rewrite lookup_insert_eq. cbn [es_values].
  assert (Hne : zlen (es_values st ++ [e]) =? 0 = false).
  { apply Z.eqb_neq. rewrite zlen_app. assert (P := zlen_nonneg (es_values st)). unfold zlen at 2. simpl. lia. }
  rewrite Hne. cbn [st_events with_events].
  assert (Ha := stream_append _ _ _ _ _ _ Hst Eseq Hmax Ht Hok).
  destruct (prune_spec _ _ _ _ _ (st_effectiveTime s) _ Ha ltac:(by right)) as (Hp & Hw & cut & Hv & _ & Hc & Hold).
  cbn [es_values] in Hv, Hc, Hold. rewrite length_app in Hc. simpl in Hc.
  assert (Hcut : (cut <= length (es_values st))%nat).
  { destruct (decide (cut <= length (es_values st))%nat) as [|Hgt]; [done|].
    destruct (Hold (length (es_values st)) e) as [Hx|Hx]; [by rewrite lookup_app_r, Nat.sub_diag|lia|..].
    - rewrite Ht in Hx. assert (0 < defaultEventRetention) by by vm_compute. lia.
    - rewrite zlen_app in Hx. unfold zlen, eventRetentionLimit, MaxAggregateWorkItems in Hx. simpl in Hx. lia. }
  exists (prune_state (st_effectiveTime s) (mkEventState (es_values st ++ [e]) (es_expiredThrough st))), cut.
  split; [by rewrite insert_insert_eq|]. split; [done|]. split; [|by rewrite Hv, drop_app_le].
  rewrite Hw, (stream_highWater _ _ _ _ _ _ Ha). cbn [es_values es_expiredThrough]. rewrite zlen_app.
  unfold zlen at 2. simpl. lia.
Qed.

(** Pruning and appending leave everything but the streams alone. *)
Definition same_but_events (s s' : Store) : Prop := s' = with_events (st_events s') s.

Lemma append_frame e now s : same_but_events s (appendEventLocked e now s).
Proof.
  unfold appendEventLocked, pruneEventsLocked, same_but_events. cbn [st_events with_events].
  rewrite lookup_insert_eq. by destruct (_ =? 0).
Qed.

Lemma prune_frame ns now s : same_but_events s (pruneEventsLocked ns now s).
Proof.
  unfold pruneEventsLocked, same_but_events.
  destruct (st_events s !! ns) as [st|]; [destruct (_ =? 0)|]; by destruct s.
Qed.

Lemma events_frame_inv s s' :
  store_inv s -> same_but_events s s' -> events_ok s' -> store_inv s'.
Proof.
  intros [Hk He Hr Hs Hd Hrefs] F He'. unfold same_but_events in F. revert F.
  generalize (st_events s') at 1. intros m ->. split; auto.
  - intros ns sl st Hst. by eapply slot_ok_mono; [apply Hs|..].
  - destruct Hrefs. by split.
Qed.

Lemma append_inv s e : store_inv s -> continues s e -> store_inv (appendEventLocked e (st_effectiveTime s) s).
Proof.
  intros Hi Hc. eapply events_frame_inv; [done|apply append_frame|].
  destruct (append_events s e (si_events s Hi) Hc) as (st' & cut & E & Hst & _).
  intros ns st. rewrite E. assert (F := append_frame e (st_effectiveTime s) s). unfold same_but_events in F.
  rewrite F. cbn [st_cursorKey st_cursorKeyOK st_effectiveTime with_events].
  destruct (decide (ev_namespace (er_value e) = ns)) as [<-|Hne].
  - rewrite lookup_insert_eq. by intros [= <-].
  - rewrite lookup_insert_ne by done. apply (si_events s Hi).
Qed.

Lemma prune_inv s ns now : store_inv s -> store_inv (pruneEventsLocked ns now s).
Proof.
  intros Hi. eapply events_frame_inv; [done|apply prune_frame|].
  assert (F := prune_frame ns now s). unfold same_but_events in F. intros ns' st'. rewrite F.
  cbn [st_events st_cursorKey st_cursorKeyOK st_effectiveTime with_events].
  unfold pruneEventsLocked. destruct (st_events s !! ns) as [st|] eqn:Est; [|apply (si_events s Hi)].
  destruct (_ =? 0); [apply (si_events s Hi)|]. cbn [st_events with_events].
  destruct (decide (ns = ns')) as [<-|Hne]; [rewrite lookup_insert_eq|rewrite lookup_insert_ne by done; apply (si_events s Hi)].
  intros [= <-]. by apply (prune_spec _ _ _ _ _ _ _ (si_events s Hi ns st Est)), or_introl.
Qed.

(** Pruning forgets events, never their numbers. *)
Lemma prune_high s ns now ns' :
  store_inv s -> highWater (stream (pruneEventsLocked ns now s) ns') = highWater (stream s ns').
Proof.
  intros Hi. unfold pruneEventsLocked, stream. destruct (st_events s !! ns) as [st|] eqn:Est; [|done].
  destruct (_ =? 0); [done|]. cbn [st_events with_events].
  destruct (decide (ns = ns')) as [<-|Hne]; [|by rewrite lookup_insert_ne].
  rewrite lookup_insert_eq, Est. cbn [default].
  by apply (prune_spec _ _ _ _ _ now _ (si_events s Hi ns st Est)), or_introl.
Qed.
End Invariant.
