(* ===== verification/MemCommit.v ===== *)
(** The critical sections of the mutating operations preserve [store_inv].

    Each [*_outcome] lemma lists every way a commit can end: an error that at
    most advances the effective time, an answer from a record that is already
    there, or the publication of the mutation together with its event. The
    [*_begin_spec] lemmas say that reserving and validating changes no fact
    and what a held reservation guarantees. *)

From Stdlib Require Import ZArith Lia Sorted.
From stdpp Require Import base list gmap strings sorting.
From S2P Require Import Prelude Limits Text Types Cost Canon Data Policy Events Revisions Avl Index Cursor Fingerprint MemState MemEvents MemOps MemData MemInv.

Section Commit.
Context `{D : Dsl} `{H : Hmac}.

(** A section that fails moves nothing but the effective time, forwards. *)
Definition aged (s s' : Store) : Prop :=
  s' = with_effectiveTime (st_effectiveTime s') s /\ st_effectiveTime s <= st_effectiveTime s'.

Lemma aged_refl s : aged s s.
Proof. split; [by destruct s|lia]. Qed.

Lemma aged_time t s : st_effectiveTime s <= t -> aged s (with_effectiveTime t s).
Proof. by split. Qed.

Lemma aged_inv s s' : store_inv s -> aged s s' -> store_inv s'.
Proof. intros Hi [-> Ht]. by apply time_inv. Qed.

#[local] Hint Resolve aged_refl aged_time : store.

(** * Publishing one fact *)

Lemma notify_inv ns s : store_inv s -> store_inv (notifyGenerationWaitersLocked ns s).
Proof.
  intros Hi. unfold notifyGenerationWaitersLocked. destruct (st_waiters s !! ns) as [w|] eqn:Ew; [|done].
  eapply same_facts_inv; [|exact Hi|]; [done|]. destruct (si_refs s Hi) as [r1 r2 r3 r4 r5 r6 r7 r8].
  destruct (r5 _ _ Ew) as (Hlt & Hnin & _).
  split; cbn [st_closed st_nextRef st_data st_reservations st_waiters with_waiters]; auto.
  - by constructor.
  - intros k r Hk. destruct (r4 _ _ Hk) as (? & ? & ?). repeat split; auto.
    rewrite not_elem_of_cons. split; [|done]. by eapply r8.
  - intros n v [Hne Hv]%lookup_delete_Some. destruct (r5 _ _ Hv) as (? & ? & ?). repeat split; auto.
    rewrite not_elem_of_cons. split; [|done]. intros E. by apply Hne, (r7 _ _ _ _ Ew Hv).
  - intros n1 n2 v1 v2 [_ E1]%lookup_delete_Some [_ E2]%lookup_delete_Some. by eapply r7.
  - intros k r n v Hk [_ Hv]%lookup_delete_Some. by eapply r8.
Qed.

Lemma notify_facts ns s : same_facts s (notifyGenerationWaitersLocked ns s).
Proof. unfold notifyGenerationWaitersLocked. by destruct (st_waiters s !! ns). Qed.

Lemma with_data_inv ns d s :
  store_inv s -> namespace_data_ok d -> (dv_ref (ds_current d) < st_nextRef s)%nat ->
  store_inv (with_data (<[ns := d]> (st_data s)) s).
Proof.
  intros [Hk He Hr Hs Hd Hrefs] Hok Hlt. split; auto.
  - intros n sl st Hst. by eapply slot_ok_mono; [apply Hs|..].
  - intros n d'. cbn [st_data with_data]. rewrite lookup_insert_Some.
    intros [[_ <-]|[_ Hn]]; [done|]. by eapply Hd.
  - destruct Hrefs as [r1 r2 r3 r4 r5 r6 r7 r8]. split; auto.
    intros n d'. cbn [st_data st_nextRef with_data]. rewrite lookup_insert_Some.
    intros [[_ <-]|[_ Hn]]; [done|]. by eapply r3.
Qed.

Lemma slot_lookup_insert s m ns sl st ns' sl' :
  slot_lookup (with_slots (<[ns := <[sl := st]> (default ∅ (m !! ns))]> m) s) ns' sl' =
  if decide (ns' = ns /\ sl' = sl) then Some st else slot_lookup (with_slots m s) ns' sl'.
Proof.
  unfold slot_lookup. cbn [st_slots with_slots]. destruct (decide (ns' = ns)) as [->|Hn].
  - rewrite lookup_insert_eq. destruct (decide (sl' = sl)) as [->|Hs].
    + rewrite lookup_insert_eq, decide_True; done.
    + rewrite lookup_insert_ne by done. rewrite decide_False by tauto.
      destruct (m !! ns) as [x|]; simpl; [done|apply lookup_empty].
  - rewrite lookup_insert_ne by done. by rewrite decide_False by tauto.
Qed.

Lemma with_slots_inv ns sl st s :
  store_inv s -> slot_ok s ns sl st ->
  store_inv (with_slots (<[ns := <[sl := st]> (default ∅ (st_slots s !! ns))]> (st_slots s)) s).
Proof.
  intros [Hk He Hr Hs Hd Hrefs] Hok. split; auto.
  - intros ns' sl' st'. rewrite slot_lookup_insert. destruct (decide _) as [[-> ->]|_].
    + intros [= <-]. by eapply slot_ok_mono; [exact Hok|..].
    + intros Hst. eapply slot_ok_mono; [by apply Hs|done|done].
  - destruct Hrefs. by split.
Qed.

Definition put_record (r : RevisionRecord) (s : Store) : Store :=
  let ns := rm_namespace (rw_metadata r) in
  with_revisions (<[ns := <[RevisionMetadata_ID (rw_metadata r) := r]> (default ∅ (st_revisions s !! ns))]> (st_revisions s))
    (<[ns := revisionSet (default Leaf (st_revisionOrder s !! ns)) r]> (st_revisionOrder s)) s.

Lemma put_record_lookup r s ns id :
  revision_lookup (put_record r s) ns id =
  if decide (ns = rm_namespace (rw_metadata r) /\ id = RevisionMetadata_ID (rw_metadata r)) then Some r
  else revision_lookup s ns id.
Proof.
  unfold revision_lookup, put_record. cbn [st_revisions with_revisions].
  destruct (decide (ns = rm_namespace (rw_metadata r))) as [->|Hn].
  - rewrite lookup_insert_eq. destruct (decide (id = RevisionMetadata_ID (rw_metadata r))) as [->|Hid].
    + rewrite lookup_insert_eq, decide_True; done.
    + rewrite lookup_insert_ne by done. rewrite decide_False by tauto.
      destruct (st_revisions s !! _) as [x|]; simpl; [done|apply lookup_empty].
  - rewrite lookup_insert_ne by done. by rewrite decide_False by tauto.
Qed.

Lemma has_revision_lookup s ns id :
  has_revision s ns id = match revision_lookup s ns id with Some _ => true | None => false end.
Proof. unfold has_revision, revision_lookup. by destruct (st_revisions s !! ns). Qed.

Lemma revisionKeyFor_id r r' :
  revisionKeyFor r = revisionKeyFor r' ->
  RevisionMetadata_ID (rw_metadata r) = RevisionMetadata_ID (rw_metadata r').
Proof. unfold revisionKeyFor. congruence. Qed.

Lemma put_record_revisions r s :
  revisions_ok s -> RevisionRecord_Valid r = true ->
  revision_lookup s (rm_namespace (rw_metadata r)) (RevisionMetadata_ID (rw_metadata r)) = None ->
  revisions_ok (put_record r s).
Proof.
  intros Hr Hv Hnew ns. specialize (Hr ns) as (Ha & Hb & Hix & Hrec).
  set (ns0 := rm_namespace (rw_metadata r)) in *. set (id0 := RevisionMetadata_ID (rw_metadata r)) in *.
  assert (Eroot : revision_root (put_record r s) ns =
    if decide (ns = ns0) then revisionSet (revision_root s ns0) r else revision_root s ns).
  { unfold revision_root, put_record. cbn [st_revisionOrder with_revisions]. fold ns0.
    destruct (decide (ns = ns0)) as [->|Hn]; [by rewrite lookup_insert_eq|by rewrite lookup_insert_ne]. }
  rewrite Eroot. split; [|split; [|split]].
  - destruct (decide _) as [->|]; [by apply (set_avl compareRevisionKey)|done].
  - destruct (decide _) as [->|]; [by apply (bst_set compareRevisionKey)|done].
  - intros k r'. rewrite put_record_lookup. fold ns0 id0. destruct (decide (ns = ns0)) as [->|Hn].
    2:{ rewrite decide_False by tauto. apply Hix. }
    unfold revisionSet. destruct (decide (revisionKeyFor r = k)) as [<-|Hk].
    + rewrite (get_set_eq compareRevisionKey) by done. split.
      * intros [= <-]. split; [done|]. by rewrite decide_True.
      * intros [Ek Hl]. apply revisionKeyFor_id in Ek. rewrite decide_True in Hl by done. done.
    + rewrite (get_set_ne compareRevisionKey) by done. rewrite Hix. split.
      * intros [-> Hl]. split; [done|]. rewrite decide_False; [done|]. intros [_ E]. rewrite E in Hl. congruence.
      * intros [-> Hl]. destruct (decide _) as [[_ E]|]; [|done]. congruence.
  - intros id r'. rewrite put_record_lookup. fold ns0 id0.
    destruct (decide (ns = ns0 /\ id = id0)) as [[-> ->]|]; [by intros [= <-]|apply Hrec].
Qed.

Lemma put_record_inv r s :
  store_inv s -> RevisionRecord_Valid r = true ->
  revision_lookup s (rm_namespace (rw_metadata r)) (RevisionMetadata_ID (rw_metadata r)) = None ->
  store_inv (put_record r s).
Proof.
  intros [Hk He Hr Hs Hd Hrefs] Hv Hnew. split; auto.
  - by apply put_record_revisions.
  - intros ns sl st Hst. eapply slot_ok_mono; [by apply Hs|done|]. intros id.
    rewrite !has_revision_lookup, put_record_lookup. by destruct (decide _).
  - destruct Hrefs. by split.
Qed.

(** * Events of the three operations *)

Lemma continues_frame s s' e :
  continues s e -> st_events s' = st_events s -> st_cursorKey s' = st_cursorKey s ->
  st_cursorKeyOK s' = st_cursorKeyOK s -> st_effectiveTime s' = st_effectiveTime s -> continues s' e.
Proof.
  unfold continues, nextEventSequenceLocked. intros Hc -> -> -> ->. exact Hc.
Qed.

Lemma publish_inv e s s1 :
  continues s e -> store_inv s1 -> st_events s1 = st_events s ->
  st_cursorKey s1 = st_cursorKey s -> st_cursorKeyOK s1 = st_cursorKeyOK s ->
  st_effectiveTime s1 = st_effectiveTime s ->
  store_inv (appendEventLocked e (st_effectiveTime s) s1).
Proof.
  intros Hc Hi E1 E2 E3 E4. rewrite <- E4. apply append_inv; [done|]. by eapply continues_frame.
Qed.

(** * Data writes *)

(** What a prepared write carries from its first critical section. *)
Record write_ready (request : WriteDataRequest) (p : write_prepared) (s : Store) : Prop := {
  wy_generation : dv_generation (wp_candidate p) = wd_expectedGeneration request + 1;
  wy_range : 1 <= dv_generation (wp_candidate p) <= MaxUint64;
  wy_version : version_ok (wp_candidate p);
  wy_ref : (dv_ref (wp_candidate p) < st_nextRef s)%nat;
  wy_response : wp_response p = mkWriteDataResponse (dv_generation (wp_candidate p)) false
}.

Definition written (request : WriteDataRequest) (fingerprint : list Z) (p : write_prepared) (s : Store) : dataState :=
  mkDataState (dv_generation (wp_candidate p)) (wp_candidate p)
    (<[wd_idempotencyKey request := mkIdempotencyState fingerprint (wp_response p)]>
       match st_data s !! wd_namespace request with Some d => ds_idempotency d | None => ∅ end).

Lemma write_commit_outcome request fp p now s res s' :
  write_commit request fp p now s = (res, s') ->
  (exists e, res = Err e /\ aged s s') \/
  (exists previous, idempotencyRecord (st_data s !! wd_namespace request) (wd_idempotencyKey request) = Some previous /\
     is_fingerprint previous = fp /\
     res = NewWriteDataResponse (wr_generation (is_response previous)) true /\ s' = s) \/
  (exists t event,
     st_effectiveTime s <= t /\ now <= t /\ res = Ok (wp_response p) /\
     write_revalidates request (wp_base p) (st_data s !! wd_namespace request) = true /\
     has_revision s (wd_namespace request) (wd_validationRevisionID request) = true /\
     idempotencyRecord (st_data s !! wd_namespace request) (wd_idempotencyKey request) = None /\
     newEventLocked (data_event (wd_namespace request) (dv_generation (wp_candidate p))) t
       (with_effectiveTime t s) = Ok event /\
     s' = appendEventLocked event t (notifyGenerationWaitersLocked (wd_namespace request)
            (with_data (<[wd_namespace request := written request fp p s]> (st_data s)) (with_effectiveTime t s)))).
Proof.
  unfold write_commit. destruct (write_revalidates _ _ _) eqn:Er; simpl.
  2:{ intros [= <- <-]. left. eauto with store. }
  destruct (has_revision _ _ _) eqn:Eh; simpl.
  2:{ intros [= <- <-]. left. eauto with store. }
  destruct (idempotencyRecord _ _) as [previous|] eqn:Ei.
  { destruct (bool_decide_reflect (is_fingerprint previous <> fp)) as [Hf|Hf]; intros [= <- <-].
    - left. eauto with store.
    - right. left. exists previous. repeat split. by destruct (decide (is_fingerprint previous = fp)). }
  destruct (nextEventSequenceLocked _ _) as [seq|e]; [|intros [= <- <-]; left; eauto with store].
  destruct (effectiveTimeLocked now s) as [t s1] eqn:Et.
  apply effectiveTime_spec in Et as (_ & Ht & Hn & ->).
  destruct (newEventLocked _ _ _) as [event|e] eqn:En; intros [= <- <-].
  - right. right. exists t, event. repeat split; auto.
  - left. eauto with store.
Qed.

Lemma written_ok request fp p s :
  data_ok s -> write_ready request p s ->
  write_revalidates request (wp_base p) (st_data s !! wd_namespace request) = true ->
  namespace_data_ok (written request fp p s).
Proof.
  intros Hd [h1 h2 h3 h4 h5] Hr. split; [done|done|done|]. intros k i. cbn [ds_idempotency written ds_generation].
  rewrite lookup_insert_Some. intros [[_ <-]|[_ Hi]].
  { cbn [is_response]. rewrite h5. simpl. split; [lia|done]. }
  destruct (st_data s !! wd_namespace request) as [d|] eqn:Ed; [|by rewrite lookup_empty in Hi].
  destruct (nd_replays d (Hd _ d Ed) k i Hi) as [Hg Hf]. split; [|done].
  unfold write_revalidates in Hr. apply andb_true_iff in Hr as [E _]. apply Z.eqb_eq in E. lia.
Qed.

Lemma write_commit_inv request fp p now s res s' :
  store_inv s -> write_ready request p s -> write_commit request fp p now s = (res, s') -> store_inv s'.
Proof.
  intros Hi Hw Hc. apply write_commit_outcome in Hc as
    [(e & _ & Ha)|[(previous & _ & _ & _ & ->)|(t & event & Ht & _ & _ & Hr & _ & _ & He & ->)]].
  - by eapply aged_inv.
  - done.
  - assert (Hi1 : store_inv (with_effectiveTime t s)) by by apply time_inv.
    apply (newEvent_Ok _ (with_effectiveTime t s)) in He as (Hcont & _);
      [|done|cbn [ev_dataGeneration data_event]; apply (wy_range _ _ _) in Hw; lia].
    set (s1 := with_data _ _).
    assert (Hi2 : store_inv s1).
    { apply (with_data_inv _ _ (with_effectiveTime t s)); [done|by apply written_ok; [apply si_data|..]|].
      cbn [ds_current written st_nextRef with_effectiveTime]. apply Hw. }
    assert (F := notify_facts (wd_namespace request) s1). destruct F.
    by apply (publish_inv event (with_effectiveTime t s)); [|apply notify_inv|..].
Qed.

(** * Activations *)

Lemma activate_commit_outcome request generation now s res s' :
  activate_commit request generation now s = (res, s') ->
  (exists e, res = Err e /\ aged s s') \/
  (exists t activation event,
     st_effectiveTime s <= t /\ now <= t /\
     has_revision s (ar_namespace request) (ar_targetRevisionID request) = true /\
     activationExpectationMatches (ar_expectation request)
       (slot_lookup s (ar_namespace request) (ar_slot request)) = true /\
     next_slot_generation (slot_lookup s (ar_namespace request) (ar_slot request)) = Ok generation /\
     NewActivation (ar_namespace request) (ar_slot request) (ar_targetRevisionID request) generation t = Ok activation /\
     NewActivateResponse activation = res /\ is_ok res = true /\
     newEventLocked (slot_event (ar_namespace request) (ar_slot request) (ar_targetRevisionID request) generation)
       t (with_effectiveTime t s) = Ok event /\
     s' = appendEventLocked event t
            (with_slots (<[ar_namespace request :=
                <[ar_slot request := mkSlotState activation
                   (extend_history match slot_lookup s (ar_namespace request) (ar_slot request) with
                                   | Some st => ss_history st | None => [] end activation)]>
                (default ∅ (st_slots s !! ar_namespace request))]> (st_slots s)) (with_effectiveTime t s))).
Proof.
  unfold activate_commit. destruct (has_revision _ _ _) eqn:Eh; cbn [negb].
  2:{ intros [= <- <-]. left. eauto with store. }
  destruct (activationExpectationMatches _ _) eqn:Em; cbn [negb].
  2:{ intros [= <- <-]. left. eauto with store. }
  destruct (next_slot_generation _) as [g|e] eqn:Eg; [|intros [= <- <-]; left; eauto with store].
  destruct (Z.eqb_spec g generation) as [->|]; cbn [negb]; [|intros [= <- <-]; left; eauto with store].
  destruct (nextEventSequenceLocked _ _) as [seq|e]; [|intros [= <- <-]; left; eauto with store].
  destruct (effectiveTimeLocked now s) as [t s1] eqn:Et.
  apply effectiveTime_spec in Et as (_ & Ht & Hn & ->).
  destruct (NewActivation _ _ _ _ _) as [activation|e] eqn:Ea; cbn [rbind]; [|intros [= <- <-]; left; eauto with store].
  destruct (NewActivateResponse activation) as [response|e] eqn:Er; cbn [rbind]; [|intros [= <- <-]; left; eauto with store].
  destruct (newEventLocked _ _ _) as [event|e] eqn:En; cbn [rbind]; intros [= <- <-]; [|left; eauto with store].
  right. exists t, activation, event. repeat split; auto.
Qed.

(** Extending a history keeps its three most recent activations. *)
Lemma extend_history_spec history a :
  zlen history <= activationHistoryRetention ->
  exists n, extend_history history a = drop n history ++ [a] /\ (n <= length history)%nat /\
    zlen (extend_history history a) = Z.min activationHistoryRetention (zlen history + 1) /\
    Z.of_nat n = zlen history + 1 - zlen (extend_history history a).
Proof.
  unfold extend_history, activationHistoryRetention. intros Hl. rewrite zlen_app.
  change (zlen [a]) with 1. destruct (Z.ltb_spec 3 (zlen history + 1)) as [Hgt|Hle].
  - exists 1%nat. rewrite length_app. simpl. unfold zlen in *.
    replace (length history + 1 - Z.to_nat 3)%nat with 1%nat by lia.
    rewrite drop_app_le, length_app, length_drop by lia. simpl. split; [done|]. lia.
  - exists 0%nat. rewrite drop_0, zlen_app. change (zlen [a]) with 1. split; [done|]. lia.
Qed.

Lemma extend_slot_ok s t ns sl id g a (state : option slotState) :
  (forall st, state = Some st -> slot_ok s ns sl st) ->
  next_slot_generation state = Ok g -> st_effectiveTime s <= t ->
  NewActivation ns sl id g t = Ok a -> has_revision s ns id = true ->
  slot_ok (with_effectiveTime t s) ns sl
    (mkSlotState a (extend_history match state with Some st => ss_history st | None => [] end a)).
Proof.
  intros Hst Hg Ht (Ea & Hv)%NewActivation_Ok Hrev. set (old := match state with Some st => _ | None => [] end).
  assert (Hold : zlen old = Z.min activationHistoryRetention (g - 1) /\
    map act_generation old = seqZ (g - zlen old) (zlen old) /\
    StronglySorted Z.le (map act_activatedAt old) /\
    Forall (activation_ok (with_effectiveTime t s) ns sl) old /\ 1 <= g <= MaxUint64).
  { unfold old, next_slot_generation in *. destruct state as [st|].
    - destruct (Z.eqb_spec (act_generation (ss_current st)) MaxUint64) as [|Hmax]; [done|]. injection Hg as <-.
      specialize (Hst st eq_refl). assert (M := slot_ok_mono s (with_effectiveTime t s) _ _ _ Hst Ht ltac:(done)).
      destruct M as [h1 h2 h3 h4 h5 h6].
      assert (Hcur : activation_ok (with_effectiveTime t s) ns sl (ss_current st)).
      { rewrite Forall_forall in h5. apply h5. by apply last_Some_elem_of. }
      destruct Hcur as (_ & _ & _ & Hrange & _).
      split; [by rewrite h6; f_equal; lia|]. split; [rewrite h3; f_equal; lia|]. repeat split; auto; lia.
    - injection Hg as <-. repeat split; try constructor; by vm_compute. }
  destruct Hold as (L & G & T & F & R).
  destruct (extend_history_spec old a) as (n & E & Hn & Hlen & Hcut); [lia|].
  assert (Eg : act_generation a = g) by by subst a. assert (Et : act_activatedAt a = t) by by subst a.
  split; cbn [ss_current ss_history].
  - rewrite E. apply last_snoc.
  - rewrite Hlen. lia.
  - rewrite Eg, E at 1. rewrite map_app, <- skipn_map, G, Hlen, drop_seqZ. cbn [map]. rewrite Eg.
    assert (Hz := zlen_nonneg old).
    replace (Z.min activationHistoryRetention (zlen old + 1)) with ((zlen old - Z.of_nat n) + 1) by (unfold zlen in *; lia).
    rewrite seqZ_app by (unfold zlen in *; lia). f_equal; [f_equal; unfold zlen in *; lia|].
    unfold seqZ. simpl. f_equal. unfold zlen in *. lia.
  - rewrite E, map_app, <- skipn_map. cbn [map]. apply sorted_snoc. split; [by apply sorted_drop|].
    apply Forall_drop, Forall_map. eapply Forall_impl; [exact F|]. intros x (_ & _ & _ & _ & Hx & _). simpl in *. lia.
  - rewrite E. apply Forall_app. split; [by apply Forall_drop|]. constructor; [|constructor].
    subst a. repeat split; simpl in *; try done; lia.
  - rewrite Hlen, Eg, L. unfold activationHistoryRetention. lia.
Qed.

Lemma activate_commit_inv request generation now s res s' :
  store_inv s -> activate_commit request generation now s = (res, s') -> store_inv s'.
Proof.
  intros Hi Hc. apply activate_commit_outcome in Hc as
    [(e & _ & Ha)|(t & a & event & Ht & _ & Hrev & _ & Hg & Ha & _ & _ & He & ->)]; [by eapply aged_inv|].
  assert (Hi1 : store_inv (with_effectiveTime t s)) by by apply time_inv.
  assert (Hslot := extend_slot_ok s t _ _ _ _ _ _ (fun st => si_slots s Hi _ _ st) Hg Ht Ha Hrev).
  assert (R : 0 <= generation).
  { assert (Z := sl_all _ _ _ _ Hslot). cbn [ss_history] in Z. rewrite Forall_forall in Z.
    destruct (Z a) as (_ & _ & _ & Hr & _).
    { apply last_Some_elem_of, (sl_last _ _ _ _ Hslot). }
    apply NewActivation_Ok in Ha as (-> & _). simpl in Hr. lia. }
  apply (newEvent_Ok _ (with_effectiveTime t s)) in He as (Hcont & _); [|done|done].
  apply (publish_inv event (with_effectiveTime t s)); auto.
  by apply (with_slots_inv _ _ _ (with_effectiveTime t s)).
Qed.

(** * Revisions *)

Lemma put_commit_outcome record created u now s res s' :
  put_commit record created u now s = (res, s') ->
  (exists e, res = Err e /\ aged s s') \/
  (exists existing, revision_lookup s (rm_namespace (rw_metadata record))
       (RevisionMetadata_ID (rw_metadata record)) = Some existing /\
     rw_artifact existing = rw_artifact record /\ res = NewPutRevisionResult existing false /\ s' = s) \/
  (exists t event,
     st_effectiveTime s <= t /\ now <= t /\
     revision_lookup s (rm_namespace (rw_metadata record)) (RevisionMetadata_ID (rw_metadata record)) = None /\
     res = Ok created /\
     newEventLocked (revision_event (rm_namespace (rw_metadata record)) (RevisionMetadata_ID (rw_metadata record)))
       t (with_effectiveTime t s) = Ok event /\
     s' = appendEventLocked event t (put_record record (with_effectiveTime t s))).
Proof.
  unfold put_commit. destruct (revision_lookup _ _ _) as [existing|] eqn:El.
  { unfold existing_answer. destruct (bool_decide_reflect (rw_artifact existing <> rw_artifact record)) as [Hf|Hf];
      intros [= <- <-].
    - left. eauto with store.
    - right. left. exists existing. repeat split. by destruct (decide (rw_artifact existing = rw_artifact record)). }
  destruct (nextEventSequenceLocked _ _) as [seq|e]; [|intros [= <- <-]; left; eauto with store].
  destruct (effectiveTimeLocked now s) as [t s1] eqn:Et.
  apply effectiveTime_spec in Et as (_ & Ht & Hn & ->).
  destruct (newEventLocked _ _ _) as [event|e] eqn:En; intros [= <- <-].
  - right. right. exists t, event. repeat split; auto.
  - left. eauto with store.
Qed.

Lemma put_commit_inv record created u now s res s' :
  store_inv s -> RevisionRecord_Valid record = true ->
  put_commit record created u now s = (res, s') -> store_inv s'.
Proof.
  intros Hi Hv Hc. apply put_commit_outcome in Hc as
    [(e & _ & Ha)|[(existing & _ & _ & _ & ->)|(t & event & Ht & _ & Hnew & _ & He & ->)]];
    [by eapply aged_inv|done|].
  assert (Hi1 : store_inv (with_effectiveTime t s)) by by apply time_inv.
  apply (newEvent_Ok _ (with_effectiveTime t s)) in He as (Hcont & _); [|done|done].
  apply (publish_inv event (with_effectiveTime t s)); auto. by apply put_record_inv.
Qed.

(** * The commit protocol *)

(** An operation that holds its reservation either fails before it commits,
    touching nothing but the armed failure, or runs its commit once; it
    releases the reservation in every case. *)
Lemma commit_tail_outcome {P A} (commit : P -> Time -> Store -> result A * Store) ctx clock r p f s res s' :
  ownsCommitReservationLocked r s = true ->
  commit_tail commit ctx clock r p f s = (res, s') ->
  (exists e b, res = Err e /\ s' = releaseCommitReservationLocked r (with_failNextEvent b s)) \/
  (exists now s1, store_now clock = Ok now /\ commit p now s = (res, s1) /\
     s' = releaseCommitReservationLocked r s1).
Proof.
  intros Hown. assert (Eb : with_failNextEvent (st_failNextEvent s) s = s) by by destruct s.
  assert (Early : forall e, (Err e, releaseCommitReservationLocked r s) = (res, s') ->
    exists e b, res = Err e /\ s' = releaseCommitReservationLocked r (with_failNextEvent b s)).
  { intros e [= <- <-]. exists e, (st_failNextEvent s). by rewrite Eb. }
  unfold commit_tail. destruct (ctx_done ctx 10); [by left; eauto|].
  assert (Hf : (if f then fail_section r s else (Ok tt, s)) = (Ok tt, s) \/
    (if f then fail_section r s else (Ok tt, s)) = (Err ErrorUnavailable, with_failNextEvent false s)).
  { destruct f; [|by left]. unfold fail_section. rewrite Hown. simpl. destruct (st_failNextEvent s); [by right|by left]. }
  destruct Hf as [->| ->]; [|intros [= <- <-]; left; by exists ErrorUnavailable, false].
  destruct (store_now clock) as [now|e]; [|by left; eauto].
  destruct (ctx_done ctx 11); [by left; eauto|].
  unfold commit_section. rewrite Hown. simpl. destruct (ctx_done ctx 12); [by left; eauto|].
  destruct (commit p now s) as [answer s1] eqn:Ec. intros [= <- <-]. right. by exists now, s1.
Qed.

(** The durable part of the store is left as it was. *)
Record same_durable (s s' : Store) : Prop := {
  du_revisions : st_revisions s' = st_revisions s;
  du_order : st_revisionOrder s' = st_revisionOrder s;
  du_slots : st_slots s' = st_slots s;
  du_data : st_data s' = st_data s;
  du_events : st_events s' = st_events s;
  du_key : st_cursorKey s' = st_cursorKey s;
  du_time : st_effectiveTime s <= st_effectiveTime s'
}.

#[export] Instance same_durable_preorder : PreOrder same_durable.
Proof. split; [by intros s|]. intros a b c [] []. split; try congruence. lia. Qed.

Lemma facts_durable s s' : same_facts s s' -> same_durable s s'.
Proof. intros []. split; try congruence. lia. Qed.

Lemma aged_durable s s' : aged s s' -> same_durable s s'.
Proof. intros [-> Ht]. by split. Qed.

(** Appending an event to its namespace, on a store with the same streams. *)
Record event_appended (ns : string) (event : StateEvent) (s s' : Store) : Prop := {
  ea_others : forall ns', ns' <> ns -> st_events s' !! ns' = st_events s !! ns';
  ea_stream : exists cut e, es_values (stream s' ns) = drop cut (es_values (stream s ns)) ++ [e] /\
    (cut <= length (es_values (stream s ns)))%nat /\
    er_sequence e = highWater (stream s ns) + 1 /\
    ev_kind (er_value e) = ev_kind event /\ ev_revisionID (er_value e) = ev_revisionID event /\
    ev_slot (er_value e) = ev_slot event /\ ev_slotGeneration (er_value e) = ev_slotGeneration event /\
    ev_dataGeneration (er_value e) = ev_dataGeneration event /\
    ev_occurredAt (er_value e) = st_effectiveTime s';
  ea_high : highWater (stream s' ns) = highWater (stream s ns) + 1
}.

Lemma publish_event input t s s1 e :
  store_inv s -> st_effectiveTime s <= t ->
  0 <= ev_slotGeneration input -> 0 <= ev_dataGeneration input ->
  newEventLocked input t (with_effectiveTime t s) = Ok e ->
  st_events s1 = st_events s -> st_cursorKey s1 = st_cursorKey s -> st_cursorKeyOK s1 = st_cursorKeyOK s ->
  st_effectiveTime s1 = t ->
  event_appended (ev_namespace input) input s (appendEventLocked e t s1).
Proof.
  intros Hi Ht Hs Hd He E1 E2 E3 <-.
  assert (Hi' := time_inv _ s Hi Ht).
  apply (newEvent_Ok _ (with_effectiveTime (st_effectiveTime s1) s)) in He as (Hc & Ens & Ek & Er & Esl & Esg & Edg); [|done|done].
  assert (Hc1 : continues s1 e) by by eapply continues_frame.
  assert (He1 : events_ok s1).
  { unfold events_ok. rewrite E1, E2, E3. apply (si_events _ Hi'). }
  destruct (append_events s1 e He1 Hc1) as (st' & cut & Eev & _ & Hhigh & Hv & Hcut).
  rewrite Ens in *. assert (Est : stream s1 (ev_namespace input) = stream s (ev_namespace input)).
  { unfold stream. by rewrite E1. }
  rewrite Est in *. destruct Hc1 as (Hq & _ & Htime). rewrite Ens in Hq.
  assert (Eq : er_sequence e = highWater (stream s (ev_namespace input)) + 1).
  { rewrite <- Est. unfold nextEventSequenceLocked in Hq. unfold stream.
    destruct (st_events s1 !! ev_namespace input) as [st|]; simpl in *; [|by injection Hq as <-].
    destruct (_ =? _); [done|]. by injection Hq as <-. }
  assert (Es : stream (appendEventLocked e (st_effectiveTime s1) s1) (ev_namespace input) = st').
  { unfold stream. by rewrite Eev, lookup_insert_eq. }
  split.
  - intros ns' Hne. by rewrite Eev, lookup_insert_ne, E1.
  - exists cut, e. rewrite Es.
    assert (F := append_frame e (st_effectiveTime s1) s1). unfold same_but_events in F.
    rewrite F at 1. cbn [st_effectiveTime with_events]. done.
  - rewrite Es. congruence.
Qed.

(** ** Commits never touch reservations *)

Lemma append_reservations e t s : st_reservations (appendEventLocked e t s) = st_reservations s.
Proof. assert (F := append_frame e t s). unfold same_but_events in F. by rewrite F. Qed.

Lemma aged_reservations s s' : aged s s' -> st_reservations s' = st_reservations s.
Proof. by intros [-> _]. Qed.

#[local] Hint Resolve aged_reservations : store.

Lemma write_commit_reservations request fp p now s res s' :
  write_commit request fp p now s = (res, s') -> st_reservations s' = st_reservations s.
Proof.
  intros [(e & _ & Ha)|[(previous & _ & _ & _ & ->)|(t & event & _ & _ & _ & _ & _ & _ & _ & ->)]]%write_commit_outcome;
    [by auto with store|done|].
  rewrite append_reservations. unfold notifyGenerationWaitersLocked. by destruct (st_waiters _ !! _).
Qed.

Lemma activate_commit_reservations request generation now s res s' :
  activate_commit request generation now s = (res, s') -> st_reservations s' = st_reservations s.
Proof.
  intros [(e & _ & Ha)|(t & a & event & _ & _ & _ & _ & _ & _ & _ & _ & _ & ->)]%activate_commit_outcome;
    [by auto with store|by rewrite append_reservations].
Qed.

Lemma put_commit_reservations record created u now s res s' :
  put_commit record created u now s = (res, s') -> st_reservations s' = st_reservations s.
Proof.
  intros [(e & _ & Ha)|[(existing & _ & _ & _ & ->)|(t & event & _ & _ & _ & _ & _ & ->)]]%put_commit_outcome;
    [by auto with store|done|by rewrite append_reservations].
Qed.

(** Releasing a held reservation frees exactly its key. *)
Lemma release_held r s s' :
  ownsCommitReservationLocked r s' = true -> st_reservations s !! cr_key r = None ->
  (forall k, k <> cr_key r -> st_reservations s' !! k = st_reservations s !! k) ->
  st_reservations (releaseCommitReservationLocked r s') = st_reservations s.
Proof.
  intros Hown Hn Ho. unfold releaseCommitReservationLocked. rewrite Hown. cbn [st_reservations with_reservations].
  apply map_eq. intros k. destruct (decide (cr_key r = k)) as [<-|Hne].
  - by rewrite lookup_delete_eq.
  - rewrite lookup_delete_ne by done. by apply Ho.
Qed.

Lemma owns_reservations r s s' :
  st_reservations s' = st_reservations s -> ownsCommitReservationLocked r s' = ownsCommitReservationLocked r s.
Proof. unfold ownsCommitReservationLocked. by intros ->. Qed.

(** * Progress of a publication *)

Lemma next_sequence_error ns s e : nextEventSequenceLocked ns s = Err e -> e = ErrorResourceExhausted.
Proof. unfold nextEventSequenceLocked. destruct (_ =? _); congruence. Qed.

Lemma valid_namespace_len ns : validateNamespace ns = Ok tt -> len ns <= MaxNamespaceBytes.
Proof. unfold validateNamespace. intros ([] & Hn%validateText_Ok & _)%rbind_ok. apply Hn. Qed.

Lemma valid_identifier_len id : validateIdentifier id = Ok tt -> len id <= MaxIdentifierBytes.
Proof. intros Hn%validateText_Ok. apply Hn. Qed.

Lemma event_fits e :
  len (ev_namespace e) <= MaxIdentifierBytes -> len (ev_cursor e) <= MaxIdentifierBytes ->
  len (ev_revisionID e) <= MaxIdentifierBytes -> len (ev_slot e) <= MaxIdentifierBytes ->
  is_ok (addStateEventCost event_budget e) = true.
Proof.
  intros h1 h2 h3 h4. assert (Hb : budget_ok event_budget) by by vm_compute.
  rewrite (proj2 (addStateEventCost_costs event_budget e Hb)). unfold charge, event_budget. cbn [used max].
  assert (E : stateEventCost e <= MaxEventPageBytes).
  { unfold stateEventCost, sum_cost, textCost. cbn [map foldr]. unfold MaxIdentifierBytes in *.
    change MaxEventPageBytes with 4194304. lia. }
  destruct (Z.leb_spec (0 + stateEventCost e) MaxEventPageBytes); [done|lia].
Qed.

(** An event with valid fields can always be minted while sequence numbers
    last. *)
Lemma newEvent_progress input t s :
  store_inv s -> 0 < t -> validateNamespace (ev_namespace input) = Ok tt -> event_fields_ok input = true ->
  len (ev_revisionID input) <= MaxIdentifierBytes -> len (ev_slot input) <= MaxIdentifierBytes ->
  is_ok (nextEventSequenceLocked (ev_namespace input) s) = true ->
  exists e, newEventLocked input t s = Ok e.
Proof.
  intros Hi Ht Hns Hf Hr Hs [seq Hseq]%is_ok_true. unfold newEventLocked. rewrite Hseq. simpl.
  assert (Hpos : seq <> 0).
  { destruct (nextSequence_spec s _ _ (si_events s Hi) Hseq) as (Hst & -> & _).
    assert (P := so_expired _ _ _ _ _ _ Hst). assert (Q := zlen_nonneg (es_values (default (mkEventState [] 0) (st_events s !! ev_namespace input)))). lia. }
  destruct (mint_position (st_cursorKey s) (st_cursorKeyOK s) "event" (ev_namespace input) "" seq (si_key s Hi)
    ltac:(by left) Hpos) as [c Hc]. rewrite Hc. simpl.
  assert (Hid := minted_identifier _ _ _ _ Hc).
  unfold NewStateEvent. cbn [ev_occurredAt ev_namespace ev_cursor].
  destruct (is_ok_true (addStateEventCost event_budget (mkStateEvent (ev_namespace input) c (ev_kind input)
     (ev_revisionID input) (ev_slot input) (ev_slotGeneration input) (ev_dataGeneration input) t))) as [W _].
  destruct W as [b ->].
  { apply event_fits; simpl; try done; [by apply valid_namespace_len|by apply valid_identifier_len]. }
  simpl. unfold IsZero. destruct (Z.eqb_spec t 0); [lia|]. rewrite Hns, Hid. simpl.
  unfold event_fields_ok in *. cbn [ev_kind ev_revisionID ev_slot ev_slotGeneration ev_dataGeneration].
  rewrite Hf. by eexists.
Qed.

(** A context that stays usable and a clock that has a reading. *)
Record usable (ctx : Context) : Prop := {
  us_err : forall n, ctx_err ctx n = CtxUsable;
  us_done : forall n, ctx_done ctx n = false
}.

Lemma commit_tail_progress {P A} (commit : P -> Time -> Store -> result A * Store) ctx now r p s :
  usable ctx -> 0 < now -> ownsCommitReservationLocked r s = true ->
  commit_tail commit ctx (Some now) r p false s =
  let '(answer, s1) := commit p now s in (answer, releaseCommitReservationLocked r s1).
Proof.
  intros [_ Hd] Hn Hown. unfold commit_tail, store_now, IsZero. rewrite !Hd.
  destruct (Z.eqb_spec now 0); [lia|]. unfold commit_section. by rewrite Hown.
Qed.

Lemma later_time now s t s1 : 0 < now -> effectiveTimeLocked now s = (t, s1) -> 0 < t /\ s1 = with_effectiveTime t s /\ st_effectiveTime s <= t.
Proof. intros Hn (_ & H1 & H2 & ->)%effectiveTime_spec. repeat split; auto. lia. Qed.
End Commit.
