(* ===== verification/MemProtocol.v ===== *)
(** The commit protocol of the memory store and its interface.

    [Mutation] is what [PutRevision], [Activate] and [WriteData] promise the
    protocol: which reservation key they use, what the first critical section
    guarantees about the prepared data ([ready]), that interference by calls
    on other keys cannot invalidate it ([rely]), and what the commit may do.
    [run_commit_sound] is proved from the interface alone. *)

From Stdlib Require Import ZArith Lia Sorted.
From stdpp Require Import base list gmap strings sorting.
From S2P Require Import Prelude Limits Text Types Cost Canon Data Policy Events Revisions Avl Index Cursor Fingerprint MemState MemEvents MemOps MemData MemInv MemCommit.

Section Protocol.
Context `{D : Dsl} `{H : Hmac}.

(** * Holding a reservation *)

(** A reservation that is held: present under its key, with this identity. *)
Definition held (r : commitReservation) (s : Store) : Prop := ownsCommitReservationLocked r s = true.

Lemma held_intro r x s s' :
  cr_ref x = cr_ref r -> st_reservations s' = <[cr_key r := x]> (st_reservations s) -> held r s'.
Proof.
  intros Ex E. unfold held, ownsCommitReservationLocked. by rewrite E, lookup_insert_eq, Ex, Nat.eqb_refl.
Qed.

Lemma held_same r s s' : st_reservations s' !! cr_key r = st_reservations s !! cr_key r -> held r s -> held r s'.
Proof. unfold held, ownsCommitReservationLocked. by intros ->. Qed.

(** Releasing a reservation leaves the others as they were before it. *)
Lemma release_restores r x s s' :
  st_reservations s !! cr_key r = None -> cr_ref x = cr_ref r ->
  st_reservations s' = <[cr_key r := x]> (st_reservations s) ->
  st_reservations (releaseCommitReservationLocked r s') = st_reservations s.
Proof.
  intros Hn Ex E. unfold releaseCommitReservationLocked, ownsCommitReservationLocked.
  rewrite E, lookup_insert_eq, Ex, Nat.eqb_refl. cbn [st_reservations with_reservations].
  by apply delete_insert_id.
Qed.

(** * The first critical section *)

(** What the first section of an operation leaves alone. *)
Record begin_frame (s s' : Store) : Prop := {
  bf_inv : store_inv s';
  bf_facts : same_facts s s';
  bf_fail : st_failNextEvent s' = st_failNextEvent s;
  bf_waiters : st_waiters s' = st_waiters s;
  bf_next : (st_nextRef s <= st_nextRef s')%nat;
  bf_closed : st_closed s ⊆ st_closed s'
}.

#[export] Instance begin_frame_trans : Transitive begin_frame.
Proof.
  intros a b c [a1 a2 a3 a4 a5 a6] [b1 b2 b3 b4 b5 b6]. split; [done|by etrans|congruence|congruence|lia|by etrans].
Qed.

Lemma begin_frame_refl s : store_inv s -> begin_frame s s.
Proof. by split. Qed.

Lemma release_closed r s : st_closed s ⊆ st_closed (releaseCommitReservationLocked r s).
Proof.
  unfold releaseCommitReservationLocked. destruct (ownsCommitReservationLocked _ _); [|done].
  intros x Hx. by right.
Qed.

Lemma release_frame r s s' : begin_frame s s' -> begin_frame s (releaseCommitReservationLocked r s').
Proof.
  intros F. etrans; [exact F|]. split.
  - apply release_inv, F.
  - apply release_facts.
  - unfold releaseCommitReservationLocked. by destruct (ownsCommitReservationLocked _ _).
  - unfold releaseCommitReservationLocked. by destruct (ownsCommitReservationLocked _ _).
  - unfold releaseCommitReservationLocked. by destruct (ownsCommitReservationLocked _ _).
  - apply release_closed.
Qed.

(** The state right after reserving. *)
Lemma reserve_frame k r s s1 :
  store_inv s -> reserveCommitLocked k s = Some (r, s1) ->
  begin_frame s s1 /\ st_reservations s !! k = None /\ cr_key r = k /\
  st_reservations s1 = <[k := r]> (st_reservations s).
Proof.
  intros Hi Hr. assert (Hi1 := reserve_inv _ _ _ _ Hi Hr).
  apply reserve_spec in Hr as (Hn & Er & Es). subst s1.
  split; [|by subst r]. split; try done. simpl. lia.
Qed.

(** The state right after reserving and describing. *)
Lemma reserved_frame k op key fp r s s1 :
  store_inv s -> reserveCommitLocked k s = Some (r, s1) ->
  begin_frame s (describe_reservation r op key fp s1) /\ st_reservations s !! k = None /\ cr_key r = k /\
  exists x, cr_ref x = cr_ref r /\
    st_reservations (describe_reservation r op key fp s1) = <[k := x]> (st_reservations s).
Proof.
  intros Hi Hr. destruct (reserve_frame _ _ _ _ Hi Hr) as (F & Hn & Ek & Er).
  split; [|split; [done|split; [done|]]].
  - etrans; [exact F|]. split; try done. apply describe_inv; [apply F|].
    rewrite Ek, Er, lookup_insert_eq. by exists r.
  - eexists. split; [|cbn [describe_reservation st_reservations with_reservations];
      rewrite Ek, Er, insert_insert_eq; reflexivity]. done.
Qed.

(** How the first section can end, for an operation on [key]. *)
Definition begin_spec {P A} (key : commitReservationKey) (ready : P -> Store -> Prop) (s : Store)
  (b : begun P A) (s' : Store) : Prop :=
  match b with
  | Wait ref => s' = s /\ exists pending, st_reservations s !! key = Some pending /\ cr_ref pending = ref
  | Return _ => st_reservations s' = st_reservations s
  | Hold r p failEvent =>
      st_reservations s !! key = None /\ cr_key r = key /\ held r s' /\
      (forall k, k <> key -> st_reservations s' !! k = st_reservations s !! k) /\
      failEvent = st_failNextEvent s /\ ready p s'
  end.

(** * Interference *)

(** What a call that holds [k] can rely on while others run. *)
Record rely (k : commitReservationKey) (s s' : Store) : Prop := {
  rl_next : (st_nextRef s <= st_nextRef s')%nat;
  rl_published : forall ns id, has_revision s ns id = true -> has_revision s' ns id = true;
  rl_data : forall ns, k = data_key ns -> st_data s' !! ns = st_data s !! ns;
  rl_slot : forall ns sl, k = slot_key ns sl -> slot_lookup s' ns sl = slot_lookup s ns sl;
  rl_revision : forall ns, k = revision_key ns -> st_revisions s' !! ns = st_revisions s !! ns;
  rl_reservation : st_reservations s' !! k = st_reservations s !! k
}.

#[export] Instance rely_preorder k : PreOrder (rely k).
Proof.
  split.
  - intros s. by split.
  - intros a b c [a1 a2 a3 a4 a5 a6] [b1 b2 b3 b4 b5 b6]. split; auto; [lia|..|congruence]; intros.
    + by rewrite b3, a3.
    + by rewrite b4, a4.
    + by rewrite b5, a5.
Qed.

Lemma facts_rely k s s' :
  same_facts s s' -> (st_nextRef s <= st_nextRef s')%nat ->
  st_reservations s' !! k = st_reservations s !! k -> rely k s s'.
Proof.
  intros [f1 f2 f3 f4 f5 f6 f7 f8] Hn Hr. split; auto.
  - unfold has_revision. by rewrite f2.
  - by rewrite f5.
  - unfold slot_lookup. by rewrite f4.
  - by rewrite f2.
Qed.

Lemma aged_rely k s s' : aged s s' -> rely k s s'.
Proof. intros [-> _]. by split. Qed.

Lemma begin_rely {P A} key (ready : P -> Store -> Prop) k s (b : begun P A) s' :
  begin_frame s s' -> begin_spec key ready s b s' -> k <> key \/ st_reservations s !! k <> None -> rely k s s'.
Proof.
  intros F Hb Hk. apply facts_rely; [apply F|apply F|]. destruct b as [r p f|ref|res]; simpl in Hb.
  - destruct Hb as (Hn & _ & _ & Ho & _). apply Ho. destruct Hk as [|Hs]; [done|]. intros ->. done.
  - by destruct Hb as [-> _].
  - by rewrite Hb.
Qed.

(** What never changes once it is there: published revisions and replay
    records; generations, event numbers and time only move forwards. *)
Record grows (s s' : Store) : Prop := {
  gr_revision : forall ns id r, revision_lookup s ns id = Some r -> revision_lookup s' ns id = Some r;
  gr_record : forall ns key i, idempotencyRecord (st_data s !! ns) key = Some i ->
    idempotencyRecord (st_data s' !! ns) key = Some i;
  gr_data : forall ns d, st_data s !! ns = Some d ->
    exists d', st_data s' !! ns = Some d' /\ ds_generation d <= ds_generation d' /\
      (ds_generation d' = ds_generation d -> ds_current d' = ds_current d);
  gr_slot : forall ns sl st, slot_lookup s ns sl = Some st ->
    exists st', slot_lookup s' ns sl = Some st' /\ act_generation (ss_current st) <= act_generation (ss_current st');
  gr_events : forall ns, highWater (stream s ns) <= highWater (stream s' ns);
  gr_time : st_effectiveTime s <= st_effectiveTime s'
}.

#[export] Instance grows_preorder : PreOrder grows.
Proof.
  split.
  - intros s. split; eauto; try lia; intros; eexists; (split; [done|lia || (split; [lia|done])]).
  - intros a b c [a1 a2 a3 a4 a5 a6] [b1 b2 b3 b4 b5 b6]. split; auto; try lia.
    + intros ns d Hd. destruct (a3 _ _ Hd) as (d1 & Hd1 & ? & E1). destruct (b3 _ _ Hd1) as (d2 & Hd2 & ? & E2).
      exists d2. split; [done|]. split; [lia|]. intros E. rewrite E2, E1; [done|lia|lia].
    + intros ns sl st Hd. destruct (a4 _ _ _ Hd) as (d1 & Hd1 & ?). destruct (b4 _ _ _ Hd1) as (d2 & Hd2 & ?).
      exists d2. split; [done|lia].
    + intros ns. specialize (a5 ns). specialize (b5 ns). lia.
Qed.

Lemma durable_grows s s' : same_durable s s' -> grows s s'.
Proof.
  intros [f1 f2 f3 f4 f5 f6 f7]. split; auto.
  - unfold revision_lookup. by rewrite f1.
  - by rewrite f4.
  - rewrite f4. intros ns d Hd. by exists d.
  - unfold slot_lookup. rewrite f3. intros ns sl st Hd. exists st. split; [done|lia].
  - unfold stream. rewrite f5. lia.
Qed.

(** A commit that appends one event and otherwise grows. *)
Lemma appended_high ns event s s' :
  event_appended ns event s s' -> forall ns', highWater (stream s ns') <= highWater (stream s' ns').
Proof.
  intros [o1 o2 o3] ns'. destruct (decide (ns' = ns)) as [->|Hne]; [lia|]. unfold stream. rewrite o1 by done. lia.
Qed.

(** ** Generation waiters *)

(** What a critical section promises the snapshots that wait for a generation:
    it leaves their channel and the namespace's data alone, or it closes the
    channel. *)
Record signals (s s' : Store) : Prop := {
  sg_closed : st_closed s ⊆ st_closed s';
  sg_namespace : forall ns,
    (st_waiters s' !! ns = st_waiters s !! ns /\ st_data s' !! ns = st_data s !! ns) \/
    (st_waiters s' !! ns = None /\ forall w, st_waiters s !! ns = Some w -> gw_ref w ∈ st_closed s')
}.

Lemma quiet_signals s s' :
  st_waiters s' = st_waiters s -> st_data s' = st_data s -> st_closed s ⊆ st_closed s' -> signals s s'.
Proof. intros Ew Ed Hc. split; [done|]. intros ns. left. by rewrite Ew, Ed. Qed.

Lemma frame_signals s s' : begin_frame s s' -> signals s s'.
Proof. intros F. apply quiet_signals; [apply F|apply (bf_facts _ _ F)|apply F]. Qed.

Lemma aged_signals s s' : aged s s' -> signals s s'.
Proof. intros [-> _]. by apply quiet_signals. Qed.

Lemma append_signals event now s s1 : signals s s1 -> signals s (appendEventLocked event now s1).
Proof.
  intros [S1 S2]. assert (F := append_frame event now s1). unfold same_but_events in F. split; rewrite F; done.
Qed.

(** * The interface of a mutating operation *)

Class Mutation {P A} (key : commitReservationKey) (begin : Store -> begun P A * Store)
  (commit : P -> Time -> Store -> result A * Store) := {
  ready : P -> Store -> Prop;
  begin_ok s b s' : store_inv s -> begin s = (b, s') -> begin_frame s s' /\ begin_spec key ready s b s';
  ready_rely p s s' : ready p s -> rely key s s' -> ready p s';
  commit_inv p now s res s' : store_inv s -> ready p s -> commit p now s = (res, s') -> store_inv s';
  commit_guarantee p now s res s' : store_inv s -> ready p s -> commit p now s = (res, s') ->
    st_reservations s' = st_reservations s /\ grows s s' /\ (forall k, k <> key -> rely k s s');
  commit_error p now s e s' : store_inv s -> ready p s -> commit p now s = (Err e, s') ->
    aged s s' /\ (0 < now -> e = ErrorResourceExhausted)
}.

Lemma run_commit_sound {P A} key begin commit (M : Mutation (P:=P) (A:=A) key begin commit) ctx clock s res s' :
  store_inv s -> run_commit begin commit ctx clock s = Some (res, s') ->
  store_inv s' /\ st_reservations s' = st_reservations s /\ grows s s' /\
  (is_ok res = false -> same_durable s s').
Proof.
  intros Hi. unfold run_commit. destruct (begin s) as [b s1] eqn:Eb.
  destruct (begin_ok _ _ _ Hi Eb) as [F Hb]. assert (Hdur := facts_durable _ _ (bf_facts _ _ F)).
  destruct b as [r p f|pending|answer]; [|done|].
  2:{ intros [= <- <-]. split; [apply F|]. split; [done|]. split; [by apply durable_grows|done]. }
  destruct Hb as (Hn & Ek & Hheld & Ho & _ & Hready). rewrite <- Ek in Hn, Ho.
  intros [= Ht]. apply commit_tail_outcome in Ht as [(e & fl & -> & ->)|(now & s2 & _ & Hcom & ->)]; [| |done].
  - assert (Hd : same_durable s (releaseCommitReservationLocked r (with_failNextEvent fl s1))).
    { etrans; [exact Hdur|]. apply facts_durable. etrans; [|apply release_facts]. done. }
    split; [apply release_inv, fail_inv, F|]. split; [by apply (release_held r s (with_failNextEvent fl s1))|].
    split; [by apply durable_grows|done].
  - destruct (commit_guarantee _ _ _ _ _ (bf_inv _ _ F) Hready Hcom) as (Er & Hg & _).
    split; [apply release_inv; by eapply commit_inv; [apply F|..]|].
    split. { apply release_held; [by rewrite (owns_reservations r s1 s2 Er)|done|]. intros k Hk. rewrite Er. by apply Ho. }
    assert (Hrel := facts_durable _ _ (release_facts r s2)). split.
    + etrans; [by apply durable_grows|]. etrans; [exact Hg|]. by apply durable_grows.
    + destruct res as [|e]; [done|]. intros _.
      destruct (commit_error _ _ _ _ _ (bf_inv _ _ F) Hready Hcom) as [Ha _].
      etrans; [exact Hdur|]. etrans; [by apply aged_durable|done].
Qed.
End Protocol.
