(* ===== verification/MemWrite.v ===== *)
(** Data writes end to end (store/memory/idempotency.go, [WriteData]).

    [write_refused] is the decision table of a write: the answers that change
    nothing, in the order the code checks them. [write_admissible] is its
    complement. [WriteData_commits] says that an admissible write on a free
    namespace commits, and what it commits; [WriteData_effect] says what any
    outcome of any call may do to the store. *)

From Stdlib Require Import ZArith Lia Sorted.
From stdpp Require Import base list gmap strings sorting.
From S2P Require Import Prelude Limits Text Types Cost Canon Data Policy Events Revisions Avl Index Cursor Fingerprint MemState MemEvents MemOps MemData MemInv MemCommit MemProtocol.

Section Write.
Context `{D : Dsl} `{H : Hmac}.

(** The facts of a namespace, as finite maps. *)
Definition namespace_facts (s : Store) (ns : string) (tuples : gmap Tuple RelationshipTuple)
  (attributes : gmap AttributeKey Attribute) : Prop :=
  match st_data s !! ns with
  | Some d => version_rep (ds_current d) tuples attributes
  | None => tuples = ∅ /\ attributes = ∅
  end.

Definition namespace_generation (s : Store) (ns : string) : Z :=
  match st_data s !! ns with Some d => ds_generation d | None => 0 end.

Definition namespace_record (s : Store) (request : WriteDataRequest) : option idempotencyState :=
  idempotencyRecord (st_data s !! wd_namespace request) (wd_idempotencyKey request).

(** The answers of a write that finds its namespace free and does not commit. *)
Inductive write_refused (request : WriteDataRequest) (fp : list Z) (s : Store) : result WriteDataResponse -> Prop :=
  | refused_replay previous :
      namespace_record s request = Some previous -> is_fingerprint previous = fp ->
      write_refused request fp s (Ok (mkWriteDataResponse (wr_generation (is_response previous)) true))
  | refused_reuse previous :
      namespace_record s request = Some previous -> is_fingerprint previous <> fp ->
      write_refused request fp s (Err ErrorConflict)
  | refused_revision :
      namespace_record s request = None ->
      has_revision s (wd_namespace request) (wd_validationRevisionID request) = false ->
      write_refused request fp s (Err ErrorNotFound)
  | refused_generation :
      namespace_record s request = None ->
      has_revision s (wd_namespace request) (wd_validationRevisionID request) = true ->
      namespace_generation s (wd_namespace request) <> wd_expectedGeneration request ->
      write_refused request fp s (Err ErrorConflict)
  | refused_exhausted :
      namespace_record s request = None ->
      has_revision s (wd_namespace request) (wd_validationRevisionID request) = true ->
      namespace_generation s (wd_namespace request) = wd_expectedGeneration request ->
      wd_expectedGeneration request = MaxUint64 \/
        is_ok (nextEventSequenceLocked (wd_namespace request) s) = false ->
      write_refused request fp s (Err ErrorResourceExhausted)
  | refused_blocked tuples attributes :
      namespace_record s request = None ->
      has_revision s (wd_namespace request) (wd_validationRevisionID request) = true ->
      namespace_generation s (wd_namespace request) = wd_expectedGeneration request ->
      namespace_facts s (wd_namespace request) tuples attributes -> blocked request attributes ->
      write_refused request fp s (Err ErrorConflict).

Record write_admissible (request : WriteDataRequest) (s : Store) : Prop := {
  adm_record : namespace_record s request = None;
  adm_revision : has_revision s (wd_namespace request) (wd_validationRevisionID request) = true;
  adm_generation : namespace_generation s (wd_namespace request) = wd_expectedGeneration request;
  adm_generation_room : wd_expectedGeneration request <> MaxUint64;
  adm_event_room : is_ok (nextEventSequenceLocked (wd_namespace request) s) = true;
  adm_unblocked : forall tuples attributes,
    namespace_facts s (wd_namespace request) tuples attributes -> ~ blocked request attributes
}.

(** The candidate version holds the facts after the write. *)
Definition candidate_applies (request : WriteDataRequest) (p : write_prepared) (s : Store) : Prop :=
  forall tuples attributes, namespace_facts s (wd_namespace request) tuples attributes ->
    version_rep (wp_candidate p) (spec_tuples request tuples) (spec_attributes request attributes).

Lemma attributes_rep_unique root m m' : attributes_rep root m -> attributes_rep root m' -> m = m'.
Proof. intros [_ E] [_ E']. apply map_eq. intros k. by rewrite <- E, <- E'. Qed.

Lemma version_rep_unique v t t' a a' : version_rep v t a -> version_rep v t' a' -> t = t' /\ a = a'.
Proof. intros (_ & _ & <- & Ha & _) (_ & _ & <- & Ha' & _). split; [done|]. by eapply attributes_rep_unique. Qed.

Lemma namespace_facts_exist s ns :
  store_inv s -> exists tuples attributes, namespace_facts s ns tuples attributes.
Proof.
  intros Hi. unfold namespace_facts. destruct (st_data s !! ns) as [d|] eqn:Ed; [|by exists ∅, ∅].
  apply (nd_version d (si_data s Hi ns d Ed)).
Qed.

(** The version a write starts from: the current one, or a fresh empty one. *)
Lemma write_base_spec s ns :
  store_inv s ->
  let '(base, s') := write_base (st_data s !! ns) s in
  begin_frame s s' /\ st_reservations s' = st_reservations s /\
  dv_generation base = namespace_generation s ns /\
  (forall tuples attributes, namespace_facts s ns tuples attributes -> version_rep base tuples attributes) /\
  match st_data s !! ns with Some d => dv_ref (ds_current d) = dv_ref base | None => True end.
Proof.
  intros Hi. unfold write_base, namespace_generation, namespace_facts.
  destruct (st_data s !! ns) as [d|] eqn:Ed.
  - assert (Hd := si_data s Hi ns d Ed). rewrite (nd_generation d Hd). by split; [split|].
  - split; [split; try done; [apply nextRef_inv; [done|lia]|simpl; lia]|]. do 2 (split; [done|]).
    split; [|done]. intros t a [-> ->]. split; [done|]. split; [constructor|]. split; [done|]. split; [apply attributes_rep_empty|done].
Qed.

(** How the first section of a write can end. *)
Definition write_begun (request : WriteDataRequest) (fp : list Z) (s : Store)
  (b : begun write_prepared WriteDataResponse) (s' : Store) : Prop :=
  match b with
  | Wait ref =>
      s' = s /\ exists pending, st_reservations s !! data_key (wd_namespace request) = Some pending /\
        cr_ref pending = ref /\ cr_idempotencyKey pending = wd_idempotencyKey request /\ cr_fingerprint pending = fp
  | Return res =>
      st_reservations s' = st_reservations s /\
      (st_reservations s !! data_key (wd_namespace request) <> None /\ res = Err ErrorConflict \/
       st_reservations s !! data_key (wd_namespace request) = None /\ write_refused request fp s res)
  | Hold r p failEvent =>
      st_reservations s !! data_key (wd_namespace request) = None /\
      cr_key r = data_key (wd_namespace request) /\ held r s' /\
      (forall k, k <> data_key (wd_namespace request) -> st_reservations s' !! k = st_reservations s !! k) /\
      failEvent = st_failNextEvent s /\
      write_admissible request s /\ write_ready request p s' /\ candidate_applies request p s /\
      write_revalidates request (wp_base p) (st_data s !! wd_namespace request) = true
  end.

#[local] Hint Constructors write_refused : store.

(** The last step of the first section: build the candidate. *)
Lemma candidate_spec request s base s' :
  store_inv s -> mutations_ok request ->
  write_base (st_data s !! wd_namespace request) s = (base, s') ->
  match apply_attributes request (dv_attributes base) with
  | (_, false) => exists tuples attributes,
      namespace_facts s (wd_namespace request) tuples attributes /\ blocked request attributes
  | (attributeRoot, true) =>
      let v := mkDataVersion (st_nextRef s') (namespace_generation s (wd_namespace request) + 1)
                 (apply_tuples request (dv_tuples base)) attributeRoot in
      (forall tuples attributes, namespace_facts s (wd_namespace request) tuples attributes ->
        ~ blocked request attributes /\
        version_rep v (spec_tuples request tuples) (spec_attributes request attributes))
  end.
Proof.
  intros Hi Hc Hb. assert (B := write_base_spec s (wd_namespace request) Hi). rewrite Hb in B.
  destruct B as (_ & _ & _ & Hrep & _).
  destruct (namespace_facts_exist s (wd_namespace request) Hi) as (t0 & a0 & Hf).
  destruct (Hrep _ _ Hf) as (Ha & Hbst & _ & Hattr & _).
  assert (A := apply_attributes_rep request _ _ Hattr Hc).
  destruct (apply_attributes request (dv_attributes base)) as [root [|]]; [|by exists t0, a0].
  destruct A as [Hroot Hnb]. intros v t a Hta. destruct (Hrep _ _ Hta) as (_ & _ & Et & Hattr' & Hk1 & Hk2).
  assert (a = a0) as -> by by eapply attributes_rep_unique.
  destruct (apply_tuples_rep request (dv_tuples base) Ha Hbst) as (H1 & H2 & H3).
  split; [done|]. split; [done|]. split; [done|]. split; [by rewrite <- Et|]. split; [done|].
  split; [by apply spec_tuples_keyed|by apply spec_attributes_keyed].
Qed.

(** A refusal releases the reservation and leaves the facts. *)
Lemma refuse_spec request fp s r x s' res :
  begin_frame s s' -> st_reservations s !! data_key (wd_namespace request) = None ->
  cr_key r = data_key (wd_namespace request) -> cr_ref x = cr_ref r ->
  st_reservations s' = <[data_key (wd_namespace request) := x]> (st_reservations s) ->
  write_refused request fp s res ->
  begin_frame s (releaseCommitReservationLocked r s') /\
  write_begun request fp s (Return res) (releaseCommitReservationLocked r s').
Proof.
  intros Hf Hn Ek Ex Es Hr. split; [by apply release_frame|]. split; [|by right].
  apply (release_restores r x); congruence.
Qed.

Lemma replay_answer request fp s previous :
  store_inv s -> namespace_record s request = Some previous ->
  write_refused request fp s
    (if bool_decide (is_fingerprint previous <> fp) then Err ErrorConflict
     else NewWriteDataResponse (wr_generation (is_response previous)) true).
Proof.
  intros Hi Hp. destruct (bool_decide_reflect (is_fingerprint previous <> fp)) as [Hf|Hf]; [by eauto with store|].
  unfold NewWriteDataResponse. assert (G : 1 <= wr_generation (is_response previous)).
  { unfold namespace_record, idempotencyRecord in Hp.
    destruct (st_data s !! wd_namespace request) as [d|] eqn:Ed; [|done].
    apply (nd_replays d (si_data s Hi _ d Ed) _ _ Hp). }
  destruct (Z.eqb_spec (wr_generation (is_response previous)) 0); [lia|].
  eapply refused_replay; [done|]. by destruct (decide (is_fingerprint previous = fp)).
Qed.

Lemma frame_facts s s' request :
  begin_frame s s' ->
  namespace_record s' request = namespace_record s request /\
  (forall id, has_revision s' (wd_namespace request) id = has_revision s (wd_namespace request) id) /\
  namespace_generation s' (wd_namespace request) = namespace_generation s (wd_namespace request) /\
  nextEventSequenceLocked (wd_namespace request) s' = nextEventSequenceLocked (wd_namespace request) s /\
  (forall t a, namespace_facts s' (wd_namespace request) t a <-> namespace_facts s (wd_namespace request) t a).
Proof.
  intros [_ [f1 f2 f3 f4 f5 f6 f7 f8] _ _ _].
  unfold namespace_record, has_revision, namespace_generation, nextEventSequenceLocked, namespace_facts.
  by rewrite f2, f5, f6.
Qed.

(** A namespace reserved by another call. *)
Lemma write_begin_taken request fp s b s' :
  store_inv s -> reserveCommitLocked (data_key (wd_namespace request)) s = None ->
  write_begin request fp s = (b, s') -> begin_frame s s' /\ write_begun request fp s b s'.
Proof.
  intros Hi Er. unfold write_begin. rewrite Er. assert (F : begin_frame s s) by by split.
  unfold reserveCommitLocked in Er.
  destruct (st_reservations s !! data_key (wd_namespace request)) as [pending|] eqn:Ep; [|done].
  assert (R : write_begun request fp s (Return (Err ErrorConflict)) s).
  { split; [done|]. left. by rewrite Ep. }
  destruct (bool_decide_reflect (cr_operation pending = "data"%string)); simpl; [|by intros [= <- <-]].
  destruct (bool_decide_reflect (cr_idempotencyKey pending = wd_idempotencyKey request)); simpl; [|by intros [= <- <-]].
  destruct (bool_decide_reflect (cr_fingerprint pending = fp)); simpl; intros [= <- <-]; (split; [done|]); [|done].
  split; [done|]. exists pending. by rewrite Ep.
Qed.

Lemma write_candidate_spec request fp r x s s2 b s' :
  mutations_ok request -> begin_frame s s2 ->
  st_reservations s !! data_key (wd_namespace request) = None ->
  cr_key r = data_key (wd_namespace request) -> cr_ref x = cr_ref r ->
  st_reservations s2 = <[data_key (wd_namespace request) := x]> (st_reservations s) ->
  namespace_record s request = None ->
  has_revision s (wd_namespace request) (wd_validationRevisionID request) = true ->
  namespace_generation s (wd_namespace request) = wd_expectedGeneration request ->
  wd_expectedGeneration request <> MaxUint64 -> 0 <= wd_expectedGeneration request <= MaxUint64 ->
  is_ok (nextEventSequenceLocked (wd_namespace request) s) = true ->
  write_candidate request r (wd_expectedGeneration request) (st_data s2 !! wd_namespace request) s2 = (b, s') ->
  begin_frame s s' /\ write_begun request fp s b s'.
Proof.
  intros Hc F Hn Ek Ex Ers Hrec Hrev Hgen Hmax Hrange Hseq. unfold write_candidate.
  destruct (frame_facts s s2 request F) as (_ & _ & Eg & _ & Hfacts).
  assert (B := write_base_spec s2 (wd_namespace request) (bf_inv _ _ F)).
  assert (C := fun base s' => candidate_spec request s2 base s' (bf_inv _ _ F) Hc).
  destruct (write_base (st_data s2 !! wd_namespace request) s2) as [base s3].
  specialize (C base s3 eq_refl). destruct B as (F3 & Er3 & Hg3 & Hrep3 & Href3).
  assert (F03 : begin_frame s s3) by by etrans.
  destruct (apply_attributes request (dv_attributes base)) as [root [|]]; simpl.
  2:{ intros [= <- <-]. destruct C as (t & a & Hf & Hb). apply (refuse_spec _ _ _ r x); try done; [congruence|].
      apply (refused_blocked _ _ _ t a); auto. by apply Hfacts. }
  unfold NewWriteDataResponse. destruct (Z.eqb_spec (wd_expectedGeneration request + 1) 0); [lia|].
  intros [= <- <-]. rewrite Eg, Hgen in C. split.
  { etrans; [exact F03|]. split; try done; [|simpl; lia]. apply nextRef_inv; [apply F03|lia]. }
  assert (Hall := fun t a Hf => C t a (proj2 (Hfacts t a) Hf)).
  repeat (split; [done|]). split.
  { apply (held_intro r x s); [done|]. cbn [st_reservations with_nextRef]. congruence. }
  split; [intros k Hk; cbn [st_reservations with_nextRef]; by rewrite Er3, Ers, lookup_insert_ne|].
  split; [apply F03|]. split; [split; auto; intros t a Hf; apply (Hall t a Hf)|].
  split; [split; cbn [wp_candidate wp_response dv_generation dv_ref]; try done|].
  - lia.
  - destruct (namespace_facts_exist s2 (wd_namespace request) (bf_inv _ _ F)) as (t & a & Hf).
    do 2 eexists. by apply C.
  - simpl. lia.
  - split; [intros t a Hf; apply (Hall t a Hf)|]. cbn [wp_base].
    revert Href3 Hg3 Hgen. rewrite Eg. unfold write_revalidates, namespace_generation.
    rewrite (sf_data _ _ (bf_facts _ _ F)). destruct (st_data s !! wd_namespace request) as [d|].
    + intros -> _ ->. by rewrite Z.eqb_refl, Nat.eqb_refl.
    + intros _ -> <-. done.
Qed.

Lemma write_begin_spec request fp s b s' :
  store_inv s -> mutations_ok request -> 0 <= wd_expectedGeneration request <= MaxUint64 ->
  write_begin request fp s = (b, s') -> begin_frame s s' /\ write_begun request fp s b s'.
Proof.
  intros Hi Hc Hrange Hb.
  destruct (reserveCommitLocked (data_key (wd_namespace request)) s) as [[r s1]|] eqn:Er; [|by apply write_begin_taken].
  destruct (reserved_frame _ "data" (wd_idempotencyKey request) fp _ _ _ Hi Er) as (F & Hn & Ek & x & Ex & Ers).
  revert Hb. unfold write_begin. rewrite Er. set (s2 := describe_reservation _ _ _ _ _) in *. cbv zeta.
  destruct (frame_facts s s2 request F) as (Erec & Eh & Eg & Eq & _).
  fold (namespace_record s2 request) (namespace_generation s2 (wd_namespace request)). rewrite Erec, Eh, Eg, Eq.
  assert (refuse : forall res, write_refused request fp s res ->
    (Return res, releaseCommitReservationLocked r s2) = (b, s') -> begin_frame s s' /\ write_begun request fp s b s').
  { intros res He [= <- <-]. by apply (refuse_spec _ _ _ r x). }
  destruct (namespace_record s request) as [previous|] eqn:Ep; [by apply refuse, replay_answer|].
  destruct (has_revision s _ _) eqn:Erev; [|by apply refuse, refused_revision]. simpl.
  destruct (Z.eqb_spec (namespace_generation s (wd_namespace request)) (wd_expectedGeneration request)) as [E|];
    simpl; [|by apply refuse, refused_generation].
  destruct (Z.eqb_spec (namespace_generation s (wd_namespace request)) MaxUint64) as [Em|Hmax].
  { apply refuse, refused_exhausted; try done. left. congruence. }
  destruct (nextEventSequenceLocked (wd_namespace request) s) as [seq|e] eqn:Eseq.
  2:{ assert (e = ErrorResourceExhausted) as -> by by eapply next_sequence_error.
      apply refuse, refused_exhausted; try done. right. by rewrite Eseq. }
  rewrite E. apply (write_candidate_spec request fp r x s s2); try done; [congruence|by rewrite Eseq].
Qed.

(** * What a committed write does *)

Record write_committed (request : WriteDataRequest) (fp : list Z) (s s' : Store)
  (response : WriteDataResponse) : Prop := {
  wc_response : response = mkWriteDataResponse (wd_expectedGeneration request + 1) false;
  wc_generation : namespace_generation s' (wd_namespace request) = wd_expectedGeneration request + 1;
  wc_facts : forall tuples attributes, namespace_facts s (wd_namespace request) tuples attributes ->
    namespace_facts s' (wd_namespace request) (spec_tuples request tuples) (spec_attributes request attributes);
  wc_record : namespace_record s' request = Some (mkIdempotencyState fp response);
  wc_records : forall key, key <> wd_idempotencyKey request ->
    idempotencyRecord (st_data s' !! wd_namespace request) key = idempotencyRecord (st_data s !! wd_namespace request) key;
  wc_others : forall ns, ns <> wd_namespace request -> st_data s' !! ns = st_data s !! ns;
  wc_revisions : st_revisions s' = st_revisions s /\ st_revisionOrder s' = st_revisionOrder s;
  wc_slots : st_slots s' = st_slots s;
  wc_event : event_appended (wd_namespace request)
    (data_event (wd_namespace request) (wd_expectedGeneration request + 1)) s s'
}.

Lemma append_fields e t s :
  let s' := appendEventLocked e t s in
  st_revisions s' = st_revisions s /\ st_revisionOrder s' = st_revisionOrder s /\ st_slots s' = st_slots s /\
  st_data s' = st_data s /\ st_reservations s' = st_reservations s /\ st_effectiveTime s' = st_effectiveTime s /\
  st_failNextEvent s' = st_failNextEvent s /\ st_nextRef s' = st_nextRef s /\ st_waiters s' = st_waiters s.
Proof.
  assert (F := append_frame e t s). unfold same_but_events in F. intros s'. subst s'. rewrite F. done.
Qed.

Lemma write_commit_committed request fp p now s response s' :
  store_inv s -> write_ready request p s -> candidate_applies request p s ->
  namespace_record s request = None ->
  write_commit request fp p now s = (Ok response, s') -> write_committed request fp s s' response.
Proof.
  intros Hi Hw Hcand Hnone Hc. destruct (write_commit_outcome _ _ _ _ _ _ _ Hc) as
    [(e & ? & _)|[(previous & Hp & _)|(t & event & Ht & _ & [= ->] & Hr & Hrev & _ & He & ->)]];
    [done|unfold namespace_record in Hnone; congruence|].
  set (s1 := with_data _ _). set (s2 := notifyGenerationWaitersLocked _ s1).
  destruct (notify_facts (wd_namespace request) s1) as [f1 f2 f3 f4 f5 f6 f7 f8]. fold s2 in f1, f2, f3, f4, f5, f6, f7, f8.
  destruct (append_fields event t s2) as (a1 & a2 & a3 & a4 & _).
  assert (Ed : st_data (appendEventLocked event t s2) = <[wd_namespace request := written request fp p s]> (st_data s)).
  { by rewrite a4, f5. }
  destruct Hw as [w1 w2 w3 w4 w5].
  split; try (unfold namespace_generation, namespace_facts, namespace_record; rewrite Ed, lookup_insert_eq).
  - by rewrite w5, w1.
  - cbn [written ds_generation]. done.
  - intros tuples attributes Hf. cbn [written ds_current]. by apply Hcand.
  - cbn [idempotencyRecord written ds_idempotency]. by rewrite lookup_insert_eq.
  - intros key Hk. cbn [idempotencyRecord written ds_idempotency]. rewrite lookup_insert_ne by done.
    by destruct (st_data s !! wd_namespace request).
  - intros ns Hns. by rewrite Ed, lookup_insert_ne.
  - by rewrite a1, a2, f2, f3.
  - by rewrite a3, f4.
  - rewrite <- w1. eapply (publish_event (data_event _ _)); try done; cbn [ev_dataGeneration data_event]; lia.
Qed.

(** A request within the input budget holds attributes that fit an output:
    its own framing costs more than the framing of a result. *)
Lemma write_cost_readable i b :
  addWriteDataRequestCost (mkBudget 0 MaxAggregateInputBytes) i = Ok b ->
  Forall (fun a => attributeCost a + 9 <= MaxAggregateOutputBytes) (in_AttributeWrites i).
Proof.
  intros E. destruct (addWriteDataRequestCost_costs (mkBudget 0 MaxAggregateInputBytes) i) as [_ Ec]; [by vm_compute|].
  rewrite E in Ec. unfold charge in Ec. simpl in Ec. case_match eqn:Hle; [|done]. apply Z.leb_le in Hle.
  apply Forall_forall. intros a Ha. change MaxAggregateOutputBytes with MaxAggregateInputBytes.
  assert (Hs : attributeCost a <= sum_cost attributeCost (in_AttributeWrites i)).
  { apply sum_cost_elem; [|done]. intros x. solve_nonneg. }
  assert (0 <= writeDataRequestCost i - 48 - sum_cost attributeCost (in_AttributeWrites i)); [|lia].
  unfold writeDataRequestCost. match goal with |- 0 <= ?x + (16 + (32 + (?y + (?z + (?u + ?v))))) - _ - _ =>
    assert (0 <= x) by solve_nonneg; assert (0 <= y) by solve_nonneg; assert (0 <= z) by solve_nonneg;
    assert (0 <= v) by solve_nonneg; lia end.
Qed.

Lemma fingerprinted_ok request sf : FingerprintWriteData request = Ok sf -> mutations_ok request.
Proof.
  unfold FingerprintWriteData. intros (c & Hc & _)%rbind_ok.
  apply NewWriteDataRequest_Ok_guards in Hc as [G Hc]. split; [by eapply canonical_write_consistent|].
  unfold write_items_ok in G. rewrite !andb_true_iff in G.
  destruct G as ((((((((_ & Hcost) & _) & _) & _) & Ht) & _) & Ha) & _).
  apply is_ok_true in Hcost as [b Hcost]. apply write_cost_readable in Hcost.
  cbn [request_input in_TupleWrites in_AttributeWrites] in *.
  rewrite forallb_forall in Ht, Ha. split; apply Forall_forall; intros x Hx; [by apply Ht, list_elem_of_In|].
  split; [by apply Ha, list_elem_of_In|]. rewrite Forall_forall in Hcost. by apply Hcost.
Qed.

(** The fingerprint [WriteData] files a request under. *)
Definition request_fingerprint (request : WriteDataRequest) (fp : list Z) : Prop :=
  exists sf, FingerprintWriteData request = Ok sf /\ Fingerprint_Bytes (snd sf) = fp.

Lemma WriteData_enters ctx clock request s res s' :
  WriteData ctx clock request s = Some (res, s') ->
  (exists e, res = Err e /\ s' = s) \/
  (exists fp, request_fingerprint request fp /\ mutations_ok request /\
     run_commit (write_begin request fp) (write_commit request fp) ctx clock s = Some (res, s')).
Proof.
  unfold WriteData. destruct (safeContextError (ctx_err ctx 0)); simpl; [|intros [= <- <-]; eauto].
  destruct (FingerprintWriteData request) as [sf|] eqn:Ef; simpl; [|intros [= <- <-]; eauto].
  destruct (safeContextError (ctx_err ctx 1)); simpl; [|intros [= <- <-]; eauto].
  destruct (ctx_done ctx 2); [intros [= <- <-]; eauto|].
  destruct (ctx_done ctx 3); [intros [= <- <-]; eauto|].
  intros Hr. right. exists (Fingerprint_Bytes (snd sf)). split; [by exists sf|].
  split; [by eapply fingerprinted_ok|done].
Qed.

(** The outcome of a whole write call. *)
Definition write_effect (request : WriteDataRequest) (s : Store) (res : result WriteDataResponse) (s' : Store) : Prop :=
  match res with
  | Err _ => same_durable s s'
  | Ok response => exists fp, request_fingerprint request fp /\
      (same_durable s s' /\ wr_replayed response = true /\
         (exists previous, namespace_record s request = Some previous /\ is_fingerprint previous = fp /\
            wr_generation response = wr_generation (is_response previous)) \/
       write_admissible request s /\ write_committed request fp s s' response)
  end.

Lemma refused_effect request fp s res s' :
  request_fingerprint request fp -> same_durable s s' -> write_refused request fp s res -> write_effect request s res s'.
Proof.
  intros Hfp Hs Hr. destruct Hr as [previous Hp Hf| | | | |]; try done.
  exists fp. split; [done|]. left. split; [done|]. split; [done|]. by exists previous.
Qed.

Lemma committed_frame request fp s s1 s2 s' response :
  begin_frame s s1 -> write_committed request fp s1 s2 response ->
  st_data s' = st_data s2 -> st_revisions s' = st_revisions s2 -> st_revisionOrder s' = st_revisionOrder s2 ->
  st_slots s' = st_slots s2 -> st_events s' = st_events s2 -> st_effectiveTime s' = st_effectiveTime s2 ->
  write_committed request fp s s' response.
Proof.
  intros F [c1 c2 c3 c4 c5 c6 c7 c8 c9] E1 E2 E3 E4 E5 E6.
  destruct (bf_facts _ _ F) as [f1 f2 f3 f4 f5 f6 f7 f8].
  unfold namespace_generation, namespace_facts, namespace_record in *. rewrite <- E1 in *. rewrite f5 in *.
  split; auto.
  - by rewrite E2, E3, <- f2, <- f3.
  - by rewrite E4, <- f4.
  - destruct c9 as [o1 o2 o3]. unfold stream in *.
    rewrite <- E5, f6 in o1. rewrite <- E5, <- E6, f6 in o2. rewrite <- E5, f6 in o3. by split.
Qed.

(** Writes: every call that returns keeps the store well formed, gives its
    reservation back, and has the effect its answer announces. *)
Lemma run_write_effect request fp ctx clock s res s' :
  store_inv s -> 0 <= wd_expectedGeneration request <= MaxUint64 ->
  request_fingerprint request fp -> mutations_ok request ->
  run_commit (write_begin request fp) (write_commit request fp) ctx clock s = Some (res, s') ->
  store_inv s' /\ st_reservations s' = st_reservations s /\ write_effect request s res s'.
Proof.
  intros Hi Hrange Hfp Hc. unfold run_commit. destruct (write_begin request fp s) as [b s1] eqn:Eb.
  destruct (write_begin_spec _ _ _ _ _ Hi Hc Hrange Eb) as [F Hb].
  assert (Hdur := facts_durable _ _ (bf_facts _ _ F)). destruct b as [r p f|pending|answer]; [|done|].
  2:{ intros [= <- <-]. destruct Hb as [Er [[_ ->]|[_ Hr]]]; (split; [apply F|split; [done|]]); [done|].
      by eapply refused_effect. }
  destruct Hb as (Hn & Ek & Hheld & Ho & _ & Hadm & Hready & Hcand & _). rewrite <- Ek in Hn, Ho.
  intros [= Ht]. apply commit_tail_outcome in Ht as [(e & fl & -> & ->)|(now & s2 & _ & Hcom & ->)]; [| |done].
  - split; [apply release_inv, fail_inv, F|]. split; [by apply (release_held r s (with_failNextEvent fl s1))|].
    simpl. etrans; [exact Hdur|]. apply facts_durable. etrans; [|apply release_facts]. done.
  - assert (Hi2 := write_commit_inv _ _ _ _ _ _ _ (bf_inv _ _ F) Hready Hcom).
    assert (Er := write_commit_reservations _ _ _ _ _ _ _ Hcom).
    split; [by apply release_inv|]. split.
    { apply release_held; [by rewrite (owns_reservations r s1 s2 Er)|done|]. intros k Hk. rewrite Er. by apply Ho. }
    destruct (release_facts r s2) as [f1 f2 f3 f4 f5 f6 f7 f8].
    destruct (frame_facts s s1 request F) as (Erec & _ & _ & _ & Hfacts).
    destruct res as [response|e].
    + exists fp. split; [done|]. right. split; [done|]. eapply committed_frame; try done.
      eapply write_commit_committed; try done; [apply F| |by rewrite Erec; apply Hadm].
      intros t a Hf. by apply Hcand, Hfacts.
    + simpl. etrans; [exact Hdur|]. etrans; [|apply facts_durable; by split].
      apply write_commit_outcome in Hcom as [(e' & _ & Ha)|[(previous & Hp & _)|(? & ? & _ & _ & ? & _)]]; [|exfalso|done].
      * by apply aged_durable.
      * fold (namespace_record s1 request) in Hp. rewrite Erec, (adm_record _ _ Hadm) in Hp. done.
Qed.

Lemma write_effect_spec ctx clock request s res s' :
  store_inv s -> 0 <= wd_expectedGeneration request <= MaxUint64 ->
  WriteData ctx clock request s = Some (res, s') ->
  store_inv s' /\ st_reservations s' = st_reservations s /\ write_effect request s res s'.
Proof.
  intros Hi Hrange Hw. apply WriteData_enters in Hw as [(e & -> & ->)|(fp & Hfp & Hc & Hr)]; [done|].
  by eapply run_write_effect.
Qed.

(** C3: a data write that returns leaves a well-formed store and holds no
    reservation. If it reports an error nothing durable changed. If it reports
    a replay, a record with the same key and the same fingerprint was there,
    its generation is returned and nothing changed. Otherwise the write was
    admissible and committed: the generation advanced by one from the expected
    one, the facts of the namespace are the old ones with the deletes and then
    the writes applied, the replay record and one event with the next sequence
    number were stored with it, and every other namespace, revision and slot
    is untouched. *)
Theorem WriteData_effect ctx clock request s res s' :
  store_inv s -> 0 <= wd_expectedGeneration request <= MaxUint64 ->
  WriteData ctx clock request s = Some (res, s') ->
  store_inv s' /\ st_reservations s' = st_reservations s /\ write_effect request s res s'.
Proof. apply write_effect_spec. Qed.

(** * Progress *)

Lemma write_commit_progress request fp p now s :
  store_inv s -> 0 < now -> validateNamespace (wd_namespace request) = Ok tt ->
  write_ready request p s -> write_revalidates request (wp_base p) (st_data s !! wd_namespace request) = true ->
  has_revision s (wd_namespace request) (wd_validationRevisionID request) = true ->
  namespace_record s request = None -> is_ok (nextEventSequenceLocked (wd_namespace request) s) = true ->
  exists s', write_commit request fp p now s = (Ok (wp_response p), s').
Proof.
  intros Hi Hn Hns Hw Hr Hrev Hrec Hseq. unfold write_commit. rewrite Hr, Hrev. simpl.
  fold (namespace_record s request). rewrite Hrec.
  destruct (proj1 (is_ok_true _) Hseq) as [seq ->]. destruct (effectiveTimeLocked now s) as [t s1] eqn:Et.
  destruct (later_time _ _ _ _ Hn Et) as (Ht & -> & Hle).
  destruct (newEvent_progress (data_event (wd_namespace request) (dv_generation (wp_candidate p))) t
    (with_effectiveTime t s)) as [e ->]; try done; [by apply time_inv| |by eexists].
  unfold event_fields_ok. cbn. destruct (Z.eqb_spec (dv_generation (wp_candidate p)) 0); [|done].
  apply (wy_range _ _ _) in Hw. lia.
Qed.

(** ** The write as a mutation of its namespace *)

(** What a prepared write relies on until it commits. *)
Record write_pending (request : WriteDataRequest) (p : write_prepared) (s : Store) : Prop := {
  pe_ready : write_ready request p s;
  pe_base : write_revalidates request (wp_base p) (st_data s !! wd_namespace request) = true;
  pe_revision : has_revision s (wd_namespace request) (wd_validationRevisionID request) = true;
  pe_record : namespace_record s request = None;
  pe_candidate : candidate_applies request p s
}.

Lemma write_pending_rely request p s s' :
  write_pending request p s -> rely (data_key (wd_namespace request)) s s' -> write_pending request p s'.
Proof.
  intros [[r1 r2 r3 r4 r5] h2 h3 h4 h5] [l1 l2 l3 l4 l5 l6].
  unfold candidate_applies, namespace_facts, namespace_record in *. specialize (l3 _ eq_refl).
  split; unfold candidate_applies, namespace_facts, namespace_record; rewrite ?l3; auto.
  split; auto. lia.
Qed.

Lemma write_commit_error request fp p now s e s' :
  store_inv s -> validateNamespace (wd_namespace request) = Ok tt -> write_pending request p s ->
  write_commit request fp p now s = (Err e, s') -> aged s s' /\ (0 < now -> e = ErrorResourceExhausted).
Proof.
  intros Hi Hns [h1 h2 h3 h4 _] Hc. split.
  { destruct (write_commit_outcome _ _ _ _ _ _ _ Hc) as [(e' & _ & Ha)|[(previous & Hp & _)|(? & ? & _ & _ & ? & _)]];
      [done|unfold namespace_record in h4; congruence|done]. }
  intros Hn. destruct (nextEventSequenceLocked (wd_namespace request) s) as [seq|e'] eqn:Es.
  - destruct (write_commit_progress request fp p now s) as [s2 Hok]; try done; [by rewrite Es|]. congruence.
  - revert Hc. unfold write_commit. rewrite h2, h3. simpl. fold (namespace_record s request). rewrite h4, Es.
    intros [= <- <-]. by eapply next_sequence_error.
Qed.

Lemma write_commit_clock request fp p now s res s' :
  write_commit request fp p now s = (res, s') ->
  st_effectiveTime s <= st_effectiveTime s' /\ st_nextRef s' = st_nextRef s.
Proof.
  intros [(e & _ & [-> Ht])|[(previous & _ & _ & _ & ->)|(t & event & Ht & _ & _ & _ & _ & _ & _ & ->)]]%write_commit_outcome;
    [done|done|].
  destruct (append_fields event t (notifyGenerationWaitersLocked (wd_namespace request)
    (with_data (<[wd_namespace request := written request fp p s]> (st_data s)) (with_effectiveTime t s))))
    as (_ & _ & _ & _ & _ & -> & _ & -> & _).
  unfold notifyGenerationWaitersLocked. by destruct (st_waiters _ !! _).
Qed.

Lemma committed_grows request fp p s s' response :
  write_pending request p s -> write_committed request fp s s' response ->
  st_effectiveTime s <= st_effectiveTime s' -> grows s s'.
Proof.
  intros [_ h2 _ h4 _] [c1 c2 c3 c4 c5 c6 [c7 _] c8 c9] Ht. split; auto.
  - unfold revision_lookup. by rewrite c7.
  - intros ns key i Hi. destruct (decide (ns = wd_namespace request)) as [->|Hns]; [|by rewrite c6].
    rewrite c5; [done|]. intros ->. unfold namespace_record in h4. congruence.
  - intros ns d Hd. destruct (decide (ns = wd_namespace request)) as [->|Hns].
    2:{ exists d. by rewrite c6. }
    unfold namespace_generation, namespace_record in *. rewrite Hd in h2. simpl in h2.
    apply andb_true_iff in h2 as [E%Z.eqb_eq _].
    destruct (st_data s' !! wd_namespace request) as [d'|]; [|done].
    exists d'. split; [done|]. lia.
  - unfold slot_lookup. rewrite c8. intros ns sl st Hst. exists st. split; [done|lia].
  - by eapply appended_high.
Qed.

Lemma write_commit_guarantee request fp p now s res s' :
  store_inv s -> write_pending request p s -> write_commit request fp p now s = (res, s') ->
  st_reservations s' = st_reservations s /\ grows s s' /\
  (forall k, k <> data_key (wd_namespace request) -> rely k s s').
Proof.
  intros Hi Hp Hc. assert (Er := write_commit_reservations _ _ _ _ _ _ _ Hc).
  destruct (write_commit_clock _ _ _ _ _ _ _ Hc) as [Ht Hn]. split; [done|].
  destruct res as [response|e].
  - assert (Hw := write_commit_committed _ _ _ _ _ _ _ Hi (pe_ready _ _ _ Hp) (pe_candidate _ _ _ Hp) (pe_record _ _ _ Hp) Hc).
    split; [by eapply committed_grows|]. destruct Hw as [c1 c2 c3 c4 c5 c6 [c7 _] c8 c9]. intros k Hk. split.
    + lia.
    + unfold has_revision. by rewrite c7.
    + intros ns ->. apply c6. congruence.
    + unfold slot_lookup. by rewrite c8.
    + by rewrite c7.
    + by rewrite Er.
  - destruct (write_commit_outcome _ _ _ _ _ _ _ Hc) as
      [(e' & _ & Ha)|[(previous & Hx & _)|(? & ? & _ & _ & ? & _)]]; [|destruct Hp; unfold namespace_record in *; congruence|done].
    split; [by apply durable_grows, aged_durable|]. intros k _. by apply aged_rely.
Qed.

(** A committed write closes the channel of whoever waits for its namespace. *)
Lemma notify_signals ns d s : signals s (notifyGenerationWaitersLocked ns (with_data (<[ns := d]> (st_data s)) s)).
Proof.
  unfold notifyGenerationWaitersLocked. cbn [st_waiters with_data].
  destruct (st_waiters s !! ns) as [w|] eqn:Ew; split; cbn [st_closed st_waiters st_data with_waiters with_data].
  - intros x Hx. by right.
  - intros ns'. destruct (decide (ns = ns')) as [<-|Hn].
    + right. rewrite lookup_delete_eq. split; [done|]. rewrite Ew. intros ? [= <-]. left.
    + left. by rewrite lookup_delete_ne, lookup_insert_ne.
  - done.
  - intros ns'. destruct (decide (ns = ns')) as [<-|Hn].
    + right. rewrite Ew. done.
    + left. by rewrite lookup_insert_ne.
Qed.

Lemma write_commit_signals request fp p now s res s' :
  write_commit request fp p now s = (res, s') -> signals s s'.
Proof.
  intros [(e & _ & Ha)|[(previous & _ & _ & _ & ->)|(t & event & _ & _ & _ & _ & _ & _ & _ & ->)]]%write_commit_outcome.
  - by apply aged_signals.
  - by apply quiet_signals.
  - apply append_signals. destruct (notify_signals (wd_namespace request) (written request fp p s) (with_effectiveTime t s)). by split.
Qed.

(** A request as it reaches the store: accepted by the request constructor,
    with machine-width generation. *)
Definition write_wf (request : WriteDataRequest) : Prop :=
  is_ok (FingerprintWriteData request) = true /\ 0 <= wd_expectedGeneration request <= MaxUint64.

Lemma write_wf_spec request :
  write_wf request ->
  mutations_ok request /\ validateNamespace (wd_namespace request) = Ok tt /\
  0 <= wd_expectedGeneration request <= MaxUint64.
Proof.
  intros [[sf Hfp]%is_ok_true Hrange]. split; [by eapply fingerprinted_ok|]. split; [|done].
  unfold FingerprintWriteData in Hfp. apply rbind_ok in Hfp as (c & Hc' & _).
  apply NewWriteDataRequest_Ok_guards in Hc' as [G _]. unfold write_items_ok in G. rewrite !andb_true_iff in G.
  destruct G as ((((((_ & G) & _) & _) & _) & _) & _). apply is_ok_true in G as [[] G]. exact G.
Qed.

#[export] Instance write_mutation request fp (W : write_wf request) :
  Mutation (data_key (wd_namespace request)) (write_begin request fp) (write_commit request fp).
Proof.
  refine {| ready := write_pending request |}; destruct (write_wf_spec request W) as (Hc & Hns & Hrange).
  - intros s b s' Hi Hb. destruct (write_begin_spec _ _ _ _ _ Hi Hc Hrange Hb) as [F Hs]. split; [done|].
    destruct b as [r p f|ref|res].
    + destruct Hs as (h1 & h2 & h3 & h4 & h5 & [d1 d2 d3 d4 d5 d6] & h7 & h8 & h9). repeat (split; [done|]).
      destruct (frame_facts s s' request F) as (E1 & E2 & _ & _ & E5).
      split; [done| | | |]; [by rewrite (sf_data _ _ (bf_facts _ _ F))|by rewrite E2|by rewrite E1|].
      intros t a Hf. by apply h8, E5.
    + destruct Hs as (-> & pending & h1 & h2 & _). by split; [|exists pending].
    + by destruct Hs.
  - apply write_pending_rely.
  - intros p now s res s' Hi Hp. apply write_commit_inv; [done|apply Hp].
  - intros p now s res s'. apply write_commit_guarantee.
  - intros p now s e s' Hi. by apply write_commit_error.
Defined.

(** An admissible write commits. When the request is well formed, its
    namespace is free, the context stays usable, the clock has a reading and
    no failure is armed, [WriteData] returns a success that is not a replay;
    it never waits and never reports an error. *)
Theorem WriteData_commits ctx now request sf s :
  store_inv s -> 0 <= wd_expectedGeneration request <= MaxUint64 ->
  FingerprintWriteData request = Ok sf -> usable ctx -> 0 < now -> st_failNextEvent s = false ->
  st_reservations s !! data_key (wd_namespace request) = None -> write_admissible request s ->
  exists s', WriteData ctx (Some now) request s
             = Some (Ok (mkWriteDataResponse (wd_expectedGeneration request + 1) false), s').
Proof.
  intros Hi Hrange Hfp Hu Hnow Hfail Hfree Hadm. assert (Hc := fingerprinted_ok _ _ Hfp).
  assert (Hns : validateNamespace (wd_namespace request) = Ok tt).
  { apply write_wf_spec. split; [by rewrite Hfp|done]. }
  unfold WriteData. rewrite !(us_err _ Hu), Hfp, !(us_done _ Hu). simpl. set (fp := Fingerprint_Bytes sf.2).
  unfold run_commit. destruct (write_begin request fp s) as [b s1] eqn:Eb.
  destruct (write_begin_spec _ _ _ _ _ Hi Hc Hrange Eb) as [F Hb].
  destruct (frame_facts s s1 request F) as (Erec & Erev & _ & Eseq & _).
  destruct b as [r p f|pending|answer].
  - destruct Hb as (_ & _ & Hheld & _ & -> & _ & Hready & _ & Hre). rewrite Hfail.
    destruct (write_commit_progress request fp p now s1) as [s2 Hcom]; try done; try apply F.
    + by rewrite (sf_data _ _ (bf_facts _ _ F)).
    + rewrite Erev. apply Hadm.
    + rewrite Erec. apply Hadm.
    + rewrite Eseq. apply Hadm.
    + rewrite commit_tail_progress by done. rewrite Hcom, (wy_response _ _ _ Hready), (wy_generation _ _ _ Hready). by eexists.
  - destruct Hb as (_ & x & Hx & _). congruence.
  - exfalso. destruct Hb as [_ [[Hx _]|[_ Hr]]]; [done|]. destruct Hadm as [d1 d2 d3 d4 d5 d6].
    destruct Hr as [| | | |_ _ _ [E|E]|t a _ _ _ Hf Hbl]; try congruence. by eapply d6.
Qed.

(** * Replays *)

Lemma replay_run request fp ctx clock s previous :
  store_inv s -> write_wf request -> request_fingerprint request fp -> usable ctx ->
  st_reservations s !! data_key (wd_namespace request) = None ->
  namespace_record s request = Some previous -> is_fingerprint previous = fp ->
  exists s', WriteData ctx clock request s
    = Some (Ok (mkWriteDataResponse (wr_generation (is_response previous)) true), s').
Proof.
  intros Hi W (sf & Hfp & Esf) Hu Hfree Hp Hf. destruct (write_wf_spec request W) as (Hc & _ & Hrange).
  unfold WriteData. rewrite !(us_err _ Hu), Hfp, !(us_done _ Hu). simpl. rewrite Esf. unfold run_commit.
  destruct (write_begin request fp s) as [b s1] eqn:Eb.
  destruct (write_begin_spec _ _ _ _ _ Hi Hc Hrange Eb) as [F Hb]. destruct b as [r p f|ref|answer].
  - destruct Hb as (_ & _ & _ & _ & _ & Hadm & _). exfalso. apply (adm_record _ _) in Hadm. congruence.
  - destruct Hb as (_ & x & Hx & _). congruence.
  - destruct Hb as [_ [[Hx _]|[_ Hr]]]; [done|]. exists s1.
    destruct Hr; congruence.
Qed.

(** A retry is answered from the record, forever. After a write has
    succeeded, the same request sent again in any later state whose namespace
    is free returns the generation of the first answer, marked as a replay,
    and changes nothing durable. *)
Theorem retry_replays ctx clock request s response s1 s2 ctx' clock' :
  store_inv s -> write_wf request -> WriteData ctx clock request s = Some (Ok response, s1) ->
  store_inv s2 -> grows s1 s2 -> st_reservations s2 !! data_key (wd_namespace request) = None -> usable ctx' ->
  exists s3, WriteData ctx' clock' request s2
    = Some (Ok (mkWriteDataResponse (wr_generation response) true), s3) /\ same_durable s2 s3.
Proof.
  intros Hi W Hw Hi2 Hg Hfree Hu. destruct (write_wf_spec request W) as (Hc & _ & Hrange).
  destruct (write_effect_spec _ _ _ _ _ _ Hi Hrange Hw) as (Hi1 & _ & fp & Hfp & He).
  assert (Hrec : exists previous, namespace_record s1 request = Some previous /\ is_fingerprint previous = fp /\
    wr_generation (is_response previous) = wr_generation response).
  { destruct He as [(Hd & _ & previous & Hp & Hf & Eg)|[_ Hcom]].
    - exists previous. unfold namespace_record in *. by rewrite (du_data _ _ Hd).
    - eexists. split; [apply Hcom|done]. }
  destruct Hrec as (previous & Hp & Hf & Eg). apply (gr_record _ _ Hg) in Hp.
  destruct (replay_run request fp ctx' clock' s2 previous) as [s3 Hr]; try done. rewrite Eg in Hr.
  exists s3. split; [done|]. destruct (write_effect_spec _ _ _ _ _ _ Hi2 Hrange Hr) as (_ & _ & fp' & _ & He').
  destruct He' as [[Hd _]|[_ Hcom]]; [done|]. by apply (wc_response _ _ _ _ _) in Hcom.
Qed.

(** An idempotency key cannot be reused for a different mutation. Once a
    record with another fingerprint is filed under the request's key, the
    request is refused as a conflict in every later state and never
    commits. *)
Lemma key_reuse_conflicts ctx clock request fp previous s s2 res s3 :
  store_inv s2 -> 0 <= wd_expectedGeneration request <= MaxUint64 -> request_fingerprint request fp ->
  namespace_record s request = Some previous -> is_fingerprint previous <> fp -> grows s s2 ->
  WriteData ctx clock request s2 = Some (res, s3) ->
  is_ok res = false /\ same_durable s2 s3.
Proof.
  intros Hi Hrange (sf & Hsf & Efp) Hp Hne Hg Hw. apply (gr_record _ _ Hg) in Hp.
  fold (namespace_record s2 request) in Hp.
  destruct (write_effect_spec _ _ _ _ _ _ Hi Hrange Hw) as (_ & _ & He). destruct res as [response|e]; [|done].
  exfalso. destruct He as (fp' & (sf' & Hsf' & Efp') & He).
  assert (fp' = fp) as -> by congruence.
  destruct He as [(_ & _ & q & Hq & Hf & _)|[Hadm _]]; [congruence|]. apply (adm_record _ _) in Hadm. congruence.
Qed.
End Write.
