(* ===== verification/MemSlots.v ===== *)
(** Slot activation end to end (store/memory/slots.go).

    [Activate] is a compare-and-swap on a slot. [activate_admissible] is its
    guard, [activated] its effect; [activate_mutation] makes it an instance of
    the commit protocol's interface. *)

From Stdlib Require Import ZArith Lia Sorted.
From stdpp Require Import base list gmap strings sorting.
From S2P Require Import Prelude Limits Text Types Cost Canon Data Policy Events Revisions Avl Index Cursor Fingerprint MemState MemEvents MemOps MemData MemInv MemCommit MemProtocol.

Section Slots.
Context `{D : Dsl} `{H : Hmac}.

Notation state_of request s := (slot_lookup s (ar_namespace request) (ar_slot request)).

(** The generation a slot has, 0 while it is unset. *)
Definition slot_generation (s : Store) (ns sl : string) : Z :=
  match slot_lookup s ns sl with Some st => act_generation (ss_current st) | None => 0 end.

Record activate_admissible (request : ActivateRequest) (s : Store) : Prop := {
  aa_revision : has_revision s (ar_namespace request) (ar_targetRevisionID request) = true;
  aa_expectation : activationExpectationMatches (ar_expectation request) (state_of request s) = true;
  aa_room : slot_generation s (ar_namespace request) (ar_slot request) <> MaxUint64;
  aa_event_room : is_ok (nextEventSequenceLocked (ar_namespace request) s) = true
}.

Lemma next_generation_spec s ns sl g :
  next_slot_generation (slot_lookup s ns sl) = Ok g <->
  g = slot_generation s ns sl + 1 /\ slot_generation s ns sl <> MaxUint64.
Proof.
  unfold next_slot_generation, slot_generation. destruct (slot_lookup s ns sl) as [st|].
  - destruct (Z.eqb_spec (act_generation (ss_current st)) MaxUint64); split; [done|by intros []| |].
    + by intros [= <-].
    + by intros [-> _].
  - split; [by intros [= <-]|by intros [-> _]].
Qed.

(** * The first section *)

(** What a prepared activation relies on until it commits. *)
Record activate_pending (request : ActivateRequest) (generation : Z) (s : Store) : Prop := {
  ap_revision : has_revision s (ar_namespace request) (ar_targetRevisionID request) = true;
  ap_expectation : activationExpectationMatches (ar_expectation request) (state_of request s) = true;
  ap_generation : next_slot_generation (state_of request s) = Ok generation
}.

Lemma activate_begin_spec request s b s' :
  store_inv s -> activate_begin request s = (b, s') ->
  begin_frame s s' /\
  begin_spec (slot_key (ar_namespace request) (ar_slot request)) (activate_pending request) s b s' /\
  match b with
  | Hold _ _ _ => activate_admissible request s
  | Wait _ => False
  | Return res => is_ok res = false /\
      (st_reservations s !! slot_key (ar_namespace request) (ar_slot request) = None -> ~ activate_admissible request s)
  end.
Proof.
  intros Hi. unfold activate_begin. set (k := slot_key _ _).
  destruct (reserveCommitLocked k s) as [[r s1]|] eqn:Er.
  2:{ intros [= <- <-]. split; [by apply begin_frame_refl|]. split; [done|]. split; [done|]. intros E.
      unfold reserveCommitLocked in Er. by rewrite E in Er. }
  destruct (reserve_frame _ _ _ _ Hi Er) as (F & Hn & Ek & Ers). destruct (bf_facts _ _ F) as [f1 f2 f3 f4 f5 f6 f7 f8].
  assert (E1 : forall id, has_revision s1 (ar_namespace request) id = has_revision s (ar_namespace request) id).
  { intros id. unfold has_revision. by rewrite f2. }
  assert (E2 : state_of request s1 = state_of request s) by (unfold slot_lookup; by rewrite f4).
  assert (E3 : nextEventSequenceLocked (ar_namespace request) s1 = nextEventSequenceLocked (ar_namespace request) s).
  { unfold nextEventSequenceLocked. by rewrite f6. }
  rewrite E1, E2, E3.
  assert (refuse : forall e, ~ activate_admissible request s -> (Return (Err e), releaseCommitReservationLocked r s1) = (b, s') ->
    begin_frame s s' /\ begin_spec k (activate_pending request) s b s' /\ match b with
      | Hold _ _ _ => activate_admissible request s | Wait _ => False
      | Return res => is_ok res = false /\ (st_reservations s !! k = None -> ~ activate_admissible request s) end).
  { intros e Hna [= <- <-]. split; [by apply release_frame|]. split; [|done].
    apply (release_restores r r); congruence. }
  destruct (has_revision s _ _) eqn:Erev; simpl; [|by apply refuse; intros []; congruence].
  destruct (activationExpectationMatches _ _) eqn:Em; simpl; [|by apply refuse; intros []; congruence].
  destruct (next_slot_generation _) as [g|e] eqn:Eg.
  2:{ apply refuse. intros [_ _ Hroom _].
      assert (next_slot_generation (state_of request s) = Ok (slot_generation s (ar_namespace request) (ar_slot request) + 1))
        by by apply next_generation_spec. congruence. }
  destruct (nextEventSequenceLocked (ar_namespace request) s) as [seq|e] eqn:Eseq; [|apply refuse; intros [_ _ _ Hx]; by rewrite Eseq in Hx].
  intros [= <- <-]. split; [done|]. split.
  - split; [done|]. split; [done|]. split; [apply (held_intro r r s); congruence|].
    split; [intros k' Hk'; by rewrite Ers, lookup_insert_ne|]. split; [apply F|]. split; by rewrite ?E1, ?E2.
  - split; try done; [|by rewrite Eseq]. by apply next_generation_spec in Eg as [_ ?].
Qed.

(** * The commit *)

(** The effect of an activation: the slot moves to the target with the next
    generation, its history is extended, one event is appended, and nothing
    else changes. *)
Record activated (request : ActivateRequest) (s s' : Store) (response : ActivateResponse) : Prop := {
  ad_activation : acr_activation response =
    mkActivation (ar_namespace request) (ar_slot request) (ar_targetRevisionID request)
      (slot_generation s (ar_namespace request) (ar_slot request) + 1) (st_effectiveTime s');
  ad_slot : state_of request s' = Some (mkSlotState (acr_activation response)
    (extend_history match state_of request s with Some st => ss_history st | None => [] end (acr_activation response)));
  ad_others : forall ns sl, (ns, sl) <> (ar_namespace request, ar_slot request) ->
    slot_lookup s' ns sl = slot_lookup s ns sl;
  ad_revisions : st_revisions s' = st_revisions s /\ st_revisionOrder s' = st_revisionOrder s;
  ad_data : st_data s' = st_data s;
  ad_event : event_appended (ar_namespace request)
    (slot_event (ar_namespace request) (ar_slot request) (ar_targetRevisionID request)
       (slot_generation s (ar_namespace request) (ar_slot request) + 1)) s s';
  ad_time : st_effectiveTime s <= st_effectiveTime s'
}.

Lemma slot_generation_range s ns sl : store_inv s -> 0 <= slot_generation s ns sl <= MaxUint64.
Proof.
  intros Hi. unfold slot_generation. destruct (slot_lookup s ns sl) as [st|] eqn:Es; [|by vm_compute].
  assert (Hs := si_slots s Hi _ _ _ Es). assert (Hl := sl_last _ _ _ _ Hs). apply last_Some_elem_of in Hl.
  assert (A := sl_all _ _ _ _ Hs). rewrite Forall_forall in A. destruct (A _ Hl) as (_ & _ & _ & ? & _). lia.
Qed.

Lemma activate_commit_activated request generation now s response s' :
  store_inv s -> activate_commit request generation now s = (Ok response, s') -> activated request s s' response.
Proof.
  intros Hi Hc. destruct (activate_commit_outcome _ _ _ _ _ _ Hc) as
    [(e & ? & _)|(t & a & event & Ht & _ & Hrev & Hexp & Hg & Ha & Hresp & _ & He & ->)]; [done|].
  apply next_generation_spec in Hg as [-> Hmax].
  assert (Hrange := slot_generation_range s (ar_namespace request) (ar_slot request) Hi).
  apply NewActivation_Ok in Ha as [Ea _]. unfold NewActivateResponse in Hresp.
  destruct (Activation_valid a); [|done]. injection Hresp as <-. cbn [acr_activation].
  set (m := <[ar_namespace request := _]> _). set (s1 := with_slots m (with_effectiveTime t s)).
  assert (F := append_frame event t s1). unfold same_but_events in F.
  assert (Et : st_effectiveTime (appendEventLocked event t s1) = t) by by rewrite F.
  assert (Esl : forall ns sl, slot_lookup (appendEventLocked event t s1) ns sl = slot_lookup s1 ns sl).
  { intros ns sl. unfold slot_lookup. by rewrite F. }
  split.
  - by rewrite Et.
  - rewrite Esl. unfold s1, m. rewrite slot_lookup_insert. by rewrite decide_True.
  - intros ns sl Hne. rewrite Esl. unfold s1, m. rewrite slot_lookup_insert. rewrite decide_False by naive_solver. done.
  - by rewrite F.
  - by rewrite F.
  - apply (publish_event (slot_event _ _ _ _) t s s1 event); try done; cbn [ev_slotGeneration slot_event]; lia.
  - by rewrite Et.
Qed.

Lemma activated_grows request s s' response : activated request s s' response -> grows s s'.
Proof.
  intros [a1 a2 a3 [a4 _] a5 a6 a7]. split; auto.
  - unfold revision_lookup. by rewrite a4.
  - by rewrite a5.
  - rewrite a5. intros ns d Hd. by exists d.
  - intros ns sl st Hst. destruct (decide ((ns, sl) = (ar_namespace request, ar_slot request))) as [[= -> ->]|Hne].
    + eexists. split; [exact a2|]. cbn [ss_current]. rewrite a1. cbn [act_generation].
      unfold slot_generation. rewrite Hst. lia.
    + exists st. rewrite a3 by done. split; [done|lia].
  - by eapply appended_high.
Qed.

Lemma activate_pending_rely request g s s' :
  activate_pending request g s -> rely (slot_key (ar_namespace request) (ar_slot request)) s s' ->
  activate_pending request g s'.
Proof.
  intros [h1 h2 h3] [l1 l2 l3 l4 l5 l6]. specialize (l4 _ _ eq_refl). split; rewrite ?l4; auto.
Qed.

Lemma activate_commit_next request g now s res s' :
  activate_commit request g now s = (res, s') -> st_nextRef s' = st_nextRef s.
Proof.
  intros [(e & _ & [-> _])|(t & a & event & _ & _ & _ & _ & _ & _ & _ & _ & _ & ->)]%activate_commit_outcome; [done|].
  set (s1 := with_slots _ _). assert (F := append_frame event t s1). unfold same_but_events in F. by rewrite F.
Qed.

Lemma activate_commit_guarantee request g now s res s' :
  store_inv s -> activate_commit request g now s = (res, s') ->
  st_reservations s' = st_reservations s /\ grows s s' /\
  (forall k, k <> slot_key (ar_namespace request) (ar_slot request) -> rely k s s').
Proof.
  intros Hi Hc. assert (Er := activate_commit_reservations _ _ _ _ _ _ Hc).
  assert (Hn := activate_commit_next _ _ _ _ _ _ Hc). split; [done|].
  destruct res as [response|e].
  - assert (Ha := activate_commit_activated _ _ _ _ _ _ Hi Hc). split; [by eapply activated_grows|].
    destruct Ha as [a1 a2 a3 [a4 _] a5 a6 a7]. intros k Hk. split.
    + lia.
    + unfold has_revision. by rewrite a4.
    + by rewrite a5.
    + intros ns sl ->. apply a3. congruence.
    + by rewrite a4.
    + by rewrite Er.
  - destruct (activate_commit_outcome _ _ _ _ _ _ Hc) as [(e' & _ & Ha)|(? & ? & ? & Hx)].
    2:{ destruct Hx as (_ & _ & _ & _ & _ & _ & _ & Hx & _). done. }
    split; [by apply durable_grows, aged_durable|]. intros k _. by apply aged_rely.
Qed.

(** * Progress *)

Definition activate_wf (request : ActivateRequest) : Prop :=
  is_ok (NewActivateRequest (ar_namespace request) (ar_slot request)
           (ar_targetRevisionID request) (ar_expectation request)) = true.

Lemma activate_wf_spec request :
  activate_wf request ->
  validateNamespace (ar_namespace request) = Ok tt /\ validateIdentifier (ar_slot request) = Ok tt /\
  validRevisionIDString (ar_targetRevisionID request) = true.
Proof.
  intros [x Hx]%is_ok_true. unfold NewActivateRequest in Hx.
  apply rbind_ok in Hx as ([] & H1 & Hx). apply rbind_ok in Hx as ([] & H2 & Hx).
  destruct (validRevisionIDString _); [done|]. done.
Qed.

Lemma revision_id_len id : validRevisionIDString id = true -> len id <= MaxIdentifierBytes.
Proof. intros [-> _]%validRevisionIDString_hex. by vm_compute. Qed.

Lemma new_activation_progress ns sl id g t :
  validateNamespace ns = Ok tt -> validateIdentifier sl = Ok tt -> validRevisionIDString id = true ->
  g <> 0 -> 0 < t ->
  NewActivation ns sl id g t = Ok (mkActivation ns sl id g t) /\ Activation_valid (mkActivation ns sl id g t) = true.
Proof.
  intros Hns Hsl Hid Hg Ht.
  assert (Hb : budget_ok output_budget) by by vm_compute.
  assert (E : NewActivation ns sl id g t = Ok (mkActivation ns sl id g t)); [|by split; [|apply NewActivation_Ok in E as []]].
  unfold NewActivation. rewrite (proj2 (addActivationCost_costs output_budget (mkActivation ns sl id g t) Hb)).
  assert (L : activationCost (mkActivation ns sl id g t) <= MaxAggregateOutputBytes).
  { unfold activationCost, sum_cost, textCost. cbn [map foldr act_namespace act_slot act_revisionID].
    apply valid_namespace_len in Hns. apply valid_identifier_len in Hsl. apply revision_id_len in Hid.
    unfold MaxNamespaceBytes, MaxIdentifierBytes in *. change MaxAggregateOutputBytes with 4194304. lia. }
  unfold charge, output_budget. cbn [used max].
  destruct (Z.leb_spec (0 + activationCost (mkActivation ns sl id g t)) MaxAggregateOutputBytes); [|lia]. simpl.
  rewrite Hns, Hsl, Hid. simpl. unfold IsZero.
  destruct (Z.eqb_spec g 0); [done|]. destruct (Z.eqb_spec t 0); [lia|done].
Qed.

Lemma activate_commit_progress request g now s :
  store_inv s -> activate_wf request -> 0 < now -> activate_pending request g s ->
  is_ok (nextEventSequenceLocked (ar_namespace request) s) = true ->
  exists response s', activate_commit request g now s = (Ok response, s').
Proof.
  intros Hi (Hns & Hsl & Hid)%activate_wf_spec Hn [h1 h2 h3] Hseq. unfold activate_commit. rewrite h1, h2, h3. cbn [negb].
  rewrite Z.eqb_refl. cbn [negb]. destruct (proj1 (is_ok_true _) Hseq) as [seq ->].
  destruct (effectiveTimeLocked now s) as [t s1] eqn:Et. destruct (later_time _ _ _ _ Hn Et) as (Ht & -> & Hle).
  assert (Hg : 0 < g).
  { apply next_generation_spec in h3 as [-> _]. assert (R := slot_generation_range s (ar_namespace request) (ar_slot request) Hi). lia. }
  destruct (new_activation_progress (ar_namespace request) (ar_slot request) (ar_targetRevisionID request) g t)
    as [-> Hv]; try done; [lia|]. cbn [rbind]. unfold NewActivateResponse. rewrite Hv. cbn [rbind].
  destruct (newEvent_progress (slot_event (ar_namespace request) (ar_slot request) (ar_targetRevisionID request) g) t
    (with_effectiveTime t s)) as [e ->]; try done; [by apply time_inv| |by apply revision_id_len|by apply valid_identifier_len|by do 2 eexists].
  unfold event_fields_ok. cbn -[validRevisionIDString validateIdentifier]. rewrite Hid, Hsl. simpl.
  destruct (Z.eqb_spec g 0); [lia|done].
Qed.

Lemma activate_commit_error request g now s e s' :
  store_inv s -> activate_wf request -> activate_pending request g s ->
  activate_commit request g now s = (Err e, s') -> aged s s' /\ (0 < now -> e = ErrorResourceExhausted).
Proof.
  intros Hi Hw Hp Hc. split.
  { destruct (activate_commit_outcome _ _ _ _ _ _ Hc) as [(e' & _ & Ha)|(? & ? & ? & Hx)]; [done|].
    by destruct Hx as (_ & _ & _ & _ & _ & _ & _ & Hx & _). }
  intros Hn. destruct (nextEventSequenceLocked (ar_namespace request) s) as [seq|e'] eqn:Es.
  - destruct (activate_commit_progress request g now s) as (x & s2 & Hok); try done; [by rewrite Es|]. congruence.
  - destruct Hp as [h1 h2 h3]. revert Hc. unfold activate_commit. rewrite h1, h2, h3. cbn [negb].
    rewrite Z.eqb_refl, Es. cbn [negb]. intros [= <- <-]. by eapply next_sequence_error.
Qed.

Lemma activate_commit_signals request g now s res s' : activate_commit request g now s = (res, s') -> signals s s'.
Proof.
  intros [(e & _ & Ha)|(t & a & event & Hc)]%activate_commit_outcome; [by apply aged_signals|].
  destruct Hc as (_ & _ & _ & _ & _ & _ & _ & _ & _ & ->). apply append_signals. by apply quiet_signals.
Qed.

#[export] Instance activate_mutation request (W : activate_wf request) :
  Mutation (slot_key (ar_namespace request) (ar_slot request)) (activate_begin request) (activate_commit request).
Proof.
  refine {| ready := activate_pending request |}.
  - intros s b s' Hi Hb. by destruct (activate_begin_spec _ _ _ _ Hi Hb) as (? & ? & _).
  - apply activate_pending_rely.
  - intros p now s res s' Hi _. by apply activate_commit_inv.
  - intros p now s res s' Hi _. by apply activate_commit_guarantee.
  - intros p now s e s' Hi. by apply activate_commit_error.
Defined.

(** * Whole calls *)

Lemma Activate_enters ctx clock request s res s' :
  Activate ctx clock request s = Some (res, s') ->
  (exists e, res = Err e /\ s' = s) \/
  (activate_wf request /\ run_commit (activate_begin request) (activate_commit request) ctx clock s = Some (res, s')).
Proof.
  unfold Activate, activate_wf. destruct (safeContextError (ctx_err ctx 0)); simpl; [|intros [= <- <-]; eauto].
  destruct (is_ok _); [|intros [= <- <-]; eauto].
  destruct (safeContextError (ctx_err ctx 1)); simpl; [|intros [= <- <-]; eauto]. by right.
Qed.

Lemma activated_frame request s s1 s2 s' response :
  begin_frame s s1 -> activated request s1 s2 response -> same_facts s2 s' -> activated request s s' response.
Proof.
  intros F [a1 a2 a3 [a4 a4'] a5 a6 a7] [g1 g2 g3 g4 g5 g6 g7 g8]. destruct (bf_facts _ _ F) as [f1 f2 f3 f4 f5 f6 f7 f8].
  assert (Es : forall ns sl, slot_lookup s1 ns sl = slot_lookup s ns sl) by (intros; unfold slot_lookup; by rewrite f4).
  assert (Es' : forall ns sl, slot_lookup s' ns sl = slot_lookup s2 ns sl) by (intros; unfold slot_lookup; by rewrite g4).
  unfold slot_generation in *. rewrite !Es in *. split.
  - by rewrite g1.
  - by rewrite Es'.
  - intros ns sl Hne. by rewrite Es', a3, Es.
  - split; congruence.
  - congruence.
  - destruct a6 as [o1 o2 o3]. unfold stream in *. rewrite f6 in *. rewrite <- g6 in *. rewrite <- g1 in o2. by split.
  - lia.
Qed.

Lemma activate_effect ctx clock request s res s' :
  store_inv s -> Activate ctx clock request s = Some (res, s') ->
  store_inv s' /\ st_reservations s' = st_reservations s /\
  match res with
  | Err _ => same_durable s s'
  | Ok response => activate_admissible request s /\ activated request s s' response
  end.
Proof.
  intros Hi Ha. apply Activate_enters in Ha as [(e & -> & ->)|[W Hr]]; [done|].
  destruct (run_commit_sound _ _ _ (activate_mutation request W) _ _ _ _ _ Hi Hr) as (Hi' & Hres & _ & Herr).
  split; [done|]. split; [done|]. destruct res as [response|e]; [|by apply Herr]. clear Herr.
  unfold run_commit in Hr. destruct (activate_begin request s) as [b s1] eqn:Eb.
  destruct (activate_begin_spec _ _ _ _ Hi Eb) as (F & Hs & Hadm). destruct b as [r g f|ref|answer]; [|done|].
  - split; [done|]. injection Hr as Ht. destruct Hs as (_ & _ & Hheld & _).
    apply commit_tail_outcome in Ht as [(e & fl & ? & _)|(now & s2 & _ & Hcom & ->)]; [done| |done].
    eapply activated_frame; [done| |apply release_facts]. eapply activate_commit_activated; [apply F|done].
  - injection Hr as -> <-. by destruct Hadm.
Qed.

(** C13: activation is an atomic compare-and-swap. A call that returns leaves a
    well-formed store and holds no reservation; on an error nothing durable
    changed. On success the target revision was stored, the expectation
    matched the slot at the time, and the slot now holds the target with the
    next generation, stamped with the effective time; its history was
    extended by that activation (keeping the last three), one event with the
    next sequence number was appended, and no other slot, no data and no
    revision changed. *)
Theorem Activate_cas ctx clock request s res s' :
  store_inv s -> Activate ctx clock request s = Some (res, s') ->
  store_inv s' /\ st_reservations s' = st_reservations s /\
  match res with
  | Err _ => same_durable s s'
  | Ok response => activate_admissible request s /\ activated request s s' response
  end.
Proof. apply activate_effect. Qed.

(** An admissible activation on a free slot succeeds: with a usable
    context, a clock reading and no armed failure, [Activate] neither waits
    nor reports an error. *)
Lemma Activate_commits ctx now request s :
  store_inv s -> activate_wf request -> usable ctx -> 0 < now -> st_failNextEvent s = false ->
  st_reservations s !! slot_key (ar_namespace request) (ar_slot request) = None ->
  activate_admissible request s ->
  exists response s', Activate ctx (Some now) request s = Some (Ok response, s').
Proof.
  intros Hi W Hu Hnow Hfail Hfree Hadm. unfold Activate. rewrite !(us_err _ Hu). simpl. rewrite W. unfold run_commit.
  destruct (activate_begin request s) as [b s1] eqn:Eb.
  destruct (activate_begin_spec _ _ _ _ Hi Eb) as (F & Hs & Hb). destruct b as [r g f|ref|answer]; [|done|].
  - destruct Hs as (_ & _ & Hheld & _ & -> & Hp). rewrite Hfail, commit_tail_progress by done.
    destruct (activate_commit_progress request g now s1) as (response & s2 & ->); try done; [apply F| |by do 2 eexists].
    unfold nextEventSequenceLocked. rewrite (sf_events _ _ (bf_facts _ _ F)). apply Hadm.
  - destruct Hb as [_ Hb]. by apply Hb in Hfree.
Qed.

(** Expectations are consumed (no ABA). Once an activation has succeeded
    with an expectation, the expectation never matches the slot again, in any
    later state, even if the slot has since returned to the same revision. *)
Lemma expectation_consumed ctx clock request s response s1 s2 :
  store_inv s -> Activate ctx clock request s = Some (Ok response, s1) -> grows s1 s2 ->
  activationExpectationMatches (ar_expectation request) (state_of request s2) = false.
Proof.
  intros Hi Ha Hg. destruct (activate_effect _ _ _ _ _ _ Hi Ha) as (_ & _ & [_ Hexp _ _] & [Hact Hsl _ _ _ _ _]).
  destruct (gr_slot _ _ Hg _ _ _ Hsl) as (st & -> & Hge). cbn [ss_current] in Hge. rewrite Hact in Hge.
  cbn [act_generation] in Hge. unfold slot_generation in Hge. unfold activationExpectationMatches in *.
  destruct (IsUnset (ar_expectation request)); [done|].
  destruct (Active (ar_expectation request)) as [[id g] active]. destruct active; [|done]. simpl in *.
  destruct (state_of request s) as [st0|]; [|done]. apply andb_true_iff in Hexp as [_ Hexp%Z.eqb_eq].
  apply andb_false_iff. right. apply Z.eqb_neq. lia.
Qed.
End Slots.
