(* ===== verification/MemRevisions.v ===== *)
(** Revisions end to end (store/memory/revisions.go).

    Publishing is create-once: [PutRevision] either stores a new verified
    record together with its event or answers with the record that is already
    there. [put_mutation] makes it an instance of the commit protocol's
    interface; [published_forever] is the resulting contract of
    [GetRevision]. *)

From Stdlib Require Import ZArith Lia Sorted.
From stdpp Require Import base list gmap strings sorting.
From S2P Require Import Prelude Limits Text Types Cost Canon Data Policy Events Revisions Avl Index Cursor Fingerprint MemState MemEvents MemOps MemData MemInv MemCommit MemProtocol.

Section Revisions.
Context `{D : Dsl} `{H : Hmac}.

Notation ns_of record := (rm_namespace (rw_metadata record)).
Notation id_of record := (RevisionMetadata_ID (rw_metadata record)).
Notation stored record s := (revision_lookup s (ns_of record) (id_of record)).

(** * The first section *)

Definition put_pending (record : RevisionRecord) (_ : unit) (s : Store) : Prop := stored record s = None.

Lemma put_begin_spec answer record s b s' :
  store_inv s -> put_begin answer record s = (b, s') ->
  begin_frame s s' /\ begin_spec (revision_key (ns_of record)) (put_pending record) s b s' /\
  match b with
  | Hold _ _ _ => stored record s = None
  | Wait _ => True
  | Return res =>
      match stored record s with
      | Some existing => res = (let? _ := safeContextError answer in existing_answer existing (rw_artifact record))
      | None => res = Err ErrorResourceExhausted /\ is_ok (nextEventSequenceLocked (ns_of record) s) = false
      end
  end.
Proof.
  intros Hi. unfold put_begin. set (k := revision_key _).
  destruct (reserveCommitLocked k s) as [[r s1]|] eqn:Er.
  2:{ unfold reserveCommitLocked in Er. destruct (st_reservations s !! k) as [current|] eqn:Ec; [|done].
      intros [= <- <-]. split; [by apply begin_frame_refl|]. split; [|done]. split; [done|]. by exists current. }
  destruct (reserve_frame _ _ _ _ Hi Er) as (F & Hn & Ek & Ers). destruct (bf_facts _ _ F) as [f1 f2 f3 f4 f5 f6 f7 f8].
  assert (E1 : stored record s1 = stored record s) by (unfold revision_lookup; by rewrite f2).
  assert (E3 : nextEventSequenceLocked (ns_of record) s1 = nextEventSequenceLocked (ns_of record) s).
  { unfold nextEventSequenceLocked. by rewrite f6. }
  assert (R : st_reservations (releaseCommitReservationLocked r s1) = st_reservations s).
  { apply (release_restores r r); congruence. }
  rewrite E1, E3. destruct (stored record s) as [existing|] eqn:El.
  { intros [= <- <-]. split; [by apply release_frame|]. by split. }
  destruct (nextEventSequenceLocked (ns_of record) s) as [seq|e] eqn:Eseq; intros [= <- <-].
  - split; [done|]. split; [|done]. split; [done|]. split; [done|]. split; [apply (held_intro r r s); congruence|].
    split; [intros k' Hk'; by rewrite Ers, lookup_insert_ne|]. split; [apply F|]. done.
  - split; [by apply release_frame|]. split; [done|]. apply next_sequence_error in Eseq as ->. done.
Qed.

(** * The commit *)

Record published (record : RevisionRecord) (s s' : Store) : Prop := {
  pb_new : stored record s = None;
  pb_stored : stored record s' = Some record;
  pb_others : forall ns id, (ns, id) <> (ns_of record, id_of record) ->
    revision_lookup s' ns id = revision_lookup s ns id;
  pb_namespaces : forall ns, ns <> ns_of record -> st_revisions s' !! ns = st_revisions s !! ns;
  pb_slots : st_slots s' = st_slots s;
  pb_data : st_data s' = st_data s;
  pb_event : event_appended (ns_of record) (revision_event (ns_of record) (id_of record)) s s';
  pb_time : st_effectiveTime s <= st_effectiveTime s'
}.

Lemma put_commit_published record created u now s res s' :
  store_inv s -> put_pending record u s -> put_commit record created u now s = (Ok res, s') ->
  res = created /\ published record s s'.
Proof.
  intros Hi Hp Hc. destruct (put_commit_outcome _ _ _ _ _ _ _ Hc) as
    [(e & ? & _)|[(existing & Hx & _)|(t & event & Ht & _ & Hnew & [= ->] & He & ->)]];
    [done|unfold put_pending in Hp; congruence|].
  split; [done|]. set (s1 := put_record record (with_effectiveTime t s)).
  assert (F := append_frame event t s1). unfold same_but_events in F.
  assert (El : forall ns id, revision_lookup (appendEventLocked event t s1) ns id = revision_lookup s1 ns id).
  { intros. unfold revision_lookup. by rewrite F. }
  split.
  - done.
  - rewrite El. unfold s1. by rewrite put_record_lookup, decide_True.
  - intros ns id Hne. rewrite El. unfold s1. rewrite put_record_lookup, decide_False by naive_solver. done.
  - intros ns Hne. rewrite F. cbn. by rewrite lookup_insert_ne.
  - by rewrite F.
  - by rewrite F.
  - by apply (publish_event (revision_event _ _) t s s1 event).
  - rewrite F. done.
Qed.

Lemma published_grows record s s' : published record s s' -> grows s s'.
Proof.
  intros [p1 p2 p3 p4 p5 p6 p7 p8]. split; auto.
  - intros ns id r Hr. destruct (decide ((ns, id) = (ns_of record, id_of record))) as [[= -> ->]|Hne]; [congruence|].
    by rewrite p3.
  - by rewrite p6.
  - rewrite p6. intros ns d Hd. by exists d.
  - unfold slot_lookup. rewrite p5. intros ns sl st Hst. exists st. split; [done|lia].
  - by eapply appended_high.
Qed.

Lemma put_commit_guarantee record created u now s res s' :
  store_inv s -> put_pending record u s -> put_commit record created u now s = (res, s') ->
  st_reservations s' = st_reservations s /\ grows s s' /\
  (forall k, k <> revision_key (ns_of record) -> rely k s s').
Proof.
  intros Hi Hp Hc. assert (Er := put_commit_reservations _ _ _ _ _ _ _ Hc). split; [done|].
  assert (Hn : st_nextRef s' = st_nextRef s).
  { destruct (put_commit_outcome _ _ _ _ _ _ _ Hc) as
      [(e & _ & [-> _])|[(existing & _ & _ & _ & ->)|(t & event & _ & _ & _ & _ & _ & ->)]]; [done|done|].
    assert (F := append_frame event t (put_record record (with_effectiveTime t s))). unfold same_but_events in F. by rewrite F. }
  destruct res as [x|e].
  - destruct (put_commit_published _ _ _ _ _ _ _ Hi Hp Hc) as [_ Hpub]. split; [by eapply published_grows|].
    destruct Hpub as [p1 p2 p3 p4 p5 p6 p7 p8]. intros k Hk. split.
    + lia.
    + intros ns id. rewrite !has_revision_lookup.
      destruct (decide ((ns, id) = (ns_of record, id_of record))) as [[= -> ->]|Hne]; [by rewrite p2|by rewrite p3].
    + by rewrite p6.
    + unfold slot_lookup. by rewrite p5.
    + intros ns ->. apply p4. congruence.
    + by rewrite Er.
  - destruct (put_commit_outcome _ _ _ _ _ _ _ Hc) as
      [(e' & _ & Ha)|[(existing & Hx & _)|(? & ? & _ & _ & _ & ? & _)]]; [|unfold put_pending in Hp; congruence|done].
    split; [by apply durable_grows, aged_durable|]. intros k _. by apply aged_rely.
Qed.

(** * Progress *)

Lemma valid_record_fields record :
  RevisionRecord_Valid record = true ->
  validRevisionIDString (id_of record) = true /\ validateNamespace (ns_of record) = Ok tt.
Proof.
  unfold RevisionRecord_Valid, RevisionWrite_Valid. rewrite !andb_true_iff. intros ((((Hm & _) & _) & _) & _).
  apply is_ok_true in Hm as [[] Hm]. apply validateRevisionMetadata_Ok in Hm as (H1 & H2 & _). split; [done|].
  unfold validNamespace in H2. by apply is_ok_true in H2 as [[] ?].
Qed.

Lemma put_commit_progress record created u now s :
  store_inv s -> RevisionRecord_Valid record = true -> 0 < now -> put_pending record u s ->
  is_ok (nextEventSequenceLocked (ns_of record) s) = true ->
  exists s', put_commit record created u now s = (Ok created, s').
Proof.
  intros Hi [Hid Hns]%valid_record_fields Hn Hp Hseq. unfold put_commit. rewrite Hp.
  destruct (proj1 (is_ok_true _) Hseq) as [seq ->]. destruct (effectiveTimeLocked now s) as [t s1] eqn:Et.
  destruct (later_time _ _ _ _ Hn Et) as (Ht & -> & Hle).
  destruct (newEvent_progress (revision_event (ns_of record) (id_of record)) t (with_effectiveTime t s)) as [e ->];
    try done; [by apply time_inv| | |by eexists].
  - unfold event_fields_ok. cbn -[validRevisionIDString]. by rewrite Hid.
  - apply validRevisionIDString_hex in Hid as [Hl _]. cbn [ev_revisionID revision_event]. rewrite Hl. by vm_compute.
Qed.

Lemma put_commit_error record created u now s e s' :
  store_inv s -> RevisionRecord_Valid record = true -> put_pending record u s ->
  put_commit record created u now s = (Err e, s') -> aged s s' /\ (0 < now -> e = ErrorResourceExhausted).
Proof.
  intros Hi Hv Hp Hc. split.
  { destruct (put_commit_outcome _ _ _ _ _ _ _ Hc) as
      [(e' & _ & Ha)|[(existing & Hx & _)|(? & ? & _ & _ & _ & ? & _)]]; [done|unfold put_pending in Hp; congruence|done]. }
  intros Hn. destruct (nextEventSequenceLocked (ns_of record) s) as [seq|e'] eqn:Es.
  - destruct (put_commit_progress record created u now s) as (s2 & Hok); try done; [by rewrite Es|]. congruence.
  - revert Hc. unfold put_commit. rewrite Hp, Es. intros [= <- <-]. by eapply next_sequence_error.
Qed.

Lemma put_commit_signals record created p now s res s' : put_commit record created p now s = (res, s') -> signals s s'.
Proof.
  intros [(e & _ & Ha)|[(x & _ & _ & _ & ->)|(t & event & _ & _ & _ & _ & _ & ->)]]%put_commit_outcome;
    [by apply aged_signals|by apply quiet_signals|]. apply append_signals. by apply quiet_signals.
Qed.

#[export] Instance put_mutation answer record created (W : RevisionRecord_Valid record = true) :
  Mutation (revision_key (ns_of record)) (put_begin answer record) (put_commit record created).
Proof.
  refine {| ready := put_pending record |}.
  - intros s b s' Hi Hb. by destruct (put_begin_spec _ _ _ _ _ Hi Hb) as (? & ? & _).
  - unfold put_pending, revision_lookup. intros p s s' Hp [l1 l2 l3 l4 l5 l6]. by rewrite (l5 _ eq_refl).
  - intros p now s res s' Hi _. by apply put_commit_inv.
  - intros p now s res s' Hi. by apply put_commit_guarantee.
  - intros p now s e s' Hi. by apply put_commit_error.
Defined.

(** * Whole calls *)

Lemma PutRevision_enters ctx clock write s res s' :
  PutRevision ctx clock write s = Some (res, s') ->
  (exists e, res = Err e /\ s' = s) \/
  (RevisionRecord_Valid write = true /\
   run_commit (put_begin (ctx_err ctx 2) write) (put_commit write (mkPutRevisionResult write true)) ctx clock s
     = Some (res, s')).
Proof.
  unfold PutRevision. destruct (safeContextError (ctx_err ctx 0)); simpl; [|intros [= <- <-]; eauto].
  destruct (RevisionWrite_Valid write) eqn:Hw; simpl; [|intros [= <- <-]; eauto].
  unfold NewRevisionRecordFromWrite. rewrite Hw. simpl.
  destruct (verifyRevisionContent write) as [[]|] eqn:Hc; simpl; [|intros [= <- <-]; eauto].
  assert (V : RevisionRecord_Valid write = true) by (unfold RevisionRecord_Valid; by rewrite Hw, Hc).
  unfold NewPutRevisionResult. rewrite V. simpl.
  destruct (safeContextError (ctx_err ctx 1)); simpl; [|intros [= <- <-]; eauto]. by right.
Qed.

Lemma published_frame record s s1 s2 s' :
  begin_frame s s1 -> published record s1 s2 -> same_facts s2 s' -> published record s s'.
Proof.
  intros F [p1 p2 p3 p4 p5 p6 p7 p8] [g1 g2 g3 g4 g5 g6 g7 g8]. destruct (bf_facts _ _ F) as [f1 f2 f3 f4 f5 f6 f7 f8].
  unfold revision_lookup in *. rewrite f2 in *. rewrite <- g2 in *.
  split; unfold revision_lookup; auto; try congruence; try lia.
  destruct p7 as [o1 o2 o3]. unfold stream in *. rewrite f6 in *. rewrite <- g6 in *. rewrite <- g1 in o2. by split.
Qed.

(** The effect of a publication, by its answer. *)
Definition put_effect (write : RevisionWrite) (s : Store) (res : result PutRevisionResult) (s' : Store) : Prop :=
  match res with
  | Err _ => same_durable s s'
  | Ok (mkPutRevisionResult record true) => record = write /\ published write s s'
  | Ok (mkPutRevisionResult record false) =>
      same_durable s s' /\ stored write s = Some record /\ rw_artifact record = rw_artifact write
  end.

Lemma existing_effect write s s' existing res :
  same_durable s s' -> stored write s = Some existing -> existing_answer existing (rw_artifact write) = res ->
  put_effect write s res s'.
Proof.
  intros Hd Hs <-. unfold existing_answer.
  destruct (bool_decide_reflect (rw_artifact existing <> rw_artifact write)) as [|Hne]; [done|].
  unfold NewPutRevisionResult. destruct (RevisionRecord_Valid existing); [|done]. split; [done|]. split; [done|].
  by destruct (decide (rw_artifact existing = rw_artifact write)).
Qed.

Lemma put_effect_spec ctx clock write s res s' :
  store_inv s -> PutRevision ctx clock write s = Some (res, s') ->
  store_inv s' /\ st_reservations s' = st_reservations s /\ put_effect write s res s'.
Proof.
  intros Hi Ha. apply PutRevision_enters in Ha as [(e & -> & ->)|[W Hr]]; [done|].
  destruct (run_commit_sound _ _ _ (put_mutation _ _ _ W) _ _ _ _ _ Hi Hr) as (Hi' & Hres & _ & Herr).
  split; [done|]. split; [done|]. destruct res as [x|e]; [|by apply Herr]. clear Herr.
  unfold run_commit in Hr. destruct (put_begin (ctx_err ctx 2) write s) as [b s1] eqn:Eb.
  destruct (put_begin_spec _ _ _ _ _ Hi Eb) as (F & Hs & Hadm). destruct b as [r g f|ref|answer]; [|done|].
  - injection Hr as Ht. destruct Hs as (_ & _ & Hheld & _ & _ & Hp).
    apply commit_tail_outcome in Ht as [(e & fl & ? & _)|(now & s2 & _ & Hcom & ->)]; [done| |done].
    destruct (put_commit_published _ _ _ _ _ _ _ (bf_inv _ _ F) Hp Hcom) as [-> Hpub].
    split; [done|]. eapply published_frame; [done|done|apply release_facts].
  - injection Hr as -> <-. destruct (stored write s) as [existing|] eqn:Es; [|by destruct Hadm].
    destruct (safeContextError (ctx_err ctx 2)); [|done]. simpl in Hadm.
    eapply existing_effect; [apply facts_durable, F|done|done].
Qed.

(** C15: publication is create-once. A call that returns leaves a well-formed
    store and holds no reservation; on an error nothing durable changed. A
    result marked created carries the written record, which was not stored
    before, is stored now, and was stored together with one event; nothing
    else changed. A result not marked created carries the record that was
    already stored under that identifier, with the same artifact bytes, and
    nothing changed. *)
Theorem PutRevision_create_once ctx clock write s res s' :
  store_inv s -> PutRevision ctx clock write s = Some (res, s') ->
  store_inv s' /\ st_reservations s' = st_reservations s /\ put_effect write s res s'.
Proof. apply put_effect_spec. Qed.

(** A published revision is readable forever and immutable: after a
    successful publication, whatever operations follow, a read of its
    namespace and identifier with a usable context returns exactly the record
    the publication answered with. *)
Theorem published_forever ctx clock write s result s1 s2 ctx' :
  store_inv s -> PutRevision ctx clock write s = Some (Ok result, s1) -> grows s1 s2 -> usable ctx' ->
  GetRevision ctx' (mkGetRevisionRequest (ns_of write) (id_of write)) s2 = Ok (pr_record result).
Proof.
  intros Hi Hp Hg Hu. assert (W : RevisionRecord_Valid write = true).
  { apply PutRevision_enters in Hp as [(e & ? & _)|[W _]]; done. }
  destruct (put_effect_spec _ _ _ _ _ _ Hi Hp) as (_ & _ & He). destruct result as [record created].
  assert (Hs : stored write s1 = Some record).
  { destruct created.
    - destruct He as [-> Hpub]. apply Hpub.
    - destruct He as ([d1 _ _ _ _ _ _] & Hs & _). unfold revision_lookup. by rewrite d1. }
  apply (gr_revision _ _ Hg) in Hs. destruct (valid_record_fields _ W) as [Hid Hns].
  unfold GetRevision. rewrite !(us_err _ Hu). simpl. unfold NewGetRevisionRequest.
  rewrite Hns. simpl. rewrite Hid. simpl. by rewrite Hs.
Qed.
End Revisions.
