(* ===== verification/MemConc.v ===== *)
(** Concurrent calls on one memory store.

    A system is a store and the calls in flight. Each step is one critical
    section of [Store.mu] (or a failure outside of it), so the runs of the
    system are the interleavings the lock allows. The operations are known
    only through the [Mutation] interface of the commit protocol. *)

From Stdlib Require Import ZArith Lia Sorted.
From stdpp Require Import base list gmap strings sorting relations.
From S2P Require Import Prelude Limits Text Types Cost Canon Data Policy Events Revisions Avl Index Cursor Fingerprint MemState MemEvents MemOps MemData MemInv MemCommit MemProtocol MemWrite MemSlots MemRevisions.

Section Concurrency.
Context `{D : Dsl} `{H : Hmac}.

(** * Calls in flight *)

Record operation := mkOperation {
  op_P : Type; op_A : Type;
  op_key : commitReservationKey;
  op_begin : Store -> begun op_P op_A * Store;
  op_commit : op_P -> Time -> Store -> result op_A * Store;
  op_mutation : Mutation op_key op_begin op_commit
}.
#[local] Existing Instance op_mutation.

(** [Idle]: before the first critical section, or waiting to retry it.
    [Held]: between the sections, still to honour an armed failure if [f].
    [Releasing]: decided, reservation not yet released. *)
Inductive phase (o : operation) : Type :=
  | Idle
  | Held (r : commitReservation) (p : op_P o) (f : bool)
  | Releasing (r : commitReservation) (answer : result (op_A o))
  | Done (answer : result (op_A o)).
Arguments Idle {o}.
Arguments Held {o} r p f.
Arguments Releasing {o} r answer.
Arguments Done {o} answer.

Record thread := mkThread { th_op : operation; th_phase : phase th_op }.

Definition system : Type := Store * list thread.

Definition after_begin {o} (b : begun (op_P o) (op_A o)) : phase o :=
  match b with
  | Hold r p f => Held r p f
  | Wait _ => Idle
  | Return answer => Done answer
  end.

Definition after_fail {o} (r : commitReservation) (p : op_P o) (res : result unit) : phase o :=
  match res with Ok _ => Held r p false | Err e => Releasing r (Err e) end.

(** The steps of other calls that take the lock: event reads advance the
    effective time and prune, generation waits register and unregister. *)
Inductive reader_step : Store -> Store -> Prop :=
  | read_events ctx clock request s : reader_step s (snd (ListEvents ctx clock request s))
  | read_register ns s : reader_step s (snd (registerGenerationWaitLocked ns s))
  | read_unregister ns w s : reader_step s (unregisterGenerationWaitLocked ns w s).

(** The steps of a system that starts calls of [serves] and admits the other
    sections [reads]. *)
Inductive step_of (serves : operation -> Prop) (reads : Store -> Store -> Prop) : system -> system -> Prop :=
  | step_spawn s ts o : serves o -> step_of serves reads (s, ts) (s, ts ++ [mkThread o Idle])
  | step_begin s ts i o b s' :
      ts !! i = Some (mkThread o Idle) -> op_begin o s = (b, s') ->
      step_of serves reads (s, ts) (s', <[i := mkThread o (after_begin b)]> ts)
  | step_fail s ts i o r p res s' :
      ts !! i = Some (mkThread o (Held r p true)) -> fail_section r s = (res, s') ->
      step_of serves reads (s, ts) (s', <[i := mkThread o (after_fail r p res)]> ts)
  | step_abort s ts i o r p f e :
      ts !! i = Some (mkThread o (Held r p f)) ->
      step_of serves reads (s, ts) (s, <[i := mkThread o (Releasing r (Err e))]> ts)
  | step_commit s ts i o r p now done answer res s' :
      ts !! i = Some (mkThread o (Held r p false)) ->
      commit_section (op_commit o) r p now done answer s = (res, s') ->
      step_of serves reads (s, ts) (s', <[i := mkThread o (Releasing r res)]> ts)
  | step_release s ts i o r res :
      ts !! i = Some (mkThread o (Releasing r res)) ->
      step_of serves reads (s, ts) (releaseCommitReservationLocked r s, <[i := mkThread o (Done res)]> ts)
  | step_reader s ts s' : reads s s' -> step_of serves reads (s, ts) (s', ts).
Arguments step_spawn {serves reads}.
Arguments step_begin {serves reads}.
Arguments step_fail {serves reads}.
Arguments step_abort {serves reads}.
Arguments step_commit {serves reads}.
Arguments step_release {serves reads}.
Arguments step_reader {serves reads}.

Definition step : system -> system -> Prop := step_of (fun _ => True) reader_step.

(** * The invariant *)

Definition holds (t : thread) : option commitReservation :=
  match th_phase t with
  | Held r _ _ | Releasing r _ => Some r
  | _ => None
  end.

(** A holder owns the reservation of its key, and while it is prepared the
    preconditions of its commit hold. *)
Definition thread_ok (s : Store) (t : thread) : Prop :=
  match th_phase t with
  | Held r p _ => cr_key r = op_key (th_op t) /\ held r s /\ ready p s
  | Releasing r _ => cr_key r = op_key (th_op t) /\ held r s
  | _ => True
  end.

Record system_inv (c : system) : Prop := {
  sy_store : store_inv c.1;
  sy_threads : forall i t, c.2 !! i = Some t -> thread_ok c.1 t;
  sy_exclusive : forall i j t u r q, c.2 !! i = Some t -> c.2 !! j = Some u ->
    holds t = Some r -> holds u = Some q -> op_key (th_op t) = op_key (th_op u) -> i = j;
  sy_no_leak : forall k x, st_reservations c.1 !! k = Some x ->
    exists i t r, c.2 !! i = Some t /\ holds t = Some r /\ op_key (th_op t) = k
}.

(** ** Readers *)

Lemma same_facts_grows s s' : same_facts s s' -> grows s s'.
Proof. intros F. by apply durable_grows, facts_durable. Qed.

Lemma register_spec ns s :
  store_inv s ->
  let s' := snd (registerGenerationWaitLocked ns s) in
  store_inv s' /\ same_facts s s' /\ (st_nextRef s <= st_nextRef s')%nat /\ st_reservations s' = st_reservations s.
Proof.
  intros Hi. unfold registerGenerationWaitLocked. destruct (si_refs s Hi) as [r1 r2 r3 r4 r5 r6 r7 r8].
  assert (Hfresh : st_nextRef s ∉ st_closed s).
  { intros Hin. rewrite Forall_forall in r2. specialize (r2 _ Hin). lia. }
  destruct (st_waiters s !! ns) as [w|] eqn:Ew; cbn [snd]; (split; [|split; [done|split; [simpl; lia|done]]]);
    (eapply same_facts_inv; [|exact Hi|]; [done|]);
    split; cbn [st_closed st_nextRef st_data st_reservations st_waiters with_waiters]; auto.
  - intros n v. rewrite lookup_insert_Some. intros [[_ <-]|[_ Hv]]; [|by eapply r5].
    destruct (r5 _ _ Ew) as (? & ? & ?). simpl. repeat split; auto. lia.
  - intros n1 n2 v1 v2. rewrite !lookup_insert_Some. intros [[<- <-]|[? E1]] [[<- <-]|[? E2]] E; simpl in *; eauto.
  - intros k r n v Hk. rewrite lookup_insert_Some. intros [[_ <-]|[_ Hv]]; [|by eapply r8]. simpl. by eapply r8.
  - eapply Forall_impl; [exact r2|]. simpl. lia.
  - intros n d Hd. specialize (r3 n d Hd). lia.
  - intros k r Hk. destruct (r4 _ _ Hk) as (? & ? & ?). repeat split; auto.
  - intros n v. rewrite lookup_insert_Some. intros [[_ <-]|[_ Hv]].
    + simpl. repeat split; auto; lia.
    + destruct (r5 _ _ Hv) as (? & ? & ?). repeat split; auto; lia.
  - intros n1 n2 v1 v2. rewrite !lookup_insert_Some. intros [[<- <-]|[? E1]] [[<- <-]|[? E2]] E; simpl in *; eauto.
    + destruct (r5 _ _ E2) as (? & _). lia.
    + destruct (r5 _ _ E1) as (? & _). lia.
  - intros k r n v Hk. rewrite lookup_insert_Some. intros [[_ <-]|[_ Hv]]; [|by eapply r8].
    simpl. destruct (r4 _ _ Hk) as (_ & ? & _). lia.
Qed.

Lemma unregister_spec ns w s :
  store_inv s ->
  let s' := unregisterGenerationWaitLocked ns w s in
  store_inv s' /\ same_facts s s' /\ (st_nextRef s <= st_nextRef s')%nat /\ st_reservations s' = st_reservations s.
Proof.
  intros Hi. unfold unregisterGenerationWaitLocked. destruct (st_waiters s !! ns) as [c|] eqn:Ew; [|done].
  destruct (gw_ref c =? gw_ref w)%nat; [|done]. destruct (si_refs s Hi) as [r1 r2 r3 r4 r5 r6 r7 r8].
  destruct (r5 _ _ Ew) as (h1 & h2 & h3).
  destruct (Z.eqb_spec (gw_refs c - 1) 0) as [|Hrefs]; (split; [|done]);
    (eapply same_facts_inv; [|exact Hi|]; [done|]);
    split; cbn [st_closed st_nextRef st_data st_reservations st_waiters with_waiters]; auto.
  - intros n v [_ Hv]%lookup_delete_Some. by apply r5 in Hv.
  - intros n1 n2 v1 v2 [_ E1]%lookup_delete_Some [_ E2]%lookup_delete_Some. by eapply r7.
  - intros k r n v Hk [_ Hv]%lookup_delete_Some. by eapply r8.
  - intros n v. rewrite lookup_insert_Some. intros [[_ <-]|[_ Hv]]; [|by eapply r5]. simpl. repeat split; auto. lia.
  - intros n1 n2 v1 v2. rewrite !lookup_insert_Some. intros [[<- <-]|[? E1]] [[<- <-]|[? E2]] E; simpl in *; eauto.
  - intros k r n v Hk. rewrite lookup_insert_Some. intros [[_ <-]|[_ Hv]]; [|by eapply r8]. simpl. by eapply r8.
Qed.

Lemma events_read_spec ctx clock request s :
  store_inv s ->
  let s' := snd (ListEvents ctx clock request s) in
  store_inv s' /\ grows s s' /\ forall k, rely k s s'.
Proof.
  intros Hi. unfold ListEvents.
  destruct (rbind (safeContextError (ctx_err ctx 0)) _) as [[position now]|e]; [|cbn [snd]; split; [done|split; [done|by intros]]].
  destruct (effectiveTimeLocked now s) as [t s1] eqn:Et. cbn [snd].
  apply effectiveTime_spec in Et as (_ & Ht & _ & ->).
  assert (Hi1 : store_inv (with_effectiveTime t s)) by by apply time_inv.
  assert (F := prune_frame (le_namespace request) t (with_effectiveTime t s)). unfold same_but_events in F.
  assert (P := prune_high (with_effectiveTime t s) (le_namespace request) t).
  split; [by apply prune_inv|]. split.
  - split; try (rewrite F; done).
    + intros ns d Hd. exists d. by rewrite F.
    + intros ns sl st Hst. exists st. unfold slot_lookup. rewrite F. split; [done|lia].
    + intros ns. rewrite P by done. done.
  - intros k. split; rewrite F; done.
Qed.

Lemma reader_spec s s' :
  store_inv s -> reader_step s s' ->
  store_inv s' /\ grows s s' /\ (forall k, rely k s s') /\ st_reservations s' = st_reservations s.
Proof.
  intros Hi Hr. destruct Hr as [ctx clock request s|ns s|ns w s].
  - destruct (events_read_spec ctx clock request s Hi) as (h1 & h2 & h3). split; [done|]. split; [done|]. split; [done|].
    apply map_eq. intros k. apply (rl_reservation k _ _ (h3 k)).
  - destruct (register_spec ns s Hi) as (h1 & h2 & h3 & h4). split; [done|]. split; [by apply same_facts_grows|].
    split; [|done]. intros k. apply facts_rely; [done|done|by rewrite h4].
  - destruct (unregister_spec ns w s Hi) as (h1 & h2 & h3 & h4). split; [done|]. split; [by apply same_facts_grows|].
    split; [|done]. intros k. apply facts_rely; [done|done|by rewrite h4].
Qed.

(** ** One call moves *)

Lemma thread_ok_rely s s' t :
  thread_ok s t -> (holds t <> None -> rely (op_key (th_op t)) s s') -> thread_ok s' t.
Proof.
  unfold thread_ok, holds. destruct t as [o []]; simpl; try done.
  - intros (Ek & Hh & Hr) Hrely. specialize (Hrely ltac:(done)). split; [done|]. split.
    + eapply held_same; [|done]. rewrite Ek. apply Hrely.
    + by eapply ready_rely.
  - intros (Ek & Hh) Hrely. specialize (Hrely ltac:(done)). split; [done|].
    eapply held_same; [|done]. rewrite Ek. apply Hrely.
Qed.

Lemma holder_reserved s t r : thread_ok s t -> holds t = Some r -> st_reservations s !! op_key (th_op t) <> None.
Proof.
  unfold thread_ok, holds. destruct t as [o []]; simpl; try done.
  - intros (Ek & Hh & _) _. unfold held, ownsCommitReservationLocked in Hh. rewrite Ek in Hh. by destruct (_ !! _).
  - intros (Ek & Hh) _. unfold held, ownsCommitReservationLocked in Hh. rewrite Ek in Hh. by destruct (_ !! _).
Qed.

(** Replacing one thread: the others keep their invariant because the step
    respects what they rely on. *)
Lemma update_inv s ts s' i t t' :
  system_inv (s, ts) -> ts !! i = Some t -> th_op t' = th_op t -> store_inv s' ->
  (forall k, k <> op_key (th_op t) \/ (holds t = None /\ st_reservations s !! k <> None) -> rely k s s') ->
  thread_ok s' t' ->
  (holds t' <> None -> holds t <> None \/ st_reservations s !! op_key (th_op t) = None) ->
  (st_reservations s' !! op_key (th_op t) <> None -> holds t' <> None \/
     holds t = None /\ st_reservations s !! op_key (th_op t) <> None) ->
  system_inv (s', <[i := t']> ts).
Proof.
  intros [h1 h2 h3 h4] Hi Eop Hs' Hrely Hok Hnew Hleak. simpl in *.
  assert (Hlt : (i < length ts)%nat) by by eapply lookup_lt_Some.
  assert (Hother : forall j u, j <> i -> ts !! j = Some u -> holds u <> None ->
    op_key (th_op u) <> op_key (th_op t) \/ holds t = None /\ st_reservations s !! op_key (th_op u) <> None).
  { intros j u Hne Hj Hu. destruct (holds u) as [q|] eqn:Eq; [|done]. destruct (holds t) as [r|] eqn:Er.
    - left. intros E. apply Hne. by eapply (h3 j i u t q r).
    - right. split; [done|]. by eapply holder_reserved; [apply (h2 j)|]. }
  split; simpl; [done|..].
  - intros j u. destruct (decide (i = j)) as [<-|Hne].
    + rewrite list_lookup_insert_eq by done. by intros [= <-].
    + rewrite list_lookup_insert_ne by done. intros Hj. eapply thread_ok_rely; [by eapply h2|].
      intros Hu. apply Hrely. by eapply Hother.
  - intros j k u v r q. destruct (decide (i = j)) as [<-|Hj], (decide (i = k)) as [<-|Hk]; [done|..];
      rewrite ?list_lookup_insert_eq, ?list_lookup_insert_ne by done; intros E1 E2 Hr Hq E; simplify_eq.
    + rewrite Eop in E. destruct (Hnew ltac:(congruence)) as [Ht|Hn].
      * destruct (holds t) as [x|] eqn:Ex; [|done]. by eapply (h3 i k t v).
      * exfalso. rewrite E in Hn. by apply (holder_reserved s v q (h2 _ _ E2) Hq).
    + rewrite Eop in E. destruct (Hnew ltac:(congruence)) as [Ht|Hn].
      * destruct (holds t) as [x|] eqn:Ex; [|done]. by eapply (h3 j i u t).
      * exfalso. rewrite <- E in Hn. by apply (holder_reserved s u r (h2 _ _ E1) Hr).
    + by eapply h3.
  - intros k x Hx. destruct (decide (k = op_key (th_op t))) as [->|Hk].
    + destruct (Hleak ltac:(congruence)) as [Ht'|[Hnone Hold]].
      * destruct (holds t') as [r|] eqn:Er; [|done]. exists i, t', r. rewrite list_lookup_insert_eq by done.
        by rewrite Eop.
      * destruct (st_reservations s !! op_key (th_op t)) as [y|] eqn:Ey; [|done].
        destruct (h4 _ _ Ey) as (j & u & r & Hj & Hr & Ek). exists j, u, r.
        rewrite list_lookup_insert_ne by (intros ->; congruence). done.
    + assert (R := rl_reservation _ _ _ (Hrely k ltac:(by left))). rewrite Hx in R. symmetry in R.
      destruct (h4 _ _ R) as (j & u & r & Hj & Hr & Ek). exists j, u, r.
      rewrite list_lookup_insert_ne by (intros ->; congruence). done.
Qed.

Lemma begin_preserves s ts i o b s' :
  system_inv (s, ts) -> ts !! i = Some (mkThread o Idle) -> op_begin o s = (b, s') ->
  system_inv (s', <[i := mkThread o (after_begin b)]> ts).
Proof.
  intros Hc Hi Hb. destruct (begin_ok _ _ _ (sy_store _ Hc) Hb) as [F Hspec].
  eapply update_inv; [done|done|done|apply F|..]; cbn [th_op].
  - intros k Hk. eapply begin_rely; [done|done|]. destruct Hk as [|[_ ?]]; [by left|by right].
  - destruct b as [r p f| |]; try done. destruct Hspec as (_ & Ek & Hh & _ & _ & Hr). done.
  - destruct b as [r p f| |]; try done. destruct Hspec as (Hn & _). by right.
  - destruct b as [r p f|ref|res]; [by left|..].
    + destruct Hspec as [-> _]. by right.
    + simpl in Hspec. rewrite Hspec. by right.
Qed.

Lemma fail_preserves s ts i o r p res s' :
  system_inv (s, ts) -> ts !! i = Some (mkThread o (Held r p true)) -> fail_section r s = (res, s') ->
  system_inv (s', <[i := mkThread o (after_fail r p res)]> ts).
Proof.
  intros Hc Hi Hf. destruct (sy_threads _ Hc i _ Hi) as (Ek & Hh & Hr). cbn [th_op th_phase fst] in *.
  unfold fail_section in Hf. unfold held in Hh. rewrite Hh in Hf. simpl in Hf.
  destruct (st_failNextEvent s); injection Hf as <- <-.
  - eapply update_inv; [done|done|done|apply fail_inv, Hc|..]; cbn [th_op]; try done; by left.
  - eapply update_inv; [done|done|done|apply Hc|..]; cbn [th_op]; try done; by left.
Qed.

Lemma abort_preserves s ts i o r p f e :
  system_inv (s, ts) -> ts !! i = Some (mkThread o (Held r p f)) ->
  system_inv (s, <[i := mkThread o (Releasing r (Err e))]> ts).
Proof.
  intros Hc Hi. destruct (sy_threads _ Hc i _ Hi) as (Ek & Hh & Hr).
  eapply update_inv; [done|done|done|apply Hc|..]; cbn [th_op]; try done; by left.
Qed.

Lemma commit_preserves s ts i o r p now done answer res s' :
  system_inv (s, ts) -> ts !! i = Some (mkThread o (Held r p false)) ->
  commit_section (op_commit o) r p now done answer s = (res, s') ->
  system_inv (s', <[i := mkThread o (Releasing r res)]> ts).
Proof.
  intros Hc Hi Hcom. destruct (sy_threads _ Hc i _ Hi) as (Ek & Hh & Hr). cbn [th_op th_phase fst] in *.
  unfold commit_section in Hcom. unfold held in Hh. rewrite Hh in Hcom. simpl in Hcom.
  destruct done; [injection Hcom as <- <-; by eapply abort_preserves|].
  destruct (commit_guarantee _ _ _ _ _ (sy_store _ Hc) Hr Hcom) as (Er & _ & Hrely).
  eapply update_inv; [done|done|done| |..]; cbn [th_op]; [by eapply commit_inv; [apply Hc|..]|..].
  - intros k [Hk|[? _]]; [by apply Hrely|done].
  - split; [done|]. cbn. unfold held. by rewrite (owns_reservations r s s' Er).
  - by left.
  - by left.
Qed.

Lemma release_preserves s ts i o r res :
  system_inv (s, ts) -> ts !! i = Some (mkThread o (Releasing r res)) ->
  system_inv (releaseCommitReservationLocked r s, <[i := mkThread o (Done res)]> ts).
Proof.
  intros Hc Hi. destruct (sy_threads _ Hc i _ Hi) as (Ek & Hh). cbn [th_op th_phase fst] in *.
  assert (Eres : st_reservations (releaseCommitReservationLocked r s) = delete (op_key o) (st_reservations s)).
  { unfold releaseCommitReservationLocked. unfold held in Hh. by rewrite Hh, <- Ek. }
  eapply update_inv; [done|done|done|apply release_inv, Hc|..]; cbn [th_op]; try done.
  - intros k [Hk|[? _]]; [|done]. apply facts_rely; [apply release_facts| |by rewrite Eres, lookup_delete_ne].
    unfold releaseCommitReservationLocked. by destruct (ownsCommitReservationLocked _ _).
  - rewrite Eres, lookup_delete_eq. done.
Qed.

Lemma spawn_preserves s ts o : system_inv (s, ts) -> system_inv (s, ts ++ [mkThread o Idle]).
Proof.
  intros [h1 h2 h3 h4]. simpl in *.
  assert (L : forall i t, (ts ++ [mkThread o Idle]) !! i = Some t -> ts !! i = Some t \/ t = mkThread o Idle).
  { intros i t. rewrite lookup_app_Some, list_lookup_singleton_Some. naive_solver. }
  split; simpl; [done|..].
  - intros i t [Hi| ->]%L; [by eapply h2|done].
  - intros i j t u r q [Hi| ->]%L [Hj| ->]%L Hr Hq E; try done. by eapply h3.
  - intros k x Hx. destruct (h4 _ _ Hx) as (i & t & r & Hi & Hr & Ek). exists i, t, r.
    split; [by apply lookup_app_l_Some|done].
Qed.

Lemma reader_preserves s ts s' : system_inv (s, ts) -> reader_step s s' -> system_inv (s', ts).
Proof.
  intros [h1 h2 h3 h4] Hr. simpl in *. destruct (reader_spec s s' h1 Hr) as (Hi & _ & Hrely & Eres).
  split; simpl; [done|..|done|by rewrite Eres].
  intros i t Ht. eapply thread_ok_rely; [by eapply h2|]. intros _. apply Hrely.
Qed.

Lemma step_preserves c c' : system_inv c -> step c c' -> system_inv c'.
Proof.
  intros Hc Hs. destruct Hs.
  - by apply spawn_preserves.
  - by eapply begin_preserves.
  - by eapply fail_preserves.
  - by eapply abort_preserves.
  - by eapply commit_preserves.
  - by eapply release_preserves.
  - by eapply reader_preserves.
Qed.

Lemma step_grows c c' : system_inv c -> step c c' -> grows c.1 c'.1.
Proof.
  intros Hc Hs. destruct Hs as [| s ts i o b s' Hi Hb|s ts i o r p res s' Hi Hf| |s ts i o r p now dn answer res s' Hi Hcom| |s ts s' Hr];
    simpl; try done.
  - apply same_facts_grows, (begin_ok _ _ _ (sy_store _ Hc) Hb).
  - unfold fail_section in Hf. apply same_facts_grows.
    destruct (negb _); [by injection Hf as _ <-|]. destruct (st_failNextEvent s); by injection Hf as _ <-.
  - destruct (sy_threads _ Hc i _ Hi) as (Ek & Hh & Hr). unfold commit_section in Hcom.
    destruct (negb _); [by injection Hcom as _ <-|]. destruct dn; [by injection Hcom as _ <-|].
    by apply (commit_guarantee _ _ _ _ _ (sy_store _ Hc) Hr Hcom).
  - apply same_facts_grows, release_facts.
  - by apply (reader_spec _ _ (sy_store _ Hc) Hr).
Qed.

Lemma steps_sound c c' : system_inv c -> rtc step c c' -> system_inv c' /\ grows c.1 c'.1.
Proof.
  intros Hc Hr. induction Hr as [c|c c1 c' Hs _ IH]; [done|].
  destruct (IH (step_preserves _ _ Hc Hs)) as [Hc' Hg]. split; [done|].
  etrans; [by apply step_grows|done].
Qed.

(** The empty store of [New]. *)
Lemma newStore_inv key : store_inv (newStore key).
Proof.
  split; try done.
  - intros ns. split; [done|]. split; [constructor|]. split; [|done].
    intros k r. split; [done|]. by intros [_ ?].
  - split; try done; try constructor.
Qed.

Lemma start_inv key : system_inv (newStore key, []).
Proof. split; [apply newStore_inv|done|done|]. by intros k x Hx. Qed.

Definition reachable (key : list Z) (c : system) : Prop := rtc step (newStore key, []) c.

Lemma reachable_inv key c : reachable key c -> system_inv c.
Proof. intros Hr. by apply (steps_sound _ _ (start_inv key) Hr). Qed.

Lemma reachable_later key c c' : reachable key c -> rtc step c c' -> system_inv c' /\ grows c.1 c'.1.
Proof. intros Hr. by apply steps_sound, (reachable_inv key). Qed.

(** * Theorems *)

(** C4: every interleaving keeps the store sound. In any state the calls can
    reach, the store is well formed, and from it on nothing is ever lost or
    moved backwards: published revisions and replay records stay as they are,
    data generations, slot generations, event numbers and the effective time
    never decrease. *)
Theorem interleavings_sound key c c' :
  reachable key c -> rtc step c c' -> store_inv c.1 /\ store_inv c'.1 /\ grows c.1 c'.1.
Proof.
  intros Hr Hs. split; [by eapply sy_store, reachable_inv|].
  destruct (reachable_later _ _ _ Hr Hs) as [Hc' Hg]. split; [apply Hc'|done].
Qed.

(** Commits are mutually exclusive per domain: of the calls in flight, at
    most one holds a given reservation key, a holder owns the reservation it
    was given, and every reservation in the store belongs to a call in
    flight. *)
Lemma reservation_exclusive key s ts :
  reachable key (s, ts) ->
  (forall i j t u r q, ts !! i = Some t -> ts !! j = Some u -> holds t = Some r -> holds u = Some q ->
     op_key (th_op t) = op_key (th_op u) -> i = j) /\
  (forall i t r, ts !! i = Some t -> holds t = Some r ->
     cr_key r = op_key (th_op t) /\ ownsCommitReservationLocked r s = true) /\
  (forall k x, st_reservations s !! k = Some x ->
     exists i t r, ts !! i = Some t /\ holds t = Some r /\ op_key (th_op t) = k).
Proof.
  intros [h1 h2 h3 h4]%reachable_inv. simpl in *. split; [done|]. split; [|done].
  intros i t r Hi Hr. specialize (h2 i t Hi). unfold thread_ok, holds in *.
  destruct t as [o []]; simpl in *; try done; injection Hr as ->; by destruct h2 as (? & ? & ?) || destruct h2.
Qed.

(** The second critical section never finds a precondition violated. A
    call that holds its reservation and commits with a clock reading and a
    live context succeeds, or reports that the event numbers of its namespace
    are exhausted; it never reports a conflict, a missing revision or an
    internal error, whatever the other calls did in between. *)
Theorem revalidation_succeeds key s ts i o r p now answer res s' :
  reachable key (s, ts) -> ts !! i = Some (mkThread o (Held r p false)) -> 0 < now ->
  commit_section (op_commit o) r p now false answer s = (res, s') ->
  (exists a, res = Ok a) \/ res = Err ErrorResourceExhausted /\ aged s s'.
Proof.
  intros Hc%reachable_inv Hi Hn Hcom. destruct (sy_threads _ Hc i _ Hi) as (Ek & Hh & Hr). cbn [fst th_op th_phase] in *.
  unfold commit_section in Hcom. unfold held in Hh. rewrite Hh in Hcom. simpl in Hcom.
  destruct res as [a|e]; [by left; exists a|]. right.
  destruct (commit_error _ _ _ _ _ (sy_store _ Hc) Hr Hcom) as [Ha He]. by rewrite (He Hn).
Qed.

(** ** Draining *)

Definition is_done (t : thread) : Prop := match th_phase t with Done _ => True | _ => False end.

#[export] Instance is_done_dec t : Decision (is_done t).
Proof. unfold is_done. destruct t as [o []]; simpl; apply _. Defined.

Definition weight (t : thread) : nat :=
  match th_phase t with Idle => 4 | Held _ _ f => if f then 3 else 2 | Releasing _ _ => 1 | Done _ => 0 end.

Definition total (ts : list thread) : nat := list_sum (map weight ts).

Lemma total_insert ts i t t' : ts !! i = Some t -> (weight t' < weight t)%nat -> (total (<[i := t']> ts) < total ts)%nat.
Proof.
  unfold total. revert i. induction ts as [|u ts IH]; intros [|i] Hi Hw; simplify_eq/=; [lia|].
  specialize (IH i Hi Hw). lia.
Qed.

Lemma not_done_weight t : ~ is_done t -> (0 < weight t)%nat.
Proof. unfold is_done, weight. destruct t as [o [|? ? []|?|?]]; simpl; (lia || tauto). Qed.

(** A call that is not waiting can always move: nobody blocks for good. *)
Lemma progress s ts :
  system_inv (s, ts) -> Exists (fun t => ~ is_done t) ts ->
  exists c', step (s, ts) c' /\ length c'.2 = length ts /\ (total c'.2 < total ts)%nat.
Proof.
  intros Hc Hex.
  assert (Hhold : forall t i, ts !! i = Some t -> holds t <> None ->
    exists c', step (s, ts) c' /\ length c'.2 = length ts /\ (total c'.2 < total ts)%nat).
  { intros [o ph] i Hi Hh. destruct ph as [|r p [|]|r res|]; try done.
    - destruct (fail_section r s) as [res s'] eqn:Ef. eexists. split; [by eapply step_fail|]. simpl.
      split; [by rewrite length_insert|]. eapply total_insert; [done|]. destruct res; cbn; lia.
    - destruct (commit_section (op_commit o) r p 1 false CtxUsable s) as [res s'] eqn:Ec.
      eexists. split; [by eapply step_commit|]. simpl.
      split; [by rewrite length_insert|]. eapply total_insert; [done|]. cbn; lia.
    - eexists. split; [by eapply step_release|]. simpl.
      split; [by rewrite length_insert|]. eapply total_insert; [done|]. cbn; lia. }
  destruct (decide (Exists (fun t => holds t <> None) ts)) as [Hh|Hnone].
  { apply Exists_exists in Hh as (t & [i Hi]%list_elem_of_lookup & Hh). by eapply Hhold. }
  apply Exists_exists in Hex as ([o ph] & [i Hi]%list_elem_of_lookup & Hnd).
  rewrite <- Forall_Exists_neg, Forall_lookup in Hnone. assert (Hn := Hnone i _ Hi).
  destruct ph as [|r p f|r res|res]; [|exfalso; by apply Hn|exfalso; by apply Hn|by exfalso; apply Hnd].
  destruct (op_begin o s) as [b s'] eqn:Eb. destruct (begin_ok _ _ _ (sy_store _ Hc) Eb) as [F Hb].
  eexists. split; [by eapply step_begin|]. simpl. split; [by rewrite length_insert|].
  eapply total_insert; [done|]. destruct b as [r p []|ref|res]; cbn; try lia.
  exfalso. destruct Hb as (_ & x & Hx & _). destruct (sy_no_leak _ Hc _ _ Hx) as (j & t & q & Hj & Hq & _).
  apply (Hnone j t Hj). by rewrite Hq.
Qed.

Lemma drain n : forall s ts, (total ts <= n)%nat -> system_inv (s, ts) ->
  exists s' ts', rtc step (s, ts) (s', ts') /\ length ts' = length ts /\ Forall is_done ts' /\ system_inv (s', ts').
Proof.
  induction n as [n IH] using lt_wf_ind. intros s ts Hn Hc.
  destruct (decide (Exists (fun t => ~ is_done t) ts)) as [Hex|Hall].
  - destruct (progress s ts Hc Hex) as ([s1 ts1] & Hs & Hl & Hlt). simpl in *.
    destruct (IH (total ts1) ltac:(lia) s1 ts1 ltac:(lia) (step_preserves _ _ Hc Hs)) as (s' & ts' & Hr & Hl' & Hd & Hc').
    exists s', ts'. split; [by eapply rtc_l|]. split; [lia|done].
  - exists s, ts. split; [done|]. split; [done|]. split; [|done].
    rewrite <- Forall_Exists_neg in Hall. eapply Forall_impl; [exact Hall|]. intros t Ht.
    unfold is_done in *. destruct t as [o []]; simpl in *; tauto.
Qed.

(** C16: no deadlock and no leak. From every reachable state the calls in
    flight can all be run to completion by their own steps (waiting calls
    included: whoever they wait for can finish), and once every call has
    returned no reservation is left in the store. *)
Theorem calls_drain key s ts :
  reachable key (s, ts) ->
  exists s' ts', rtc step (s, ts) (s', ts') /\ length ts' = length ts /\ Forall is_done ts' /\
    st_reservations s' = ∅.
Proof.
  intros Hc%reachable_inv. destruct (drain _ s ts (Nat.le_refl _) Hc) as (s' & ts' & Hr & Hl & Hd & Hc').
  exists s', ts'. split; [done|]. split; [done|]. split; [done|]. apply map_empty. intros k.
  destruct (st_reservations s' !! k) as [x|] eqn:Ex; [|done].
  destruct (sy_no_leak _ Hc' _ _ Ex) as (i & t & r & Hi & Ht & _). simpl in Hi.
  rewrite Forall_lookup in Hd. specialize (Hd i t Hi). unfold is_done, holds in *. by destruct (th_phase t).
Qed.

(** * The three operations as calls *)

Definition write_operation (request : WriteDataRequest) (fp : list Z) (W : write_wf request) : operation :=
  mkOperation _ _ _ _ _ (write_mutation request fp W).

Definition activate_operation (request : ActivateRequest) (W : activate_wf request) : operation :=
  mkOperation _ _ _ _ _ (activate_mutation request W).

Definition put_operation (answer : ctx_answer) (record : RevisionRecord) (W : RevisionRecord_Valid record = true)
  : operation :=
  mkOperation _ _ _ _ _ (put_mutation answer record (mkPutRevisionResult record true) W).

(** C5: no lost update. Whatever ran between the two critical sections of a
    write, its commit applies the mutation to the facts the namespace has at
    that moment: they are the facts the candidate was derived from, the
    generation advances by exactly one, and record and event are published
    with it. *)
Theorem concurrent_write_commits key s ts i request fp W r p now answer response s' :
  reachable key (s, ts) ->
  ts !! i = Some (mkThread (write_operation request fp W) (Held (o := write_operation request fp W) r p false)) ->
  commit_section (write_commit request fp) r p now false answer s = (Ok response, s') ->
  write_committed request fp s s' response.
Proof.
  intros Hc%reachable_inv Hi Hcom. destruct (sy_threads _ Hc i _ Hi) as (_ & Hh & Hp).
  cbn [fst th_op th_phase write_operation op_mutation] in Hh, Hp. unfold held in Hh.
  unfold commit_section in Hcom. rewrite Hh in Hcom. simpl in Hcom.
  assert (Hp' : write_pending request p s) by exact Hp.
  eapply write_commit_committed; [apply Hc|apply Hp'|apply Hp'|apply Hp'|exact Hcom].
Qed.
End Concurrency.

Arguments step_spawn {D H serves reads}.
Arguments step_begin {D H serves reads}.
Arguments step_fail {D H serves reads}.
Arguments step_abort {D H serves reads}.
Arguments step_commit {D H serves reads}.
Arguments step_release {D H serves reads}.
Arguments step_reader {D H serves reads}.
Arguments Idle {D H o}.
Arguments Held {D H o} r p f.
Arguments Releasing {D H o} r answer.
Arguments Done {D H o} answer.
