(* ===== verification/MemSnapshot.v ===== *)
(** Pinned snapshots of the memory store (store/memory/data.go).

    A snapshot pins one immutable data version. [query_version] and the two
    attribute reads are what an admitted read computes from it; [snapshot_admit],
    [release] and [close_begin] are the critical sections of the snapshot's
    own lock, which [lifecycle_step] interleaves for any number of readers and
    closers; [sn_closes] counts executions of [close(s.closeDone)]. The pauses
    and blocks that tests arm on the owner are left out. *)

From Stdlib Require Import ZArith Lia Sorted.
From stdpp Require Import base list gmap strings sorting relations.
From S2P Require Import Prelude Limits Text Types Cost Canon Data Policy Events Revisions Avl Index Cursor Fingerprint StoreData MemState MemEvents MemOps MemData MemInv MemCommit MemProtocol MemWrite.

(** * State *)

(** [version == nil] is [None]; [owner] is set and cleared together with it. *)
Record snapshot := mkSnapshot {
  sn_closing : bool;
  sn_active : Z;
  sn_closes : nat;
  sn_namespace : string;
  sn_generation : Z;
  sn_minimum : Z;
  sn_readAt : Time;
  sn_version : option dataVersion }.

Definition with_lifecycle (closing : bool) (active : Z) (closes : nat) (version : option dataVersion)
  (s : snapshot) : snapshot :=
  mkSnapshot closing active closes (sn_namespace s) (sn_generation s) (sn_minimum s) (sn_readAt s) version.

(** * Lifecycle sections *)

Definition snapshot_admit (s : snapshot) : result (option dataVersion) * snapshot :=
  if sn_closing s then (Err ErrorFailedPrecondition, s)
  else (Ok (sn_version s), with_lifecycle false (sn_active s + 1) (sn_closes s) (sn_version s) s).

Definition release (s : snapshot) : snapshot :=
  let active := sn_active s - 1 in
  match sn_version s with
  | Some _ =>
      if sn_closing s && (active =? 0)
      then with_lifecycle true active (S (sn_closes s)) None s
      else with_lifecycle (sn_closing s) active (sn_closes s) (sn_version s) s
  | None => with_lifecycle (sn_closing s) active (sn_closes s) None s
  end.

(** [Close] up to [<-done]; it returns once the channel is closed. *)
Definition close_begin (s : snapshot) : snapshot :=
  if sn_closing s then s
  else if sn_active s =? 0 then with_lifecycle true (sn_active s) (S (sn_closes s)) None s
  else with_lifecycle true (sn_active s) (sn_closes s) (sn_version s) s.

Definition close_returns (s : snapshot) : Prop := sn_closes s <> 0%nat.

(** * Opening *)

Section Open.
Context `{D : Dsl} `{H : Hmac}.

(** One iteration of the loop under the lock: a view, or a registered wait. *)
Definition open_attempt (request : SnapshotRequest) (s : Store) : snapshot + generationWait * Store :=
  let state := st_data s !! sr_namespace request in
  let generation := match state with Some d => ds_generation d | None => 0 end in
  if sr_minimumGeneration request <=? generation then
    let version := match state with
                   | Some d => ds_current d
                   | None => mkDataVersion (st_nextRef s) generation Leaf Leaf
                   end in
    inl (mkSnapshot false 0 0 (sr_namespace request) generation (sr_minimumGeneration request)
           (sr_readAt request) (Some version))
  else inr (registerGenerationWaitLocked (sr_namespace request) s).

(** [None]: the call blocks until a write changes the generation. *)
Definition OpenSnapshot (ctx : Context) (request : SnapshotRequest) (s : Store)
  : option (result snapshot * Store) :=
  match safeContextError (ctx_err ctx 0) with
  | Err e => Some (Err e, s)
  | Ok _ =>
      if negb (SnapshotRequest_Valid request) then Some (Err ErrorInvalidArgument, s)
      else
        match safeContextError (ctx_err ctx 1) with
        | Err e => Some (Err e, s)
        | Ok _ =>
            match open_attempt request s with
            | inl view =>
                Some (match safeContextError (ctx_err ctx 2) with Err e => Err e | Ok _ => Ok view end, s)
            | inr (wait, s) =>
                let unregister := unregisterGenerationWaitLocked (sr_namespace request) wait in
                match safeContextError (ctx_err ctx 3) with
                | Err e => Some (Err e, unregister s)
                | Ok _ =>
                    if ctx_done ctx 4 then Some (Err (contextWaitError (ctx_err ctx 5)), unregister s)
                    else None
                end
            end
        end
  end.
End Open.

(** * Reads *)

Record tuple_scan := mkScan {
  sc_subjects : list SubjectRef; sc_visited : Z;
  sc_resultExhausted : bool; sc_workExhausted : bool; sc_canceled : bool }.

(** [expires && !expiresAt.After(s.readAt)] *)
Definition tuple_expired (readAt : Time) (value : RelationshipTuple) : bool :=
  rt_hasExpiry value && negb (readAt <? rt_expiresAt value).

(** The visit callback; [contextSignaled] is polled every 64 tuples. *)
Definition scan_tuple (ctx : Context) (limit : Z) (readAt : Time) (sc : tuple_scan) (value : RelationshipTuple)
  : tuple_scan * bool :=
  let visited := sc_visited sc + 1 in
  if MaxAggregateWorkItems <? visited
  then (mkScan (sc_subjects sc) visited (sc_resultExhausted sc) true (sc_canceled sc), false)
  else if (visited mod 64 =? 0) && ctx_done ctx (Z.to_nat visited)
  then (mkScan (sc_subjects sc) visited (sc_resultExhausted sc) (sc_workExhausted sc) true, false)
  else if tuple_expired readAt value
  then (mkScan (sc_subjects sc) visited (sc_resultExhausted sc) (sc_workExhausted sc) (sc_canceled sc), true)
  else
    let subjects := sc_subjects sc ++ [tup_Subject (rt_tuple value)] in
    if limit <? zlen subjects
    then (mkScan subjects visited true (sc_workExhausted sc) (sc_canceled sc), false)
    else (mkScan subjects visited (sc_resultExhausted sc) (sc_workExhausted sc) (sc_canceled sc), true).

Definition query_version (ctx : Context) (query : TupleQuery) (readAt : Time) (version : dataVersion)
  : result TupleResult :=
  let '(sc, _) := queryTupleBucket (dv_tuples version) (tq_resource query) (tq_relation query)
                    (scan_tuple ctx (tq_limit query) readAt) (mkScan [] 0 false false false) in
  if sc_canceled sc then Err (contextWaitError (ctx_err ctx 10))
  else if sc_workExhausted sc || sc_resultExhausted sc then Err ErrorResourceExhausted
  else
    let? result := NewTupleResult query (sc_subjects sc) in
    if ctx_done ctx 0 then Err (contextWaitError (ctx_err ctx 11)) else Ok result.

(** The frame of the three reads: checks, admission, body, release. A nil
    version would be dereferenced: the answer is a panic, [None]. *)
Definition admitted_read {A} (ctx : Context) (valid : bool) (body : dataVersion -> result A) (s : snapshot)
  : option (result A * snapshot) :=
  match (let? _ := safeContextError (ctx_err ctx 0) in
         if negb valid then Err ErrorInvalidArgument else safeContextError (ctx_err ctx 1)) with
  | Err e => Some (Err e, s)
  | Ok _ =>
      match snapshot_admit s with
      | (Err e, s) => Some (Err e, s)
      | (Ok None, _) => None
      | (Ok (Some version), s) => Some (body version, release s)
      end
  end.

Definition QueryTuples (ctx : Context) (query : TupleQuery) (s : snapshot) : option (result TupleResult * snapshot) :=
  admitted_read ctx (TupleQuery_Valid query) (query_version ctx query (sn_readAt s)) s.

(** [NewAttributeKeyPath] copies the path, so the comparison with the given
    path only repeats that it was accepted. *)
Definition attribute_key_ok (key : AttributeKey) : bool :=
  match NewAttributeKeyPath (ak_entity key) (ak_path key) with
  | Ok canonical => bool_decide (ak_path canonical = ak_path key)
  | Err _ => false
  end.

Definition get_version (ctx : Context) (key : AttributeKey) (version : dataVersion) : result AttributeResult :=
  let? result := match attributeGet (dv_attributes version) key with
                 | Some attribute => NewAttributeResult key (attr_value attribute) true
                 | None => NewAttributeResult key zero_value false
                 end in
  if ctx_done ctx 0 then Err (contextWaitError (ctx_err ctx 11)) else Ok result.

Definition GetAttribute (ctx : Context) (key : AttributeKey) (s : snapshot)
  : option (result AttributeResult * snapshot) :=
  admitted_read ctx (attribute_key_ok key) (get_version ctx key) s.

Definition HasAttributeDescendant (ctx : Context) (key : AttributeKey) (s : snapshot)
  : option (result bool * snapshot) :=
  admitted_read ctx (attribute_key_ok key)
    (fun version => let found := attributeHasDescendant (dv_attributes version) key in
                    if ctx_done ctx 0 then Err (contextWaitError (ctx_err ctx 11)) else Ok found) s.

(** * Lifecycle: readers and closers of one snapshot *)

(** The versions that admitted reads hold, and the calls of [Close] that wait
    for the channel. *)
Record lifecycle := mkLifecycle {
  lc_view : snapshot; lc_reading : list (option dataVersion); lc_waiting : nat }.

Inductive lifecycle_step : lifecycle -> lifecycle -> Prop :=
  | life_admit view view' reading waiting version :
      snapshot_admit view = (Ok version, view') ->
      lifecycle_step (mkLifecycle view reading waiting) (mkLifecycle view' (version :: reading) waiting)
  | life_release view reading waiting version before after :
      reading = before ++ version :: after ->
      lifecycle_step (mkLifecycle view reading waiting) (mkLifecycle (release view) (before ++ after) waiting)
  | life_close view reading waiting :
      lifecycle_step (mkLifecycle view reading waiting) (mkLifecycle (close_begin view) reading (S waiting))
  | life_return view reading waiting :
      close_returns view ->
      lifecycle_step (mkLifecycle view reading (S waiting)) (mkLifecycle view reading waiting).

(** What all interleavings keep: [version] is the one pinned at the start. *)
Record lifecycle_ok (opened : snapshot) (version : dataVersion) (c : lifecycle) : Prop := {
  lo_active : sn_active (lc_view c) = zlen (lc_reading c);
  lo_reading : Forall (eq (Some version)) (lc_reading c);
  lo_open : sn_closing (lc_view c) = false ->
    sn_version (lc_view c) = Some version /\ sn_closes (lc_view c) = 0%nat /\ lc_waiting c = 0%nat;
  lo_draining : sn_closing (lc_view c) = true -> lc_reading c <> [] ->
    sn_version (lc_view c) = Some version /\ sn_closes (lc_view c) = 0%nat;
  lo_closed : sn_closing (lc_view c) = true -> lc_reading c = [] ->
    sn_version (lc_view c) = None /\ sn_closes (lc_view c) = 1%nat;
  lo_fixed : sn_namespace (lc_view c) = sn_namespace opened /\ sn_generation (lc_view c) = sn_generation opened /\
    sn_minimum (lc_view c) = sn_minimum opened /\ sn_readAt (lc_view c) = sn_readAt opened
}.

Definition fresh_snapshot (view : snapshot) (version : dataVersion) : Prop :=
  sn_closing view = false /\ sn_active view = 0 /\ sn_closes view = 0%nat /\ sn_version view = Some version.

Lemma lifecycle_start view version :
  fresh_snapshot view version -> lifecycle_ok view version (mkLifecycle view [] 0).
Proof. intros (Hc & Ha & Hn & Hv). split; simpl; try done; congruence. Qed.

Lemma lifecycle_step_ok opened version c c' :
  lifecycle_ok opened version c -> lifecycle_step c c' -> lifecycle_ok opened version c'.
Proof.
  intros [Ha Hr Ho Hd Hcl Hf] Hstep. destruct Hstep as [view view' reading waiting v E|view reading waiting v b a ->|view reading waiting|view reading waiting Hret]; simpl in *.
  - unfold snapshot_admit in E. destruct (sn_closing view) eqn:Ec; [done|]. injection E as <- <-.
    destruct (Ho eq_refl) as (Hv & Hn & Hw). split; simpl; try done.
    + rewrite Ha, zlen_cons. lia.
    + constructor; [done|exact Hr].
  - apply Forall_app in Hr as [Hb Ha'%Forall_cons]. destruct Ha' as [<- Ha'].
    assert (Hne : b ++ Some version :: a <> []) by by destruct b.
    assert (Hv : sn_version view = Some version /\ sn_closes view = 0%nat).
    { destruct (sn_closing view); [by apply Hd|]. destruct (Ho eq_refl) as (? & ? & _). done. }
    destruct Hv as [Hv Hn].
    assert (Hlen : sn_active view - 1 = zlen (b ++ a)) by (rewrite Ha, !zlen_app, zlen_cons; lia).
    assert (Hz := zlen_zero (b ++ a)).
    unfold release. rewrite Hv. destruct (sn_closing view) eqn:Ec; cbn [andb].
    + destruct (Z.eqb_spec (sn_active view - 1) 0) as [E|E]; split; simpl; try done.
      * by apply Forall_app.
      * intros _ Hne'. exfalso. apply Hne', Hz. lia.
      * intros _ _. by rewrite Hn.
      * by apply Forall_app.
      * intros _ Hnil. apply Hz in Hnil. lia.
    + destruct (Ho eq_refl) as (_ & _ & Hw). split; simpl; try done. by apply Forall_app.
  - assert (Hz := zlen_zero reading). unfold close_begin. destruct (sn_closing view) eqn:Ec.
    + split; simpl; try done; try congruence; rewrite Ec; auto.
    + destruct (Ho eq_refl) as (Hv & Hn & _). destruct (Z.eqb_spec (sn_active view) 0) as [E|E]; split; simpl; try done.
      * intros _ Hne. exfalso. apply Hne, Hz. lia.
      * intros _ _. by rewrite Hn.
      * intros _ Hnil. apply Hz in Hnil. lia.
  - split; simpl; try done. intros E. destruct (Ho E) as (_ & _ & ?). done.
Qed.

Lemma lifecycle_steps_ok opened version c c' :
  lifecycle_ok opened version c -> rtc lifecycle_step c c' -> lifecycle_ok opened version c'.
Proof. intros Hc Hr. induction Hr as [|c c1 c2 H1 _ IH]; [done|]. apply IH. by eapply lifecycle_step_ok. Qed.

Lemma lifecycle_reachable view version c :
  fresh_snapshot view version -> rtc lifecycle_step (mkLifecycle view [] 0) c -> lifecycle_ok view version c.
Proof. intros Hf%lifecycle_start. by apply lifecycle_steps_ok. Qed.

(** C29: the lifecycle of a pinned snapshot is safe under every interleaving of
    reads and [Close] calls: each admitted read holds the version pinned at
    opening, never a nil one; [closeDone] is closed at most once, and it is
    closed, so that [Close] returns and the version is dropped, exactly when
    closing has begun and no admitted read is left; from the first [Close] on,
    every new read is refused with FAILED_PRECONDITION. *)
Theorem snapshot_lifecycle_safe view version c :
  fresh_snapshot view version -> rtc lifecycle_step (mkLifecycle view [] 0) c ->
  Forall (eq (Some version)) (lc_reading c) /\
  (sn_closes (lc_view c) <= 1)%nat /\
  (close_returns (lc_view c) <-> sn_closing (lc_view c) = true /\ lc_reading c = []) /\
  (close_returns (lc_view c) <-> sn_version (lc_view c) = None) /\
  (fst (snapshot_admit (lc_view c)) =
     if sn_closing (lc_view c) then Err ErrorFailedPrecondition else Ok (Some version)).
Proof.
  intros Hf Hr. destruct (lifecycle_reachable _ _ _ Hf Hr) as [Ha Hh Ho Hd Hc _].
  unfold close_returns, snapshot_admit. split; [done|].
  destruct (sn_closing (lc_view c)) eqn:E;
    [|destruct (Ho eq_refl) as (-> & -> & _); split; [lia|naive_solver]].
  destruct (decide (lc_reading c = [])) as [En|En].
  - destruct (Hc eq_refl En) as [-> ->]. split; [lia|naive_solver].
  - destruct (Hd eq_refl En) as [-> ->]. split; [lia|naive_solver].
Qed.

(** A closed or draining snapshot gains no reader. *)
Lemma closing_step opened version c c' :
  lifecycle_ok opened version c -> sn_closing (lc_view c) = true -> lifecycle_step c c' ->
  sn_closing (lc_view c') = true /\ (length (lc_reading c') <= length (lc_reading c))%nat.
Proof.
  intros Hok Hc Hs. destruct Hs as [view view' reading waiting v E|view reading waiting v b a ->|view reading waiting|]; simpl in *.
  - unfold snapshot_admit in E. by rewrite Hc in E.
  - split; [|rewrite !length_app; simpl; lia]. unfold release. rewrite Hc. by repeat case_match.
  - unfold close_begin. by rewrite Hc.
  - done.
Qed.

Lemma closing_drains opened version n : forall c,
  lifecycle_ok opened version c -> sn_closing (lc_view c) = true ->
  n = (length (lc_reading c) + lc_waiting c)%nat ->
  exists c', nsteps lifecycle_step n c c' /\ lc_reading c' = [] /\ lc_waiting c' = 0%nat.
Proof.
  induction n as [|n IH]; intros c Hok Hc Hn.
  - exists c. split; [constructor|]. destruct (lc_reading c); [|simpl in Hn; lia]. split; [done|simpl in Hn; lia].
  - assert (Hnext : exists c1, lifecycle_step c c1 /\ n = (length (lc_reading c1) + lc_waiting c1)%nat).
    { destruct c as [view [|v reading] waiting]; simpl in *.
      - destruct waiting as [|waiting]; [lia|]. eexists. split; [apply life_return|simpl; lia].
        unfold close_returns. destruct (lo_closed _ _ _ Hok Hc eq_refl) as [_ E]. simpl in E. by rewrite E.
      - eexists. split; [by apply (life_release _ _ _ v [] reading)|simpl; lia]. }
    destruct Hnext as (c1 & Hs & Hn1). destruct (closing_step _ _ _ _ Hok Hc Hs) as [Hc1 _].
    destruct (IH c1) as (c' & Hr & Hend); [by eapply lifecycle_step_ok|done|done|].
    exists c'. split; [by eapply nsteps_l|done].
Qed.

(** [Close] terminates: once it has begun, no step admits another read, and
    from any point the admitted reads and the waiting [Close] calls all return
    within as many steps as there are of them; nothing waits on anything but
    an admitted read. *)
Theorem snapshot_close_drains view version c :
  fresh_snapshot view version -> rtc lifecycle_step (mkLifecycle view [] 0) c ->
  sn_closing (lc_view c) = true ->
  (forall c', lifecycle_step c c' -> (length (lc_reading c') <= length (lc_reading c))%nat) /\
  exists c', nsteps lifecycle_step (length (lc_reading c) + lc_waiting c) c c' /\
    lc_reading c' = [] /\ lc_waiting c' = 0%nat.
Proof.
  intros Hf Hr Hc. assert (Hok := lifecycle_reachable _ _ _ Hf Hr). split.
  - intros c' Hs. by eapply closing_step.
  - by eapply closing_drains.
Qed.
