(* ===== verification/MemWait.v ===== *)
(** Snapshots that wait for a generation (store/memory/data.go, store.go).

    [OpenSnapshot] registers on a shared, reference-counted channel of its
    namespace, waits for it to be closed, unregisters and tries again. Here
    any number of such calls run beside the writes, activations, publications
    and event reads of the concurrent store of [MemConc]. A data write that
    commits notifies the waiters of its namespace; that every section of those
    calls keeps the relation [signals] is derived from their own code. *)

From Stdlib Require Import ZArith Lia Sorted.
From stdpp Require Import base list gmap strings sorting relations.
From S2P Require Import Prelude Limits Text Types Cost Canon Data Policy Events Revisions Avl Index Cursor Fingerprint StoreData MemState MemEvents MemOps MemData MemInv MemCommit MemProtocol MemWrite MemSlots MemRevisions MemConc MemSnapshot.

(** The loop of [OpenSnapshot]: before an attempt, in the [select], returned. *)
Inductive open_phase : Type :=
  | Opening
  | Waiting (wait : generationWait)
  | Opened (view : snapshot)
  | OpenFailed (e : ErrorCategory).

Record opener := mkOpener { on_request : SnapshotRequest; on_phase : open_phase }.

Definition on_namespace (o : opener) : string := sr_namespace (on_request o).

Definition waits_on (ns : string) (ref : nat) (o : opener) : bool :=
  match on_phase o with
  | Waiting w => bool_decide (on_namespace o = ns) && (gw_ref w =? ref)%nat
  | _ => false
  end.

Definition waiting_count (ns : string) (ref : nat) (os : list opener) : Z :=
  zlen (List.filter (waits_on ns ref) os).

Section Waiters.
Context `{D : Dsl} `{H : Hmac}.
#[local] Existing Instance op_mutation.

(** The mutating calls of the store. *)
Inductive store_call : operation -> Prop :=
  | call_write request fp W : store_call (write_operation request fp W)
  | call_activate request W : store_call (activate_operation request W)
  | call_put answer record W : store_call (put_operation answer record W).

(** The other section beside those of [OpenSnapshot] that changes the store. *)
Inductive event_read : Store -> Store -> Prop :=
  | event_read_section ctx clock request s : event_read s (snd (ListEvents ctx clock request s)).

(** A section of a mutating call or of an event read. *)
Definition call_step : system -> system -> Prop := step_of store_call event_read.

(** [wait_calls]: any section of the other calls; [wait_wake] and
    [wait_cancel] are the two cases of the [select]. *)
Inductive wait_step : system * list opener -> system * list opener -> Prop :=
  | wait_calls c c' os : call_step c c' -> wait_step (c, os) (c', os)
  | wait_spawn c os request : wait_step (c, os) (c, os ++ [mkOpener request Opening])
  | wait_open s ts os i request view :
      os !! i = Some (mkOpener request Opening) -> open_attempt request s = inl view ->
      wait_step ((s, ts), os) ((s, ts), <[i := mkOpener request (Opened view)]> os)
  | wait_register s ts os i request w s' :
      os !! i = Some (mkOpener request Opening) -> open_attempt request s = inr (w, s') ->
      wait_step ((s, ts), os) ((s', ts), <[i := mkOpener request (Waiting w)]> os)
  | wait_wake s ts os i request w :
      os !! i = Some (mkOpener request (Waiting w)) -> gw_ref w ∈ st_closed s ->
      wait_step ((s, ts), os)
        ((unregisterGenerationWaitLocked (sr_namespace request) w s, ts), <[i := mkOpener request Opening]> os)
  | wait_cancel s ts os i request w e :
      os !! i = Some (mkOpener request (Waiting w)) ->
      wait_step ((s, ts), os)
        ((unregisterGenerationWaitLocked (sr_namespace request) w s, ts), <[i := mkOpener request (OpenFailed e)]> os)
  | wait_fail c os i request e :
      os !! i = Some (mkOpener request Opening) ->
      wait_step (c, os) (c, <[i := mkOpener request (OpenFailed e)]> os).

(** Reference counts are exact, and a call that waits on an open channel is
    registered on it and not yet satisfied. *)
Record wait_inv (x : system * list opener) : Prop := {
  wi_system : system_inv x.1;
  wi_calls : Forall (fun t => store_call (th_op t)) x.1.2;
  wi_count : forall ns w, st_waiters x.1.1 !! ns = Some w -> gw_refs w = waiting_count ns (gw_ref w) x.2;
  wi_waiting : forall i o w, x.2 !! i = Some o -> on_phase o = Waiting w ->
    gw_ref w ∈ st_closed x.1.1 \/
    exists w', st_waiters x.1.1 !! on_namespace o = Some w' /\ gw_ref w' = gw_ref w /\
      namespace_generation x.1.1 (on_namespace o) < sr_minimumGeneration (on_request o)
}.

Lemma count_insert ns ref os i o o' :
  os !! i = Some o ->
  waiting_count ns ref (<[i := o']> os) =
  waiting_count ns ref os - Z.b2z (waits_on ns ref o) + Z.b2z (waits_on ns ref o').
Proof.
  intros Hi. unfold waiting_count. rewrite insert_take_drop by (by eapply lookup_lt_Some).
  rewrite <- (take_drop_middle _ _ _ Hi) at 3. rewrite !List.filter_app, !zlen_app. cbn [List.filter].
  destruct (waits_on ns ref o), (waits_on ns ref o'); cbn [Z.b2z]; rewrite ?zlen_cons; lia.
Qed.

Lemma count_pos ns ref os i o :
  os !! i = Some o -> waits_on ns ref o = true -> 1 <= waiting_count ns ref os.
Proof.
  intros Hi Hw. unfold waiting_count, zlen. assert (Hin : In o (List.filter (waits_on ns ref) os)).
  { apply List.filter_In. split; [|done]. apply list_elem_of_In. by eapply list_elem_of_lookup_2. }
  destruct (List.filter _ os); [done|]. simpl. lia.
Qed.

(** A call of the store is one of the steps of the general system. *)
Lemma call_step_step c c' : call_step c c' -> step c c'.
Proof.
  intros Hs. unfold step. destruct Hs; [by apply step_spawn|by eapply step_begin|by eapply step_fail|by eapply step_abort|
    by eapply step_commit|by eapply step_release|].
  apply step_reader. match goal with H : event_read _ _ |- _ => destruct H end. constructor.
Qed.

(** The calls in flight stay calls of the store. *)
Lemma call_step_calls c c' : call_step c c' -> Forall (fun t => store_call (th_op t)) c.2 -> Forall (fun t => store_call (th_op t)) c'.2.
Proof.
  intros Hs Hf. assert (K : forall i o ph ph', c.2 !! i = Some (mkThread o ph) -> Forall (fun t => store_call (th_op t)) (<[i := mkThread o ph']> c.2)).
  { intros i o ph ph' Hi. apply Forall_insert; [done|]. rewrite Forall_lookup in Hf. exact (Hf _ _ Hi). }
  destruct Hs; cbn [fst snd] in *; eauto. apply Forall_app. split; [done|]. by constructor.
Qed.

(** Each commit notifies the waiters of a namespace whose data it replaces. *)
Lemma store_call_signals o p now s res s' : store_call o -> op_commit o p now s = (res, s') -> signals s s'.
Proof.
  intros Ho. destruct Ho; cbn [op_commit write_operation activate_operation put_operation].
  - apply write_commit_signals.
  - apply activate_commit_signals.
  - apply put_commit_signals.
Qed.

Lemma call_step_signals c c' : system_inv c -> Forall (fun t => store_call (th_op t)) c.2 -> call_step c c' -> signals c.1 c'.1.
Proof.
  intros Hc Hf Hs. destruct Hs as [s ts o|s ts i o b s' Hi Hb|s ts i o r p res s' Hi Hfail|s ts i o r p f e Hi
    |s ts i o r p now dn answer res s' Hi Hcom|s ts i o r res Hi|s ts s' Hr]; cbn [fst snd] in *.
  - by apply quiet_signals.
  - by apply frame_signals, (begin_ok _ _ _ (sy_store _ Hc) Hb).
  - unfold fail_section in Hfail. destruct (negb _); [injection Hfail as _ <-; by apply quiet_signals|].
    destruct (st_failNextEvent s); injection Hfail as _ <-; by apply quiet_signals.
  - by apply quiet_signals.
  - unfold commit_section in Hcom. destruct (negb _); [injection Hcom as _ <-; by apply quiet_signals|].
    destruct dn; [injection Hcom as _ <-; by apply quiet_signals|].
    rewrite Forall_lookup in Hf. by eapply store_call_signals; [exact (Hf _ _ Hi)|].
  - apply quiet_signals; [|apply release_facts|apply release_closed].
    unfold releaseCommitReservationLocked. by destruct (ownsCommitReservationLocked _ _).
  - destruct Hr as [ctx clock request s].
    unfold ListEvents. destruct (rbind (safeContextError (ctx_err ctx 0)) _) as [[position now]|e]; [|by apply quiet_signals].
    destruct (effectiveTimeLocked now s) as [t s1] eqn:Et. cbn [snd]. apply effectiveTime_spec in Et as (_ & _ & _ & ->).
    assert (F := prune_frame (le_namespace request) t (with_effectiveTime t s)). unfold same_but_events in F.
    apply quiet_signals; by rewrite F.
Qed.

(** ** Preservation *)

Lemma calls_preserve c c' os : wait_inv (c, os) -> call_step c c' -> wait_inv (c', os).
Proof.
  intros [h1 h0 h2 h3] Hs. cbn [fst snd] in *. destruct (call_step_signals _ _ h1 h0 Hs) as [g1 g2]. split; cbn [fst snd].
  - by eapply step_preserves, call_step_step.
  - by eapply call_step_calls.
  - intros ns w Hw. destruct (g2 ns) as [[E _]|[E _]]; rewrite E in Hw; [by apply h2|done].
  - intros i o w Ho Hp. destruct (h3 i o w Ho Hp) as [Hc|(w' & Hw & Er & Hg)]; [left; by apply g1|].
    destruct (g2 (on_namespace o)) as [[E Ed]|[E Hc]].
    + right. exists w'. rewrite E. unfold namespace_generation in *. by rewrite Ed.
    + left. rewrite <- Er. by apply Hc.
Qed.

(** A phase that is not waiting replaces another that is not. *)
Lemma idle_preserve c os i o o' :
  wait_inv (c, os) -> os !! i = Some o -> (forall w, on_phase o <> Waiting w) -> (forall w, on_phase o' <> Waiting w) ->
  wait_inv (c, <[i := o']> os).
Proof.
  intros [h1 h0 h2 h3] Hi Hn Hn'. cbn [fst snd] in *.
  assert (Hf : forall x, (forall w, on_phase x <> Waiting w) -> forall ns ref, waits_on ns ref x = false).
  { intros x Hx ns ref. unfold waits_on. destruct (on_phase x) eqn:E; try done. by destruct (Hx wait). }
  split; cbn [fst snd]; [done|done|..].
  - intros ns w Hw. rewrite (count_insert _ _ _ _ o) by done. rewrite !Hf by done. cbn [Z.b2z]. rewrite (h2 ns w Hw). lia.
  - intros j x w Hj Hp. destruct (decide (i = j)) as [<-|Hne].
    + rewrite list_lookup_insert_eq in Hj by (by eapply lookup_lt_Some). injection Hj as <-. by destruct (Hn' w).
    + rewrite list_lookup_insert_ne in Hj by done. by eapply h3.
Qed.

Lemma spawn_opener c os request : wait_inv (c, os) -> wait_inv (c, os ++ [mkOpener request Opening]).
Proof.
  intros [h1 h0 h2 h3]. cbn [fst snd] in *. split; cbn [fst snd]; [done|done|..].
  - intros ns w Hw. unfold waiting_count. rewrite List.filter_app. cbn [List.filter waits_on on_phase].
    rewrite app_nil_r. by apply h2.
  - intros i o w Ho Hp. apply lookup_app_Some in Ho as [Ho|[_ Ho]]; [by eapply h3|].
    apply list_lookup_singleton_Some in Ho as [_ <-]. done.
Qed.

(** The channel a waiting call holds was handed out before. *)
Lemma waiting_ref x i o w : wait_inv x -> x.2 !! i = Some o -> on_phase o = Waiting w -> (gw_ref w < st_nextRef x.1.1)%nat.
Proof.
  intros Hx Ho Hp. assert (Hr := si_refs _ (sy_store _ (wi_system _ Hx))).
  destruct (wi_waiting _ Hx i o w Ho Hp) as [Hc|(w' & Hw & <- & _)].
  - assert (Hcl := ro_closed _ Hr). rewrite Forall_forall in Hcl. by apply Hcl.
  - by destruct (ro_waiter _ Hr _ _ Hw) as (? & _).
Qed.

Lemma fresh_count x ns : wait_inv x -> waiting_count ns (st_nextRef x.1.1) x.2 = 0.
Proof.
  intros Hx. unfold waiting_count. apply zlen_zero.
  destruct (List.filter (waits_on ns (st_nextRef x.1.1)) x.2) as [|o l] eqn:E; [done|]. exfalso.
  assert (Hin : In o (List.filter (waits_on ns (st_nextRef x.1.1)) x.2)) by (rewrite E; by left).
  apply List.filter_In in Hin as [Ho%list_elem_of_In Hw]. apply list_elem_of_lookup in Ho as [i Ho].
  unfold waits_on in Hw. destruct (on_phase o) as [|w| |] eqn:Ep; try done.
  apply andb_true_iff in Hw as [_ Hw%Nat.eqb_eq]. assert (Hlt := waiting_ref _ _ _ _ Hx Ho Ep). lia.
Qed.

Lemma register_preserve s ts os i request w s' :
  wait_inv ((s, ts), os) -> os !! i = Some (mkOpener request Opening) -> open_attempt request s = inr (w, s') ->
  wait_inv ((s', ts), <[i := mkOpener request (Waiting w)]> os).
Proof.
  intros Hx Hi Ho. assert (Hx' := Hx). destruct Hx' as [h1 h0 h2 h3]. cbn [fst snd] in *.
  unfold open_attempt in Ho. fold (namespace_generation s (sr_namespace request)) in Ho.
  destruct (Z.leb_spec (sr_minimumGeneration request) (namespace_generation s (sr_namespace request))) as [|Hg]; [done|].
  injection Ho as Ho. set (ns := sr_namespace request) in *.
  assert (Es : s' = snd (registerGenerationWaitLocked ns s)) by by rewrite Ho.
  assert (Hreg : exists w0, st_waiters s' = <[ns := w]> (st_waiters s) /\ st_closed s' = st_closed s /\ st_data s' = st_data s /\
    gw_refs w = gw_refs w0 + 1 /\ gw_ref w = gw_ref w0 /\ gw_refs w0 = waiting_count ns (gw_ref w0) os /\
    forall v, st_waiters s !! ns = Some v -> v = w0).
  { unfold registerGenerationWaitLocked in Ho. destruct (st_waiters s !! ns) as [v|] eqn:Ev; injection Ho as <- <-.
    - exists v. repeat split; [by apply h2|]. intros ? [= ->]. done.
    - exists (mkGenerationWait (st_nextRef s) 0). repeat split; [|done]. symmetry. apply (fresh_count _ ns Hx). }
  destruct Hreg as (w0 & Ew & Ec & Ed & Er & Ef & Hcount & Hold). split; cbn [fst snd].
  - rewrite Es. apply (step_preserves (s, ts)); [done|]. apply step_reader. constructor.
  - done.
  - intros ns' v. rewrite Ew, lookup_insert_Some. rewrite (count_insert _ _ _ _ _ _ Hi).
    unfold waits_on at 1 2. cbn [on_phase on_namespace on_request Z.b2z].
    unfold on_namespace. cbn [on_request]. fold ns. intros [[<- <-]|[Hne Hv]].
    + rewrite bool_decide_eq_true_2, Nat.eqb_refl by done. cbn [andb Z.b2z]. rewrite Er, Ef, Hcount. lia.
    + rewrite bool_decide_eq_false_2 by done. cbn [andb Z.b2z]. rewrite (h2 _ _ Hv). lia.
  - intros j o v Hj Hp. rewrite Ec, Ew. unfold namespace_generation. rewrite Ed. destruct (decide (i = j)) as [<-|Hne].
    + rewrite list_lookup_insert_eq in Hj by (by eapply lookup_lt_Some). injection Hj as <-. injection Hp as <-.
      right. exists w. unfold on_namespace. cbn [on_request]. fold ns. by rewrite lookup_insert_eq.
    + rewrite list_lookup_insert_ne in Hj by done. destruct (h3 j o v Hj Hp) as [Hc|(w' & Hw' & Er' & Hg')]; [by left|].
      right. destruct (decide (on_namespace o = ns)) as [En|En].
      * exists w. rewrite En in *. rewrite lookup_insert_eq. split; [done|]. split; [|done].
        rewrite Ef, <- (Hold _ Hw'). done.
      * exists w'. by rewrite lookup_insert_ne.
Qed.

(** What unregistering does to the channel of its own namespace: one
    reference less, dropped with the last one; other channels are untouched. *)
Lemma unregister_frame ns w s (s' := unregisterGenerationWaitLocked ns w s) :
  st_closed s' = st_closed s /\ st_data s' = st_data s /\
  (forall n, n <> ns -> st_waiters s' !! n = st_waiters s !! n) /\
  st_waiters s' !! ns =
    match st_waiters s !! ns with
    | Some c => if (gw_ref c =? gw_ref w)%nat
                then if gw_refs c - 1 =? 0 then None else Some (mkGenerationWait (gw_ref c) (gw_refs c - 1))
                else Some c
    | None => None
    end.
Proof.
  unfold s', unregisterGenerationWaitLocked. destruct (st_waiters s !! ns) as [c|] eqn:E; [|done].
  destruct (_ =? _)%nat; [|done]. destruct (_ =? 0); cbn [st_closed st_data st_waiters with_waiters];
    (split; [done|]; split; [done|]; split; [intros n Hn|]).
  - by rewrite lookup_delete_ne.
  - by rewrite lookup_delete_eq.
  - by rewrite lookup_insert_ne.
  - by rewrite lookup_insert_eq.
Qed.

(** Unregistering, after a wake-up or a cancellation. *)
Lemma leave_preserve s ts os i request w ph :
  wait_inv ((s, ts), os) -> os !! i = Some (mkOpener request (Waiting w)) -> (forall v, ph <> Waiting v) ->
  wait_inv ((unregisterGenerationWaitLocked (sr_namespace request) w s, ts), <[i := mkOpener request ph]> os).
Proof.
  intros [h1 h0 h2 h3] Hi Hph. cbn [fst snd] in *. set (ns := sr_namespace request) in *.
  destruct (unregister_frame ns w s) as (Ec & Ed & Ew & Ens).
  assert (Hs' : system_inv (unregisterGenerationWaitLocked ns w s, ts)).
  { apply (step_preserves (s, ts)); [done|]. apply step_reader. constructor. }
  set (s' := unregisterGenerationWaitLocked ns w s) in *.
  assert (Hcount : forall n ref, waiting_count n ref (<[i := mkOpener request ph]> os) =
    waiting_count n ref os - Z.b2z (bool_decide (ns = n) && (gw_ref w =? ref)%nat)).
  { intros n ref. rewrite (count_insert _ _ _ _ _ _ Hi). assert (E : waits_on n ref (mkOpener request ph) = false).
    { unfold waits_on. cbn [on_phase]. destruct ph as [|v| |]; try done. by destruct (Hph v). }
    rewrite E. cbn [Z.b2z]. rewrite Z.add_0_r. done. }
  split; cbn [fst snd]; [done|done|..].
  - intros n v. rewrite Hcount. destruct (decide (n = ns)) as [->|Hn].
    + rewrite Ens, bool_decide_eq_true_2 by done. cbn [andb]. destruct (st_waiters s !! ns) as [c|] eqn:Ev; [|done].
      specialize (h2 _ _ Ev). destruct (Nat.eqb_spec (gw_ref c) (gw_ref w)) as [E|E].
      * destruct (_ =? 0); [done|]. intros [= <-]. cbn [gw_refs gw_ref]. rewrite <- E, Nat.eqb_refl. cbn [Z.b2z]. lia.
      * intros [= <-]. rewrite (proj2 (Nat.eqb_neq _ _)) by congruence. cbn [Z.b2z]. lia.
    + intros Hv. rewrite Ew in Hv by done. rewrite bool_decide_eq_false_2 by done. cbn [andb Z.b2z]. rewrite (h2 _ _ Hv). lia.
  - intros j o v Hj Hp. destruct (decide (i = j)) as [<-|Hne].
    { rewrite list_lookup_insert_eq in Hj by (by eapply lookup_lt_Some). injection Hj as <-. by destruct (Hph v). }
    assert (Hj' := Hj). rewrite list_lookup_insert_ne in Hj by done. rewrite Ec. unfold namespace_generation. rewrite Ed.
    destruct (h3 j o v Hj Hp) as [Hc|(c & Hw' & Er' & Hg')]; [by left|]. right.
    destruct (decide (on_namespace o = ns)) as [En|En]; [|exists c; by rewrite Ew].
    rewrite En in *. rewrite Ens, Hw'. destruct (Nat.eqb_spec (gw_ref c) (gw_ref w)) as [E|E]; [|by exists c].
    assert (Hpos : 1 <= waiting_count ns (gw_ref c) (<[i := mkOpener request ph]> os)).
    { apply (count_pos _ _ _ j o Hj'). unfold waits_on. rewrite Hp, bool_decide_eq_true_2, Er', Nat.eqb_refl; done. }
    rewrite Hcount, bool_decide_eq_true_2, E, Nat.eqb_refl in Hpos by done. cbn [andb Z.b2z] in Hpos.
    specialize (h2 _ _ Hw'). rewrite E in h2. destruct (Z.eqb_spec (gw_refs c - 1) 0); [lia|].
    eexists. split; [done|]. cbn [gw_ref]. split; [congruence|done].
Qed.

Lemma wait_step_preserves x x' : wait_inv x -> wait_step x x' -> wait_inv x'.
Proof.
  intros Hx Hs. destruct Hs.
  - by eapply calls_preserve.
  - by apply spawn_opener.
  - by eapply idle_preserve.
  - by eapply register_preserve.
  - by eapply leave_preserve.
  - by eapply leave_preserve.
  - by eapply idle_preserve.
Qed.

Lemma wait_start key : wait_inv ((newStore key, []), []).
Proof. split; cbn [fst snd]; [apply start_inv|constructor|done|done]. Qed.

Lemma wait_reachable key x : rtc wait_step ((newStore key, []), []) x -> wait_inv x.
Proof.
  intros Hr. assert (Hx := wait_start key). revert Hx. induction Hr as [|x y z Hs _ IH]; [done|].
  intros Hx. by eapply IH, wait_step_preserves.
Qed.

(** C17: no wake-up is lost. In every state that snapshots opening, data writes,
    activations, publications and event reads can reach together, a call that
    waits for a generation which its namespace has meanwhile attained finds its channel closed, so it is woken,
    and its next attempt opens the snapshot; a registration is never leaked:
    the store keeps a channel for a namespace only while some call waits on
    it, with exactly as many references as there are such calls. *)
Theorem no_lost_wakeup key s ts os :
  rtc wait_step ((newStore key, []), []) ((s, ts), os) ->
  (forall i request w, os !! i = Some (mkOpener request (Waiting w)) ->
     sr_minimumGeneration request <= namespace_generation s (sr_namespace request) ->
     gw_ref w ∈ st_closed s /\
     exists view, open_attempt request (unregisterGenerationWaitLocked (sr_namespace request) w s) = inl view) /\
  (forall ns w, st_waiters s !! ns = Some w -> gw_refs w = waiting_count ns (gw_ref w) os) /\
  ((forall i o w, os !! i = Some o -> on_phase o <> Waiting w) -> st_waiters s = ∅).
Proof.
  intros Hr%wait_reachable. destruct Hr as [h1 _ h2 h3]. cbn [fst snd] in *. split; [|split].
  - intros i request w Hi Hg. split.
    + destruct (h3 i _ w Hi eq_refl) as [Hc|(w' & _ & _ & Hlt)]; [done|].
      unfold on_namespace in Hlt. cbn [on_request] in Hlt. lia.
    + unfold open_attempt. destruct (unregister_frame (sr_namespace request) w s) as (_ & Ed & _). rewrite Ed.
      fold (namespace_generation s (sr_namespace request)). rewrite (proj2 (Z.leb_le _ _) Hg). by eexists.
  - exact h2.
  - intros Hnone. apply map_empty. intros ns. destruct (st_waiters s !! ns) as [w|] eqn:Ew; [|done]. exfalso.
    destruct (ro_waiter _ (si_refs _ (sy_store _ h1)) _ _ Ew) as (_ & _ & Hrefs). rewrite (h2 _ _ Ew) in Hrefs.
    unfold waiting_count in Hrefs. destruct (List.filter (waits_on ns (gw_ref w)) os) as [|o l] eqn:Ef; [by vm_compute in Hrefs|].
    assert (Hin : In o (List.filter (waits_on ns (gw_ref w)) os)) by (rewrite Ef; by left).
    apply List.filter_In in Hin as [Ho%list_elem_of_In Hw]. apply list_elem_of_lookup in Ho as [i Ho].
    unfold waits_on in Hw. destruct (on_phase o) as [|v| |] eqn:Ep; try done. by apply (Hnone i o v).
Qed.
End Waiters.
