(* ===== verification/MemReads.v ===== *)
(** What snapshot reads answer (store/memory/data.go).

    A read is related to the finite maps of facts that the namespace held when
    the snapshot was opened: the indexed bucket scan and the trie lookups
    answer exactly as a scan of those maps would, at every point of the
    snapshot's lifecycle and whatever is written to the store meanwhile. *)

From Stdlib Require Import ZArith Lia Sorted.
From stdpp Require Import base list gmap strings sorting relations.
From S2P Require Import Prelude Limits Text Types Cost Canon Data Policy Events Revisions Avl Index Cursor Fingerprint StoreData MemState MemEvents MemOps MemData MemInv MemCommit MemProtocol MemWrite MemSnapshot.

(** * The tuple scan *)

(** The stored tuples of the queried resource and relation, each once. *)
Definition lists_facts (facts : gmap Tuple RelationshipTuple) (query : TupleQuery)
  (stored : list RelationshipTuple) : Prop :=
  NoDup stored /\ forall t, t ∈ stored <->
    facts !! rt_tuple t = Some t /\
    tup_Resource (rt_tuple t) = tq_resource query /\ tup_Relation (rt_tuple t) = tq_relation query.

(** A tuple counts while it has no expiry or one strictly after the read time. *)
Definition active_at (readAt : Time) (t : RelationshipTuple) : bool :=
  negb (rt_hasExpiry t) || (readAt <? rt_expiresAt t).

(** Their subjects, less the tuples expired at the read time. *)
Definition live (readAt : Time) (stored : list RelationshipTuple) : list SubjectRef :=
  map (fun t => tup_Subject (rt_tuple t)) (List.filter (active_at readAt) stored).

Lemma tuple_expired_active readAt t : tuple_expired readAt t = negb (active_at readAt t).
Proof. unfold tuple_expired, active_at. by rewrite negb_orb, negb_involutive. Qed.

(** A bounded answer is complete, sorted and free of duplicates; otherwise it
    is RESOURCE_EXHAUSTED because one of the three bounds is exceeded. *)
Definition tuple_answer (query : TupleQuery) (readAt : Time) (stored : list RelationshipTuple)
  (answer : result TupleResult) : Prop :=
  match answer with
  | Ok r =>
      zlen stored <= MaxAggregateWorkItems /\ zlen (live readAt stored) <= tq_limit query /\
      tupleResultCost query (live readAt stored) <= MaxAggregateOutputBytes /\
      tr_query r = query /\ StronglySorted (clt compareSubjectRef) (tr_subjects r) /\
      forall x, x ∈ tr_subjects r <-> x ∈ live readAt stored
  | Err e =>
      e = ErrorResourceExhausted /\
      (MaxAggregateWorkItems < zlen stored \/ tq_limit query < zlen (live readAt stored) \/
       MaxAggregateOutputBytes < tupleResultCost query (live readAt stored))
  end.

Lemma live_cons readAt t l :
  live readAt (t :: l) = (if tuple_expired readAt t then [] else [tup_Subject (rt_tuple t)]) ++ live readAt l.
Proof. rewrite tuple_expired_active. unfold live. simpl. by destruct (active_at readAt t). Qed.

(** The visitor either accepts the whole bucket or stops at the bound that
    the bucket exceeds. *)
Lemma scan_bucket ctx limit readAt (Hd : forall n, ctx_done ctx n = false) l : forall acc visited,
  visited <= MaxAggregateWorkItems -> zlen acc <= limit ->
  let '(sc, _) := fold_stop (scan_tuple ctx limit readAt) (mkScan acc visited false false false) l in
  sc_canceled sc = false /\
  (if sc_workExhausted sc || sc_resultExhausted sc
   then MaxAggregateWorkItems < visited + zlen l \/ limit < zlen acc + zlen (live readAt l)
   else sc_subjects sc = acc ++ live readAt l /\
        visited + zlen l <= MaxAggregateWorkItems /\ zlen acc + zlen (live readAt l) <= limit).
Proof.
  induction l as [|t l IH]; intros acc visited Hv Ha; cbn [fold_stop].
  - cbn. split; [done|]. rewrite app_nil_r. change (zlen (@nil RelationshipTuple)) with 0.
    change (zlen (@nil SubjectRef)) with 0. split; [done|lia].
  - assert (Hl := zlen_nonneg l). assert (Hl' := zlen_nonneg (live readAt l)).
    unfold scan_tuple at 1. cbn [sc_visited sc_subjects sc_resultExhausted sc_workExhausted sc_canceled].
    rewrite live_cons, zlen_cons. destruct (Z.ltb_spec MaxAggregateWorkItems (visited + 1)) as [Hw|Hw].
    { cbn. split; [done|]. lia. }
    rewrite Hd, andb_false_r. destruct (tuple_expired readAt t); cbn [app].
    + specialize (IH acc (visited + 1) Hw Ha).
      destruct (fold_stop _ _ l) as [sc ok]. destruct IH as [IHc IH]. split; [done|].
      destruct (_ || _); [lia|]. destruct IH as (? & ? & ?). repeat split; [done|lia|lia].
    + set (x := tup_Subject (rt_tuple t)).
      assert (Hx : zlen (acc ++ [x]) = zlen acc + 1) by (rewrite zlen_app; reflexivity).
      destruct (Z.ltb_spec limit (zlen (acc ++ [x]))) as [Hlim|Hlim]; rewrite ?zlen_cons.
      { cbn. split; [done|]. lia. }
      specialize (IH (acc ++ [x]) (visited + 1) Hw Hlim).
      destruct (fold_stop _ _ l) as [sc ok]. destruct IH as [IHc IH]. split; [done|].
      destruct (_ || _); [lia|]. destruct IH as (-> & ? & ?). rewrite <- app_assoc. split; [done|lia].
Qed.

(** The bucket of the tuple index lists the facts of the query. *)
Lemma bucket_facts version tuples attributes query :
  version_rep version tuples attributes ->
  lists_facts tuples query (bucket (tq_resource query) (tq_relation query) (dv_tuples version)).
Proof.
  intros (_ & Hb & <- & _ & Hk & _). unfold bucket.
  assert (Hin : forall k t, (k, t) ∈ elements (dv_tuples version) <-> tmap (dv_tuples version) !! k = Some t).
  { intros k t. rewrite <- (get_tmap compareTuple) by done. symmetry. by apply (get_in compareTuple). }
  split.
  - apply (NoDup_fmap_1 rt_tuple). rewrite <- list_fmap_compose.
    assert (E : rt_tuple ∘ snd <$> List.filter (fun kv => in_bucket (tq_resource query) (tq_relation query) kv.1)
      (elements (dv_tuples version)) = fst <$> List.filter (fun kv => in_bucket (tq_resource query) (tq_relation query) kv.1)
      (elements (dv_tuples version))).
    { apply list_fmap_ext. intros i [k t] Hi%list_elem_of_lookup_2%list_elem_of_In%List.filter_In.
      destruct Hi as [Hi%list_elem_of_In%Hin _]. simpl. by apply Hk in Hi as [-> _]. }
    rewrite E. apply (sublist_NoDup _ (fst <$> elements (dv_tuples version))); [by apply (bst_nodup compareTuple)|].
    apply fmap_sublist, lfilter_sublist.
  - intros t. split.
    + intros ([k t'] & -> & Hi%list_elem_of_In%List.filter_In)%list_elem_of_fmap.
      destruct Hi as [Hi%list_elem_of_In%Hin Hbk%in_bucket_spec]. simpl in *.
      destruct (Hk _ _ Hi) as [-> _]. done.
    + intros (Hf & Hr & Hrel). apply list_elem_of_fmap. exists (rt_tuple t, t). split; [done|].
      apply list_elem_of_In, List.filter_In. split; [by apply list_elem_of_In, Hin|]. by apply in_bucket_spec.
Qed.

Lemma stored_valid version tuples attributes query :
  version_rep version tuples attributes ->
  Forall (fun t => RelationshipTuple_valid t = true)
    (bucket (tq_resource query) (tq_relation query) (dv_tuples version)).
Proof.
  intros Hv. apply Forall_forall. intros t Ht. apply (bucket_facts _ _ _ query Hv) in Ht as [Ht _].
  destruct Hv as (_ & _ & _ & _ & Hk & _). by apply Hk in Ht as [_ ?].
Qed.

(** The integrity check of the result constructor accepts stored subjects. *)
Lemma live_valid query readAt stored :
  Forall (fun t => RelationshipTuple_valid t = true) stored ->
  (forall t, t ∈ stored -> tup_Resource (rt_tuple t) = tq_resource query /\ tup_Relation (rt_tuple t) = tq_relation query) ->
  forallb (fun subject => is_ok (NewRelationshipTuple
    (mkTuple (tq_resource query) (tq_relation query) subject) None)) (live readAt stored) = true.
Proof.
  intros Hv Hq. apply forallb_forall. intros x (t & <- & Ht%List.filter_In)%in_map_iff. destruct Ht as [Ht%list_elem_of_In _].
  destruct (Hq t Ht) as [<- <-]. rewrite Forall_forall in Hv. specialize (Hv t Ht).
  destruct t as [[r rel su] e h]. unfold RelationshipTuple_valid, NewRelationshipTuple in *. cbn [rt_tuple tup_Resource tup_Relation tup_Subject] in *.
  rewrite !andb_true_iff in Hv. destruct Hv as [[Hv _] _]. by destruct (validateDSLRelationship _).
Qed.

Lemma query_version_answers ctx query readAt version tuples attributes :
  version_rep version tuples attributes -> usable ctx -> TupleQuery_Valid query = true ->
  exists stored, lists_facts tuples query stored /\
    tuple_answer query readAt stored (query_version ctx query readAt version).
Proof.
  intros Hv [_ Hd] Hq. eexists. split; [by eapply bucket_facts|].
  assert (Hb : bst compareTuple (dv_tuples version)) by apply Hv.
  unfold query_version. rewrite queryTupleBucket_exact by done.
  set (stored := bucket _ _ _). assert (Hlim : 0 <= tq_limit query).
  { unfold TupleQuery_Valid, NewTupleQuery in Hq. destruct (Z.leb_spec (tq_limit query) 0); [done|lia]. }
  assert (Hscan := scan_bucket ctx (tq_limit query) readAt Hd stored [] 0 ltac:(by vm_compute) Hlim).
  destruct (fold_stop _ _ stored) as [sc ok]. destruct Hscan as [-> Hscan].
  change (zlen (@nil SubjectRef)) with 0 in Hscan. rewrite !Z.add_0_l in Hscan.
  destruct (sc_workExhausted sc || sc_resultExhausted sc); [split; [done|tauto]|].
  destruct Hscan as (-> & Hw & Hl). cbn [app].
  assert (Hvalid : forallb (fun subject => is_ok (NewRelationshipTuple
    (mkTuple (tq_resource query) (tq_relation query) subject) None)) (live readAt stored) = true).
  { apply live_valid; [by eapply stored_valid|]. intros t Ht. by apply (bucket_facts _ _ _ query Hv). }
  assert (Ht := NewTupleResult_total query _ Hq Hl Hvalid). rewrite Hd.
  destruct (Z.leb_spec (tupleResultCost query (live readAt stored)) MaxAggregateOutputBytes) as [Hc|Hc].
  - destruct Ht as [r E]. rewrite E. destruct (NewTupleResult_Ok _ _ _ E) as (? & ? & ?).
    cbn [rbind]. repeat split; try done; apply H1.
  - rewrite Ht. split; [done|]. tauto.
Qed.

(** * Opening *)

Section Reads.
Context `{D : Dsl} `{H : Hmac}.

(** [view] pins the facts that the namespace of [request] holds in [s]. *)
Record pins (request : SnapshotRequest) (s : Store) (view : snapshot) (version : dataVersion) : Prop := {
  pn_fresh : fresh_snapshot view version;
  pn_fields : sn_namespace view = sr_namespace request /\ sn_minimum view = sr_minimumGeneration request /\
    sn_readAt view = sr_readAt request;
  pn_generation : sn_generation view = namespace_generation s (sr_namespace request) /\
    sr_minimumGeneration request <= sn_generation view;
  pn_facts : forall tuples attributes, namespace_facts s (sr_namespace request) tuples attributes ->
    version_rep version tuples attributes
}.

Lemma empty_version_rep ref generation : version_rep (mkDataVersion ref generation Leaf Leaf) ∅ ∅.
Proof.
  repeat split; try done; try constructor; try apply attributes_rep_empty.
Qed.

Lemma open_attempt_pins request s view :
  open_attempt request s = inl view -> exists version, pins request s view version.
Proof.
  unfold open_attempt. fold (namespace_generation s (sr_namespace request)).
  destruct (Z.leb_spec (sr_minimumGeneration request) (namespace_generation s (sr_namespace request))); [|done].
  intros [= <-]. eexists. split; try done. simpl. unfold namespace_facts.
  destruct (st_data s !! sr_namespace request); [done|]. intros ? ? [-> ->]. apply empty_version_rep.
Qed.

Lemma OpenSnapshot_pins ctx request s view s' :
  OpenSnapshot ctx request s = Some (Ok view, s') -> s' = s /\ exists version, pins request s view version.
Proof.
  unfold OpenSnapshot. destruct (safeContextError (ctx_err ctx 0)) as [[]|]; [|done].
  destruct (SnapshotRequest_Valid request); [|done]. cbn [negb].
  destruct (safeContextError (ctx_err ctx 1)) as [[]|]; [|done].
  destruct (open_attempt request s) as [v|[wait s1]] eqn:E.
  - destruct (safeContextError (ctx_err ctx 2)) as [[]|]; [|done]. intros [= <- <-].
    split; [done|by apply open_attempt_pins].
  - destruct (safeContextError (ctx_err ctx 3)) as [[]|]; [|done]. by destruct (ctx_done ctx 4).
Qed.

(** The frame of a read at any point of the snapshot's lifecycle. *)
Lemma admitted_read_at {A} ctx valid (body : dataVersion -> result A) opened version c :
  lifecycle_ok opened version c -> usable ctx ->
  admitted_read ctx valid body (lc_view c) =
  Some (if negb valid then Err ErrorInvalidArgument
        else if sn_closing (lc_view c) then Err ErrorFailedPrecondition else body version, lc_view c).
Proof.
  intros [_ _ Ho _ _ _] [He _]. unfold admitted_read. rewrite !He. cbn [safeContextError rbind].
  destruct valid; cbn [negb]; [|done]. unfold snapshot_admit.
  destruct (sn_closing (lc_view c)) eqn:Ec; [done|]. destruct (Ho eq_refl) as (Hv & _ & _). rewrite Hv.
  unfold release, with_lifecycle. simpl. rewrite Z.add_simpl_r. destruct (lc_view c); simpl in *. by subst.
Qed.

(** C19: a snapshot query is exact. At every point of the lifecycle of a
    snapshot, and whatever the store has become since, [QueryTuples] answers
    from the facts of the namespace at opening: all subjects of the stored
    tuples of that resource and relation that are not expired at the read
    time, sorted and without duplicates, never a truncated list; if that
    exceeds the work, result or byte bound the answer is RESOURCE_EXHAUSTED.
    A stored fact never makes the read fail, and the lifecycle is left as the
    read found it. *)
Theorem snapshot_query_exact ctx request s view s' c ctx' query tuples attributes :
  OpenSnapshot ctx request s = Some (Ok view, s') ->
  namespace_facts s (sr_namespace request) tuples attributes ->
  rtc lifecycle_step (mkLifecycle view [] 0) c -> usable ctx' -> TupleQuery_Valid query = true ->
  exists stored answer, lists_facts tuples query stored /\
    QueryTuples ctx' query (lc_view c) = Some (answer, lc_view c) /\
    if sn_closing (lc_view c) then answer = Err ErrorFailedPrecondition
    else tuple_answer query (sr_readAt request) stored answer.
Proof.
  intros [_ [version Hp]]%OpenSnapshot_pins Hf Hr Hu Hq. apply (pn_facts _ _ _ _ Hp) in Hf.
  assert (Hok := lifecycle_reachable _ _ _ (pn_fresh _ _ _ _ Hp) Hr).
  destruct (query_version_answers ctx' query (sr_readAt request) version _ _ Hf Hu Hq) as (stored & Hs & Ha).
  exists stored. eexists. split; [done|]. split; [by apply (admitted_read_at _ _ _ view version)|].
  rewrite Hq. cbn [negb]. destruct (lo_fixed _ _ _ Hok) as (_ & _ & _ & ->).
  destruct (pn_fields _ _ _ _ Hp) as (_ & _ & ->). by destruct (sn_closing _).
Qed.

(** * Attributes *)

(** A lookup either finds the stored value or reports its absence; only the
    answer to an absent key near the byte bound may be refused. *)
Definition attribute_answer (attributes : gmap AttributeKey Attribute) (key : AttributeKey) : result AttributeResult :=
  match attributes !! key with
  | Some a => Ok (mkAttributeResult key (attr_value a) true true)
  | None => if attributeKeyCost key + 18 <=? MaxAggregateOutputBytes
            then Ok (mkAttributeResult key zero_value false true) else Err ErrorResourceExhausted
  end.

Lemma attribute_key_ok_spec key : attribute_key_ok key = true ->
  NewAttributeKeyPath (ak_entity key) (ak_path key) = Ok key.
Proof.
  unfold attribute_key_ok. destruct (NewAttributeKeyPath _ _) as [k|] eqn:E; [|done]. intros _.
  unfold NewAttributeKeyPath in E. repeat (apply rbind_ok in E as (? & _ & E)). injection E as <-. by destruct key.
Qed.

Lemma found_result key a :
  attribute_key_ok key = true -> attr_key a = key -> readable_attribute a ->
  NewAttributeResult key (attr_value a) true = Ok (mkAttributeResult key (attr_value a) true true).
Proof.
  intros Hk%attribute_key_ok_spec <- [Hv Hc]. unfold NewAttributeResult. rewrite Hk. cbn [negb].
  destruct a as [e p v]. cbn [attr_key attr_entity attr_path attr_value ak_entity ak_path] in *.
  unfold Attribute_valid in Hv. cbn [attr_entity attr_path attr_value] in Hv. rewrite !andb_true_iff in Hv.
  destruct Hv as [[H1%is_ok_unit H2%is_ok_unit] H3%is_ok_unit].
  unfold NewAttributePath. rewrite H1, H2, H3. cbn [rbind].
  destruct (addAttributeCost_costs (mkBudget 0 MaxAggregateInputBytes) (mkAttribute e p v)) as [_ ->]; [by vm_compute|].
  change MaxAggregateOutputBytes with MaxAggregateInputBytes in Hc.
  unfold charge. cbn [used max]. rewrite (proj2 (Z.leb_le _ _)) by lia. cbn [is_ok rbind negb].
  rewrite validateAttributeResultBytes_exact. change MaxAggregateOutputBytes with MaxAggregateInputBytes.
  rewrite (proj2 (Z.leb_le _ _)); [done|]. revert Hc.
  unfold attributeResultCost, attributeCost, attributeKeyCost, attr_key. cbn [attr_entity attr_path attr_value ak_entity ak_path]. lia.
Qed.

Lemma get_version_answers ctx key version tuples attributes :
  version_rep version tuples attributes -> usable ctx -> attribute_key_ok key = true ->
  get_version ctx key version = attribute_answer attributes key.
Proof.
  intros (_ & _ & _ & [_ Hm] & _ & Hk) [_ Hd] Hok. unfold get_version, attribute_answer. rewrite Hm, Hd.
  destruct (attributes !! key) as [a|] eqn:Ea.
  - apply Hk in Ea as [Ek Hr]. by rewrite (found_result key a).
  - unfold NewAttributeResult. rewrite (attribute_key_ok_spec key Hok). cbn [negb zero_value val_kind Z.eqb].
    rewrite validateAttributeResultBytes_exact. unfold attributeResultCost, valueCost. cbn [val_kind zero_value].
    change (0 =? ValueKindString) with false. rewrite !Z.add_0_r.
    replace (9 + 9) with 18 by done. by case_match.
Qed.

(** C20: attribute reads are exact: at every point of the lifecycle
    [GetAttribute] returns the very value the namespace held at opening for
    that entity and path, and [HasAttributeDescendant] whether some strictly
    longer path of the entity is occupied. Every attribute that a write was
    allowed to store can be read back: a stored value is never refused as
    malformed or too large. *)
Theorem snapshot_attributes_exact ctx request s view s' c ctx' key tuples attributes :
  OpenSnapshot ctx request s = Some (Ok view, s') ->
  namespace_facts s (sr_namespace request) tuples attributes ->
  rtc lifecycle_step (mkLifecycle view [] 0) c -> sn_closing (lc_view c) = false ->
  usable ctx' -> attribute_key_ok key = true ->
  GetAttribute ctx' key (lc_view c) = Some (attribute_answer attributes key, lc_view c) /\
  exists found, HasAttributeDescendant ctx' key (lc_view c) = Some (Ok found, lc_view c) /\
    (found = true <->
     exists p a, p <> [] /\ attributes !! mkAttributeKey (ak_entity key) (ak_path key ++ p) = Some a).
Proof.
  intros [_ [version Hp]]%OpenSnapshot_pins Hf Hr Hc Hu Hk. apply (pn_facts _ _ _ _ Hp) in Hf.
  assert (Hok := lifecycle_reachable _ _ _ (pn_fresh _ _ _ _ Hp) Hr).
  unfold GetAttribute, HasAttributeDescendant. rewrite !(admitted_read_at _ _ _ view version) by done.
  rewrite Hk, Hc. cbn [negb]. split.
  - by rewrite (get_version_answers ctx' key version tuples attributes).
  - rewrite (us_done _ Hu). eexists. split; [done|]. apply attributeHasDescendant_rep, Hf.
Qed.

(** * Reading one's own writes *)

Lemma OpenSnapshot_ready ctx request s :
  usable ctx -> SnapshotRequest_Valid request = true ->
  sr_minimumGeneration request <= namespace_generation s (sr_namespace request) ->
  exists view version, OpenSnapshot ctx request s = Some (Ok view, s) /\ pins request s view version.
Proof.
  intros [He _] Hv Hg. unfold OpenSnapshot. rewrite !He, Hv. cbn [safeContextError negb].
  destruct (open_attempt request s) as [view|[]] eqn:E.
  - destruct (open_attempt_pins _ _ _ E) as [version Hp]. by exists view, version.
  - unfold open_attempt in E. fold (namespace_generation s (sr_namespace request)) in E.
    by rewrite (proj2 (Z.leb_le _ _) Hg) in E.
Qed.

Lemma grown_facts s s' ns tuples attributes :
  grows s s' -> 1 <= namespace_generation s ns -> namespace_facts s ns tuples attributes ->
  namespace_generation s ns <= namespace_generation s' ns /\
  (namespace_generation s' ns = namespace_generation s ns -> namespace_facts s' ns tuples attributes).
Proof.
  intros Hg. unfold namespace_generation, namespace_facts. destruct (st_data s !! ns) as [d|] eqn:Ed; [|lia].
  intros _ Hf. destruct (gr_data _ _ Hg _ _ Ed) as (d' & -> & Hle & E). split; [done|]. intros Eg. by rewrite (E Eg).
Qed.

(** C18: a caller reads its own writes. After a committed write, in every later
    state of the store, a snapshot that asks for at least the generation the
    write returned opens without blocking; and as long as no further write
    has advanced the namespace, it pins precisely the old facts with the
    request's deletions and writes applied. *)
Theorem read_your_writes ctx clock request s response s1 s2 open ctx' tuples attributes :
  store_inv s -> 0 <= wd_expectedGeneration request <= MaxUint64 ->
  WriteData ctx clock request s = Some (Ok response, s1) -> wr_replayed response = false ->
  namespace_facts s (wd_namespace request) tuples attributes ->
  grows s1 s2 -> usable ctx' -> SnapshotRequest_Valid open = true ->
  sr_namespace open = wd_namespace request -> sr_minimumGeneration open = wr_generation response ->
  exists view version, OpenSnapshot ctx' open s2 = Some (Ok view, s2) /\ fresh_snapshot view version /\
    wr_generation response <= sn_generation view /\
    (sn_generation view = wr_generation response ->
     version_rep version (spec_tuples request tuples) (spec_attributes request attributes)).
Proof.
  intros Hi Hrange Hw Hrep Hf Hg Hu Hv Hns Hmin.
  apply write_effect_spec in Hw as (_ & _ & fp & _ & [(_ & Hr & _)|[_ Hc]]); [congruence| |done|done].
  assert (Hfacts := wc_facts _ _ _ _ _ Hc _ _ Hf). assert (Hgen := wc_generation _ _ _ _ _ Hc).
  assert (Hresp : wr_generation response = namespace_generation s1 (wd_namespace request)).
  { rewrite Hgen. by rewrite (wc_response _ _ _ _ _ Hc). }
  destruct (grown_facts s1 s2 (wd_namespace request) _ _ Hg ltac:(lia) Hfacts) as [Hle Hsame]. rewrite <- Hns in Hresp, Hle, Hsame.
  destruct (OpenSnapshot_ready ctx' open s2 Hu Hv ltac:(lia)) as (view & version & Ho & Hp).
  exists view, version. split; [done|]. split; [apply Hp|]. destruct (pn_generation _ _ _ _ Hp) as [Eg Hge].
  split; [lia|]. intros E. apply (pn_facts _ _ _ _ Hp), Hsame. congruence.
Qed.
End Reads.
