(* ===== verification/MemLists.v ===== *)
(** The paged reads of the memory store (store/memory/events.go, slots.go,
    revisions.go): which stretch of the retained list a page holds, and where
    its cursor resumes. *)

From Stdlib Require Import ZArith Lia Sorted.
From stdpp Require Import base list gmap strings sorting.
From S2P Require Import Prelude Limits Text Types Cost Canon Data Policy Events Revisions Avl Index Cursor Fingerprint MemState MemEvents MemOps MemData MemInv MemCommit MemProtocol.

(** * A page of a consecutively numbered list *)

Section Slices.
Context {A : Type} (seq : A -> Z).

Lemma take_seqZ k m n : take k (seqZ m n) = seqZ m (Z.min (Z.of_nat k) n).
Proof.
  apply list_eq. intros i. apply option_eq. intros z. rewrite lookup_take_Some, !lookup_seqZ. lia.
Qed.

(** [sort.Search] finds the first entry after [position]. *)
Lemma search_numbered l first position :
  map seq l = seqZ first (zlen l) ->
  Z.of_nat (search_list (fun x => position <? seq x) l) = Z.min (zlen l) (Z.max 0 (position - first + 1)).
Proof.
  intros Hl. assert (Hseq : forall i x, l !! i = Some x -> seq x = first + Z.of_nat i).
  { intros i x Hi. assert (E : map seq l !! i = Some (seq x)) by (by rewrite list_lookup_fmap, Hi).
    rewrite Hl in E. apply lookup_seqZ in E. lia. }
  destruct (search_list_split (fun x => position <? seq x) l) as (Hr & Hlo & Hhi).
  { intros i j x y Hij Hx%Hseq Hy%Hseq Hlt%Z.ltb_lt. apply Z.ltb_lt. lia. }
  set (r := search_list _ l) in *. rewrite Forall_lookup in Hlo, Hhi.
  assert (Lo : (0 < r)%nat -> first + Z.of_nat r - 1 <= position).
  { intros Hpos. destruct (lookup_lt_is_Some_2 l (r - 1)) as [x Hx]; [lia|].
    assert (Hs := Hseq _ _ Hx). specialize (Hlo (r - 1)%nat x). rewrite lookup_take_lt in Hlo by lia.
    specialize (Hlo Hx). apply Z.ltb_ge in Hlo. lia. }
  assert (Hi : (r < length l)%nat -> position < first + Z.of_nat r).
  { intros Hlt. destruct (lookup_lt_is_Some_2 l r Hlt) as [x Hx]. assert (Hs := Hseq _ _ Hx).
    specialize (Hhi 0%nat x). rewrite lookup_drop, Nat.add_0_r in Hhi. specialize (Hhi Hx). apply Z.ltb_lt in Hhi. lia. }
  unfold zlen. destruct (decide (0 < r)%nat), (decide (r < length l)%nat); lia.
Qed.

(** The page [values[start:end]] of at most [limit] entries after [position]. *)
Lemma numbered_page l first position limit :
  map seq l = seqZ first (zlen l) -> 0 <= limit ->
  let start := search_list (fun x => position <? seq x) l in
  let finish := Nat.min (start + Z.to_nat limit) (length l) in
  let page := take (finish - start) (drop start l) in
  let from := Z.max (position + 1) first in
  map seq page = seqZ from (Z.max 0 (Z.min limit (first + zlen l - from))) /\
  (Nat.ltb finish (length l) = true <-> from + limit < first + zlen l).
Proof.
  intros Hl Hlim. cbv zeta. assert (Hs := search_numbered l first position Hl).
  set (r := search_list _ l) in *. split.
  - rewrite <- firstn_map, <- skipn_map, Hl, drop_seqZ, take_seqZ. unfold zlen in *.
    destruct (decide (Z.of_nat r = Z.of_nat (length l))) as [E|E].
    + replace (Z.max 0 _) with 0 by lia. replace (Z.min _ _) with 0 by lia. done.
    + f_equal; lia.
  - rewrite Nat.ltb_lt. unfold zlen in *. lia.
Qed.
End Slices.

(** * Events *)

Section Events.
Context `{D : Dsl} `{H : Hmac}.

Lemma event_position s ns e :
  store_inv s -> event_ok (st_cursorKey s) (st_cursorKeyOK s) ns e -> 0 <= er_sequence e <= MaxUint64 ->
  cursorPositionLocked (st_cursorKey s) (st_cursorKeyOK s) (ev_cursor (er_value e)) "event" ns "" = Ok (er_sequence e).
Proof.
  intros Hi (_ & _ & Hc) Hr. unfold cursorPositionLocked.
  rewrite (minted_accepted _ _ _ _ 3 "event" ns "" Hc); try done; by vm_compute.
Qed.

(** A stored event is small: its cursor and revision identifier have a fixed
    size. *)
Lemma event_cost_bound s ns e :
  event_ok (st_cursorKey s) (st_cursorKeyOK s) ns e -> stateEventCost (er_value e) <= 2400.
Proof.
  intros (Hv & _ & Hc).
  assert (Hcur : len (ev_cursor (er_value e)) = 96).
  { destruct (newCursor_Ok _ _ _ _ Hc) as (d & _ & _ & _ & _ & Hs & Hb & _).
    rewrite Hs, <- zlen_bytes_of_string, bytes_of_string_of_bytes by by apply b64_encode_bytes.
    rewrite b64_encode_len. unfold zlen. rewrite length_app, hmac_len.
    destruct (payload_fields (st_cursorKey s) d (mkCursorState "event" ns "" (er_sequence e) 0 "")) as (-> & _). done. }
  unfold StateEvent_valid, validNamespace, validIdentifier in Hv.
  destruct (is_ok (validateNamespace _)) eqn:E1; [|done]. apply is_ok_unit, valid_namespace_len in E1.
  destruct (is_ok (validateIdentifier (ev_cursor _))); [|done]. destruct (IsZero _); [done|].
  destruct (is_ok (addStateEventCost _ _)); [|done]. cbn [negb orb] in Hv.
  assert (Hid : len (ev_revisionID (er_value e)) <= 64 /\ len (ev_slot (er_value e)) <= 1024).
  { repeat case_match; try done; rewrite !andb_true_iff, ?bool_decide_eq_true in Hv;
      destruct Hv as [[[Ha Hb] _] _].
    - apply validRevisionIDString_hex in Ha as [-> _]. by rewrite Hb.
    - apply validRevisionIDString_hex in Ha as [-> _]. by apply is_ok_unit, valid_identifier_len in Hb.
    - by rewrite Ha, Hb. }
  unfold stateEventCost, sum_cost, textCost. cbn [map foldr]. unfold MaxNamespaceBytes, MaxIdentifierBytes in *. lia.
Qed.

Lemma event_page_fits s ns page next :
  Forall (event_ok (st_cursorKey s) (st_cursorKeyOK s) ns) page -> zlen page <= 1000 -> len next <= MaxIdentifierBytes ->
  exists b, addEventPageCost event_budget (map er_value page) next = Ok b.
Proof.
  intros Hp Hl Hn. assert (Hc : sum_cost stateEventCost (map er_value page) <= 2400 * zlen page).
  { clear Hl. induction Hp as [|e page He _ IH]; [done|]. rewrite zlen_cons. cbn [map sum_cost foldr].
    apply event_cost_bound in He. unfold sum_cost in IH. lia. }
  assert (E : addEventPageCost event_budget (map er_value page) next =
    charge event_budget (8 + (textCost next + sum_cost stateEventCost (map er_value page)))).
  { assert (budget_ok event_budget) by by vm_compute. unfold addEventPageCost. solve_charges. }
  rewrite E. unfold charge, event_budget. cbn [used max]. rewrite (proj2 (Z.leb_le _ _)); [by eexists|].
  unfold textCost, MaxIdentifierBytes in *. change MaxEventPageBytes with 4194304. lia.
Qed.

(** Distinct sequence numbers carry distinct cursors. *)
Lemma event_page_valid s ns page first n :
  store_inv s -> Forall (event_ok (st_cursorKey s) (st_cursorKeyOK s) ns) page ->
  map er_sequence page = seqZ first n -> Forall (fun e => 0 <= er_sequence e <= MaxUint64) page ->
  event_page_loop ns ∅ (map er_value page) = true.
Proof.
  intros Hi Hp Hs Hr. apply event_page_loop_spec. split; [|split; [|set_solver]].
  - apply Forall_map. eapply Forall_impl; [exact Hp|]. by intros e (? & ? & _).
  - apply (NoDup_fmap_1 (fun c => cursorPositionLocked (st_cursorKey s) (st_cursorKeyOK s) c "event" ns "")).
    assert (E : (fun c => cursorPositionLocked (st_cursorKey s) (st_cursorKeyOK s) c "event" ns "") <$>
      (ev_cursor <$> map er_value page) = Ok <$> map er_sequence page).
    { clear Hs. induction page as [|e page IH]; [done|]. apply Forall_cons in Hp as [Hp1 Hp], Hr as [Hr1 Hr].
      cbn [map fmap list_fmap]. f_equal; [by apply event_position|by apply IH]. }
    rewrite E, Hs. apply NoDup_fmap_2; [by intros ? ? [=]|apply NoDup_seqZ].
Qed.

Lemma events_request_accepted request :
  ListEventsRequest_valid request = true ->
  is_ok (NewListEventsRequest (le_namespace request) (le_afterCursor request) (le_limit request)) = true /\
  0 < le_limit request <= 1000.
Proof.
  unfold ListEventsRequest_valid, NewListEventsRequest, validNamespace. rewrite !andb_true_iff.
  intros [[[H1%is_ok_unit H2%is_ok_unit] H3%Z.ltb_lt] H4%Z.leb_le]. rewrite H1, H2. cbn [rbind].
  rewrite (proj2 (Z.leb_gt _ _) H3), (proj2 (Z.ltb_ge _ _) H4). done.
Qed.

(** The page of a stream after [position]: [limit] events at most. *)
Definition stream_page (s : Store) (ns : string) (position limit : Z) (events : list StateEvent) (next : string) : Prop :=
  let st := stream s ns in
  let from := Z.max (position + 1) (es_expiredThrough st + 1) in
  exists page, events = map er_value page /\ Forall (fun e => e ∈ es_values st) page /\
    map er_sequence page = seqZ from (Z.max 0 (Z.min limit (highWater st + 1 - from))) /\
    if from + limit <=? highWater st
    then cursorPositionLocked (st_cursorKey s) (st_cursorKeyOK s) next "event" ns "" = Ok (from + limit - 1) /\ next <> ""%string
    else next = ""%string.

Lemma stream_inv s ns : store_inv s ->
  stream_ok (st_cursorKey s) (st_cursorKeyOK s) ns 0 (st_effectiveTime s) (stream s ns).
Proof.
  intros Hi. unfold stream. destruct (st_events s !! ns) as [st|] eqn:E; [by apply (si_events s Hi)|apply stream_empty].
Qed.

Lemma stream_event s ns e : store_inv s -> e ∈ es_values (stream s ns) ->
  event_ok (st_cursorKey s) (st_cursorKeyOK s) ns e /\ 0 <= er_sequence e <= MaxUint64.
Proof.
  intros Hi%(stream_inv s ns) He. assert (H0 := so_expired _ _ _ _ _ _ Hi). assert (H2 := so_bound _ _ _ _ _ _ Hi).
  assert (H5 := so_events _ _ _ _ _ _ Hi). rewrite Forall_forall in H5.
  split; [by apply H5|]. apply list_elem_of_lookup in He as [i Hi']. assert (Hs := stream_sequence _ _ _ _ _ _ _ _ Hi Hi').
  apply lookup_lt_Some in Hi'. unfold zlen in H2. lia.
Qed.

Lemma last_seqZ m n : 0 < n -> last (seqZ m n) = Some (m + n - 1).
Proof.
  intros Hn. rewrite last_lookup, length_seqZ. apply lookup_seqZ. lia.
Qed.

(** The cursor of a full page resumes after its last event. *)
Lemma page_cursor s ns page from limit :
  store_inv s -> Forall (fun e => e ∈ es_values (stream s ns)) page -> map er_sequence page = seqZ from limit ->
  0 < limit ->
  exists e, last (map er_value page) = Some e /\ validateIdentifier (ev_cursor e) = Ok tt /\
    cursorPositionLocked (st_cursorKey s) (st_cursorKeyOK s) (ev_cursor e) "event" ns "" = Ok (from + limit - 1) /\
    ev_cursor e <> ""%string.
Proof.
  intros Hi Hin Hs Hl. assert (El : last (map er_sequence page) = Some (from + limit - 1)) by (rewrite Hs; by apply last_seqZ).
  rewrite last_map in El. rewrite last_map. destruct (last page) as [e|] eqn:Ee; [|done]. injection El as El. exists (er_value e).
  split; [done|]. apply last_Some_elem_of in Ee. rewrite Forall_forall in Hin.
  destruct (stream_event s ns e Hi (Hin e Ee)) as [Hok Hr]. split; [destruct Hok as (_ & _ & Hc); by eapply minted_identifier|]. split.
  - rewrite <- El. by apply event_position.
  - destruct Hok as (_ & _ & Hc). by destruct (newCursor_Ok _ _ _ _ Hc) as (d & _ & _ & _ & _ & _ & _ & _ & Hne).
Qed.

(** The cut of one page out of the stream, and the response it makes. *)
Lemma page_response s request position :
  store_inv s -> ListEventsRequest_valid request = true ->
  let values := es_values (stream s (le_namespace request)) in
  let start := search_list (fun e => position <? er_sequence e) values in
  let finish := Nat.min (start + Z.to_nat (le_limit request)) (length values) in
  let page := map er_value (take (finish - start) (drop start values)) in
  let next := if Nat.ltb finish (length values)
              then match last page with Some e => ev_cursor e | None => ""%string end else ""%string in
  NewListEventsResponse request page next = Ok (mkListEventsResponse true request page next) /\
  stream_page s (le_namespace request) position (le_limit request) page next.
Proof.
  intros Hi Hv. destruct (events_request_accepted request Hv) as [_ Hlim].
  assert (Hst := stream_inv s (le_namespace request) Hi). cbv zeta.
  set (ns := le_namespace request) in *. set (st := stream s ns) in *.
  assert (Hhigh := stream_highWater _ _ _ _ _ _ Hst).
  destruct (numbered_page er_sequence (es_values st) (es_expiredThrough st + 1) position (le_limit request)
    (so_sequences _ _ _ _ _ _ Hst) ltac:(lia)) as [Hpage Hmore].
  revert Hpage Hmore. set (start := search_list _ _). set (finish := Nat.min _ _).
  set (page := take _ _). intros Hpage Hmore.
  match goal with |- NewListEventsResponse _ _ ?x = _ /\ _ => set (next := x) end.
  assert (Hin : Forall (fun e => e ∈ es_values st) page).
  { apply Forall_forall. intros e He. unfold page in He. apply elem_of_take in He as (i & Hi' & _).
    rewrite lookup_drop in Hi'. by eapply list_elem_of_lookup_2. }
  assert (Hok : Forall (event_ok (st_cursorKey s) (st_cursorKeyOK s) ns) page /\
    Forall (fun e => 0 <= er_sequence e <= MaxUint64) page).
  { split; (eapply Forall_impl; [exact Hin|]); intros e He; by apply (stream_event s ns e Hi). }
  destruct Hok as [Hok Hrange]. assert (Hlen : zlen page <= le_limit request).
  { assert (E : length (map er_sequence page) = length page) by apply length_map.
    rewrite Hpage, length_seqZ in E. unfold zlen. lia. }
  set (from := Z.max (position + 1) (es_expiredThrough st + 1)) in *.
  replace (es_expiredThrough st + 1 + zlen (es_values st)) with (highWater st + 1) in Hpage, Hmore by lia.
  assert (Hnext : (validateOptionalIdentifier next = Ok tt /\ len next <= MaxIdentifierBytes) /\
    if from + le_limit request <=? highWater st
    then cursorPositionLocked (st_cursorKey s) (st_cursorKeyOK s) next "event" ns "" = Ok (from + le_limit request - 1)
         /\ next <> ""%string
    else next = ""%string).
  { unfold next. destruct (Nat.ltb finish _) eqn:Ef.
    - assert (Hm : from + le_limit request < highWater st + 1) by by apply Hmore.
      rewrite (proj2 (Z.leb_le _ _)) by lia.
      replace (Z.max 0 _) with (le_limit request) in Hpage by lia.
      destruct (page_cursor s ns page _ _ Hi Hin Hpage ltac:(lia)) as (e & -> & He & Hp & Hne).
      split; [|done]. split; [by apply identifier_optional|by apply valid_identifier_len].
    - split; [by vm_compute|]. destruct (Z.leb_spec (from + le_limit request) (highWater st)) as [Hle|]; [|done].
      exfalso. assert (false = true); [|done]. apply Hmore. lia. }
  destruct Hnext as [[Hid Hnlen] Hnext]. split.
  - unfold NewListEventsResponse. rewrite Hv. cbn [negb].
    assert (Hz : zlen (map er_value page) = zlen page) by (unfold zlen; by rewrite length_map). rewrite Hz.
    rewrite (proj2 (Z.ltb_ge _ _) Hlen), !(proj2 (Z.ltb_ge _ (zlen page))) by (unfold MaxEventPageItems, MaxPageResponseItems; lia).
    cbn [orb]. destruct (event_page_fits s ns page next Hok ltac:(lia) Hnlen) as [b ->]. cbn [rbind]. rewrite Hid. cbn [rbind].
    unfold validEventPage. fold ns. by rewrite (event_page_valid s _ page _ _ Hi Hok Hpage Hrange).
  - by exists page.
Qed.

Lemma list_events_spec ctx now request s position :
  store_inv s -> usable ctx -> 0 < now -> ListEventsRequest_valid request = true ->
  cursorPositionLocked (st_cursorKey s) (st_cursorKeyOK s) (le_afterCursor request) "event" (le_namespace request) ""
    = Ok position ->
  exists answer s', ListEvents ctx (Some now) request s = (answer, s') /\ store_inv s' /\ st_cursorKey s' = st_cursorKey s /\
    highWater (stream s' (le_namespace request)) = highWater (stream s (le_namespace request)) /\
    if bool_decide (le_afterCursor request <> ""%string) &&
       (position <=? es_expiredThrough (stream s' (le_namespace request)))
    then answer = Err ErrorCursorExpired
    else exists events next, answer = Ok (mkListEventsResponse true request events next) /\
      stream_page s' (le_namespace request) position (le_limit request) events next.
Proof.
  intros Hi Hu Hn Hv Hpos. destruct (events_request_accepted request Hv) as [Hacc _].
  unfold ListEvents. rewrite !(us_err _ Hu), Hacc, Hpos. cbn [safeContextError rbind negb store_now].
  unfold IsZero. destruct (Z.eqb_spec now 0); [lia|]. cbn [rbind].
  destruct (effectiveTimeLocked now s) as [t s1] eqn:Et. apply effectiveTime_spec in Et as (_ & Ht & _ & ->).
  assert (Hi1 : store_inv (with_effectiveTime t s)) by by apply time_inv.
  assert (Hi2 := prune_inv _ (le_namespace request) t Hi1).
  assert (Hh := prune_high _ (le_namespace request) t (le_namespace request) Hi1).
  set (s' := pruneEventsLocked _ _ _) in *. eexists _, s'. split; [reflexivity|]. split; [done|].
  split; [unfold s'; by rewrite (prune_frame (le_namespace request) t (with_effectiveTime t s))|]. split; [done|].
  assert (Ev : match st_events s' !! le_namespace request with Some st => es_values st | None => [] end
    = es_values (stream s' (le_namespace request))) by (unfold stream; by destruct (st_events s' !! _)).
  assert (Ee : match st_events s' !! le_namespace request with Some st => es_expiredThrough st | None => 0 end
    = es_expiredThrough (stream s' (le_namespace request))) by (unfold stream; by destruct (st_events s' !! _)).
  rewrite Ev, Ee. destruct (_ && _); [done|].
  destruct (page_response s' request position Hi2 Hv) as [Hr Hp]. eexists _, _. split; [exact Hr|exact Hp].
Qed.

(** C30: an event page is exact. For a usable context [ListEvents] answers
    CURSOR_EXPIRED exactly when a cursor was given whose position retention has
    already passed; otherwise it succeeds and returns the retained events of
    the namespace from the first one after the cursor on, in sequence order
    without gaps, [limit] of them or all that exist, and its next cursor is
    empty when the page reaches the end of the stream and else resumes after
    the last event of the page. Reading never loses a sequence number. *)
Theorem events_page_exact ctx now request s position :
  store_inv s -> usable ctx -> 0 < now -> ListEventsRequest_valid request = true ->
  cursorPositionLocked (st_cursorKey s) (st_cursorKeyOK s) (le_afterCursor request) "event" (le_namespace request) ""
    = Ok position ->
  exists answer s', ListEvents ctx (Some now) request s = (answer, s') /\ store_inv s' /\
    highWater (stream s' (le_namespace request)) = highWater (stream s (le_namespace request)) /\
    if bool_decide (le_afterCursor request <> ""%string) &&
       (position <=? es_expiredThrough (stream s' (le_namespace request)))
    then answer = Err ErrorCursorExpired
    else exists events next, answer = Ok (mkListEventsResponse true request events next) /\
      stream_page s' (le_namespace request) position (le_limit request) events next.
Proof.
  intros Hi Hu Hn Hv Hpos. destruct (list_events_spec ctx now request s position Hi Hu Hn Hv Hpos)
    as (answer & s' & Hr & Hi' & _ & Hspec). by exists answer, s'.
Qed.

(** The sequence number that an event's cursor names. *)
Definition event_number (s : Store) (ns : string) (e : StateEvent) : result Z :=
  cursorPositionLocked (st_cursorKey s) (st_cursorKeyOK s) (ev_cursor e) "event" ns "".

Lemma page_numbers s ns position limit events next :
  store_inv s -> stream_page s ns position limit events next ->
  let from := Z.max (position + 1) (es_expiredThrough (stream s ns) + 1) in
  map (event_number s ns) events = map Ok (seqZ from (Z.max 0 (Z.min limit (highWater (stream s ns) + 1 - from)))).
Proof.
  intros Hi (page & -> & Hin & Hs & _). cbv zeta. rewrite <- Hs, !map_map. apply map_ext_in. intros e He.
  rewrite Forall_forall in Hin. apply list_elem_of_In in He.
  destruct (stream_event s ns e Hi (Hin e He)) as [Hok Hr]. by apply event_position.
Qed.

(** C37: a consumer that follows cursors sees every event once and in order. If
    a page comes with a next cursor, then a read with that cursor, in any
    later state of the same store, either reports CURSOR_EXPIRED or returns
    events whose numbers continue exactly where the page ended; nothing is
    skipped or repeated between the two pages. *)
Theorem event_feed_gapless ctx now request s events next s' ctx' now' limit s2 :
  store_inv s -> usable ctx -> 0 < now -> ListEventsRequest_valid request = true ->
  ListEvents ctx (Some now) request s = (Ok (mkListEventsResponse true request events next), s') ->
  next <> ""%string ->
  store_inv s2 -> st_cursorKey s2 = st_cursorKey s -> usable ctx' -> 0 < now' ->
  let request' := mkListEventsRequest (le_namespace request) next limit in
  ListEventsRequest_valid request' = true ->
  fst (ListEvents ctx' (Some now') request' s2) = Err ErrorCursorExpired \/
  exists events' next' first n n',
    fst (ListEvents ctx' (Some now') request' s2) = Ok (mkListEventsResponse true request' events' next') /\
    0 < n /\ map (event_number s (le_namespace request)) events = map Ok (seqZ first n) /\
    map (event_number s (le_namespace request)) events' = map Ok (seqZ (first + n) n').
Proof.
  intros Hi Hu Hn Hv Hrun Hne Hi2 Hk Hu2 Hn2 request' Hv'.
  set (ns := le_namespace request).
  destruct (cursorPositionLocked (st_cursorKey s) (st_cursorKeyOK s) (le_afterCursor request) "event" ns "")
    as [position|e] eqn:Hpos.
  2:{ unfold ListEvents in Hrun. fold ns in Hrun. rewrite Hpos in Hrun. destruct (safeContextError _); [|done].
      cbn [rbind] in Hrun. by destruct (is_ok (NewListEventsRequest _ _ _)). }
  destruct (list_events_spec ctx now request s position Hi Hu Hn Hv Hpos) as (answer & x & Hr & Hi' & Hk' & _ & Hspec).
  rewrite Hrun in Hr. injection Hr as <- <-. destruct (bool_decide _ && _); [done|].
  destruct Hspec as (ev & nx & [= <- <-] & Hpage). assert (Hnum := page_numbers _ _ _ _ _ _ Hi' Hpage).
  destruct Hpage as (page & _ & _ & _ & Hnext). fold ns in Hnum, Hnext. cbv zeta in Hnum.
  revert Hnum Hnext. set (from := Z.max _ _). intros Hnum Hnext.
  destruct (Z.leb_spec (from + le_limit request) (highWater (stream s' ns))) as [Hmore|]; [|done]. destruct Hnext as [Hnext _].
  destruct (events_request_accepted _ Hv) as [_ Hlim].
  replace (Z.max 0 _) with (le_limit request) in Hnum by lia.
  assert (Ek : forall x, store_inv x -> st_cursorKey x = st_cursorKey s -> event_number x ns = event_number s ns /\
    forall c, cursorPositionLocked (st_cursorKey x) (st_cursorKeyOK x) c "event" ns "" =
              cursorPositionLocked (st_cursorKey s) (st_cursorKeyOK s) c "event" ns "").
  { intros x Hx Hxk. unfold event_number. by rewrite Hxk, (si_key x Hx), (si_key s Hi). }
  rewrite (proj1 (Ek s' Hi' Hk')) in Hnum. rewrite (proj2 (Ek s' Hi' Hk')) in Hnext.
  rewrite <- (proj2 (Ek s2 Hi2 Hk)) in Hnext.
  destruct (list_events_spec ctx' now' request' s2 _ Hi2 Hu2 Hn2 Hv' Hnext) as (answer & x & -> & Hix & Hkx & _ & Hspec).
  cbn [fst]. rewrite bool_decide_eq_true_2 in Hspec by done. cbn [andb] in Hspec.
  destruct (Z.leb_spec (from + le_limit request - 1) (es_expiredThrough (stream x (le_namespace request')))) as [|Hlive]; [by left|].
  right. destruct Hspec as (events' & next' & -> & Hpage). apply page_numbers in Hpage; [|done]. cbv zeta in Hpage.
  cbn [le_namespace request'] in Hpage, Hlive. fold ns in Hpage, Hlive.
  rewrite (proj1 (Ek x Hix (eq_trans Hkx Hk))) in Hpage.
  eexists events', next', from, (le_limit request), _. split; [done|]. split; [lia|]. split; [exact Hnum|].
  rewrite Hpage. replace (Z.max (from + le_limit request - 1 + 1) (es_expiredThrough (stream x ns) + 1))
    with (from + le_limit request) by lia. reflexivity.
Qed.
End Events.

(** * Revisions *)

(** The records of a namespace in publication order. *)
Definition records (s : Store) (ns : string) : list RevisionRecord :=
  map snd (elements (revision_root s ns)).

Lemma matching_start root after : matching after false root = map snd (elements root).
Proof.
  unfold matching. f_equal. induction (elements root) as [|x l IH]; [done|]. simpl. by rewrite IH.
Qed.

(** Continuing after the key of an entry leaves exactly the entries behind it. *)
Lemma matching_resume root i k r :
  bst compareRevisionKey root -> elements root !! i = Some (k, r) ->
  matching k true root = drop (S i) (map snd (elements root)).
Proof.
  unfold matching, bst. intros Hb Hi. rewrite <- (take_drop_middle _ _ _ Hi) in Hb.
  rewrite map_app in Hb. cbn [map fst] in Hb. destruct (sorted_app_inv compareRevisionKey _ _ _ Hb) as (_ & _ & Hlo & Hhi).
  rewrite <- (take_drop_middle _ _ _ Hi) at 1. rewrite List.filter_app. cbn [List.filter].
  assert (E : compareRevisionKey k k = Eq) by apply (tc_refl compareRevisionKey).
  rewrite (matching_skip k true _ k); [|by rewrite E|exact Hlo].
  unfold after_key at 1. cbn [fst andb]. rewrite E. cbn [cmp_le negb app].
  assert (Hall : List.filter (after_key k true) (drop (S i) (elements root)) = drop (S i) (elements root)).
  { clear -Hhi. induction (drop (S i) (elements root)) as [|[k' r'] l IH]; [done|]. cbn [map fst] in Hhi.
    apply Forall_cons in Hhi as [H1 H2]. cbn [List.filter]. unfold after_key at 1. cbn [fst andb].
    assert (E : compareRevisionKey k' k = Gt) by by apply (tc_gt_lt compareRevisionKey).
    rewrite E. cbn [cmp_le negb]. f_equal. by apply IH. }
  rewrite Hall. symmetry. apply skipn_map.
Qed.

Definition revisionMetadataCost (m : RevisionMetadata) : Z := textCost (rm_namespace m) + (72 + 48).

Lemma addRevisionMetadataCost_costs : costs addRevisionMetadataCost revisionMetadataCost.
Proof.
  intros b x Hb. unfold revisionMetadataCost. split; [solve_nonneg|]. unfold addRevisionMetadataCost.
  change 72 with (8 + 64). change 48 with (8 + 40). solve_charges.
Qed.
#[export] Hint Resolve addRevisionMetadataCost_costs : costs.

Lemma revision_page_fits page next :
  Forall (fun m => RevisionMetadata_valid m = true) page -> zlen page <= 1000 -> len next <= MaxIdentifierBytes ->
  exists b, addRevisionPageCost output_budget page next = Ok b.
Proof.
  intros Hp Hl Hn. assert (Hc : sum_cost revisionMetadataCost page <= 1152 * zlen page).
  { clear Hl. induction Hp as [|m page Hm _ IH]; [done|]. rewrite zlen_cons. cbn [sum_cost foldr].
    assert (E : len (rm_namespace m) <= 1024).
    { unfold RevisionMetadata_valid, validNamespace in Hm. destruct (is_ok (validateNamespace _)) eqn:E; [|done].
      by apply is_ok_unit, valid_namespace_len in E. }
    unfold revisionMetadataCost at 1, textCost. unfold sum_cost in IH. lia. }
  assert (E : addRevisionPageCost output_budget page next =
    charge output_budget (8 + (textCost next + sum_cost revisionMetadataCost page))).
  { assert (budget_ok output_budget) by by vm_compute. unfold addRevisionPageCost. solve_charges. }
  rewrite E. unfold charge, output_budget. cbn [used max]. rewrite (proj2 (Z.leb_le _ _)); [by eexists|].
  unfold textCost, MaxIdentifierBytes in *. change MaxAggregateOutputBytes with 4194304. lia.
Qed.

Lemma key_published r r' :
  clt compareRevisionKey (revisionKeyFor r) (revisionKeyFor r') -> published_before (rw_metadata r) (rw_metadata r').
Proof.
  unfold clt, compareRevisionKey, revisionKeyFor, published_before. cbn [rk_publishedAt rk_id].
  destruct (Z.ltb_spec (rm_publishedAt (rw_metadata r)) (rm_publishedAt (rw_metadata r'))); [by left|].
  destruct (Z.ltb_spec (rm_publishedAt (rw_metadata r')) (rm_publishedAt (rw_metadata r))); [done|].
  intros E. right. split; [lia|done].
Qed.

Section Revisions.
Context `{D : Dsl} `{H : Hmac}.

Lemma mint_revision key ns id t :
  validRevisionIDString id = true -> t <> 0 ->
  exists c, newCursorLocked key true (mkCursorState "revision" ns "" 0 t id) = Ok c.
Proof.
  intros [Hl _]%validRevisionIDString_hex Ht. unfold newCursorLocked.
  cbn [cs_domain cs_revisionID]. change (cursorDomainID "revision") with (Some 1). rewrite Hl.
  change (negb true || (2 ^ 16 - 1 <? 64)) with false.
  assert (E : cursor_shape_ok (mkCursorState "revision" ns "" 0 t id) = true).
  { unfold cursor_shape_ok. cbn [cs_domain cs_position cs_revisionPublishedAt cs_revisionID].
    change (is_revision "revision") with true. unfold IsZero. rewrite (proj2 (Z.eqb_neq t 0) Ht).
    rewrite bool_decide_eq_false_2; [done|]. by intros ->. }
  rewrite E. cbn [negb]. change (MaxIdentifierBytes <? _) with false. by eexists.
Qed.

(** Go's [time.Time] keeps its seconds in an [int64]. *)
Definition times_wf (s : Store) : Prop :=
  forall ns id r, revision_lookup s ns id = Some r -> time_wf (rm_publishedAt (rw_metadata r)).

Lemma record_stored s ns r :
  store_inv s -> r ∈ records s ns <-> revision_lookup s ns (RevisionMetadata_ID (rw_metadata r)) = Some r.
Proof.
  intros Hi. destruct (si_revisions s Hi ns) as (_ & Hb & Hix & _). unfold records. rewrite list_elem_of_In, in_map_iff. split.
  - intros ([k r'] & <- & Hin%list_elem_of_In%(get_in compareRevisionKey)%Hix); [|done]. apply Hin.
  - intros Hl. exists (revisionKeyFor r, r). split; [done|]. apply list_elem_of_In, (get_in compareRevisionKey); [done|]. by apply Hix.
Qed.

Lemma record_facts s ns r :
  store_inv s -> r ∈ records s ns ->
  RevisionMetadata_valid (rw_metadata r) = true /\ rm_namespace (rw_metadata r) = ns /\
  validRevisionIDString (RevisionMetadata_ID (rw_metadata r)) = true /\ rm_publishedAt (rw_metadata r) <> 0.
Proof.
  intros Hi Hr%record_stored; [|done]. destruct (si_revisions s Hi ns) as (_ & _ & _ & Hrec).
  destruct (Hrec _ _ Hr) as (_ & Hn & Hv). unfold RevisionRecord_Valid, RevisionWrite_Valid in Hv.
  rewrite !andb_true_iff in Hv. destruct Hv as ((((Hm%is_ok_unit & _) & _) & _) & _).
  destruct (validateRevisionMetadata_Ok _ Hm) as (H1 & _ & H3). repeat split; try done.
  unfold RevisionMetadata_valid, IsZero in H3. intros E. rewrite E in H3. by rewrite orb_true_r in H3.
Qed.

Lemma records_sorted s ns : store_inv s ->
  StronglySorted published_before (map rw_metadata (records s ns)).
Proof.
  intros Hi. destruct (si_revisions s Hi ns) as (_ & Hb & Hix & _). unfold records. rewrite map_map.
  assert (Hk : Forall (fun kv => kv.1 = revisionKeyFor kv.2) (elements (revision_root s ns))).
  { apply Forall_forall. intros [k r] Hin%(get_in compareRevisionKey)%Hix; [|done]. by destruct Hin. }
  unfold bst in Hb. revert Hb. induction Hk as [|[k r] l Hk Hl IH]; simpl; [constructor|].
  intros Hs. inversion_clear Hs as [|? ? Hs' Hlt]. constructor; [by apply IH|].
  rewrite Forall_map in Hlt. apply Forall_map. simpl in Hk. subst k.
  rewrite Forall_forall in Hlt, Hl. apply Forall_forall. intros [k r'] Hin. specialize (Hlt _ Hin). specialize (Hl _ Hin).
  simpl in *. subst k. by apply key_published.
Qed.

Lemma records_distinct s ns : store_inv s -> NoDup (map (fun r => RevisionMetadata_ID (rw_metadata r)) (records s ns)).
Proof.
  intros Hi. destruct (si_revisions s Hi ns) as (_ & Hb & Hix & _). apply NoDup_alt. intros i j id Hx Hy.
  unfold records in Hx, Hy. rewrite map_map in Hx, Hy.
  apply list_lookup_fmap_Some in Hx as ([k r] & -> & Hx), Hy as ([k' r'] & Eid & Hy). simpl in Eid.
  assert (Hr : (k, r) ∈ elements (revision_root s ns)) by by eapply list_elem_of_lookup_2.
  assert (Hr' : (k', r') ∈ elements (revision_root s ns)) by by eapply list_elem_of_lookup_2.
  apply (get_in compareRevisionKey), Hix in Hr as [-> Hr], Hr' as [-> Hr']; [|done|done].
  assert (r = r') as <- by congruence.
  assert (Hnd := bst_nodup compareRevisionKey _ Hb). rewrite NoDup_alt in Hnd.
  apply (Hnd i j (revisionKeyFor r)); by rewrite list_lookup_fmap, ?Hx, ?Hy.
Qed.

(** A cursor that continues after the first [i] records. *)
Definition resumes_at (s : Store) (ns cursor : string) (i : nat) : Prop :=
  match i with
  | O => cursor = ""%string
  | S j => cursor <> ""%string /\ validateIdentifier cursor = Ok tt /\
      exists r, records s ns !! j = Some r /\
        cursorStateLocked (st_cursorKey s) (st_cursorKeyOK s) cursor "revision" ns "" =
        Ok (mkCursorState "revision" ns "" 0 (rm_publishedAt (rw_metadata r)) (RevisionMetadata_ID (rw_metadata r)))
  end.

Lemma resumes_matching s ns cursor i :
  store_inv s -> resumes_at s ns cursor i ->
  exists c, cursorStateLocked (st_cursorKey s) (st_cursorKeyOK s) cursor "revision" ns "" = Ok c /\
    matching (mkRevisionKey (cs_revisionPublishedAt c) (cs_revisionID c)) (bool_decide (cursor <> ""%string))
      (revision_root s ns) = drop i (records s ns).
Proof.
  intros Hi. destruct (si_revisions s Hi ns) as (_ & Hb & Hix & _). destruct i as [|j]; cbn [resumes_at].
  - intros ->. exists zero_cursor. split; [done|]. rewrite bool_decide_eq_false_2 by (intros E; by apply E). apply matching_start.
  - intros (Hne & _ & r & Hr & Hc). eexists. split; [exact Hc|]. cbn [cs_revisionPublishedAt cs_revisionID].
    rewrite bool_decide_eq_true_2 by done. unfold records in *. apply list_lookup_fmap_Some in Hr as ([k r'] & E & Hk).
    simpl in E. symmetry in E. subst r'. assert (Ek : k = revisionKeyFor r).
    { apply list_elem_of_lookup_2, (get_in compareRevisionKey), Hix in Hk; [|done]. by destruct Hk. }
    subst k. by apply (matching_resume _ _ (revisionKeyFor r) r).
Qed.

(** The cursor minted for the last record of a page. *)
Lemma revision_cursor s ns j r :
  store_inv s -> times_wf s -> records s ns !! j = Some r ->
  exists c, newCursorLocked (st_cursorKey s) (st_cursorKeyOK s)
      (mkCursorState "revision" ns "" 0 (rm_publishedAt (rw_metadata r)) (RevisionMetadata_ID (rw_metadata r))) = Ok c /\
    resumes_at s ns c (S j).
Proof.
  intros Hi Ht Hr. assert (Hin := list_elem_of_lookup_2 _ _ _ Hr). destruct (record_facts s ns r Hi Hin) as (_ & _ & Hid & Hp).
  rewrite (si_key s Hi). destruct (mint_revision (st_cursorKey s) ns _ _ Hid Hp) as [c Hc]. exists c. split; [done|].
  cbn [resumes_at]. split; [|split].
  - by destruct (newCursor_Ok _ _ _ _ Hc) as (d & _ & _ & _ & _ & _ & _ & _ & Hne).
  - by eapply minted_identifier.
  - exists r. split; [done|]. rewrite (si_key s Hi).
    apply (minted_accepted _ _ _ _ 1 "revision" ns "" Hc); try done.
    cbn [cs_revisionPublishedAt]. apply (Ht ns (RevisionMetadata_ID (rw_metadata r))). by apply record_stored.
Qed.

Lemma revisions_request_accepted request :
  ListRevisionsRequest_valid request = true ->
  is_ok (NewListRevisionsRequest (lr_namespace request) (lr_cursor request) (lr_limit request)) = true /\
  0 < lr_limit request <= 1000.
Proof.
  unfold ListRevisionsRequest_valid, NewListRevisionsRequest, validNamespace. rewrite !andb_true_iff.
  intros [[[H1%is_ok_unit H2%is_ok_unit] H3%Z.ltb_lt] H4%Z.leb_le]. rewrite H1, H2. cbn [rbind].
  rewrite (proj2 (Z.leb_gt _ _) H3), (proj2 (Z.ltb_ge _ _) H4). done.
Qed.

Lemma revision_response s request i next :
  store_inv s -> ListRevisionsRequest_valid request = true -> validateOptionalIdentifier next = Ok tt ->
  let page := map rw_metadata (take (Z.to_nat (lr_limit request)) (drop i (records s (lr_namespace request)))) in
  NewListRevisionsResponse request page next = Ok (mkListRevisionsResponse true request page next).
Proof.
  intros Hi Hv Hid page. destruct (revisions_request_accepted _ Hv) as [_ Hlim].
  unfold NewListRevisionsResponse. rewrite Hv. cbn [negb].
  assert (Hlen : zlen page <= lr_limit request).
  { unfold page, zlen. rewrite length_map, length_take. lia. }
  assert (Hin : Forall (fun m => RevisionMetadata_valid m = true /\ rm_namespace m = lr_namespace request) page).
  { apply Forall_map, Forall_take, Forall_drop, Forall_forall. intros r Hr. by destruct (record_facts s _ r Hi Hr) as (? & ? & _). }
  assert (Hs : StronglySorted published_before page).
  { unfold page. rewrite <- firstn_map, <- skipn_map. apply sorted_take, sorted_drop, records_sorted, Hi. }
  rewrite (proj2 (Z.ltb_ge _ _) Hlen), (proj2 (Z.ltb_ge _ (zlen page))) by (unfold MaxPageResponseItems; lia). cbn [orb].
  destruct (revision_page_fits page next) as [b ->].
  { eapply Forall_impl; [exact Hin|]. by intros m [? _]. }
  { lia. }
  { apply validateText_Ok in Hid. apply Hid. }
  cbn [rbind]. rewrite Hid. cbn [rbind].
  assert (E : validRevisionPage request page = true); [|by rewrite E].
  unfold validRevisionPage. apply revision_page_loop_spec. split; [done|]. split; [|split; [set_solver|done]].
  unfold page. rewrite <- firstn_map, <- skipn_map. rewrite fmap_take, fmap_drop.
  eapply sublist_NoDup; [|etrans; [apply sublist_take|apply sublist_drop]].
  assert (E := records_distinct s (lr_namespace request) Hi). rewrite <- map_map in E. exact E.
Qed.

(** One page: [limit] records after the cursor, and a cursor to the rest. *)
Lemma revisions_page_spec ctx ns cursor limit s i :
  store_inv s -> times_wf s -> usable ctx ->
  ListRevisionsRequest_valid (mkListRevisionsRequest ns cursor limit) = true -> resumes_at s ns cursor i ->
  exists next,
    ListRevisions ctx (mkListRevisionsRequest ns cursor limit) s =
      Ok (mkListRevisionsResponse true (mkListRevisionsRequest ns cursor limit)
            (map rw_metadata (take (Z.to_nat limit) (drop i (records s ns)))) next) /\
    if decide (i + Z.to_nat limit < length (records s ns))%nat
    then resumes_at s ns next (i + Z.to_nat limit) /\ next <> ""%string
    else next = ""%string.
Proof.
  intros Hi Ht Hu Hv Hat. set (request := mkListRevisionsRequest ns cursor limit) in *.
  destruct (revisions_request_accepted _ Hv) as [Hacc Hlim]. cbn [lr_limit request] in Hlim.
  destruct (resumes_matching s ns cursor i Hi Hat) as (c & Hc & Hm).
  unfold ListRevisions. rewrite !(us_err _ Hu), Hacc. cbn [safeContextError rbind negb lr_namespace lr_cursor lr_limit request].
  rewrite Hc. cbn [rbind]. fold (revision_root s ns).
  destruct (si_revisions s Hi ns) as (_ & Hb & _).
  destruct (revisionPage_exact (revision_root s ns) (mkRevisionKey (cs_revisionPublishedAt c) (cs_revisionID c))
    (bool_decide (cursor <> ""%string)) limit Hb ltac:(lia)) as [-> ->]. rewrite Hm.
  assert (Hz : (limit <? zlen (drop i (records s ns))) = bool_decide (i + Z.to_nat limit < length (records s ns))%nat).
  { apply eq_true_iff_eq. rewrite Z.ltb_lt, bool_decide_eq_true. unfold zlen. rewrite length_drop. lia. }
  rewrite Hz. destruct (decide (i + Z.to_nat limit < length (records s ns))%nat) as [Hlt|Hge].
  - rewrite bool_decide_eq_true_2 by done. rewrite last_map, last_lookup, length_take, length_drop, lookup_take_lt, lookup_drop by lia.
    destruct (lookup_lt_is_Some_2 (records s ns) (i + Z.to_nat limit - 1)) as [r Hr]; [lia|].
    match goal with |- context [records s ns !! ?n] => replace n with (i + Z.to_nat limit - 1)%nat by (unfold RevisionRecord in *; lia) end.
    unfold RevisionRecord in Hr |- *. rewrite Hr. cbn [fmap option_fmap option_map].
    destruct (revision_cursor s ns _ r Hi Ht Hr) as (next & -> & Hres). cbn [rbind].
    replace (S (i + Z.to_nat limit - 1)) with (i + Z.to_nat limit)%nat in Hres by lia.
    exists next. assert (Hn : next <> ""%string /\ validateIdentifier next = Ok tt).
    { destruct (i + Z.to_nat limit)%nat eqn:E; [lia|]. by destruct Hres as (? & ? & _). }
    destruct Hn as [Hne Hid]. split; [|done]. apply (revision_response s request i next Hi Hv). by apply identifier_optional.
  - rewrite bool_decide_eq_false_2 by done. cbn [rbind]. exists ""%string. split; [|done].
    by apply (revision_response s request i "" Hi Hv).
Qed.

(** A client that follows the cursors until the last page; fuel bounds the
    number of pages. *)
Fixpoint all_pages (fuel : nat) (ctx : Context) (ns : string) (limit : Z) (cursor : string) (s : Store)
  : result (list RevisionMetadata) :=
  match fuel with
  | O => Err ErrorInternal
  | S fuel =>
      let? response := ListRevisions ctx (mkListRevisionsRequest ns cursor limit) s in
      if bool_decide (lrr_nextCursor response = ""%string) then Ok (lrr_revisions response)
      else
        let? rest := all_pages fuel ctx ns limit (lrr_nextCursor response) s in
        Ok (lrr_revisions response ++ rest)
  end.

Lemma all_pages_spec ctx ns limit s :
  store_inv s -> times_wf s -> usable ctx ->
  ListRevisionsRequest_valid (mkListRevisionsRequest ns "" limit) = true ->
  forall fuel cursor i, resumes_at s ns cursor i -> (length (records s ns) - i < fuel)%nat ->
  all_pages fuel ctx ns limit cursor s = Ok (map rw_metadata (drop i (records s ns))).
Proof.
  intros Hi Ht Hu Hv fuel. destruct (revisions_request_accepted _ Hv) as [_ Hlim]. cbn [lr_limit] in Hlim.
  induction fuel as [|fuel IH]; intros cursor i Hat Hf; [lia|]. cbn [all_pages].
  assert (Hv' : ListRevisionsRequest_valid (mkListRevisionsRequest ns cursor limit) = true).
  { unfold ListRevisionsRequest_valid in *. cbn [lr_namespace lr_cursor lr_limit] in *.
    rewrite !andb_true_iff in *. destruct Hv as [[[H1 _] H3] H4]. repeat split; try done.
    destruct i; [by rewrite Hat|]. destruct Hat as (_ & Hid & _). by rewrite (identifier_optional _ Hid). }
  destruct (revisions_page_spec ctx ns cursor limit s i Hi Ht Hu Hv' Hat) as (next & -> & Hnext).
  cbn [rbind lrr_nextCursor lrr_revisions].
  destruct (decide _) as [Hlt|Hge].
  - destruct Hnext as [Hres Hne]. rewrite bool_decide_eq_false_2 by done.
    rewrite (IH next (i + Z.to_nat limit)%nat Hres) by lia. cbn [rbind].
    rewrite <- map_app. do 2 f_equal. rewrite <- drop_drop. apply take_drop.
  - subst next. cbn [bool_decide]. rewrite bool_decide_eq_true_2 by done.
    by rewrite take_ge by (rewrite length_drop; lia).
Qed.

(** C38: following the cursors of [ListRevisions] terminates and lists the whole
    namespace: whatever the page size, a client that passes each next cursor
    back reaches an empty cursor after at most one page per stored revision,
    and the pages together hold every published revision exactly once, in
    publication order. *)
Theorem revisions_paginate ctx ns limit s fuel :
  store_inv s -> times_wf s -> usable ctx ->
  ListRevisionsRequest_valid (mkListRevisionsRequest ns "" limit) = true ->
  (base.size (default ∅ (st_revisions s !! ns)) < fuel)%nat ->
  exists all, all_pages fuel ctx ns limit "" s = Ok all /\
    StronglySorted published_before all /\ NoDup (RevisionMetadata_ID <$> all) /\
    forall m, m ∈ all <-> exists r, revision_lookup s ns (RevisionMetadata_ID m) = Some r /\ rw_metadata r = m.
Proof.
  intros Hi Ht Hu Hv Hf. exists (map rw_metadata (records s ns)). assert (Hd := records_distinct s ns Hi). split; [|split; [|split]].
  - rewrite <- (drop_0 (records s ns)). apply all_pages_spec; try done.
    assert (Hl : length (records s ns) = base.size (list_to_set (C := gset string) (map (fun r => RevisionMetadata_ID (rw_metadata r)) (records s ns)))).
    { rewrite size_list_to_set by done. by rewrite length_map. }
    assert (Hsub : list_to_set (C := gset string) (map (fun r => RevisionMetadata_ID (rw_metadata r)) (records s ns))
      ⊆ dom (default ∅ (st_revisions s !! ns))).
    { intros id. rewrite elem_of_list_to_set, list_elem_of_In, in_map_iff.
      intros (r & <- & Hr%list_elem_of_In%record_stored); [|done]. unfold revision_lookup in Hr.
      destruct (st_revisions s !! ns) as [m|]; [|done]. simpl. by apply elem_of_dom_2 in Hr. }
    apply subseteq_size in Hsub. rewrite size_dom in Hsub. lia.
  - by apply records_sorted.
  - rewrite <- map_map in Hd. exact Hd.
  - intros m. rewrite list_elem_of_In, in_map_iff. split.
    + intros (r & <- & Hr%list_elem_of_In%record_stored); [|done]. by exists r.
    + intros (r & Hr & <-). exists r. split; [done|]. by apply list_elem_of_In, record_stored.
Qed.
End Revisions.
