(* ===== verification/SqliteEffects.v ===== *)
(** What the SQLite store's transactions do (store/sqlite).

    [effects] is a relational program logic for transaction callbacks: a
    callback that succeeds relates the tables before and after. A transaction
    commits the whole effect of its callback or nothing, whatever fails; the
    effects of the statements on namespace heads and on the event stream, which
    all writes share, are here. *)

From Stdlib Require Import ZArith Lia Sorted Permutation.
From stdpp Require Import base list gmap strings.
From S2P Require Import Prelude Limits Text Types Invocation Cost Canon Data DataValid Policy Events Revisions Avl Index Cursor Fingerprint StoreData MemState MemEvents MemOps MemData MemWrite MemSnapshot MemReads SqliteCodec SqliteData SqliteCursor SqliteDb SqliteStore.

(** * Effects of callbacks *)

(** Every successful run of [m] inside a transaction relates the tables. *)
Definition effects {A} (m : tx A) (R : database -> A -> database -> Prop) : Prop :=
  forall env s a s', m (in_transaction env) s = (Ok a, s') -> R (tx_db s) a (tx_db s').

Lemma effects_mono {A} (m : tx A) R R' : effects m R -> (forall d a d', R d a d' -> R' d a d') -> effects m R'.
Proof. intros Hm HR env s a s' H. by apply HR, (Hm env). Qed.

Lemma effects_bind {A B} (m : tx A) (k : A -> tx B) R S :
  effects m R -> (forall a, effects (k a) (S a)) ->
  effects (tx_bind m k) (fun d b d' => exists a d1, R d a d1 /\ S a d1 b d').
Proof.
  intros Hm Hk env s b s' H. unfold tx_bind in H. destruct (m (in_transaction env) s) as [[a|e] s1] eqn:E; [|done].
  exists a, (tx_db s1). split; [by apply (Hm env)|by apply (Hk a env)].
Qed.

Lemma effects_ret {A} (a : A) : effects (tx_ret a) (fun d b d' => b = a /\ d' = d).
Proof. by intros env s b s' [= <- <-]. Qed.

Lemma effects_fail {A} e : effects (@tx_fail A e) (fun _ _ _ => False).
Proof. by intros env s b s' [=]. Qed.

Lemma effects_lift {A} (r : result A) : effects (tx_lift r) (fun d a d' => r = Ok a /\ d' = d).
Proof. by intros env s b s' [= -> <-]. Qed.

Lemma effects_exec f : effects (tx_exec f) (fun d _ d' => f d = Some d').
Proof.
  intros env s a s' H. unfold tx_exec in H. destruct (te_fault _ _); [done|].
  destruct (f (tx_db s)) as [d|]; [|done]. by injection H as <- <-.
Qed.

Lemma effects_query {A} (f : database -> A) : effects (tx_query f) (fun d a d' => a = f d /\ d' = d).
Proof.
  intros env s a s' H. unfold tx_query in H. destruct (te_fault _ _); [done|]. by injection H as <- <-.
Qed.

Lemma effects_context : effects tx_context (fun d _ d' => d' = d).
Proof. by intros env s a s' [= _ <-]. Qed.

Lemma effects_now : effects tx_now (fun d _ d' => d' = d).
Proof. by intros env s a s' [= _ <-]. Qed.

(** A loop keeps what each of its steps keeps: [P n] holds after [n] elements. *)
Lemma effects_each {A} (f : A -> tx unit) (P : list A -> database -> Prop) l :
  (forall pre x post, l = pre ++ x :: post -> effects (f x) (fun d _ d' => P pre d -> P (pre ++ [x]) d')) ->
  effects (tx_each f l) (fun d _ d' => P [] d -> P l d').
Proof.
  intros Hf. assert (G : forall post pre, l = pre ++ post -> effects (tx_each f post) (fun d _ d' => P pre d -> P l d')).
  { induction post as [|x post IH]; intros pre ->; cbn [tx_each].
    - eapply effects_mono; [apply effects_ret|]. cbn. intros d a d' [_ ->]. by rewrite app_nil_r.
    - eapply effects_mono; [eapply (effects_bind _ _ _ (fun _ d _ d' => P (pre ++ [x]) d -> P (pre ++ x :: post) d')); [by eapply Hf|]|].
      + intros []. apply (IH (pre ++ [x])). by rewrite <- app_assoc.
      + cbn. intros d a d' (_ & d1 & H1 & H2) HP. auto. }
  by apply (G l []).
Qed.

(** Derives the relation of a callback from its statements. *)
Ltac effects_step :=
  lazymatch goal with
  | |- effects (tx_bind _ _) _ => eapply effects_bind; [|intro]
  | |- effects (tx_ret _) _ => apply effects_ret
  | |- effects (tx_fail _) _ => apply effects_fail
  | |- effects (tx_lift _) _ => apply effects_lift
  | |- effects (tx_exec _) _ => apply effects_exec
  | |- effects (tx_query _) _ => apply effects_query
  | |- effects tx_context _ => apply effects_context
  | |- effects tx_now _ => apply effects_now
  end.

(** * Atomicity *)

(** A transaction that answers committed what its callback did; any other
    leaves the tables untouched, unless only the answer of COMMIT was lost. *)
Lemma executeWrite_atomic {A} env begin commit rollback (fn : tx A) R d r d' discard :
  effects fn R -> executeWrite env begin commit rollback fn d = (r, d', discard) ->
  match r with
  | Ok a => R d a d'
  | Err _ => d' = d \/ (exists e, commit = CommitUnreported e) /\ exists a, R d a d'
  end.
Proof.
  intros Hfn. unfold executeWrite. destruct (sqliteContextError _); [|intros [= <- <- _]; by left].
  destruct (te_closed env); [intros [= <- <- _]; by left|]. destruct begin; [intros [= <- <- _]; by left|].
  destruct (fn _ _) as [[x|e] s] eqn:E; [|intros [= <- <- _]; by left].
  destruct (sqliteContextError _); [|intros [= <- <- _]; by left]. pose proof (Hfn env _ _ _ E) as HR.
  destruct commit as [|e|e]; intros [= <- <- _]; [exact HR|by left|right; eauto].
Qed.

(** A turn never runs a request inside a transaction of another one: what is
    committed is one callback on the tables as they were. *)
Lemma writer_turn_atomic {A} busy env begin commit rollback (fn : tx A) R d r d' busy' :
  effects fn R -> writer_turn busy env begin commit rollback fn d = (r, d', busy') ->
  match r with
  | Ok a => busy = false /\ busy' = false /\ R d a d'
  | Err _ => d' = d \/ (exists e, commit = CommitUnreported e) /\ busy' = false /\ exists a, R d a d'
  end.
Proof.
  intros Hfn. unfold writer_turn. destruct (executeWrite _ _ _ _ _ _) as [[r1 d1] discard] eqn:E. intros [= <- <- <-].
  pose proof (executeWrite_atomic _ _ _ _ _ _ _ _ _ _ Hfn E) as Hx. revert E. unfold executeWrite, left_open.
  destruct (sqliteContextError _); [|intros [= <- <- <-]; by left]. destruct (te_closed env); [intros [= <- <- <-]; by left|].
  destruct busy; [intros [= <- <- <-]; by left|]. destruct begin; cbn [begin_error is_ok negb andb orb]; [|intros [= <- <- <-]; by left..].
  destruct (fn _ _) as [[x|e] s]; [|intros [= <- <- _]; by left].
  destruct (sqliteContextError _); [|intros [= <- <- _]; by left].
  destruct commit as [|e|e]; intros [= <- <- <-]; [done|by left|]. destruct Hx as [?|[? ?]]; [by left|right; eauto].
Qed.

(** A connection that kept a transaction refuses every later request: the
    failure of BEGIN does not discard it. *)
Lemma busy_writer_refuses {A} env begin commit rollback (fn : tx A) d :
  exists e, writer_turn true env begin commit rollback fn d = (Err e, d, true).
Proof.
  unfold writer_turn, executeWrite. cbn [begin_error]. destruct (sqliteContextError _); [|eauto].
  destruct (te_closed env); eauto.
Qed.

(** Such a connection arises when the context ends while BEGIN runs. *)
Lemma unreported_begin_stays {A} env e commit rollback (fn : tx A) d :
  te_ctx env 0 = LiveContext -> te_closed env = false ->
  exists e', writer_turn false env (BeginUnreported e) commit rollback fn d = (Err e', d, true).
Proof. intros Hc Hcl. unfold writer_turn, executeWrite, left_open. rewrite Hc, Hcl. cbn. eauto. Qed.

(** The caller does not learn that the transaction committed: it left the queue
    while the writer ran it, or the answer of COMMIT was lost. *)
Definition answer_lost (env : callEnv) : Prop :=
  (exists e, ce_queue env = QueueAbandoned e true) \/ exists e, ce_commit env = CommitUnreported e.

(** Through the queue the answer may be lost, but not the atomicity. *)
Lemma call_write_atomic {A} env (fn : tx A) R d r d' :
  effects fn R -> call_write env fn d = (r, d') ->
  match r with
  | Ok a => R d a d'
  | Err _ => d' = d \/ answer_lost env /\ exists a, R d a d'
  end.
Proof.
  intros Hfn. unfold call_write, database_write.
  destruct (executeWrite (ce_tx env) (ce_begin env) (ce_commit env) (ce_rollback env) fn d) as [[r1 d1] discard] eqn:E.
  pose proof (executeWrite_atomic _ _ _ _ _ _ _ _ _ _ Hfn E) as Hx.
  destruct (ce_queue env) as [e| |e [|]] eqn:Q.
  - intros [= <- <-]. by left.
  - intros [= <- <-]. destruct r1; [done|]. destruct Hx as [?|[? ?]]; [by left|]. right. split; [by right|done].
  - intros [= <- <-]. cbn. destruct r1 as [a|]; [|destruct Hx as [?|[_ ?]]; [by left|]]; right; (split; [left; eauto|eauto]).
  - intros [= <- <-]. by left.
Qed.

(** * Frames *)

(** Outside the namespace nothing changed. *)
Record others_same (ns : string) (d d' : database) : Prop := {
  os_heads : forall n, n <> ns -> db_heads d' !! n = db_heads d !! n;
  os_tuples : forall n k, n <> ns -> db_tuples d' !! (n, k) = db_tuples d !! (n, k);
  os_attributes : forall n k, n <> ns -> db_attributes d' !! (n, k) = db_attributes d !! (n, k);
  os_ancestors : forall n k a, n <> ns -> (n, k, a) ∈ db_ancestors d' <-> (n, k, a) ∈ db_ancestors d;
  os_events : forall n k, n <> ns -> db_events d' !! (n, k) = db_events d !! (n, k);
  os_idempotency : forall n k, n <> ns -> db_idempotency d' !! (n, k) = db_idempotency d !! (n, k) }.

(** Revisions, slots and histories are the same everywhere. *)
Definition policies_same (d d' : database) : Prop :=
  db_revisions d' = db_revisions d /\ db_slots d' = db_slots d /\ db_history d' = db_history d.

#[export] Instance others_same_preorder ns : PreOrder (others_same ns).
Proof.
  split.
  - intros d. by split.
  - intros d1 d2 d3 [a1 a2 a3 a4 a5 a6] [b1 b2 b3 b4 b5 b6].
    split; intros; rewrite ?b1, ?b2, ?b3, ?b4, ?b5, ?b6 by done; auto.
Qed.

#[export] Instance policies_same_preorder : PreOrder policies_same.
Proof. split; [by intros d|]. intros d1 d2 d3 (? & ? & ?) (? & ? & ?). repeat split; congruence. Qed.

(** The facts of the namespace: its tuples, attributes and ancestors. *)
Definition facts_same (d d' : database) : Prop :=
  db_tuples d' = db_tuples d /\ db_attributes d' = db_attributes d /\ db_ancestors d' = db_ancestors d.

(** * Namespace heads *)

Definition head_row (d : database) (ns : string) : headRow := default (mkHeadRow 0 0 0 None) (db_heads d !! ns).

Definition head_ok (h : headRow) : Prop :=
  0 <= hd_dataGeneration h /\ 0 <= hd_expiredThrough h <= hd_eventSequence h.

Lemma with_heads_twice ns h1 h2 d : with_heads (<[ns := h2]>) (with_heads (<[ns := h1]>) d) = with_heads (<[ns := h2]>) d.
Proof. unfold with_heads. cbn. by rewrite insert_insert_eq. Qed.

Lemma head_row_with ns h d : head_row (with_heads (<[ns := h]>) d) ns = h.
Proof. unfold head_row, with_heads. cbn. by rewrite lookup_insert_eq. Qed.

Lemma readNamespaceHead_effect ns : effects (readNamespaceHead ns)
  (fun d found d' => d' = d /\ found = db_heads d !! ns /\ forall h, found = Some h -> head_ok h).
Proof.
  unfold readNamespaceHead. eapply effects_mono.
  { eapply (effects_bind _ _ _ (fun row d found d' => d' = d /\ found = row /\ forall h, found = Some h -> head_ok h)).
    - apply effects_query.
    - intros [h|].
      + unfold head_ok. destruct (Z.ltb_spec (hd_dataGeneration h) 0); [eapply effects_mono; [apply effects_fail|done]|].
        destruct (Z.ltb_spec (hd_eventSequence h) 0); [eapply effects_mono; [apply effects_fail|done]|].
        destruct (Z.ltb_spec (hd_expiredThrough h) 0); [eapply effects_mono; [apply effects_fail|done]|].
        destruct (Z.ltb_spec (hd_eventSequence h) (hd_expiredThrough h)); [eapply effects_mono; [apply effects_fail|done]|].
        eapply effects_mono; [apply effects_ret|]. cbn. intros ? ? ? [-> ->]. split; [done|]. split; [done|].
        intros h' [= <-]. lia.
      + eapply effects_mono; [apply effects_ret|]. cbn. by intros ? ? ? [-> ->]. }
  cbn. intros d a d' (row & d1 & [Er Ed] & Ed' & Ea & Hh). by subst.
Qed.

Lemma ensureNamespaceHead_effect ns : effects (ensureNamespaceHead ns)
  (fun d h d' => h = head_row d ns /\ head_ok h /\ d' = with_heads (<[ns := h]>) d).
Proof.
  unfold ensureNamespaceHead. eapply effects_mono.
  { eapply effects_bind; [apply effects_exec|]. intros u. eapply effects_bind; [apply readNamespaceHead_effect|].
    intros found. eapply (effects_mono _ (fun d h d' => found = Some h /\ d' = d)); [|exact (fun _ _ _ H => H)].
    destruct found; [|by eapply effects_mono; [apply effects_fail|]].
    eapply effects_mono; [apply effects_ret|]. cbn. by intros ? ? ? [-> ->]. }
  cbn. intros d h d' (_ & d1 & Hi & found & d2 & (Ed & Hf & Hok) & Ef & Ed'). apply Some_inj in Hi. subst d2 d'. rewrite Ef in *. symmetry in Hf.
  unfold head_row. destruct (db_heads d !! ns) as [h0|] eqn:E; subst d1.
  - rewrite E in Hf. injection Hf as ->. split; [done|]. split; [by apply Hok|].
    unfold with_heads. rewrite insert_id by done. by destruct d.
  - cbn in Hf. rewrite lookup_insert_eq in Hf. injection Hf as ->. split; [done|]. split; [by apply Hok|done].
Qed.

(** An UPDATE of a head that is there. *)
Lemma update_head_effect ns f d d' h : db_heads d !! ns = Some h -> sql_update_head ns f d = Some d' ->
  d' = with_heads (<[ns := f h]>) d /\ 0 <= hd_dataGeneration (f h) /\ 0 <= hd_eventSequence (f h) /\ 0 <= hd_expiredThrough (f h).
Proof.
  unfold sql_update_head. intros ->. destruct (Z.ltb_spec (hd_dataGeneration (f h)) 0); [done|].
  destruct (Z.ltb_spec (hd_eventSequence (f h)) 0); [done|]. destruct (Z.ltb_spec (hd_expiredThrough (f h)) 0); [done|].
  cbn [orb]. intros [= <-]. done.
Qed.

Lemma lookup_with_heads ns h d : db_heads (with_heads (<[ns := h]>) d) !! ns = Some h.
Proof. cbn. apply lookup_insert_eq. Qed.

(** The head with its recorded time moved to [t], or kept. *)
Definition timed_head (h h' : headRow) : Prop :=
  hd_dataGeneration h' = hd_dataGeneration h /\ hd_eventSequence h' = hd_eventSequence h /\
  hd_expiredThrough h' = hd_expiredThrough h.

Lemma time_UnixNano_wf n : time_wf (time_UnixNano n).
Proof.
  unfold time_UnixNano, time_Unix, time_wf.
  rewrite Z.add_comm, Z.div_add, Z.div_small by (try apply Z.mod_pos_bound; done). apply int64_signed.
Qed.

(** A committed time is a durable one and never precedes the recorded one. *)
Lemma effectiveNow_effect ns : effects (effectiveNow ns)
  (fun d t d' => exists h', d' = with_heads (<[ns := h']>) d /\ head_ok h' /\ timed_head (head_row d ns) h' /\ time_wf t).
Proof.
  unfold effectiveNow, record_time. intros env s t s' H.
  apply (effects_bind _ _ (fun d now d' => d' = d /\ sqliteTimestamp now.1 <> None /\ time_wf now.1) 
    (fun now d t d' => time_wf now.1 -> exists h', d' = with_heads (<[ns := h']>) d /\ head_ok h' /\ timed_head (head_row d ns) h' /\ time_wf t)) in H.
  { destruct H as (now & d1 & (-> & _ & Hw) & H). by apply H. }
  { clear. intros env s now s' [= Hc <-]. split; [done|]. unfold canonicalClockNow in Hc. cbn in Hc.
    destruct (te_clock env) as [t|]; [|done]. destruct (sqliteTimestamp t) as [[c n]|] eqn:E; [|done].
    injection Hc as <-. destruct (sqliteTimestamp_fixed _ _ _ E) as [-> Hu]. cbn. rewrite E. split; [done|].
    rewrite <- Hu. apply time_UnixNano_wf. }
  clear. intros now. eapply effects_mono.
  { eapply effects_bind; [apply ensureNamespaceHead_effect|]. intros h.
    eapply (effects_bind _ _ (fun d _ d' => db_heads d !! ns = Some h -> head_ok h -> exists h', d' = with_heads (<[ns := h']>) d /\ head_ok h' /\ timed_head h h')
      (fun _ d t d' => d' = d /\ (time_wf now.1 -> time_wf t))).
    - destruct (bool_decide _).
      + eapply effects_mono; [apply effects_ret|]. cbn. intros d ? ? [_ ->] Hh Hok. exists h.
        split; [unfold with_heads; rewrite insert_id by done; by destruct d|done].
      + eapply effects_mono; [apply effects_exec|]. cbn. intros d ? d' Hu Hh Hok.
        destruct (update_head_effect _ _ _ _ _ Hh Hu) as [-> _]. eexists. split; [done|]. by unfold head_ok in *.
    - intros []. destruct (_ =? _); eapply effects_mono; try apply effects_ret; cbn; intros ? ? ? [-> ->]; split; auto.
      intros _. apply time_UnixNano_wf. }
  cbn. intros d t d' (h & d1 & (-> & Hok & ->) & _ & d2 & Hr & -> & Ht) Hw.
  destruct (Hr (lookup_with_heads _ _ _) Hok) as (h' & -> & Hok' & Hth). exists h'. rewrite with_heads_twice. auto.
Qed.

(** * The event stream *)

(** What is kept of a namespace's stream: numbers between the expired ones and
    the last one handed out. *)
Definition stream_ok (ns : string) (d : database) : Prop :=
  head_ok (head_row d ns) /\
  forall n row, db_events d !! (ns, n) = Some row -> hd_expiredThrough (head_row d ns) < n <= hd_eventSequence (head_row d ns).

Lemma event_sequences_elem ns d n : n ∈ event_sequences ns d <-> is_Some (db_events d !! (ns, n)).
Proof.
  unfold event_sequences, sorted_numbers. rewrite sort_by_elem, list_elem_of_omap. split.
  - intros ([[ns' m] row] & Hin%elem_of_map_to_list & E). case_bool_decide; [|done]. injection E as ->. subst. eauto.
  - intros [row Hrow]. exists ((ns, n), row). split; [by apply elem_of_map_to_list|]. by rewrite bool_decide_eq_true_2.
Qed.

Lemma sorted_numbers_strict l : NoDup l -> StronglySorted Z.lt (sorted_numbers l).
Proof.
  intros Hd. assert (Hd' : NoDup (sorted_numbers l)) by (unfold sorted_numbers; by rewrite sort_by_perm).
  pose proof (sort_by_sorted Z.compare l) as Hs. unfold sorted_numbers in *. induction Hs as [|x l' Hs IH Hx]; constructor.
  - apply IH. by inversion Hd'.
  - inversion_clear Hd' as [|? ? Hn _]. rewrite Forall_forall in *. intros y Hy. specialize (Hx y Hy).
    unfold cle in Hx. rewrite Z.compare_gt_iff in Hx. assert (x <> y) by (intros ->; done). lia.
Qed.

Lemma strict_NoDup l : StronglySorted Z.lt l -> NoDup l.
Proof.
  induction 1 as [|x l Hs IH Hx]; constructor; [|done]. intros Hin. rewrite Forall_forall in Hx. specialize (Hx x Hin). lia.
Qed.

(** Rows that are told apart by what is selected of them. *)
Lemma omap_NoDup {A B} (f : A -> option B) l : NoDup l ->
  (forall x y b, x ∈ l -> y ∈ l -> f x = Some b -> f y = Some b -> x = y) -> NoDup (omap f l).
Proof.
  induction 1 as [|x l Hn Hd IH]; intros Hf; [constructor|]. cbn.
  assert (Hl : NoDup (omap f l)) by (apply IH; intros; eapply Hf; [by right|by right|done..]).
  destruct (f x) as [b|] eqn:E; [|done]. constructor; [|done]. intros (y & Hy & Ey)%list_elem_of_omap.
  assert (x = y) as -> by (eapply Hf; [by left|by right|done..]). done.
Qed.

Lemma event_sequences_sorted ns d : StronglySorted Z.lt (event_sequences ns d).
Proof.
  apply sorted_numbers_strict, omap_NoDup; [apply NoDup_map_to_list|].
  intros [[n1 k1] r1] [[n2 k2] r2] k H1%elem_of_map_to_list H2%elem_of_map_to_list. repeat case_bool_decide; try done.
  intros [= ->] [= ->]. subst. congruence.
Qed.

(** A row that the count query finds beyond the first has a newer one. *)
Lemma count_cutoff_older ns offset d n : 0 < offset -> sql_count_cutoff ns offset d = Some n ->
  n ∈ event_sequences ns d /\ exists m, m ∈ event_sequences ns d /\ n < m.
Proof.
  unfold sql_count_cutoff. intros Ho Hn. pose proof (event_sequences_sorted ns d) as Hs.
  split; [by apply list_elem_of_lookup_2 in Hn; rewrite elem_of_reverse in Hn|].
  assert (Hl := lookup_lt_Some _ _ _ Hn). rewrite length_reverse in Hl.
  apply reverse_lookup_Some in Hn as [Hn _].
  destruct (lookup_lt_is_Some_2 (event_sequences ns d) (length (event_sequences ns d) - 1)) as [m Hm]; [lia|].
  exists m. split; [by eapply list_elem_of_lookup_2|]. eapply (sorted_lookup _ _ _ _ _ _ Hs _ Hn Hm). Unshelve. lia.
Qed.

Lemma time_cutoff_found ns threshold d n : sql_time_cutoff ns threshold d = n -> n <> 0 ->
  exists row, db_events d !! (ns, n) = Some row /\ evr_createdAtNS row <= threshold.
Proof.
  unfold sql_time_cutoff. destruct (last _) as [m|] eqn:E; [|done]. cbn. intros -> _.
  apply last_Some_elem_of, list_elem_of_In, List.filter_In in E as [_ E].
  destruct (db_events d !! (ns, n)) as [row|]; [|done]. exists row. split; [done|]. by apply Z.leb_le.
Qed.

(** Retention drops a prefix of the stream that the newest event, made now,
    survives; the watermark moves to the end of the prefix. *)
Lemma pruneEvents_effect ns now : effects (pruneEvents ns now) (fun d _ d' =>
  stream_ok ns d -> is_Some (db_heads d !! ns) ->
  exists h', d' = with_event_rows (fun _ => db_events d') (with_heads (<[ns := h']>) d) /\ stream_ok ns d' /\
    hd_dataGeneration h' = hd_dataGeneration (head_row d ns) /\ hd_eventSequence h' = hd_eventSequence (head_row d ns) /\
    hd_expiredThrough (head_row d ns) <= hd_expiredThrough h' /\
    (forall n k, db_events d' !! (n, k) = if bool_decide (n = ns /\ k <= hd_expiredThrough h') then None else db_events d !! (n, k)) /\
    (forall row, - 2 ^ 63 < now -> db_events d !! (ns, hd_eventSequence h') = Some row -> evr_createdAtNS row = now ->
       db_events d' !! (ns, hd_eventSequence h') = Some row)).
Proof.
  unfold pruneEvents. set (threshold := if _ <=? now then _ else _).
  assert (Ht : - 2 ^ 63 < now -> threshold < now).
  { unfold threshold, eventRetentionDuration, Hour, Second. destruct (Z.leb_spec (- 2 ^ 63 + 24 * (3600 * 1000000000)) now); lia. }
  clearbody threshold.
  eapply effects_mono.
  { eapply effects_bind; [apply effects_query|]. intros timeCutoff. eapply effects_bind; [apply effects_query|]. intros found.
    eapply (effects_mono _ (fun d _ d' => let cutoff := Z.max timeCutoff (default 0 found) in
      cutoff <= 0 /\ d' = d \/ 0 < cutoff /\ exists d1, sql_delete_events ns cutoff d = Some d1 /\
        sql_update_head ns (raise_expiredThrough cutoff) d1 = Some d')); [|exact (fun _ _ _ H => H)].
    cbv zeta. destruct (Z.leb_spec (Z.max timeCutoff (default 0 found)) 0).
    - eapply effects_mono; [apply effects_ret|]. cbn. intros ? ? ? [_ ->]. by left.
    - eapply effects_mono; [eapply effects_bind; [apply effects_exec|intros u; apply effects_exec]|].
      cbn. intros ? ? ? (_ & d1 & H1 & H2). right. eauto. }
  cbv beta zeta. intros d u d' (timeCutoff & d1 & [Etime Ed1] & found & d2 & [Ecount Ed2] & Hend) [Hok Hev] [h Hh].
  subst d1 d2. assert (Hhd : head_row d ns = h) by (unfold head_row; by rewrite Hh). rewrite Hhd in *.
  set (cutoff := Z.max timeCutoff (default 0 found)) in *.
  destruct Hend as [[Hc ->]|(Hc & d1 & [= <-] & Hu)].
  { exists h. split; [destruct d; unfold with_event_rows, with_heads; cbn in *; by rewrite insert_id|].
    split; [by split; rewrite Hhd|]. split; [done|]. split; [done|]. split; [lia|]. split; [|done].
    intros n k. case_bool_decide as Hnk; [|done]. destruct Hnk as [-> Hk]. destruct (db_events d !! (ns, k)) as [row|] eqn:E; [|done].
    apply Hev in E. lia. }
  assert (Hcut : exists row, db_events d !! (ns, cutoff) = Some row).
  { unfold cutoff. destruct (Z.max_spec timeCutoff (default 0 found)) as [[Hlt E]|[Hle E]]; unfold cutoff in Hc; rewrite E in *.
    - destruct found as [n|]; cbn in *; [|lia]. symmetry in Ecount.
      apply count_cutoff_older in Ecount as [Hin%event_sequences_elem _]; [done|by vm_compute].
    - destruct (time_cutoff_found _ _ _ _ (eq_sym Etime)) as (row & Hrow & _); [lia|eauto]. }
  destruct Hcut as [crow Hcrow]. destruct (Hev _ _ Hcrow) as [Hlow Hhigh].
  destruct (update_head_effect ns _ (with_event_rows _ d) d' h Hh Hu) as [-> _].
  exists (raise_expiredThrough cutoff h). unfold raise_expiredThrough. destruct (Z.ltb_spec (hd_expiredThrough h) cutoff); [|lia].
  set (h' := mkHeadRow _ _ _ _).
  assert (Hlook : forall n k, filter (fun kv : string * Z * eventRow => ~ (kv.1.1 = ns /\ kv.1.2 <= cutoff)) (db_events d) !! (n, k) =
    if bool_decide (n = ns /\ k <= cutoff) then None else db_events d !! (n, k)).
  { intros n k. case_bool_decide as E.
    - apply map_lookup_filter_None. right. intros x _ Hn. by apply Hn.
    - destruct (db_events d !! (n, k)) as [row|] eqn:El; [apply map_lookup_filter_Some; split; [done|cbn; tauto]|].
      apply map_lookup_filter_None. by left. }
  split; [done|]. cbn [hd_dataGeneration hd_eventSequence hd_expiredThrough h'].
  split; [|split; [done|split; [done|split; [lia|split; [exact Hlook|]]]]].
  - unfold stream_ok. rewrite head_row_with. cbn [db_events with_heads with_event_rows]. split.
    + unfold head_ok in *. cbn. lia.
    + intros n row. cbn. rewrite Hlook. case_bool_decide as E; [done|]. intros Hr%Hev. cbn. split; [|lia].
      destruct (decide (n <= cutoff)); [tauto|lia].
  - intros row Hnow Hrow Hcreated. cbn. rewrite Hlook. rewrite bool_decide_eq_false_2; [done|]. intros [_ Hle].
    assert (E : cutoff = hd_eventSequence h) by (cbn in Hle; lia).
    unfold cutoff in E. destruct (Z.max_spec timeCutoff (default 0 found)) as [[Hlt Em]|[Hge Em]]; rewrite Em in E.
    + destruct found as [n|]; cbn in *; [|lia]. symmetry in Ecount.
      apply count_cutoff_older in Ecount as (_ & m & [row' Hm]%event_sequences_elem & Hlt'); [|by vm_compute].
      apply Hev in Hm. lia.
    + destruct (time_cutoff_found _ _ _ _ (eq_sym Etime)) as (row' & Hrow' & Hold); [lia|].
      rewrite E in Hrow'. cbn in Hrow. rewrite Hrow in Hrow'. injection Hrow' as <-. specialize (Ht Hnow). lia.
Qed.

Lemma nextEventSequence_effect ns : effects (nextEventSequence ns) (fun d next d' =>
  let h := head_row d ns in
  next = (hd_eventSequence h + 1, hd_expiredThrough h) /\ head_ok h /\ hd_eventSequence h <> MaxInt64 /\
  d' = with_heads (<[ns := set_eventSequence (hd_eventSequence h + 1) h]>) d).
Proof.
  unfold nextEventSequence. eapply effects_mono.
  { eapply effects_bind; [apply ensureNamespaceHead_effect|]. intros h.
    eapply (effects_mono _ (fun d next d' => hd_eventSequence h <> MaxInt64 /\ next = (hd_eventSequence h + 1, hd_expiredThrough h) /\
      sql_update_head ns (set_eventSequence (hd_eventSequence h + 1)) d = Some d')); [|exact (fun _ _ _ H => H)].
    destruct (Z.eqb_spec (hd_eventSequence h) MaxInt64); [by eapply effects_mono; [apply effects_fail|]|].
    eapply effects_mono; [eapply effects_bind; [apply effects_exec|intros u; apply effects_ret]|].
    cbn. intros d ? d' (_ & d1 & Hu & -> & ->). done. }
  cbn. intros d next d' (h & d1 & (-> & Hok & ->) & Hne & -> & Hu).
  destruct (update_head_effect _ _ _ _ _ (lookup_with_heads _ _ _) Hu) as [-> _]. by rewrite with_heads_twice.
Qed.

Section Writes.
Context `{D : Dsl} `{H : Hmac} (cursorKey : list Z).

(** A stored event: its row decodes to the event, with the cursor of its own
    number, the name of its kind and its time beside it. *)
Record event_stored (ns : string) (n : Z) (row : eventRow) (event : StateEvent) : Prop := {
  es_decodes : decodeStateEvent (evr_payload row) = Ok event;
  es_namespace : ev_namespace event = ns;
  es_kind : evr_kind row = stateEventKindName (ev_kind event);
  es_time : time_UnixNano (evr_createdAtNS row) = ev_occurredAt event;
  es_cursor : exists c, decodeCursor cursorKey (ev_cursor event) cursorDomainEvent ns "" = Ok c /\ sc_position c = n }.

(** One event was appended, with the next number, and retention ran. *)
Record event_added (input : StateEvent) (occurredAt : Time) (d d' : database) : Prop := {
  ea_tables : exists h', d' = with_event_rows (fun _ => db_events d') (with_heads (<[ev_namespace input := h']>) d) /\
    hd_dataGeneration h' = hd_dataGeneration (head_row d (ev_namespace input)) /\
    hd_eventSequence h' = hd_eventSequence (head_row d (ev_namespace input)) + 1 /\
    hd_expiredThrough (head_row d (ev_namespace input)) <= hd_expiredThrough h' /\
    forall n k, (n, k) <> (ev_namespace input, hd_eventSequence h') ->
      db_events d' !! (n, k) = if bool_decide (n = ev_namespace input /\ k <= hd_expiredThrough h') then None else db_events d !! (n, k);
  ea_room : hd_eventSequence (head_row d (ev_namespace input)) < MaxInt64;
  ea_stream : stream_ok (ev_namespace input) d';
  ea_event : exists row event,
    db_events d' !! (ev_namespace input, hd_eventSequence (head_row d (ev_namespace input)) + 1) = Some row /\
    event_stored (ev_namespace input) (hd_eventSequence (head_row d (ev_namespace input)) + 1) row event /\
    ev_kind event = ev_kind input /\ ev_revisionID event = ev_revisionID input /\ ev_slot event = ev_slot input /\
    ev_slotGeneration event = ev_slotGeneration input /\ ev_dataGeneration event = ev_dataGeneration input /\
    ev_occurredAt event = occurredAt }.

Lemma sqliteTimestamp_range t c n : sqliteTimestamp t = Some (c, n) -> - 2 ^ 63 < n.
Proof.
  intros Hs. destruct (sqliteTimestamp_fixed _ _ _ Hs) as [-> Hu].
  apply sqliteTimestamp_exact in Hs as (_ & _ & _ & [Hr _]); [|rewrite <- Hu; apply time_UnixNano_wf].
  unfold Second in Hr. lia.
Qed.

Lemma encodeStateEvent_bytes e bs : encodeStateEvent e = Ok bs -> Forall is_byte bs.
Proof.
  unfold encodeStateEvent. destruct (canonicalStateEvent e) as [c|]; cbn [rbind]; [|done]. destruct (codecTime _) as [[sec nanos]|]; [|done].
  intros <-%Ok_inj. unfold appendCodecUint32, appendCodecUint64, appendCodecString16, appendCodecUint16.
  rewrite !Forall_app. repeat split; auto using be_encode_bytes, bytes_of_string_range.
  apply Forall_cons. split; [done|]. apply Forall_cons. split; [|done]. apply Z.mod_pos_bound. lia.
Qed.

Lemma appendStateEvent_effect input occurredAt :
  unsigned 64 (ev_slotGeneration input) -> unsigned 64 (ev_dataGeneration input) ->
  effects (appendStateEvent cursorKey input occurredAt) (fun d _ d' =>
    stream_ok (ev_namespace input) d -> hd_eventSequence (head_row d (ev_namespace input)) <= MaxInt64 ->
    event_added input occurredAt d d').
Proof.
  intros Hsg Hdg. unfold appendStateEvent. set (ns := ev_namespace input). cbv zeta. eapply effects_mono.
  { eapply effects_bind; [apply nextEventSequence_effect|]. intros next.
    eapply effects_bind; [apply effects_lift|]. intros cursor.
    eapply effects_bind; [apply effects_lift|]. intros event.
    eapply effects_bind; [apply effects_lift|]. intros payload.
    eapply (effects_mono _ (fun d _ d' => exists nanos d1, sqliteTimestamp (ev_occurredAt event) = Some (ev_occurredAt event, nanos) /\
      sql_insert_event ns next.1 (mkEventRow (stateEventKindName (ev_kind event)) payload nanos) d = Some d1 /\
      (stream_ok ns d1 -> is_Some (db_heads d1 !! ns) -> exists h', d' = with_event_rows (fun _ => db_events d') (with_heads (<[ns := h']>) d1) /\ stream_ok ns d' /\
        hd_dataGeneration h' = hd_dataGeneration (head_row d1 ns) /\ hd_eventSequence h' = hd_eventSequence (head_row d1 ns) /\
        hd_expiredThrough (head_row d1 ns) <= hd_expiredThrough h' /\
        (forall n k, db_events d' !! (n, k) = if bool_decide (n = ns /\ k <= hd_expiredThrough h') then None else db_events d1 !! (n, k)) /\
        (forall row, - 2 ^ 63 < nanos -> db_events d1 !! (ns, hd_eventSequence h') = Some row -> evr_createdAtNS row = nanos ->
           db_events d' !! (ns, hd_eventSequence h') = Some row)))); [|exact (fun _ _ _ H => H)].
    destruct (sqliteTimestamp (ev_occurredAt event)) as [[when nanos]|]; [|by eapply effects_mono; [apply effects_fail|]].
    destruct (Z.eqb_spec when (ev_occurredAt event)) as [->|]; cbn [negb]; [|by eapply effects_mono; [apply effects_fail|]].
    eapply effects_mono; [eapply effects_bind; [apply effects_exec|intros u; apply pruneEvents_effect]|].
    cbn beta. intros d ? d' (_ & d1 & Hi & Hp). exists nanos, d1. auto. }
  cbn beta. intros d u d' (next & d1 & (-> & Hok & Hmax & ->) & cursor & d2 & [Hcur ->] & event & d3 & [Hevt ->] & payload & d4 & [Hpay ->] & nanos & d5 & Hts & Hins & Hprune) Hinv Hle.
  cbn [fst snd] in *. set (h := head_row d ns) in *. set (seq := hd_eventSequence h + 1) in *.
  destruct Hinv as [_ Hev]. fold h in Hev.
  assert (Hevent : NewStateEvent (mkStateEvent ns cursor (ev_kind input) (ev_revisionID input) (ev_slot input)
    (ev_slotGeneration input) (ev_dataGeneration input) occurredAt) = Ok event) by (by destruct (NewStateEvent _)).
  pose proof (NewStateEvent_Ok _ _ Hevent) as ->. cbn [ev_occurredAt ev_kind] in *.
  unfold sql_insert_event in Hins. destruct (Z.leb_spec seq 0); [done|]. cbn [db_events with_heads] in Hins.
  destruct (db_events d !! (ns, seq)) as [old|] eqn:Hfree; [done|]. injection Hins as <-.
  destruct Hprune as (h' & Ed' & Hstream & Hg & Hs & Hx & Hlook & Hnew).
  { unfold stream_ok, head_row. cbn [db_heads with_event_rows with_heads db_events]. rewrite lookup_insert_eq. cbn [default id from_option hd_expiredThrough hd_eventSequence set_eventSequence].
    split; [unfold head_ok in *; cbn; fold seq; unfold seq; lia|]. intros n row. rewrite lookup_insert_Some.
    intros [[E _]|[_ Hr%Hev]]; [injection E as <-; unfold head_ok in Hok; unfold seq; lia|unfold seq; lia]. }
  { cbn. rewrite lookup_insert_eq. eauto. }
  assert (Hh1 : head_row (with_event_rows (<[(ns, seq) := mkEventRow (stateEventKindName (ev_kind input)) payload nanos]>)
    (with_heads (<[ns := set_eventSequence seq h]>) d)) ns = set_eventSequence seq h).
  { unfold head_row. cbn. by rewrite lookup_insert_eq. }
  rewrite Hh1 in *. cbn [hd_dataGeneration hd_eventSequence hd_expiredThrough set_eventSequence] in Hg, Hs, Hx.
  destruct (sqliteTimestamp_fixed _ _ _ Hts) as [_ Hu].
  split; fold ns; fold h; fold seq.
  - exists h'. split; [rewrite Ed' at 1; unfold with_event_rows, with_heads; cbn; by rewrite insert_insert_eq|].
    split; [done|]. split; [done|]. split; [done|]. intros n k Hne. rewrite Hlook. cbn [db_events with_event_rows with_heads].
    case_bool_decide; [done|]. apply lookup_insert_ne. rewrite Hs in Hne. congruence.
  - lia.
  - done.
  - exists (mkEventRow (stateEventKindName (ev_kind input)) payload nanos), (mkStateEvent ns cursor (ev_kind input) (ev_revisionID input) (ev_slot input) (ev_slotGeneration input)
      (ev_dataGeneration input) occurredAt). split; [|split; [|repeat split; reflexivity]]; cycle 1.
    + split; cbn [ev_namespace ev_kind ev_occurredAt evr_payload evr_kind evr_createdAtNS ev_cursor]; try done.
      * apply codec_exact; [|split; [exact Hpay|]].
        { eapply encodeStateEvent_bytes. exact Hpay. }
        split; [done|]. split; [done|]. cbn. rewrite <- Hu. apply time_UnixNano_wf.
      * exists (mkSqliteCursor cursorDomainEvent ns "" seq (hd_expiredThrough h) 0 ""). split; [apply decodeCursor_exact; split; [reflexivity|split; [reflexivity|split; [reflexivity|]]]; right; split; [exact Hcur|]|done].
        unfold head_ok, MaxInt64 in *. split; [|split]; cbn [sc_position sc_boundary sc_revisionPublishedAt];
          unfold unsigned, time_wf, signed64; [unfold seq; lia..|by vm_compute].
    + rewrite <- Hs. apply Hnew; [by eapply sqliteTimestamp_range| |done].
      cbn. rewrite Hs. apply lookup_insert_eq.
Qed.
End Writes.
