(* ===== verification/SqliteFacts.v ===== *)
(** The facts that the SQLite tables hold of a namespace (store/sqlite:
    tuples.go, attributes.go, idempotency.go).

    [tuples_held] and [attributes_held] say which finite maps of tuples and of
    attributes the tables hold; each statement group of a data write is shown
    to change that map the way the in-memory store's indexes do. *)

From Stdlib Require Import ZArith Lia Sorted Permutation.
From stdpp Require Import base list gmap strings.
From S2P Require Import Prelude Limits Text Types Invocation Cost Canon Data DataValid Policy Events Revisions Avl Index Cursor Fingerprint StoreData MemState MemOps MemData SqliteCodec SqliteData SqliteCursor SqliteDb SqliteStore SqliteEffects.

(** * The facts that the tables hold of a namespace *)

(** Only tuples, attributes and ancestors of the namespace changed. *)
Record facts_frame (ns : string) (d d' : database) : Prop := {
  ff_heads : db_heads d' = db_heads d;
  ff_events : db_events d' = db_events d;
  ff_idempotency : db_idempotency d' = db_idempotency d;
  ff_policies : policies_same d d';
  ff_others : others_same ns d d' }.

#[export] Instance facts_frame_preorder ns : PreOrder (facts_frame ns).
Proof.
  split; [intros d; split; done|]. intros d1 d2 d3 [] []. split; try congruence; etrans; eassumption.
Qed.

(** ** Tuples *)

Record tuples_held (ns : string) (T : gmap Tuple RelationshipTuple) (d : database) : Prop := {
  tr_stored t v : T !! t = Some v -> rt_tuple v = t /\ exists record, canonicalDurableTuple v = Ok record /\
    dt_tuple record = v /\ db_tuples d !! (ns, dt_key record) = Some (tuple_row record);
  tr_only key row : db_tuples d !! (ns, key) = Some row -> exists t, encodeTupleKey t = Ok key /\ is_Some (T !! t) }.

Lemma encodeTupleKey_bytes t bs : encodeTupleKey t = Ok bs -> Forall is_byte bs.
Proof.
  unfold encodeTupleKey. intros (c & Hc & H)%rbind_ok. apply Ok_inj in H as <-. codec_unfold. rewrite !Forall_app.
  repeat split; auto using be_encode_bytes, bytes_of_string_range. by repeat constructor.
Qed.

Lemma encodeTupleKey_inj t1 t2 bs : encodeTupleKey t1 = Ok bs -> encodeTupleKey t2 = Ok bs -> t1 = t2.
Proof.
  intros H1 H2. pose proof (encodeTupleKey_bytes _ _ H1) as B.
  assert (D1 : decodeTupleKey bs = Ok t1) by (by apply codec_exact).
  assert (D2 : decodeTupleKey bs = Ok t2) by (by apply codec_exact). congruence.
Qed.

(** A durable tuple is filed under the encoding of its own key. *)
Lemma durable_tuple_key v record : canonicalDurableTuple v = Ok record -> encodeTupleKey (rt_tuple (dt_tuple record)) = Ok (dt_key record).
Proof.
  unfold canonicalDurableTuple. intros (x & _ & (c & _ & (k & Hk & [= <-])%rbind_ok)%rbind_ok)%rbind_ok. done.
Qed.

(** A valid tuple is stored as it is, under the encoding of its key. *)
Lemma canonicalDurableTuple_fixed v record : RelationshipTuple_valid v = true -> canonicalDurableTuple v = Ok record ->
  dt_tuple record = v /\ encodeTupleKey (rt_tuple v) = Ok (dt_key record).
Proof.
  unfold RelationshipTuple_valid, canonicalDurableTuple. rewrite !andb_true_iff, !orb_true_iff, !negb_true_iff. intros [[Hv Hz] Hn].
  intros ([e n] & He & (c & Hc & (k & Hk & [= <-])%rbind_ok)%rbind_ok)%rbind_ok. cbn [fst snd dt_tuple dt_key] in *.
  unfold NewRelationshipTuple in Hc. destruct (validateDSLRelationship (rt_tuple v)); [|done]. cbn [rbind] in Hc.
  destruct v as [t x [|]]; cbn [rt_tuple rt_hasExpiry rt_expiresAt] in *.
  - destruct (sqliteTimestamp x) as [[x' n']|] eqn:Hs; [|done]. injection He as <- <-.
    destruct (sqliteTimestamp_fixed _ _ _ Hs) as [-> _]. destruct (IsZero x); [done|]. injection Hc as <-. done.
  - injection He as <- <-. injection Hc as <-. destruct Hn as [|Hx]; [done|]. unfold IsZero in Hx.
    apply Z.eqb_eq in Hx as ->. done.
Qed.

Lemma with_tuples_frame ns f d : (forall n k, n <> ns -> f (db_tuples d) !! (n, k) = db_tuples d !! (n, k)) ->
  facts_frame ns d (with_tuples f d).
Proof. intros Hf. by split; [done..| |]; split. Qed.

Lemma deleteTuple_effect ns key T : effects (deleteTuple ns key) (fun d _ d' =>
  facts_frame ns d d' /\ db_attributes d' = db_attributes d /\ db_ancestors d' = db_ancestors d /\
  (tuples_held ns T d -> tuples_held ns (delete (tk_tuple key) T) d')).
Proof.
  unfold deleteTuple. eapply effects_mono.
  { eapply effects_bind; [apply effects_lift|]. intros c. eapply effects_bind; [apply effects_lift|]. intros e. apply effects_exec. }
  cbn beta. intros d u d' (c & d1 & [Hc ->] & e & d2 & [He ->] & [= <-]).
  assert (Hk : encodeTupleKey (tk_tuple key) = Ok e).
  { unfold NewTupleKey in Hc. destruct (validateDSLRelationship (tk_tuple key)); [|done]. by injection Hc as <-. }
  split; [apply with_tuples_frame; intros; apply lookup_delete_ne; congruence|]. split; [done|]. split; [done|].
  intros [Hs Ho]. split; cbn [db_tuples with_tuples].
  - intros t v. rewrite lookup_delete_Some. intros [Hne Ht]. destruct (Hs _ _ Ht) as (Et & record & Hr & Ed & Hrow).
    split; [done|]. exists record. split; [done|]. split; [done|]. rewrite lookup_delete_ne; [done|]. intros [= E].
    apply Hne. pose proof (durable_tuple_key _ _ Hr) as Hkey. rewrite Ed, Et, <- E in Hkey. by eapply encodeTupleKey_inj.
  - intros k row. rewrite lookup_delete_Some. intros [Hne Hrow]. destruct (Ho _ _ Hrow) as (t & Ht & Hin).
    exists t. split; [done|]. rewrite lookup_delete_ne; [done|]. intros <-. congruence.
Qed.

Lemma upsertTuple_effect ns value T : RelationshipTuple_valid value = true -> effects (upsertTuple ns value) (fun d _ d' =>
  facts_frame ns d d' /\ db_attributes d' = db_attributes d /\ db_ancestors d' = db_ancestors d /\
  (tuples_held ns T d -> tuples_held ns (<[rt_tuple value := value]> T) d')).
Proof.
  intros Hv. unfold upsertTuple. eapply effects_mono.
  { eapply effects_bind; [apply effects_lift|]. intros record. apply effects_exec. }
  cbn beta. intros d u d' (record & d1 & [Hc ->] & [= <-]). destruct (canonicalDurableTuple_fixed _ _ Hv Hc) as [Ed Hk].
  split; [apply with_tuples_frame; intros; apply lookup_insert_ne; congruence|]. split; [done|]. split; [done|].
  intros [Hs Ho]. split; cbn [db_tuples with_tuples].
  - intros t v. rewrite lookup_insert_Some. intros [[<- <-]|[Hne Ht]].
    { split; [done|]. exists record. rewrite lookup_insert_eq. auto. }
    destruct (Hs _ _ Ht) as (Et & record' & Hr & Ed' & Hrow). split; [done|]. exists record'. split; [done|]. split; [done|].
    rewrite lookup_insert_ne; [done|]. intros [= E].
    apply Hne. pose proof (durable_tuple_key _ _ Hr) as Hkey. rewrite Ed', Et, <- E in Hkey. by eapply encodeTupleKey_inj.
  - intros k row. rewrite lookup_insert_Some. intros [[[= <-] <-]|[Hne Hrow]].
    { exists (rt_tuple value). split; [done|]. rewrite lookup_insert_eq. eauto. }
    destruct (Ho _ _ Hrow) as (t & Ht & Hin). exists t. split; [done|].
    destruct (decide (rt_tuple value = t)) as [->|]; [rewrite lookup_insert_eq; eauto|by rewrite lookup_insert_ne].
Qed.

(** ** Attributes *)

(** [k'] is a strict ancestor of [k]. *)
Definition strictly_above (k' k : AttributeKey) : Prop :=
  ak_entity k' = ak_entity k /\ ak_path k' `prefix_of` ak_path k /\ ak_path k' <> ak_path k.

Record attributes_held (ns : string) (A : gmap AttributeKey Attribute) (d : database) : Prop := {
  ah_stored k a : A !! k = Some a -> attr_key a = k /\ signed64 (val_integer (attr_value a)) /\
    exists record, canonicalDurableAttribute a = Ok record /\ da_attribute record = a /\
      db_attributes d !! (ns, da_key record) = Some (attribute_row record);
  ah_only key row : db_attributes d !! (ns, key) = Some row -> exists k, encodeAttributeKey k = Ok key /\ is_Some (A !! k);
  ah_ancestors key ancestor : (ns, key, ancestor) ∈ db_ancestors d <->
    exists k k', is_Some (A !! k) /\ encodeAttributeKey k = Ok key /\ encodeAttributeKey k' = Ok ancestor /\ strictly_above k' k }.

Lemma NewAttributeKeyPath_is e p k : NewAttributeKeyPath e p = Ok k -> k = mkAttributeKey e p.
Proof. by intros [-> _]%NewAttributeKeyPath_accepts. Qed.

(** A durable attribute is filed under the encoding of its own key. *)
Lemma durable_attribute_fixed a record : canonicalDurableAttribute a = Ok record ->
  da_attribute record = a /\ encodeAttributeKey (attr_key a) = Ok (da_key record).
Proof.
  unfold canonicalDurableAttribute.
  intros (c & Hc & (k & Hk & (ke & Hke & (pe & _ & (ve & _ & [= <-])%rbind_ok)%rbind_ok)%rbind_ok)%rbind_ok)%rbind_ok.
  destruct (NewAttributePath _ _ _) as [c'|] eqn:Hn; [|done]. injection Hc as ->.
  destruct (NewAttributePath_fits _ _ _ _ Hn) as [-> _]. cbn [attr_entity attr_path da_attribute da_key] in *.
  destruct (NewAttributeKeyPath _ _) as [k'|] eqn:Hk'; [|done]. injection Hk as ->.
  apply NewAttributeKeyPath_is in Hk' as ->. split; [by destruct a|done].
Qed.

(** A row is there exactly for the keys of the map. *)
Lemma attributes_held_row ns A d k key : attributes_held ns A d -> encodeAttributeKey k = Ok key ->
  is_Some (db_attributes d !! (ns, key)) <-> is_Some (A !! k).
Proof.
  intros Ha Hk. split.
  - intros [row Hrow]. destruct (ah_only _ _ _ Ha _ _ Hrow) as (k' & Hk' & Hin).
    by rewrite (encodeAttributeKey_inj _ _ _ Hk Hk').
  - intros [a Hin]. destruct (ah_stored _ _ _ Ha _ _ Hin) as (<- & _ & record & Hr & _ & Hrow).
    apply durable_attribute_fixed in Hr as [_ Hr]. rewrite Hr in Hk. injection Hk as <-. eauto.
Qed.

Lemma facts_frame_attributes ns d f g :
  (forall n k, n <> ns -> f (db_attributes d) !! (n, k) = db_attributes d !! (n, k)) ->
  (forall n k a, n <> ns -> (n, k, a) ∈ g (db_ancestors d) <-> (n, k, a) ∈ db_ancestors d) ->
  facts_frame ns d (with_ancestors g (with_attributes f d)).
Proof. intros Hf Hg. by split; [done..| |]; split. Qed.

Lemma deleteAttribute_effect ns key A : effects (deleteAttribute ns key) (fun d _ d' =>
  facts_frame ns d d' /\ db_tuples d' = db_tuples d /\ (attributes_held ns A d -> attributes_held ns (delete key A) d')).
Proof.
  unfold deleteAttribute. eapply effects_mono.
  { eapply effects_bind; [apply effects_lift|]. intros c. eapply effects_bind; [apply effects_lift|]. intros e. apply effects_exec. }
  cbn beta. intros d u d' (c & d1 & [Hc ->] & e & d2 & [He ->] & [= <-]).
  assert (Hk : encodeAttributeKey key = Ok e).
  { destruct (NewAttributeKeyPath _ _) as [c'|] eqn:E; [|done]. injection Hc as ->. apply NewAttributeKeyPath_is in E as ->.
    by destruct key. }
  split. { apply facts_frame_attributes; [intros; apply lookup_delete_ne; congruence|].
    intros n k a Hn. rewrite elem_of_filter. cbn. split; [by intros [_ ?]|]. split; [congruence|done]. }
  split; [done|]. intros Ha. split; cbn [db_attributes db_ancestors with_attributes with_ancestors].
  - intros k a. rewrite lookup_delete_Some. intros [Hne Hin]. destruct (ah_stored _ _ _ Ha _ _ Hin) as (Ek & Hi & record & Hr & Er & Hrow).
    split; [done|]. split; [done|]. exists record. split; [done|]. split; [done|]. rewrite lookup_delete_ne; [done|]. intros [= E].
    apply durable_attribute_fixed in Hr as [_ Hr]. apply Hne. rewrite <- Ek. eapply encodeAttributeKey_inj; [exact Hk|by rewrite E].
  - intros k row. rewrite lookup_delete_Some. intros [Hne Hrow]. destruct (ah_only _ _ _ Ha _ _ Hrow) as (k' & Hk' & Hin).
    exists k'. split; [done|]. rewrite lookup_delete_ne; [done|]. intros <-. congruence.
  - intros k anc. rewrite elem_of_filter, (ah_ancestors _ _ _ Ha). cbn [fst]. split.
    + intros (Hne & k1 & k2 & Hin & H1 & H2 & Hs). exists k1, k2. split; [|done]. rewrite lookup_delete_ne; [done|].
      intros <-. apply Hne. congruence.
    + intros (k1 & k2 & Hin & H1 & H2 & Hs). destruct (decide (key = k1)) as [->|Hne]; [by rewrite lookup_delete_eq in Hin; destruct Hin|].
      rewrite lookup_delete_ne in Hin by done. split; [|by exists k1, k2]. intros [= E]. apply Hne. subst.
      by eapply encodeAttributeKey_inj.
Qed.

Lemma effects_forall {X B} (m : tx B) (R : X -> database -> B -> database -> Prop) :
  (forall x, effects m (R x)) -> effects m (fun d a d' => forall x, R x d a d').
Proof. intros HR env s a s' Hm x. exact (HR x env s a s' Hm). Qed.

Lemma check_prefix_effect ns key n : effects (check_prefix ns key n) (fun d _ d' =>
  d' = d /\ exists bs, encodeAttributeKey (mkAttributeKey (ak_entity key) (take n (ak_path key))) = Ok bs /\ db_attributes d !! (ns, bs) = None).
Proof.
  unfold check_prefix. eapply effects_mono.
  { eapply effects_bind; [apply effects_lift|]. intros k. eapply effects_bind; [apply effects_lift|]. intros bs.
    eapply effects_bind; [apply effects_query|]. intros found.
    eapply (effects_mono _ (fun d _ d' => found = false /\ d' = d)); [|exact (fun _ _ _ H => H)].
    destruct found; [by eapply effects_mono; [apply effects_fail|]|]. eapply effects_mono; [apply effects_ret|]. cbn. by intros ? ? ? [_ ->]. }
  cbn beta. intros d u d' (k & d1 & [Hk ->] & bs & d2 & [Hbs ->] & found & d3 & [Hf ->] & -> & ->). split; [done|]. exists bs.
  destruct (NewAttributeKeyPath _ _) as [k'|] eqn:E; [|done]. injection Hk as ->. apply NewAttributeKeyPath_is in E as <-.
  split; [done|]. symmetry in Hf. apply bool_decide_eq_false in Hf. by apply eq_None_not_Some.
Qed.

(** The conflict check passes only when no attribute lies strictly above or
    below the written one. *)
Lemma ensureNoAttributeConflict_effect ns value : effects (ensureNoAttributeConflict ns value) (fun d _ d' =>
  d' = d /\ forall A, attributes_held ns A d -> ~ occupied_conflict A (attr_key value)).
Proof.
  unfold ensureNoAttributeConflict. eapply effects_mono.
  { eapply effects_bind; [apply effects_lift|]. intros key. eapply effects_bind.
    { eapply (effects_forall _ (fun d0 d _ d' => d = d0 -> d' = d0 /\
        forall n, (1 <= n < length (ak_path key))%nat -> exists bs, encodeAttributeKey (mkAttributeKey (ak_entity key) (take n (ak_path key))) = Ok bs /\
          db_attributes d0 !! (ns, bs) = None)). intros d0.
      eapply effects_mono.
      - apply (effects_each _ (fun pre d => d = d0 /\ forall n, n ∈ pre -> exists bs,
          encodeAttributeKey (mkAttributeKey (ak_entity key) (take n (ak_path key))) = Ok bs /\ db_attributes d0 !! (ns, bs) = None)).
        intros pre n post _. eapply effects_mono; [apply check_prefix_effect|]. cbn beta. intros d u d' [-> Hbs] [-> Hpre].
        split; [done|]. intros m [Hm| ->%list_elem_of_singleton]%elem_of_app; auto.
      - cbn beta. intros d u d' Hl ->. destruct Hl as [-> Hl]; [split; [done|by intros n ?%not_elem_of_nil]|].
        split; [done|]. intros n Hn. apply Hl, elem_of_seq. lia. }
    intros u. eapply effects_bind; [apply effects_lift|]. intros bs. eapply effects_bind; [apply effects_query|]. intros found.
    eapply (effects_mono _ (fun d _ d' => found = false /\ d' = d)); [|exact (fun _ _ _ H => H)].
    destruct found; [by eapply effects_mono; [apply effects_fail|]|]. eapply effects_mono; [apply effects_ret|]. cbn. by intros ? ? ? [_ ->]. }
  cbn beta. intros d u d' (key & d1 & [Hkey ->] & u1 & d2 & Hl & bs & d3 & [Hbs ->] & found & d4 & [Hf ->] & -> & ->).
  destruct (Hl d eq_refl) as [-> Habove]. split; [done|]. intros A Ha (k & b & Hin & Hne & He & Hp).
  assert (key = attr_key value) as ->.
  { unfold attributeKeyFromAttribute in Hkey. rewrite integrity_Ok in Hkey. by apply NewAttributeKeyPath_is in Hkey. }
  assert (Hpne : ak_path k <> ak_path (attr_key value)) by (intros E; apply Hne; destruct k, (attr_key value); cbn in *; congruence).
  destruct (ah_stored _ _ _ Ha _ _ Hin) as (Ek & _ & record & Hr & _ & Hrow). apply durable_attribute_fixed in Hr as [_ Hr].
  rewrite Ek in Hr. destruct Hp as [Hp|Hp].
  - assert (Hnil : ak_path k <> []).
    { assert (E : key_encodable k) by (apply encodeAttributeKey_total; eauto). destruct E as [[c Hc]%is_ok_true _].
      apply NewAttributeKeyPath_accepts in Hc as (_ & _ & Hv & _). intros E. by rewrite E in Hv. }
    destruct (proj1 (strict_prefix_take (ak_path k) (ak_path (attr_key value)))) as (n & Hlt & E); [done|].
    destruct (Habove n) as (bs' & Hbs' & Hnone); [lia|]. rewrite <- E, <- He in Hbs'.
    assert (E' : mkAttributeKey (ak_entity k) (ak_path k) = k) by (by destruct k). rewrite E' in Hbs'. congruence.
  - assert (Hanc : (ns, da_key record, bs) ∈ db_ancestors d).
    { apply (ah_ancestors _ _ _ Ha). exists k, (attr_key value). split; [eauto|]. split; [done|]. split; [done|]. split; [done|]. by split. }
    unfold sql_has_descendant in Hf. symmetry in Hf. rewrite <- not_true_iff_false in Hf. apply Hf. apply existsb_exists.
    exists (ns, da_key record, bs). split; [by apply list_elem_of_In, elem_of_elements|]. by apply bool_decide_eq_true_2.
Qed.

Lemma strictAttributePrefixes_encodings k rows bs : strictAttributePrefixes k = Ok rows -> bs ∈ rows ->
  exists k', encodeAttributeKey k' = Ok bs.
Proof.
  unfold strictAttributePrefixes. generalize (seq 1 (length (ak_path k) - 1)) as ns. intros ns. revert rows.
  induction ns as [|n ns IH]; intros rows; cbn [attribute_prefixes].
  - intros [= <-] ?%not_elem_of_nil. done.
  - intros (p & _ & (e & He & (r & Hr & [= <-])%rbind_ok)%rbind_ok)%rbind_ok [->|Hin]%elem_of_cons; [eauto|]. by eapply IH.
Qed.

Lemma insert_ancestors_effect ns key prefixes :
  effects (tx_each (fun prefix => tx_exec (sql_insert_ancestor ns key prefix)) prefixes) (fun d _ d' =>
    d' = with_ancestors (fun x => list_to_set ((fun p => (ns, key, p)) <$> prefixes) ∪ x) d).
Proof.
  eapply effects_mono.
  - apply (effects_forall _ (fun d0 d _ d' => d = with_ancestors (fun x => list_to_set ((fun p => (ns, key, p)) <$> []) ∪ x) d0 ->
      d' = with_ancestors (fun x => list_to_set ((fun p => (ns, key, p)) <$> prefixes) ∪ x) d0)). intros d0.
    apply (effects_each _ (fun pre d => d = with_ancestors (fun x => list_to_set ((fun p => (ns, key, p)) <$> pre) ∪ x) d0)).
    intros pre p post _. eapply effects_mono; [apply effects_exec|]. cbn beta. intros d u d' Hi ->. unfold sql_insert_ancestor in Hi.
    destruct (bool_decide _); [done|]. destruct (db_attributes _ !! _); [|done]. injection Hi as <-.
    unfold with_ancestors. cbn. rewrite fmap_app, list_to_set_app_L. cbn. f_equal. set_solver.
  - cbn beta. intros d u d' Hd. apply Hd. unfold with_ancestors. cbn. rewrite union_empty_l_L. by destruct d.
Qed.

(** The rows of an attribute after the statements of [upsertAttribute]. *)
Definition attribute_upserted (ns : string) (record : durableAttribute) (prefixes : list (list Z)) (d : database) : database :=
  with_ancestors (fun x => list_to_set ((fun p => (ns, da_key record, p)) <$> prefixes) ∪ filter (fun y => y.1 <> (ns, da_key record)) x)
    (with_attributes (<[(ns, da_key record) := attribute_row record]>) d).

Lemma attribute_upserted_held ns a record prefixes A d :
  canonicalDurableAttribute a = Ok record -> strictAttributePrefixes (attr_key a) = Ok prefixes ->
  signed64 (val_integer (attr_value a)) -> attributes_held ns A d ->
  attributes_held ns (<[attr_key a := a]> A) (attribute_upserted ns record prefixes d).
Proof.
  intros Hc Hp Hi Ha. destruct (durable_attribute_fixed _ _ Hc) as [Er Hk].
  destruct (strictAttributePrefixes_exact (attr_key a)) as (rows & Hrows & Hin); [apply encodeAttributeKey_total; eauto|].
  rewrite Hp in Hrows. injection Hrows as <-.
  split; cbn [attribute_upserted db_attributes db_ancestors with_attributes with_ancestors].
  - intros k b. rewrite lookup_insert_Some. intros [[<- <-]|[Hne Hb]].
    { split; [done|]. split; [done|]. exists record. rewrite lookup_insert_eq. auto. }
    destruct (ah_stored _ _ _ Ha _ _ Hb) as (Ek & Hi' & record' & Hr & Er' & Hrow).
    split; [done|]. split; [done|]. exists record'. split; [done|]. split; [done|]. rewrite lookup_insert_ne; [done|]. intros [= E].
    apply durable_attribute_fixed in Hr as [_ Hr]. apply Hne. rewrite <- Ek. eapply encodeAttributeKey_inj; [exact Hk|by rewrite E].
  - intros key row. rewrite lookup_insert_Some. intros [[[= <-] <-]|[Hne Hrow]].
    { exists (attr_key a). split; [done|]. rewrite lookup_insert_eq. eauto. }
    destruct (ah_only _ _ _ Ha _ _ Hrow) as (k & Hk' & Hb). exists k. split; [done|].
    destruct (decide (attr_key a = k)) as [->|]; [rewrite lookup_insert_eq; eauto|by rewrite lookup_insert_ne].
  - intros key anc. rewrite elem_of_union, elem_of_list_to_set, list_elem_of_fmap, elem_of_filter, (ah_ancestors _ _ _ Ha). cbn [fst]. split.
    + intros [(p & [= -> ->] & Hpin)|(Hne & k & k' & Hb & H1 & H2 & Hs)].
      * destruct (strictAttributePrefixes_encodings _ _ _ Hp Hpin) as [k' Hk']. exists (attr_key a), k'.
        rewrite lookup_insert_eq. split; [eauto|]. split; [done|]. split; [done|]. by apply (Hin _ _ Hk').
      * exists k, k'. split; [|done]. rewrite lookup_insert_ne; [done|]. intros <-. apply Hne. congruence.
    + intros (k & k' & Hb & H1 & H2 & Hs). destruct (decide (attr_key a = k)) as [<-|Hne].
      * left. exists anc. split; [congruence|]. by apply (Hin _ _ H2).
      * right. rewrite lookup_insert_ne in Hb by done. split; [|by exists k, k']. intros [= E]. apply Hne. subst.
        by eapply encodeAttributeKey_inj.
Qed.

Lemma upsertAttribute_effect ns a : effects (upsertAttribute ns a) (fun d _ d' => exists record prefixes,
  canonicalDurableAttribute a = Ok record /\ strictAttributePrefixes (attr_key a) = Ok prefixes /\ d' = attribute_upserted ns record prefixes d).
Proof.
  unfold upsertAttribute. eapply effects_mono.
  { eapply effects_bind; [apply effects_lift|]. intros record. eapply effects_bind; [apply effects_exec|]. intros u1.
    eapply effects_bind; [apply effects_exec|]. intros u2. eapply effects_bind; [apply effects_lift|]. intros key.
    eapply effects_bind; [apply effects_lift|]. intros prefixes. apply insert_ancestors_effect. }
  cbn beta. intros d u d' (record & d1 & [Hc ->] & u1 & d2 & [= <-] & u2 & d3 & [= <-] & key & d4 & [Hk ->] & prefixes & d5 & [Hp ->] & ->).
  exists record, prefixes. split; [done|]. destruct (durable_attribute_fixed _ _ Hc) as [Er _]. rewrite Er in Hk.
  unfold attributeKeyFromAttribute in Hk. rewrite integrity_Ok in Hk. apply NewAttributeKeyPath_is in Hk as ->. done.
Qed.

Lemma write_attribute_effect ns a : signed64 (val_integer (attr_value a)) -> effects (write_attribute ns a) (fun d _ d' =>
  facts_frame ns d d' /\ db_tuples d' = db_tuples d /\
  forall A, attributes_held ns A d -> attributes_held ns (<[attr_key a := a]> A) d' /\ ~ occupied_conflict A (attr_key a)).
Proof.
  intros Hi. unfold write_attribute. eapply effects_mono.
  { eapply effects_bind; [apply ensureNoAttributeConflict_effect|]. intros u. apply upsertAttribute_effect. }
  cbn beta. intros d u d' (u1 & d1 & [-> Hno] & record & prefixes & Hc & Hp & ->).
  split. { apply facts_frame_attributes; [intros; apply lookup_insert_ne; congruence|]. intros n k anc Hn.
    rewrite elem_of_union, elem_of_list_to_set, list_elem_of_fmap, elem_of_filter. cbn [fst]. split; [|intros; right; split; [congruence|done]].
    intros [(p & [= -> _ _] & _)|[_ ?]]; done. }
  split; [done|]. intros A Ha. split; [by eapply attribute_upserted_held|by apply Hno].
Qed.

(** ** The mutations of a request *)

(** What a part of the mutations does to the tables. *)
Definition tuples_become ns (T T' : gmap Tuple RelationshipTuple) (d d' : database) : Prop :=
  facts_frame ns d d' /\ db_attributes d' = db_attributes d /\ db_ancestors d' = db_ancestors d /\ (tuples_held ns T d -> tuples_held ns T' d').

Lemma delete_tuples_effect ns keys T : effects (tx_each (deleteTuple ns) keys) (fun d _ d' =>
  tuples_become ns T (remove_keys (map tk_tuple keys) T) d d').
Proof.
  eapply effects_mono.
  - apply (effects_forall _ (fun d0 d _ d' => tuples_become ns T T d0 d -> tuples_become ns T (remove_keys (map tk_tuple keys) T) d0 d')).
    intros d0. apply (effects_each _ (fun pre d => tuples_become ns T (remove_keys (map tk_tuple pre) T) d0 d)). intros pre k post _.
    eapply effects_mono; [apply (deleteTuple_effect ns k (remove_keys (map tk_tuple pre) T))|].
    cbn beta. intros d u d' (F & E1 & E2 & HT) (F0 & E3 & E4 & HT0). split; [by etrans|]. split; [congruence|]. split; [congruence|].
    intros H0. rewrite map_app. unfold remove_keys. rewrite fold_left_app. cbn. auto.
  - cbn beta. intros d u d' Hd. apply Hd. by split.
Qed.

Lemma upsert_tuples_effect ns values T : Forall (fun t => RelationshipTuple_valid t = true) values ->
  effects (tx_each (upsertTuple ns) values) (fun d _ d' => tuples_become ns T (put_values rt_tuple values T) d d').
Proof.
  intros Hv. eapply effects_mono.
  - apply (effects_forall _ (fun d0 d _ d' => tuples_become ns T T d0 d -> tuples_become ns T (put_values rt_tuple values T) d0 d')).
    intros d0. apply (effects_each _ (fun pre d => tuples_become ns T (put_values rt_tuple pre T) d0 d)). intros pre v post ->.
    eapply effects_mono; [apply (upsertTuple_effect ns v (put_values rt_tuple pre T))|].
    { rewrite Forall_app, Forall_cons in Hv. by apply Hv. }
    cbn beta. intros d u d' (F & E1 & E2 & HT) (F0 & E3 & E4 & HT0). split; [by etrans|]. split; [congruence|]. split; [congruence|].
    intros H0. unfold put_values. rewrite fold_left_app. cbn. auto.
  - cbn beta. intros d u d' Hd. apply Hd. by split.
Qed.

Lemma delete_attributes_effect ns keys A : effects (tx_each (deleteAttribute ns) keys) (fun d _ d' =>
  facts_frame ns d d' /\ db_tuples d' = db_tuples d /\ (attributes_held ns A d -> attributes_held ns (remove_keys keys A) d')).
Proof.
  eapply effects_mono.
  - apply (effects_forall _ (fun d0 d _ d' => (facts_frame ns d0 d /\ db_tuples d = db_tuples d0 /\ (attributes_held ns A d0 -> attributes_held ns A d)) ->
      facts_frame ns d0 d' /\ db_tuples d' = db_tuples d0 /\ (attributes_held ns A d0 -> attributes_held ns (remove_keys keys A) d'))).
    intros d0. apply (effects_each _ (fun pre d => facts_frame ns d0 d /\ db_tuples d = db_tuples d0 /\
      (attributes_held ns A d0 -> attributes_held ns (remove_keys pre A) d))). intros pre k post _.
    eapply effects_mono; [apply (deleteAttribute_effect ns k (remove_keys pre A))|].
    cbn beta. intros d u d' (F & E1 & HA) (F0 & E3 & HA0). split; [by etrans|]. split; [congruence|].
    intros H0. unfold remove_keys. rewrite fold_left_app. cbn. auto.
  - cbn beta. intros d u d' Hd. apply Hd. by split.
Qed.

Lemma occupied_conflict_puts ws m b : (forall a, a ∈ ws -> overlap (attr_key a) (attr_key b) -> a = b) ->
  occupied_conflict (put_values attr_key ws m) (attr_key b) <-> occupied_conflict m (attr_key b).
Proof.
  unfold put_values. revert m. induction ws as [|w ws IH]; intros m Hab; cbn [fold_left]; [done|].
  rewrite IH by (intros; apply Hab; [by right|done]). apply occupied_conflict_put. apply Hab. by left.
Qed.

Lemma write_attributes_effect ns ws A : Forall (fun a => signed64 (val_integer (attr_value a))) ws ->
  (forall x y, x ∈ ws -> y ∈ ws -> overlap (attr_key x) (attr_key y) -> x = y) ->
  effects (tx_each (write_attribute ns) ws) (fun d _ d' =>
    facts_frame ns d d' /\ db_tuples d' = db_tuples d /\
    (attributes_held ns A d -> attributes_held ns (put_values attr_key ws A) d' /\ Forall (fun a => ~ occupied_conflict A (attr_key a)) ws)).
Proof.
  intros Hi Hc. pose (Q := fun pre d0 d => facts_frame ns d0 d /\ db_tuples d = db_tuples d0 /\
    (attributes_held ns A d0 -> attributes_held ns (put_values attr_key pre A) d /\ Forall (fun a => ~ occupied_conflict A (attr_key a)) pre)).
  eapply effects_mono.
  - apply (effects_forall _ (fun d0 d _ d' => Q [] d0 d -> Q ws d0 d')).
    intros d0. apply (effects_each _ (fun pre d => Q pre d0 d)). intros pre a post E.
    eapply effects_mono; [apply (write_attribute_effect ns a)|].
    { rewrite E, Forall_app, Forall_cons in Hi. by apply Hi. }
    cbn beta. intros d u d' (F & E1 & HA) (F0 & E3 & HA0). split; [by etrans|]. split; [congruence|].
    intros H0. destruct (HA0 H0) as [Hh Hf]. destruct (HA _ Hh) as [Hh' Hno]. unfold put_values. rewrite fold_left_app. cbn.
    split; [done|]. apply Forall_app. split; [done|]. apply Forall_singleton. intros Ho. apply Hno, occupied_conflict_puts; [|done].
    intros x Hx. apply Hc; rewrite E; set_solver.
  - cbn beta. intros d u d' Hd. apply Hd. by split.
Qed.
