(* ===== verification/SqliteWrite.v ===== *)
(** What a data write of the SQLite store does (store/sqlite/idempotency.go).

    A write that answers either replayed a recorded response, or changed the
    facts of its namespace to [spec_tuples] and [spec_attributes] (the same
    specification that the in-memory store refines), advanced the generation by
    one, appended one event and recorded the response for replay, all in one
    commit; a write that fails left the tables as they were, unless its caller
    stopped waiting for the answer or the answer of COMMIT was lost. *)

From Stdlib Require Import ZArith Lia Sorted Permutation.
From stdpp Require Import base list gmap strings.
From S2P Require Import Prelude Limits Text Types Invocation Cost Canon Data DataValid Policy Events Revisions Avl Index Cursor Fingerprint StoreData MemState MemOps MemData MemWrite SqliteCodec SqliteData SqliteCursor SqliteDb SqliteStore SqliteEffects SqliteFacts.

Lemma tuples_held_same ns T d d' : db_tuples d' = db_tuples d -> tuples_held ns T d -> tuples_held ns T d'.
Proof. intros E [Hs Ho]. split; by rewrite E. Qed.

Lemma attributes_held_same ns A d d' : db_attributes d' = db_attributes d -> db_ancestors d' = db_ancestors d ->
  attributes_held ns A d -> attributes_held ns A d'.
Proof. intros E1 E2 [Hs Ho Ha]. split; rewrite ?E1, ?E2; auto. Qed.

(** The integers of the request's values are machine integers. *)
Definition request_machine (request : WriteDataRequest) : Prop :=
  Forall (fun a => signed64 (val_integer (attr_value a))) (wd_attributeWrites request).

(** The tables of a namespace are consistent and their counters fit. *)
Definition namespace_ok (ns : string) (d : database) : Prop :=
  stream_ok ns d /\ hd_eventSequence (head_row d ns) <= MaxInt64 /\ hd_dataGeneration (head_row d ns) <= MaxInt64.

Section SqliteWrite.
Context `{D : Dsl} `{H : Hmac} (cursorKey : list Z).

(** A replay record that answers a request with this fingerprint. *)
Definition replay_recorded (row : idempotencyRow) (fingerprint : list Z) (response : WriteDataResponse) : Prop :=
  decodeIdempotencyFingerprint (idr_fingerprint row) = Ok fingerprint /\
  decodeIdempotencyResponse (idr_response row) false = Ok response.

Record data_written (request : WriteDataRequest) (fingerprint : list Z) (d : database) (response : WriteDataResponse)
  (d' : database) : Prop := {
  dw_fresh : db_idempotency d !! (wd_namespace request, wd_idempotencyKey request) = None;
  dw_revision : is_Some (db_revisions d !! (wd_namespace request, wd_validationRevisionID request));
  dw_expected : hd_dataGeneration (head_row d (wd_namespace request)) = wd_expectedGeneration request;
  dw_response : response = mkWriteDataResponse (wd_expectedGeneration request + 1) false;
  dw_generation : hd_dataGeneration (head_row d' (wd_namespace request)) = wd_expectedGeneration request + 1;
  dw_tuples : forall T, tuples_held (wd_namespace request) T d ->
    tuples_held (wd_namespace request) (spec_tuples request T) d';
  dw_attributes : forall A, attributes_held (wd_namespace request) A d ->
    attributes_held (wd_namespace request) (spec_attributes request A) d' /\ ~ blocked request A;
  dw_sequence : hd_eventSequence (head_row d' (wd_namespace request)) = hd_eventSequence (head_row d (wd_namespace request)) + 1;
  dw_event : exists row event,
    db_events d' !! (wd_namespace request, hd_eventSequence (head_row d' (wd_namespace request))) = Some row /\
    event_stored cursorKey (wd_namespace request) (hd_eventSequence (head_row d' (wd_namespace request))) row event /\
    ev_kind event = StateEventDataWritten /\ ev_dataGeneration event = wd_expectedGeneration request + 1;
  dw_replay : exists row, replay_recorded row fingerprint response /\
    db_idempotency d' = <[(wd_namespace request, wd_idempotencyKey request) := row]> (db_idempotency d);
  dw_ok : namespace_ok (wd_namespace request) d';
  dw_policies : policies_same d d';
  dw_others : others_same (wd_namespace request) d d' }.

(** A replayed answer repeats the recorded generation and changes nothing. *)
Definition data_replayed (request : WriteDataRequest) (fingerprint : list Z) (d : database) (response : WriteDataResponse)
  (d' : database) : Prop :=
  d' = d /\ exists row stored, db_idempotency d !! (wd_namespace request, wd_idempotencyKey request) = Some row /\
    replay_recorded row fingerprint stored /\ response = mkWriteDataResponse (wr_generation stored) true.

Lemma readIdempotencyRecord_effect ns key : effects (readIdempotencyRecord ns key) (fun d found d' => d' = d /\
  match found with
  | None => db_idempotency d !! (ns, key) = None
  | Some (fp, response) => exists row, db_idempotency d !! (ns, key) = Some row /\ replay_recorded row fp response
  end).
Proof.
  unfold readIdempotencyRecord. eapply effects_mono.
  { eapply effects_bind; [apply effects_query|]. intros row.
    eapply (effects_mono _ (fun d found d' => d' = d /\ match row with None => found = None
      | Some row => exists fp response, found = Some (fp, response) /\ replay_recorded row fp response end)); [|exact (fun _ _ _ H => H)].
    destruct row as [row|]; [|eapply effects_mono; [apply effects_ret|]; cbn; by intros ? ? ? [-> ->]].
    eapply effects_mono.
    { eapply effects_bind; [apply effects_lift|]. intros fp. eapply effects_bind; [apply effects_lift|]. intros response. apply effects_ret. }
    cbn. intros d a d' (fp & d1 & [Hf ->] & response & d2 & [Hr ->] & -> & ->). split; [done|]. exists fp, response. done. }
  cbn beta. intros d found d' (row & d1 & [Er ->] & -> & Hrow). split; [done|]. destruct row as [row|].
  - destruct Hrow as (fp & response & -> & Hrec). exists row. done.
  - by subst found.
Qed.

Lemma readRevision_effect ns id : effects (readRevision ns id) (fun d found d' => d' = d /\
  match found with
  | None => db_revisions d !! (ns, id) = None
  | Some record => exists row, db_revisions d !! (ns, id) = Some row /\
      decodeRevisionRecord ns id (rvr_artifact row) (rvr_provenance row) (rvr_publishedAtNS row) = Ok record
  end).
Proof.
  unfold readRevision. eapply effects_mono.
  { eapply effects_bind; [apply effects_query|]. intros row.
    eapply (effects_mono _ (fun d found d' => d' = d /\ match row with None => found = None
      | Some row => exists record, found = Some record /\
          decodeRevisionRecord ns id (rvr_artifact row) (rvr_provenance row) (rvr_publishedAtNS row) = Ok record end)); [|exact (fun _ _ _ H => H)].
    destruct row as [row|]; [|eapply effects_mono; [apply effects_ret|]; cbn; by intros ? ? ? [-> ->]].
    eapply effects_mono.
    { eapply effects_bind; [apply effects_lift|]. intros record. apply effects_ret. }
    cbn. intros d a d' (record & d1 & [Hf ->] & -> & ->). split; [done|]. by exists record. }
  cbn beta. intros d found d' (row & d1 & [Er ->] & -> & Hrow). split; [done|]. destruct row as [row|].
  - destruct Hrow as (record & -> & Hrec). exists row. done.
  - by subst found.
Qed.

Lemma write_facts_effect request : mutations_ok request -> request_machine request -> effects (write_facts request) (fun d _ d' =>
  facts_frame (wd_namespace request) d d' /\
  (forall T, tuples_held (wd_namespace request) T d -> tuples_held (wd_namespace request) (spec_tuples request T) d') /\
  (forall A, attributes_held (wd_namespace request) A d ->
     attributes_held (wd_namespace request) (spec_attributes request A) d' /\ ~ blocked request A)).
Proof.
  intros ((_ & Hc & _) & Hv & _) Hi. set (ns := wd_namespace request). eapply effects_mono.
  { eapply effects_bind; [exact (effects_forall _ _ (fun T => delete_tuples_effect ns _ T))|]. intros u1.
    eapply effects_bind; [exact (effects_forall _ _ (fun T => upsert_tuples_effect ns _ T Hv))|]. intros u2.
    eapply effects_bind; [exact (effects_forall _ _ (fun A => delete_attributes_effect ns _ A))|]. intros u3.
    exact (effects_forall _ _ (fun A => write_attributes_effect ns _ A Hi Hc)). }
  cbn beta. intros d u d' (u1 & d1 & H1 & u2 & d2 & H2 & u3 & d3 & H3 & H4). split; [|split].
  - destruct (H1 ∅) as [F1 _], (H2 ∅) as [F2 _], (H3 ∅) as [F3 _], (H4 ∅) as [F4 _]. by do 3 (etrans; [eassumption|]).
  - intros T HT. destruct (H1 T) as (_ & _ & _ & G1). apply G1 in HT. edestruct H2 as (_ & _ & _ & G2). apply G2 in HT.
    destruct (H3 ∅) as (_ & E3 & _), (H4 ∅) as (_ & E4 & _).
    eapply tuples_held_same; [exact E4|]. eapply tuples_held_same; [exact E3|]. exact HT.
  - intros A HA. destruct (H1 ∅) as (_ & E1 & E1' & _), (H2 ∅) as (_ & E2 & E2' & _).
    apply (attributes_held_same _ _ _ _ E1 E1') in HA. apply (attributes_held_same _ _ _ _ E2 E2') in HA.
    destruct (H3 A) as (_ & _ & G3). apply G3 in HA. edestruct H4 as (_ & _ & G4). apply G4 in HA as [HA Hno].
    split; [exact HA|]. intros (a & Ha & Ho). rewrite Forall_forall in Hno. by apply (Hno a).
Qed.

(** The new head and stream of a namespace whose tables were otherwise left. *)
Lemma stream_ok_heads ns d d' : db_events d' = db_events d -> head_ok (head_row d' ns) ->
  hd_eventSequence (head_row d' ns) = hd_eventSequence (head_row d ns) ->
  hd_expiredThrough (head_row d' ns) = hd_expiredThrough (head_row d ns) -> stream_ok ns d -> stream_ok ns d'.
Proof. intros Ee Hok Es Ex [_ Hev]. split; [done|]. intros n row. rewrite Ee, Es, Ex. apply Hev. Qed.

Lemma others_with_heads ns h d : others_same ns d (with_heads (<[ns := h]>) d).
Proof. split; try done. intros n Hn. cbn. by rewrite lookup_insert_ne. Qed.

Lemma head_row_frame ns d d' : db_heads d' = db_heads d -> head_row d' ns = head_row d ns.
Proof. unfold head_row. by intros ->. Qed.

(** The event of a data write, after the facts: heads and events change only. *)
Lemma appended_frame input occurredAt d d' : event_added cursorKey input occurredAt d d' ->
  others_same (ev_namespace input) d d' /\ policies_same d d' /\ facts_same d d' /\ db_idempotency d' = db_idempotency d /\
  is_Some (db_heads d' !! ev_namespace input) /\
  hd_dataGeneration (head_row d' (ev_namespace input)) = hd_dataGeneration (head_row d (ev_namespace input)) /\
  hd_eventSequence (head_row d' (ev_namespace input)) = hd_eventSequence (head_row d (ev_namespace input)) + 1.
Proof.
  intros [(h' & Ed & Hg & Hs & _ & Hlook) _ _ _].
  assert (Eh : db_heads d' = <[ev_namespace input := h']> (db_heads d)) by (rewrite Ed; done).
  assert (Ehd : head_row d' (ev_namespace input) = h') by (unfold head_row; by rewrite Eh, lookup_insert_eq).
  rewrite Ehd. split.
  - split; try (intros; rewrite Ed; done).
    + intros n Hn. rewrite Eh. by rewrite lookup_insert_ne.
    + intros n k Hn. rewrite Hlook by congruence. by rewrite bool_decide_eq_false_2 by tauto.
  - split; [by rewrite Ed|]. split; [by rewrite Ed|]. split; [by rewrite Ed|]. split; [|done]. rewrite Eh, lookup_insert_eq. eauto.
Qed.

Record write_finished (request : WriteDataRequest) (fingerprintEncoded : list Z) (next : Z) (d : database)
  (response : WriteDataResponse) (d' : database) : Prop := {
  wf_response : response = mkWriteDataResponse next false;
  wf_generation : hd_dataGeneration (head_row d' (wd_namespace request)) = next;
  wf_sequence : hd_eventSequence (head_row d' (wd_namespace request)) = hd_eventSequence (head_row d (wd_namespace request)) + 1;
  wf_event : exists row event,
    db_events d' !! (wd_namespace request, hd_eventSequence (head_row d' (wd_namespace request))) = Some row /\
    event_stored cursorKey (wd_namespace request) (hd_eventSequence (head_row d' (wd_namespace request))) row event /\
    ev_kind event = StateEventDataWritten /\ ev_dataGeneration event = next;
  wf_replay : exists encoded, encodeIdempotencyResponse response = Ok encoded /\
    db_idempotency d' = <[(wd_namespace request, wd_idempotencyKey request) := mkIdempotencyRow fingerprintEncoded encoded]> (db_idempotency d);
  wf_ok : namespace_ok (wd_namespace request) d';
  wf_facts : facts_same d d';
  wf_policies : policies_same d d';
  wf_others : others_same (wd_namespace request) d d' }.

Lemma finish_write_effect request fingerprintEncoded next : 0 < next <= MaxInt64 ->
  effects (finish_write cursorKey request fingerprintEncoded next) (fun d response d' =>
    namespace_ok (wd_namespace request) d -> write_finished request fingerprintEncoded next d response d').
Proof.
  intros Hnext. unfold finish_write. set (ns := wd_namespace request). cbv zeta. eapply effects_mono.
  { eapply effects_bind; [apply effectiveNow_effect|]. intros occurredAt. eapply effects_bind; [apply effects_lift|]. intros response.
    eapply effects_bind; [apply effects_lift|]. intros encoded.
    eapply effects_bind; [apply appendStateEvent_effect; cbn; unfold unsigned, MaxInt64 in *; lia|]. intros u1.
    eapply effects_bind; [apply effects_exec|]. intros u2. eapply effects_bind; [apply effects_exec|]. intros u3. apply effects_ret. }
  cbn beta. intros d r d' (occurredAt & d1 & (h1 & -> & Hok1 & (Eg & Es & Ex) & _) & response & d2 & [Hr ->] & encoded & d3 & [He ->] &
    u1 & d4 & Happ & u2 & d5 & Hins & u3 & d6 & Hupd & -> & ->) (Hst & Hseq & Hgen).
  cbn [ev_namespace data_input] in Happ.
  assert (Hst1 : stream_ok ns (with_heads (<[ns := h1]>) d)).
  { apply (stream_ok_heads ns d); rewrite ?head_row_with; auto. }
  specialize (Happ Hst1 ltac:(by rewrite head_row_with, Es)). pose proof (appended_frame _ _ _ _ Happ) as (Ho & Hp & Hf & Hid & [h4 Hh4] & Hg4 & Hs4).
  cbn [ev_namespace data_input] in *. fold ns in Ho, Hh4, Hg4, Hs4. rewrite head_row_with in Hg4, Hs4.
  assert (Eh4 : head_row d4 ns = h4) by (unfold head_row; by rewrite Hh4). rewrite Eh4 in *.
  unfold sql_insert_idempotency in Hins. destruct (db_idempotency d4 !! _); [done|]. injection Hins as <-.
  destruct (update_head_effect ns _ (with_idempotency _ d4) d6 h4 Hh4 Hupd) as [-> _].
  assert (Eh : head_row (with_heads (<[ns := set_dataGeneration next h4]>) (with_idempotency
    (<[(ns, wd_idempotencyKey request) := mkIdempotencyRow fingerprintEncoded encoded]>) d4)) ns = set_dataGeneration next h4) by apply head_row_with.
  assert (response = mkWriteDataResponse next false) as ->.
  { unfold NewWriteDataResponse in Hr. destruct (next =? 0); [done|]. by injection Hr. }
  destruct Happ as [_ Hroom Hst4 (row & event & Hrow & Hsto & Hk & _ & _ & _ & Hdg & _)]. cbn [ev_namespace data_input ev_kind ev_dataGeneration] in *.
  fold ns in Hst4, Hrow, Hsto. rewrite head_row_with, <- Hs4 in Hrow, Hsto.
  split; fold ns; rewrite ?Eh; cbn [hd_dataGeneration hd_eventSequence set_dataGeneration]; auto.
  - by rewrite Hs4, Es.
  - exists row, event. auto.
  - exists encoded. split; [done|]. cbn. by rewrite Hid.
  - unfold namespace_ok. rewrite Eh. cbn [hd_dataGeneration hd_eventSequence set_dataGeneration]. destruct Hst4 as [Hok4 Hev4]. rewrite Eh4 in *.
    split; [|split; [|lia]].
    + split; rewrite Eh; [unfold head_ok in *; cbn; lia|]. cbn. exact Hev4.
    + fold ns in Hroom. rewrite head_row_with in Hroom. lia.
  - etrans; [apply (others_with_heads ns h1)|]. etrans; [exact Ho|]. split; try done.
    + intros n Hn. cbn. by rewrite lookup_insert_ne.
    + intros n k Hn. cbn. rewrite lookup_insert_ne by congruence. done.
Qed.

Lemma response_recorded response encoded : unsigned 64 (wr_generation response) ->
  encodeIdempotencyResponse response = Ok encoded -> decodeIdempotencyResponse encoded false = Ok response.
Proof.
  intros Hg He. apply (codec_exact (decode := fun bs => decodeIdempotencyResponse bs false)); [|done].
  unfold encodeIdempotencyResponse in He. destruct (_ || _); [done|]. apply Ok_inj in He as <-. codec_unfold.
  apply Forall_app. split; [by repeat constructor|apply be_encode_bytes].
Qed.

(** A new write passes its guards and finishes with the next generation. *)
Record write_admitted (request : WriteDataRequest) (fingerprintEncoded : list Z) (d : database) (response : WriteDataResponse)
  (d' : database) : Prop := {
  wa_revision : is_Some (db_revisions d !! (wd_namespace request, wd_validationRevisionID request));
  wa_expected : hd_dataGeneration (head_row d (wd_namespace request)) = wd_expectedGeneration request;
  wa_room : 0 <= wd_expectedGeneration request < MaxInt64;
  wa_finished : exists d1,
    let d0 := with_heads (<[wd_namespace request := head_row d (wd_namespace request)]>) d in
    facts_frame (wd_namespace request) d0 d1 /\
    (forall T, tuples_held (wd_namespace request) T d0 -> tuples_held (wd_namespace request) (spec_tuples request T) d1) /\
    (forall A, attributes_held (wd_namespace request) A d0 ->
       attributes_held (wd_namespace request) (spec_attributes request A) d1 /\ ~ blocked request A) /\
    (namespace_ok (wd_namespace request) d1 ->
       write_finished request fingerprintEncoded (wd_expectedGeneration request + 1) d1 response d') }.

Lemma write_fresh_effect request fingerprintEncoded : mutations_ok request -> request_machine request ->
  effects (write_fresh cursorKey request fingerprintEncoded) (fun d response d' =>
    hd_dataGeneration (head_row d (wd_namespace request)) <= MaxInt64 -> write_admitted request fingerprintEncoded d response d').
Proof.
  intros Hm Hi. unfold write_fresh. cbv zeta. set (ns := wd_namespace request). eapply effects_mono.
  { eapply effects_bind; [apply readRevision_effect|]. intros found.
    apply (effects_mono _ (fun d response d' => is_Some found /\ exists h, (h = head_row d ns /\ head_ok h) /\
      (hd_dataGeneration h <= MaxInt64 ->
       hd_dataGeneration h = wd_expectedGeneration request /\ hd_dataGeneration h <> MaxInt64 /\
       exists d1, facts_frame ns (with_heads (<[ns := h]>) d) d1 /\
        (forall T, tuples_held ns T (with_heads (<[ns := h]>) d) -> tuples_held ns (spec_tuples request T) d1) /\
        (forall A, attributes_held ns A (with_heads (<[ns := h]>) d) -> attributes_held ns (spec_attributes request A) d1 /\ ~ blocked request A) /\
        (namespace_ok ns d1 -> write_finished request fingerprintEncoded (hd_dataGeneration h + 1) d1 response d'))));
      [|exact (fun _ _ _ H => H)].
    destruct found as [record|]; [|by eapply effects_mono; [apply effects_fail|]]. eapply effects_mono.
    { eapply effects_bind; [apply ensureNamespaceHead_effect|]. intros h.
      apply (effects_mono _ (fun d response d' => head_ok h -> hd_dataGeneration h <= MaxInt64 -> hd_dataGeneration h = wd_expectedGeneration request /\ hd_dataGeneration h <> MaxInt64 /\
        exists d1, facts_frame ns d d1 /\ (forall T, tuples_held ns T d -> tuples_held ns (spec_tuples request T) d1) /\
          (forall A, attributes_held ns A d -> attributes_held ns (spec_attributes request A) d1 /\ ~ blocked request A) /\
          (namespace_ok ns d1 -> write_finished request fingerprintEncoded (hd_dataGeneration h + 1) d1 response d')));
        [|exact (fun _ _ _ H => H)].
      destruct (Z.eqb_spec (hd_dataGeneration h) (wd_expectedGeneration request)); cbn [negb]; [|by eapply effects_mono; [apply effects_fail|]].
      destruct (Z.eqb_spec (hd_dataGeneration h) MaxInt64); [by eapply effects_mono; [apply effects_fail|]|].
      intros env s a s' Hrun Hok Hle. unfold head_ok in Hok.
      apply (effects_bind _ _ _ _ (write_facts_effect request Hm Hi) (fun _ => finish_write_effect request fingerprintEncoded (hd_dataGeneration h + 1) ltac:(lia))) in Hrun.
      destruct Hrun as (u & d1 & (F & HT & HA) & Hw). eauto 10. }
    cbn beta. intros d response d' (h & d1 & (-> & Hok & ->) & Hrest). split; [eauto|]. exists (head_row d ns). auto. }
  cbn beta. intros d response d' (found & d0 & [-> Hfound] & [record ->] & h & [-> Hok] & Hrest) Hle.
  destruct Hfound as (row & Hrow & _). destruct (Hrest Hle) as (Hg & Hne & Hd1). unfold head_ok in Hok. rewrite Hg in *.
  split; [eauto|done|lia|exact Hd1].
Qed.

Lemma write_admitted_written request fingerprint fingerprintEncoded d response d' :
  decodeIdempotencyFingerprint fingerprintEncoded = Ok fingerprint ->
  db_idempotency d !! (wd_namespace request, wd_idempotencyKey request) = None -> namespace_ok (wd_namespace request) d ->
  write_admitted request fingerprintEncoded d response d' -> data_written request fingerprint d response d'.
Proof.
  intros Hfp Hfresh (Hst & Hseq & Hgen) [Hrev Hexp Hroom (d1 & F & HT & HA & Hw)]. cbv zeta in *.
  set (ns := wd_namespace request) in *. set (d0 := with_heads _ d) in *.
  assert (E0 : head_row d1 ns = head_row d ns) by (rewrite (head_row_frame ns d0 d1) by apply F; apply head_row_with).
  assert (Hns : namespace_ok ns d1).
  { split; [|by rewrite E0]. apply (stream_ok_heads ns d); rewrite ?E0; try done; [by rewrite (ff_events _ _ _ F)|apply Hst]. }
  destruct (Hw Hns) as [Hr Hg Hs Hev (encoded & Henc & Hid) Hok (Ef1 & Ef2 & Ef3) Hp Ho].
  assert (Ho0 : others_same ns d d0) by apply others_with_heads. fold ns in Hg, Hs, Hev, Hid, Hok, Ho.
  split; fold ns; auto.
  - intros T HT0. eapply tuples_held_same; [exact Ef1|]. apply HT. by eapply tuples_held_same; [|exact HT0].
  - intros A HA0. destruct (HA A) as [HA' Hno]; [by eapply attributes_held_same; [| |exact HA0]|]. split; [|done].
    by eapply attributes_held_same; [exact Ef2|exact Ef3|].
  - by rewrite Hs, E0.
  - exists (mkIdempotencyRow fingerprintEncoded encoded). split; [split; [done|]|].
    + apply response_recorded; [|done]. rewrite Hr. cbn. unfold unsigned, MaxInt64 in *. lia.
    + by rewrite Hid, (ff_idempotency _ _ _ F).
  - etrans; [exact (ff_policies _ _ _ F)|exact Hp].
  - etrans; [exact Ho0|]. etrans; [exact (ff_others _ _ _ F)|exact Ho].
Qed.

(** The whole callback: a replay, or the specified write. *)
Lemma write_data_effect request fingerprint fingerprintEncoded :
  mutations_ok request -> request_machine request -> decodeIdempotencyFingerprint fingerprintEncoded = Ok fingerprint ->
  effects (write_data cursorKey request fingerprint fingerprintEncoded) (fun d response d' =>
    namespace_ok (wd_namespace request) d ->
    data_replayed request fingerprint d response d' \/ data_written request fingerprint d response d').
Proof.
  intros Hm Hi Hfp. unfold write_data. eapply effects_mono.
  { eapply effects_bind; [apply readIdempotencyRecord_effect|]. intros found.
    apply (effects_mono _ (fun d response d' => match found with
      | Some (fp, stored) => d' = d /\ fp = fingerprint /\ response = mkWriteDataResponse (wr_generation stored) true
      | None => hd_dataGeneration (head_row d (wd_namespace request)) <= MaxInt64 -> write_admitted request fingerprintEncoded d response d'
      end)); [|exact (fun _ _ _ H => H)].
    destruct found as [[fp stored]|]; [|by apply write_fresh_effect].
    case_bool_decide as Ef; cbn [negb]; [|by eapply effects_mono; [apply effects_fail|]].
    eapply effects_mono; [apply effects_lift|]. cbn. intros d response d' [Hr ->]. split; [done|]. split; [done|].
    unfold NewWriteDataResponse in Hr. destruct (_ =? 0); [done|]. by injection Hr. }
  cbn beta. intros d response d' (found & d0 & [-> Hfound] & Hr) Hns. destruct found as [[fp stored]|].
  - destruct Hfound as (row & Hrow & Hrec), Hr as (-> & -> & ->). left. split; [done|]. exists row, stored. auto.
  - right. eapply write_admitted_written; eauto. apply Hr, Hns.
Qed.

(** * The handler *)

Lemma canonical_same request canonical : NewWriteDataRequest (request_input request) = Ok canonical ->
  wd_namespace canonical = wd_namespace request /\ wd_idempotencyKey canonical = wd_idempotencyKey request /\
  wd_expectedGeneration canonical = wd_expectedGeneration request /\ (request_machine request -> request_machine canonical).
Proof.
  intros [_ Hc]%NewWriteDataRequest_Ok_guards. apply canonical_write_Ok in Hc as (_ & _ & Ha & _ & _ & _ & Hn & _ & Hg & Hk).
  split; [done|]. split; [done|]. split; [done|]. apply canonicalAttributes_Ok in Ha as (_ & Hin & _).
  unfold request_machine. rewrite !Forall_forall. intros Hm a Hx. by apply Hm, Hin.
Qed.

(** What the handler prepares before it enters the queue. *)
Definition prepared_write (request canonical : WriteDataRequest) (fingerprint fingerprintEncoded : list Z) : Prop :=
  NewWriteDataRequest (request_input request) = Ok canonical /\ exists sf, FingerprintWriteData canonical = Ok sf /\
    Fingerprint_Bytes sf.2 = fingerprint /\ encodeIdempotencyFingerprint sf.2 = Ok fingerprintEncoded.

(** The write answers what was committed, and what was committed is a replay
    or the specified write; otherwise nothing changed. *)
Definition write_outcome (env : callEnv) (request : WriteDataRequest) (d : database)
  (r : result WriteDataResponse) (d' : database) (notified : bool) : Prop :=
  (exists e, r = Err e /\ d' = d /\ notified = false) \/
  exists canonical fingerprint response,
    NewWriteDataRequest (request_input request) = Ok canonical /\ request_fingerprint canonical fingerprint /\
    (data_replayed canonical fingerprint d response d' \/ data_written canonical fingerprint d response d') /\
    (r = Ok response /\ notified = negb (wr_replayed response) \/
     notified = false /\ answer_lost env /\ exists e, r = Err e).

Lemma sqlite_WriteData_enters env request d : 
  (exists e, sqlite_WriteData cursorKey env request d = (Err e, d, false)) \/
  exists canonical fingerprint fingerprintEncoded, prepared_write request canonical fingerprint fingerprintEncoded /\
    sqlite_WriteData cursorKey env request d =
      let '(r, d') := call_write env (write_data cursorKey canonical fingerprint fingerprintEncoded) d in
      (r, d', match r with Ok response => negb (wr_replayed response) | Err _ => false end).
Proof.
  unfold sqlite_WriteData, canonicalWriteDataRequest. destruct (sqliteContextError (ce_ctx env 0)); cbn [rbind]; [|eauto].
  destruct (NewWriteDataRequest (request_input request)) as [canonical|] eqn:Hc; cbn [mapped rbind]; [|eauto].
  destruct (FingerprintWriteData canonical) as [sf|] eqn:Hf; cbn [mapped rbind]; [|eauto].
  destruct (encodeIdempotencyFingerprint sf.2) as [enc|] eqn:He; cbn [rbind]; [|eauto].
  destruct (sqliteContextError (ce_ctx env 2)); cbn [rbind]; [|eauto]. right.
  exists canonical, (Fingerprint_Bytes sf.2), enc. split; [|done]. split; [done|]. by exists sf.
Qed.

Lemma write_refines env request d r d' notified :
  sqlite_WriteData cursorKey env request d = (r, d', notified) -> namespace_ok (wd_namespace request) d ->
  request_machine request -> write_outcome env request d r d' notified.
Proof.
  intros Hw Hns Hi. destruct (sqlite_WriteData_enters env request d) as [[e E]|(canonical & fp & enc & (Hc & sf & Hf & Hb & Henc) & E)];
    rewrite E in Hw; [injection Hw as <- <- <-; left; eauto|].
  destruct (canonical_same _ _ Hc) as (En & _ & _ & Hi'). specialize (Hi' Hi).
  assert (Hd : decodeIdempotencyFingerprint enc = Ok fp) by (rewrite <- Hb; by apply fingerprint_codec).
  destruct (call_write _ _ d) as [r1 d1] eqn:Hcall. injection Hw as <- <- <-.
  apply (call_write_atomic _ _ _ _ _ _ (write_data_effect canonical fp enc (fingerprinted_ok _ _ Hf) Hi' Hd)) in Hcall.
  rewrite En in Hcall. assert (Hrf : request_fingerprint canonical fp) by (by exists sf). destruct r1 as [response|e].
  - right. exists canonical, fp, response. split; [done|]. split; [done|]. split; [by apply Hcall|by left].
  - destruct Hcall as [->|(Hl & response & Hx)]; [left; eauto|]. right. exists canonical, fp, response. split; [done|]. split; [done|].
    split; [by apply Hx|]. right. split; [done|]. split; [done|]. by exists e.
Qed.

(** * Replay *)

(** No fault, no deadline, and the caller waits for the answer. *)
Definition calm (env : callEnv) : Prop :=
  (forall n, ce_ctx env n = LiveContext) /\ ce_queue env = QueueServed /\ (forall n, te_ctx (ce_tx env) n = LiveContext) /\
  (forall n, te_fault (ce_tx env) n = None) /\ te_closed (ce_tx env) = false /\ ce_begin env = None /\ ce_commit env = CommitDone.

Lemma response_generation encoded response : decodeIdempotencyResponse encoded false = Ok response -> wr_generation response <> 0.
Proof.
  unfold decodeIdempotencyResponse, readOr. intros Hd. repeat case_match; try done. rewrite integrity_Ok in Hd.
  unfold NewWriteDataResponse in Hd. destruct (Z.eqb_spec z1 0); [done|]. by injection Hd as <-.
Qed.

(** A recorded response is what every later call with the request answers. *)
Lemma replay_answers env request canonical fp enc row stored d : calm env -> prepared_write request canonical fp enc ->
  db_idempotency d !! (wd_namespace request, wd_idempotencyKey request) = Some row -> replay_recorded row fp stored ->
  sqlite_WriteData cursorKey env request d = (Ok (mkWriteDataResponse (wr_generation stored) true), d, false).
Proof.
  intros (Hctx & Hq & Htc & Hnf & Hcl & Hb & Hcm) (Hc & sf & Hf & <- & He) Hrow [Hdf Hdr]. unfold sqlite_WriteData, canonicalWriteDataRequest.
  rewrite !Hctx. cbn [sqliteContextError rbind]. rewrite Hc. cbn [mapped rbind]. rewrite Hf. cbn [mapped rbind]. rewrite He. cbn [rbind].
  unfold call_write, database_write, executeWrite. rewrite Hq, Htc, Hcl, Hb. cbn [sqliteContextError].
  destruct (canonical_same _ _ Hc) as (En & Ek & _).
  unfold write_data, readIdempotencyRecord, tx_bind, tx_query, in_transaction. cbn [te_fault te_seen tx_db tx_step]. rewrite Hnf.
  rewrite En, Ek, Hrow. cbn [tx_lift]. rewrite Hdf, Hdr. cbn [tx_ret]. rewrite bool_decide_eq_true_2 by done. cbn [negb].
  unfold NewWriteDataResponse. rewrite (proj2 (Z.eqb_neq _ _) (response_generation _ _ Hdr)). unfold tx_lift, integrity. cbn [tx_step tx_db].
  rewrite Htc. cbn [sqliteContextError]. by rewrite Hcm.
Qed.

(** A write that changed the tables is answered by every later retry, as long
    as the replay record is there. *)
Lemma committed_replays env request d r d' notified env' d2 :
  sqlite_WriteData cursorKey env request d = (r, d', notified) -> namespace_ok (wd_namespace request) d ->
  request_machine request -> d' <> d -> calm env' ->
  db_idempotency d2 !! (wd_namespace request, wd_idempotencyKey request) =
    db_idempotency d' !! (wd_namespace request, wd_idempotencyKey request) ->
  sqlite_WriteData cursorKey env' request d2 = (Ok (mkWriteDataResponse (wd_expectedGeneration request + 1) true), d2, false).
Proof.
  intros Hw Hns Hi Hne Hcalm Hkeep. pose proof (write_refines _ _ _ _ _ _ Hw Hns Hi) as Hout.
  destruct (sqlite_WriteData_enters env request d) as [[e E]|(canonical & fp & enc & Hp & E)]; [congruence|].
  destruct Hout as [(e & _ & -> & _)|(canonical' & fp' & response & Hc' & (sf' & Hf' & Hfp') & Hwr & _)]; [done|].
  pose proof Hp as (Hc & sf & Hf & Hb & _). rewrite Hc in Hc'. injection Hc' as <-. rewrite Hf in Hf'. injection Hf' as <-.
  assert (fp' = fp) as -> by congruence. destruct (canonical_same _ _ Hc) as (En & Ek & Eg & _).
  destruct Hwr as [[-> _]|Hwr]; [done|]. destruct (dw_replay _ _ _ _ _ Hwr) as (row & Hrec & Hid).
  rewrite Hid, En, Ek, lookup_insert_eq in Hkeep. rewrite (replay_answers _ _ _ _ _ _ _ _ Hcalm Hp Hkeep Hrec).
  by rewrite (dw_response _ _ _ _ _ Hwr), Eg.
Qed.

(** C6: Data writes of the SQLite store refine the specification of the
    in-memory store. Whatever the context, the statements, the queue and the
    commit do, a call either fails and leaves the tables untouched, or what was
    committed is the replay of a recorded response (tables untouched) or one
    write: the revision exists, the expected generation was current, no
    written attribute lies above or below a kept one, the tuples and attributes
    become [spec_tuples] and [spec_attributes] of the former ones, the
    generation rises by one, one event with the next number decodes back to
    it, the response is recorded for replay, and other namespaces, revisions
    and slots stay. An error after a commit means that the caller stopped
    waiting or that the answer of COMMIT was lost. *)
Theorem sqlite_write_refines env request d r d' notified :
  sqlite_WriteData cursorKey env request d = (r, d', notified) -> namespace_ok (wd_namespace request) d ->
  request_machine request -> write_outcome env request d r d' notified.
Proof. apply write_refines. Qed.

(** C7: Once a write of the SQLite store has changed the tables, even when its
    answer was lost, every undisturbed retry of the request answers the same
    generation as replayed, notifies nobody and changes nothing, for as long as
    the replay record is kept, whatever else was written in between. *)
Theorem sqlite_retry_replays env request d r d' notified env' d2 :
  sqlite_WriteData cursorKey env request d = (r, d', notified) -> namespace_ok (wd_namespace request) d ->
  request_machine request -> d' <> d -> calm env' ->
  db_idempotency d2 !! (wd_namespace request, wd_idempotencyKey request) =
    db_idempotency d' !! (wd_namespace request, wd_idempotencyKey request) ->
  sqlite_WriteData cursorKey env' request d2 = (Ok (mkWriteDataResponse (wd_expectedGeneration request + 1) true), d2, false).
Proof. apply committed_replays. Qed.

End SqliteWrite.
