(* ===== verification/SqlitePolicies.v ===== *)
(** What publication and activation do in the SQLite store
    (store/sqlite/revisions.go, slots.go).

    A publication stores the record once and logs it; an activation is a
    compare-and-swap on the slot's row that extends a bounded history and logs
    the change. Both are atomic, like data writes. *)

From Stdlib Require Import ZArith Lia Sorted Permutation.
From stdpp Require Import base list gmap strings.
From S2P Require Import Prelude Limits Text Types Invocation Cost Canon Data DataValid Policy Events Revisions Avl Index Cursor Fingerprint StoreData MemState MemEvents MemOps MemData MemWrite SqliteCodec SqliteData SqliteCursor SqliteDb SqliteStore SqliteEffects SqliteFacts SqliteWrite.

(** Only the time of the namespace's head moved, beside policy tables. *)
Record timed (ns : string) (d d' : database) : Prop := {
  tm_head : exists h, db_heads d' = <[ns := h]> (db_heads d) /\ head_ok h /\ timed_head (head_row d ns) h;
  tm_events : db_events d' = db_events d;
  tm_facts : facts_same d d';
  tm_idempotency : db_idempotency d' = db_idempotency d }.

Lemma timed_head_row ns d d' : timed ns d d' -> head_ok (head_row d' ns) /\ timed_head (head_row d ns) (head_row d' ns).
Proof. intros [(h & Eh & Hok & Ht) _ _ _]. unfold head_row at 1 3. rewrite Eh, lookup_insert_eq. done. Qed.

Lemma timed_others ns d d' : timed ns d d' -> others_same ns d d'.
Proof.
  intros [(h & Eh & _) Ee (E1 & E2 & E3) Ei]. split; intros; rewrite ?Eh, ?Ee, ?E1, ?E2, ?E3, ?Ei; try done. by rewrite lookup_insert_ne.
Qed.

Lemma timed_ok ns d d' : timed ns d d' -> namespace_ok ns d -> namespace_ok ns d'.
Proof.
  intros Ht (Hst & Hs & Hg). destruct (timed_head_row _ _ _ Ht) as (Hok & Eg & Es & Ex). split; [|by rewrite Es, Eg].
  apply (stream_ok_heads ns d); auto. apply Ht.
Qed.

Lemma effectiveNow_timed ns : effects (effectiveNow ns) (fun d t d' => timed ns d d' /\ policies_same d d' /\ time_wf t).
Proof.
  eapply effects_mono; [apply effectiveNow_effect|]. intros d t d' (h & -> & Hok & Ht & Hw). split; [|done].
  split; try done. exists h. done.
Qed.

Section SqlitePolicies.
Context `{D : Dsl} `{H : Hmac} (cursorKey : list Z).

(** One event was logged; facts, replay records and other namespaces stay. *)
Record logged (input : StateEvent) (d d' : database) : Prop := {
  lg_generation : hd_dataGeneration (head_row d' (ev_namespace input)) = hd_dataGeneration (head_row d (ev_namespace input));
  lg_sequence : hd_eventSequence (head_row d' (ev_namespace input)) = hd_eventSequence (head_row d (ev_namespace input)) + 1;
  lg_event : exists row event,
    db_events d' !! (ev_namespace input, hd_eventSequence (head_row d' (ev_namespace input))) = Some row /\
    event_stored cursorKey (ev_namespace input) (hd_eventSequence (head_row d' (ev_namespace input))) row event /\
    ev_kind event = ev_kind input /\ ev_revisionID event = ev_revisionID input /\ ev_slot event = ev_slot input /\
    ev_slotGeneration event = ev_slotGeneration input;
  lg_facts : facts_same d d';
  lg_idempotency : db_idempotency d' = db_idempotency d;
  lg_others : others_same (ev_namespace input) d d';
  lg_ok : namespace_ok (ev_namespace input) d' }.

Lemma appended_logged input occurredAt d d1 d' : timed (ev_namespace input) d d1 -> namespace_ok (ev_namespace input) d ->
  (stream_ok (ev_namespace input) d1 -> hd_eventSequence (head_row d1 (ev_namespace input)) <= MaxInt64 ->
     event_added cursorKey input occurredAt d1 d') ->
  logged input d d' /\ policies_same d1 d'.
Proof.
  intros Ht Hok Ha. pose proof (timed_ok _ _ _ Ht Hok) as (Hst1 & Hs1 & Hg1). specialize (Ha Hst1 Hs1).
  destruct (timed_head_row _ _ _ Ht) as (_ & Eg & Es & _).
  destruct (appended_frame _ _ _ _ _ Ha) as (Ho & Hp & (F1 & F2 & F3) & Hid & _ & Hg & Hs). split; [|done].
  destruct Ha as [_ Hroom Hst (row & event & Hrow & Hsto & Hk & Hr & Hsl & Hsg & _)]. rewrite <- Hs in Hrow, Hsto.
  destruct (tm_facts _ _ _ Ht) as (G1 & G2 & G3). split.
  - by rewrite Hg.
  - by rewrite Hs, Es.
  - exists row, event. auto 8.
  - split; [|split]; congruence.
  - rewrite Hid. apply Ht.
  - etrans; [exact (timed_others _ _ _ Ht)|exact Ho].
  - split; [done|]. split; [lia|]. rewrite Hg. lia.
Qed.

(** * Publication *)

(** What a new publication leaves behind. *)
Record revision_published (record : RevisionRecord) (publishedAtNS : Z) (provenance : list Z) (d d' : database) : Prop := {
  rp_fresh : db_revisions d !! (rm_namespace (rw_metadata record), RevisionMetadata_ID (rw_metadata record)) = None;
  rp_row : db_revisions d' = <[(rm_namespace (rw_metadata record), RevisionMetadata_ID (rw_metadata record)) :=
    mkRevisionRow (rw_artifact record) provenance publishedAtNS]> (db_revisions d);
  rp_slots : db_slots d' = db_slots d /\ db_history d' = db_history d;
  rp_logged : logged (publish_input (rm_namespace (rw_metadata record)) (RevisionMetadata_ID (rw_metadata record))) d d' }.

(** The stored row of the record's identifier, which is the same artifact. *)
Definition revision_found (record stored : RevisionRecord) (d : database) : Prop :=
  exists row, db_revisions d !! (rm_namespace (rw_metadata record), RevisionMetadata_ID (rw_metadata record)) = Some row /\
    decodeRevisionRecord (rm_namespace (rw_metadata record)) (RevisionMetadata_ID (rw_metadata record))
      (rvr_artifact row) (rvr_provenance row) (rvr_publishedAtNS row) = Ok stored /\
    rw_artifact stored = rw_artifact record.

Lemma put_revision_effect record publishedAtNS provenance :
  effects (put_revision cursorKey record publishedAtNS provenance) (fun d found d' =>
    namespace_ok (rm_namespace (rw_metadata record)) d ->
    match found with
    | Some stored => d' = d /\ revision_found record stored d
    | None => revision_published record publishedAtNS provenance d d'
    end).
Proof.
  unfold put_revision. set (ns := rm_namespace (rw_metadata record)). set (id := RevisionMetadata_ID (rw_metadata record)). cbv zeta.
  eapply effects_mono.
  { eapply effects_bind; [apply effects_context|]. intros u. eapply effects_bind; [apply readRevision_effect|]. intros found.
    apply (effects_mono _ (fun d answer d' => match found with
      | Some stored => d' = d /\ answer = Some stored /\ rw_artifact stored = rw_artifact record
      | None => answer = None /\ exists occurredAt d1 d2,
          sql_insert_revision ns id (mkRevisionRow (rw_artifact record) provenance publishedAtNS) d = Some d1 /\
          (timed ns d1 d2 /\ policies_same d1 d2 /\ time_wf occurredAt) /\
          (stream_ok ns d2 -> hd_eventSequence (head_row d2 ns) <= MaxInt64 -> event_added cursorKey (publish_input ns id) occurredAt d2 d')
      end)); [|exact (fun _ _ _ H => H)].
    destruct found as [stored|].
    - case_bool_decide as Ea; cbn [negb]; [|by eapply effects_mono; [apply effects_fail|]].
      eapply effects_mono; [apply effects_ret|]. cbn. by intros ? ? ? [-> ->].
    - eapply effects_mono.
      { eapply effects_bind; [apply effects_exec|]. intros u1. eapply effects_bind; [apply effectiveNow_timed|]. intros occurredAt.
        eapply effects_bind; [apply appendStateEvent_effect; cbn; unfold unsigned; lia|]. intros u2. apply effects_ret. }
      cbn beta. intros d answer d' (u1 & d1 & Hi & occurredAt & d2 & Ht & u2 & d3 & Ha & -> & ->). split; [done|]. exists occurredAt, d1, d2. auto. }
  cbn beta. intros d answer d' (u & d0 & -> & found & d1 & [-> Hfound] & Hr) Hok. destruct found as [stored|].
  - destruct Hr as (-> & -> & Ea), Hfound as (row & Hrow & Hd). split; [done|]. exists row. auto.
  - destruct Hr as (-> & occurredAt & d1 & d2 & Hi & (Ht & Hp & _) & Ha). unfold sql_insert_revision in Hi. rewrite Hfound in Hi. injection Hi as <-.
    assert (Ht0 : timed ns d d2).
    { destruct Ht as [Hh He Hf Hid]. split; [exact Hh|exact He|exact Hf|exact Hid]. }
    destruct (appended_logged (publish_input ns id) occurredAt d d2 d' Ht0 Hok Ha) as [Hl (R & S & Y)].
    destruct Hp as (R' & S' & Y'). split; [done|by rewrite R, R'|by split; [rewrite S, S'|rewrite Y, Y']|done].
Qed.

Lemma rebuild_write_fields m artifact provenance w : rebuild_write m artifact provenance = Ok w ->
  rw_metadata w = m /\ rw_artifact w = artifact /\
  rw_provenance w = (if RevisionProvenance_Valid provenance then provenance else zero_provenance) /\
  0 < zlen artifact <= MaxPolicyArtifactBytes.
Proof.
  unfold rebuild_write, NewRevisionWriteWithProvenance, NewRevisionWrite. pose proof (zlen_nonneg artifact). destruct (validateRevisionMetadata m); [|by destruct (RevisionProvenance_Valid provenance)].
  cbn [rbind]. destruct (Z.eqb_spec (zlen artifact) 0); [by destruct (RevisionProvenance_Valid provenance)|].
  destruct (Z.ltb_spec MaxPolicyArtifactBytes (zlen artifact)); [by destruct (RevisionProvenance_Valid provenance)|].
  destruct (RevisionProvenance_Valid provenance); cbn; intros [= <-]; cbn; repeat split; lia.
Qed.

Lemma encodeRevisionProvenance_bytes p bs : Forall is_byte (prov_originalSource p) -> encodeRevisionProvenance p = Ok bs -> Forall is_byte bs.
Proof.
  intros Hb. unfold encodeRevisionProvenance. destruct (RevisionProvenance_Valid p).
  - destruct (_ || _); [done|]. intros E. apply Ok_inj in E as <-. codec_unfold. rewrite !Forall_app.
    repeat split; auto using be_encode_bytes, bytes_of_string_range; by repeat constructor.
  - intros E. repeat case_match; try done; apply Ok_inj in E as <-; by repeat constructor.
Qed.

(** A record that was prepared for storage reads back as itself. *)
Lemma canonical_record_reads write record publishedAtNS provenance :
  canonicalRevisionRecord write = Ok (record, publishedAtNS, provenance) -> Forall is_byte (prov_originalSource (rw_provenance write)) ->
  rm_namespace (rw_metadata record) = rm_namespace (rw_metadata write) /\ RevisionRecord_Valid record = true /\
  decodeRevisionRecord (rm_namespace (rw_metadata record)) (RevisionMetadata_ID (rw_metadata record)) (rw_artifact record)
    provenance publishedAtNS = Ok record.
Proof.
  unfold canonicalRevisionRecord. destruct (RevisionWrite_Valid write) eqn:Hv; [|done]. cbn [negb]. cbv zeta. intros E Hb.
  apply rbind_ok in E as (id & Hid & E). destruct (ParseRevisionID _) as [id'|] eqn:Hp; [|done]. injection Hid as ->.
  destruct (ParseRevisionID_Ok _ _ Hp) as (_ & Hwf & Eid).
  destruct (sqliteTimestamp _) as [[publishedAt nanos]|] eqn:Hs; [|done]. destruct (sqliteTimestamp_fixed _ _ _ Hs) as [-> Hu].
  apply rbind_ok in E as (m & Hm & (w & Hw & (r & Hr & (pe & Hpe & [= <- <- <-])%rbind_ok)%rbind_ok)%rbind_ok).
  destruct (NewRevisionMetadata _ _ _) as [m'|] eqn:Hmeta; [|done]. injection Hm as ->.
  destruct (rebuild_write _ _ _) as [w'|] eqn:Hrw; [|done]. injection Hw as ->.
  assert (r = w) as ->. { unfold NewRevisionRecordFromWrite in Hr. destruct (RevisionWrite_Valid w); [|done]. by apply rbind_ok in Hr as (? & _ & [= <-]). }
  destruct (rebuild_write_fields _ _ _ _ Hrw) as (Em & Ea & Ep & Hz).
  assert (Emeta : m = mkRevisionMetadata (rm_namespace (rw_metadata write)) id (rm_publishedAt (rw_metadata write)) /\
    validateNamespace (rm_namespace (rw_metadata write)) = Ok tt).
  { unfold NewRevisionMetadata in Hmeta. apply rbind_ok in Hmeta as (? & _ & ([] & Hn & Hmeta)%rbind_ok). destruct (_ || _); [done|]. by injection Hmeta as <-. }
  destruct Emeta as [Emeta Hns]. rewrite Em, Ea. rewrite Emeta. cbn [rm_namespace RevisionMetadata_ID rm_id].
  split; [done|]. split.
  { unfold NewRevisionRecordFromWrite in Hr. unfold RevisionRecord_Valid. destruct (RevisionWrite_Valid w); [|done]. cbn [negb] in Hr.
    by destruct (verifyRevisionContent w). }
  unfold decodeRevisionRecord. destruct (Z.eqb_spec (zlen (rw_artifact write)) 0); [lia|].
  destruct (Z.ltb_spec MaxPolicyArtifactBytes (zlen (rw_artifact write))); [lia|]. cbn [orb].
  unfold RevisionMetadata_ID. cbn [rm_id]. rewrite ParseRevisionID_String by done. cbn [integrity rbind]. rewrite Hu, Hmeta. cbn [integrity rbind].
  assert (Hd : decodeRevisionProvenance (rm_namespace (rw_metadata write)) pe = Ok (rw_provenance w)).
  { assert (Hbytes : Forall is_byte (prov_originalSource (rw_provenance w))).
    { rewrite Ep. destruct (RevisionProvenance_Valid _); [done|constructor]. }
    apply (provenance_codec _ Hns); [by eapply encodeRevisionProvenance_bytes|]. split; [done|]. rewrite Ep in *.
    destruct (RevisionProvenance_Valid (rw_provenance write)) eqn:V; [by left|by right]. }
  rewrite Hd. cbn [rbind]. assert (Hrw' : rebuild_write m (rw_artifact write) (rw_provenance w) = Ok w).
  { rewrite Ep. destruct (RevisionProvenance_Valid (rw_provenance write)) eqn:V; [done|]. unfold rebuild_write in *. by rewrite V in Hrw. }
  rewrite Hrw'. cbn [integrity rbind]. by rewrite Hr.
Qed.

(** A record that a row decodes to is valid. *)
Lemma decoded_valid ns id artifact provenance nanos record :
  decodeRevisionRecord ns id artifact provenance nanos = Ok record -> RevisionRecord_Valid record = true.
Proof.
  unfold decodeRevisionRecord. destruct (_ || _); [done|].
  intros (? & _ & (? & _ & (? & _ & (w & _ & Hr)%rbind_ok)%rbind_ok)%rbind_ok)%rbind_ok. rewrite integrity_Ok in Hr.
  unfold NewRevisionRecordFromWrite in Hr. unfold RevisionRecord_Valid. destruct (RevisionWrite_Valid w) eqn:V; [|done]. cbn [negb] in Hr.
  apply rbind_ok in Hr as ([] & Hc & [= <-]). by rewrite V, Hc.
Qed.

(** The outcome of a publication: an error with the tables untouched, the
    stored record, or one new record that every later read decodes to. *)
Definition put_outcome (env : callEnv) (write : RevisionWrite) (d : database) (r : result PutRevisionResult) (d' : database) : Prop :=
  (exists e, r = Err e /\ d' = d) \/
  exists record publishedAtNS provenance, canonicalRevisionRecord write = Ok (record, publishedAtNS, provenance) /\
    ((d' = d /\ exists stored, revision_found record stored d /\ r = Ok (mkPutRevisionResult stored false)) \/
     (revision_published record publishedAtNS provenance d d' /\
      decodeRevisionRecord (rm_namespace (rw_metadata record)) (RevisionMetadata_ID (rw_metadata record)) (rw_artifact record)
        provenance publishedAtNS = Ok record /\
      (r = Ok (mkPutRevisionResult record true) \/ answer_lost env /\ exists e, r = Err e))).

Lemma put_refines env reservation write d r d' : sqlite_PutRevision cursorKey env reservation write d = (r, d') ->
  namespace_ok (rm_namespace (rw_metadata write)) d -> Forall is_byte (prov_originalSource (rw_provenance write)) ->
  put_outcome env write d r d'.
Proof.
  unfold sqlite_PutRevision. intros Hrun Hok Hb. destruct (sqliteContextError _); cbn [rbind] in Hrun; [|injection Hrun as <- <-; left; eauto].
  destruct (canonicalRevisionRecord write) as [[[record nanos] provenance]|] eqn:Hc; cbn [rbind] in Hrun; [|injection Hrun as <- <-; left; eauto].
  destruct (canonical_record_reads _ _ _ _ Hc Hb) as (En & Hv & Hd). unfold NewPutRevisionResult in Hrun. cbn [fst] in Hrun. rewrite Hv in Hrun. cbn [or_error rbind] in Hrun.
  destruct reservation; [injection Hrun as <- <-; left; eauto|].
  destruct (call_write env _ d) as [r1 d1] eqn:Hcall.
  apply (call_write_atomic _ _ _ _ _ _ (put_revision_effect record nanos provenance)) in Hcall. rewrite En in Hcall.
  destruct r1 as [[stored|]|e].
  - destruct (Hcall Hok) as [-> Hf]. right. exists record, nanos, provenance. split; [done|]. left.
    destruct Hf as (row & Hrow & Hdec & Ea). rewrite (decoded_valid _ _ _ _ _ _ Hdec) in Hrun. injection Hrun as <- <-.
    split; [done|]. exists stored. split; [by exists row|done].
  - injection Hrun as <- <-. right. exists record, nanos, provenance. split; [done|]. right. split; [by apply Hcall|]. split; [done|by left].
  - injection Hrun as <- <-. destruct Hcall as [->|(Hl & [stored|] & Hx)]; [left; eauto| |].
    + destruct (Hx Hok) as [-> _]. left. eauto.
    + right. exists record, nanos, provenance. split; [done|]. right. split; [by apply Hx|]. split; [done|]. right. eauto.
Qed.

(** * Activation *)

Lemma history_generations_elem ns slot d g : g ∈ history_generations ns slot d <-> is_Some (db_history d !! (ns, slot, g)).
Proof.
  unfold history_generations, sorted_numbers. rewrite sort_by_elem, list_elem_of_omap. split.
  - intros ([[[ns' sl] m] row] & Hin%elem_of_map_to_list & E). case_bool_decide as B; [|done]. injection E as ->. destruct B as [-> ->]. eauto.
  - intros [row Hrow]. exists ((ns, slot, g), row). split; [by apply elem_of_map_to_list|]. by rewrite bool_decide_eq_true_2.
Qed.

Lemma history_generations_sorted ns slot d : StronglySorted Z.lt (history_generations ns slot d).
Proof.
  apply sorted_numbers_strict, omap_NoDup; [apply NoDup_map_to_list|].
  intros [[[n1 s1] g1] r1] [[[n2 s2] g2] r2] g H1%elem_of_map_to_list H2%elem_of_map_to_list. repeat case_bool_decide; try done.
  intros [= ->] [= ->]. destruct_and!. subst. congruence.
Qed.

(** Retention keeps the newest entries, at most [retention] of them. *)
Lemma pruneActivationHistory_effect ns slot retention : effects (pruneActivationHistory ns slot retention) (fun d _ d' =>
  d' = with_history (fun _ => db_history d') d /\ zlen (history_generations ns slot d') <= retention /\
  (forall n s g, (n, s) <> (ns, slot) -> db_history d' !! (n, s, g) = db_history d !! (n, s, g)) /\
  (forall g, is_Some (db_history d' !! (ns, slot, g)) -> db_history d' !! (ns, slot, g) = db_history d !! (ns, slot, g)) /\
  (forall g, is_Some (db_history d !! (ns, slot, g)) -> (forall g', is_Some (db_history d !! (ns, slot, g')) -> g' <= g) ->
     db_history d' !! (ns, slot, g) = db_history d !! (ns, slot, g))).
Proof.
  unfold pruneActivationHistory. destruct (Z.ltb_spec retention 2); [by eapply effects_mono; [apply effects_fail|]|]. eapply effects_mono.
  { eapply effects_bind; [apply effects_query|]. intros tail.
    apply (effects_mono _ (fun d _ d' => match tail with None => d' = d | Some c => sql_delete_history ns slot c d = Some d' end)); [|exact (fun _ _ _ H => H)].
    destruct tail as [c|]; [|eapply effects_mono; [apply effects_ret|]; cbn; by intros ? ? ? [_ ->]].
    destruct (c <=? 0); [by eapply effects_mono; [apply effects_fail|]|apply effects_exec]. }
  cbn beta. intros d u d' (tail & d1 & [Et ->] & Hd). pose proof (history_generations_sorted ns slot d) as Hs.
  unfold sql_history_tail in Et. destruct tail as [c|].
  2:{ subst d'. split; [by destruct d|]. split; [|done]. symmetry in Et. apply lookup_ge_None in Et. rewrite length_reverse in Et. unfold zlen. lia. }
  injection Hd as <-. symmetry in Et.
  assert (Hlook : forall n s g, filter (fun kv : string * string * Z * historyRow => ~ (kv.1.1 = (ns, slot) /\ kv.1.2 < c)) (db_history d) !! (n, s, g) =
    if bool_decide ((n, s) = (ns, slot) /\ g < c) then None else db_history d !! (n, s, g)).
  { intros n s g. case_bool_decide as E.
    - apply map_lookup_filter_None. right. intros x _ Hn. by apply Hn.
    - destruct (db_history d !! (n, s, g)) as [row|] eqn:El; [apply map_lookup_filter_Some; split; [done|cbn; tauto]|].
      apply map_lookup_filter_None. by left. }
  set (l := history_generations ns slot d) in *. assert (Hl := lookup_lt_Some _ _ _ Et). rewrite length_reverse in Hl.
  apply reverse_lookup_Some in Et as [Et _]. set (i := (length l - S (Z.to_nat (retention - 1)))%nat) in *.
  split; [done|]. split; [|split; [|split]].
  - set (l' := history_generations ns slot (with_history _ d)).
    assert (Hsub : l' ⊆ drop i l).
    { intros g Hg%history_generations_elem. cbn in Hg. rewrite Hlook in Hg. case_bool_decide as B; [by destruct Hg|].
      assert (c <= g) by (destruct (decide (g < c)); [tauto|lia]).
      apply history_generations_elem in Hg. fold l in Hg. apply list_elem_of_lookup in Hg as [j Hj].
      destruct (decide (j < i)%nat) as [Hlt|Hge]; [pose proof (sorted_lookup _ _ _ _ _ _ Hs Hlt Hj Et); lia|].
      apply list_elem_of_lookup. exists (j - i)%nat. rewrite lookup_drop. by replace (i + (j - i))%nat with j by lia. }
    assert (Hnd : NoDup l') by (apply strict_NoDup, history_generations_sorted).
    pose proof (submseteq_length _ _ (NoDup_submseteq _ _ Hnd Hsub)) as Hlen. rewrite length_drop in Hlen. unfold zlen, i in *. lia.
  - intros n s g Hne. cbn. rewrite Hlook. by rewrite bool_decide_eq_false_2 by tauto.
  - intros g. cbn. rewrite Hlook. case_bool_decide; [by intros []|done].
  - intros g _ Hmax. cbn. rewrite Hlook. rewrite bool_decide_eq_false_2; [done|]. intros [_ Hlt].
    assert (Hc : is_Some (db_history d !! (ns, slot, c))) by (apply history_generations_elem; by eapply list_elem_of_lookup_2).
    specialize (Hmax _ Hc). lia.
Qed.

Lemma readSlotHead_effect ns slot : effects (readSlotHead ns slot) (fun d current d' => d' = d /\
  match current with
  | None => db_slots d !! (ns, slot) = None
  | Some a => exists row, db_slots d !! (ns, slot) = Some row /\ 0 < slr_generation row /\
      a = mkActivation ns slot (slr_revisionID row) (slr_generation row) (time_UnixNano (slr_activatedAtNS row))
  end).
Proof.
  unfold readSlotHead. eapply effects_mono.
  { eapply effects_bind; [apply effects_query|]. intros row.
    apply (effects_mono _ (fun d current d' => d' = d /\ match row with None => current = None
      | Some row => 0 < slr_generation row /\
          current = Some (mkActivation ns slot (slr_revisionID row) (slr_generation row) (time_UnixNano (slr_activatedAtNS row))) end));
      [|exact (fun _ _ _ H => H)].
    destruct row as [row|]; [|eapply effects_mono; [apply effects_ret|]; cbn; by intros ? ? ? [-> ->]].
    destruct (Z.leb_spec (slr_generation row) 0); [by eapply effects_mono; [apply effects_fail|]|]. eapply effects_mono.
    { eapply effects_bind; [apply effects_lift|]. intros a. apply effects_ret. }
    cbn beta. intros d current d' (a & d1 & [Ha ->] & -> & ->). rewrite integrity_Ok in Ha. split; [done|]. split; [lia|]. f_equal.
    unfold NewActivation in Ha. apply rbind_ok in Ha as (? & _ & (? & _ & (? & _ & Ha)%rbind_ok)%rbind_ok). destruct (_ || _ || _); [done|]. by injection Ha. }
  cbn beta. intros d current d' (row & d1 & [Er ->] & -> & Hc). split; [done|]. destruct row as [row|].
  - destruct Hc as [Hg ->]. exists row. auto.
  - by subst current.
Qed.

(** The generation of a slot's row, zero when it is unset. *)
Definition slot_generation (ns slot : string) (d : database) : Z :=
  match db_slots d !! (ns, slot) with Some row => slr_generation row | None => 0 end.

(** What the compare-and-swap compares with. *)
Definition slot_expected (expectation : SlotExpectation) (ns slot : string) (d : database) : Prop :=
  if IsUnset expectation then db_slots d !! (ns, slot) = None
  else (Active expectation).2 = true /\ exists row, db_slots d !! (ns, slot) = Some row /\
         slr_revisionID row = (Active expectation).1.1 /\ slr_generation row = (Active expectation).1.2.

(** No history entry is newer than the slot's row. *)
Definition history_ok (ns slot : string) (d : database) : Prop :=
  forall g, is_Some (db_history d !! (ns, slot, g)) -> g <= slot_generation ns slot d.

Record slot_activated (retention : Z) (request : ActivateRequest) (d : database) (response : ActivateResponse) (d' : database) : Prop := {
  sa_revision : is_Some (db_revisions d !! (ar_namespace request, ar_targetRevisionID request));
  sa_expected : slot_expected (ar_expectation request) (ar_namespace request) (ar_slot request) d;
  sa_room : slot_generation (ar_namespace request) (ar_slot request) d < MaxInt64;
  sa_slot : exists nanos,
    let generation := slot_generation (ar_namespace request) (ar_slot request) d + 1 in
    response = mkActivateResponse (mkActivation (ar_namespace request) (ar_slot request) (ar_targetRevisionID request)
      generation (time_UnixNano nanos)) /\
    db_slots d' = <[(ar_namespace request, ar_slot request) := mkSlotRow (ar_targetRevisionID request) generation nanos]> (db_slots d) /\
    (history_ok (ar_namespace request) (ar_slot request) d ->
       db_history d' !! (ar_namespace request, ar_slot request, generation) = Some (mkHistoryRow (ar_targetRevisionID request) nanos) /\
       history_ok (ar_namespace request) (ar_slot request) d');
  sa_retention : zlen (history_generations (ar_namespace request) (ar_slot request) d') <= retention;
  sa_history : forall n s g, (n, s) <> (ar_namespace request, ar_slot request) -> db_history d' !! (n, s, g) = db_history d !! (n, s, g);
  sa_revisions : db_revisions d' = db_revisions d;
  sa_logged : logged (activate_input (ar_namespace request) (ar_slot request) (ar_targetRevisionID request)
    (slot_generation (ar_namespace request) (ar_slot request) d + 1)) d d' }.

Lemma expectationMatches_spec expectation current ns slot d :
  match current with
  | None => db_slots d !! (ns, slot) = None
  | Some a => exists row, db_slots d !! (ns, slot) = Some row /\ 0 < slr_generation row /\
      a = mkActivation ns slot (slr_revisionID row) (slr_generation row) (time_UnixNano (slr_activatedAtNS row))
  end ->
  expectationMatches expectation current = true -> slot_expected expectation ns slot d.
Proof.
  intros Hc. unfold expectationMatches, slot_expected. destruct (IsUnset expectation).
  - rewrite negb_true_iff, bool_decide_eq_false. destruct current; [intros Hn; by destruct Hn; eauto|done].
  - destruct (Active expectation) as [[rev gen] active]. rewrite andb_true_iff. intros [-> Hm]. split; [done|]. destruct current as [a|]; [|done].
    destruct Hc as (row & Hrow & _ & ->). cbn in Hm. rewrite andb_true_iff, bool_decide_eq_true, Z.eqb_eq in Hm. exists row. tauto.
Qed.

(** The statements of an activation between the clock and the event. *)
Definition slot_moved (retention : Z) (ns slot target : string) (generation nanos : Z) (d d' : database) : Prop :=
  db_slots d' = <[(ns, slot) := mkSlotRow target generation nanos]> (db_slots d) /\
  db_revisions d' = db_revisions d /\ db_heads d' = db_heads d /\ db_events d' = db_events d /\ facts_same d d' /\
  db_idempotency d' = db_idempotency d /\ zlen (history_generations ns slot d') <= retention /\
  (forall n s g, (n, s) <> (ns, slot) -> db_history d' !! (n, s, g) = db_history d !! (n, s, g)) /\
  (forall g, is_Some (db_history d' !! (ns, slot, g)) -> is_Some (db_history d !! (ns, slot, g)) \/ g = generation) /\
  ((forall g, is_Some (db_history d !! (ns, slot, g)) -> g <= generation) ->
     db_history d' !! (ns, slot, generation) = Some (mkHistoryRow target nanos)).

Lemma slot_moved_effect retention ns slot target generation nanos :
  effects (move_slot retention ns slot target generation nanos) (fun d _ d' => slot_moved retention ns slot target generation nanos d d').
Proof.
  unfold move_slot. eapply effects_mono.
  { eapply effects_bind; [apply effects_exec|]. intros u1. eapply effects_bind; [apply effects_exec|]. intros u2. apply pruneActivationHistory_effect. }
  cbn beta. intros d u d' (u1 & d1 & H1 & u2 & d2 & H2 & Ed & Hret & Hother & Hkept & Hnew).
  unfold sql_upsert_slot in H1. destruct (_ || _); [done|]. injection H1 as <-.
  unfold sql_insert_history in H2. destruct (_ || _); [done|]. cbn in H2. destruct (db_history d !! (ns, slot, generation)) eqn:Efree; [done|]. injection H2 as <-.
  cbn [db_history with_history with_slot_rows] in *. unfold slot_moved. split; [by rewrite Ed|]. split; [by rewrite Ed|]. split; [by rewrite Ed|]. split; [by rewrite Ed|].
  split; [by rewrite Ed|]. split; [by rewrite Ed|]. split; [done|]. split; [|split].
  - intros n s g Hne. rewrite Hother by done. apply lookup_insert_ne. congruence.
  - intros g Hg. rewrite (Hkept g Hg) in Hg. destruct (decide (g = generation)) as [->|Hne]; [by right|left]. by rewrite lookup_insert_ne in Hg by congruence.
  - intros Hmax. rewrite Hnew; [apply lookup_insert_eq|rewrite lookup_insert_eq; eauto|].
    intros g Hg. destruct (decide (g = generation)) as [->|Hne]; [lia|]. rewrite lookup_insert_ne in Hg by congruence. auto.
Qed.

Lemma NewActivation_is ns slot target generation t a : NewActivation ns slot target generation t = Ok a -> a = mkActivation ns slot target generation t.
Proof.
  unfold NewActivation. intros (? & _ & (? & _ & (? & _ & Ha)%rbind_ok)%rbind_ok)%rbind_ok. destruct (_ || _ || _); [done|]. by injection Ha.
Qed.

Lemma sqlite_next_generation_is ns slot d current generation :
  match current with
  | None => db_slots d !! (ns, slot) = None
  | Some a => exists row, db_slots d !! (ns, slot) = Some row /\ 0 < slr_generation row /\
      a = mkActivation ns slot (slr_revisionID row) (slr_generation row) (time_UnixNano (slr_activatedAtNS row))
  end -> sqlite_next_generation current = Ok generation ->
  generation = slot_generation ns slot d + 1 /\ 0 <= slot_generation ns slot d < MaxInt64.
Proof.
  unfold sqlite_next_generation, slot_generation. destruct current as [a|].
  - intros (row & -> & Hg & ->). cbn. destruct (Z.leb_spec MaxInt64 (slr_generation row)); [done|]. intros [= <-]. lia.
  - intros -> [= <-]. unfold MaxInt64. lia.
Qed.

Lemma activate_slot_effect retention request : effects (activate_slot cursorKey retention request) (fun d response d' =>
  namespace_ok (ar_namespace request) d -> slot_activated retention request d response d').
Proof.
  unfold activate_slot. set (ns := ar_namespace request). set (slot := ar_slot request). set (target := ar_targetRevisionID request). cbv zeta.
  eapply effects_mono.
  { eapply effects_bind; [apply readRevision_effect|]. intros found.
    apply (effects_mono _ (fun d response d' => is_Some found /\ exists current, (match current with
        | None => db_slots d !! (ns, slot) = None
        | Some a => exists row, db_slots d !! (ns, slot) = Some row /\ 0 < slr_generation row /\
            a = mkActivation ns slot (slr_revisionID row) (slr_generation row) (time_UnixNano (slr_activatedAtNS row)) end) /\
      expectationMatches (ar_expectation request) current = true /\
      exists generation occurredAt activation nanos d1 d2, sqlite_next_generation current = Ok generation /\
        (timed ns d d1 /\ policies_same d d1 /\ time_wf occurredAt) /\ NewActivation ns slot target generation occurredAt = Ok activation /\
        sqliteTimestamp occurredAt = Some (occurredAt, nanos) /\ slot_moved retention ns slot target generation nanos d1 d2 /\
        (0 <= generation <= MaxInt64 -> stream_ok ns d2 -> hd_eventSequence (head_row d2 ns) <= MaxInt64 ->
           event_added cursorKey (activate_input ns slot target generation) occurredAt d2 d') /\
        response = mkActivateResponse activation)); [|exact (fun _ _ _ H => H)].
    destruct found as [record|]; [|by eapply effects_mono; [apply effects_fail|]]. eapply effects_mono.
    { eapply effects_bind; [apply readSlotHead_effect|]. intros current.
      apply (effects_mono _ (fun d response d' => expectationMatches (ar_expectation request) current = true /\
        exists generation occurredAt activation nanos d1 d2, sqlite_next_generation current = Ok generation /\
        (timed ns d d1 /\ policies_same d d1 /\ time_wf occurredAt) /\ NewActivation ns slot target generation occurredAt = Ok activation /\
        sqliteTimestamp occurredAt = Some (occurredAt, nanos) /\ slot_moved retention ns slot target generation nanos d1 d2 /\
        (0 <= generation <= MaxInt64 -> stream_ok ns d2 -> hd_eventSequence (head_row d2 ns) <= MaxInt64 ->
           event_added cursorKey (activate_input ns slot target generation) occurredAt d2 d') /\
        response = mkActivateResponse activation)); [|exact (fun _ _ _ H => H)].
      destruct (expectationMatches _ current); cbn [negb]; [|by eapply effects_mono; [apply effects_fail|]]. eapply effects_mono.
      { eapply effects_bind; [apply effects_lift|]. intros generation. eapply effects_bind; [apply effectiveNow_timed|]. intros occurredAt.
        eapply effects_bind; [apply effects_lift|]. intros activation.
        apply (effects_mono _ (fun d response d' => exists when nanos d2, sqliteTimestamp (act_activatedAt activation) = Some (when, nanos) /\
          slot_moved retention ns slot target generation nanos d d2 /\
          (0 <= generation <= MaxInt64 -> stream_ok ns d2 -> hd_eventSequence (head_row d2 ns) <= MaxInt64 ->
             event_added cursorKey (activate_input ns slot target generation) occurredAt d2 d') /\
          response = mkActivateResponse activation)); [|exact (fun _ _ _ H => H)].
        destruct (sqliteTimestamp _) as [[when nanos]|]; [|by eapply effects_mono; [apply effects_fail|]]. eapply effects_mono.
        { eapply effects_bind; [apply slot_moved_effect|]. intros u1.
          eapply (effects_bind _ _ (fun d2 _ d' => 0 <= generation <= MaxInt64 -> stream_ok ns d2 -> hd_eventSequence (head_row d2 ns) <= MaxInt64 ->
             event_added cursorKey (activate_input ns slot target generation) occurredAt d2 d')).
          - destruct (decide (0 <= generation <= MaxInt64)) as [Hr|Hr].
            + eapply effects_mono; [apply appendStateEvent_effect; cbn; unfold unsigned, MaxInt64 in *; lia|]. cbn. auto.
            + by intros env s a s' _ ?.
          - intros u2. apply effects_lift. }
        cbn beta. intros d response d' (u1 & d2 & Hmv & u2 & d3 & Ha & Hresp & ->). exists when, nanos, d2. split; [done|]. split; [done|]. split; [done|].
        unfold NewActivateResponse in Hresp. destruct (Activation_valid activation); [|done]. by injection Hresp. }
      cbn beta. intros d response d' (generation & d0 & [Hg ->] & occurredAt & d1 & Ht & activation & d2 & [Hact ->] & when & nanos & d3 & Hs & Hmv & Ha & ->).
      split; [done|]. assert (Hact' : NewActivation ns slot target generation occurredAt = Ok activation) by (by destruct (NewActivation _ _ _ _ _)).
      pose proof (NewActivation_is _ _ _ _ _ _ Hact') as Ea. rewrite Ea in Hs. cbn in Hs. destruct (sqliteTimestamp_fixed _ _ _ Hs) as [-> _].
      exists generation, occurredAt, activation, nanos, d1, d3. auto 9. }
    cbn beta. intros d response d' (current & d0 & [-> Hcur] & Hrest). split; [eauto|]. exists current. auto. }
  cbn beta. intros d response d' (found & d0 & [-> Hfound] & [record ->] & current & Hcur & Hexp & generation & occurredAt & activation & nanos & d1 & d2 &
    Hg & (Ht & (P1 & P2 & P3) & _) & Hact & Hs & (M1 & M2 & M3 & M4 & M5 & M6 & M7 & M8 & M9 & M10) & Ha & ->) Hok.
  destruct Hfound as (row & Hrow & _). destruct (sqlite_next_generation_is _ _ _ _ _ Hcur Hg) as [-> Hroom]. apply NewActivation_is in Hact as ->.
  destruct (sqliteTimestamp_fixed _ _ _ Hs) as [_ Hu].
  assert (Ht2 : timed ns d d2).
  { destruct Ht as [(h & Eh & Hh) He (F1 & F2 & F3) Hi], M5 as (G1 & G2 & G3). split; [exists h; by rewrite M3|congruence|split; [congruence|split; congruence]|congruence]. }
  destruct (appended_logged (activate_input ns slot target (slot_generation ns slot d + 1)) occurredAt d d2 d' Ht2 Hok) as [Hl (R & S & Y)].
  { apply Ha. lia. }
  split; fold ns; fold slot; fold target.
  - eauto.
  - eapply expectationMatches_spec; eauto.
  - lia.
  - exists nanos. cbv zeta. rewrite Hu. split; [done|]. split; [by rewrite S, M1, P2|]. intros Hho. rewrite Y. split.
    + apply M10. intros g Hg'. rewrite P3 in Hg'. specialize (Hho g Hg'). lia.
    + intros g Hgen. rewrite Y in Hgen. unfold slot_generation at 1. rewrite S, M1, lookup_insert_eq. cbn.
      destruct (M9 g Hgen) as [Hold| ->]; [|lia]. rewrite P3 in Hold. specialize (Hho g Hold). lia.
  - unfold history_generations. rewrite Y. exact M7.
  - intros n s g Hne. by rewrite Y, M8, P3 by done.
  - by rewrite R, M2, P1.
  - exact Hl.
Qed.

(** The outcome of an activation. *)
Definition activate_outcome (env : callEnv) (retention : Z) (request : ActivateRequest) (d : database)
  (r : result ActivateResponse) (d' : database) : Prop :=
  (exists e, r = Err e /\ d' = d) \/
  exists response, slot_activated retention request d response d' /\
    (r = Ok response \/ answer_lost env /\ exists e, r = Err e).

Lemma activate_refines env retention request d r d' : sqlite_Activate cursorKey retention env request d = (r, d') ->
  namespace_ok (ar_namespace request) d -> activate_outcome env retention request d r d'.
Proof.
  unfold sqlite_Activate. intros Hrun Hok. destruct (sqliteContextError _); cbn [rbind] in Hrun; [|injection Hrun as <- <-; left; eauto].
  destruct (mapped _ _); [|injection Hrun as <- <-; left; eauto].
  apply (call_write_atomic _ _ _ _ _ _ (activate_slot_effect retention request)) in Hrun. destruct r as [response|e].
  - right. exists response. split; [by apply Hrun|by left].
  - destruct Hrun as [->|(Hl & response & Hx)]; [left; eauto|]. right. exists response. split; [by apply Hx|]. right. eauto.
Qed.

(** C9: Publication in the SQLite store is create-once and atomic. Whatever the
    context, the statements, the queue and the commit do, [PutRevision] fails
    with the tables untouched, answers the stored record of the same artifact
    (tables untouched), or stores one new row, which decodes to the very record
    that was published, with one event that names it; facts, slots, replay
    records and other namespaces stay. An error after a commit means that the
    caller stopped waiting or that the answer of COMMIT was lost. *)
Theorem sqlite_publish_once env reservation write d r d' :
  sqlite_PutRevision cursorKey env reservation write d = (r, d') ->
  namespace_ok (rm_namespace (rw_metadata write)) d -> Forall is_byte (prov_originalSource (rw_provenance write)) ->
  put_outcome env write d r d'.
Proof. apply put_refines. Qed.

(** C8: Activation in the SQLite store is an atomic compare-and-swap. Whatever
    the context, the statements, the queue and the commit do, [Activate] fails
    with the tables untouched, or the revision exists, the expectation held of
    the slot's row, the row moves to the revision with the next generation, the
    new entry is the newest of at most the retained number of history entries,
    and one event names the change; facts, replay records, other slots and
    other namespaces stay. An error after a commit means that the caller stopped
    waiting or that the answer of COMMIT was lost. *)
Theorem sqlite_activate_cas env retention request d r d' :
  sqlite_Activate cursorKey retention env request d = (r, d') ->
  namespace_ok (ar_namespace request) d -> activate_outcome env retention request d r d'.
Proof. apply activate_refines. Qed.

End SqlitePolicies.
