(* ===== verification/SqliteProgress.v ===== *)
(** Calls of the SQLite store that nothing disturbs (store/sqlite).

    [succeeds] is the total counterpart of [effects]: a callback that meets no
    fault, no deadline and a readable clock runs to its end. An admissible
    write, publication or activation is shown to commit; what it commits is
    said by the effects. *)

From Stdlib Require Import ZArith Lia Sorted Permutation.
From stdpp Require Import base list gmap strings.
From S2P Require Import Prelude Limits Text Types Invocation Cost Canon Data DataValid Policy Events Revisions Avl Index Cursor Fingerprint StoreData MemState MemEvents MemOps MemData MemInv MemCommit MemWrite MemSlots SqliteCodec SqliteData SqliteCursor SqliteDb SqliteStore SqliteEffects SqliteFacts SqliteWrite SqlitePolicies.

(** * Runs without a disturbance *)

Definition quiet (env : txEnv) (now : Time) : Prop :=
  (forall n, te_ctx env n = LiveContext) /\ (forall n, te_fault env n = None) /\ te_clock env = Some now.

(** Every undisturbed run of [m] on these tables succeeds, with [Q]. *)
Definition succeeds {A} (now : Time) (m : tx A) (d : database) (Q : A -> database -> Prop) : Prop :=
  forall env n, quiet env now -> exists a s, m (in_transaction env) (mkTxState d n) = (Ok a, s) /\ Q a (tx_db s).

Lemma succeeds_bind {A B} now (m : tx A) (k : A -> tx B) d P Q :
  succeeds now m d P -> (forall a d', P a d' -> succeeds now (k a) d' Q) -> succeeds now (tx_bind m k) d Q.
Proof.
  intros Hm Hk env n Hq. destruct (Hm env n Hq) as (a & [d1 n1] & E & Ha). unfold tx_bind. rewrite E. by apply (Hk a d1).
Qed.

Lemma succeeds_mono {A} now (m : tx A) d P Q : succeeds now m d P -> (forall a d', P a d' -> Q a d') -> succeeds now m d Q.
Proof. intros Hm HQ env n Hq. destruct (Hm env n Hq) as (a & s & E & Ha). exists a, s. auto. Qed.

(** What a run that succeeds does is what every successful run does. *)
Lemma succeeds_effect {A} now (m : tx A) d P R : effects m R -> succeeds now m d P -> succeeds now m d (fun a d' => P a d' /\ R d a d').
Proof.
  intros HR Hm env n Hq. destruct (Hm env n Hq) as (a & s & E & Ha). exists a, s. split; [done|]. split; [done|].
  exact (HR env (mkTxState d n) a s E).
Qed.

Lemma succeeds_ret {A} now (a : A) d (Q : A -> database -> Prop) : Q a d -> succeeds now (tx_ret a) d Q.
Proof. intros HQ env n _. by exists a, (mkTxState d n). Qed.

Lemma succeeds_lift {A} now (r : result A) d a : r = Ok a -> succeeds now (tx_lift r) d (fun b d' => b = a /\ d' = d).
Proof. intros -> env n _. by exists a, (mkTxState d n). Qed.

Lemma succeeds_exec now f d d' : f d = Some d' -> succeeds now (tx_exec f) d (fun _ x => x = d').
Proof. intros Hf env n (_ & Hn & _). unfold tx_exec. cbn [te_fault in_transaction tx_step tx_db]. rewrite Hn, Hf. eauto. Qed.

Lemma succeeds_query {A} now (f : database -> A) d : succeeds now (tx_query f) d (fun a d' => a = f d /\ d' = d).
Proof. intros env n (_ & Hn & _). unfold tx_query. cbn [te_fault te_seen in_transaction tx_step tx_db]. rewrite Hn. eauto. Qed.

Lemma succeeds_context now d : succeeds now tx_context d (fun _ d' => d' = d).
Proof. intros env n (Hc & _). unfold tx_context. cbn [te_ctx in_transaction tx_step tx_db]. rewrite Hc. eauto. Qed.

(** Forgets what a run did. *)
Lemma succeeds_runs {A} now (m : tx A) d P : succeeds now m d P -> succeeds now m d (fun _ _ => True).
Proof. intros Hm. by eapply succeeds_mono. Qed.

(** A loop succeeds when each step succeeds on what the former ones left. *)
Lemma succeeds_each {A} now (f : A -> tx unit) (P : list A -> database -> Prop) l d :
  P [] d -> (forall pre x post d, l = pre ++ x :: post -> P pre d -> succeeds now (f x) d (fun _ d' => P (pre ++ [x]) d')) ->
  succeeds now (tx_each f l) d (fun _ d' => P l d').
Proof.
  intros H0 Hf. assert (G : forall post pre d, l = pre ++ post -> P pre d -> succeeds now (tx_each f post) d (fun _ d' => P l d')).
  { induction post as [|x post IH]; intros pre d1 E HP; cbn [tx_each].
    - apply succeeds_ret. by rewrite E, app_nil_r.
    - eapply succeeds_bind; [by apply (Hf pre x post)|]. cbn beta. intros [] d2 HP2.
      apply (IH (pre ++ [x])); [by rewrite <- app_assoc|done]. }
  by apply (G l []).
Qed.

(** * Heads and the clock *)

Lemma readNamespaceHead_succeeds now ns d : head_ok (head_row d ns) ->
  succeeds now (readNamespaceHead ns) d (fun found d' => d' = d /\ found = db_heads d !! ns).
Proof.
  intros Hok. unfold readNamespaceHead. eapply succeeds_bind; [apply succeeds_query|]. cbn beta. intros row d1 [-> ->]. unfold head_row in Hok. destruct (db_heads d !! ns) as [h|]; [|by apply succeeds_ret].
  unfold head_ok in Hok. cbn in Hok. destruct (Z.ltb_spec (hd_dataGeneration h) 0); [lia|]. destruct (Z.ltb_spec (hd_eventSequence h) 0); [lia|].
  destruct (Z.ltb_spec (hd_expiredThrough h) 0); [lia|]. destruct (Z.ltb_spec (hd_eventSequence h) (hd_expiredThrough h)); [lia|]. by apply succeeds_ret.
Qed.

Lemma ensure_head_row ns d : sql_ensure_head ns d = Some (with_heads (<[ns := head_row d ns]>) d).
Proof.
  unfold sql_ensure_head, head_row. destruct (db_heads d !! ns) as [h|] eqn:E; [|done]. unfold with_heads. cbn.
  rewrite insert_id by done. by destruct d.
Qed.

Lemma ensureNamespaceHead_succeeds now ns d : head_ok (head_row d ns) ->
  succeeds now (ensureNamespaceHead ns) d (fun h d' => h = head_row d ns /\ d' = with_heads (<[ns := h]>) d).
Proof.
  intros Hok. unfold ensureNamespaceHead.
  eapply succeeds_bind; [apply succeeds_exec, ensure_head_row|]. cbn beta. intros [] d1 ->.
  eapply succeeds_bind; [apply readNamespaceHead_succeeds; by rewrite head_row_with|]. cbn beta. intros found d2 [-> ->].
  rewrite lookup_with_heads. by apply succeeds_ret.
Qed.

Lemma update_head_succeeds ns f d h : db_heads d !! ns = Some h ->
  0 <= hd_dataGeneration (f h) -> 0 <= hd_eventSequence (f h) -> 0 <= hd_expiredThrough (f h) ->
  sql_update_head ns f d = Some (with_heads (<[ns := f h]>) d).
Proof.
  intros Hh H1 H2 H3. unfold sql_update_head. rewrite Hh. destruct (Z.ltb_spec (hd_dataGeneration (f h)) 0); [lia|].
  destruct (Z.ltb_spec (hd_eventSequence (f h)) 0); [lia|]. by destruct (Z.ltb_spec (hd_expiredThrough (f h)) 0); [lia|].
Qed.

(** The recorded time of a namespace is one that can be read back. *)
Definition recorded_time_ok (h : headRow) : Prop := forall t, hd_effectiveTimeNS h = Some t -> timestamp_range t.

Lemma UnixNano_timestamp n : timestamp_range n -> sqliteTimestamp (time_UnixNano n) = Some (time_UnixNano n, n).
Proof.
  intros Hn. apply sqliteTimestamp_exact; [apply time_UnixNano_wf|]. unfold timestamp_range in *.
  rewrite time_UnixNano_epoch by (unfold signed64, Second in *; lia). unfold Second, unixToInternal in *. lia.
Qed.

Section Clock.
Context (now : Time) (nowNS : Z) (Hnow : sqliteTimestamp now = Some (now, nowNS)).

Lemma effectiveNow_succeeds ns d : head_ok (head_row d ns) -> recorded_time_ok (head_row d ns) ->
  succeeds now (effectiveNow ns) d (fun t d' => (exists n, sqliteTimestamp t = Some (t, n)) /\
    exists h', d' = with_heads (<[ns := h']>) d /\ head_ok h' /\ timed_head (head_row d ns) h').
Proof.
  intros Hok Hrec. eapply succeeds_mono; [eapply succeeds_effect; [apply effectiveNow_effect|]|
    cbn beta; intros t d' [Ht (h' & ? & ? & ? & _)]; split; [exact Ht|by exists h']].
  unfold effectiveNow. eapply succeeds_bind.
  { instantiate (1 := fun c d' => c = (now, nowNS) /\ d' = d). intros env n (_ & _ & Hc). unfold tx_now, canonicalClockNow, in_transaction. cbn [te_clock].
    rewrite Hc, Hnow. eexists _, _. split; [done|]. done. }
  cbn beta. intros c d1 [-> ->]. eapply succeeds_bind; [by apply ensureNamespaceHead_succeeds|]. cbn beta. intros h d1 [-> ->]. cbn [fst snd].
  set (h := head_row d ns) in *. set (eff := advanced_time nowNS h).
  eapply (succeeds_bind now _ _ _ (fun _ _ => True)).
  { unfold record_time. case_bool_decide; [by apply succeeds_ret|].
    eapply succeeds_runs, succeeds_exec, (update_head_succeeds _ _ _ h (lookup_with_heads _ _ _)); unfold head_ok in Hok; cbn; lia. }
  intros [] d2 _. destruct (Z.eqb_spec eff nowNS) as [E|E]; [by apply succeeds_ret; eauto|]. apply succeeds_ret.
  exists eff. apply UnixNano_timestamp. unfold eff, advanced_time in *. destruct (hd_effectiveTimeNS h) as [t|] eqn:Et; [|done].
  destruct (nowNS <? t); [by apply Hrec|done].
Qed.

(** * The event stream *)

Lemma pruneEvents_succeeds ns t d : head_ok (head_row d ns) -> is_Some (db_heads d !! ns) ->
  succeeds now (pruneEvents ns t) d (fun _ _ => True).
Proof.
  intros Hok [h Hh]. unfold head_row in Hok. rewrite Hh in Hok. unfold head_ok in Hok. cbn in Hok. unfold pruneEvents.
  eapply succeeds_bind; [apply succeeds_query|]. cbn beta. intros timeCutoff d1 [_ ->].
  eapply succeeds_bind; [apply succeeds_query|]. cbn beta zeta. intros found d1 [_ ->].
  destruct (Z.leb_spec (Z.max timeCutoff (default 0 found)) 0); [by apply succeeds_ret|].
  eapply succeeds_bind; [by eapply succeeds_exec|]. cbn beta. intros [] d1 ->.
  eapply succeeds_runs, succeeds_exec, (update_head_succeeds _ _ _ h); [done|..]; unfold raise_expiredThrough; cbn; [lia|lia|].
  destruct (Z.ltb_spec (hd_expiredThrough h) (Z.max timeCutoff (default 0 found))); lia.
Qed.

Lemma nextEventSequence_succeeds ns d : head_ok (head_row d ns) -> hd_eventSequence (head_row d ns) < MaxInt64 ->
  succeeds now (nextEventSequence ns) d (fun next d' =>
    let h := head_row d ns in
    next = (hd_eventSequence h + 1, hd_expiredThrough h) /\ d' = with_heads (<[ns := set_eventSequence (hd_eventSequence h + 1) h]>) d).
Proof.
  intros Hok Hlt. eapply succeeds_mono; [eapply succeeds_effect; [apply nextEventSequence_effect|]|cbn beta; by intros next d' [_ (? & _ & _ & ?)]].
  instantiate (1 := fun _ _ => True). unfold nextEventSequence. eapply succeeds_bind; [by apply ensureNamespaceHead_succeeds|]. cbn beta. intros h d1 [-> ->].
  set (h := head_row d ns) in *. destruct (Z.eqb_spec (hd_eventSequence h) MaxInt64); [lia|].
  eapply succeeds_bind; [|intros a d2 _; by apply succeeds_ret].
  eapply succeeds_exec, (update_head_succeeds _ _ _ h (lookup_with_heads _ _ _)); unfold head_ok in Hok; cbn; lia.
Qed.

Section Writes.
Context `{D : Dsl} `{H : Hmac} (cursorKey : list Z).

(** A cursor on the event stream can always be minted. *)
Lemma event_cursor_minted ns position boundary : ns <> ""%string -> 0 < position -> boundary < position ->
  exists c, newCursor cursorKey (mkSqliteCursor cursorDomainEvent ns "" position boundary 0 "") = Ok c /\ validateIdentifier c = Ok tt.
Proof.
  intros Hns Hp Hb. set (state := mkSqliteCursor _ _ _ _ _ _ _).
  assert (V : validCursorState state = true).
  { unfold validCursorState, validCursorScope. cbn. rewrite bool_decide_eq_false_2 by done. cbn.
    by destruct (Z.ltb_spec 0 position), (Z.ltb_spec boundary position); [|lia..]. }
  set (body := cursor_body cursorKey state 0 0).
  assert (L : zlen body = 48) by apply cursor_body_length.
  assert (E : newCursor cursorKey state = Ok (string_of_bytes (b64_encode (body ++ hmac_sum cursorKey body)))).
  { apply newCursor_exact. split; [done|]. exists 0, 0. split; [done|]. split; [done|]. fold body. rewrite L. by vm_compute. }
  eexists. split; [exact E|].
  assert (B : Forall is_byte (body ++ hmac_sum cursorKey body)).
  { rewrite Forall_app. split; [by apply cursor_body_bytes|apply hmac_bytes]. }
  apply b64_identifier; [done| |].
  - rewrite <- zlen_bytes_of_string, bytes_of_string_of_bytes by by apply b64_encode_bytes.
    rewrite b64_encode_len, zlen_app, L. unfold zlen. rewrite hmac_len. by vm_compute.
  - intros Z. rewrite Z in E. by apply minted_nonempty in E.
Qed.

Lemma appendStateEvent_succeeds input occurredAt occurredAtNS d : let ns := ev_namespace input in
  stream_ok ns d -> hd_eventSequence (head_row d ns) < MaxInt64 -> validateNamespace ns = Ok tt -> event_fields_ok input = true ->
  len (ev_revisionID input) <= MaxIdentifierBytes -> len (ev_slot input) <= MaxIdentifierBytes ->
  sqliteTimestamp occurredAt = Some (occurredAt, occurredAtNS) ->
  succeeds now (appendStateEvent cursorKey input occurredAt) d (fun _ _ => True).
Proof.
  intros ns [Hok Hev] Hroom Hns Hf Hr Hs Ht. unfold appendStateEvent. fold ns. cbv zeta.
  eapply succeeds_bind; [by apply nextEventSequence_succeeds|]. cbn beta zeta. intros next d1 [-> ->]. cbn [fst snd].
  set (h := head_row d ns) in *. unfold head_ok in Hok.
  destruct (event_cursor_minted ns (hd_eventSequence h + 1) (hd_expiredThrough h)) as (c & Hc & Hid); [by intros ->|lia..|].
  eapply succeeds_bind; [by apply succeeds_lift|]. cbn beta. intros cursor d1 [-> ->].
  set (event := mkStateEvent ns c (ev_kind input) (ev_revisionID input) (ev_slot input) (ev_slotGeneration input) (ev_dataGeneration input) occurredAt).
  assert (Hz : IsZero occurredAt = false) by (unfold sqliteTimestamp in Ht; by destruct (IsZero occurredAt)).
  assert (Hnew : NewStateEvent event = Ok event).
  { unfold NewStateEvent. destruct (proj1 (is_ok_true (addStateEventCost event_budget event))) as [b ->].
    { apply event_fits; cbn; try done; [by apply valid_namespace_len|by apply valid_identifier_len]. }
    cbn [rbind event ev_occurredAt ev_namespace ev_cursor]. rewrite Hz, Hns, Hid. cbn [rbind].
    assert (event_fields_ok event = true) as -> by exact Hf. done. }
  eapply succeeds_bind; [apply (succeeds_lift now _ _ event); by rewrite Hnew|]. cbn beta. intros ? d1 [-> ->].
  assert (Hpay : exists payload, encodeStateEvent event = Ok payload).
  { unfold encodeStateEvent, canonicalStateEvent. change (mkStateEvent _ _ _ _ _ _ _ _) with event. rewrite Hnew. cbn [integrity rbind].
    unfold codecTime. cbn [event ev_occurredAt]. rewrite Hz. eauto. }
  destruct Hpay as [payload Hpay]. eapply succeeds_bind; [by apply succeeds_lift|]. cbn beta. intros ? d1 [-> ->].
  cbn [ev_occurredAt event]. rewrite Ht, Z.eqb_refl. cbn [negb].
  set (d1 := with_heads _ d). set (row := mkEventRow _ _ _).
  assert (Hins : sql_insert_event ns (hd_eventSequence h + 1) row d1 = Some (with_event_rows (<[(ns, hd_eventSequence h + 1) := row]>) d1)).
  { unfold sql_insert_event. destruct (Z.leb_spec (hd_eventSequence h + 1) 0); [lia|].
    destruct (db_events d1 !! (ns, hd_eventSequence h + 1)) as [old|] eqn:E; [|done]. apply Hev in E. lia. }
  eapply succeeds_bind; [by apply succeeds_exec|]. cbn beta. intros [] ? ->. apply pruneEvents_succeeds.
  - unfold head_row. cbn. rewrite lookup_insert_eq. unfold head_ok. cbn. lia.
  - cbn. rewrite lookup_insert_eq. eauto.
Qed.

End Writes.

(** * The facts of a write *)

Lemma deleteTuple_succeeds ns key d : TupleKey_valid key = true -> succeeds now (deleteTuple ns key) d (fun _ _ => True).
Proof.
  unfold TupleKey_valid, deleteTuple. intros Hv. destruct (proj1 (is_ok_true (encodeTupleKey (tk_tuple key)))) as [e He].
  { by rewrite encodeTupleKey_total. }
  apply is_ok_true in Hv as [[] Hv]. eapply succeeds_bind; [apply succeeds_lift; unfold NewTupleKey; by rewrite Hv|]. cbn beta. intros ? ? [-> ->].
  eapply succeeds_bind; [by apply succeeds_lift|]. cbn beta. intros ? ? [-> ->]. by eapply succeeds_runs, succeeds_exec.
Qed.

(** A tuple whose expiry, if any, has a durable timestamp. *)
Definition durable_expiry (t : RelationshipTuple) : Prop :=
  rt_hasExpiry t = true -> is_Some (sqliteTimestamp (rt_expiresAt t)).

Lemma durable_tuple_total t : RelationshipTuple_valid t = true -> durable_expiry t -> exists record, canonicalDurableTuple t = Ok record.
Proof.
  unfold RelationshipTuple_valid, durable_expiry, canonicalDurableTuple, NewRelationshipTuple. rewrite !andb_true_iff. intros [[Hv Hz] _] He.
  destruct (proj1 (is_ok_true (encodeTupleKey (rt_tuple t)))) as [e Hk]; [by rewrite encodeTupleKey_total|].
  apply is_ok_true in Hv as [[] ->]. destruct (rt_hasExpiry t).
  - destruct (He eq_refl) as [[c n] Hs]. rewrite Hs. destruct (sqliteTimestamp_fixed _ _ _ Hs) as [-> _]. cbn [rbind fst snd].
    cbn [negb orb] in Hz. apply negb_true_iff in Hz. rewrite Hz. cbn [invalid rbind rt_tuple]. rewrite Hk. cbn [rbind]. eauto.
  - cbn [rbind fst snd invalid rt_tuple]. rewrite Hk. cbn [rbind]. eauto.
Qed.

Lemma upsertTuple_succeeds ns t d : RelationshipTuple_valid t = true -> durable_expiry t ->
  succeeds now (upsertTuple ns t) d (fun _ _ => True).
Proof.
  intros Hv He. destruct (durable_tuple_total t Hv He) as [record Hr]. unfold upsertTuple.
  eapply succeeds_bind; [by apply succeeds_lift|]. cbn beta. intros ? ? [-> ->]. by eapply succeeds_runs, succeeds_exec.
Qed.

Lemma encodable_self k : key_encodable k -> NewAttributeKeyPath (ak_entity k) (ak_path k) = Ok k.
Proof. intros [[c Hc]%is_ok_true _]. rewrite Hc. apply NewAttributeKeyPath_is in Hc as ->. by destruct k. Qed.

Lemma deleteAttribute_succeeds ns k d : key_encodable k -> succeeds now (deleteAttribute ns k) d (fun _ _ => True).
Proof.
  intros Hk. unfold deleteAttribute. rewrite (encodable_self k Hk). destruct (proj2 (encodeAttributeKey_total k) Hk) as [e He].
  eapply succeeds_bind; [by apply succeeds_lift|]. cbn beta. intros ? ? [-> ->].
  eapply succeeds_bind; [by apply succeeds_lift|]. cbn beta. intros ? ? [-> ->]. by eapply succeeds_runs, succeeds_exec.
Qed.

(** No attribute strictly above the key: every prefix check passes. *)
Lemma check_prefix_succeeds ns k n A d : key_encodable k -> attributes_held ns A d -> ~ occupied_conflict A k ->
  (0 < n < length (ak_path k))%nat -> succeeds now (check_prefix ns k n) d (fun _ d' => d' = d).
Proof.
  intros Hk HA Hno Hn. set (p := mkAttributeKey (ak_entity k) (take n (ak_path k))).
  assert (Hp : key_encodable p) by (apply key_encodable_take; [lia|done]). unfold check_prefix.
  pose proof (encodable_self p Hp) as Hs. cbn [ak_entity ak_path p] in Hs. rewrite Hs. fold p.
  destruct (proj2 (encodeAttributeKey_total p) Hp) as [e He].
  eapply succeeds_bind; [by apply succeeds_lift|]. cbn beta. intros ? ? [-> ->].
  eapply succeeds_bind; [by apply succeeds_lift|]. cbn beta. intros ? ? [-> ->].
  eapply succeeds_bind; [apply succeeds_query|]. cbn beta. intros ? ? [-> ->].
  rewrite bool_decide_eq_false_2; [by apply succeeds_ret|]. intros [a Ha]%(attributes_held_row ns A d p e HA He).
  apply Hno. exists p, a. split; [done|].
  assert (S : ak_path p `prefix_of` ak_path k /\ ak_path p <> ak_path k /\ ak_path p <> []) by (apply strict_prefix_take; by exists n).
  split; [intros E; rewrite E in S; tauto|]. split; [done|]. left. tauto.
Qed.

Lemma ensureNoAttributeConflict_succeeds ns a A d : key_encodable (attr_key a) -> attributes_held ns A d ->
  ~ occupied_conflict A (attr_key a) -> succeeds now (ensureNoAttributeConflict ns a) d (fun _ _ => True).
Proof.
  intros Hk HA Hno. unfold ensureNoAttributeConflict, attributeKeyFromAttribute. pose proof (encodable_self _ Hk) as Hs. cbn [attr_key ak_entity ak_path] in Hs.
  rewrite Hs. fold (attr_key a). set (k := attr_key a) in *. eapply succeeds_bind; [by apply succeeds_lift|]. cbn beta. intros ? ? [-> ->].
  eapply succeeds_bind.
  { apply (succeeds_each now _ (fun _ d' => d' = d)); [done|]. intros pre n post ? E ->. apply (check_prefix_succeeds ns k n A); [done..|].
    assert (Hn : n ∈ seq 1 (length (ak_path k) - 1)) by (rewrite E; set_solver). apply elem_of_seq in Hn. lia. }
  cbn beta. intros _ ? ->. destruct (proj2 (encodeAttributeKey_total k) Hk) as [e He].
  eapply succeeds_bind; [by apply succeeds_lift|]. cbn beta. intros ? ? [-> ->].
  eapply succeeds_bind; [apply succeeds_query|]. cbn beta. intros ? ? [-> ->].
  destruct (sql_has_descendant ns e d) eqn:Ed; [|by apply succeeds_ret]. exfalso. unfold sql_has_descendant in Ed.
  apply existsb_exists in Ed as ([[ns' key] anc] & Hin & Eq%bool_decide_eq_true). cbn in Eq. destruct Eq as [-> ->].
  apply list_elem_of_In, elem_of_elements in Hin.
  apply (ah_ancestors _ _ _ HA) in Hin as (k1 & k2 & [b Hb] & _ & H2 & He2 & Hpre & Hne).
  pose proof (encodeAttributeKey_inj _ _ _ He H2) as <-. apply Hno. exists k1, b. split; [done|].
  split; [intros ->; done|]. split; [by symmetry|]. by right.
Qed.

(** The encodings of distinct prefixes are distinct. *)
Lemma attribute_prefixes_elem e p ns rows bs : attribute_prefixes e p ns = Ok rows -> bs ∈ rows ->
  exists n, n ∈ ns /\ encodeAttributeKey (mkAttributeKey e (take n p)) = Ok bs.
Proof.
  revert rows. induction ns as [|n ns IH]; intros rows; cbn [attribute_prefixes]; [by intros [= <-] ?%not_elem_of_nil|].
  intros (k & Hk & (b & Hb & (r & Hr & [= <-])%rbind_ok)%rbind_ok)%rbind_ok [->|Hin]%elem_of_cons.
  - exists n. split; [by left|]. destruct (NewAttributeKeyPath e (take n p)) as [k'|] eqn:E; [|done]. injection Hk as ->.
    apply NewAttributeKeyPath_is in E as <-. done.
  - destruct (IH _ Hr Hin) as (m & Hm & Hb'). exists m. split; [by right|done].
Qed.

Lemma attribute_prefixes_NoDup e p ns rows : attribute_prefixes e p ns = Ok rows -> NoDup ns ->
  Forall (fun n => n <= length p)%nat ns -> NoDup rows.
Proof.
  revert rows. induction ns as [|n ns IH]; intros rows; cbn [attribute_prefixes]; [by intros [= <-]; constructor|].
  intros (k & Hk & (b & Hb & (r & Hr & [= <-])%rbind_ok)%rbind_ok)%rbind_ok [Hn Hnd]%NoDup_cons [Hl Hls]%Forall_cons.
  apply NoDup_cons. split; [|by apply IH]. intros Hin. destruct (attribute_prefixes_elem _ _ _ _ _ Hr Hin) as (m & Hm & Hb').
  destruct (NewAttributeKeyPath e (take n p)) as [k'|] eqn:E; [|done]. injection Hk as ->. apply NewAttributeKeyPath_is in E as ->.
  pose proof (encodeAttributeKey_inj _ _ _ Hb Hb') as [= E]. apply (f_equal length) in E. rewrite !length_take in E.
  rewrite Forall_forall in Hls. specialize (Hls _ Hm). assert (n = m) as -> by lia. done.
Qed.

Lemma durable_attribute_total a : readable_attribute a -> key_encodable (attr_key a) -> exists record, canonicalDurableAttribute a = Ok record.
Proof.
  intros [Hv Hcost] Hk. unfold Attribute_valid in Hv. rewrite !andb_true_iff in Hv. destruct Hv as [[He Hp] Hval].
  apply is_ok_true in He as [[] He], Hp as [[] Hp], Hval as [[] Hval]. unfold canonicalDurableAttribute, NewAttributePath. rewrite He, Hp, Hval. cbn [rbind].
  destruct (addAttributeCost_costs (mkBudget 0 MaxAggregateInputBytes) (mkAttribute (attr_entity a) (attr_path a) (attr_value a))) as [_ ->]; [by vm_compute|].
  unfold charge. cbn [used max]. change MaxAggregateOutputBytes with MaxAggregateInputBytes in Hcost.
  assert (E : attributeCost (mkAttribute (attr_entity a) (attr_path a) (attr_value a)) = attributeCost a) by (by destruct a). rewrite E.
  destruct (Z.leb_spec (0 + attributeCost a) MaxAggregateInputBytes); [|lia]. cbn [rbind invalid attr_entity attr_path attr_value].
  pose proof (encodable_self _ Hk) as Hs. cbn [attr_key ak_entity ak_path] in Hs. rewrite Hs. cbn [rbind].
  destruct (proj2 (encodeAttributeKey_total _) Hk) as [key Hkey]. fold (attr_key a). rewrite Hkey. cbn [rbind].
  assert (Hpath : exists path, encodeAttributePath (attr_path a) = Ok path).
  { unfold encodeAttributeKey in Hkey. cbn [attr_key ak_entity ak_path] in Hkey. rewrite Hs in Hkey. cbn [integrity rbind ak_path] in Hkey.
    apply rbind_ok in Hkey as (path & Hpath & _). eauto. }
  destruct Hpath as [path ->]. cbn [rbind]. assert (Hvalue : exists v, encodeAttributeValue (attr_value a) = Ok v).
  { unfold validateValue in Hval. destruct (Value_valid (attr_value a)) eqn:V; [|done]. cbn [negb] in Hval. unfold Value_valid in V.
    unfold encodeAttributeValue. destruct (val_kind (attr_value a) =? ValueKindString).
    - apply validateText_Ok in Hval as (_ & Hl & _). destruct (Z.ltb_spec MaxStringValueBytes (len (val_text (attr_value a)))); [lia|eauto].
    - repeat case_match; eauto; done. }
  destruct Hvalue as [v ->]. cbn [rbind]. eauto.
Qed.

Lemma upsertAttribute_succeeds ns a d : readable_attribute a -> key_encodable (attr_key a) ->
  succeeds now (upsertAttribute ns a) d (fun _ _ => True).
Proof.
  intros Hr Hk. destruct (durable_attribute_total a Hr Hk) as [record Hrec]. destruct (durable_attribute_fixed _ _ Hrec) as [Er _].
  unfold upsertAttribute. eapply succeeds_bind; [by apply succeeds_lift|]. cbn beta. intros ? ? [-> ->].
  eapply succeeds_bind; [by eapply succeeds_exec|]. cbn beta. intros [] ? ->.
  eapply succeeds_bind; [by eapply succeeds_exec|]. cbn beta. intros [] ? ->. rewrite Er. unfold attributeKeyFromAttribute.
  pose proof (encodable_self _ Hk) as Hs. cbn [attr_key ak_entity ak_path] in Hs. rewrite Hs.
  eapply succeeds_bind; [by apply succeeds_lift|]. cbn beta. intros ? ? [-> ->]. fold (attr_key a).
  destruct (strictAttributePrefixes_exact _ Hk) as (prefixes & Hp & _).
  eapply succeeds_bind; [by apply succeeds_lift|]. cbn beta. intros ? ? [-> ->].
  assert (Hnd : NoDup prefixes).
  { eapply attribute_prefixes_NoDup; [exact Hp|apply NoDup_seq|]. apply Forall_forall. intros n Hn%elem_of_seq. cbn in *. lia. }
  eapply succeeds_runs, (succeeds_each now _ (fun pre d' => d' = attribute_upserted ns record pre d)).
  { unfold attribute_upserted, with_ancestors, with_attributes. cbn. by rewrite union_empty_l_L. }
  intros pre p post ? E ->. rewrite E in Hnd. apply NoDup_app in Hnd as (_ & Hout & _).
  assert (Hnew : p ∉ pre) by (intros Hin; apply (Hout p Hin); by left).
  eapply succeeds_mono; [eapply succeeds_exec|cbn beta; intros _ d' Ed; exact Ed]. unfold sql_insert_ancestor.
  rewrite bool_decide_eq_false_2.
  - cbn. rewrite lookup_insert_eq. f_equal. unfold attribute_upserted, with_ancestors, with_attributes. cbn. f_equal.
    rewrite fmap_app, list_to_set_app_L. cbn. set_solver.
  - cbn. rewrite elem_of_union, elem_of_list_to_set, list_elem_of_fmap, elem_of_filter. cbn. intros [(q & [= <-] & Hq)|[Hne _]]; [done|].
    by apply Hne.
Qed.

Lemma write_attributes_succeeds ns ws A d : Forall readable_attribute ws -> Forall (fun a => key_encodable (attr_key a)) ws ->
  Forall (fun a => signed64 (val_integer (attr_value a))) ws ->
  (forall x y, x ∈ ws -> y ∈ ws -> overlap (attr_key x) (attr_key y) -> x = y) ->
  attributes_held ns A d -> Forall (fun a => ~ occupied_conflict A (attr_key a)) ws ->
  succeeds now (tx_each (write_attribute ns) ws) d (fun _ _ => True).
Proof.
  rewrite !Forall_forall. intros Hr Hk Hi Hc HA Hno. eapply succeeds_runs, (succeeds_each now _ (fun pre d' => attributes_held ns (put_values attr_key pre A) d')); [done|].
  intros pre a post d1 E Hd1. assert (Ha : a ∈ ws) by (rewrite E; set_solver).
  assert (Hno1 : ~ occupied_conflict (put_values attr_key pre A) (attr_key a)).
  { rewrite occupied_conflict_puts; [by apply Hno|]. intros x Hx. apply Hc; [rewrite E; set_solver|done]. }
  eapply succeeds_mono; [eapply succeeds_effect; [apply (write_attribute_effect ns a (Hi _ Ha))|]|].
  - instantiate (1 := fun _ _ => True). unfold write_attribute. eapply succeeds_bind.
    + eapply succeeds_effect; [apply ensureNoAttributeConflict_effect|]. eapply ensureNoAttributeConflict_succeeds; [by apply Hk|exact Hd1|done].
    + cbn beta. intros u d2 (_ & -> & _). apply upsertAttribute_succeeds; auto.
  - cbn beta. intros u d2 (_ & _ & _ & HA2). unfold put_values. rewrite fold_left_app. cbn. by apply HA2.
Qed.

(** Every key of an accepted request encodes: the rest of the request takes more
    of the budget than the codec's probe. *)
Lemma accepted_encodable request canonical : NewWriteDataRequest (request_input request) = Ok canonical ->
  validateNamespace (wd_namespace request) = Ok tt /\
  Forall (fun k => TupleKey_valid k = true) (wd_tupleDeletes request) /\
  Forall key_encodable (wd_attributeDeletes request) /\ Forall (fun a => key_encodable (attr_key a)) (wd_attributeWrites request).
Proof.
  intros [G _]%NewWriteDataRequest_Ok_guards. unfold write_items_ok in G. rewrite !andb_true_iff in G.
  destruct G as ((((((((_ & Hcost) & _) & [[] Hns]%is_ok_true) & _) & _) & Htd) & Haw) & Had). cbn [request_input in_Namespace in_TupleDeletes in_AttributeWrites in_AttributeDeletes] in *.
  split; [done|]. rewrite forallb_forall in Htd, Haw, Had. split; [apply Forall_forall; intros x Hx; by apply Htd, list_elem_of_In|].
  rewrite writeData_budget_exact in Hcost by by vm_compute. destruct (Z.leb_spec (writeDataRequestCost (request_input request)) MaxAggregateInputBytes) as [Hle|]; [|done].
  assert (Hk : forall k, is_ok (validateEntityRef (ak_entity k)) = true -> is_ok (validateAttributePath (ak_path k)) = true ->
    attributeKeyCost k + 48 <= MaxAggregateInputBytes -> key_encodable k).
  { intros k [[] He]%is_ok_true [[] Hp]%is_ok_true Hc. unfold attributeKeyCost in Hc.
    assert (16 <= entityCost (ak_entity k)) by (unfold entityCost, textCost; pose proof (len_nonneg (ent_Type (ak_entity k))); pose proof (len_nonneg (ent_ID (ak_entity k))); lia).
    split; apply is_ok_true; eexists; apply NewAttributeKeyPath_accepts; (split; [done|]); (split; [done|]); (split; [done|]); [lia|].
    change (entityCost codec_entity) with 26. lia. }
  unfold writeDataRequestCost in Hle. cbn [request_input in_AttributeWrites in_AttributeDeletes] in Hle.
  match type of Hle with ?x + (16 + (32 + (?y + (?z + (?u + ?v))))) <= _ =>
    assert (0 <= x) by solve_nonneg; assert (0 <= y) by solve_nonneg; assert (0 <= z) by solve_nonneg;
    assert (0 <= u) by solve_nonneg; assert (0 <= v) by solve_nonneg end.
  split; apply Forall_forall.
  - intros k Hin. pose proof (Had k (proj1 (list_elem_of_In _ _) Hin)) as Hv. unfold AttributeKey_valid in Hv. apply andb_true_iff in Hv as [He Hp].
    apply Hk; [done..|]. pose proof (sum_cost_elem attributeKeyCost (wd_attributeDeletes request) k ltac:(intros; solve_nonneg) Hin). lia.
  - intros a Hin. pose proof (Haw a (proj1 (list_elem_of_In _ _) Hin)) as Hv. unfold Attribute_valid in Hv. rewrite !andb_true_iff in Hv. destruct Hv as [[He Hp] _].
    apply Hk; [done..|]. pose proof (sum_cost_elem attributeCost (wd_attributeWrites request) a ltac:(intros; solve_nonneg) Hin) as Hs.
    unfold attributeCost, attributeKeyCost in *. cbn [attr_key ak_entity ak_path]. assert (0 <= valueCost (attr_value a)) by solve_nonneg. lia.
Qed.

Lemma write_facts_succeeds request canonical A d : NewWriteDataRequest (request_input request) = Ok canonical ->
  mutations_ok request -> request_machine request -> Forall durable_expiry (wd_tupleWrites request) ->
  attributes_held (wd_namespace request) A d -> ~ blocked request A -> succeeds now (write_facts request) d (fun _ _ => True).
Proof.
  intros Hc ((_ & Hov & _) & Hv & Hr) Hi He HA Hno. destruct (accepted_encodable _ _ Hc) as (_ & Htd & Had & Haw).
  unfold write_facts. set (ns := wd_namespace request) in *. rewrite Forall_forall in Htd. rewrite Forall_forall in Had. rewrite Forall_forall in Hv. rewrite Forall_forall in He.
  eapply succeeds_bind.
  { eapply succeeds_effect; [apply (delete_tuples_effect ns _ ∅)|]. apply (succeeds_each now _ (fun _ _ => True)); [done|].
    intros pre k post d1 E _. apply deleteTuple_succeeds, Htd. rewrite E. set_solver. }
  cbn beta. intros _ d1 [_ (_ & E1 & E1' & _)]. eapply succeeds_bind.
  { eapply succeeds_effect; [apply (upsert_tuples_effect ns _ ∅); by apply Forall_forall|]. apply (succeeds_each now _ (fun _ _ => True)); [done|].
    intros pre t post d2 E _. assert (t ∈ wd_tupleWrites request) by (rewrite E; set_solver). by apply upsertTuple_succeeds; [apply Hv|apply He]. }
  cbn beta. intros _ d2 [_ (_ & E2 & E2' & _)]. eapply succeeds_bind.
  { eapply succeeds_effect; [apply (delete_attributes_effect ns _ A)|]. apply (succeeds_each now _ (fun _ _ => True)); [done|].
    intros pre k post d3 E _. apply deleteAttribute_succeeds, Had. rewrite E. set_solver. }
  cbn beta. intros _ d3 (_ & _ & _ & HA3). apply (write_attributes_succeeds ns _ (remove_keys (wd_attributeDeletes request) A)); [done..| |].
  - apply HA3. eapply attributes_held_same; [exact E2|exact E2'|]. by eapply attributes_held_same; [exact E1|exact E1'|].
  - apply Forall_forall. intros a Ha Ho. apply Hno. by exists a.
Qed.

Section Commits.
Context `{D : Dsl} `{H : Hmac} (cursorKey : list Z).

Lemma finish_write_succeeds request encoded next d : let ns := wd_namespace request in
  0 < next <= MaxInt64 -> validateNamespace ns = Ok tt -> namespace_ok ns d -> recorded_time_ok (head_row d ns) ->
  hd_eventSequence (head_row d ns) < MaxInt64 -> db_idempotency d !! (ns, wd_idempotencyKey request) = None ->
  succeeds now (finish_write cursorKey request encoded next) d (fun _ _ => True).
Proof.
  intros ns Hnext Hns (Hst & Hseq & Hgen) Htime Hroom Hfresh. unfold finish_write. fold ns. cbv zeta.
  eapply succeeds_bind; [by apply effectiveNow_succeeds; [apply Hst|]|]. cbn beta. intros t d1 [[n Ht] (h1 & -> & Hok1 & Eg & Es & Ex)].
  unfold NewWriteDataResponse, encodeIdempotencyResponse. destruct (Z.eqb_spec next 0) as [|Hne]; [lia|].
  eapply succeeds_bind; [by apply succeeds_lift|]. cbn beta. intros ? ? [-> ->]. cbn [wr_generation wr_replayed].
  rewrite (proj2 (Z.eqb_neq _ _) Hne). cbn [orb]. eapply succeeds_bind; [by apply succeeds_lift|]. cbn beta. intros ? ? [-> ->].
  assert (Hst1 : stream_ok ns (with_heads (<[ns := h1]>) d)) by (apply (stream_ok_heads ns d); rewrite ?head_row_with; auto).
  eapply succeeds_bind.
  { eapply succeeds_effect; [apply appendStateEvent_effect; cbn; unfold unsigned, MaxInt64 in *; lia|].
    eapply appendStateEvent_succeeds; cbn; fold ns; rewrite ?head_row_with; try done; [lia|].
    unfold event_fields_ok. cbn. by rewrite (proj2 (Z.eqb_neq _ _) Hne). }
  cbn beta. intros _ d2 [_ Happ]. cbn [ev_namespace data_input] in Happ. fold ns in Happ.
  specialize (Happ Hst1 ltac:(rewrite head_row_with; lia)). pose proof (appended_frame _ _ _ _ _ Happ) as (_ & _ & _ & Hid & [h2 Hh2] & Hg2 & Hs2).
  pose proof (ea_stream _ _ _ _ _ Happ) as [Hok2 _]. cbn [ev_namespace data_input] in *. fold ns in Hh2, Hok2.
  unfold head_row in Hok2. rewrite Hh2 in Hok2. unfold head_ok in Hok2. cbn in Hok2.
  eapply succeeds_bind.
  { eapply succeeds_exec. unfold sql_insert_idempotency. rewrite Hid. cbn. by rewrite Hfresh. }
  cbn beta. intros [] ? ->. eapply succeeds_bind; [|intros ? ? _; by apply succeeds_ret].
  eapply succeeds_exec, (update_head_succeeds _ _ _ h2); [exact Hh2|..]; cbn; lia.
Qed.

(** What an accepted write needs of the tables to be committed. *)
Record sqlite_admissible (request : WriteDataRequest) (A : gmap AttributeKey Attribute) (d : database) : Prop := {
  sqa_fresh : db_idempotency d !! (wd_namespace request, wd_idempotencyKey request) = None;
  sqa_revision : exists row record, db_revisions d !! (wd_namespace request, wd_validationRevisionID request) = Some row /\
    decodeRevisionRecord (wd_namespace request) (wd_validationRevisionID request) (rvr_artifact row) (rvr_provenance row)
      (rvr_publishedAtNS row) = Ok record;
  sqa_generation : hd_dataGeneration (head_row d (wd_namespace request)) = wd_expectedGeneration request;
  sqa_generation_room : wd_expectedGeneration request < MaxInt64;
  sqa_event_room : hd_eventSequence (head_row d (wd_namespace request)) < MaxInt64;
  sqa_time : recorded_time_ok (head_row d (wd_namespace request));
  sqa_expiries : Forall durable_expiry (wd_tupleWrites request);
  sqa_facts : attributes_held (wd_namespace request) A d;
  sqa_unblocked : ~ blocked request A }.

Lemma write_data_succeeds request canonical fp enc A d : NewWriteDataRequest (request_input request) = Ok canonical ->
  mutations_ok request -> request_machine request -> namespace_ok (wd_namespace request) d -> sqlite_admissible request A d ->
  succeeds now (write_data cursorKey request fp enc) d (fun _ _ => True).
Proof.
  intros Hc Hm Hi (Hst & Hseq & Hgen) [Hfresh (row & record & Hrow & Hrec) Hg Hgr Her Htime Hexp HA Hno].
  destruct (accepted_encodable _ _ Hc) as (Hns & _). unfold write_data, readIdempotencyRecord.
  eapply (succeeds_bind now _ _ _ (fun found d' => found = None /\ d' = d)).
  { eapply succeeds_bind; [apply succeeds_query|]. cbn beta. intros ? ? [-> ->]. rewrite Hfresh. by apply succeeds_ret. }
  cbn beta. intros ? ? [-> ->]. unfold write_fresh, readRevision. set (ns := wd_namespace request) in *. cbv zeta.
  eapply (succeeds_bind now _ _ _ (fun found d' => is_Some found /\ d' = d)).
  { eapply succeeds_bind; [apply succeeds_query|]. cbn beta. intros ? ? [-> ->]. rewrite Hrow.
    eapply succeeds_bind; [by apply succeeds_lift|]. cbn beta. intros ? ? [-> ->]. by apply succeeds_ret; eauto. }
  cbn beta. intros ? ? [[? ->] ->]. eapply succeeds_bind; [apply ensureNamespaceHead_succeeds, Hst|]. cbn beta. intros h d1 [-> ->].
  set (h := head_row d ns) in *. rewrite Hg, Z.eqb_refl. cbn [negb]. destruct (Z.eqb_spec (wd_expectedGeneration request) MaxInt64); [lia|].
  set (d1 := with_heads (<[ns := h]>) d). assert (E1 : head_row d1 ns = h) by apply head_row_with.
  eapply succeeds_bind.
  { eapply succeeds_effect; [apply (write_facts_effect request Hm Hi)|]. eapply write_facts_succeeds; [done..| |done].
    by eapply attributes_held_same; [| |exact HA]. }
  cbn beta. intros _ d2 (_ & F & _). assert (E2 : head_row d2 ns = h) by (rewrite (head_row_frame ns d1 d2) by apply F; done).
  destruct Hst as [Hok Hev]. fold h in Hok. unfold head_ok in Hok. apply finish_write_succeeds; fold ns; rewrite ?E2; try done; [lia| |].
  - split; [|rewrite E2; done]. split; rewrite E2; [done|]. rewrite (ff_events _ _ _ F). exact Hev.
  - by rewrite (ff_idempotency _ _ _ F).
Qed.

(** ** Publication *)

(** A new revision can be published. *)
Record publication_admissible (record : RevisionRecord) (d : database) : Prop := {
  pa_fresh : db_revisions d !! (rm_namespace (rw_metadata record), RevisionMetadata_ID (rw_metadata record)) = None;
  pa_event_room : hd_eventSequence (head_row d (rm_namespace (rw_metadata record))) < MaxInt64;
  pa_time : recorded_time_ok (head_row d (rm_namespace (rw_metadata record))) }.

(** The names of a record that reads back are valid. *)
Lemma decoded_names ns id artifact provenance nanos record :
  decodeRevisionRecord ns id artifact provenance nanos = Ok record -> validateNamespace ns = Ok tt /\ validRevisionIDString id = true.
Proof.
  unfold decodeRevisionRecord. destruct (_ || _); [done|]. intros (rid & Hid & (m & Hm & _)%rbind_ok)%rbind_ok.
  rewrite integrity_Ok in Hid. rewrite integrity_Ok in Hm. apply ParseRevisionID_Ok in Hid as [Hid _]. split; [|done].
  unfold NewRevisionMetadata in Hm. by apply rbind_ok in Hm as (? & _ & ([] & Hn & _)%rbind_ok).
Qed.

Lemma put_revision_succeeds record publishedAtNS provenance d : namespace_ok (rm_namespace (rw_metadata record)) d ->
  validateNamespace (rm_namespace (rw_metadata record)) = Ok tt -> validRevisionIDString (RevisionMetadata_ID (rw_metadata record)) = true ->
  publication_admissible record d -> succeeds now (put_revision cursorKey record publishedAtNS provenance) d (fun found _ => found = None).
Proof.
  intros (Hst & _ & _) Hns Hid [Hfresh Hroom Htime]. unfold put_revision, readRevision. cbv zeta.
  set (ns := rm_namespace (rw_metadata record)) in *. set (id := RevisionMetadata_ID (rw_metadata record)) in *.
  eapply succeeds_bind; [apply succeeds_context|]. cbn beta. intros _ ? ->.
  eapply (succeeds_bind now _ _ _ (fun found d' => found = None /\ d' = d)).
  { eapply succeeds_bind; [apply succeeds_query|]. cbn beta. intros ? ? [-> ->]. rewrite Hfresh. by apply succeeds_ret. }
  cbn beta. intros ? ? [-> ->]. eapply succeeds_bind; [eapply succeeds_exec; unfold sql_insert_revision; by rewrite Hfresh|].
  cbn beta. intros [] ? ->. eapply succeeds_bind; [apply effectiveNow_succeeds; [apply Hst|exact Htime]|].
  cbn beta. intros t d1 [[n Ht] (h1 & -> & Hok1 & Eg & Es & Ex)]. eapply succeeds_bind; [|intros ? ? _; by apply succeeds_ret].
  eapply appendStateEvent_succeeds; cbn; rewrite ?head_row_with; try done; [|rewrite Es; exact Hroom| |by apply revision_id_len].
  - apply (stream_ok_heads ns d); rewrite ?head_row_with; auto.
  - unfold event_fields_ok. cbn -[validRevisionIDString]. by rewrite Hid.
Qed.

(** ** Activation *)

(** The tables admit the activation: the revision and the slot's row decode, the
    expectation holds, and the counters have room. *)
Record activation_admissible (retention : Z) (request : ActivateRequest) (d : database) : Prop := {
  aa_retention : 2 <= retention;
  aa_revision : exists row record, db_revisions d !! (ar_namespace request, ar_targetRevisionID request) = Some row /\
    decodeRevisionRecord (ar_namespace request) (ar_targetRevisionID request) (rvr_artifact row) (rvr_provenance row)
      (rvr_publishedAtNS row) = Ok record;
  aa_slot : forall row, db_slots d !! (ar_namespace request, ar_slot request) = Some row -> 0 < slr_generation row < MaxInt64 /\
    is_ok (NewActivation (ar_namespace request) (ar_slot request) (slr_revisionID row) (slr_generation row)
      (time_UnixNano (slr_activatedAtNS row))) = true;
  aa_expected : slot_expected (ar_expectation request) (ar_namespace request) (ar_slot request) d;
  aa_history : forall g, is_Some (db_history d !! (ar_namespace request, ar_slot request, g)) ->
    0 < g <= slot_generation (ar_namespace request) (ar_slot request) d;
  aa_event_room : hd_eventSequence (head_row d (ar_namespace request)) < MaxInt64;
  aa_time : recorded_time_ok (head_row d (ar_namespace request)) }.

(** The slot is read as it is, matches the expectation and has a next generation. *)
Lemma readSlotHead_succeeds retention request d : activation_admissible retention request d ->
  succeeds now (readSlotHead (ar_namespace request) (ar_slot request)) d (fun current d' => d' = d /\
    expectationMatches (ar_expectation request) current = true /\
    sqlite_next_generation current = Ok (slot_generation (ar_namespace request) (ar_slot request) d + 1)).
Proof.
  intros Ha. pose proof (aa_slot _ _ _ Ha) as Hslot. pose proof (aa_expected _ _ _ Ha) as Hexp. unfold slot_expected, expectationMatches, slot_generation in *.
  unfold readSlotHead. eapply succeeds_bind; [apply succeeds_query|]. cbn beta. intros ? ? [-> ->].
  destruct (db_slots d !! _) as [row|].
  - destruct (Hslot row eq_refl) as [Hg [a Hact]%is_ok_true]. destruct (Z.leb_spec (slr_generation row) 0); [lia|]. rewrite Hact.
    pose proof (NewActivation_is _ _ _ _ _ _ Hact) as ->. eapply succeeds_bind; [by apply succeeds_lift|]. cbn beta. intros ? ? [-> ->].
    apply succeeds_ret. split; [done|]. split.
    + destruct (IsUnset _); [done|]. destruct (Active _) as [[rev gen] active]. cbn in Hexp. destruct Hexp as (-> & ? & [= <-] & -> & ->). cbn.
      by rewrite bool_decide_eq_true_2, Z.eqb_refl.
    + cbn. destruct (Z.leb_spec MaxInt64 (slr_generation row)); [lia|done].
  - apply succeeds_ret. split; [done|]. split; [|done]. destruct (IsUnset _); [done|].
    destruct Hexp as (_ & ? & ? & _). done.
Qed.

Lemma move_slot_succeeds retention request generation nanos d : let ns := ar_namespace request in let slot := ar_slot request in
  2 <= retention -> is_Some (db_revisions d !! (ns, ar_targetRevisionID request)) -> 0 < generation ->
  (forall g, is_Some (db_history d !! (ns, slot, g)) -> 0 < g < generation) ->
  succeeds now (move_slot retention ns slot (ar_targetRevisionID request) generation nanos) d (fun _ _ => True).
Proof.
  intros ns slot Hret [row Hrow] Hg Hh. unfold move_slot, pruneActivationHistory.
  assert (Href : references_revision ns (ar_targetRevisionID request) d = true) by (unfold references_revision; by rewrite Hrow).
  assert (Hpos : (generation <=? 0) = false) by lia.
  eapply succeeds_bind; [eapply succeeds_exec; unfold sql_upsert_slot; cbn [slr_generation slr_revisionID]; by rewrite Hpos, Href|].
  cbn beta. intros [] ? ->. assert (Hfree : db_history d !! (ns, slot, generation) = None).
  { destruct (db_history d !! (ns, slot, generation)) eqn:E; [|done]. specialize (Hh generation ltac:(eauto)). lia. }
  eapply succeeds_bind.
  { eapply succeeds_exec. unfold sql_insert_history. cbn [hyr_revisionID]. rewrite Hpos.
    change (references_revision ns (ar_targetRevisionID request) (with_slot_rows _ d)) with (references_revision ns (ar_targetRevisionID request) d).
    rewrite Href. cbn. by rewrite Hfree. }
  cbn beta. intros [] ? ->. destruct (Z.ltb_spec retention 2); [lia|].
  set (d2 := with_history _ _). eapply succeeds_bind; [apply succeeds_query|]. cbn beta. intros ? ? [-> ->].
  destruct (sql_history_tail ns slot (retention - 1) d2) as [c|] eqn:Et; [|by apply succeeds_ret].
  assert (Hc : 0 < c).
  { unfold sql_history_tail in Et. apply list_elem_of_lookup_2, elem_of_reverse, history_generations_elem in Et.
    unfold d2 in Et. cbn in Et. destruct (decide (c = generation)) as [->|Hne]; [done|]. rewrite lookup_insert_ne in Et by congruence. by apply Hh in Et as []. }
  destruct (Z.leb_spec c 0); [lia|]. by eapply succeeds_runs, succeeds_exec.
Qed.

Lemma activate_slot_succeeds retention request d : namespace_ok (ar_namespace request) d ->
  is_ok (NewActivateRequest (ar_namespace request) (ar_slot request) (ar_targetRevisionID request) (ar_expectation request)) = true ->
  activation_admissible retention request d -> succeeds now (activate_slot cursorKey retention request) d (fun _ _ => True).
Proof.
  intros (Hst & _ & _) Hreq Ha. pose proof Ha as [Hret (row & record & Hrow & Hrec) Hslot _ Hhist Hroom Htime].
  assert (V : validateNamespace (ar_namespace request) = Ok tt /\ validateIdentifier (ar_slot request) = Ok tt /\ validRevisionIDString (ar_targetRevisionID request) = true).
  { unfold NewActivateRequest in Hreq. destruct (validateNamespace _) as [[]|]; [|done]. cbn [rbind] in Hreq. destruct (validateIdentifier _) as [[]|]; [|done]. cbn [rbind] in Hreq.
    by destruct (validRevisionIDString _). }
  destruct V as (Hns & Hsl & Hid). unfold activate_slot, readRevision. cbv zeta.
  set (ns := ar_namespace request) in *. set (slot := ar_slot request) in *. set (target := ar_targetRevisionID request) in *.
  eapply (succeeds_bind now _ _ _ (fun found d' => is_Some found /\ d' = d)).
  { eapply succeeds_bind; [apply succeeds_query|]. cbn beta. intros ? ? [-> ->]. rewrite Hrow.
    eapply succeeds_bind; [by apply succeeds_lift|]. cbn beta. intros ? ? [-> ->]. by apply succeeds_ret; eauto. }
  cbn beta. intros ? ? [[? ->] ->]. eapply succeeds_bind; [by eapply readSlotHead_succeeds|]. cbn beta. intros current ? (-> & Hm & Hg). rewrite Hm. cbn [negb].
  eapply succeeds_bind; [by apply succeeds_lift|]. cbn beta. intros ? ? [-> ->]. fold ns slot. set (generation := slot_generation ns slot d + 1).
  assert (Hgen : 0 < generation).
  { unfold generation, slot_generation. destruct (db_slots d !! (ns, slot)) as [r|] eqn:Er; [|lia]. destruct (Hslot r eq_refl) as [? _]. lia. }
  eapply succeeds_bind; [apply effectiveNow_succeeds; [apply Hst|exact Htime]|]. cbn beta. intros t d1 [[n Ht] (h1 & -> & Hok1 & Eg & Es & Ex)].
  assert (Hpos : 0 < t).
  { destruct (sqliteTimestamp_fixed _ _ _ Ht) as [_ Hu]. apply sqliteTimestamp_exact in Ht as (_ & _ & En & Hr); [|rewrite <- Hu; apply time_UnixNano_wf].
    unfold timestamp_range, Second, unixToInternal in *. lia. }
  destruct (new_activation_progress ns slot target generation t) as [Hact Hv]; [done..|lia|done|]. rewrite Hact.
  eapply succeeds_bind; [by apply succeeds_lift|]. cbn beta. intros ? ? [-> ->]. cbn [act_activatedAt]. rewrite Ht.
  eapply succeeds_bind.
  { eapply succeeds_effect; [apply slot_moved_effect|]. apply (move_slot_succeeds retention request); [done|cbn; eauto|done|].
    intros g Hg'. cbn in Hg'. specialize (Hhist g Hg'). unfold generation. lia. }
  cbn beta. intros _ d2 (_ & _ & _ & Eh & Ee & _).
  assert (E2 : head_row d2 ns = h1) by (unfold head_row; rewrite Eh; cbn; by rewrite lookup_insert_eq). eapply succeeds_bind.
  - eapply appendStateEvent_succeeds; cbn; try done; [| | |by apply revision_id_len|by apply valid_identifier_len].
    + apply (stream_ok_heads ns d); rewrite ?E2; auto.
    + by rewrite E2, Es.
    + unfold event_fields_ok. cbn -[validRevisionIDString validateIdentifier]. rewrite Hid, Hsl. cbn. by destruct (Z.eqb_spec generation 0); [lia|].
  - intros ? ? _. unfold NewActivateResponse. rewrite Hv. by eapply succeeds_runs, succeeds_lift.
Qed.

End Commits.
End Clock.

(** An undisturbed write transaction whose callback succeeds commits. *)
Lemma call_write_commits {A} env now (fn : tx A) d Q : calm env -> te_clock (ce_tx env) = Some now -> succeeds now fn d Q ->
  exists a d', call_write env fn d = (Ok a, d') /\ Q a d'.
Proof.
  intros (_ & Hq & Htc & Hnf & Hcl & Hb & Hcm) Hclock Hfn. destruct (Hfn (ce_tx env) 2%nat) as (a & s & E & HQ); [done|].
  exists a, (tx_db s). split; [|done]. unfold call_write, database_write, executeWrite. rewrite Hq, Htc, Hcl, Hb. cbn [sqliteContextError].
  rewrite E, Htc. cbn [sqliteContextError]. by rewrite Hcm.
Qed.

(** * The calls *)

Section Calls.
Context `{D : Dsl} {L : DslLaws D} `{H : Hmac} (cursorKey : list Z).

(** An accepted request has a fingerprint. *)
Lemma accepted_prepared request canonical : NewWriteDataRequest (request_input request) = Ok canonical ->
  exists fp enc, prepared_write request canonical fp enc.
Proof.
  intros Hc. pose proof (NewWriteDataRequest_idempotent _ _ Hc) as Hi. pose proof (NewWriteDataRequest_Ok_guards _ _ Hi) as [G _].
  unfold write_items_ok in G. rewrite !andb_true_iff in G. destruct G as ((((((_ & [[] Hns]%is_ok_true) & [[] Hk]%is_ok_true) & _) & _) & _) & _).
  cbn [request_input in_Namespace in_IdempotencyKey] in *.
  assert (Hf : exists scope, FingerprintWriteData canonical = Ok (scope, mkFingerprint (sha256_Sum256 (write_preimage canonical)) true)).
  { unfold FingerprintWriteData, NewIdempotencyScope, NewResolveRequest. rewrite Hi. cbn [rbind]. rewrite Hns, Hk. cbn. eauto. }
  destruct Hf as [scope Hf]. eexists _, _. split; [done|]. eexists. split; [exact Hf|]. split; [done|].
  unfold encodeIdempotencyFingerprint, Fingerprint_Bytes. cbn [snd fp_valid fp_digest negb orb]. rewrite (proj1 (Sum256_size _)). cbn [Z.eqb negb]. reflexivity.
Qed.

Lemma write_commits env now request canonical A d :
  calm env -> te_clock (ce_tx env) = Some now -> is_Some (sqliteTimestamp now) ->
  NewWriteDataRequest (request_input request) = Ok canonical -> request_machine request ->
  namespace_ok (wd_namespace request) d -> sqlite_admissible canonical A d ->
  let response := mkWriteDataResponse (wd_expectedGeneration request + 1) false in
  exists fp d', request_fingerprint canonical fp /\ sqlite_WriteData cursorKey env request d = (Ok response, d', true) /\
    data_written cursorKey canonical fp d response d'.
Proof.
  intros Hcalm Hclock [[c n] Hnow] Hc Hi Hns Ha. destruct (sqliteTimestamp_fixed _ _ _ Hnow) as [-> _].
  destruct (accepted_prepared _ _ Hc) as (fp & enc & Hp). pose proof Hp as (_ & sf & Hf & Hb & He).
  destruct (canonical_same _ _ Hc) as (En & Ek & Eg & Hi'). specialize (Hi' Hi). pose proof (NewWriteDataRequest_idempotent _ _ Hc) as Hcc.
  assert (Hfp : decodeIdempotencyFingerprint enc = Ok fp) by (rewrite <- Hb; by apply fingerprint_codec).
  rewrite <- En in Hns. pose proof (fingerprinted_ok _ _ Hf) as Hm.
  destruct (call_write_commits env now _ d _ Hcalm Hclock
    (succeeds_effect _ _ _ _ _ (write_data_effect cursorKey canonical fp enc Hm Hi' Hfp)
      (write_data_succeeds now n Hnow cursorKey canonical canonical fp enc A d Hcc Hm Hi' Hns Ha))) as (response & d' & Hcall & _ & Hd).
  destruct (Hd Hns) as [(_ & row & stored & Hrow & _)|Hw]; [pose proof (sqa_fresh _ _ _ Ha); congruence|].
  exists fp, d'. split; [by exists sf|]. pose proof (dw_response _ _ _ _ _ _ Hw) as Er. rewrite Eg in Er. rewrite Er in Hw. split; [|exact Hw].
  pose proof Hcalm as (Hctx & _). unfold sqlite_WriteData, canonicalWriteDataRequest.
  rewrite !Hctx. cbn [sqliteContextError rbind]. rewrite Hc. cbn [mapped rbind]. rewrite Hf. cbn [mapped rbind]. rewrite He. cbn [rbind].
  rewrite Hb, Hcall, Er. done.
Qed.

Lemma put_commits env now write record publishedAtNS provenance d :
  calm env -> te_clock (ce_tx env) = Some now -> is_Some (sqliteTimestamp now) ->
  canonicalRevisionRecord write = Ok (record, publishedAtNS, provenance) -> Forall is_byte (prov_originalSource (rw_provenance write)) ->
  namespace_ok (rm_namespace (rw_metadata write)) d -> publication_admissible record d ->
  exists d', sqlite_PutRevision cursorKey env None write d = (Ok (mkPutRevisionResult record true), d') /\
    revision_published cursorKey record publishedAtNS provenance d d'.
Proof.
  intros Hcalm Hclock [[c n] Hnow] Hc Hb Hns Ha. destruct (sqliteTimestamp_fixed _ _ _ Hnow) as [-> _].
  destruct (canonical_record_reads _ _ _ _ Hc Hb) as (En & Hv & Hd). destruct (decoded_names _ _ _ _ _ _ Hd) as [Hn Hid]. rewrite <- En in Hns.
  destruct (call_write_commits env now _ d _ Hcalm Hclock
    (succeeds_effect _ _ _ _ _ (put_revision_effect cursorKey record publishedAtNS provenance)
      (put_revision_succeeds now n Hnow cursorKey record publishedAtNS provenance d Hns Hn Hid Ha))) as (found & d' & Hcall & -> & Hp).
  exists d'. split; [|by apply Hp]. unfold sqlite_PutRevision. rewrite (proj1 Hcalm). cbn [sqliteContextError rbind]. rewrite Hc. cbn [rbind fst].
  unfold NewPutRevisionResult. rewrite Hv. cbn [or_error rbind]. by rewrite Hcall.
Qed.

Lemma activate_commits env now retention request d :
  calm env -> te_clock (ce_tx env) = Some now -> is_Some (sqliteTimestamp now) ->
  is_ok (NewActivateRequest (ar_namespace request) (ar_slot request) (ar_targetRevisionID request) (ar_expectation request)) = true ->
  namespace_ok (ar_namespace request) d -> activation_admissible retention request d ->
  exists response d', sqlite_Activate cursorKey retention env request d = (Ok response, d') /\
    slot_activated cursorKey retention request d response d'.
Proof.
  intros Hcalm Hclock [[c n] Hnow] Hr Hns Ha. destruct (sqliteTimestamp_fixed _ _ _ Hnow) as [-> _].
  destruct (call_write_commits env now _ d _ Hcalm Hclock
    (succeeds_effect _ _ _ _ _ (activate_slot_effect cursorKey retention request)
      (activate_slot_succeeds now n Hnow cursorKey retention request d Hns Hr Ha))) as (response & d' & Hcall & _ & Hs).
  exists response, d'. split; [|by apply Hs]. unfold sqlite_Activate. rewrite !(proj1 Hcalm). cbn [sqliteContextError rbind].
  apply is_ok_true in Hr as [r ->]. cbn [mapped]. exact Hcall.
Qed.

(** C28: undisturbed calls of the SQLite store commit. When nothing fails, the
    caller waits and the clock has a durable reading, an accepted data write
    whose key is new, whose revision decodes, whose generation is current and
    whose attributes are not blocked answers the next generation and is
    committed as specified; the publication of a new revision answers the
    record as created and stores it; an activation whose expectation holds
    answers and moves the slot. The calls always return, and never with an
    error. *)
Theorem sqlite_commits env now d : calm env -> te_clock (ce_tx env) = Some now -> is_Some (sqliteTimestamp now) ->
  (forall request canonical A, NewWriteDataRequest (request_input request) = Ok canonical -> request_machine request ->
     namespace_ok (wd_namespace request) d -> sqlite_admissible canonical A d ->
     let response := mkWriteDataResponse (wd_expectedGeneration request + 1) false in
     exists fp d', request_fingerprint canonical fp /\ sqlite_WriteData cursorKey env request d = (Ok response, d', true) /\
       data_written cursorKey canonical fp d response d') /\
  (forall write record publishedAtNS provenance, canonicalRevisionRecord write = Ok (record, publishedAtNS, provenance) ->
     Forall is_byte (prov_originalSource (rw_provenance write)) -> namespace_ok (rm_namespace (rw_metadata write)) d ->
     publication_admissible record d ->
     exists d', sqlite_PutRevision cursorKey env None write d = (Ok (mkPutRevisionResult record true), d') /\
       revision_published cursorKey record publishedAtNS provenance d d') /\
  (forall retention request,
     is_ok (NewActivateRequest (ar_namespace request) (ar_slot request) (ar_targetRevisionID request) (ar_expectation request)) = true ->
     namespace_ok (ar_namespace request) d -> activation_admissible retention request d ->
     exists response d', sqlite_Activate cursorKey retention env request d = (Ok response, d') /\
       slot_activated cursorKey retention request d response d').
Proof.
  intros Hcalm Hclock Hnow. split; [|split]; intros.
  - by eapply write_commits.
  - by eapply put_commits.
  - by eapply activate_commits.
Qed.

End Calls.
