(* ===== verification/SqliteReads.v ===== *)
(** What the pinned snapshots of the SQLite store read (store/sqlite/snapshot.go).

    A snapshot reads the tables of the moment it was opened. Its answers are
    stated on the facts that the tables hold, with the answers that the
    in-memory store's snapshots give. *)

From Stdlib Require Import ZArith Lia Sorted Permutation.
From stdpp Require Import base list gmap strings.
From S2P Require Import Prelude Limits Text Types Invocation Cost Canon Data DataValid Policy Events Revisions Avl Index Cursor Fingerprint StoreData MemState MemOps MemData MemSnapshot MemReads SqliteCodec SqliteData SqliteCursor SqliteDb SqliteStore SqliteEffects SqliteFacts.

(** * Tuples *)

(** A stored tuple and its row. *)
Definition tuple_stored (ns : string) (T : gmap Tuple RelationshipTuple) (key : list Z) (row : tupleRow) (v : RelationshipTuple) : Prop :=
  T !! rt_tuple v = Some v /\ encodeTupleKey (rt_tuple v) = Ok key /\
  decodeDurableTuple key (tpr_subjectType row) (tpr_subjectID row) (tpr_subjectRelation row) (tpr_relation row)
    (tpr_resourceType row) (tpr_resourceID row) (tpr_expiresAtNS row) = Ok v /\
  rt_tuple v = mkTuple (mkEntityRef (tpr_resourceType row) (tpr_resourceID row)) (tpr_relation row)
    (mkSubjectRef (tpr_subjectType row) (tpr_subjectID row) (tpr_subjectRelation row)) /\
  tpr_expiresAtNS row = (if rt_hasExpiry v then option_map snd (sqliteTimestamp (rt_expiresAt v)) else None) /\
  (rt_hasExpiry v = true -> is_Some (sqliteTimestamp (rt_expiresAt v))) /\ RelationshipTuple_valid v = true.

Lemma durable_row ns T d v record : tuples_held ns T d -> T !! rt_tuple v = Some v -> canonicalDurableTuple v = Ok record ->
  dt_tuple record = v -> tuple_stored ns T (dt_key record) (tuple_row record) v.
Proof.
  intros HT Hv Hc Ed. pose proof (durable_tuple_key _ _ Hc) as Hk. rewrite Ed in Hk. unfold tuple_stored, tuple_row.
  cbn [tpr_subjectType tpr_subjectID tpr_subjectRelation tpr_relation tpr_resourceType tpr_resourceID tpr_expiresAtNS]. rewrite Ed.
  assert (Ht : rt_tuple v = mkTuple (mkEntityRef (ent_Type (tup_Resource (rt_tuple v))) (ent_ID (tup_Resource (rt_tuple v)))) (tup_Relation (rt_tuple v))
    (mkSubjectRef (sub_Type (tup_Subject (rt_tuple v))) (sub_ID (tup_Subject (rt_tuple v))) (sub_Relation (tup_Subject (rt_tuple v))))).
  { by destruct v as [[[] ? []] ? ?]. }
  split; [done|]. split; [done|]. split.
  { apply durable_tuple_exact. split; [done|]. by destruct record; cbn in *; subst. }
  split; [done|]. unfold canonicalDurableTuple in Hc.
  apply rbind_ok in Hc as ([e n] & He & (c & Hc & (k & Hk' & [= <-])%rbind_ok)%rbind_ok). cbn [fst snd dt_key dt_tuple dt_expiresAtNS] in *. subst c.
  destruct (NewRelationshipTuple _ _) as [w|] eqn:Hn; [|done]. injection Hc as ->. unfold NewRelationshipTuple in Hn.
  destruct (validateDSLRelationship (rt_tuple v)) as [[]|] eqn:Hval; [|done]. cbn [rbind] in Hn. unfold RelationshipTuple_valid. rewrite Hval.
  destruct (rt_hasExpiry v) eqn:Hx.
  - destruct (sqliteTimestamp (rt_expiresAt v)) as [[x' n']|]; [|done]. injection He as <- <-. split; [done|]. split; [eauto|].
    destruct (IsZero x') eqn:Hz; [done|]. injection Hn as E. rewrite <- E in *. cbn in *. by rewrite Hz.
  - injection He as <- <-. split; [done|]. split; [done|]. injection Hn as E. rewrite <- E in *. done.
Qed.

(** The table lists the tuples of the map. *)
Lemma tuple_rows ns T d key : tuples_held ns T d ->
  (forall row, db_tuples d !! (ns, key) = Some row -> exists v, tuple_stored ns T key row v) /\
  (forall v, T !! rt_tuple v = Some v -> encodeTupleKey (rt_tuple v) = Ok key ->
     exists row, db_tuples d !! (ns, key) = Some row /\ tuple_stored ns T key row v).
Proof.
  intros HT. split.
  - intros row Hrow. destruct (tr_only _ _ _ HT _ _ Hrow) as (t & Ht & v & Hv).
    destruct (tr_stored _ _ _ HT _ _ Hv) as (<- & record & Hc & Ed & Hrow'). exists v.
    pose proof (durable_row _ _ _ _ _ HT Hv Hc Ed) as Hs. assert (dt_key record = key) as Ek by (destruct Hs as (_ & Hk & _); congruence).
    rewrite Ek in *. rewrite Hrow in Hrow'. by injection Hrow' as ->.
  - intros v Hv Hk. destruct (tr_stored _ _ _ HT _ _ Hv) as (_ & record & Hc & Ed & Hrow').
    pose proof (durable_row _ _ _ _ _ HT Hv Hc Ed) as Hs. assert (dt_key record = key) as Ek by (destruct Hs as (_ & Hk' & _); congruence).
    rewrite Ek in *. eauto.
Qed.

(** The expiry column compares like the times. *)
Lemma unexpired_active readAt readAtNS v expires : sqliteTimestamp readAt = Some (readAt, readAtNS) ->
  expires = (if rt_hasExpiry v then option_map snd (sqliteTimestamp (rt_expiresAt v)) else None) ->
  (rt_hasExpiry v = true -> is_Some (sqliteTimestamp (rt_expiresAt v))) -> unexpired expires readAtNS = active_at readAt v.
Proof.
  intros Hr -> Hx. unfold unexpired, active_at. destruct (rt_hasExpiry v); [|done]. destruct (Hx eq_refl) as [[c n] Hs]. rewrite Hs. cbn [option_map snd negb orb].
  destruct (sqliteTimestamp_fixed _ _ _ Hr) as [_ Hu]. destruct (sqliteTimestamp_fixed _ _ _ Hs) as [-> Hu'].
  apply sqliteTimestamp_exact in Hr as (_ & _ & Er & _); [|rewrite <- Hu; apply time_UnixNano_wf].
  apply sqliteTimestamp_exact in Hs as (_ & _ & Es & _); [|rewrite <- Hu'; apply time_UnixNano_wf].
  rewrite Er, Es. destruct (Z.ltb_spec readAt (rt_expiresAt v)), (Z.ltb_spec (readAt - unixToInternal * Second) (rt_expiresAt v - unixToInternal * Second)); lia.
Qed.

Definition row_subject (row : tupleRow) : SubjectRef := mkSubjectRef (tpr_subjectType row) (tpr_subjectID row) (tpr_subjectRelation row).

(** The loop collects the subjects of rows that decode, up to the limit. *)
Lemma subject_rows_collects query rows : forall subjects, zlen subjects <= tq_limit query ->
  Forall (fun kr => exists v, decodeDurableTuple kr.1 (tpr_subjectType kr.2) (tpr_subjectID kr.2) (tpr_subjectRelation kr.2) (tpr_relation kr.2)
    (tpr_resourceType kr.2) (tpr_resourceID kr.2) (tpr_expiresAtNS kr.2) = Ok v /\
    rt_tuple v = mkTuple (tq_resource query) (tq_relation query) (row_subject kr.2)) rows ->
  subject_rows query subjects (Some <$> rows) =
  if zlen subjects + zlen rows <=? tq_limit query then Ok (subjects ++ map (fun kr => row_subject kr.2) rows) else Err ErrorResourceExhausted.
Proof.
  induction rows as [|[key row] rows IH]; intros subjects Hs Hr; cbn [subject_rows fmap list_fmap].
  - change (zlen (@nil (list Z * tupleRow))) with 0. rewrite (proj2 (Z.leb_le _ _)) by lia. cbn. by rewrite app_nil_r.
  - apply Forall_cons in Hr as [(v & Hd & Ht) Hr]. cbn [fst snd] in *. rewrite Hd. cbn [rbind]. rewrite Ht. cbn [tup_Resource tup_Relation tup_Subject].
    rewrite !bool_decide_eq_false_2 by auto. cbn [orb]. rewrite zlen_cons. pose proof (zlen_nonneg rows).
    assert (L : zlen (subjects ++ [row_subject row]) = zlen subjects + 1) by (rewrite zlen_app; reflexivity). rewrite L.
    destruct (Z.ltb_spec (tq_limit query) (zlen subjects + 1)).
    + rewrite (proj2 (Z.leb_gt _ _)) by lia. done.
    + rewrite IH by (rewrite ?L; done || lia). rewrite L. replace (zlen subjects + 1 + zlen rows) with (zlen subjects + (zlen rows + 1)) by lia.
      replace (zlen rows + 1) with (1 + zlen rows) by lia. destruct (_ <=? _); [|done]. cbn [map snd]. by rewrite <- app_assoc.
Qed.

(** Undisturbed, every row is delivered. *)
Lemma delivered_intact {A} (rows : list A) : delivered rows_intact rows = Some <$> rows.
Proof.
  unfold delivered, rows_intact. cbn [rse_stop rse_unscanned]. exact (imap_const Some rows).
Qed.

(** The loop passes no row over: a row that does not scan ends it. *)
Lemma subject_rows_scanned query rows : forall (unscanned : nat -> bool) acc subjects,
  subject_rows query acc (imap (fun n row => if unscanned n then None else Some row) rows) = Ok subjects ->
  subject_rows query acc (Some <$> rows) = Ok subjects.
Proof.
  induction rows as [|[key row] rows IH]; intros u acc subjects; [done|]. rewrite imap_cons. destruct (u 0%nat); [done|].
  cbn [subject_rows fmap list_fmap]. destruct (decodeDurableTuple _ _ _ _ _ _ _ _) as [v|]; cbn [rbind]; [|done].
  destruct (_ || _); [done|]. destruct (_ <? _); [done|]. apply (IH (fun n => u (S n))).
Qed.

(** An answer is what an undisturbed query answers. *)
Lemma query_never_partial ctx env view query d r : sqlite_QueryTuples ctx env view query d = Ok r ->
  sqlite_QueryTuples ctx rows_intact view query d = Ok r.
Proof.
  unfold sqlite_QueryTuples. destruct (sqliteContextError _); cbn [rbind]; [|done]. destruct (negb _); [done|].
  destruct (queryConnection _ _); cbn [rbind]; [|done]. rewrite delivered_intact. destruct env as [[|] u [[n e]|]]; cbn [rse_query]; [done..| |].
  - destruct (subject_rows _ _ _); cbn [rbind rows_err rse_stop]; done.
  - intros (subjects & Hs & Hr)%rbind_ok. cbn [rse_query rows_intact]. by rewrite (subject_rows_scanned _ _ _ _ _ Hs).
Qed.

(** The selected rows before ordering and limit. *)
Definition selected_rows (ns : string) (query : TupleQuery) (readAtNS : Z) (d : database) : list (list Z * tupleRow) :=
  omap (fun '((n, key), row) =>
    if bool_decide (n = ns /\ tpr_resourceType row = ent_Type (tq_resource query)
         /\ tpr_resourceID row = ent_ID (tq_resource query) /\ tpr_relation row = tq_relation query)
       && unexpired (tpr_expiresAtNS row) readAtNS
    then Some (key, row) else None) (map_to_list (db_tuples d)).

Lemma selected_rows_elem ns query readAtNS d key row : (key, row) ∈ selected_rows ns query readAtNS d <->
  db_tuples d !! (ns, key) = Some row /\ mkEntityRef (tpr_resourceType row) (tpr_resourceID row) = tq_resource query /\
  tpr_relation row = tq_relation query /\ unexpired (tpr_expiresAtNS row) readAtNS = true.
Proof.
  unfold selected_rows. rewrite list_elem_of_omap. split.
  - intros ([[n k] r] & Hin%elem_of_map_to_list & E). destruct (bool_decide _) eqn:B; [|done]. apply bool_decide_eq_true in B as (-> & H1 & H2 & H3).
    destruct (unexpired _ _) eqn:U; [|done]. injection E as -> ->. split; [done|]. rewrite H1, H2. by destruct (tq_resource query).
  - intros (Hin & Hr & Hrel & Hu). exists ((ns, key), row). split; [by apply elem_of_map_to_list|]. rewrite <- Hr, Hu.
    by rewrite bool_decide_eq_true_2 by (cbn; done).
Qed.

Lemma selected_rows_keys ns query readAtNS d : NoDup (map fst (selected_rows ns query readAtNS d)).
Proof.
  unfold selected_rows. pose proof (NoDup_fst_map_to_list (db_tuples d)) as Hk.
  induction (map_to_list (db_tuples d)) as [|[[n k] row] l IH]; [constructor|]. cbn in *. inversion_clear Hk as [|? ? Hn Hk'].
  destruct (bool_decide _) eqn:B; [|auto]. destruct (unexpired _ _); [|auto]. apply bool_decide_eq_true in B as (-> & _). cbn. constructor; [|auto].
  intros ([k' row'] & -> & Hin)%list_elem_of_fmap. apply list_elem_of_omap in Hin as ([[n' k2] r2] & Hin & E).
  destruct (bool_decide _) eqn:B; [|done]. apply bool_decide_eq_true in B as (-> & _). destruct (unexpired _ _); [|done]. injection E as -> ->.
  apply Hn. apply list_elem_of_fmap. by exists ((ns, k'), row').
Qed.

(** The stored tuples of a query. *)
Definition stored_tuples (T : gmap Tuple RelationshipTuple) (query : TupleQuery) : list RelationshipTuple :=
  List.filter (fun v => bool_decide (tup_Resource (rt_tuple v) = tq_resource query /\ tup_Relation (rt_tuple v) = tq_relation query))
    (map snd (map_to_list T)).

Lemma stored_tuples_facts ns T d query : tuples_held ns T d -> lists_facts T query (stored_tuples T query).
Proof.
  intros HT. assert (Hin : forall v, v ∈ map snd (map_to_list T) <-> T !! rt_tuple v = Some v).
  { intros v. rewrite list_elem_of_fmap. split.
    - intros ([t v'] & -> & Hin%elem_of_map_to_list). cbn. by destruct (tr_stored _ _ _ HT _ _ Hin) as [-> _].
    - intros Hv. exists (rt_tuple v, v). split; [done|by apply elem_of_map_to_list]. }
  split.
  - unfold stored_tuples. eapply sublist_NoDup; [|apply lfilter_sublist]. apply (NoDup_fmap_1 rt_tuple). rewrite <- list_fmap_compose.
    assert (E : rt_tuple ∘ snd <$> map_to_list T = fst <$> map_to_list T).
    { apply list_fmap_ext. intros i [t v] Hi%list_elem_of_lookup_2%elem_of_map_to_list. cbn. by destruct (tr_stored _ _ _ HT _ _ Hi) as [-> _]. }
    rewrite E. apply NoDup_fst_map_to_list.
  - intros v. unfold stored_tuples. rewrite list_elem_of_In, List.filter_In, <- list_elem_of_In, bool_decide_eq_true, Hin. tauto.
Qed.

(** A selected row is the row of a live stored tuple of the query. *)
Lemma selected_row_stored ns T query readAt readAtNS d : tuples_held ns T d -> sqliteTimestamp readAt = Some (readAt, readAtNS) ->
  forall key row, (key, row) ∈ selected_rows ns query readAtNS d -> exists v, tuple_stored ns T key row v /\
    rt_tuple v = mkTuple (tq_resource query) (tq_relation query) (row_subject row) /\ active_at readAt v = true.
Proof.
  intros HT Hr key row (Hrow & Hres & Hrel & Hu)%selected_rows_elem. destruct (proj1 (tuple_rows _ _ _ key HT) _ Hrow) as [v Hv].
  exists v. split; [done|]. destruct Hv as (_ & _ & _ & Ht & Hx & Hs & _). rewrite Ht, Hres, Hrel. split; [done|].
  by rewrite <- (unexpired_active _ _ _ _ Hr Hx Hs).
Qed.

(** The subjects of the selected rows are those of the live stored tuples. *)
Lemma selected_live ns T query readAt readAtNS d : tuples_held ns T d -> sqliteTimestamp readAt = Some (readAt, readAtNS) ->
  map (fun kr => row_subject kr.2) (selected_rows ns query readAtNS d) ≡ₚ live readAt (stored_tuples T query).
Proof.
  intros HT Hr. destruct (stored_tuples_facts ns T d query HT) as [Hnd Hin].
  assert (Hrow := selected_row_stored ns T query readAt readAtNS d HT Hr).
  apply NoDup_Permutation.
  - pose proof (selected_rows_keys ns query readAtNS d) as Hk. revert Hk Hrow. generalize (selected_rows ns query readAtNS d) as l. clear.
    induction l as [|[key row] l IH]; intros Hk Hrow; [constructor|]. cbn in *. inversion_clear Hk as [|? ? Hn Hk'].
    constructor; [|apply IH; [done|intros; apply Hrow; by right]]. intros ([key' row'] & E & Hin')%list_elem_of_fmap.
    destruct (Hrow key row ltac:(by left)) as (v & (_ & Hv & _) & Ht & _). destruct (Hrow key' row' ltac:(by right)) as (v' & (_ & Hv' & _) & Ht' & _).
    cbn in E. rewrite Ht in Hv. rewrite Ht', <- E in Hv'. apply Hn. apply list_elem_of_fmap. exists (key', row'). split; [cbn; congruence|done].
  - unfold live. apply NoDup_fmap_2_strong; [|by eapply sublist_NoDup; [|apply lfilter_sublist]].
    intros x y Hx Hy E. rewrite list_elem_of_In, List.filter_In, <- list_elem_of_In in Hx, Hy. destruct Hx as [Hx _], Hy as [Hy _].
    apply Hin in Hx as (Hx & Ex1 & Ex2), Hy as (Hy & Ey1 & Ey2).
    assert (Et : rt_tuple x = rt_tuple y) by (destruct (rt_tuple x), (rt_tuple y); cbn in *; congruence). rewrite Et in Hx. congruence.
  - intros x. unfold live. rewrite !list_elem_of_fmap. split.
    + intros ([key row] & -> & Hsel). destruct (Hrow _ _ Hsel) as (v & (Hv & _) & Ht & Ha). exists v. cbn. rewrite Ht. split; [done|].
      rewrite list_elem_of_In, List.filter_In, <- list_elem_of_In. split; [|done]. apply Hin. split; [done|]. by rewrite Ht.
    + intros (v & -> & Hv). rewrite list_elem_of_In, List.filter_In, <- list_elem_of_In in Hv. destruct Hv as [(Hv & Hres & Hrel)%Hin Ha].
      destruct (tr_stored _ _ _ HT _ _ Hv) as (_ & record & Hc & Ed & Hrow').
      pose proof (durable_row _ _ _ _ _ HT Hv Hc Ed) as (_ & _ & _ & Ht & Hx & Hs & _).
      exists (dt_key record, tuple_row record). cbn [snd]. split; [by rewrite Ht|]. apply selected_rows_elem. split; [done|].
      rewrite Ht in Hres, Hrel. split; [done|]. split; [done|]. by rewrite (unexpired_active _ _ _ _ Hr Hx Hs).
Qed.

(** A bounded answer is complete, sorted and free of duplicates; otherwise the
    result or byte bound is exceeded. *)
Definition tuple_page (query : TupleQuery) (readAt : Time) (stored : list RelationshipTuple) (answer : result TupleResult) : Prop :=
  match answer with
  | Ok r => zlen (live readAt stored) <= tq_limit query /\ tupleResultCost query (live readAt stored) <= MaxAggregateOutputBytes /\
      tr_query r = query /\ StronglySorted (clt compareSubjectRef) (tr_subjects r) /\ forall x, x ∈ tr_subjects r <-> x ∈ live readAt stored
  | Err e => e = ErrorResourceExhausted /\
      (tq_limit query < zlen (live readAt stored) \/ MaxAggregateOutputBytes < tupleResultCost query (live readAt stored))
  end.

Lemma tupleResultCost_perm query l l' : l ≡ₚ l' -> tupleResultCost query l = tupleResultCost query l'.
Proof.
  intros P. unfold tupleResultCost. do 4 f_equal. induction P; cbn in *; unfold sum_cost in *; cbn; lia.
Qed.

Lemma query_answers ctx view query T d readAt readAtNS : tuples_held (sqs_namespace view) T d -> sqs_closing view = false ->
  sqliteTimestamp readAt = Some (readAt, readAtNS) -> sqs_readAtNS view = readAtNS -> (forall n, ctx n = LiveContext) ->
  TupleQuery_Valid query = true ->
  exists stored, lists_facts T query stored /\ tuple_page query readAt stored (sqlite_QueryTuples ctx rows_intact view query d).
Proof.
  intros HT Hcl Hr Ens Hctx Hq. set (ns := sqs_namespace view) in *. exists (stored_tuples T query). split; [by eapply stored_tuples_facts|].
  pose proof (selected_live ns T query readAt readAtNS d HT Hr) as Hp. unfold sqlite_QueryTuples, queryConnection. rewrite !Hctx, Hq, Hcl, Ens. cbn [sqliteContextError rbind negb].
  assert (Hlim : 0 < tq_limit query).
  { unfold TupleQuery_Valid, NewTupleQuery in Hq. destruct (Z.leb_spec (tq_limit query) 0); [done|lia]. }
  cbn [rse_query rows_intact]. rewrite delivered_intact. cbn [rows_err rse_stop rows_intact rbind].
  unfold sql_tuples. fold ns. fold (selected_rows ns query readAtNS d). set (sorted := sort_by _ (selected_rows ns query readAtNS d)).
  assert (Hs : sorted ≡ₚ selected_rows ns query readAtNS d) by apply sort_by_perm.
  assert (Hl : zlen (live readAt (stored_tuples T query)) = zlen sorted).
  { unfold zlen. f_equal. by rewrite <- (Permutation_length Hp), length_map, (Permutation_length Hs). }
  rewrite subject_rows_collects; [|change (zlen (@nil SubjectRef)) with 0; lia|].
  2:{ apply Forall_forall. intros [key row] (i & Hi%list_elem_of_lookup_2 & _)%elem_of_take. rewrite Hs in Hi. cbn [fst snd].
      destruct (selected_row_stored _ _ _ _ _ _ HT Hr _ _ Hi) as (v & (_ & _ & Hd & _) & Ht & _). by exists v. }
  change (zlen (@nil SubjectRef) + ?x) with (0 + x). rewrite Z.add_0_l. cbn [app].
  destruct (Z.leb_spec (zlen sorted) (tq_limit query)) as [Hle|Hgt].
  - rewrite take_ge by (unfold zlen in Hle; lia). rewrite (proj2 (Z.leb_le _ _) Hle). cbn [rbind].
    assert (Hm : map (fun kr => row_subject kr.2) sorted ≡ₚ live readAt (stored_tuples T query)) by (rewrite <- Hp; by apply Permutation_map).
    set (subjects := map _ sorted) in *.
    assert (Hsub : zlen subjects <= tq_limit query) by (unfold zlen in *; rewrite (Permutation_length Hm); lia).
    assert (Hv : forallb (fun subject => is_ok (NewRelationshipTuple (mkTuple (tq_resource query) (tq_relation query) subject) None)) subjects = true).
    { apply forallb_forall. intros x Hx%list_elem_of_In. rewrite Hm in Hx. revert x Hx. setoid_rewrite list_elem_of_In. apply forallb_forall.
      apply live_valid; [|intros v Hv; by apply (stored_tuples_facts ns T d query HT)]. apply Forall_forall. intros v Hv.
      apply (stored_tuples_facts ns T d query HT) in Hv as (Hv & _). destruct (tr_stored _ _ _ HT _ _ Hv) as (_ & record & Hc & Ed & _).
      by destruct (durable_row _ _ _ _ _ HT Hv Hc Ed) as (_ & _ & _ & _ & _ & _ & ?). }
    pose proof (NewTupleResult_total query subjects Hq Hsub Hv) as Ht. rewrite (tupleResultCost_perm _ _ _ Hm) in Ht.
    destruct (Z.leb_spec (tupleResultCost query (live readAt (stored_tuples T query))) MaxAggregateOutputBytes) as [Hc|Hc].
    + destruct Ht as [r E]. rewrite E. destruct (NewTupleResult_Ok _ _ _ E) as (Hrq & Hrs & Hri). cbn. split; [lia|]. split; [done|].
      split; [done|]. split; [done|]. intros x. by rewrite Hri, Hm.
    + rewrite Ht. split; [done|]. by right.
  - assert (Ht : zlen (take (Z.to_nat (tq_limit query + 1)) sorted) = tq_limit query + 1) by (unfold zlen in *; rewrite length_take; lia).
    rewrite Ht, (proj2 (Z.leb_gt _ _)) by lia. cbn. split; [done|]. left. lia.
Qed.

(** * Attributes *)

Lemma encodeAttributeValue_bytes v bs : encodeAttributeValue v = Ok bs -> Forall is_byte bs.
Proof.
  unfold encodeAttributeValue. cbv zeta.
  repeat match goal with |- (if ?b then _ else _) = _ -> _ => destruct b end; try done; intros E; try (apply Ok_inj in E as <-); codec_unfold;
    rewrite ?Forall_app; repeat split; auto using be_encode_bytes, bytes_of_string_range; by repeat constructor.
Qed.

(** The row of a stored attribute decodes to it. *)
Lemma attribute_row_decodes ns A d k a key : attributes_held ns A d -> A !! k = Some a -> encodeAttributeKey k = Ok key ->
  exists row, db_attributes d !! (ns, key) = Some row /\ atr_expiresAtNS row = None /\
    decodeDurableAttribute key (atr_path row) (atr_value row) (atr_entityType row) (atr_entityID row) = Ok a.
Proof.
  intros Ha Hin Hk. destruct (ah_stored _ _ _ Ha _ _ Hin) as (Ek & Hi & record & Hc & Er & Hrow).
  destruct (durable_attribute_fixed _ _ Hc) as [_ Hkey]. rewrite Ek, Hk in Hkey. injection Hkey as ->.
  exists (attribute_row record). split; [done|]. split; [done|]. unfold attribute_row.
  cbn [atr_path atr_value atr_entityType atr_entityID]. rewrite Er. pose proof Hc as Hc'. unfold canonicalDurableAttribute in Hc'.
  apply rbind_ok in Hc' as (c & _ & (kv & _ & (ke & _ & (pe & Hpe & (ve & Hve & E)%rbind_ok)%rbind_ok)%rbind_ok)%rbind_ok).
  injection E as <-. cbn [da_path da_value da_key da_attribute] in *.
  apply durable_attribute_exact; [by destruct (encodeAttributePath_size _ _ Hpe)|by eapply encodeAttributeValue_bytes|].
  split; [by destruct (attr_entity a)|]. split; [done|]. by rewrite <- Er at 2.
Qed.

Lemma encodable_key key bs : encodeAttributeKey key = Ok bs -> NewAttributeKeyPath (ak_entity key) (ak_path key) = Ok key.
Proof.
  intros H. assert (E : key_encodable key) by (apply encodeAttributeKey_total; eauto). destruct E as [[c Hc]%is_ok_true _].
  rewrite Hc. apply NewAttributeKeyPath_is in Hc as ->. by destruct key.
Qed.

Lemma get_answers ctx view key bs A d : attributes_held (sqs_namespace view) A d -> attributes_keyed A -> sqs_closing view = false -> (forall n, ctx n = LiveContext) ->
  encodeAttributeKey key = Ok bs -> sqlite_GetAttribute ctx None view key d = attribute_answer A key.
Proof.
  intros Ha Hkd Hcl Hctx Hk. pose proof (encodable_key _ _ Hk) as Hn. assert (Hok : attribute_key_ok key = true) by (unfold attribute_key_ok; rewrite Hn; by apply bool_decide_eq_true).
  unfold sqlite_GetAttribute, queryConnection. rewrite !Hctx, Hcl. cbn [sqliteContextError rbind]. rewrite Hn. cbn [invalid rbind]. rewrite bool_decide_eq_false_2 by auto. rewrite Hk. cbn [rbind].
  unfold attribute_answer. destruct (A !! key) as [a|] eqn:E.
  - destruct (attribute_row_decodes _ _ _ _ _ _ Ha E Hk) as (row & -> & -> & Hd). cbn [unexpired negb]. rewrite Hd. cbn [rbind].
    apply Hkd in E as [Ek Hr]. rewrite <- Ek. unfold attr_key. cbn [ak_entity ak_path]. rewrite !bool_decide_eq_false_2 by auto. cbn [orb].
    fold (attr_key a). rewrite Ek. by apply found_result.
  - destruct (db_attributes d !! (sqs_namespace view, bs)) as [row|] eqn:Er.
    { destruct (proj1 (attributes_held_row _ _ _ _ _ Ha Hk) (mk_is_Some _ _ Er)) as [x Hx]. congruence. }
    unfold NewAttributeResult. rewrite Hn. cbn [negb zero_value val_kind Z.eqb].
    rewrite validateAttributeResultBytes_exact. unfold attributeResultCost, valueCost. cbn [val_kind zero_value].
    change (0 =? ValueKindString) with false. rewrite !Z.add_0_r. replace (9 + 9) with 18 by done. by case_match.
Qed.

(** A descendant row is there exactly when an attribute lies strictly below. *)
Lemma descendant_rows ns A d key bs readAtNS : attributes_held ns A d -> encodeAttributeKey key = Ok bs -> forall rk row,
  (rk, row) ∈ sql_descendants ns bs readAtNS d <->
  db_attributes d !! (ns, rk) = Some row /\ exists k, is_Some (A !! k) /\ encodeAttributeKey k = Ok rk /\ strictly_above key k.
Proof.
  intros Ha Hk rk row. unfold sql_descendants. rewrite list_elem_of_omap. split.
  - intros ([[n k0] anc] & Hin%elem_of_elements & E). case_bool_decide as B; [|done]. destruct B as [-> ->].
    destruct (db_attributes d !! (ns, k0)) as [r|] eqn:Er; [|done]. destruct (unexpired _ _); [|done]. injection E as -> ->.
    split; [done|]. apply (ah_ancestors _ _ _ Ha) in Hin as (k & k' & H1 & H2 & H3 & H4). exists k.
    by rewrite (encodeAttributeKey_inj _ _ _ Hk H3).
  - intros (Hrow & k & [a Hin] & Hek & Hs). exists (ns, rk, bs). split.
    + apply elem_of_elements, (ah_ancestors _ _ _ Ha). exists k, key. eauto.
    + rewrite bool_decide_eq_true_2 by done. destruct (attribute_row_decodes _ _ _ _ _ _ Ha Hin Hek) as (row' & Hrow' & Hx & _).
      rewrite Hrow' in Hrow. injection Hrow as ->. by rewrite Hrow', Hx.
Qed.

Lemma has_descendant_answers ctx choose view key bs A d : attributes_held (sqs_namespace view) A d -> sqs_closing view = false -> (forall n, ctx n = LiveContext) ->
  encodeAttributeKey key = Ok bs -> exists found, sqlite_HasAttributeDescendant ctx None choose view key d = Ok found /\
    (found = true <-> exists k, is_Some (A !! k) /\ strictly_above key k).
Proof.
  intros Ha Hcl Hctx Hk. unfold sqlite_HasAttributeDescendant, queryConnection. rewrite !Hctx, Hcl. cbn [sqliteContextError rbind]. rewrite (encodable_key _ _ Hk).
  cbn [invalid rbind]. rewrite bool_decide_eq_false_2 by auto. rewrite Hk. cbn [rbind]. set (ns := sqs_namespace view) in *.
  assert (Hrows := descendant_rows ns A d key bs (sqs_readAtNS view) Ha Hk). set (rows := sql_descendants _ _ _ d) in *.
  destruct (rows !! _) as [[rk row]|] eqn:El.
  - apply list_elem_of_lookup_2, Hrows in El as (Hrow & k & [a Hin] & Hek & Hs).
    destruct (attribute_row_decodes _ _ _ _ _ _ Ha Hin Hek) as (row' & Hrow' & _ & Hd). rewrite Hrow' in Hrow. injection Hrow as ->.
    rewrite Hd. cbn [rbind]. destruct (ah_stored _ _ _ Ha _ _ Hin) as (Ek & _). unfold attributeKeyFromAttribute.
    change (attr_entity a) with (ak_entity (attr_key a)). change (attr_path a) with (ak_path (attr_key a)). rewrite Ek, (encodable_key _ _ Hek). cbn [integrity rbind].
    destruct (strictAttributePrefixes_exact k) as (prefixes & -> & Hp); [apply encodeAttributeKey_total; eauto|]. cbn [rbind].
    rewrite bool_decide_eq_true_2 by (by apply (Hp key)). exists true. split; [done|]. split; [|done]. intros _. exists k. eauto.
  - exists false. split; [done|]. split; [done|]. intros (k & [a Hin] & Hs). exfalso.
    destruct (ah_stored _ _ _ Ha _ _ Hin) as (Ek & _ & record & Hc & _ & _). destruct (durable_attribute_fixed _ _ Hc) as [_ Hek]. rewrite Ek in Hek.
    destruct (attribute_row_decodes _ _ _ _ _ _ Ha Hin Hek) as (row & Hrow & _).
    assert (Hi : (da_key record, row) ∈ rows) by (apply Hrows; eauto 6). apply lookup_ge_None in El.
    destruct rows as [|x l]; [by apply not_elem_of_nil in Hi|]. pose proof (Nat.mod_upper_bound (choose (x :: l)) (length (x :: l)) ltac:(done)). lia.
Qed.

(** * The properties *)

Lemma openPinnedSnapshot_pins env begin request readAt readAtNS d view : openPinnedSnapshot env begin request readAt readAtNS d = Ok view ->
  sqs_namespace view = sr_namespace request /\ sqs_readAtNS view = readAtNS /\ sqs_closing view = false /\
  sqs_generation view = hd_dataGeneration (head_row d (sr_namespace request)).
Proof.
  unfold openPinnedSnapshot. destruct begin; [done|].
  destruct (readNamespaceHead (sr_namespace request) (in_transaction env) (mkTxState d 1)) as [[h|e] s] eqn:E; [|done]. cbn [fst rbind].
  intros [= <-]. apply readNamespaceHead_effect in E as (_ & -> & _). cbn. unfold head_row. by destruct (db_heads d !! _).
Qed.

(** C21: Reads on a snapshot of the SQLite store are exact. Whatever tuples and
    attributes the tables held of the namespace when the snapshot was opened,
    undisturbed reads answer from them: [QueryTuples] all subjects of the
    tuples of that resource and relation that are not expired at the read
    time, sorted and without duplicates, or RESOURCE_EXHAUSTED when they exceed
    the limit of the query or the byte bound, and never a partial result,
    whichever row fails to scan and wherever the iteration stops with an
    error; [GetAttribute] the very value
    held for the key, as the in-memory store answers; and
    [HasAttributeDescendant], whichever row the database picks, whether an
    attribute lies strictly below the key. Every stored row decodes and none is
    skipped; the snapshot carries the namespace's generation. *)
Theorem sqlite_reads_exact env begin request readAt readAtNS d view ctx T A :
  openPinnedSnapshot env begin request readAt readAtNS d = Ok view -> sqliteTimestamp readAt = Some (readAt, readAtNS) ->
  tuples_held (sr_namespace request) T d -> attributes_held (sr_namespace request) A d -> attributes_keyed A ->
  (forall n, ctx n = LiveContext) ->
  sqs_generation view = hd_dataGeneration (head_row d (sr_namespace request)) /\
  (forall query, TupleQuery_Valid query = true -> exists stored, lists_facts T query stored /\
     tuple_page query readAt stored (sqlite_QueryTuples ctx rows_intact view query d) /\
     forall rows r, sqlite_QueryTuples ctx rows view query d = Ok r -> sqlite_QueryTuples ctx rows_intact view query d = Ok r) /\
  (forall key bs, encodeAttributeKey key = Ok bs ->
     sqlite_GetAttribute ctx None view key d = attribute_answer A key /\
     forall choose, exists found, sqlite_HasAttributeDescendant ctx None choose view key d = Ok found /\
       (found = true <-> exists k, is_Some (A !! k) /\ strictly_above key k)).
Proof.
  intros (En & Ens & Ecl & Eg)%openPinnedSnapshot_pins Hr HT HA Hkd Hctx. rewrite <- En in HT, HA. split; [done|]. split.
  - intros query Hq. destruct (query_answers ctx view query T d readAt readAtNS) as (stored & Hf & Hp); [done..|].
    exists stored. split; [done|]. split; [done|]. intros rows r. apply query_never_partial.
  - intros key bs Hk. split; [by eapply get_answers|]. intros choose. by eapply has_descendant_answers.
Qed.
