(* ===== verification/Witnesses.v ===== *)
(** Concrete instances: for every property with hypotheses, an input on which
    they hold and the conclusion that follows there. The DSL, SHA-256 and
    HMAC interfaces are instantiated by small total functions. *)

From Stdlib Require Import ZArith Lia Sorted.
From stdpp Require Import base list gmap strings sorting relations.
From S2P Require Import Prelude Limits Text Types Cost Canon Data Policy Events Revisions Avl Index Cursor Fingerprint MemState MemEvents MemOps MemData MemInv MemCommit MemProtocol MemWrite MemSlots MemRevisions MemConc.

(** * Instances of the external interfaces *)

#[export] Instance toy_dsl : Dsl := {|
  Artifact := list Z; DecodeArtifact := Some; MarshalBinary := Some;
  Digest := fun _ => replicate 32 171; MaxPolicyArtifactBytes := 1000;
  sha256_Sum256 := fun l => replicate 31 0 ++ [zlen l mod 256] |}.

#[export] Instance toy_hmac : Hmac.
Proof.
  refine {| hmac_sum := fun key message => replicate 31 (zlen key mod 256) ++ [zlen message mod 256] |}.
  - done.
  - intros key message. assert (H : forall n, is_byte (n mod 256)).
    { intros n. unfold is_byte. apply Z.mod_pos_bound. lia. }
    apply Forall_app. split; [by apply Forall_replicate|]. by constructor.
Defined.

(** * Sample data *)

Definition sample_revision : string := string_of_bytes (replicate 64 97).
Definition sample_entity : EntityRef := mkEntityRef "document" "readme".
Definition sample_tuple (subject : string) : Tuple :=
  mkTuple sample_entity "viewer" (mkSubjectRef "user" subject "").
Definition sample_attribute (path : list string) : Attribute :=
  mkAttribute sample_entity path (mkValue ValueKindInteger "" 7 false).

Definition sample_write : WriteDataRequestInput :=
  mkWriteDataRequestInput "acme" sample_revision 3 "key-1"
    [mkRelationshipTuple (sample_tuple "bob") 0 false;
     mkRelationshipTuple (sample_tuple "alice") 5 true;
     mkRelationshipTuple (sample_tuple "bob") 0 false]
    [mkTupleKey (sample_tuple "carol")]
    [sample_attribute ["size"; "bytes"]; sample_attribute ["owner"]]
    [mkAttributeKey sample_entity ["size"; "pages"]].

Definition sample_request : WriteDataRequest := Eval vm_compute in
  match NewWriteDataRequest sample_write with Ok r => r | Err _ => mkWriteDataRequest "" "" 0 "" [] [] [] [] end.

(** * Witnesses *)

Lemma fingerprint_identifies_witness :
  same_mutation sample_request sample_request \/
  (write_preimage sample_request <> write_preimage sample_request /\
   sha256_Sum256 (write_preimage sample_request) = sha256_Sum256 (write_preimage sample_request)).
Proof.
  assert (M : machine_sized sample_request).
  { split; [by split|]. split; repeat constructor; by vm_compute. }
  eapply (fingerprint_identifies sample_request sample_request); [exact M|exact M|..];
    try (vm_compute; reflexivity).
Defined.

Definition sample_cursor : cursorState :=
  mkCursorState "revision" "acme" "" 0 (63900000000 * Second + 12) sample_revision.
Definition sample_key : list Z := replicate 32 9.
Definition sample_token : string := Eval vm_compute in
  match newCursorLocked sample_key true sample_cursor with Ok s => s | Err _ => "" end.

Lemma cursor_scope_bound_witness :
  cursorDomainID "revision" = cursorDomainID (cs_domain sample_cursor) /\
  cursorScope sample_key "revision" "acme" "" = cursorScope sample_key "revision" "acme" "" /\
  exists payload, b64_decode (bytes_of_string sample_token) = Some (payload ++ hmac_sum sample_key payload).
Proof.
  apply (cursor_scope_bound sample_key true sample_cursor sample_token "revision" "acme" "" sample_cursor);
    vm_compute; reflexivity.
Defined.

Definition sample_record (n : Z) : RevisionRecord :=
  mkRevisionWrite (mkRevisionMetadata "acme" (mkRevisionID (replicate 32 n) true) (n * Second)) [1; 2; 3]
    zero_provenance.
Definition sample_index : revisionNode := Eval vm_compute in
  fold_left (fun t n => revisionSet t (sample_record n)) [5; 3; 4; 1; 2; 6; 7] Leaf.

Lemma revisionPage_work_witness :
  let page := revisionPage (mkRevisionKey (2 * Second) "") true 3 collect_metadata sample_index [] in
  pg_visited page <= 3 + 2 * height sample_index /\ 2 ^ (height sample_index / 2) <= size sample_index + 1.
Proof.
  apply (revisionPage_work sample_index (mkRevisionKey (2 * Second) "") true 3); [| |lia].
  - vm_compute. repeat split; discriminate.
  - unfold bst. repeat (apply SSorted_cons || apply SSorted_nil); by repeat constructor.
Defined.

(** * A store with one published revision, one data write and one activation *)

Definition sample_ctx : Context := mkContext (fun _ => CtxUsable) (fun _ => false).
Definition sample_now : Time := 63900000000 * Second.

Lemma sample_usable : usable sample_ctx.
Proof. by split. Qed.

Definition sample_put : RevisionWrite :=
  mkRevisionWrite (mkRevisionMetadata "acme" (mkRevisionID (replicate 32 171) true) sample_now) [1; 2; 3] zero_provenance.
Definition published_id : string := Eval vm_compute in RevisionMetadata_ID (rw_metadata sample_put).

Definition store_of {A} (x : option (result A * Store)) : Store :=
  match x with Some (_, s) => s | None => newStore [] end.

Definition sample_s0 : Store := newStore sample_key.
Definition sample_s1 : Store := Eval vm_compute in store_of (PutRevision sample_ctx (Some sample_now) sample_put sample_s0).

Definition first_write : WriteDataRequest :=
  mkWriteDataRequest "acme" published_id 0 "key-1" (wd_tupleWrites sample_request) (wd_tupleDeletes sample_request)
    (wd_attributeWrites sample_request) (wd_attributeDeletes sample_request).
Definition sample_s2 : Store := Eval vm_compute in store_of (WriteData sample_ctx (Some sample_now) first_write sample_s1).

Definition first_activation : ActivateRequest :=
  mkActivateRequest "acme" "production" published_id NewUnsetSlotExpectation.
Definition sample_s3 : Store := Eval vm_compute in store_of (Activate sample_ctx (Some sample_now) first_activation sample_s2).

Lemma put_runs :
  PutRevision sample_ctx (Some sample_now) sample_put sample_s0 = Some (Ok (mkPutRevisionResult sample_put true), sample_s1).
Proof. vm_compute. reflexivity. Qed.
Lemma write_runs :
  WriteData sample_ctx (Some sample_now) first_write sample_s1 = Some (Ok (mkWriteDataResponse 1 false), sample_s2).
Proof. vm_compute. reflexivity. Qed.
Lemma activate_runs :
  Activate sample_ctx (Some sample_now) first_activation sample_s2 =
  Some (Ok (mkActivateResponse (mkActivation "acme" "production" published_id 1 sample_now)), sample_s3).
Proof. vm_compute. reflexivity. Qed.

Lemma sample_inv0 : store_inv sample_s0.
Proof. apply newStore_inv. Qed.
Lemma sample_inv1 : store_inv sample_s1.
Proof. apply (put_effect_spec _ _ _ _ _ _ sample_inv0 put_runs). Qed.
Lemma first_write_wf : write_wf first_write.
Proof. split; [vm_compute; reflexivity|]. by vm_compute. Qed.
Lemma sample_inv2 : store_inv sample_s2.
Proof. apply (write_effect_spec _ _ _ _ _ _ sample_inv1 (proj2 first_write_wf) write_runs). Qed.
Lemma sample_inv3 : store_inv sample_s3.
Proof. apply (activate_effect _ _ _ _ _ _ sample_inv2 activate_runs). Qed.

Lemma WriteData_effect_witness :
  store_inv sample_s2 /\ st_reservations sample_s2 = st_reservations sample_s1 /\
  write_effect first_write sample_s1 (Ok (mkWriteDataResponse 1 false)) sample_s2.
Proof.
  apply (WriteData_effect sample_ctx (Some sample_now)); [exact sample_inv1|apply first_write_wf|exact write_runs].
Defined.

Lemma first_write_admissible : write_admissible first_write sample_s1.
Proof.
  split; try (vm_compute; reflexivity); [done|].
  intros t a [_ ->] (x & _ & k & b & Hk & _). rewrite lookup_remove_keys in Hk. by destruct (decide _).
Qed.

Lemma WriteData_commits_witness :
  exists s', WriteData sample_ctx (Some sample_now) first_write sample_s1 = Some (Ok (mkWriteDataResponse 1 false), s').
Proof.
  destruct (proj1 (is_ok_true _) (proj1 first_write_wf)) as [sf Hsf].
  apply (WriteData_commits sample_ctx sample_now first_write sf sample_s1 sample_inv1 (proj2 first_write_wf) Hsf sample_usable);
    [by vm_compute|vm_compute; reflexivity|vm_compute; reflexivity|exact first_write_admissible].
Defined.

Lemma retry_replays_witness :
  exists s3, WriteData sample_ctx None first_write sample_s2 = Some (Ok (mkWriteDataResponse 1 true), s3) /\
    same_durable sample_s2 s3.
Proof.
  apply (retry_replays sample_ctx (Some sample_now) first_write sample_s1 _ sample_s2 sample_s2 sample_ctx None
    sample_inv1 first_write_wf write_runs sample_inv2); [reflexivity|vm_compute; reflexivity|exact sample_usable].
Defined.

(** Another mutation under the same key. *)
Definition second_write : WriteDataRequest :=
  mkWriteDataRequest "acme" published_id 1 "key-1" [] [] [sample_attribute ["owner"]] [].
Definition second_run : result WriteDataResponse * Store := Eval vm_compute in
  match WriteData sample_ctx (Some sample_now) second_write sample_s2 with Some x => x | None => (Err ErrorInternal, sample_s2) end.
Definition second_fingerprint : list Z := Eval vm_compute in
  match FingerprintWriteData second_write with Ok sf => Fingerprint_Bytes (snd sf) | Err _ => [] end.
Definition first_record : idempotencyState := Eval vm_compute in
  default (mkIdempotencyState [] (mkWriteDataResponse 0 false)) (namespace_record sample_s2 second_write).

Lemma Activate_cas_witness :
  store_inv sample_s3 /\ st_reservations sample_s3 = st_reservations sample_s2 /\
  activate_admissible first_activation sample_s2 /\
  activated first_activation sample_s2 sample_s3
    (mkActivateResponse (mkActivation "acme" "production" published_id 1 sample_now)).
Proof. apply (Activate_cas _ _ _ _ _ _ sample_inv2 activate_runs). Defined.

Lemma PutRevision_create_once_witness :
  store_inv sample_s1 /\ st_reservations sample_s1 = st_reservations sample_s0 /\
  put_effect sample_put sample_s0 (Ok (mkPutRevisionResult sample_put true)) sample_s1.
Proof. apply (PutRevision_create_once _ _ _ _ _ _ sample_inv0 put_runs). Defined.

Lemma published_forever_witness :
  GetRevision sample_ctx (mkGetRevisionRequest "acme" published_id) sample_s1 = Ok sample_put.
Proof.
  apply (published_forever _ _ _ _ _ _ sample_s1 sample_ctx sample_inv0 put_runs); [reflexivity|exact sample_usable].
Defined.

(** * A run of the concurrent system *)

Lemma sample_put_valid : RevisionRecord_Valid sample_put = true.
Proof. vm_compute. reflexivity. Qed.

Definition put_call : operation := put_operation CtxUsable sample_put sample_put_valid.
Definition fp_of (request : WriteDataRequest) : list Z :=
  match FingerprintWriteData request with Ok sf => Fingerprint_Bytes (snd sf) | Err _ => [] end.
Definition first_fp : list Z := Eval vm_compute in fp_of first_write.
Definition write_call : operation := write_operation first_write first_fp first_write_wf.

Definition held_of {P A} (b : begun P A) : commitReservation :=
  match b with Hold r _ _ => r | _ => mkReservation 0 (data_key "") "" "" [] end.

(** The publication runs first; the write then begins. *)
Definition run_s1 : Store := Eval vm_compute in snd (put_begin CtxUsable sample_put sample_s0).
Definition run_r1 : commitReservation := Eval vm_compute in held_of (fst (put_begin CtxUsable sample_put sample_s0)).
Definition run_s2 : Store := Eval vm_compute in
  snd (commit_section (put_commit sample_put (mkPutRevisionResult sample_put true)) run_r1 tt sample_now false CtxUsable run_s1).
Definition run_s3 : Store := Eval vm_compute in releaseCommitReservationLocked run_r1 run_s2.
Definition run_s4 : Store := Eval vm_compute in snd (write_begin first_write first_fp run_s3).
Definition run_r4 : commitReservation := Eval vm_compute in held_of (fst (write_begin first_write first_fp run_s3)).
Definition run_p4 : write_prepared := Eval vm_compute in
  match fst (write_begin first_write first_fp run_s3) with
  | Hold _ p _ => p
  | _ => mkWritePrepared (mkDataVersion 0 0 Leaf Leaf) (mkDataVersion 0 0 Leaf Leaf) (mkWriteDataResponse 0 false)
  end.
Definition run_s5 : Store := Eval vm_compute in
  snd (commit_section (write_commit first_write first_fp) run_r4 run_p4 sample_now false CtxUsable run_s4).

Definition put_held : thread := mkThread put_call (Held (o := put_call) run_r1 tt false).
Definition put_done : thread := mkThread put_call (Done (o := put_call) (Ok (mkPutRevisionResult sample_put true))).
Definition write_held : thread := mkThread write_call (Held (o := write_call) run_r4 run_p4 false).

Lemma begin1 : op_begin put_call sample_s0 = (Hold run_r1 tt false, run_s1).
Proof. vm_compute. reflexivity. Qed.
Lemma commit1 :
  commit_section (op_commit put_call) run_r1 tt sample_now false CtxUsable run_s1
  = (Ok (mkPutRevisionResult sample_put true), run_s2).
Proof. vm_compute. reflexivity. Qed.
Lemma begin4 : op_begin write_call run_s3 = (Hold run_r4 run_p4 false, run_s4).
Proof. vm_compute. reflexivity. Qed.
Lemma commit4 :
  commit_section (write_commit first_write first_fp) run_r4 run_p4 sample_now false CtxUsable run_s4
  = (Ok (mkWriteDataResponse 1 false), run_s5).
Proof. vm_compute. reflexivity. Qed.

Lemma reach1 : reachable sample_key (run_s1, [put_held]).
Proof.
  eapply rtc_l; [apply (step_spawn _ _ put_call I)|]. eapply rtc_l; [|apply rtc_refl].
  exact (step_begin _ [mkThread put_call Idle] 0 put_call _ _ eq_refl begin1).
Qed.

Lemma run13 : rtc step (run_s1, [put_held]) (run_s3, [put_done]).
Proof.
  eapply rtc_l; [|eapply rtc_l; [|apply rtc_refl]].
  - exact (step_commit _ [put_held] 0 put_call _ _ _ _ _ _ _ eq_refl commit1).
  - exact (step_release run_s2 [mkThread put_call (Releasing (o := put_call) run_r1 _)] 0 put_call run_r1 _ eq_refl).
Qed.

Lemma reach3 : reachable sample_key (run_s3, [put_done]).
Proof. unfold reachable. etrans; [exact reach1|exact run13]. Qed.

Lemma reach4 : reachable sample_key (run_s4, [put_done; write_held]).
Proof.
  eapply rtc_r; [eapply rtc_r; [exact reach3|apply (step_spawn _ _ write_call I)]|].
  exact (step_begin run_s3 [put_done; mkThread write_call Idle] 1 write_call _ _ eq_refl begin4).
Qed.

Lemma interleavings_sound_witness :
  store_inv run_s1 /\ store_inv run_s3 /\ grows run_s1 run_s3.
Proof. apply (interleavings_sound sample_key (run_s1, [put_held]) (run_s3, [put_done]) reach1 run13). Defined.

Lemma revalidation_succeeds_witness :
  (exists a : PutRevisionResult, Ok (mkPutRevisionResult sample_put true) = Ok a) \/
  Ok (mkPutRevisionResult sample_put true) = Err ErrorResourceExhausted /\ aged run_s1 run_s2.
Proof.
  apply (revalidation_succeeds sample_key run_s1 [put_held] 0 put_call run_r1 tt sample_now CtxUsable _ run_s2 reach1 eq_refl);
    [by vm_compute|exact commit1].
Defined.

Lemma calls_drain_witness :
  exists s' ts', rtc step (run_s4, [put_done; write_held]) (s', ts') /\ length ts' = 2%nat /\ Forall is_done ts' /\
    st_reservations s' = ∅.
Proof. apply (calls_drain sample_key run_s4 [put_done; write_held] reach4). Defined.

Lemma concurrent_write_commits_witness :
  write_committed first_write first_fp run_s4 run_s5 (mkWriteDataResponse 1 false).
Proof.
  apply (concurrent_write_commits sample_key run_s4 [put_done; write_held] 1 first_write first_fp first_write_wf
    run_r4 run_p4 sample_now CtxUsable _ run_s5 reach4 eq_refl commit4).
Defined.
