(* ===== verification/WitnessesReads.v ===== *)
(** Concrete instances of the properties of reads: snapshots and pages of the
    sample store of [Witnesses]. *)

From Stdlib Require Import ZArith Lia Sorted.
From stdpp Require Import base list gmap strings sorting relations.
From S2P Require Import Prelude Limits Text Types Cost Canon Data Policy Events Revisions Avl Index Cursor Fingerprint StoreData MemState MemEvents MemOps MemData MemInv MemCommit MemProtocol MemWrite MemSlots MemRevisions MemConc MemSnapshot MemWait MemReads MemLists Witnesses.

Definition sample_open : SnapshotRequest := mkSnapshotRequest "acme" 1 sample_now.
Definition sample_version : dataVersion := Eval vm_compute in
  match st_data sample_s2 !! "acme"%string with Some d => ds_current d | None => mkDataVersion 0 0 Leaf Leaf end.
Definition sample_view : snapshot := mkSnapshot false 0 0 "acme" 1 1 sample_now (Some sample_version).
Definition sample_query : TupleQuery := mkTupleQuery sample_entity "viewer" 10.

Lemma sample_opens : OpenSnapshot sample_ctx sample_open sample_s2 = Some (Ok sample_view, sample_s2).
Proof. vm_compute. reflexivity. Qed.

(** A reader is admitted, then the snapshot is closed. *)
Definition sample_life : lifecycle := mkLifecycle
  (mkSnapshot true 1 0 "acme" 1 1 sample_now (Some sample_version)) [Some sample_version] 1.
Lemma sample_life_reached : rtc lifecycle_step (mkLifecycle sample_view [] 0) sample_life.
Proof.
  eapply rtc_l; [exact (life_admit sample_view _ [] 0 (Some sample_version) eq_refl)|].
  eapply rtc_l; [apply life_close|apply rtc_refl].
Qed.
Lemma sample_fresh : fresh_snapshot sample_view sample_version.
Proof. by repeat split. Qed.

Lemma snapshot_lifecycle_safe_witness :
  (sn_closes (lc_view sample_life) <= 1)%nat /\ ~ close_returns (lc_view sample_life) /\
  fst (snapshot_admit (lc_view sample_life)) = Err ErrorFailedPrecondition.
Proof.
  destruct (snapshot_lifecycle_safe sample_view sample_version sample_life sample_fresh sample_life_reached)
    as (_ & Hn & Hr & _ & Ha).
  split; [exact Hn|]. split; [by intros [_ [=]]%Hr|exact Ha].
Defined.

Lemma snapshot_close_drains_witness :
  exists c', nsteps lifecycle_step 2 sample_life c' /\ lc_reading c' = [] /\ lc_waiting c' = 0%nat.
Proof. apply (snapshot_close_drains sample_view sample_version sample_life sample_fresh sample_life_reached eq_refl). Defined.

(** Alice's tuple has expired at the read time, Bob's has no expiry. *)
Lemma snapshot_query_exact_witness :
  exists tuples attributes stored answer, namespace_facts sample_s2 "acme" tuples attributes /\
    lists_facts tuples sample_query stored /\
    QueryTuples sample_ctx sample_query sample_view = Some (answer, sample_view) /\
    tuple_answer sample_query sample_now stored answer.
Proof.
  destruct (namespace_facts_exist sample_s2 "acme" sample_inv2) as (tuples & attributes & Hf).
  exists tuples, attributes.
  destruct (snapshot_query_exact sample_ctx sample_open sample_s2 sample_view sample_s2 (mkLifecycle sample_view [] 0)
    sample_ctx sample_query tuples attributes sample_opens Hf (rtc_refl _ _) sample_usable)
    as (stored & answer & Hs & Hr & Ha); [vm_compute; reflexivity|].
  exists stored, answer. split; [exact Hf|]. split; [exact Hs|]. split; [exact Hr|exact Ha].
Defined.

Lemma snapshot_attributes_exact_witness :
  exists tuples attributes, namespace_facts sample_s2 "acme" tuples attributes /\
    GetAttribute sample_ctx (mkAttributeKey sample_entity ["owner"]) sample_view =
    Some (attribute_answer attributes (mkAttributeKey sample_entity ["owner"]), sample_view).
Proof.
  destruct (namespace_facts_exist sample_s2 "acme" sample_inv2) as (tuples & attributes & Hf).
  exists tuples, attributes. split; [exact Hf|].
  apply (snapshot_attributes_exact sample_ctx sample_open sample_s2 sample_view sample_s2 (mkLifecycle sample_view [] 0)
    sample_ctx (mkAttributeKey sample_entity ["owner"]) tuples attributes sample_opens Hf (rtc_refl _ _) eq_refl sample_usable).
  vm_compute. reflexivity.
Defined.

Lemma read_your_writes_witness :
  exists view version, OpenSnapshot sample_ctx sample_open sample_s2 = Some (Ok view, sample_s2) /\
    fresh_snapshot view version /\ 1 <= sn_generation view.
Proof.
  destruct (namespace_facts_exist sample_s1 "acme" sample_inv1) as (tuples & attributes & Hf).
  destruct (read_your_writes sample_ctx (Some sample_now) first_write sample_s1 _ sample_s2 sample_s2 sample_open sample_ctx
    tuples attributes sample_inv1 (proj2 first_write_wf) write_runs eq_refl Hf (reflexivity _) sample_usable)
    as (view & version & Ho & Hv & Hg & _); [vm_compute; reflexivity|reflexivity|reflexivity|].
  exists view, version. split; [exact Ho|]. split; [exact Hv|exact Hg].
Defined.

(** * Pages: the stream holds a publication, a write and an activation *)

Lemma events_page_exact_witness :
  exists answer s', ListEvents sample_ctx (Some sample_now) (mkListEventsRequest "acme" "" 2) sample_s3 = (answer, s') /\
    exists events next, answer = Ok (mkListEventsResponse true (mkListEventsRequest "acme" "" 2) events next) /\
      stream_page s' "acme" 0 2 events next.
Proof.
  destruct (events_page_exact sample_ctx sample_now (mkListEventsRequest "acme" "" 2) sample_s3 0 sample_inv3 sample_usable)
    as (answer & s' & Hr & _ & _ & Hp); [by vm_compute|vm_compute; reflexivity|vm_compute; reflexivity|].
  exists answer, s'. split; [exact Hr|exact Hp].
Defined.

Definition first_page : result ListEventsResponse * Store := Eval vm_compute in
  ListEvents sample_ctx (Some sample_now) (mkListEventsRequest "acme" "" 2) sample_s3.
Definition first_events : list StateEvent := Eval vm_compute in match fst first_page with Ok r => ler_events r | Err _ => [] end.
Definition first_next : string := Eval vm_compute in match fst first_page with Ok r => ler_nextCursor r | Err _ => ""%string end.

Lemma event_feed_gapless_witness :
  let request' := mkListEventsRequest "acme" first_next 5 in
  fst (ListEvents sample_ctx (Some sample_now) request' sample_s3) = Err ErrorCursorExpired \/
  exists events' next' first n n',
    fst (ListEvents sample_ctx (Some sample_now) request' sample_s3) = Ok (mkListEventsResponse true request' events' next') /\
    0 < n /\ map (event_number sample_s3 "acme") first_events = map Ok (seqZ first n) /\
    map (event_number sample_s3 "acme") events' = map Ok (seqZ (first + n) n').
Proof.
  apply (event_feed_gapless sample_ctx sample_now (mkListEventsRequest "acme" "" 2) sample_s3 first_events first_next
    (snd first_page) sample_ctx sample_now 5 sample_s3 sample_inv3 sample_usable).
  - by vm_compute.
  - vm_compute. reflexivity.
  - vm_compute. reflexivity.
  - vm_compute. discriminate.
  - exact sample_inv3.
  - reflexivity.
  - exact sample_usable.
  - by vm_compute.
  - vm_compute. reflexivity.
Defined.

Lemma sample_times : times_wf sample_s3.
Proof.
  intros ns id r Hr. unfold revision_lookup in Hr.
  assert (E : st_revisions sample_s3 = {[ "acme"%string := {[ published_id := sample_put ]} ]}) by (vm_compute; reflexivity).
  rewrite E in Hr. destruct (decide (ns = "acme"%string)) as [->|Hn].
  - rewrite lookup_singleton_eq in Hr. apply lookup_singleton_Some in Hr as [_ <-]. by vm_compute.
  - by rewrite lookup_singleton_ne in Hr.
Qed.

Lemma revisions_paginate_witness :
  exists all, all_pages 2 sample_ctx "acme" 1 "" sample_s3 = Ok all /\ StronglySorted published_before all.
Proof.
  destruct (revisions_paginate sample_ctx "acme" 1 sample_s3 2 sample_inv3 sample_times sample_usable)
    as (all & Hr & Hs & _); [vm_compute; reflexivity|vm_compute; lia|].
  exists all. split; [exact Hr|exact Hs].
Defined.

(** * A snapshot that waits for the first generation of a namespace

    A revision is published, a snapshot that asks for generation 1 registers
    and waits, and the first data write commits. *)

Definition wake_wait : generationWait := Eval vm_compute in fst (registerGenerationWaitLocked "acme" run_s3).
Definition wake_s1 : Store := Eval vm_compute in snd (registerGenerationWaitLocked "acme" run_s3).
Definition wake_s2 : Store := Eval vm_compute in snd (write_begin first_write first_fp wake_s1).
Definition wake_r : commitReservation := Eval vm_compute in held_of (fst (write_begin first_write first_fp wake_s1)).
Definition wake_p : write_prepared := Eval vm_compute in
  match fst (write_begin first_write first_fp wake_s1) with
  | Hold _ p _ => p
  | _ => mkWritePrepared (mkDataVersion 0 0 Leaf Leaf) (mkDataVersion 0 0 Leaf Leaf) (mkWriteDataResponse 0 false)
  end.
Definition wake_s3 : Store := Eval vm_compute in
  snd (commit_section (write_commit first_write first_fp) wake_r wake_p sample_now false CtxUsable wake_s2).
Definition wake_openers : list opener := [mkOpener sample_open (Waiting wake_wait)].
Definition wake_written : thread :=
  mkThread write_call (Releasing (o := write_call) wake_r (Ok (mkWriteDataResponse 1 false))).

Lemma wake_begin : op_begin write_call wake_s1 = (Hold wake_r wake_p false, wake_s2).
Proof. vm_compute. reflexivity. Qed.
Lemma wake_commit :
  commit_section (op_commit write_call) wake_r wake_p sample_now false CtxUsable wake_s2 = (Ok (mkWriteDataResponse 1 false), wake_s3).
Proof. vm_compute. reflexivity. Qed.

Lemma wake_published : rtc wait_step ((newStore sample_key, []), []) ((run_s3, [put_done]), []).
Proof.
  eapply rtc_l; [apply wait_calls, (step_spawn _ _ put_call), call_put|].
  eapply rtc_l; [apply wait_calls; exact (step_begin _ [mkThread put_call Idle] 0 put_call _ _ eq_refl begin1)|].
  eapply rtc_l; [apply wait_calls; exact (step_commit _ [put_held] 0 put_call _ _ _ _ _ _ _ eq_refl commit1)|].
  eapply rtc_l; [|apply rtc_refl]. apply wait_calls.
  exact (step_release run_s2 [mkThread put_call (Releasing (o := put_call) run_r1 _)] 0 put_call run_r1 _ eq_refl).
Qed.

Lemma wake_reached : rtc wait_step ((newStore sample_key, []), []) ((wake_s3, [put_done; wake_written]), wake_openers).
Proof.
  etrans; [exact wake_published|]. eapply rtc_l; [apply (wait_spawn _ [] sample_open)|].
  eapply rtc_l; [apply (wait_register run_s3 [put_done] [mkOpener sample_open Opening] 0 sample_open wake_wait wake_s1);
    [reflexivity|vm_compute; reflexivity]|].
  eapply rtc_l; [apply wait_calls, (step_spawn _ _ write_call), call_write|].
  eapply rtc_l; [apply wait_calls; exact (step_begin wake_s1 [put_done; mkThread write_call Idle] 1 write_call _ _ eq_refl wake_begin)|].
  eapply rtc_l; [|apply rtc_refl]. apply wait_calls.
  exact (step_commit wake_s2 [put_done; mkThread write_call (Held (o := write_call) wake_r wake_p false)] 1 write_call _ _ _ _ _ _ _ eq_refl wake_commit).
Qed.

(** The write has attained the generation: the waiting snapshot is woken and opens. *)
Lemma no_lost_wakeup_witness :
  gw_ref wake_wait ∈ st_closed wake_s3 /\
  exists view, open_attempt sample_open (unregisterGenerationWaitLocked "acme" wake_wait wake_s3) = inl view.
Proof.
  apply (proj1 (no_lost_wakeup sample_key wake_s3 [put_done; wake_written] wake_openers wake_reached) 0%nat sample_open wake_wait eq_refl).
  vm_compute. discriminate.
Defined.
