(* ===== verification/WitnessesCore.v ===== *)
(** Concrete instances of the properties of callers, evidence, extension ports
    and caches: inputs on which their hypotheses hold, and what follows there. *)

From Stdlib Require Import ZArith Lia.
From stdpp Require Import base list gmap strings relations.
From S2P Require Import Prelude Limits Text Types Invocation Cost Canon Data Policy Caller Requests Revisions Fingerprint Evidence Recency PointerCache RevisionCache Witnesses.

Lemma rtc_eq {A} (R : relation A) x y : x = y -> rtc R x y.
Proof. intros ->. apply rtc_refl. Defined.

(** * Extension ports *)

(** A call starts, its caller gives up, then it panics. *)
Definition port_after : port (T := nat) :=
  mkPort 0 {[ 7%nat := (Completed (inr (engineError ErrorInternal)), Answered (inr (engineError ErrorCanceled))) ]}.

Lemma port_after_reached : rtc port_step (idle_port (T := nat)) port_after.
Proof.
  eapply rtc_l; [by apply (port_start idle_port 7)|].
  eapply rtc_l; [apply (port_abandon _ 7 Calling CtxCanceled ErrorCanceled); [apply lookup_insert_eq|done]|].
  eapply rtc_l; [apply (port_finish _ 7 (Answered (inr (engineError ErrorCanceled))) Panicked); apply lookup_insert_eq|].
  cbn [occupied calls idle_port]. rewrite !insert_insert_eq. apply rtc_refl.
Defined.

Lemma extension_slots_sound_witness :
  occupied port_after = Z.of_nat (running port_after) /\ 0 <= occupied port_after <= 16 /\
  map_Forall (fun _ c => answer_ok c) (calls port_after).
Proof. exact (extension_slots_sound port_after port_after_reached). Defined.

(** * Evidence *)

Definition sample_caller : Caller := mkCaller "svc" {[ "team"%string := "core"%string ]}.
Definition sample_binding (evaluatedAt : Time) : EvidenceBinding :=
  mkEvidenceBinding (Caller_Binding sample_caller) "acme" (mkSelector "live" "") sample_revision 4 9 evaluatedAt
    (NewEvidenceFingerprint (replicate 32 5)) true.

Lemma authorization_digest_identifies_witness :
  (sample_caller = sample_caller /\ same_authority (sample_binding 100) (sample_binding 200)) \/
  (caller_preimage sample_caller <> caller_preimage sample_caller /\
   sha256_Sum256 (caller_preimage sample_caller) = sha256_Sum256 (caller_preimage sample_caller)) \/
  (authorization_preimage (sample_binding 100) <> authorization_preimage (sample_binding 200) /\
   sha256_Sum256 (authorization_preimage (sample_binding 100)) = sha256_Sum256 (authorization_preimage (sample_binding 200))).
Proof.
  apply (authorization_digest_identifies sample_caller sample_caller (sample_binding 100) (sample_binding 200)
           (sha256_Sum256 (authorization_preimage (sample_binding 100)))); try (by vm_compute); repeat split; by vm_compute.
Defined.

(** * The pointer cache *)

Definition pointer_key : SlotKey := mkSlotKey "acme" "live".
Definition pointer_at (generation : Z) : SlotPointer := mkSlotPointer sample_revision generation.
Definition pointer_cache0 : PointerCache := mkPointerCache 1 ∅ ∅ [] 0.
Definition pointer_fill : AuthoritativeFill := mkAuthoritativeFill pointer_key 0.

(** A fill is opened, a committed update overtakes it, and the fill completes
    with the older pointer it had read. *)
Definition pointer_run1 := snd (BeginAuthoritativeFill pointer_key pointer_cache0).
Definition pointer_run2 := snd (UpdateCommitted pointer_key (pointer_at 5) pointer_run1).
Definition pointer_run3 := snd (Complete pointer_fill (pointer_at 3) pointer_run2).
Definition history_run3 : history :=
  mkHistory (keep_tracked pointer_run3 (keep_tracked pointer_run2
               (raise_floor pointer_key 5 (keep_tracked pointer_run1 ∅))))
    [(pointer_key, pointer_at 3); (pointer_key, pointer_at 5)].

Lemma pointer_run3_reached : rtc pointer_step (pointer_cache0, mkHistory ∅ []) (pointer_run3, history_run3).
Proof.
  eapply rtc_l; [apply (step_begin pointer_cache0 _ pointer_key)|].
  eapply rtc_l; [apply (step_update _ _ pointer_key (pointer_at 5))|].
  eapply rtc_l; [apply (step_complete _ _ pointer_fill (pointer_at 3))|].
  apply rtc_refl.
Defined.

Lemma pointer_cache_never_regresses_witness :
  occupancy pointer_run3 <= pc_maxEntries pointer_run3 /\
  Pin pointer_key pointer_run3 =
    (Some (mkRevisionPin "acme" "live" sample_revision 5), snd (Pin pointer_key pointer_run3)) /\
  forall m, h_floor history_run3 !! pointer_key = Some m -> m <= 5.
Proof.
  destruct (pointer_cache_never_regresses 1 pointer_cache0 pointer_run3 history_run3 eq_refl pointer_run3_reached)
    as [Hb Hp].
  split; [exact Hb|]. split; [by vm_compute|].
  by destruct (Hp pointer_key (mkRevisionPin "acme" "live" sample_revision 5) (snd (Pin pointer_key pointer_run3)))
    as (_ & _ & _ & Hm); [vm_compute|].
Defined.

(** * The revision cache *)

(** Artifacts are their encoded lengths. *)
Definition toy_program (a : Z) : bool := true.
Definition toy_marshal (a : Z) : option Z := Some a.
Definition revision_key : RevisionKey := mkRevisionKey "acme" "r1" "abi".
Definition revision_cache0 : RevisionCache (Artifact := Z) := mkRevisionCache 2 1000 ∅ ∅ [] 0.

(** A caller misses and starts a load, a second one joins it and is cancelled,
    the load completes and the first caller takes its result. *)
Definition revision_loaded : HydratedRevision (Artifact := Z) := mkHydrated (Some 40) 177.
Definition revision_run : system (Artifact := Z) :=
  mkSystem (mkRevisionCache 2 1000 {[ revision_key := (revision_loaded, false) ]} ∅ [revision_key] 177)
    {[ 0%nat := mkCall revision_key 1 false true (Some (revision_loaded, None)) ]}
    (<[2%nat := Got revision_key (no_revision, Some (errContext CtxCanceled))]>
       {[ 1%nat := Got revision_key (revision_loaded, None) ]})
    [(revision_key, 40)].

Lemma revision_run_reached : rtc (sys_step toy_program toy_marshal) (idle_system revision_cache0) revision_run.
Proof.
  eapply rtc_l; [eapply (sys_get _ _ (idle_system revision_cache0) 1 0 revision_key); by vm_compute|].
  eapply rtc_l; [eapply (sys_get _ _ _ 2 5 revision_key); by vm_compute|].
  eapply rtc_l; [eapply (sys_stop _ _ _ 2 revision_key 0 CtxCanceled); by vm_compute|].
  eapply rtc_l.
  { eapply (sys_load _ _ _ 0 (mkCall revision_key 1 false false None) (Returned (inl (Some 40)))); cycle 2.
    - intros n [= <-]. by vm_compute.
    - vm_compute. reflexivity.
    - by vm_compute.
    - done. }
  eapply rtc_l; [eapply (sys_receive _ _ _ 1 revision_key 0); by vm_compute|].
  apply rtc_eq. by vm_compute.
Defined.

Lemma revision_cache_sound_witness :
  Z.of_nat (base.size (rc_entries (sys_cache revision_run))) <= 2 /\
  (rc_bytes (sys_cache revision_run) = total (rc_entries (sys_cache revision_run)) /\
   rc_bytes (sys_cache revision_run) <= 1000) /\
  loaded_ok toy_program toy_marshal (sys_loaded revision_run) revision_key revision_loaded.
Proof.
  destruct (revision_cache_sound toy_program toy_marshal 2 1000 revision_cache0 revision_run)
    as (H1 & H2 & _ & _ & _ & H3); [by vm_compute|done|exact revision_run_reached|].
  split; [exact H1|]. split; [exact H2|]. apply (H3 1%nat). by vm_compute.
Defined.
