(* ===== verification/WitnessesServices.v ===== *)
(** Concrete runs of the services: a small policy, ports that answer, and for
    every property about runs an input on which its hypotheses hold. *)

From Stdlib Require Import ZArith Lia Sorted.
From stdpp Require Import base list gmap strings sorting.
From S2P Require Import Prelude Limits Text Types Invocation Cost Canon Data DataValid Policy Caller Requests Revisions Domain Fingerprint Evidence Extensions PointerCache RevisionCache StoreData Runtime Evaluator EvaluatorProofs AppFingerprint Session Services Engine ServiceSafety SessionProofs ServiceProofs.

(** * A policy *)

#[local] Instance demo_dsl : Dsl := {|
  Artifact := list Z; DecodeArtifact := Some; MarshalBinary := Some;
  Digest := fun _ => replicate 32 171; MaxPolicyArtifactBytes := 1000;
  sha256_Sum256 := fun l => replicate 31 1 ++ [zlen l mod 256] |}.

(** Documents have viewers, and reading compares the document's size. *)
#[local] Instance demo_schema : DslSchema := {|
  CanonicalSource := fun a => a;
  Parse := fun _ => Some (mkSchema
    [mkEntityDecl "document" [mkRelationDecl "viewer" [mkRelationTarget "user" ""]] ["view"] ["read"]]
    [mkGuardDecl "document" "read" [ComparisonExpression ["resource"; "size"]]]) |}.

(** A viewer may read once a manager approved; anybody else may not. *)
Definition demo_program (request : DslRequest) : evaluation :=
  PollsContext (fun _ => ReadsTuples (dq_Resource request) "viewer" (fun r =>
    match r with
    | inl subjects =>
        let matched := bool_decide (mkSubjectRef (ent_Type (dq_Subject request)) (ent_ID (dq_Subject request)) "" ∈ subjects) in
        let step := mkTraceStep (dq_Resource request) "viewer" "relation" matched in
        Evaluated (inl (if matched then mkDslResult DslRequireApproval "VIEWER" ["manager"] [step]
                        else mkDslResult DslDeny "NOT_A_VIEWER" [] [step]))
    | inr e => Evaluated (inr (CheckError "E_CHECK_TUPLE_READER" (Some e)))
    end)).

#[local] Instance demo_eval : DslEval := {|
  CompileArtifact := fun _ source => Some source;
  hasProgram := fun _ => true;
  Program_Check := fun _ => demo_program;
  EvaluatorABIV1 := "abi/v1" |}.

(** * Ports that answer *)

Definition demo_now : Time := 63900000000 * Second.
Definition demo_ctx : Context := mkContext (fun _ => CtxUsable) (fun _ => false).
Definition demo_id : string := Eval vm_compute in RevisionID_String (mkRevisionID (replicate 32 171) true).
Definition demo_record : RevisionRecord :=
  mkRevisionWrite (mkRevisionMetadata "acme" (mkRevisionID (replicate 32 171) true) demo_now) [1; 2; 3] zero_provenance.
Definition demo_activation : Activation := mkActivation "acme" "live" demo_id 4 demo_now.
Definition demo_snapshot : Snapshot := mkSnapshotHandle 0 "acme" 5 demo_now true.

Definition demo_document : EntityRef := mkEntityRef "document" "readme".
Definition demo_user (id : string) : SubjectRef := mkSubjectRef "user" id "".

(** The stored facts: one attribute and one viewer. *)
Definition demo_view : View := mkView
  (fun e p => if bool_decide (e = demo_document /\ p = ["size"%string]) then Some (mkValue ValueKindInteger "" 7 false) else None)
  (fun e rel => if bool_decide (e = demo_document /\ rel = "viewer"%string) then [demo_user "alice"] else []).

Definition demo_env (past : trace) (o : op) : reply o :=
  match o return reply o with
  | OContextErr => CtxUsable
  | OClock => Some demo_now
  | OAuthorize _ ns caps => (demo_ctx, true, Returned (inl (mkCallerAuthorization [mkGrant ns caps])))
  | OVerifyApproval q => (demo_ctx, true, Returned (inl (mkApprovalVerificationResult true (av_requirementIDs q))))
  | OVerifyDelegation _ => (demo_ctx, true, Panicked)
  | ORecordDecision _ => (demo_ctx, true, Recorded (mkDecisionDelivery DecisionDeliveryAccepted "OK"))
  | OPutRevision w => inl (mkPutRevisionResult w true)
  | OGetRevision _ => inl demo_record
  | OListRevisions _ => inr ForeignError
  | OActivate _ => inl (mkActivateResponse demo_activation)
  | OResolve _ => inl (mkResolveResponse demo_activation)
  | OListActivationHistory _ => inr ForeignError
  | OGetDataGeneration _ => inl (mkGetDataGenerationResponse true 5)
  | OWriteData _ => inl (mkWriteDataResponse 6 false)
  | OOpenSnapshot q => inl (Some (mkSnapshotHandle 0 (sr_namespace q) (sr_minimumGeneration q) (sr_readAt q) true))
  | OGetAttribute _ key =>
      inl match vw_attribute demo_view (ak_entity key) (ak_path key) with
          | Some x => mkAttributeResult key x true true
          | None => mkAttributeResult key zero_value false true
          end
  | OHasAttributeDescendant _ _ => inl false
  | OQueryTuples _ q => inl (mkTupleResult q (vw_subjects demo_view (tq_resource q) (tq_relation q)))
  | OClose _ => None
  | OGetOrLoad _ => inl (mkHydrated (Some [1; 2; 3]) 0)
  | OUpdateCommitted _ _ => None
  | OListEvents _ => inr ForeignError
  end.

(** * A check *)

Definition demo_caller : Caller := mkCaller "svc" {[ "team"%string := "core"%string ]}.

(** bob is a viewer only by the request's own fact. *)
Definition demo_check : CheckRequest :=
  mkCheckRequest "acme" (mkSelector "live" "") (mkEntityRef "user" "bob") demo_document "read" ∅
    (mkContextualData [mkRelationshipTuple (mkTuple demo_document "viewer" (demo_user "bob")) 0 false] [])
    [9] [] 3.

Definition demo_run : trace := Eval vm_compute in fst (exec demo_env (Check demo_caller demo_check) []).
Definition demo_response : CheckResponse := Eval vm_compute in
  match snd (exec demo_env (Check demo_caller demo_check) []) with
  | inl r => r
  | inr _ => mkCheckResponse (mkSelector "" "") zero_result
  end.

Lemma demo_check_runs : runs (Check demo_caller demo_check) demo_run (inl demo_response).
Proof.
  replace demo_run with (fst (exec demo_env (Check demo_caller demo_check) [])) by (vm_compute; reflexivity).
  replace (inl demo_response) with (snd (exec demo_env (Check demo_caller demo_check) [])) by (vm_compute; reflexivity).
  apply exec_runs.
Qed.

Example demo_allows : dr_decision (cr_result demo_response) = DecisionAllow /\ dr_dataGeneration (cr_result demo_response) = 5.
Proof. by split. Qed.

Lemma demo_sorted (s : Snapshot) e rel : StronglySorted (clt compareSubjectRef) (vw_subjects demo_view e rel).
Proof. cbn. destruct (bool_decide _); repeat constructor. Qed.

(** Decides [serves] on a concrete trace. *)
Ltac serves_trace :=
  unfold serves; repeat (apply Forall_cons; split); [..|apply Forall_nil; exact I]; try exact I; try (intros _; reflexivity).

Lemma demo_serves s : serves s demo_view demo_run.
Proof. unfold demo_run. serves_trace. Qed.

Lemma check_decides_witness :
  exists p steps,
    pinned demo_caller (check_shared demo_check) (checkFingerprint demo_check) demo_run demo_view p /\
    decided demo_run demo_view p [9] (check_item demo_check) steps (cr_result demo_response).
Proof.
  destruct (check_decides demo_caller demo_check demo_run demo_response (fun _ => demo_view) demo_sorted demo_serves
    demo_check_runs) as (_ & _ & p & steps & Hp & Hd).
  exists p, steps. split; [exact Hp|exact Hd].
Defined.

Lemma caller_gate_witness :
  gate_run demo_caller "acme" (CheckRequest_RequiredCapabilities demo_check) demo_run
    (inl demo_response : CheckResponse + GoError).
Proof. exact (caller_gate demo_caller (ECheck demo_check) demo_run (inl demo_response) demo_check_runs). Defined.

Lemma snapshot_discipline_witness : exists last, snapshot_run Unopened demo_run = Some last /\
  evaluated (inl demo_response : CheckResponse + GoError) last.
Proof. exact (snapshot_discipline demo_caller (ECheck demo_check) demo_run (inl demo_response) demo_check_runs). Defined.

(** The check opens the snapshot and closes it; a run that opens it again, or
    that records a decision before it was opened, is not accepted. *)
Example demo_run_closes : snapshot_run Unopened demo_run = Some (Closed demo_snapshot).
Proof. vm_compute. reflexivity. Qed.

Example reopening_rejected :
  let q := mkSnapshotRequest "acme" 5 demo_now in
  snapshot_run Unopened [ev (OOpenSnapshot q) (inl (Some demo_snapshot)); ev (OClose demo_snapshot) None;
    ev (OOpenSnapshot q) (inl (Some demo_snapshot))] = None.
Proof. reflexivity. Qed.

(** * A batch *)

Definition demo_batch : BatchCheckRequest :=
  mkBatchCheckRequest "acme" (mkSelector "" demo_id)
    [mkBatchCheckItem (mkEntityRef "user" "alice") demo_document "read" ∅;
     mkBatchCheckItem (mkEntityRef "user" "carol") demo_document "read" {[ "n"%string := mkValue ValueKindInteger "" 1 false ]}]
    (mkContextualData [] []) [] [] 0.
Definition demo_batch_run : trace := Eval vm_compute in fst (exec demo_env (BatchCheck demo_caller demo_batch) []).
Definition demo_batch_response : BatchCheckResponse := Eval vm_compute in
  match snd (exec demo_env (BatchCheck demo_caller demo_batch) []) with
  | inl r => r
  | inr _ => mkBatchCheckResponse (mkSelector "" "") []
  end.

Lemma demo_batch_runs : runs (BatchCheck demo_caller demo_batch) demo_batch_run (inl demo_batch_response).
Proof.
  replace demo_batch_run with (fst (exec demo_env (BatchCheck demo_caller demo_batch) [])) by (vm_compute; reflexivity).
  replace (inl demo_batch_response) with (snd (exec demo_env (BatchCheck demo_caller demo_batch) []))
    by (vm_compute; reflexivity).
  apply exec_runs.
Qed.

Example demo_batch_decisions :
  map dr_decision (br_results demo_batch_response) = [DecisionRequireApproval; DecisionDeny].
Proof. reflexivity. Qed.

Lemma demo_batch_serves s : serves s demo_view demo_batch_run.
Proof. unfold demo_batch_run. serves_trace. Qed.

Lemma batch_decides_witness :
  exists p,
    pinned demo_caller (batch_shared demo_batch) (batchFingerprint demo_batch) demo_batch_run demo_view p /\
    Forall2 (fun item r => DecisionResult_valid r = true /\ exists steps, decided demo_batch_run demo_view p [] item steps r)
      (bc_items demo_batch) (br_results demo_batch_response).
Proof.
  destruct (batch_decides demo_caller demo_batch demo_batch_run demo_batch_response (fun _ => demo_view) demo_sorted
    demo_batch_serves demo_batch_runs) as (_ & p & Hp & Hd).
  exists p. split; [exact Hp|exact Hd].
Defined.

(** * An explanation *)

Definition demo_explain : ExplainRequest := mkExplainRequest demo_check.
Definition demo_explain_run : trace := Eval vm_compute in fst (exec demo_env (Explain demo_caller demo_explain) []).
Definition demo_explain_response : ExplainResponse := Eval vm_compute in
  match snd (exec demo_env (Explain demo_caller demo_explain) []) with
  | inl r => r
  | inr _ => mkExplainResponse (mkSelector "" "") zero_result []
  end.

Lemma demo_explain_runs : runs (Explain demo_caller demo_explain) demo_explain_run (inl demo_explain_response).
Proof.
  replace demo_explain_run with (fst (exec demo_env (Explain demo_caller demo_explain) [])) by (vm_compute; reflexivity).
  replace (inl demo_explain_response) with (snd (exec demo_env (Explain demo_caller demo_explain) []))
    by (vm_compute; reflexivity).
  apply exec_runs.
Qed.

Example demo_explain_steps :
  er_steps demo_explain_response = [mkExplainStep "document.viewer" "relation" true].
Proof. reflexivity. Qed.

Lemma demo_explain_serves s : serves s demo_view demo_explain_run.
Proof. unfold demo_explain_run. serves_trace. Qed.

Lemma explain_decides_witness :
  exists p steps schema,
    decided demo_explain_run demo_view p [9] (check_item demo_check) steps (er_result demo_explain_response) /\
    Parse (CanonicalSource (pn_artifact p)) = Some schema /\ Forall2 (redacts schema) steps (er_steps demo_explain_response).
Proof.
  destruct (explain_decides demo_caller demo_explain demo_explain_run demo_explain_response (fun _ => demo_view) demo_sorted
    demo_explain_serves demo_explain_runs) as (_ & p & steps & schema & _ & Hd & Hs & Hr).
  exists p, steps, schema. split; [exact Hd|]. split; [exact Hs|exact Hr].
Defined.

(** * A minimum above the head *)

(** The store waits: it opens the snapshot at the minimum that was asked for. *)
Definition demo_shared : shared_request :=
  mkShared "acme" (mkSelector "live" "") (mkContextualData [] []) [] [] 8.
Definition demo_late : trace * (evaluationSession * budgets + GoError) := Eval vm_compute in
  exec demo_env (openEvaluationSession demo_caller demo_shared [] None) [].

Lemma demo_late_refused : exists e, snd demo_late = inr e.
Proof.
  apply (minimum_above_head_refused demo_caller demo_shared [] None (fst demo_late) (snd demo_late)
    (mkGetDataGenerationRequest "acme") (mkGetDataGenerationResponse true 5)).
  - replace demo_late with (exec demo_env (openEvaluationSession demo_caller demo_shared [] None) []) by (vm_compute; reflexivity).
    apply exec_runs.
  - unfold demo_late. repeat (left || right).
  - reflexivity.
Qed.

(** * Data and policies *)

Definition demo_write : WriteDataRequest := Eval vm_compute in
  match NewWriteDataRequest (mkWriteDataRequestInput "acme" demo_id 5 "key-1"
    [mkRelationshipTuple (mkTuple demo_document "viewer" (demo_user "bob")) 0 false] []
    [mkAttribute demo_document ["size"] (mkValue ValueKindInteger "" 7 false)] []) with
  | Ok r => r
  | Err _ => mkWriteDataRequest "" "" 0 "" [] [] [] []
  end.
Definition demo_write_run : trace * (WriteDataResponse + GoError) := Eval vm_compute in
  exec demo_env (DataService_WriteData demo_caller demo_write) [].

Lemma data_write_admitted_witness :
  NewWriteDataRequest (request_input demo_write) = Ok demo_write /\ snd demo_write_run = inl (mkWriteDataResponse 6 false).
Proof.
  destruct (data_write_admitted demo_caller demo_write (fst demo_write_run) (snd demo_write_run) demo_write
    (inl (mkWriteDataResponse 6 false))) as (H1 & _ & H2).
  - replace demo_write_run with (exec demo_env (DataService_WriteData demo_caller demo_write) []) by (vm_compute; reflexivity).
    apply exec_runs.
  - unfold demo_write_run. repeat (left || right).
  - split; [exact H1|exact H2].
Defined.

Definition demo_source : PublishRequest := mkPublishRequest "acme" "policy.cdr" [10; 20; 30].
Definition demo_publish_run : trace * (RevisionMetadata * bool + GoError) := Eval vm_compute in
  exec demo_env (PolicyService_Publish demo_caller demo_source) [].

Lemma publish_exact_witness : exists write record, ev (OPutRevision write) (inl (mkPutRevisionResult record true)) ∈ fst demo_publish_run /\
  rw_artifact record = [10; 20; 30].
Proof.
  destruct (publish_exact demo_caller demo_source (fst demo_publish_run)
    (mkRevisionMetadata "acme" (mkRevisionID (replicate 32 171) true) demo_now) true)
    as (a & t & write & record & id & encoded & Hc & _ & Hput & Hm & _ & _ & _ & _ & _ & _ & Hr & _).
  - replace (fst demo_publish_run) with (fst (exec demo_env (PolicyService_Publish demo_caller demo_source) []))
      by (vm_compute; reflexivity).
    replace (inl (mkRevisionMetadata "acme" (mkRevisionID (replicate 32 171) true) demo_now, true))
      with (snd (exec demo_env (PolicyService_Publish demo_caller demo_source) [])) by (vm_compute; reflexivity).
    apply exec_runs.
  - exists write, record. split; [exact Hput|]. cbn in Hc, Hm. congruence.
Defined.

(** * An engine without verifiers *)

Definition demo_options : list (embedded_Option (store := unit)) :=
  [WithStore (Some tt); embedded_WithCallerAuthorizer (Some rejectAllAuthorizer)].
Definition demo_engine : option (engine (store := unit) (clock := unit) (Artifact := unit)) :=
  match New tt demo_options with Ok e => Some e | Err _ => None end.

Lemma engine_fail_closed_witness :
  exists e, demo_engine = Some e /\ en_store e = Some tt /\
    forall ctx slotFree request r,
      InvokeApprovalVerifier ctx slotFree (ap_ApprovalVerifier (en_authorization e)) request <> Ok r.
Proof.
  eexists. split; [reflexivity|].
  destruct (engine_fail_closed (Artifact := unit) tt demo_options _ eq_refl) as ((s & a & _ & _ & Hs & _) & _ & _ & Ha & _).
  split; [reflexivity|]. exact (Ha eq_refl).
Defined.
