(* ===== verification/WitnessesSqlite.v ===== *)
(** Concrete instances of the properties of the SQLite store. *)

From Stdlib Require Import ZArith Lia Sorted.
From stdpp Require Import base list gmap strings.
From S2P Require Import Prelude Limits Text Types Cost Canon Data Policy Events Revisions Avl Index Cursor Fingerprint StoreData MemState MemOps MemData MemWrite MemReads SqliteCodec SqliteData SqliteCursor SqliteDb SqliteStore SqliteEffects SqliteFacts SqliteWrite SqliteReads SqlitePolicies SqliteProgress Witnesses.

(** * An empty database, one published revision and one data write *)

Definition sql_tx : txEnv := mkTxEnv (fun _ => LiveContext) (fun _ => None) (Some sample_now) false (fun _ d => d).
Definition sql_env : callEnv := mkCallEnv (fun _ => LiveContext) QueueServed sql_tx None CommitDone None.

Lemma sql_calm : calm sql_env.
Proof. by repeat split. Qed.

Definition sql_d0 : database := mkDatabase ∅ ∅ ∅ ∅ ∅ ∅ ∅ ∅ ∅.
Definition sql_d1 : database := Eval vm_compute in snd (sqlite_PutRevision sample_key sql_env None sample_put sql_d0).

Definition sql_write : WriteDataRequest :=
  mkWriteDataRequest "acme" published_id 0 "key-1"
    [mkRelationshipTuple (sample_tuple "bob") (sample_now + Hour) true] [mkTupleKey (sample_tuple "carol")]
    [sample_attribute ["size"; "bytes"]] [mkAttributeKey sample_entity ["owner"]].
Definition sql_canonical : WriteDataRequest := Eval vm_compute in
  match NewWriteDataRequest (request_input sql_write) with Ok r => r | Err _ => sql_write end.

Lemma run_parts {A B C} (x : A * B * C) a c : fst (fst x) = a -> snd x = c -> exists b, x = (a, b, c).
Proof. destruct x as [[? b] ?]. cbn. intros <- <-. by exists b. Qed.

Lemma sql_write_runs : exists d2, sqlite_WriteData sample_key sql_env sql_write sql_d1 = (Ok (mkWriteDataResponse 1 false), d2, true).
Proof. apply (run_parts (sqlite_WriteData sample_key sql_env sql_write sql_d1)); vm_compute; reflexivity. Qed.

(** * What the tables hold *)

Lemma single_key {K A} `{Countable K} (m : gmap K A) k0 : map fst (map_to_list m) = [k0] -> forall k x, m !! k = Some x -> k = k0.
Proof.
  intros E k x Hk%elem_of_map_to_list. assert (Hin : k ∈ map fst (map_to_list m)) by (apply list_elem_of_fmap; by exists (k, x)).
  rewrite E in Hin. by apply list_elem_of_singleton in Hin.
Qed.

Lemma sql_d1_ok : namespace_ok "acme" sql_d1.
Proof.
  assert (E : map fst (map_to_list (db_events sql_d1)) = [("acme"%string, 1)]) by (vm_compute; reflexivity).
  assert (Hh : hd_expiredThrough (head_row sql_d1 "acme") = 0 /\ hd_eventSequence (head_row sql_d1 "acme") = 1 /\
    hd_dataGeneration (head_row sql_d1 "acme") = 0) by (vm_compute; auto).
  destruct Hh as (H1 & H2 & H3). unfold namespace_ok, stream_ok, head_ok. rewrite H1, H2, H3. split; [|by split].
  split; [lia|]. intros n row Hn. apply (single_key _ _ E) in Hn. injection Hn as ->. lia.
Qed.

Lemma sql_write_machine : request_machine sql_write.
Proof. repeat constructor; by vm_compute. Qed.

Lemma sql_d1_tuples : tuples_held "acme" ∅ sql_d1.
Proof. split; [by intros t v ?%lookup_empty_Some|]. intros key row. replace (db_tuples sql_d1) with (∅ : gmap (string * list Z) tupleRow) by done. by rewrite lookup_empty. Qed.

Lemma sql_d1_attributes : attributes_held "acme" ∅ sql_d1.
Proof.
  split.
  - by intros k a ?%lookup_empty_Some.
  - intros key row. replace (db_attributes sql_d1) with (∅ : gmap (string * list Z) attributeRow) by done. by rewrite lookup_empty.
  - intros key anc. replace (db_ancestors sql_d1) with (∅ : gset (string * list Z * list Z)) by done. split; [set_solver|].
    intros (k & _ & [a Ha%lookup_empty_Some] & _). done.
Qed.

(** The facts after the write, and the snapshot that reads them. *)
Lemma sql_d2_facts : exists d2 view, sqlite_WriteData sample_key sql_env sql_write sql_d1 = (Ok (mkWriteDataResponse 1 false), d2, true) /\
  openPinnedSnapshot sql_tx None (mkSnapshotRequest "acme" 1 sample_now) sample_now (sample_now - unixToInternal * Second) d2 = Ok view /\
  tuples_held "acme" (spec_tuples sql_canonical ∅) d2 /\ attributes_held "acme" (spec_attributes sql_canonical ∅) d2.
Proof.
  destruct sql_write_runs as [d2 E]. pose proof (write_refines _ _ _ _ _ _ _ E sql_d1_ok sql_write_machine) as Hw.
  assert (Hv : exists view, openPinnedSnapshot sql_tx None (mkSnapshotRequest "acme" 1 sample_now) sample_now
    (sample_now - unixToInternal * Second) (snd (fst (sqlite_WriteData sample_key sql_env sql_write sql_d1))) = Ok view).
  { apply is_ok_true. vm_compute. reflexivity. }
  rewrite E in Hv. destruct Hv as [view Hview]. exists d2, view. split; [exact E|]. split; [exact Hview|]. clear E Hview.
  destruct Hw as [(e & He & _)|(canonical & fp & response & Hc & Hfp & Hx & Hr)]; [discriminate He|].
  assert (canonical = sql_canonical) as ->. { apply Ok_inj. rewrite <- Hc. vm_compute. reflexivity. }
  destruct Hr as [[Hr _]|(Hf & _)]; [|discriminate Hf]. injection Hr as <-. destruct Hx as [(_ & row & stored & _ & _ & Hx)|Hx]; [discriminate Hx|].
  pose proof (dw_tuples _ _ _ _ _ _ Hx) as HT. pose proof (dw_attributes _ _ _ _ _ _ Hx) as HA.
  assert (En : wd_namespace sql_canonical = "acme"%string) by reflexivity. rewrite En in HT, HA.
  split; [exact (HT _ sql_d1_tuples)|exact (proj1 (HA _ sql_d1_attributes))].
Qed.

(** * Witnesses *)

Lemma sqlite_write_refines_witness : exists d2,
  sqlite_WriteData sample_key sql_env sql_write sql_d1 = (Ok (mkWriteDataResponse 1 false), d2, true) /\
  write_outcome sample_key sql_env sql_write sql_d1 (Ok (mkWriteDataResponse 1 false)) d2 true.
Proof.
  destruct sql_write_runs as [d2 E]. exists d2. split; [exact E|].
  exact (sqlite_write_refines sample_key sql_env sql_write sql_d1 _ d2 true E sql_d1_ok sql_write_machine).
Defined.

Lemma sqlite_retry_replays_witness : exists d2,
  sqlite_WriteData sample_key sql_env sql_write sql_d1 = (Ok (mkWriteDataResponse 1 false), d2, true) /\
  sqlite_WriteData sample_key sql_env sql_write d2 = (Ok (mkWriteDataResponse (0 + 1) true), d2, false).
Proof.
  destruct sql_write_runs as [d2 E]. exists d2. split; [exact E|].
  refine (sqlite_retry_replays sample_key sql_env sql_write sql_d1 _ d2 true sql_env d2 E sql_d1_ok sql_write_machine _ sql_calm eq_refl).
  intros ->. assert (N : map_to_list (db_tuples (snd (fst (sqlite_WriteData sample_key sql_env sql_write sql_d1)))) <> []) by (vm_compute; discriminate).
  rewrite E in N. apply N. vm_compute. reflexivity.
Defined.

Lemma empty_keyed : attributes_keyed ∅.
Proof. intros k a Hk. by apply lookup_empty_Some in Hk. Qed.

Lemma sql_keyed : attributes_keyed (spec_attributes sql_canonical ∅).
Proof.
  assert (F : exists sf, FingerprintWriteData sql_canonical = Ok sf) by (apply is_ok_true; vm_compute; reflexivity).
  destruct F as [sf F]. exact (spec_attributes_keyed sql_canonical ∅ (fingerprinted_ok _ _ F) empty_keyed).
Qed.

Lemma sqlite_reads_exact_witness : exists d2 view,
  sqs_generation view = hd_dataGeneration (head_row d2 "acme") /\
  (exists stored, lists_facts (spec_tuples sql_canonical ∅) (mkTupleQuery sample_entity "viewer" 10) stored /\
    tuple_page (mkTupleQuery sample_entity "viewer" 10) sample_now stored
      (sqlite_QueryTuples (fun _ => LiveContext) rows_intact view (mkTupleQuery sample_entity "viewer" 10) d2)) /\
  sqlite_GetAttribute (fun _ => LiveContext) None view (mkAttributeKey sample_entity ["size"]) d2 =
    attribute_answer (spec_attributes sql_canonical ∅) (mkAttributeKey sample_entity ["size"]).
Proof.
  destruct sql_d2_facts as (d2 & view & _ & Hopen & HT & HA). exists d2, view.
  assert (Hk : exists bs, encodeAttributeKey (mkAttributeKey sample_entity ["size"]) = Ok bs) by (apply is_ok_true; vm_compute; reflexivity).
  destruct Hk as [bs Hk].
  assert (Ht : sqliteTimestamp sample_now = Some (sample_now, sample_now - unixToInternal * Second)) by (vm_compute; reflexivity).
  destruct (sqlite_reads_exact sql_tx None (mkSnapshotRequest "acme" 1 sample_now) sample_now _ d2 view (fun _ => LiveContext) _ _
    Hopen Ht HT HA sql_keyed (fun _ => eq_refl)) as (Hg & Hq & Ha).
  assert (Hv : TupleQuery_Valid (mkTupleQuery sample_entity "viewer" 10) = true) by (vm_compute; reflexivity).
  destruct (Hq _ Hv) as (stored & Hf & Hp & _). split; [exact Hg|]. split; [by exists stored|exact (proj1 (Ha _ _ Hk))].
Defined.

Lemma sql_d0_ok ns : namespace_ok ns sql_d0.
Proof.
  assert (E : head_row sql_d0 ns = mkHeadRow 0 0 0 None) by done. unfold namespace_ok, stream_ok, head_ok. rewrite E. cbn.
  split; [|done]. split; [lia|]. intros n row. by rewrite lookup_empty.
Qed.

Lemma sqlite_publish_once_witness : exists r d1, sqlite_PutRevision sample_key sql_env None sample_put sql_d0 = (r, d1) /\ is_ok r = true /\
  put_outcome sample_key sql_env sample_put sql_d0 r d1.
Proof.
  assert (E : is_ok (fst (sqlite_PutRevision sample_key sql_env None sample_put sql_d0)) = true) by (vm_compute; reflexivity).
  destruct (sqlite_PutRevision sample_key sql_env None sample_put sql_d0) as [r d1] eqn:Hr. exists r, d1. split; [reflexivity|]. split; [exact E|].
  refine (sqlite_publish_once sample_key sql_env None sample_put sql_d0 r d1 Hr (sql_d0_ok _) _). constructor.
Defined.

Definition sql_activation : ActivateRequest := mkActivateRequest "acme" "production" published_id NewUnsetSlotExpectation.

Lemma sqlite_activate_cas_witness : exists r d2, sqlite_Activate sample_key 3 sql_env sql_activation sql_d1 = (r, d2) /\ is_ok r = true /\
  activate_outcome sample_key sql_env 3 sql_activation sql_d1 r d2.
Proof.
  assert (E : is_ok (fst (sqlite_Activate sample_key 3 sql_env sql_activation sql_d1)) = true) by (vm_compute; reflexivity).
  destruct (sqlite_Activate sample_key 3 sql_env sql_activation sql_d1) as [r d2] eqn:Hr. exists r, d2. split; [reflexivity|]. split; [exact E|].
  exact (sqlite_activate_cas sample_key sql_env 3 sql_activation sql_d1 r d2 Hr sql_d1_ok).
Defined.

#[export] Instance toy_laws : DslLaws toy_dsl.
Proof.
  split; [by intros a; split; [|by apply Forall_replicate]|]. intros l. split; [done|]. apply Forall_app.
  split; [by apply Forall_replicate|]. constructor; [unfold is_byte; apply Z.mod_pos_bound; lia|constructor].
Qed.

(** The published row decodes, and the head has recorded a durable time. *)
Lemma sql_d1_revision : exists row record, db_revisions sql_d1 !! ("acme"%string, published_id) = Some row /\
  decodeRevisionRecord "acme" published_id (rvr_artifact row) (rvr_provenance row) (rvr_publishedAtNS row) = Ok record.
Proof.
  destruct (db_revisions sql_d1 !! ("acme"%string, published_id)) as [row|] eqn:E; [|vm_compute in E; discriminate E].
  exists row. assert (R : exists record, decodeRevisionRecord "acme" published_id (rvr_artifact row) (rvr_provenance row) (rvr_publishedAtNS row) = Ok record).
  { apply is_ok_true. vm_compute in E. injection E as <-. vm_compute. reflexivity. }
  destruct R as [record R]. by exists record.
Qed.

Lemma sql_d1_time : recorded_time_ok (head_row sql_d1 "acme").
Proof. intros t Ht. vm_compute in Ht. injection Ht as <-. unfold timestamp_range. vm_compute. split; discriminate. Qed.

Lemma sql_admissible : sqlite_admissible sql_canonical ∅ sql_d1.
Proof.
  split.
  - vm_compute; reflexivity.
  - exact sql_d1_revision.
  - vm_compute; reflexivity.
  - vm_compute; reflexivity.
  - vm_compute; reflexivity.
  - exact sql_d1_time.
  - constructor; [|constructor]. intros _. apply (mk_is_Some _ (sample_now + Hour, sample_now + Hour - unixToInternal * Second)). vm_compute. reflexivity.
  - exact sql_d1_attributes.
  - intros (a & _ & k & b & Hk & _). unfold remove_keys in Hk. cbn in Hk. rewrite delete_empty, lookup_empty in Hk. done.
Qed.

Lemma sql_activation_admissible : activation_admissible 3 sql_activation sql_d1.
Proof.
  assert (E : db_slots sql_d1 = ∅ /\ db_history sql_d1 = ∅) by done. destruct E as [Es Eh].
  split.
  - lia.
  - exact sql_d1_revision.
  - intros row. by rewrite Es, lookup_empty.
  - unfold slot_expected. cbn. reflexivity.
  - intros g. rewrite Eh, lookup_empty. by intros [].
  - vm_compute; reflexivity.
  - exact sql_d1_time.
Qed.

(** Two calls on the database that holds the revision, and the publication
    on the empty one. *)
Lemma sqlite_commits_witness :
  (exists d2, sqlite_WriteData sample_key sql_env sql_write sql_d1 = (Ok (mkWriteDataResponse (0 + 1) false), d2, true)) /\
  (exists response d2, sqlite_Activate sample_key 3 sql_env sql_activation sql_d1 = (Ok response, d2)) /\
  (exists record d1, sqlite_PutRevision sample_key sql_env None sample_put sql_d0 = (Ok (mkPutRevisionResult record true), d1)).
Proof.
  assert (Ht : is_Some (sqliteTimestamp sample_now)).
  { apply (mk_is_Some _ (sample_now, sample_now - unixToInternal * Second)). vm_compute. reflexivity. }
  assert (Hc : NewWriteDataRequest (request_input sql_write) = Ok sql_canonical) by (vm_compute; reflexivity).
  destruct (sqlite_commits sample_key sql_env sample_now sql_d1 sql_calm eq_refl Ht) as (Hw & _ & Ha).
  destruct (sqlite_commits sample_key sql_env sample_now sql_d0 sql_calm eq_refl Ht) as (_ & Hp & _). split; [|split].
  - destruct (Hw sql_write sql_canonical ∅ Hc sql_write_machine sql_d1_ok sql_admissible) as (_ & d2 & _ & E & _). exists d2. exact E.
  - destruct (Ha 3 sql_activation ltac:(vm_compute; reflexivity) sql_d1_ok sql_activation_admissible) as (response & d2 & E & _). exists response, d2. exact E.
  - assert (R : exists x, canonicalRevisionRecord sample_put = Ok x) by (apply is_ok_true; vm_compute; reflexivity).
    destruct R as [[[record nanos] provenance] R].
    destruct (Hp sample_put record nanos provenance R ltac:(constructor) (sql_d0_ok _)) as (d1 & E & _); [|exists record, d1; exact E].
    split; [apply lookup_empty|reflexivity|intros t; discriminate].
Defined.

Lemma durable_codecs_exact_witness : exists bs, encodeTupleKey (sample_tuple "bob") = Ok bs /\ decodeTupleKey bs = Ok (sample_tuple "bob").
Proof.
  assert (E : exists bs, encodeTupleKey (sample_tuple "bob") = Ok bs) by (apply is_ok_true; vm_compute; reflexivity).
  destruct E as [bs E]. exists bs. split; [exact E|].
  exact (proj2 (proj1 (durable_codecs_exact bs (encodeTupleKey_bytes _ _ E)) (sample_tuple "bob")) E).
Defined.

(** * A page across a concurrent prune

    [ListEvents] reads the watermark and the rows in two statements outside a
    transaction. Between them a write at a later time may commit and prune. *)

Definition later_env : callEnv := mkCallEnv (fun _ => LiveContext) QueueServed
  (mkTxEnv (fun _ => LiveContext) (fun _ => None) (Some (sample_now + 25 * Hour)) false (fun _ d => d)) None CommitDone None.

(** Events 1 and 2, published and written at the sample time. *)
Definition race_before : database := snd (fst (sqlite_WriteData sample_key sql_env sql_write sql_d1)).
(** Event 3, written 25 hours later, which prunes events 1 and 2. *)
Definition race_write : WriteDataRequest := mkWriteDataRequest "acme" published_id 1 "key-2" [] [mkTupleKey (sample_tuple "bob")] [] [].
Definition race_after : database := snd (fst (sqlite_WriteData sample_key later_env race_write race_before)).

Definition stored_events (d : database) (n : Z) : list StateEvent :=
  match db_events d !! ("acme"%string, n) with
  | Some row => match decodeStateEvent (evr_payload row) with Ok e => [e] | Err _ => [] end
  | None => []
  end.
Definition race_cursor : string := match stored_events race_before 1 with e :: _ => ev_cursor e | [] => ""%string end.

(** The page after event 1 when the watermark is read in [first] and the rows in [second]. *)
Definition race_page (first second : database) : result (list StateEvent) :=
  let env := mkTxEnv (fun _ => LiveContext) (fun _ => None) None false (fun n _ => if (n <=? 1)%nat then first else second) in
  let request := mkListEventsRequest "acme" race_cursor 10 in
  let? cursor := decodeCursor sample_key race_cursor cursorDomainEvent "acme" "" in
  store_read env None (events_page sample_key request cursor) first.

(** Read before the write, the page holds event 2; read after it, the cursor is
    expired; read across it, the page silently starts at event 3. *)
Lemma list_events_skips_pruned :
  race_page race_before race_before = Ok (stored_events race_before 2) /\
  race_page race_after race_after = Err ErrorCursorExpired /\
  race_page race_before race_after = Ok (stored_events race_after 3) /\
  length (stored_events race_before 2) = 1%nat /\ length (stored_events race_after 3) = 1%nat.
Proof. vm_compute. repeat split. Qed.

(** * A commit that is not announced

    The handler wakes the waiting snapshots only when it answers. A write whose
    caller left after the writer had taken it commits, and neither the call nor
    its retry wakes anyone. *)

Definition left_env : callEnv := mkCallEnv (fun _ => LiveContext) (QueueAbandoned ErrorCanceled true) sql_tx None CommitDone None.

Lemma abandoned_write_unannounced :
  let '(r, d2, notified) := sqlite_WriteData sample_key left_env sql_write sql_d1 in
  let '(r', _, notified') := sqlite_WriteData sample_key sql_env sql_write d2 in
  r = Err ErrorCanceled /\ hd_dataGeneration (head_row d2 "acme") = 1 /\ notified = false /\
  r' = Ok (mkWriteDataResponse 1 true) /\ notified' = false.
Proof. vm_compute. repeat split. Qed.
